(* ===== verification/_CoqProject ===== *)
-Q . S2P
Prelude.v
Diagnostics.v
IRTypes.v
Hashes.v
Json.v
IRValidate.v
ValidateFacts.v
Frozen.v
FrozenFacts.v
Catalog.v
CatalogFacts.v
CatalogRefs.v
Secretbox.v
Depgraph.v
DepgraphFacts.v
Capability.v
Labels.v
Adapter.v
Network.v
Domains.v
Xray.v
Singbox.v
Mihomo.v
Compiler.v
Compile.v
RouteFacts.v
ExpandFacts.v
MemberFacts.v
GraphFacts.v
PrepareFacts.v
ConditionFacts.v
EmitFacts.v
XrayFacts.v
SingboxFacts.v
MihomoRules.v
MihomoFacts.v
CompileFacts.v
Base64.v
URLText.v
SafeFetch.v
ApiError.v
StoreDB.v
Store.v
StoreFacts.v
NodePatch.v
Override.v
OverrideFacts.v
ShareTypes.v
ShareLink.v
ShareVMess.v
ShareParse.v
ShareEmit.v
ShareFacts.v
ShareSafe.v
ShareBatch.v
ShareExport.v
ShareRound.v
RunnerProtocol.v
Sources.v
Jobs.v
Queue.v
Publication.v
QueueFacts.v
QueueSteps.v
QueueEnds.v
QueueLaws.v
QueueTheorems.v
Sample.v
StoreTheorems.v
SourceTheorems.v
FetchTheorems.v
OverrideTheorems.v
ShareTheorems.v
CompilerTheorems.v
IRTheorems.v
CatalogTheorems.v
EmitTheorems.v
NativeTheorems.v
