(* ===== verification/Prelude.v ===== *)
(** * ProxyLoom: a model of its compile path, its imports and its transactions

    ProxyLoom imports proxy nodes from share links and remote sources, keeps them with
    chains, policy groups, routing, DNS, rule sets and client presets in a catalog, turns
    a selection of the catalog into configuration files for three proxy cores (Xray,
    sing-box, Mihomo), and runs imports, compilations and network tests as durable jobs.
    This development models the parts of [src/internal] that decide what is stored, what
    is fetched, what is published and what a job may do.

    ** Parts and files

    Every file requires files listed above it in [_CoqProject] only.

    Shared:
    - [Prelude]: Go strings and their order, sorting, errors and panics, range
      loops, decimal numbers; the lemmas the components share.
    - [Diagnostics]: [ir/diagnostic.go]. Codes, messages, JSON pointers, the stable
      order of diagnostics.
    - [Hashes]: SHA-256, SHA-1 and hexadecimal as the code uses them. [Json]: the JSON
      texts the code writes. [Base64], [URLText]: [encoding/base64], [unicode/utf8] and
      the percent encoding of [net/url].

    The compile path:
    - [IRTypes]: the records and unions of [ir/*.go]. A Go interface value that holds
      a nil pointer has a constructor of its own ([_typed_nil]), since a type switch
      accepts it and a field access panics.
    - [IRValidate], [ValidateFacts]: the [Validate] methods, [MergePolicyOverride],
      the content hash of rule sets; what they accept.
    - [Frozen], [FrozenFacts]: [ir/frozen.go]. [FrozenInputSpec] validation,
      [NewFrozenInput], lookups; the specification [WellFormed] and the canonical form.
    - [Catalog], [CatalogFacts]: [catalog/resource.go], [catalog/dns.go]. Create,
      update, revoke, delete with revision and security epoch; references. The life
      of a resource is the step relation [step], its closure [history].
    - [Depgraph], [DepgraphFacts]: [depgraph/depgraph.go]. The depth-first expansion
      with its shared state as a record.
    - [Capability]: [capability/*.go]. The catalog of core builds.
    - [Labels]: [compiler/label.go]. The assignment loop and its theorems.
    - [Adapter]: [adapter/emit.go], [orchestration.go], [node.go]. What an emitter reads
      and the checks all emitters share.
    - [Network], [Domains], [Xray], [Singbox], [Mihomo]: [adapter/xray],
      [adapter/singbox], [adapter/mihomo] ([emit.go], [node.go], [orchestration.go],
      [dns.go] of each). The native document as records, one definition per loop of
      the emitter, and the text it is written as; [Domains] has the reduction of a
      condition to domain patterns that two of them share.
    - [Compiler] and [RouteFacts], [ExpandFacts], [MemberFacts], [GraphFacts],
      [PrepareFacts]: [compiler/protocol.go], [prepare.go], [orchestration.go]. One
      definition per closure and loop of [Prepare]; the facts follow its phases:
      routing conditions, expansion to nodes, chains and groups, the outbounds of group
      members, the orchestrated graph, the whole.
    - [Compile], [CompileFacts]: [compiler/compile.go], [emit.go]. Preparation, the
      emitter of the family, the size of the artifact; failures explain themselves.
    - [ConditionFacts], [EmitFacts]: what a prepared graph promises the emitters: nodes
      with concrete credentials, conditions of the compiler's kinds ([EmitReady]), names
      that a rule line can carry ([TextReady]).
    - [XrayFacts], [SingboxFacts], [MihomoRules], [MihomoFacts]: a core's reading of its
      document ([native_route], [native_dns]) and that it is what the input says
      ([Emitted]).
    - [Publication]: [compiler/publication.go] and [publication_evidence.go], over
      decoded documents.

    Catalog transactions:
    - [Secretbox]: [secretbox/secretbox.go]. The class [Vault] says what the storage
      relies on: sealing binds a text to its place, digests are keyed by purpose; the
      instance [secretbox_vault] discharges it from AES-GCM and HMAC ([Primitives]).
    - [CatalogRefs]: [catalog/policy_group.go], [routing.go], [dns.go]. References are
      resolved against what a transaction reads.
    - [StoreDB]: the tables of [storage/queries/*.sql] as finite maps, a statement as a
      function to new tables or a server error. [Store]: [storage/catalog*.go],
      [node_reads.go], [idempotency.go], [catalog/node_tx.go], [presets.go], with the
      failure latch of [transactRaw]. [StoreFacts]: inversion, effects, the invariant.

    Imports:
    - [ShareTypes], [ShareLink], [ShareVMess], [ShareParse], [ShareEmit]:
      [importparse/*.go], [server/exports.go], [origin/origin.go]. The parsers of links
      and lists, the emitter of links, the identity of imported items; [net/url],
      [encoding/json] and trimming are the class [ShareLibs] with [TrimLaws].
      [ShareFacts], [ShareSafe], [ShareBatch], [ShareExport], [ShareRound]: fields of an
      accepted node, refusals, lists, and the round trips.
    - [ApiError], [NodePatch], [Override], [OverrideFacts]: [apicontract/errors.go],
      [node.go], [override/override.go]. Patches over a node; [Restore] writes through
      shared pointers, so documents come as values and as pointers into a [Heap].
    - [Sources]: [source/source.go], [storage/source_persist.go], [sources.go],
      [source_reads.go], the failures of [sources_refresh.go]. Documents of sources in
      the catalog tables with schedules and pending previews ([SourceLibs]).
    - [SafeFetch]: [safefetch/addr.go], [safefetch.go], with the redirect loop of
      [net/http]. The network is a function of everything that happened before
      ([World]), so a name may resolve to another address each time it is asked.

    Jobs:
    - [RunnerProtocol], [Jobs]: [runnerprotocol/protocol.go], [network.go], [jobs/*.go]:
      the values the queue and its runners exchange, their validators and digests.
    - [Queue]: [storage/jobs.go], [jobs_results.go], [jobs_quota.go], [jobs_reads.go]. The
      tables as finite maps and lists; one definition per transaction, in a monad that
      reads a clock, draws identifiers and rolls everything back on an error.
    - [QueueFacts]: weakest preconditions, the invariant of the tables, the automaton of
      a job and what it keeps. [QueueSteps], [QueueEnds], [QueueLaws]: each operation
      against them, histories as a step relation, refusals, replays, sums.

    Properties: [CompilerTheorems], [IRTheorems], [CatalogTheorems], [EmitTheorems],
    [NativeTheorems], [QueueTheorems], [StoreTheorems], [SourceTheorems],
    [FetchTheorems], [OverrideTheorems], [ShareTheorems]. [Sample] has the snapshot, the
    platform and the program's two embedded lock files on which their witnesses run.

    ** How the code is modelled

    Pure functions are functions. An operation that returns an error is a [result];
    one that can also panic (a failed type assertion, an index out of range) is an
    [outcome], and [safe o Q] says that it does not panic and that its value
    satisfies [Q]. A closure that changes captured variables takes and returns their
    record. Loops over maps run over sorted keys exactly where the code sorts them.
    An [int64] counter is a [Z] with the code's own guard against [MaxInt64]. Deep
    copies are the values themselves, except where the code shares pointers and writes
    through them ([Override]).

    A transaction is a function from the tables to its result and new tables. A failed
    statement fails every later one of the transaction, and the tables are rolled back by
    the transaction, not by the call. Writers of one scope are serialized by its lock, so
    row locks are not modelled. The rows that other components keep in the same database
    are the field [dc_side].

    Outside code is a parameter with named hypotheses. [Platform] holds the JSON
    schema validator, [net/url] and [net/netip]; [Network] what the emitters use of the
    last two; [Upper] and [YAML] the upper case and the encoder of Mihomo's; [GoText]
    Unicode lower case and trimming; [Codec] the storage encoding; [ApiFields],
    [Boundary], [DocumentCodec] the JSON decoders in front of the overrides;
    [ShareLibs], [SourceLibs], [FetchLibs] the libraries of their components, with
    [TrimLaws], [SourceLaws], [FetchLaws]. [SchemaContract] states the few schema
    constraints that the compiler relies on (two hops, groups of nodes and chains,
    resource or builtin references, profile kinds), [OrderBlind] that the schema does not
    depend on the order of lists that are sets, [CodecRoundTrip] and [NodeRoundTrip] that
    a stored value is read back, [SchemaVersionFixed] that documents carry the version of
    their schema. [EmitContract] and [TextContract] are the same for the emitters: the
    fields the schema requires of a node, the characters it allows in the values of a
    rule. Concrete instances satisfy all of them. The decoders of native documents are
    arguments.

    How a core reads its document is outside code too. [XrayMatching], [SingboxMatching],
    [MihomoMatching] and [PayloadMatching] are classes over one connection or name: they
    say what the documentation of the core says of one field, pattern or rule line, and
    nothing of the documents this program writes; each has an instance that computes
    ([core_matching]). First match over a list of rules is defined here.

    ** Fuel

    [Expand] uses the resource limit as fuel: the path grows by one at each level and
    the limit check stops it first ([walk_total]). The label loop has [58] rounds per
    item: every round with a collision lengthens a label and none can outgrow its 64
    digits twice ([assign_states_total]). The reachability queue has one step per
    root and per resource ([walk_queue_total]). The resolution of references has
    [MaxFrozenResources + 1], since each descent follows a lookup
    ([ResolveTargetReferences_total]). The scan of a VMess document has two steps per
    token and two more; the envelopes of a list have one round more than the two Base64
    layers the code removes. A fetch has one hop more than the redirects its request
    allows. Out of fuel is a value of its own, and the theorems prove that it does not
    happen.

    ** What the theorems show

    - The compiler (C1-C6): it returns a document or an explained error and never
      panics; the document a core reads routes every connection, and answers every name,
      as the profiles of the snapshot say; its outbounds are those of the graph.
    - Jobs (C7-C12): an invariant of every history, the automaton of a job, leases that
      expire or are superseded, replayed results, quota accounts, recovery.
    - Catalog transactions (C13-C19): all or nothing, readable and bound records, no lost
      update, one effect per request key, live references, key rotation.
    - Sources (C20-C24): what is scheduled, updated and deleted; the backoff of failures,
      and the preview they leave.
    - Fetching (C25-C28): only public addresses are dialed whatever the network answers;
      headers, redirects and sizes.
    - Share links (C29-C31): what is exported is imported again; what is accepted is safe
      and bounded.
    - Overrides and the boundary (C32-C34): the merge keeps the source's fields, the
      pointer version is the value version, error responses carry nothing else.
    - Preparation, inputs and publication (C35-C40): distinct tags, first match, exact
      validation, typed graphs, exact expansion, local publication only.

    Theorems of [NativeTheorems] show inputs that the emitters refuse without need:
    a guard that looks for a word in a rule line or in an encoded outbound also finds it
    in the name of a destination, or in a password.

    ** Not modelled

    The HTTP server, its routes and sessions, the runner's processes, the network probes
    and the commands are I/O around the parts above. The reads for paged lists change no
    state. The strict JSON reader ([ir/json.go]) is the schema validator's parameter. Not
    reached: the compile plan ([compiler/plan.go]), import sessions, the success path of a
    source refresh and the enqueueing of its jobs, subscriptions and their tokens,
    verification of chains, operations, and the retention that deletes old receipts. *)
From stdpp Require Export base gmap strings list pretty sorting relations.
From Stdlib Require Export Ascii.

(** * Shared vocabulary of the development *)


Declare Scope go_scope.
Delimit Scope go_scope with go.
#[global] Open Scope string_scope.
#[global] Open Scope list_scope.
#[global] Open Scope go_scope.
#[global] Open Scope Z_scope.

(** ** Go strings

    A Go string is a byte string; [string] is a list of 8-bit characters, and
    Go's [<] on strings is the byte-wise lexicographic order. *)

Abbreviation ID := string (only parsing).

Definition go_leb (a b : string) : bool := String.leb a b.
Definition go_ltb (a b : string) : bool := String.ltb a b.

Notation "a =s b" := (String.eqb a b) (at level 70) : go_scope.
Notation "a <s b" := (go_ltb a b) (at level 70) : go_scope.

(** [+:+] does not reduce by [simpl]: these equations are its computation. *)
Lemma string_app_empty_l (s : string) : "" +:+ s = s.
Proof. done. Qed.
Lemma string_app_empty_r (s : string) : s +:+ "" = s.
Proof. induction s as [|c s IH]; [done|]. exact (f_equal (String c) IH). Qed.
Lemma string_app_cons c (s t : string) : String c s +:+ t = String c (s +:+ t).
Proof. done. Qed.
Lemma string_app_assoc (s t u : string) : (s +:+ t) +:+ u = s +:+ t +:+ u.
Proof. induction s as [|c s IH]; [done|]. exact (f_equal (String c) IH). Qed.

Lemma string_app_cancel (a s t : string) : a +:+ s = a +:+ t → s = t.
Proof. induction a as [|c a IH]; [done|]. intros E. apply IH. by injection E. Qed.

Create Rewrite HintDb go_str.
#[export] Hint Rewrite string_app_empty_l string_app_empty_r string_app_cons
  string_app_assoc : go_str.
Ltac str_simpl := autorewrite with go_str in *.

(** The three-way comparison that [internal/ir] and [internal/compiler] each
    declare for [slices.SortFunc]. *)
Definition compareString (a b : string) : Z :=
  if a <s b then -1 else if b <s a then 1 else 0.

(** [strconv.Itoa] and [strconv.FormatInt(_, 10)]. *)
Definition Itoa (n : Z) : string := pretty n.
Definition index_string (i : nat) : string := Itoa (Z.of_nat i).

Lemma ascii_compare_refl c : Ascii.compare c c = Eq.
Proof. unfold Ascii.compare. apply N.compare_refl. Qed.

Lemma ascii_compare_trans a b c :
  Ascii.compare a b = Lt → Ascii.compare b c = Lt → Ascii.compare a c = Lt.
Proof.
  unfold Ascii.compare. rewrite !N.compare_lt_iff. intros. by etransitivity.
Qed.

Lemma string_compare_refl s : String.compare s s = Eq.
Proof. induction s as [|c s IH]; simpl; [done|]. by rewrite ascii_compare_refl. Qed.

Lemma string_compare_lt_trans a b c :
  String.compare a b = Lt → String.compare b c = Lt → String.compare a c = Lt.
Proof.
  revert b c. induction a as [|x a IH]; intros [|y b] [|z c]; simpl; try done.
  destruct (Ascii.compare x y) eqn:E1; [|intros _|done].
  - apply Ascii.compare_eq_iff in E1 as ->.
    destruct (Ascii.compare y z); [apply IH|done..].
  - destruct (Ascii.compare y z) eqn:E2; [|intros _|done].
    + apply Ascii.compare_eq_iff in E2 as ->. by rewrite E1.
    + by rewrite (ascii_compare_trans x y z).
Qed.

Lemma go_ltb_lt a b : go_ltb a b = true ↔ String.compare a b = Lt.
Proof. unfold go_ltb, String.ltb. by destruct (String.compare a b). Qed.

Lemma go_leb_nlt a b : go_leb a b = negb (go_ltb b a).
Proof.
  unfold go_leb, go_ltb, String.leb, String.ltb.
  rewrite (String.compare_antisym a b). by destruct (String.compare b a).
Qed.

Lemma go_ltb_irrefl a : go_ltb a a = false.
Proof. unfold go_ltb, String.ltb. by rewrite string_compare_refl. Qed.

Lemma go_ltb_trans a b c : go_ltb a b = true → go_ltb b c = true → go_ltb a c = true.
Proof. rewrite !go_ltb_lt. apply string_compare_lt_trans. Qed.

Lemma go_ltb_asymm a b : go_ltb a b = true → go_ltb b a = false.
Proof.
  intros H. apply not_true_iff_false. intros H'.
  pose proof (go_ltb_trans _ _ _ H H') as Hc. by rewrite go_ltb_irrefl in Hc.
Qed.

Lemma go_ltb_trichotomy a b : go_ltb a b = false → go_ltb b a = false → a = b.
Proof.
  unfold go_ltb, String.ltb. rewrite (String.compare_antisym b a).
  destruct (String.compare a b) eqn:E; simpl; try done.
  intros _ _. by apply String.compare_eq_iff.
Qed.

Lemma go_leb_total a b : go_leb a b = true ∨ go_leb b a = true.
Proof.
  rewrite !go_leb_nlt. destruct (go_ltb b a) eqn:E; [|by left].
  right. by rewrite (go_ltb_asymm _ _ E).
Qed.

Lemma go_leb_antisymm a b : go_leb a b = true → go_leb b a = true → a = b.
Proof. rewrite !go_leb_nlt, !negb_true_iff. intros. by apply go_ltb_trichotomy. Qed.

Lemma go_leb_trans a b c : go_leb a b = true → go_leb b c = true → go_leb a c = true.
Proof.
  rewrite !go_leb_nlt, !negb_true_iff. intros H1 H2.
  apply not_true_iff_false. intros H3.
  destruct (go_ltb a b) eqn:E.
  - pose proof (go_ltb_trans _ _ _ H3 E). congruence.
  - pose proof (go_ltb_trichotomy _ _ E H1). subst. congruence.
Qed.

Lemma go_leb_refl a : go_leb a a = true.
Proof. by rewrite go_leb_nlt, go_ltb_irrefl. Qed.

Lemma compareString_le a b : (compareString a b <=? 0) = go_leb a b.
Proof.
  unfold compareString. rewrite go_leb_nlt.
  destruct (a <s b) eqn:E1; [by rewrite (go_ltb_asymm _ _ E1)|].
  by destruct (b <s a).
Qed.

Lemma compareString_eq a b : compareString a b = 0 ↔ a = b.
Proof.
  unfold compareString. split.
  - destruct (a <s b) eqn:E1; [done|]. destruct (b <s a) eqn:E2; [done|].
    intros _. by apply go_ltb_trichotomy.
  - intros ->. by rewrite go_ltb_irrefl.
Qed.

Lemma Itoa_inj m n : Itoa m = Itoa n → m = n.
Proof. apply (inj pretty). Qed.

Lemma index_string_inj i j : index_string i = index_string j → i = j.
Proof. intros H%Itoa_inj. lia. Qed.

Lemma Sorted_mono {A} (R S : relation A) (l : list A) :
  (∀ a b, R a b → S a b) → Sorted R l → Sorted S l.
Proof.
  intros HRS. induction 1 as [|x l Hs IH Hhd]; constructor; [done|].
  destruct Hhd; constructor; auto.
Qed.

(** ** Sorting

    [isort leb] is a stable sort for a total preorder given as a boolean.
    [slices.SortFunc], [slices.Sort] and [sort.SliceStable] are instances.
    [SortFunc] is not stable in Go: the theorems about its results use it
    only where the keys of distinct elements differ, or state permutation
    and order, which determine nothing about ties. *)
Section Sort.
Context {A : Type} (leb : A → A → bool).

Fixpoint insert_sorted (x : A) (l : list A) : list A :=
  match l with
  | [] => [x]
  | y :: l' => if leb x y then x :: l else y :: insert_sorted x l'
  end.

Definition isort (l : list A) : list A := foldr insert_sorted [] l.

Lemma insert_sorted_perm x l : insert_sorted x l ≡ₚ x :: l.
Proof.
  induction l as [|y l IH]; simpl; [done|]. destruct (leb x y); [done|].
  rewrite IH. constructor.
Qed.

Lemma isort_perm l : isort l ≡ₚ l.
Proof. induction l as [|x l IH]; simpl; [done|]. by rewrite insert_sorted_perm, IH. Qed.

Lemma isort_cons x l : isort (x :: l) = insert_sorted x (isort l).
Proof. done. Qed.

Lemma isort_length l : length (isort l) = length l.
Proof. by rewrite isort_perm. Qed.

Lemma elem_of_isort x l : x ∈ isort l ↔ x ∈ l.
Proof. by rewrite isort_perm. Qed.

Class LebOrder : Prop := {
  leb_total : ∀ x y, leb x y = true ∨ leb y x = true;
  leb_trans : ∀ x y z, leb x y = true → leb y z = true → leb x z = true }.

Lemma insert_sorted_sorted `{LebOrder} x l :
  Sorted (λ a b, leb a b = true) l → Sorted (λ a b, leb a b = true) (insert_sorted x l).
Proof.
  induction 1 as [|y l Hs IH Hhd]; simpl; [repeat constructor|].
  destruct (leb x y) eqn:E; [by repeat constructor|].
  constructor; [done|]. assert (leb y x = true) by (destruct (leb_total x y); congruence).
  destruct l as [|z l]; simpl in *; [by constructor|].
  destruct (leb x z); constructor; [done|]. by inversion Hhd.
Qed.

Lemma isort_sorted `{LebOrder} l : Sorted (λ a b, leb a b = true) (isort l).
Proof. induction l; simpl; [constructor|]. by apply insert_sorted_sorted. Qed.

Lemma isort_strongly_sorted `{LebOrder} l :
  StronglySorted (λ a b, leb a b = true) (isort l).
Proof.
  apply Sorted_StronglySorted; [|by apply isort_sorted].
  intros x y z. apply leb_trans.
Qed.

(** Sorting a sorted list changes nothing. *)
Lemma isort_id l : Sorted (λ a b, leb a b = true) l → isort l = l.
Proof.
  induction 1 as [|x l Hs IH Hhd]; simpl; [done|]. rewrite IH.
  destruct l as [|y l]; simpl; [done|]. inversion Hhd; subst. by rewrite H0.
Qed.
End Sort.

Arguments LebOrder {A} leb.

(** The order of a sort on a string key. *)
Definition key_leb {A} (key : A → string) (x y : A) : bool := go_leb (key x) (key y).

#[export] Instance key_leb_order {A} (key : A → string) : LebOrder (key_leb key).
Proof.
  split; intros.
  - apply go_leb_total.
  - unfold key_leb in *. by eapply go_leb_trans.
Qed.

Lemma insert_sorted_ext {A} (f g : A → A → bool) x l :
  (∀ a b, f a b = g a b) → insert_sorted f x l = insert_sorted g x l.
Proof.
  intros E. induction l as [|y l IH]; simpl; [done|]. rewrite E, IH. done.
Qed.

Lemma isort_ext {A} (f g : A → A → bool) l :
  (∀ a b, f a b = g a b) → isort f l = isort g l.
Proof.
  intros E. induction l as [|x l IH]; simpl; [done|].
  rewrite IH. by apply insert_sorted_ext.
Qed.

(** [slices.SortFunc]: a comparator returns a negative number, zero or a
    positive number. *)
Definition SortFunc {A} (cmp : A → A → Z) (l : list A) : list A :=
  isort (λ a b, cmp a b <=? 0) l.

(** [sort.SliceStable], from its [less] function. *)
Definition SliceStable {A} (less : A → A → bool) (l : list A) : list A :=
  isort (λ a b, negb (less b a)) l.

(** [slices.Sort] and [sort.Strings] on strings. *)
Definition sort_strings (l : list string) : list string := isort go_leb l.

#[export] Instance go_leb_order : LebOrder go_leb.
Proof. split; [apply go_leb_total|apply go_leb_trans]. Qed.

Lemma SortFunc_key {A} (key : A → string) l :
  SortFunc (λ a b, compareString (key a) (key b)) l = isort (key_leb key) l.
Proof. apply isort_ext. intros. apply compareString_le. Qed.

(** Elements that a key without duplicates tells apart. *)
Lemma NoDup_key_inj {A B} (key : A → B) (l : list A) x y :
  NoDup (key <$> l) → x ∈ l → y ∈ l → key x = key y → x = y.
Proof.
  intros Hnd (i&Hi)%list_elem_of_lookup (j&Hj)%list_elem_of_lookup E.
  assert (i = j) as ->; [|congruence].
  eapply NoDup_lookup; [exact Hnd| |]; rewrite list_lookup_fmap.
  - by rewrite Hi.
  - by rewrite Hj, E.
Qed.

(** Two permutations of a list with distinct keys sort to the same list. *)
Lemma isort_key_unique {A} (key : A → string) (l1 l2 : list A) :
  NoDup (key <$> l1) → l1 ≡ₚ l2 → isort (key_leb key) l1 = isort (key_leb key) l2.
Proof.
  intros Hnd Hp.
  assert (Hinj := λ x y, NoDup_key_inj key l1 x y Hnd).
  assert (Hs1 := isort_strongly_sorted (key_leb key) l1).
  assert (Hs2 := isort_strongly_sorted (key_leb key) l2).
  assert (Hp' : isort (key_leb key) l1 ≡ₚ isort (key_leb key) l2)
    by by rewrite !isort_perm.
  assert (Hsub : ∀ x, x ∈ isort (key_leb key) l1 → x ∈ l1) by (intros; by apply elem_of_isort in H).
  clear Hp Hnd. revert Hs1 Hs2 Hp' Hsub.
  generalize (isort (key_leb key) l1), (isort (key_leb key) l2). clear l2.
  intros s1. induction s1 as [|x s1 IH]; intros s2 H1 H2 Hp Hsub.
  { by apply Permutation_nil_l in Hp. }
  destruct s2 as [|y s2]; [by apply Permutation_nil_r in Hp|].
  inversion_clear H1 as [|? ? Hx1 Hx2]. inversion_clear H2 as [|? ? Hy1 Hy2].
  assert (x = y) as ->.
  { apply Hinj; [apply Hsub; set_solver|apply Hsub; rewrite Hp; set_solver|].
    rewrite Forall_forall in Hx2, Hy2.
    apply go_leb_antisymm.
    - assert (y ∈ x :: s1) as [->|?]%elem_of_cons by (rewrite Hp; set_solver);
        [apply go_leb_refl|by apply Hx2].
    - assert (x ∈ y :: s2) as [->|?]%elem_of_cons by (rewrite <-Hp; set_solver);
        [apply go_leb_refl|by apply Hy2]. }
  f_equal. apply IH; [done..|by apply Permutation_cons_inv in Hp|set_solver].
Qed.

(** ** Fallible code

    A Go function that returns [(value, error)] returns [Ok value] or [Err e];
    one that returns only an [error] returns [None] for [nil]. *)
Inductive result (E A : Type) : Type :=
| Ok (a : A)
| Err (e : E).
Arguments Ok {E A} a.
Arguments Err {E A} e.

Notation "'let?' x := m 'in' k" :=
  (match m with Ok x => k | Err e => Err e end)
  (at level 10, x binder, m at level 100, k at level 200) : go_scope.
Notation "'check?' m 'in' k" :=
  (match m with None => k | Some e => Some e end)
  (at level 10, m at level 100, k at level 200) : go_scope.

(** Code that can also panic (a failed type assertion, an index out of range, a
    nil dereference) returns an [outcome]. *)
Inductive outcome (E A : Type) : Type :=
| Ret (a : A)
| Fails (e : E)
| Panics.
Arguments Ret {E A} a.
Arguments Fails {E A} e.
Arguments Panics {E A}.

Notation "'let!' x := m 'in' k" :=
  (match m with Ret x => k | Fails e => Fails e | Panics => Panics end)
  (at level 10, x binder, m at level 100, k at level 200) : go_scope.

(** A fallible call, and an operation that panics where it is undefined. *)
Definition lift {E A} (r : result E A) : outcome E A :=
  match r with Ok a => Ret a | Err e => Fails e end.
Definition must {E A} (o : option A) : outcome E A :=
  match o with Some a => Ret a | None => Panics end.
Definition fail_if {E} (o : option E) : outcome E unit :=
  match o with Some e => Fails e | None => Ret () end.

(** A loop whose body may fail: [for i, x := range l { s, err = f(i, x, s) }]. *)
Fixpoint range_fold_from {E A S} (f : nat → A → S → outcome E S) (i : nat) (l : list A) (s : S)
    : outcome E S :=
  match l with
  | [] => Ret s
  | x :: l' => let! s' := f i x s in range_fold_from f (Datatypes.S i) l' s'
  end.
Definition range_fold {E A S} (f : nat → A → S → outcome E S) (l : list A) (s : S)
    : outcome E S := range_fold_from f 0 l s.

(** [safe o Q]: [o] does not panic, and a value it returns satisfies [Q]. *)
Definition safe {E A} (o : outcome E A) (Q : A → Prop) : Prop :=
  match o with Ret a => Q a | Fails _ => True | Panics => False end.

Lemma safe_mono {E A} (o : outcome E A) (Q R : A → Prop) :
  safe o Q → (∀ a, Q a → R a) → safe o R.
Proof. destruct o; simpl; auto. Qed.

Lemma safe_bind {E A B} (m : outcome E A) (k : A → outcome E B) (Q : A → Prop) (R : B → Prop) :
  safe m Q → (∀ a, Q a → safe (k a) R) → safe (let! x := m in k x) R.
Proof. destruct m; simpl; auto. Qed.

Lemma safe_must {E A} (o : option A) (Q : A → Prop) :
  (∃ a, o = Some a ∧ Q a) → safe (must (E:=E) o) Q.
Proof. by intros (a & -> & H). Qed.

Lemma safe_lift {E A} (r : result E A) (Q : A → Prop) :
  (∀ a, r = Ok a → Q a) → safe (lift r) Q.
Proof. destruct r; simpl; auto. Qed.

Lemma safe_fail_if {E} (o : option E) (Q : unit → Prop) : (o = None → Q ()) → safe (fail_if o) Q.
Proof. destruct o; simpl; auto. Qed.

Lemma safe_fold_from {E A S} (f : nat → A → S → outcome E S) (I : nat → S → Prop) k l s :
  I k s →
  (∀ i x s, l !! i = Some x → I (k + i)%nat s →
     safe (f (k + i)%nat x s) (I (Datatypes.S (k + i)))) →
  safe (range_fold_from f k l s) (I (k + length l)%nat).
Proof.
  revert k s. induction l as [|x l IH]; intros k s Hs Hf; simpl.
  { by rewrite Nat.add_0_r. }
  assert (H0 := Hf O x s eq_refl). rewrite Nat.add_0_r in H0.
  apply (safe_bind _ _ (I (Datatypes.S k))); [by apply H0|]. intros s' Hs'.
  rewrite <-Nat.add_succ_comm. apply IH; [done|]. intros i y t Hy Ht.
  rewrite Nat.add_succ_comm in *. by apply (Hf (Datatypes.S i)).
Qed.

(** A loop invariant, over the number of iterations done. *)
Lemma safe_fold {E A S} (f : nat → A → S → outcome E S) (I : nat → S → Prop) l s :
  I O s →
  (∀ i x s, l !! i = Some x → I i s → safe (f i x s) (I (Datatypes.S i))) →
  safe (range_fold f l s) (I (length l)).
Proof. intros H0 Hf. by apply (safe_fold_from f I 0 l s). Qed.

(** A loop invariant over the part of the list that was read. *)
Lemma safe_fold_prefix {E A S} (f : nat → A → S → outcome E S) (I : list A → S → Prop) l s :
  I [] s →
  (∀ done x rest s, l = done ++ x :: rest → I done s →
     safe (f (length done) x s) (I (done ++ [x]))) →
  safe (range_fold f l s) (I l).
Proof.
  intros H0 Hf. rewrite <-(firstn_all l) at 2.
  apply (safe_fold f (λ i, I (take i l))); [done|].
  intros i x t Hi Ht. assert (Hlt := lookup_lt_Some _ _ _ Hi).
  rewrite (take_S_r _ _ x) by done.
  rewrite <-(length_take_le l i) at 1 by lia.
  apply (Hf _ _ (drop (Datatypes.S i) l)); [|done]. by rewrite take_drop_middle.
Qed.

Definition is_ok {E A} (r : result E A) : bool :=
  match r with Ok _ => true | Err _ => false end.

(** [for i, x := range l { if err := f(i, x); err != nil { return err } }] *)
Fixpoint range_err_from {E A} (f : nat → A → option E) (i : nat) (l : list A) : option E :=
  match l with
  | [] => None
  | x :: l' => check? f i x in range_err_from f (S i) l'
  end.
Definition range_err {E A} (f : nat → A → option E) (l : list A) : option E :=
  range_err_from f 0 l.

(** [for i, x := range l { out = append(out, f(i, x)...) }] *)
Definition range_app {A B} (f : nat → A → list B) (l : list A) : list B :=
  mjoin (imap f l).

Lemma range_err_from_None {E A} (f : nat → A → option E) k l :
  range_err_from f k l = None ↔ ∀ i x, l !! i = Some x → f (k + i)%nat x = None.
Proof.
  revert k. induction l as [|y l IH]; intros k; simpl; [done|]. split.
  - destruct (f k y) eqn:E1; [done|]. rewrite IH. intros H [|i] x; simpl.
    + intros [= ->]. by rewrite Nat.add_0_r.
    + intros Hx. rewrite <-Nat.add_succ_comm. by apply H.
  - intros H. assert (f k y = None) as ->.
    { rewrite <-(Nat.add_0_r k). by apply (H O). }
    apply IH. intros i x Hx. rewrite Nat.add_succ_comm. by apply H.
Qed.

Lemma range_err_None {E A} (f : nat → A → option E) l :
  range_err f l = None ↔ ∀ i x, l !! i = Some x → f i x = None.
Proof. apply range_err_from_None. Qed.

Lemma range_err_None_elem {E A} (f : nat → A → option E) (P : A → Prop) l :
  (∀ i x, f i x = None ↔ P x) → range_err f l = None ↔ Forall P l.
Proof.
  intros Hf. rewrite range_err_None, Forall_lookup.
  split; intros H i x Hx; apply (Hf i); eauto.
Qed.

Lemma elem_of_range_app {A B} (f : nat → A → list B) l y :
  y ∈ range_app f l ↔ ∃ i x, l !! i = Some x ∧ y ∈ f i x.
Proof.
  unfold range_app. rewrite list_elem_of_join. setoid_rewrite elem_of_lookup_imap.
  naive_solver.
Qed.

Lemma range_app_nil {A B} (f : nat → A → list B) l :
  range_app f l = [] ↔ ∀ i x, l !! i = Some x → f i x = [].
Proof.
  split.
  - intros H i x Hx. destruct (f i x) as [|y ys] eqn:E; [done|].
    assert (y ∈ range_app f l) as Hy; [|by rewrite H in Hy; inversion Hy].
    apply elem_of_range_app. exists i, x. rewrite E. set_solver.
  - intros H. destruct (range_app f l) as [|y ys] eqn:E; [done|].
    assert (y ∈ range_app f l) as (i & x & Hx & Hy)%elem_of_range_app
      by (rewrite E; set_solver).
    rewrite (H _ _ Hx) in Hy. by inversion Hy.
Qed.

Lemma range_app_nil_elem {A B} (f : nat → A → list B) (P : A → Prop) l :
  (∀ i x, f i x = [] ↔ P x) → range_app f l = [] ↔ Forall P l.
Proof.
  intros Hf. rewrite range_app_nil, Forall_lookup.
  split; intros H i x Hx; apply (Hf i); eauto.
Qed.

Lemma range_app_app {A B} (f : nat → A → list B) l1 l2 :
  range_app f (l1 ++ l2) = range_app f l1 ++ range_app (λ i, f (length l1 + i)%nat) l2.
Proof. unfold range_app. by rewrite imap_app, join_app. Qed.

(** ** Repeated keys

    [dup_at key l] lists the positions whose key occurs at an earlier position:
    what a [seen] map reports in one pass. *)
Definition seen_before {A} (key : A → string) (l : list A) (i : nat) (x : A) : bool :=
  bool_decide (key x ∈ key <$> take i l).

Lemma no_dup_seen {A} (key : A → string) (l : list A) :
  NoDup (key <$> l) ↔ ∀ i x, l !! i = Some x → seen_before key l i x = false.
Proof.
  unfold seen_before. setoid_rewrite bool_decide_eq_false. split.
  - intros H i x Hx Hin.
    apply list_elem_of_lookup in Hin as [j Hj].
    rewrite fmap_take in Hj. apply lookup_take_Some in Hj as [Hj Hlt].
    assert (i = j); [|lia].
    eapply NoDup_lookup; [exact H| |exact Hj]. by rewrite list_lookup_fmap, Hx.
  - intros H. apply NoDup_alt. intros i j x Hi Hj.
    rewrite list_lookup_fmap in Hi, Hj.
    apply fmap_Some in Hi as (y & Hy & ->). apply fmap_Some in Hj as (z & Hz & E).
    assert (∀ i j y z, l !! i = Some y → l !! j = Some z → key y = key z → ¬ (i < j)%nat) as Hne.
    { clear -H. intros i j y z Hi Hj E Hlt. apply (H j z Hj). rewrite <-E.
      apply list_elem_of_fmap_2. apply list_elem_of_lookup. exists i.
      apply lookup_take_Some. done. }
    destruct (Nat.lt_trichotomy i j) as [?|[?|?]]; [|done|]; exfalso; eauto.
    by eapply (Hne i j). by eapply (Hne j i).
Qed.

(** [slices.CompactFunc]: of each run of equal elements, the first stays. *)
Fixpoint compact_after {A} (eqb : A → A → bool) (p : A) (l : list A) : list A :=
  match l with
  | [] => []
  | y :: l' => if eqb p y then compact_after eqb p l' else y :: compact_after eqb y l'
  end.
Definition CompactFunc {A} (eqb : A → A → bool) (l : list A) : list A :=
  match l with
  | [] => []
  | x :: l' => x :: compact_after eqb x l'
  end.

Lemma elem_of_compact_after {A} (eqb : A → A → bool) p l x :
  (∀ a b, eqb a b = true → a = b) → x ∈ p :: compact_after eqb p l ↔ x ∈ p :: l.
Proof.
  intros He. revert p. induction l as [|y l IH]; intros p; simpl; [done|].
  destruct (eqb p y) eqn:E.
  - apply He in E as ->. specialize (IH y). set_solver.
  - specialize (IH y). set_solver.
Qed.

Lemma elem_of_CompactFunc {A} (eqb : A → A → bool) l x :
  (∀ a b, eqb a b = true → a = b) → x ∈ CompactFunc eqb l ↔ x ∈ l.
Proof. intros He. destruct l as [|y l]; simpl; [done|]. by apply elem_of_compact_after. Qed.

Lemma compact_after_sorted {A} (eqb : A → A → bool) (R : relation A) `{!Transitive R} p l :
  Sorted R (p :: l) → Sorted R (p :: compact_after eqb p l).
Proof.
  intros H. apply Sorted_StronglySorted in H; [|done].
  apply StronglySorted_Sorted. revert p H.
  induction l as [|y l IH]; intros p H; simpl; [done|].
  inversion_clear H as [|? ? Hs Hp]. inversion_clear Hp as [|? ? Hpy Hpl].
  inversion_clear Hs as [|? ? Hs' Hyl].
  destruct (eqb p y); [apply IH; by constructor|].
  assert (Hy := IH y (SSorted_cons _ Hs' Hyl)). constructor; [done|].
  constructor; [done|]. inversion_clear Hy as [|? ? _ Hyc].
  eapply Forall_impl; [exact Hyc|]. intros z Hz. by transitivity y.
Qed.

(** No two neighbours of the compacted list are equal. *)
Inductive no_stutter {A} : list A → Prop :=
| no_stutter_nil : no_stutter []
| no_stutter_one x : no_stutter [x]
| no_stutter_cons x y l : x ≠ y → no_stutter (y :: l) → no_stutter (x :: y :: l).

Lemma compact_after_no_stutter {A} (eqb : A → A → bool) p l :
  (∀ a, eqb a a = true) → no_stutter (p :: compact_after eqb p l).
Proof.
  intros He. revert p. induction l as [|y l IH]; intros p; simpl; [constructor|].
  destruct (eqb p y) eqn:E; [done|]. constructor; [|done].
  intros ->. by rewrite He in E.
Qed.

Lemma CompactFunc_no_stutter {A} (eqb : A → A → bool) l :
  (∀ a, eqb a a = true) → no_stutter (CompactFunc eqb l).
Proof. intros. destruct l; simpl; [constructor|by apply compact_after_no_stutter]. Qed.

Lemma CompactFunc_id {A} (eqb : A → A → bool) l :
  (∀ a b, eqb a b = true → a = b) → no_stutter l → CompactFunc eqb l = l.
Proof.
  intros He. induction 1 as [| |x y l Hne Hs IH]; [done..|]. simpl.
  destruct (eqb x y) eqn:E; [by apply He in E|]. simpl in IH. by rewrite IH.
Qed.

(** ** Strict orders on several string keys *)

(** [lex_by k lt] compares by [k] first and by [lt] where the keys agree: the
    nested [if a.x != b.x { return a.x < b.x }] of a [less] function. *)
Definition lex_by {A} (k : A → string) (lt : A → A → bool) (a b : A) : bool :=
  if k a =s k b then lt a b else k a <s k b.

Class StrictWeak {A} (lt : A → A → bool) : Prop := {
  sw_asymm : ∀ a b, lt a b = true → lt b a = false;
  sw_split : ∀ a b c, lt a c = true → lt a b = true ∨ lt b c = true }.

#[export] Instance key_lt_strict {A} (k : A → string) :
  StrictWeak (λ a b, k a <s k b).
Proof.
  split.
  - intros a b. apply go_ltb_asymm.
  - intros a b c H. destruct (k a <s k b) eqn:E1; [by left|]. right.
    destruct (k b <s k a) eqn:E2; [by eapply go_ltb_trans|].
    by rewrite <-(go_ltb_trichotomy _ _ E1 E2).
Qed.

#[export] Instance lex_by_strict {A} (k : A → string) lt :
  StrictWeak lt → StrictWeak (lex_by k lt).
Proof.
  intros [Ha Hs]. unfold lex_by. split.
  - intros a b. rewrite (String.eqb_sym (k b)).
    destruct (k a =s k b); [apply Ha|apply go_ltb_asymm].
  - intros a b c.
    destruct (String.eqb_spec (k a) (k c)) as [Eac|Eac];
      destruct (String.eqb_spec (k a) (k b)) as [Eab|Eab];
      destruct (String.eqb_spec (k b) (k c)) as [Ebc|Ebc]; try congruence.
    + apply Hs.
    + intros _. destruct (k a <s k b) eqn:E; [by left|right].
      destruct (k b <s k c) eqn:E'; [done|]. rewrite Eac in *.
      by destruct Eab; apply go_ltb_trichotomy.
    + rewrite Eab. by right.
    + rewrite <-Ebc. by left.
    + intros H. exact (sw_split (StrictWeak:=key_lt_strict k) a b c H).
Qed.

(** A number first, and another order where the numbers agree. *)
#[export] Instance number_then_strict {A} (t : A → Z) lt :
  StrictWeak lt → StrictWeak (λ a b, if t a =? t b then lt a b else t a <? t b).
Proof.
  intros [Ha Hs]. split.
  - intros a b. rewrite (Z.eqb_sym (t b)). destruct (Z.eqb_spec (t a) (t b)); [apply Ha|]. lia.
  - intros a b c.
    destruct (Z.eqb_spec (t a) (t c)); destruct (Z.eqb_spec (t a) (t b));
      destruct (Z.eqb_spec (t b) (t c)); try lia. apply Hs.
Qed.

#[export] Instance strict_weak_leb {A} (lt : A → A → bool) :
  StrictWeak lt → LebOrder (λ a b, negb (lt b a)).
Proof.
  intros [Ha Hs]. split.
  - intros x y. destruct (lt y x) eqn:E; [|by left]. right. by rewrite (Ha _ _ E).
  - intros x y z. rewrite !negb_true_iff. intros H1 H2.
    apply not_true_iff_false. intros H3. destruct (Hs z y x H3); congruence.
Qed.

(** ** The parts of [strings] and [strconv] the source uses *)

Definition HasPrefix (s p : string) : bool := String.prefix p s.
Definition HasSuffix (s p : string) : bool :=
  (String.length p <=? String.length s)%nat &&
  (String.substring (String.length s - String.length p) (String.length p) s =s p).

(** [strings.Contains]. *)
Fixpoint Contains (s p : string) : bool :=
  String.prefix p s ||
  match s with EmptyString => false | String _ s' => Contains s' p end.

Definition is_digit (c : ascii) : bool :=
  (48 <=? N_of_ascii c)%N && (N_of_ascii c <=? 57)%N.
Fixpoint digits_value (acc : Z) (s : string) : option Z :=
  match s with
  | EmptyString => Some acc
  | String c s' =>
      if is_digit c then digits_value (10 * acc + (Z.of_N (N_of_ascii c) - 48)) s' else None
  end.

(** Machine integers of the source: [int] and [int64]. *)
Definition MaxInt64 : Z := 9223372036854775807.
Definition MinInt64 : Z := -9223372036854775808.
Definition int64_range (n : Z) : bool := (MinInt64 <=? n) && (n <=? MaxInt64).

(** [strconv.Atoi]: an optional sign, at least one digit, and the range of [int]. *)
Definition Atoi (s : string) : option Z :=
  let unsigned (neg : bool) (d : string) :=
    match d with
    | EmptyString => None
    | _ =>
        match digits_value 0 d with
        | Some n =>
            let v := if neg then - n else n in
            if int64_range v then Some v else None
        | None => None
        end
    end in
  match s with
  | String c s' =>
      if Ascii.eqb c "-" then unsigned true s'
      else if Ascii.eqb c "+" then unsigned false s'
      else unsigned false s
  | EmptyString => None
  end.

(** The loop [for i, x := range l] with a [seen] map of keys, reporting each
    repeated key. *)
Definition range_dup {A B} (key : A → string) (report : nat → A → list B) (l : list A) : list B :=
  range_app (λ i x, if seen_before key l i x then report i x else []) l.

Lemma range_dup_nil {A B} (key : A → string) (report : nat → A → list B) l :
  (∀ i x, report i x ≠ []) → range_dup key report l = [] ↔ NoDup (key <$> l).
Proof.
  intros Hr. unfold range_dup. rewrite range_app_nil, no_dup_seen.
  split; intros H i x Hx; specialize (H i x Hx); specialize (Hr i x);
    destruct (seen_before key l i x); congruence.
Qed.

(** ** Accumulated diagnostics that are empty *)

Lemma range_app_split {A B} (f g : nat → A → list B) l :
  range_app (λ i x, f i x ++ g i x) l = [] ↔ range_app f l = [] ∧ range_app g l = [].
Proof. rewrite !range_app_nil. setoid_rewrite app_nil. naive_solver. Qed.

Lemma if_nil_else {B} (b : bool) (x : B) : (if b then [] else [x]) = [] ↔ b = true.
Proof. by destruct b. Qed.
Lemma if_nil_then {B} (b : bool) (x : B) : (if b then [x] else []) = [] ↔ b = false.
Proof. by destruct b. Qed.

Lemma Forall_forallb_iff {A} (f : A → bool) (P : A → Prop) l :
  (∀ x, f x = true ↔ P x) → forallb f l = true ↔ Forall P l.
Proof.
  intros Hf. rewrite forallb_forall, Forall_forall.
  setoid_rewrite <-list_elem_of_In. naive_solver.
Qed.

Lemma and_iff_both (A A' B B' : Prop) : (A ↔ A') → (B ↔ B') → (A ∧ B ↔ A' ∧ B').
Proof. tauto. Qed.

Lemma elem_of_join_fmap {A B} (f : A → list B) l y :
  y ∈ mjoin (f <$> l) ↔ ∃ x, x ∈ l ∧ y ∈ f x.
Proof. rewrite list_elem_of_join. setoid_rewrite list_elem_of_fmap. naive_solver. Qed.

Lemma elem_of_option_list {A B} (f : A → list B) (o : option A) y :
  y ∈ match o with Some x => f x | None => [] end ↔ ∃ x, o = Some x ∧ y ∈ f x.
Proof. destruct o; [naive_solver|]. rewrite elem_of_nil. naive_solver. Qed.

(** A loop that validates every element, prefixing the first failure. *)
Lemma range_err_each {A E} (val : A → option E) (pre : nat → A → E → E) l :
  range_err (λ i x, match val x with Some err => Some (pre i x err) | None => None end) l = None
  ↔ Forall (λ x, val x = None) l.
Proof. apply range_err_None_elem. intros i x. by destruct (val x). Qed.

Definition string_le (a b : string) : Prop := go_leb a b = true.
#[export] Instance string_le_trans : Transitive string_le.
Proof. intros a b c. apply go_leb_trans. Qed.
#[export] Instance string_le_antisymm : AntiSymm eq string_le.
Proof. intros a b. apply go_leb_antisymm. Qed.

Lemma sort_strings_sorted l : Sorted string_le (sort_strings l).
Proof. apply isort_sorted, _. Qed.

Lemma sort_strings_perm l1 l2 : l1 ≡ₚ l2 → sort_strings l1 = sort_strings l2.
Proof.
  intros Hp. apply (Sorted_unique string_le).
  - apply isort_sorted, _.
  - apply isort_sorted, _.
  - unfold sort_strings. by rewrite !isort_perm.
Qed.

Lemma sort_strings_idem l : sort_strings (sort_strings l) = sort_strings l.
Proof. apply isort_id, isort_sorted, _. Qed.

Lemma SortFunc_key_perm {A} (key : A → string) l :
  SortFunc (λ a b, compareString (key a) (key b)) l ≡ₚ l.
Proof. apply isort_perm. Qed.

Lemma SortFunc_key_unique {A} (key : A → string) l1 l2 :
  NoDup (key <$> l1) → l1 ≡ₚ l2 →
  SortFunc (λ a b, compareString (key a) (key b)) l1 =
  SortFunc (λ a b, compareString (key a) (key b)) l2.
Proof. intros. rewrite !SortFunc_key. by apply isort_key_unique. Qed.

(** ** Case and space

    [strings.ToLower] and [strings.TrimSpace] act on Unicode text.  Their tables
    are not part of the model; on ASCII text [ToLower] is the table below. *)
Definition is_ascii (s : string) : Prop :=
  ∀ c, c ∈ String.list_ascii_of_string s → (N_of_ascii c < 128)%N.
Definition ascii_lower_char (c : ascii) : ascii :=
  let n := N_of_ascii c in
  if (65 <=? n)%N && (n <=? 90)%N then ascii_of_N (n + 32) else c.
Fixpoint ascii_lower (s : string) : string :=
  match s with
  | EmptyString => ""
  | String c s' => String (ascii_lower_char c) (ascii_lower s')
  end.

Class GoText := {
  ToLower : string → string;
  TrimSpace : string → string;
  ToLower_ascii : ∀ s, is_ascii s → ToLower s = ascii_lower s }.

(** [hex.DecodeString] succeeds: an even number of hexadecimal digits. *)
Definition is_hex_char (c : ascii) : bool :=
  let n := N_of_ascii c in
  is_digit c || ((65 <=? n)%N && (n <=? 70)%N) || ((97 <=? n)%N && (n <=? 102)%N).
Definition is_hex (s : string) : bool :=
  forallb is_hex_char (String.list_ascii_of_string s) && Nat.even (String.length s).

(** ** Characters of a string *)

Fixpoint all_chars (f : ascii → bool) (s : string) : bool :=
  match s with EmptyString => true | String c s' => f c && all_chars f s' end.

Lemma all_chars_app f s t : all_chars f (s +:+ t) = all_chars f s && all_chars f t.
Proof.
  induction s as [|c s IH]; str_simpl; simpl; [done|]. by rewrite IH, andb_assoc.
Qed.

Lemma all_chars_impl f g s :
  (∀ c, f c = true → g c = true) → all_chars f s = true → all_chars g s = true.
Proof.
  intros Hfg. induction s as [|c s IH]; simpl; [done|]. rewrite !andb_true_iff. naive_solver.
Qed.

(** The characters of a decimal number. *)
Definition number_char (c : ascii) : bool := is_digit c || Ascii.eqb c "-".

Lemma pretty_N_go_digits x s :
  all_chars is_digit s = true → all_chars is_digit (pretty_N_go x s) = true.
Proof.
  revert s. induction (N.lt_wf_0 x) as [x _ IH]; intros s Hs.
  destruct (decide (x = 0)%N) as [->|Hx]; [by rewrite pretty_N_go_0|].
  rewrite pretty_N_go_step by lia. apply IH; [apply N.div_lt; lia|]. cbn [all_chars].
  rewrite Hs, andb_true_r. unfold pretty_N_char. by repeat case_match.
Qed.

Lemma pretty_N_digits (x : N) : all_chars is_digit (pretty x) = true.
Proof. unfold pretty, pretty_N. destruct (decide _); [done|]. by apply pretty_N_go_digits. Qed.

Lemma Itoa_digits n : 0 ≤ n → all_chars is_digit (Itoa n) = true.
Proof.
  intros Hn. unfold Itoa, pretty, pretty_Z. destruct n; [done|apply pretty_N_digits|lia].
Qed.

Lemma Itoa_chars n : all_chars number_char (Itoa n) = true.
Proof.
  assert (∀ x : N, all_chars number_char (pretty x) = true) as HN.
  { intros x. eapply all_chars_impl, pretty_N_digits. intros c. unfold number_char. by intros ->. }
  unfold Itoa, pretty, pretty_Z. destruct n; [done|apply HN|].
  rewrite all_chars_app. simpl. apply HN.
Qed.

Lemma Itoa_not_empty n : Itoa n ≠ "".
Proof.
  assert (∀ p, pretty (N.pos p) ≠ "") as HN.
  2: { unfold Itoa, pretty, pretty_Z. destruct n; [done|apply HN|].
       intros E. by apply (f_equal (all_chars is_digit)) in E. }
  intros p. unfold pretty, pretty_N. destruct (decide _); [done|].
  assert (∀ x s, (0 < x)%N → pretty_N_go x s ≠ "") as Hgo; [|apply Hgo; lia].
  clear. intros x. induction (N.lt_wf_0 x) as [x _ IH]; intros s Hx.
  rewrite pretty_N_go_step by done. destruct (decide (x `div` 10 = 0)%N) as [->|].
  - by rewrite pretty_N_go_0.
  - apply IH; [apply N.div_lt; lia|]. by apply N.neq_0_lt_0.
Qed.

Lemma digits_value_go x s :
  digits_value 0 (pretty_N_go x s) = digits_value (Z.of_N x) s.
Proof.
  revert s. induction (N.lt_wf_0 x) as [x _ IH]; intros s.
  destruct (decide (x = 0)%N) as [->|Hx]; [by rewrite pretty_N_go_0|].
  rewrite pretty_N_go_step by lia. rewrite IH by (apply N.div_lt; lia). cbn [digits_value].
  assert (Hm := N.mod_lt x 10 ltac:(lia)).
  assert (is_digit (pretty_N_char (x `mod` 10)) = true ∧
          Z.of_N (N_of_ascii (pretty_N_char (x `mod` 10))) - 48 = Z.of_N (x `mod` 10)) as [-> ->].
  { generalize dependent (x `mod` 10)%N. intros d Hd.
    assert (d ∈ [0;1;2;3;4;5;6;7;8;9]%N) as Hin.
    { rewrite !elem_of_cons. lia. }
    repeat (apply elem_of_cons in Hin as [->|Hin]; [done|]). by apply elem_of_nil in Hin. }
  f_equal. rewrite N2Z.inj_div, N2Z.inj_mod. pose proof (Z.div_mod (Z.of_N x) 10). lia.
Qed.

(** A number is read back from its decimal text. *)
Lemma Atoi_Itoa n : 0 ≤ n ≤ MaxInt64 → Atoi (Itoa n) = Some n.
Proof.
  intros Hn. assert (digits_value 0 (Itoa n) = Some n) as Hd.
  { unfold Itoa, pretty, pretty_Z. destruct n as [|p|p]; [done| |lia].
    exact (digits_value_go (N.pos p) ""). }
  pose proof (Itoa_digits n ltac:(lia)) as Hdig. unfold Atoi.
  destruct (Itoa n) as [|c s] eqn:E; [by apply Itoa_not_empty in E|].
  cbn [all_chars] in Hdig. apply andb_true_iff in Hdig as [Hc _].
  assert (int64_range n = true) as Hr by (unfold int64_range, MinInt64; lia).
  destruct (Ascii.eqb_spec c "-") as [->|]; [done|].
  destruct (Ascii.eqb_spec c "+") as [->|]; [done|]. by rewrite Hd, Hr.
Qed.

Lemma Atoi_range_le s n : Atoi s = Some n → n ≤ MaxInt64.
Proof.
  unfold Atoi. destruct s as [|c s]; [done|].
  repeat case_match; intros; simplify_eq; unfold int64_range in *; lia.
Qed.

(** Where two strings split at the last separator they split alike. *)
Lemma last_separator_split f c a b s t :
  f c = false → all_chars f s = true → all_chars f t = true →
  a +:+ String c s = b +:+ String c t → a = b ∧ s = t.
Proof.
  intros Hc Hs Ht. revert b. induction a as [|x a IH]; intros [|y b] E; str_simpl.
  - by injection E.
  - injection E as -> ->. rewrite all_chars_app in Hs. simpl in Hs.
    by rewrite Hc, andb_false_r in Hs.
  - injection E as -> <-. rewrite all_chars_app in Ht. simpl in Ht.
    by rewrite Hc, andb_false_r in Ht.
  - injection E as -> E. by destruct (IH b E) as [-> ->].
Qed.

(** ** Loops that always return *)

Lemma range_fold_from_app {E A B} (f : nat → A → list B → outcome E (list B)) g k l acc :
  (∀ i x acc, x ∈ l → f i x acc = Ret (acc ++ g x)) →
  range_fold_from f k l acc = Ret (acc ++ mjoin (g <$> l)).
Proof.
  revert k acc. induction l as [|x l IH]; intros k acc Hf; simpl; [by rewrite app_nil_r|].
  rewrite Hf by set_solver. rewrite IH; [by rewrite app_assoc|]. intros. apply Hf. set_solver.
Qed.

(** A loop that appends [g x] for each element. *)
Lemma range_fold_app {E A B} (f : nat → A → list B → outcome E (list B)) g l acc :
  (∀ i x acc, x ∈ l → f i x acc = Ret (acc ++ g x)) →
  range_fold f l acc = Ret (acc ++ mjoin (g <$> l)).
Proof. apply range_fold_from_app. Qed.

Lemma range_fold_from_Ret {E A S} (f : nat → A → S → outcome E S) k l s s' x :
  range_fold_from f k l s = Ret s' → x ∈ l → ∃ i t t', f i x t = Ret t'.
Proof.
  revert k s. induction l as [|y l IH]; intros k s; simpl; [by intros _ ?%elem_of_nil|].
  destruct (f k y s) eqn:Ef; [|done..]. intros H [->|Hx]%elem_of_cons; [eauto|by eapply IH].
Qed.

(** Every step of a loop that returned has returned. *)
Lemma range_fold_Ret {E A S} (f : nat → A → S → outcome E S) l s s' x :
  range_fold f l s = Ret s' → x ∈ l → ∃ i t t', f i x t = Ret t'.
Proof. apply range_fold_from_Ret. Qed.
