(* ===== verification/Diagnostics.v ===== *)
(** [internal/ir/diagnostic.go]: diagnostic codes and messages, JSON pointers,
    the stable order of a diagnostic list, and the prefixing of nested errors
    ([prefixDiagnostics] of [internal/ir/resource.go]). *)
From S2P Require Import Prelude.

Abbreviation DiagnosticCode := string (only parsing).
Abbreviation Severity := string (only parsing).

Definition SeverityError : Severity := "error".
Definition SeverityWarning : Severity := "warning".
Definition SeverityInfo : Severity := "info".

Definition InvalidJSON : DiagnosticCode := "IR_INVALID_JSON".
Definition DuplicateField : DiagnosticCode := "IR_DUPLICATE_FIELD".
Definition UnknownField : DiagnosticCode := "IR_UNKNOWN_FIELD".
Definition RequiredField : DiagnosticCode := "IR_REQUIRED".
Definition InvalidType : DiagnosticCode := "IR_INVALID_TYPE".
Definition InvalidValue : DiagnosticCode := "IR_INVALID_VALUE".
Definition InputLimitExceeded : DiagnosticCode := "INPUT_LIMIT_EXCEEDED".
Definition UnsupportedVersion : DiagnosticCode := "IR_UNSUPPORTED_VERSION".
Definition InvalidUnion : DiagnosticCode := "IR_INVALID_UNION".
Definition InvalidSnapshot : DiagnosticCode := "IR_INVALID_SNAPSHOT".
Definition DuplicateResource : DiagnosticCode := "IR_DUPLICATE_RESOURCE".
Definition DuplicateTarget : DiagnosticCode := "IR_DUPLICATE_TARGET".
Definition ReferenceMissing : DiagnosticCode := "IR_REFERENCE_MISSING".
Definition ReferenceKind : DiagnosticCode := "IR_REFERENCE_KIND".
Definition ReferenceRevision : DiagnosticCode := "IR_REFERENCE_REVISION".
Definition ReferenceEpoch : DiagnosticCode := "IR_REFERENCE_EPOCH".
Definition ReferenceCycle : DiagnosticCode := "IR_REFERENCE_CYCLE".
Definition ScopeMismatch : DiagnosticCode := "IR_SCOPE_MISMATCH".
Definition ResourceDisabled : DiagnosticCode := "IR_RESOURCE_DISABLED".
Definition UnreachableResource : DiagnosticCode := "IR_UNREACHABLE_RESOURCE".
Definition CapabilityUnsupported : DiagnosticCode := "CAPABILITY_UNSUPPORTED".
Definition CapabilityUnverified : DiagnosticCode := "CAPABILITY_UNVERIFIED".
Definition CompileTargetMismatch : DiagnosticCode := "COMPILE_TARGET_MISMATCH".
Definition CompileUnknownBuild : DiagnosticCode := "COMPILE_UNKNOWN_BUILD".
Definition CompileDigestMismatch : DiagnosticCode := "COMPILE_DIGEST_MISMATCH".
Definition CompileAdapterVersion : DiagnosticCode := "COMPILE_ADAPTER_VERSION".
Definition CompileFormatMismatch : DiagnosticCode := "COMPILE_FORMAT_MISMATCH".
Definition CompileLabelCollision : DiagnosticCode := "COMPILE_LABEL_COLLISION".
Definition CompileUnknownCapability : DiagnosticCode := "COMPILE_UNKNOWN_CAPABILITY".
Definition CompileUnmappedField : DiagnosticCode := "COMPILE_UNMAPPED_FIELD".
Definition CompileDialConflict : DiagnosticCode := "COMPILE_DIAL_CONFLICT".

Record Diagnostic := {
  d_Code : DiagnosticCode;
  d_Severity : Severity;
  d_ResourceID : ID;
  d_FieldPath : string;
  d_TargetKey : string;
  d_Message : string;
  d_SuggestedAction : string }.

#[export] Instance Diagnostic_eq_dec : EqDecision Diagnostic.
Proof. solve_decision. Defined.

Abbreviation Diagnostics := (list Diagnostic).

(** A Go [error] whose dynamic type is [Diagnostics]. *)
Abbreviation error := (option Diagnostics).

Definition diagnosticMessage (code : DiagnosticCode) : string :=
  if code =s InvalidJSON then "A single valid UTF-8 JSON document is required."
  else if code =s DuplicateField then "Duplicate object fields are forbidden."
  else if code =s UnknownField then "This field is not part of the v1 contract."
  else if code =s RequiredField then "A required field is missing."
  else if code =s InvalidType then "The field has an invalid JSON type."
  else if code =s InputLimitExceeded then "The input or expanded configuration exceeds the configured resource limit."
  else if code =s UnsupportedVersion then "Only IR schema version 1 is accepted."
  else if code =s InvalidUnion then "The discriminator and variant must describe exactly one supported type."
  else if code =s InvalidSnapshot then "A validated, fully pinned frozen input is required."
  else if code =s DuplicateResource then "A resource ID must occur exactly once."
  else if code =s DuplicateTarget then "Each frozen target key must be unique."
  else if code =s ReferenceMissing then "The referenced resource is absent from the snapshot."
  else if code =s ReferenceKind then "The referenced resource has the wrong kind."
  else if code =s ReferenceRevision then "The reference does not match the frozen resource revision."
  else if code =s ReferenceEpoch then "The reference does not match the frozen security epoch."
  else if code =s ReferenceCycle then "The reference forms a dependency cycle."
  else if code =s ScopeMismatch then "All frozen resources must belong to the snapshot scope."
  else if code =s ResourceDisabled then "Disabled resources cannot enter a compile snapshot."
  else if code =s UnreachableResource then "The snapshot contains a resource outside the declared root dependency closure."
  else if code =s CapabilityUnsupported then "This capability is not adapted for the target and cannot be substituted."
  else if code =s CapabilityUnverified then "This capability is locked but not verified; the compiler records it and does not mark it verified."
  else if code =s CompileTargetMismatch then "The compile target must equal the frozen target with the same key."
  else if code =s CompileUnknownBuild then "The frozen core build is not in the locked catalog."
  else if code =s CompileDigestMismatch then "The frozen core digest does not match the locked build."
  else if code =s CompileAdapterVersion then "The frozen adapter version does not match the locked compiler adapter version."
  else if code =s CompileFormatMismatch then "The frozen output format does not match the core family."
  else if code =s CompileLabelCollision then "Deterministic labels could not be made unique without a random suffix."
  else if code =s CompileUnknownCapability then "The node combination is not in the locked P0 capability list."
  else if code =s CompileUnmappedField then "This field cannot be expressed by the current native adapter and cannot be dropped or rewritten."
  else if code =s CompileDialConflict then "Chain dialer fields conflict with another outbound dial option and cannot be combined."
  else "The value does not satisfy the v1 contract.".

Definition issue (code : DiagnosticCode) (path : string) : Diagnostic :=
  {| d_Code := code; d_Severity := SeverityError; d_ResourceID := "";
     d_FieldPath := path; d_TargetKey := ""; d_Message := diagnosticMessage code;
     d_SuggestedAction := "" |}.

(** The local [add] of the validators: an issue about a resource. *)
Definition issue_at (code : DiagnosticCode) (path : string) (id : ID) : Diagnostic :=
  {| d_Code := code; d_Severity := SeverityError; d_ResourceID := id;
     d_FieldPath := path; d_TargetKey := ""; d_Message := diagnosticMessage code;
     d_SuggestedAction := "" |}.

(** [strings.ReplaceAll(s, old, new)] for a one-byte [old]. *)
Fixpoint replace_byte (old : ascii) (new s : string) : string :=
  match s with
  | EmptyString => ""
  | String c s' =>
      if Ascii.eqb c old then new +:+ replace_byte old new s'
      else String c (replace_byte old new s')
  end.

Definition escape_token (token : string) : string :=
  replace_byte "/" "~1" (replace_byte "~" "~0" token).

(** RFC 6901 pointers: every token is preceded by a slash. *)
Fixpoint pointer (tokens : list string) : string :=
  match tokens with
  | [] => ""
  | t :: ts => "/" +:+ escape_token t +:+ pointer ts
  end.

(** The order of [stableDiagnostics]: by path, then by code. *)
Definition diagnostic_less (a b : Diagnostic) : bool :=
  if d_FieldPath a =s d_FieldPath b then d_Code a <s d_Code b
  else d_FieldPath a <s d_FieldPath b.

(** The second loop of [stableDiagnostics]: append unless the last element kept
    is equal. *)
Definition keep_unless_last (out : Diagnostics) (item : Diagnostic) : Diagnostics :=
  match last out with
  | Some prev => if decide (prev = item) then out else out ++ [item]
  | None => out ++ [item]
  end.

Definition stableDiagnostics (d : Diagnostics) : Diagnostics :=
  foldl keep_unless_last [] (SliceStable diagnostic_less d).

(** [if len(diagnostics) > 0 { return stableDiagnostics(diagnostics) }; return nil] *)
Definition finish (d : Diagnostics) : error :=
  match d with [] => None | _ => Some (stableDiagnostics d) end.

(** [prefixDiagnostics] of [resource.go]. Its [err] is always a [Diagnostics];
    the identifier check is the caller's schema validation of a UUID. *)
Definition prefixDiagnostics (valid_id : ID → bool) (diagnostics : Diagnostics)
    (prefix : string) (id : ID) : Diagnostics :=
  let id := if valid_id id then id else "" in
  (λ d, {| d_Code := d_Code d; d_Severity := d_Severity d; d_ResourceID := id;
           d_FieldPath := prefix +:+ d_FieldPath d; d_TargetKey := d_TargetKey d;
           d_Message := d_Message d; d_SuggestedAction := d_SuggestedAction d |})
  <$> diagnostics.

(** ** The stable order of diagnostics *)

(** The relation by which a stable list is ordered. *)
Definition diagnostic_le (a b : Diagnostic) : Prop := diagnostic_less b a = false.

#[export] Instance diagnostic_less_strict : StrictWeak diagnostic_less.
Proof. apply (lex_by_strict d_FieldPath), key_lt_strict. Qed.

Lemma diagnostic_le_leb a b : diagnostic_le a b ↔ negb (diagnostic_less b a) = true.
Proof. by rewrite negb_true_iff. Qed.

#[export] Instance diagnostic_le_trans : Transitive diagnostic_le.
Proof.
  intros a b c. rewrite !diagnostic_le_leb.
  apply (leb_trans (λ a b, negb (diagnostic_less b a))).
Qed.

Lemma SliceStable_sorted (d : Diagnostics) :
  Sorted diagnostic_le (SliceStable diagnostic_less d).
Proof.
  eapply Sorted_mono; [|apply isort_sorted; apply _].
  intros a b. by rewrite diagnostic_le_leb.
Qed.

Lemma keep_unless_last_compact out d :
  foldl keep_unless_last out d =
    match last out with
    | None => out ++ CompactFunc (λ a b, bool_decide (a = b)) d
    | Some p => out ++ compact_after (λ a b, bool_decide (a = b)) p d
    end.
Proof.
  revert out. induction d as [|x d IH]; intros out; simpl.
  { destruct (last out); by rewrite app_nil_r. }
  rewrite IH. unfold keep_unless_last at 1 2.
  destruct (last out) as [p|] eqn:E; simpl.
  - case_decide as Hp; [subst; by rewrite bool_decide_true, E|].
    rewrite bool_decide_false by done. rewrite last_snoc. by rewrite <-app_assoc.
  - rewrite last_snoc. by rewrite <-app_assoc.
Qed.

Lemma stableDiagnostics_compact d :
  stableDiagnostics d =
    CompactFunc (λ a b, bool_decide (a = b)) (SliceStable diagnostic_less d).
Proof. unfold stableDiagnostics. by rewrite keep_unless_last_compact. Qed.

Lemma elem_of_stableDiagnostics d x : x ∈ stableDiagnostics d ↔ x ∈ d.
Proof.
  rewrite stableDiagnostics_compact, elem_of_CompactFunc.
  - apply elem_of_isort.
  - intros a b. by rewrite bool_decide_eq_true.
Qed.

Lemma stableDiagnostics_sorted d : Sorted diagnostic_le (stableDiagnostics d).
Proof.
  rewrite stableDiagnostics_compact. pose proof (SliceStable_sorted d) as H.
  destruct (SliceStable diagnostic_less d); [done|]. by apply compact_after_sorted; [apply _|].
Qed.

Lemma stableDiagnostics_no_stutter d : no_stutter (stableDiagnostics d).
Proof.
  rewrite stableDiagnostics_compact. apply CompactFunc_no_stutter.
  intros a. by apply bool_decide_eq_true.
Qed.

Lemma stableDiagnostics_idem d :
  stableDiagnostics (stableDiagnostics d) = stableDiagnostics d.
Proof.
  rewrite (stableDiagnostics_compact (stableDiagnostics d)).
  unfold SliceStable. rewrite isort_id.
  - apply CompactFunc_id; [|apply stableDiagnostics_no_stutter].
    intros a b. by rewrite bool_decide_eq_true.
  - eapply Sorted_mono; [|apply stableDiagnostics_sorted].
    intros a b. by rewrite diagnostic_le_leb.
Qed.

Lemma finish_None d : finish d = None ↔ d = [].
Proof. by destruct d. Qed.

Lemma finish_Some_nonempty d e : finish d = Some e → e ≠ [].
Proof.
  destruct d as [|x d]; [done|]. cbn [finish]. intros [= <-] E.
  assert (x ∈ stableDiagnostics (x :: d)) as H by (apply elem_of_stableDiagnostics; set_solver).
  rewrite E in H. by inversion H.
Qed.

Lemma prefixDiagnostics_nil v d p id : prefixDiagnostics v d p id = [] ↔ d = [].
Proof. unfold prefixDiagnostics. destruct d; simpl; naive_solver. Qed.

(** ** Pointers can be read back *)

(** The tokens of an RFC 6901 pointer: split at slashes, then decode [~1] and
    [~0]. *)
Fixpoint unescape_token (s : string) : string :=
  match s with
  | String c s' =>
      match s' with
      | String c2 s2 =>
          if Ascii.eqb c "~" && Ascii.eqb c2 "1" then String "/" (unescape_token s2)
          else if Ascii.eqb c "~" && Ascii.eqb c2 "0" then String "~" (unescape_token s2)
          else String c (unescape_token s')
      | EmptyString => String c ""
      end
  | EmptyString => ""
  end.

(** [split_slash cur s]: the token being read is [cur]. *)
Fixpoint split_slash (s : string) : string * list string :=
  match s with
  | EmptyString => ("", [])
  | String c s' =>
      let '(t, ts) := split_slash s' in
      if Ascii.eqb c "/" then ("", t :: ts) else (String c t, ts)
  end.

Definition pointer_tokens (p : string) : list string :=
  unescape_token <$> (split_slash p).2.

Lemma escape_token_cons c t :
  escape_token (String c t) =
    (if Ascii.eqb c "~" then "~0" else if Ascii.eqb c "/" then "~1" else String c "")
      +:+ escape_token t.
Proof.
  unfold escape_token. simpl. destruct (Ascii.eqb_spec c "~") as [->|Hc]; [done|].
  simpl. by destruct (Ascii.eqb c "/").
Qed.

#[local] Arguments escape_token : simpl never.

Lemma unescape_token_cons c s :
  c ≠ "~"%char → unescape_token (String c s) = String c (unescape_token s).
Proof. intros H%Ascii.eqb_neq. destruct s as [|d s]; [done|]. simpl. by rewrite H. Qed.

Lemma unescape_escape t : unescape_token (escape_token t) = t.
Proof.
  induction t as [|c t IH]; [done|]. rewrite escape_token_cons.
  destruct (Ascii.eqb_spec c "~") as [->|Hc]; [str_simpl; simpl; by rewrite IH|].
  destruct (Ascii.eqb_spec c "/") as [->|Hs]; [str_simpl; simpl; by rewrite IH|].
  str_simpl. by rewrite unescape_token_cons, IH.
Qed.

Lemma split_slash_plain c s :
  c ≠ "/"%char →
  split_slash (String c s) = (String c (split_slash s).1, (split_slash s).2).
Proof. intros H%Ascii.eqb_neq. simpl. rewrite H. by destruct (split_slash s). Qed.

Lemma split_slash_escaped t r :
  split_slash (escape_token t +:+ r) =
    (escape_token t +:+ (split_slash r).1, (split_slash r).2).
Proof.
  induction t as [|c t IH]; [change (escape_token "") with ""; str_simpl; by destruct (split_slash r)|].
  rewrite escape_token_cons.
  destruct (Ascii.eqb_spec c "~") as [->|Hc]; [str_simpl; simpl; by rewrite IH|].
  destruct (Ascii.eqb_spec c "/") as [->|Hs]; [str_simpl; simpl; by rewrite IH|].
  str_simpl. by rewrite split_slash_plain, IH.
Qed.

Lemma split_slash_pointer ts : split_slash (pointer ts) = ("", escape_token <$> ts).
Proof.
  induction ts as [|t ts IH]; [done|]. cbn [pointer].
  str_simpl. simpl. rewrite split_slash_escaped, IH. simpl. by str_simpl.
Qed.

Lemma pointer_tokens_pointer ts : pointer_tokens (pointer ts) = ts.
Proof.
  unfold pointer_tokens. rewrite split_slash_pointer. simpl.
  rewrite <-list_fmap_compose. rewrite <-(list_fmap_id ts) at 2.
  apply list_fmap_ext. intros. apply unescape_escape.
Qed.
