(* ===== verification/IRTypes.v ===== *)
(** The typed compile input: the data of [internal/ir] ([node.go],
    [resource.go], [policy_group.go], [dns.go], [routing.go],
    [client_preset.go], [subscription.go], [frozen.go]).

    A string-typed enumeration stays a string with its named constants, since Go
    admits any string before validation.  A pointer field is an [option].  An
    interface value is an inductive type with the source's variants, a [nil]
    interface, and one constructor for a typed [nil] pointer. *)
From S2P Require Import Prelude Diagnostics.

(** * node.go *)

Definition SchemaVersion : Z := 1.

Abbreviation Protocol := string (only parsing).
Abbreviation Secret := string (only parsing).

Definition Shadowsocks : Protocol := "shadowsocks".
Definition VMess : Protocol := "vmess".
Definition VLESS : Protocol := "vless".
Definition Trojan : Protocol := "trojan".
Definition SOCKS5 : Protocol := "socks5".
Definition HTTP : Protocol := "http".
Definition AuthMethodPassword := "method_password".
Definition AuthVMessAEAD := "vmess_aead".
Definition AuthUUID := "uuid".
Definition AuthPassword := "password".
Definition AuthUsernamePassword := "username_password".
Definition AuthNone := "none".
Definition NativeTCP := "native_tcp".
Definition WebSocket := "websocket".
Definition SecurityNone := "none".
Definition TLS := "tls".
Definition Reality := "reality".
Definition AES128GCM := "aes-128-gcm".
Definition AES256GCM := "aes-256-gcm".
Definition ChaCha20IETFPoly1305 := "chacha20-ietf-poly1305".
Definition VMessAuto := "auto".
Definition VMessAES128GCM := "aes-128-gcm".
Definition VMessChaCha20Poly1305 := "chacha20-poly1305".
Definition VMessNone := "none".
Definition VMessZero := "zero".
Definition XTLSVision := "xtls-rprx-vision".

Record Endpoint := { ep_Host : string; ep_Port : Z }.

Record MethodPasswordAuth := {
  mpa_Kind : string; mpa_Method : string; mpa_Password : Secret }.
Record VMessAuth := { vma_Kind : string; vma_UUID : Secret; vma_Cipher : string }.
Record UUIDAuth := { ua_Kind : string; ua_UUID : Secret }.
Record PasswordAuth := { pa_Kind : string; pa_Password : Secret }.
Record UsernamePasswordAuth := {
  upa_Kind : string; upa_Username : Secret; upa_Password : Secret }.
Record NoAuth := { na_Kind : string }.

Inductive Authentication :=
| Auth_nil
| Auth_typed_nil (variant : string)
| Auth_MethodPassword (a : MethodPasswordAuth)
| Auth_VMess (a : VMessAuth)
| Auth_UUID (a : UUIDAuth)
| Auth_Password (a : PasswordAuth)
| Auth_UsernamePassword (a : UsernamePasswordAuth)
| Auth_None (a : NoAuth).

Record NativeTCPTransport := { tcp_Kind : string }.
Record WebSocketTransport := { ws_Kind : string; ws_Path : string; ws_Host : option string }.

Inductive Transport :=
| Transport_nil
| Transport_typed_nil (variant : string)
| Transport_TCP (t : NativeTCPTransport)
| Transport_WS (t : WebSocketTransport).

Record NoSecurity := { ns_Mode : string }.
Record TLSSecurity := {
  tls_Mode : string; tls_ServerName : string; tls_VerifyCertificate : option bool;
  tls_ALPN : list string; tls_ClientFingerprint : option string }.
Record RealitySecurity := {
  rs_Mode : string; rs_ServerName : string; rs_PublicKey : Secret; rs_ShortID : Secret;
  rs_ClientFingerprint : string; rs_ALPN : list string }.

Inductive Security :=
| Security_nil
| Security_typed_nil (variant : string)
| Security_None (s : NoSecurity)
| Security_TLS (s : TLSSecurity)
| Security_Reality (s : RealitySecurity).

Record Features := {
  ft_UDP : option bool; ft_Multiplex : option bool; ft_ProtocolVariant : option string }.

Record Origin := {
  or_SourceResourceID : ID; or_SourceItemID : ID; or_MatchMethod : string }.

(** [Extensions] is the empty struct and has no field here. *)
Record Node := {
  n_SchemaVersion : Z; n_Protocol : Protocol; n_Endpoint : Endpoint;
  n_Auth : Authentication; n_Transport : Transport; n_Security : Security;
  n_Features : Features; n_Origin : option Origin }.

(** * resource.go *)

Abbreviation ResourceKind := string (only parsing).
Definition KindNode : ResourceKind := "node".
Definition KindChain : ResourceKind := "chain".
Definition KindPolicyGroup : ResourceKind := "policy_group".
Definition KindRoutingProfile : ResourceKind := "routing_profile".
Definition KindDNSProfile : ResourceKind := "dns_profile".
Definition KindRuleSet : ResourceKind := "rule_set".
Definition KindClientPreset : ResourceKind := "client_preset".
Definition KindSubscriptionProfile : ResourceKind := "subscription_profile".
Definition KindSource : ResourceKind := "source".

Definition ResourceRef := "resource_ref".
Definition BuiltinRef := "builtin".
Definition Direct := "direct".
Definition Reject := "reject".

Record TargetRef := {
  tr_Type : string; tr_Kind : ResourceKind; tr_ResourceID : ID; tr_Builtin : string }.

Record NodeRef := { nr_NodeID : ID }.

Definition FailClosed := "fail_closed".

Record Chain := {
  ch_SchemaVersion : Z; ch_Hops : list NodeRef; ch_FailurePolicy : string }.

Record Metadata := {
  md_ResourceID : ID; md_ScopeID : ID; md_Kind : ResourceKind; md_Revision : Z;
  md_SchemaVersion : Z; md_Name : string; md_Tags : list string; md_Enabled : bool;
  md_SecurityEpoch : Z }.

(** * policy_group.go *)

Definition PolicyFixed := "fixed".
Definition PolicyManualSelect := "manual_select".
Definition PolicyLatencyBest := "latency_best".
Definition PolicyRoundRobin := "round_robin".

Record PolicyHealthCheck := {
  hc_Enabled : bool; hc_URL : string; hc_IntervalMS : option Z;
  hc_TimeoutMS : option Z; hc_ToleranceMS : option Z }.

Record PolicyGroup := {
  pg_SchemaVersion : Z; pg_Strategy : string; pg_Members : list TargetRef;
  pg_DefaultMember : TargetRef; pg_HealthCheck : PolicyHealthCheck;
  pg_OnUnavailable : string }.

Record PolicyOverride := {
  po_PolicyGroupID : ID; po_Strategy : option string;
  po_DefaultMember : option TargetRef; po_HealthCheck : option PolicyHealthCheck }.

(** * routing.go *)

Definition NetworkTCP := "tcp".
Definition NetworkUDP := "udp".
Definition PreserveDomain := "preserve_domain".
Definition ResolveForIPRules := "resolve_for_ip_rules".
Definition RuleSetDomain := "domain".
Definition RuleSetCIDR := "cidr".
Definition DomainExact := "exact".
Definition DomainSuffix := "suffix".
Definition DomainCIDRText := "domain_cidr_text".

Record PortRange := { pr_From : Z; pr_To : Z }.

Record DomainMatch := {
  dm_DomainExact : list string; dm_DomainSuffix : list string; dm_RuleSetIDs : list ID }.

Record RouteMatch := {
  rm_DomainExact : list string; rm_DomainSuffix : list string; rm_RuleSetIDs : list ID;
  rm_IPCIDRs : list string; rm_DestinationPorts : list PortRange; rm_Network : list string }.

Record RoutingRule := {
  rr_Match : RouteMatch; rr_Action : TargetRef; rr_Enabled : bool; rr_Comment : string }.

Record RoutingProfile := {
  rp_SchemaVersion : Z; rp_Rules : list RoutingRule; rp_Final : TargetRef;
  rp_DomainResolutionMode : string }.

Record RuleSetEntry := {
  rse_Kind : string; rse_Domain : string; rse_Match : string; rse_CIDR : string }.

Record RuleSetWrite := {
  rsw_SchemaVersion : Z; rsw_Format : string; rsw_Entries : list RuleSetEntry }.

Record RuleSet := {
  rset_SchemaVersion : Z; rset_Format : string; rset_Entries : list RuleSetEntry;
  rset_ContentHash : string }.

(** * dns.go *)

Definition DNSLocal := "local".
Definition DNSUDP := "udp".
Definition DNSHTTPS := "https".

Record BootstrapResolver := {
  br_ResolverID : string; br_Kind : string; br_Address : string; br_Port : Z }.

Record DNSResolver := {
  dr_ResolverID : string; dr_Kind : string; dr_Address : string; dr_Port : Z;
  dr_URL : string; dr_BootstrapResolverID : string; dr_Outbound : option TargetRef }.

Record DNSRule := {
  dru_Match : DomainMatch; dru_ResolverID : string; dru_Enabled : bool;
  dru_Comment : string }.

Record DNSProfile := {
  dp_SchemaVersion : Z; dp_Bootstrap : list BootstrapResolver;
  dp_Resolvers : list DNSResolver; dp_Rules : list DNSRule; dp_FinalResolver : string }.

(** * client_preset.go *)

Definition PresetLoopbackAddress := "127.0.0.1".
Definition PresetSOCKSPort : Z := 1080.
Definition SingBoxControlPort : Z := 17812.
Definition MihomoControlPort : Z := 17813.

Record LocalListener := { ll_Protocol : string; ll_Listen : string; ll_Port : Z }.
Record ControlAPIPreset := { ca_Enabled : bool; ca_Listen : string; ca_Port : Z }.
Record ClientPreset := {
  cp_SchemaVersion : Z; cp_CoreFamily : string; cp_Platform : string; cp_Format : string;
  cp_LocalListener : LocalListener; cp_DNSMode : string; cp_ControlAPI : ControlAPIPreset;
  cp_ImportMethod : string; cp_ReviewStatus : string; cp_ReviewedAt : string }.

(** * subscription.go *)

Record TagSelector := {
  ts_AllTags : list string; ts_AnyTags : list string; ts_NoneTags : list string }.
Record SubscriptionMembers := {
  sm_IncludeIDs : list ID; sm_ExcludeIDs : list ID; sm_Selector : TagSelector }.
Record ClientParameters := {
  clp_LocalPort : option Z; clp_ControlAPIEnabled : option bool }.
Record SubscriptionTarget := {
  st_Key : string; st_CoreBuildID : ID; st_ClientPresetID : ID; st_Format : string;
  st_PolicyOverrides : list PolicyOverride; st_ClientParameters : option ClientParameters;
  st_Enabled : option bool }.
Record SubscriptionProfile := {
  sp_SchemaVersion : Z; sp_Members : SubscriptionMembers; sp_RoutingProfileID : ID;
  sp_DNSProfileID : ID; sp_Targets : list SubscriptionTarget; sp_PublishPolicy : string }.

(** * Resources *)

Inductive ResourcePayload :=
| Payload_nil
| Payload_typed_nil (variant : string)
| Payload_Node (p : Node)
| Payload_Chain (p : Chain)
| Payload_PolicyGroup (p : PolicyGroup)
| Payload_RoutingProfile (p : RoutingProfile)
| Payload_DNSProfile (p : DNSProfile)
| Payload_RuleSet (p : RuleSet)
| Payload_SubscriptionProfile (p : SubscriptionProfile)
| Payload_ClientPreset (p : ClientPreset).

Record Resource := { r_Metadata : Metadata; r_Payload : ResourcePayload }.

Definition rid (r : Resource) : ID := md_ResourceID (r_Metadata r).

(** * frozen.go *)

Definition MaxFrozenResources : Z := 2000.

Definition Xray := "xray".
Definition SingBox := "sing-box".
Definition Mihomo := "mihomo".
Definition XrayJSON := "xray_json".
Definition SingBoxJSON := "singbox_json".
Definition MihomoYAML := "mihomo_yaml".

Record Target := {
  t_Key : string; t_CoreFamily : string; t_CoreBuildID : ID; t_CoreBuildSHA256 : string;
  t_AdapterVersion : string; t_ClientPresetID : ID; t_ClientPresetRevision : Z;
  t_Format : string; t_PolicyOverrides : gmap string PolicyOverride }.

Record FrozenRef := {
  fr_ResourceID : ID; fr_Kind : ResourceKind; fr_Revision : Z; fr_SecurityEpoch : Z }.

Record FrozenInputSpec := {
  fs_SchemaVersion : Z; fs_SnapshotID : ID; fs_ScopeID : ID; fs_CatalogRevision : Z;
  fs_SecurityEpoch : Z; fs_Resources : list Resource; fs_Members : list FrozenRef;
  fs_Targets : list Target; fs_RoutingProfile : option FrozenRef;
  fs_DNSProfile : option FrozenRef }.

(** * Decidable equality *)

#[export] Instance Endpoint_eq_dec : EqDecision Endpoint. Proof. solve_decision. Defined.
#[export] Instance MethodPasswordAuth_eq_dec : EqDecision MethodPasswordAuth. Proof. solve_decision. Defined.
#[export] Instance VMessAuth_eq_dec : EqDecision VMessAuth. Proof. solve_decision. Defined.
#[export] Instance UUIDAuth_eq_dec : EqDecision UUIDAuth. Proof. solve_decision. Defined.
#[export] Instance PasswordAuth_eq_dec : EqDecision PasswordAuth. Proof. solve_decision. Defined.
#[export] Instance UsernamePasswordAuth_eq_dec : EqDecision UsernamePasswordAuth. Proof. solve_decision. Defined.
#[export] Instance NoAuth_eq_dec : EqDecision NoAuth. Proof. solve_decision. Defined.
#[export] Instance Authentication_eq_dec : EqDecision Authentication. Proof. solve_decision. Defined.
#[export] Instance TargetRef_eq_dec : EqDecision TargetRef. Proof. solve_decision. Defined.
#[export] Instance PolicyHealthCheck_eq_dec : EqDecision PolicyHealthCheck. Proof. solve_decision. Defined.
#[export] Instance PolicyOverride_eq_dec : EqDecision PolicyOverride. Proof. solve_decision. Defined.
#[export] Instance FrozenRef_eq_dec : EqDecision FrozenRef. Proof. solve_decision. Defined.
#[export] Instance Target_eq_dec : EqDecision Target. Proof. solve_decision. Defined.
#[export] Instance RuleSetEntry_eq_dec : EqDecision RuleSetEntry. Proof. solve_decision. Defined.
#[export] Instance PortRange_eq_dec : EqDecision PortRange. Proof. solve_decision. Defined.
