(* ===== verification/Hashes.v ===== *)
(** Digests and their hexadecimal form: what the code takes from [crypto/sha256],
    [crypto/sha1] and [encoding/hex], the labels' [sha256Hex]
    ([internal/compiler/label.go]) and the build identifiers' [NameUUID]
    ([internal/capability/catalog.go]). Bytes and words are [N]. *)
From S2P Require Import Prelude Diagnostics IRTypes.

Local Open Scope N_scope.

(** ** 32-bit words *)

Definition word (n : N) : N := N.land n 0xffffffff.
Definition add32 (l : list N) : N := word (foldr N.add 0 l).
Definition rotr (k x : N) : N := N.lor (N.shiftr x k) (word (N.shiftl x (32 - k))).
Definition rotl (k x : N) : N := rotr (32 - k) x.
Definition xor3 (x y z : N) : N := N.lxor x (N.lxor y z).
Definition not32 (x : N) : N := N.lxor x 0xffffffff.

Definition word_of_bytes (a b c d : N) : N := ((a * 256 + b) * 256 + c) * 256 + d.
Definition bytes_of_word (w : N) : list N :=
  [N.land (N.shiftr w 24) 255; N.land (N.shiftr w 16) 255; N.land (N.shiftr w 8) 255;
   N.land w 255].

Fixpoint words_of_bytes (l : list N) : list N :=
  match l with
  | a :: b :: c :: d :: l => word_of_bytes a b c d :: words_of_bytes l
  | _ => []
  end.

Definition bytes_of_string (s : string) : list N :=
  N_of_ascii <$> String.list_ascii_of_string s.

(** The padding of both functions: a one bit, zeros, the length in bits. *)
Definition pad (msg : list N) : list N :=
  let bits := 8 * N.of_nat (length msg) in
  msg ++ [0x80] ++ replicate ((119 - length msg mod 64) mod 64)%nat 0 ++
  bytes_of_word (word (N.shiftr bits 32)) ++ bytes_of_word (word bits).

(** The 16-word blocks of a padded message. *)
Fixpoint blocks (fuel : nat) (l : list N) : list (list N) :=
  match fuel, l with
  | S fuel, _ :: _ => take 16 l :: blocks fuel (drop 16 l)
  | _, _ => []
  end.
Definition message_blocks (msg : list N) : list (list N) :=
  let ws := words_of_bytes (pad msg) in blocks (length ws) ws.

(** [w_at back t]: the word [t] positions before the next one. *)
Definition w_at (back : list N) (t : nat) : N := nth (t - 1) back 0.

(** The message schedule, the latest word first. *)
Fixpoint schedule (next : list N → N) (n : nat) (back : list N) : list N :=
  match n with O => back | S n => schedule next n (next back :: back) end.

(** ** SHA-256 *)

Record sha256_state := SHA256 { a2 : N; b2 : N; c2 : N; d2 : N; e2 : N; f2 : N; g2 : N; h2 : N }.

(** The constants are the first 32 bits of the fractional parts of roots of primes:
    square roots for the initial state, cube roots for the rounds. *)
Definition is_prime (n : N) : bool :=
  forallb (λ d, negb (n mod N.of_nat d =? 0)) (seq 2 (N.to_nat n - 2)).
Definition primes_below (n : nat) : list N := filter (λ p, is_prime p) (N.of_nat <$> seq 2 (n - 2)).

(** The integer cube root, one bit at a time from [bits] down. *)
Fixpoint cube_root (bits : nat) (n acc : N) : N :=
  match bits with
  | O => acc
  | S bits =>
      let next := acc + 2 ^ N.of_nat bits in
      cube_root bits n (if next * next * next <=? n then next else acc)
  end.

Definition square_fraction (p : N) : N := word (N.sqrt (N.shiftl p 64)).
Definition cube_fraction (p : N) : N := word (cube_root 40 (N.shiftl p 96) 0).

Definition sha256_init : sha256_state :=
  Eval vm_compute in
  match square_fraction <$> primes_below 20 with
  | [a; b; c; d; e; f; g; h] => SHA256 a b c d e f g h
  | _ => SHA256 0 0 0 0 0 0 0 0
  end.

Definition sha256_k : list N := Eval vm_compute in cube_fraction <$> primes_below 312.

Definition sha256_next (back : list N) : N :=
  let x := w_at back 15 in
  let y := w_at back 2 in
  add32 [xor3 (rotr 17 y) (rotr 19 y) (N.shiftr y 10); w_at back 7;
         xor3 (rotr 7 x) (rotr 18 x) (N.shiftr x 3); w_at back 16].

Definition sha256_round (s : sha256_state) (kw : N * N) : sha256_state :=
  let '(SHA256 a b c d e f g h) := s in
  let t1 := add32 [h; xor3 (rotr 6 e) (rotr 11 e) (rotr 25 e);
                   N.lxor (N.land e f) (N.land (not32 e) g); kw.1; kw.2] in
  let t2 := add32 [xor3 (rotr 2 a) (rotr 13 a) (rotr 22 a);
                   xor3 (N.land a b) (N.land a c) (N.land b c)] in
  SHA256 (add32 [t1; t2]) a b c (add32 [d; t1]) e f g.

Definition sha256_block (s : sha256_state) (block : list N) : sha256_state :=
  let w := rev (schedule sha256_next 48 (rev block)) in
  let '(SHA256 a b c d e f g h) := s in
  let '(SHA256 a' b' c' d' e' f' g' h') := foldl sha256_round s (zip sha256_k w) in
  SHA256 (add32 [a; a']) (add32 [b; b']) (add32 [c; c']) (add32 [d; d'])
         (add32 [e; e']) (add32 [f; f']) (add32 [g; g']) (add32 [h; h']).

(** [sha256.Sum256]. *)
Definition Sum256 (msg : list N) : list N :=
  let '(SHA256 a b c d e f g h) := foldl sha256_block sha256_init (message_blocks msg) in
  mjoin (bytes_of_word <$> [a; b; c; d; e; f; g; h]).

(** ** SHA-1 *)

Record sha1_state := SHA1 { a1 : N; b1 : N; c1 : N; d1 : N; e1 : N }.

Definition sha1_init : sha1_state :=
  SHA1 0x67452301 0xefcdab89 0x98badcfe 0x10325476 0xc3d2e1f0.

Definition sha1_next (back : list N) : N :=
  rotl 1 (N.lxor (N.lxor (w_at back 3) (w_at back 8)) (N.lxor (w_at back 14) (w_at back 16))).

Definition sha1_round (acc : nat * sha1_state) (w : N) : nat * sha1_state :=
  let '(t, SHA1 a b c d e) := acc in
  let '(f, k) :=
    if (t <? 20)%nat then (N.lxor (N.land b c) (N.land (not32 b) d), 0x5a827999)
    else if (t <? 40)%nat then (xor3 b c d, 0x6ed9eba1)
    else if (t <? 60)%nat then (xor3 (N.land b c) (N.land b d) (N.land c d), 0x8f1bbcdc)
    else (xor3 b c d, 0xca62c1d6) in
  (S t, SHA1 (add32 [rotl 5 a; f; e; k; w]) a (rotl 30 b) c d).

Definition sha1_block (s : sha1_state) (block : list N) : sha1_state :=
  let w := rev (schedule sha1_next 64 (rev block)) in
  let '(SHA1 a b c d e) := s in
  let '(_, SHA1 a' b' c' d' e') := foldl sha1_round (0%nat, s) w in
  SHA1 (add32 [a; a']) (add32 [b; b']) (add32 [c; c']) (add32 [d; d']) (add32 [e; e']).

(** [sha1.Sum]. *)
Definition Sum1 (msg : list N) : list N :=
  let '(SHA1 a b c d e) := foldl sha1_block sha1_init (message_blocks msg) in
  mjoin (bytes_of_word <$> [a; b; c; d; e]).

(** ** Hexadecimal *)

Definition hex_digit (n : N) : ascii := ascii_of_N (if n <? 10 then 48 + n else 87 + n).

(** [hex.EncodeToString]. *)
Fixpoint EncodeToString (l : list N) : string :=
  match l with
  | [] => ""
  | b :: l =>
      String (hex_digit (N.land (N.shiftr b 4) 15)) (String (hex_digit (N.land b 15)) (EncodeToString l))
  end.

Definition hex_value (c : ascii) : option N :=
  let n := N_of_ascii c in
  if (48 <=? n) && (n <=? 57) then Some (n - 48)
  else if (97 <=? n) && (n <=? 102) then Some (n - 87)
  else if (65 <=? n) && (n <=? 70) then Some (n - 55)
  else None.

(** [hex.DecodeString]. *)
Fixpoint DecodeString (s : string) : option (list N) :=
  match s with
  | EmptyString => Some []
  | String c (String d s) =>
      match hex_value c, hex_value d, DecodeString s with
      | Some hi, Some lo, Some l => Some (16 * hi + lo :: l)
      | _, _, _ => None
      end
  | _ => None
  end.

(** The default [digest] of a labeler. *)
Definition sha256Hex (material : string) : string :=
  EncodeToString (Sum256 (bytes_of_string material)).

(** ** Name-based identifiers *)

Definition parseNamespace (id : ID) : option (list N) :=
  match DecodeString (replace_byte "-" "" id) with
  | Some raw => if (length raw =? 16)%nat then Some raw else None
  | None => None
  end.

(** [b & keep | set] at one index. *)
Definition set_bits (i : nat) (keep set : N) (l : list N) : list N :=
  alter (λ b, N.lor (N.land b keep) set) i l.

Definition slice (from to : nat) (l : list N) : list N := take (to - from) (drop from l).

Definition NameUUID (namespace : ID) (name : string) : ID :=
  match parseNamespace namespace with
  | None => ""
  | Some raw =>
      let hashed := Sum1 (raw ++ bytes_of_string name) in
      let hashed := set_bits 6 0x0f 0x50 hashed in
      let hashed := set_bits 8 0x3f 0x80 hashed in
      EncodeToString (slice 0 4 hashed) +:+ "-" +:+ EncodeToString (slice 4 6 hashed) +:+ "-" +:+
      EncodeToString (slice 6 8 hashed) +:+ "-" +:+ EncodeToString (slice 8 10 hashed) +:+ "-" +:+
      EncodeToString (slice 10 16 hashed)
  end.

(** The published test vectors. *)
Example sha256_abc :
  sha256Hex "abc" = "ba7816bf8f01cfea414140de5dae2223b00361a396177a9cb410ff61f20015ad".
Proof. vm_compute. reflexivity. Qed.
Example sha256_two_blocks :
  sha256Hex "abcdbcdecdefdefgefghfghighijhijkijkljklmklmnlmnomnopnopq" =
  "248d6a61d20638b8e5c026930c3e6039a33ce45964ff2167f6ecedd419db06c1".
Proof. vm_compute. reflexivity. Qed.
Example sha1_abc :
  EncodeToString (Sum1 (bytes_of_string "abc")) = "a9993e364706816aba3e25717850c26c9cd0d89d".
Proof. vm_compute. reflexivity. Qed.

(** ** The form of a digest *)

Lemma nibble_cases n : n < 16 → n ∈ [0;1;2;3;4;5;6;7;8;9;10;11;12;13;14;15].
Proof. intros H. rewrite !elem_of_cons, elem_of_nil. lia. Qed.

(** A property of the sixteen digits, by enumeration. *)
Ltac each_nibble H :=
  apply nibble_cases in H; rewrite !elem_of_cons, elem_of_nil in H;
  repeat (destruct H as [->|H]; [reflexivity|]); done.

Lemma hex_digit_char n : n < 16 → is_hex_char (hex_digit n) = true.
Proof. intros H. each_nibble H. Qed.
Lemma hex_digit_value n : n < 16 → hex_value (hex_digit n) = Some n.
Proof. intros H. each_nibble H. Qed.
Lemma hex_digit_lower n : n < 16 → ascii_lower_char (hex_digit n) = hex_digit n.
Proof. intros H. each_nibble H. Qed.

Lemma low_nibble n : N.land n 15 < 16.
Proof. change 15 with (N.ones 4). rewrite N.land_ones. apply N.mod_lt. lia. Qed.

Lemma EncodeToString_length l : String.length (EncodeToString l) = (2 * length l)%nat.
Proof. induction l as [|b l IH]; [done|]. simpl. rewrite IH. lia. Qed.

Lemma EncodeToString_chars l : all_chars is_hex_char (EncodeToString l) = true.
Proof.
  induction l as [|b l IH]; [done|]. simpl. by rewrite !hex_digit_char, IH by apply low_nibble.
Qed.

Lemma byte_nibbles b : b < 256 → 16 * N.land (N.shiftr b 4) 15 + N.land b 15 = b.
Proof.
  intros H. change 15 with (N.ones 4). rewrite !N.land_ones, N.shiftr_div_pow2.
  change (2 ^ 4) with 16. rewrite (N.mod_small (b / 16)) by (apply N.Div0.div_lt_upper_bound; lia).
  pose proof (N.div_mod b 16). lia.
Qed.

Lemma DecodeString_EncodeToString l :
  Forall (λ b, b < 256) l → DecodeString (EncodeToString l) = Some l.
Proof.
  induction 1 as [|b l Hb _ IH]; [done|]. simpl.
  by rewrite !hex_digit_value, IH, byte_nibbles by (done || apply low_nibble).
Qed.

Lemma hex_value_char c : is_Some (hex_value c) ↔ is_hex_char c = true.
Proof.
  destruct c as [[] [] [] [] [] [] [] []]; vm_compute; split; intros H; try done;
    try (by destruct H); by eexists.
Qed.

(** Induction two characters at a time. *)
Lemma string_pair_ind (Q : string → Prop) :
  Q "" → (∀ c, Q (String c "")) → (∀ c d s, Q s → Q (String c (String d s))) → ∀ s, Q s.
Proof.
  intros H0 H1 H2. enough (∀ s, Q s ∧ ∀ c, Q (String c s)) by (intros s; apply H).
  induction s as [|d s [IH IH']]; split; auto.
Qed.

(** [is_hex] is the success of [hex.DecodeString]. *)
Lemma is_hex_DecodeString s : is_hex s = true ↔ is_Some (DecodeString s).
Proof.
  unfold is_hex. induction s as [|c|c d s IH] using string_pair_ind.
  - split; [by eexists|done].
  - simpl. rewrite andb_false_r. split; [done|]. by intros [? ?].
  - cbn [String.list_ascii_of_string forallb DecodeString].
    change (Nat.even (String.length (String c (String d s)))) with (Nat.even (String.length s)).
    assert (∀ b1 b2 b3 b4 : bool, b1 && (b2 && b3) && b4 = b1 && b2 && (b3 && b4)) as -> by
      (by intros [] [] [] []).
    rewrite !andb_true_iff. rewrite <-(hex_value_char c), <-(hex_value_char d), <-andb_true_iff, IH.
    destruct (hex_value c), (hex_value d), (DecodeString s); split;
      try (intros [[? ?] ?]); try (intros [? ?]); split_and?; try done; by eexists.
Qed.

Lemma bytes_of_word_length w : length (bytes_of_word w) = 4%nat.
Proof. done. Qed.
Lemma Sum256_length msg : length (Sum256 msg) = 32%nat.
Proof. unfold Sum256. by destruct (foldl _ _ _). Qed.
Lemma Sum1_length msg : length (Sum1 msg) = 20%nat.
Proof. unfold Sum1. by destruct (foldl _ _ _). Qed.

Lemma sha256Hex_length m : String.length (sha256Hex m) = 64%nat.
Proof. unfold sha256Hex. by rewrite EncodeToString_length, Sum256_length. Qed.
Lemma sha256Hex_chars m : all_chars is_hex_char (sha256Hex m) = true.
Proof. apply EncodeToString_chars. Qed.
