(* ===== verification/Json.v ===== *)
(** JSON as the code writes it: [encoding/json] with and without the escaping of
    HTML characters ([json.Marshal], [adapter.EncodeJSON]), over documents whose
    object fields are in the order of the struct. *)
From S2P Require Import Prelude Diagnostics IRTypes Hashes.

Inductive Json :=
| Null
| Bool (b : bool)
| Int (n : Z)
| Num (text : string)
| Str (s : string)
| Arr (items : list Json)
| Obj (fields : list (string * Json)).

(** ** UTF-8 *)

Definition byte_in (lo hi : N) (c : ascii) : bool :=
  let n := N_of_ascii c in (lo <=? n)%N && (n <=? hi)%N.
Definition continuation (c : ascii) : bool := byte_in 128 191 c.

(** [utf8.DecodeRune]: how many bytes follow the first byte of a valid rune. *)
Definition rune_tail (c : ascii) (s : string) : option nat :=
  match s with
  | String c1 s1 =>
      if byte_in 194 223 c then if continuation c1 then Some 1%nat else None
      else
        match s1 with
        | String c2 s2 =>
            let second :=
              if byte_in 224 224 c then byte_in 160 191 c1
              else if byte_in 237 237 c then byte_in 128 159 c1
              else continuation c1 in
            if byte_in 224 239 c then if second && continuation c2 then Some 2%nat else None
            else
              match s2 with
              | String c3 _ =>
                  let second :=
                    if byte_in 240 240 c then byte_in 144 191 c1
                    else if byte_in 244 244 c then byte_in 128 143 c1
                    else continuation c1 in
                  if byte_in 240 244 c
                  then if second && continuation c2 && continuation c3 then Some 3%nat else None
                  else None
              | EmptyString => None
              end
        | EmptyString => None
        end
  | EmptyString => None
  end.

(** The line and paragraph separators U+2028 and U+2029. *)
Definition separator (c : ascii) (s : string) : option string :=
  match s with
  | String c1 (String c2 _) =>
      if byte_in 226 226 c && byte_in 128 128 c1 then
        if byte_in 168 168 c2 then Some "\u2028"
        else if byte_in 169 169 c2 then Some "\u2029" else None
      else None
  | _ => None
  end.

(** ** Strings *)

Definition quote : ascii := "034".

Definition hex_escape (c : ascii) : string :=
  let n := N_of_ascii c in
  "\u00" +:+ String (hex_digit (n / 16)) (String (hex_digit (n mod 16)) "").

Definition escape_ascii (html : bool) (c : ascii) : string :=
  let n := N_of_ascii c in
  if Ascii.eqb c quote || Ascii.eqb c "\" then String "\" (String c "")
  else if (n =? 8)%N then "\b"
  else if (n =? 9)%N then "\t"
  else if (n =? 10)%N then "\n"
  else if (n =? 12)%N then "\f"
  else if (n =? 13)%N then "\r"
  else if (n <? 32)%N then hex_escape c
  else if html && (Ascii.eqb c "<" || Ascii.eqb c ">" || Ascii.eqb c "&") then hex_escape c
  else String c "".

(** [copy] bytes of a rune are still to be copied, [drop] to be skipped. *)
Fixpoint escape (html : bool) (copy drop : nat) (s : string) : string :=
  match s with
  | EmptyString => ""
  | String c s =>
      match copy, drop with
      | S copy, _ => String c (escape html copy 0 s)
      | O, S drop => escape html 0 drop s
      | O, O =>
          if byte_in 0 127 c then escape_ascii html c +:+ escape html 0 0 s
          else
            match rune_tail c s with
            | None => "\ufffd" +:+ escape html 0 0 s
            | Some tail =>
                match separator c s with
                | Some text => text +:+ escape html 0 tail s
                | None => String c (escape html tail 0 s)
                end
            end
      end
  end.

Definition json_string (html : bool) (s : string) : string :=
  String quote (escape html 0 0 s +:+ String quote "").

(** ** Values *)

Fixpoint json (html : bool) (v : Json) : string :=
  match v with
  | Null => "null"
  | Bool b => if b then "true" else "false"
  | Int n => Itoa n
  | Num text => text
  | Str s => json_string html s
  | Arr items => "[" +:+ String.concat "," (map (json html) items) +:+ "]"
  | Obj fields =>
      "{" +:+ String.concat ","
        ((fix each (l : list (string * Json)) : list string :=
            match l with
            | [] => []
            | (key, v) :: l => (json_string html key +:+ ":" +:+ json html v) :: each l
            end) fields) +:+ "}"
  end.

(** [json.Marshal]. *)
Definition Marshal (v : Json) : string := json true v.

(** [EncodeJSON]: an encoder without HTML escaping ends the document with a newline. *)
Definition EncodeJSON (v : Json) : string := json false v +:+ String "010" "".

(** ** Building documents: the [omitempty] of struct tags *)

Definition omit_string (key value : string) : list (string * Json) :=
  if value =s "" then [] else [(key, Str value)].
Definition omit_int (key : string) (value : Z) : list (string * Json) :=
  if value =? 0 then [] else [(key, Int value)].
Definition omit_strings (key : string) (values : list string) : list (string * Json) :=
  match values with [] => [] | _ => [(key, Arr (Str <$> values))] end.
Definition omit_none {A} (key : string) (f : A → Json) (value : option A) : list (string * Json) :=
  match value with Some v => [(key, f v)] | None => [] end.
Definition strings (values : list string) : Json := Arr (Str <$> values).

Example json_example :
  Marshal (Obj [("a", Arr [Int (-1); Bool true; Null]); ("b", Str ("<" +:+ String "010" "é"))]) =
  "{" +:+ json_string true "a" +:+ ":[-1,true,null]," +:+ json_string true "b" +:+ ":"
    +:+ String quote "\u003c\né" +:+ String quote "}".
Proof. vm_compute. reflexivity. Qed.
