(* ===== verification/IRValidate.v ===== *)
(** The [Validate] methods of [internal/ir], with the values they protect:
    policy merging, the DNS resolver graph, canonical rule sets.

    [Platform] stands for what is not in the repository's Go code: the JSON
    schema (with the reflection walk and the JSON encoder in front of it), URL
    and address parsing, and SHA-256. *)
From S2P Require Import Prelude Diagnostics IRTypes Hashes Json.

(** What the validators hand to the schema, with the definition's name. *)
Inductive SchemaValue :=
| SV_ID (v : ID)
| SV_Endpoint (v : Endpoint)
| SV_Node (v : Node)
| SV_TargetRef (v : TargetRef)
| SV_Chain (v : Chain)
| SV_Metadata (v : Metadata)
| SV_Resource (v : Resource)
| SV_PolicyHealthCheck (v : PolicyHealthCheck)
| SV_PolicyGroup (v : PolicyGroup)
| SV_PolicyOverride (v : PolicyOverride)
| SV_DNSResolver (v : DNSResolver)
| SV_DNSProfile (v : DNSProfile)
| SV_PortRange (v : PortRange)
| SV_RouteMatch (v : RouteMatch)
| SV_RoutingRule (v : RoutingRule)
| SV_RoutingProfile (v : RoutingProfile)
| SV_RuleSetEntry (v : RuleSetEntry)
| SV_RuleSetWrite (v : RuleSetWrite)
| SV_RuleSet (v : RuleSet)
| SV_ClientPreset (v : ClientPreset)
| SV_SubscriptionProfile (v : SubscriptionProfile)
| SV_Target (v : Target)
| SV_FrozenInput (v : FrozenInputSpec).

(** The parts of [url.URL] the source reads. *)
Record URL := {
  u_Scheme : string; u_Host : string; u_Hostname : string; u_Port : string;
  u_HasUser : bool; u_Fragment : string }.

Class Platform := {
  (** [validateValue value definition]. *)
  validateValue : string → SchemaValue → error;
  (** A rejected document has at least one diagnostic ([schemaDiagnostics] visits
      a failure down to its leaves, and each leaf reports an issue). *)
  validateValue_nonempty : ∀ d v, validateValue d v ≠ Some [];
  (** [url.Parse]. *)
  url_Parse : string → option URL;
  (** [netip.Prefix] with its parser, its masking and its printer. *)
  Prefix : Type;
  Prefix_eq_dec :: EqDecision Prefix;
  ParsePrefix : string → option Prefix;
  Masked : Prefix → Prefix;
  Prefix_String : Prefix → string }.

Section Validate.
Context {P : Platform}.

Definition ID_Validate (v : ID) : error := validateValue "uuid" (SV_ID v).
Definition valid_id (v : ID) : bool := match ID_Validate v with None => true | _ => false end.

Definition prefixed (err : Diagnostics) (prefix : string) (id : ID) : Diagnostics :=
  prefixDiagnostics valid_id err prefix id.

Definition Metadata_Validate (v : Metadata) : error := validateValue "metadata" (SV_Metadata v).

Definition Endpoint_Validate (v : Endpoint) : error := validateValue "endpoint" (SV_Endpoint v).

Definition Node_Validate (n : Node) : error :=
  match n_Auth n with
  | Auth_nil => Some [issue InvalidUnion "/auth"]
  | _ =>
      match n_Transport n with
      | Transport_nil => Some [issue InvalidUnion "/transport"]
      | _ =>
          match n_Security n with
          | Security_nil => Some [issue InvalidUnion "/security"]
          | _ => validateValue "node" (SV_Node n)
          end
      end
  end.

Definition TargetRef_Validate (v : TargetRef) : error :=
  validateValue "target_ref" (SV_TargetRef v).

Definition TargetRef_ValidateFor (v : TargetRef) (allowBuiltin : bool)
    (allowedKinds : list ResourceKind) : error :=
  check? TargetRef_Validate v in
  if tr_Type v =s BuiltinRef then
    if allowBuiltin then None else Some [issue ReferenceKind "/type"]
  else if existsb (String.eqb (tr_Kind v)) allowedKinds then None
  else Some [issue ReferenceKind "/kind"].

Definition PolicyHealthCheck_Validate (v : PolicyHealthCheck) : error :=
  check? validateValue "policy_health_check" (SV_PolicyHealthCheck v) in
  if hc_URL v =s "" then None
  else
    let invalid := Some [issue InvalidValue "/url"] in
    match url_Parse (hc_URL v) with
    | None => invalid
    | Some u =>
        if negb (u_Scheme u =s "https") || (u_Hostname u =s "") || u_HasUser u
           || negb (u_Fragment u =s "") || HasSuffix (u_Host u) ":" then invalid
        else if u_Port u =s "" then None
        else
          match Atoi (u_Port u) with
          | None => invalid
          | Some n => if (n <? 1) || (65535 <? n) then invalid else None
          end
    end.

Definition PolicyGroup_Validate (v : PolicyGroup) : error :=
  check? validateValue "policy_group" (SV_PolicyGroup v) in
  match PolicyHealthCheck_Validate (pg_HealthCheck v) with
  | Some err => Some (prefixed err "/health_check" "")
  | None =>
      finish
        (range_dup tr_ResourceID
           (λ i _, [issue DuplicateResource ("/members/" +:+ index_string i +:+ "/resource_id")])
           (pg_Members v)
         ++ if bool_decide (pg_DefaultMember v ∈ pg_Members v) then []
            else [issue ReferenceMissing "/default_member"])
  end.

Definition PolicyOverride_Validate (v : PolicyOverride) : error :=
  check? validateValue "policy_override" (SV_PolicyOverride v) in
  match po_HealthCheck v with
  | None => None
  | Some health =>
      match PolicyHealthCheck_Validate health with
      | Some err => Some (prefixed err "/health_check" "")
      | None => None
      end
  end.

Definition DNSResolver_Validate (v : DNSResolver) : error :=
  check? validateValue "dns_resolver" (SV_DNSResolver v) in
  if dr_Kind v =s DNSHTTPS then
    PolicyHealthCheck_Validate
      {| hc_Enabled := false; hc_URL := dr_URL v; hc_IntervalMS := None;
         hc_TimeoutMS := None; hc_ToleranceMS := None |}
  else None.

(** ** The resolver graph of a DNS profile *)

(** [indices]: the last position of each resolver name. *)
Definition resolver_indices (rs : list DNSResolver) : gmap string nat :=
  foldl (λ m ir, <[dr_ResolverID ir.2 := ir.1]> m) ∅ (imap (λ i r, (i, r)) rs).

Record dns_visit_state := {
  dv_colors : list nat; dv_stack : list nat; dv_diagnostics : Diagnostics }.

Definition bootstrap_path (i : nat) : string :=
  "/resolvers/" +:+ index_string i +:+ "/bootstrap_resolver_id".

(** [slices.Index] on the visiting stack, then the tail from that position. *)
Fixpoint stack_from (next : nat) (stack : list nat) : list nat :=
  match stack with
  | [] => []
  | i :: stack' => if (i =? next)%nat then stack else stack_from next stack'
  end.

(** [visit] recurses only into resolvers of colour 0 and has coloured its own
    first, so a fuel of the number of resolvers is never exhausted. *)
Fixpoint dns_visit (fuel : nat) (rs : list DNSResolver) (i : nat)
    (s : dns_visit_state) : dns_visit_state :=
  match fuel with
  | O => s
  | S fuel' =>
      let s := {| dv_colors := <[i := 1%nat]> (dv_colors s);
                  dv_stack := dv_stack s ++ [i];
                  dv_diagnostics := dv_diagnostics s |} in
      let s :=
        match rs !! i with
        | None => s
        | Some resolver =>
            match resolver_indices rs !! dr_BootstrapResolverID resolver with
            | Some next =>
                if negb (dr_Kind resolver =s DNSHTTPS) then s
                else
                  match dv_colors s !! next with
                  | Some 0%nat => dns_visit fuel' rs next s
                  | Some 1%nat =>
                      {| dv_colors := dv_colors s; dv_stack := dv_stack s;
                         dv_diagnostics := dv_diagnostics s ++
                           ((λ index, issue ReferenceCycle (bootstrap_path index))
                              <$> stack_from next (dv_stack s)) |}
                  | _ => s
                  end
            | None => s
            end
        end in
      {| dv_colors := <[i := 2%nat]> (dv_colors s);
         dv_stack := take (length (dv_stack s) - 1) (dv_stack s);
         dv_diagnostics := dv_diagnostics s |}
  end.

Definition dns_cycles (rs : list DNSResolver) : Diagnostics :=
  dv_diagnostics
    (foldl (λ s i, match dv_colors s !! i with
                   | Some 0%nat => dns_visit (length rs) rs i s
                   | _ => s
                   end)
       {| dv_colors := replicate (length rs) 0%nat; dv_stack := []; dv_diagnostics := [] |}
       (seq 0 (length rs))).

Definition DNSProfile_Validate (v : DNSProfile) : error :=
  check? validateValue "dns_profile" (SV_DNSProfile v) in
  let bootstrap := br_ResolverID <$> dp_Bootstrap v in
  let resolvers := dr_ResolverID <$> dp_Resolvers v in
  let d_bootstrap :=
    range_dup br_ResolverID
      (λ i _, [issue DuplicateResource ("/bootstrap/" +:+ index_string i +:+ "/resolver_id")])
      (dp_Bootstrap v) in
  let d_resolvers :=
    range_app (λ i r,
      if seen_before dr_ResolverID (dp_Resolvers v) i r
         || bool_decide (dr_ResolverID r ∈ bootstrap)
      then [issue DuplicateResource ("/resolvers/" +:+ index_string i +:+ "/resolver_id")]
      else []) (dp_Resolvers v) in
  let d_each :=
    range_app (λ i r,
      let path := "/resolvers/" +:+ index_string i in
      match DNSResolver_Validate r with
      | Some err => prefixed err path ""
      | None => []
      end ++
      (if (dr_Kind r =s DNSHTTPS) && negb (bool_decide (dr_BootstrapResolverID r ∈ bootstrap))
       then
         let code := if bool_decide (dr_BootstrapResolverID r ∈ resolvers)
                     then ReferenceKind else ReferenceMissing in
         [issue code (path +:+ "/bootstrap_resolver_id")]
       else [])) (dp_Resolvers v) in
  let d_final :=
    if bool_decide (dp_FinalResolver v ∈ resolvers) then []
    else [issue ReferenceMissing "/final_resolver"] in
  let d_rules :=
    range_app (λ i rule,
      if bool_decide (dru_ResolverID rule ∈ resolvers) then []
      else [issue ReferenceMissing ("/rules/" +:+ index_string i +:+ "/resolver_id")])
      (dp_Rules v) in
  finish (d_bootstrap ++ d_resolvers ++ d_each ++ dns_cycles (dp_Resolvers v)
          ++ d_final ++ d_rules).

(** ** Routing *)

Definition PortRange_Validate (v : PortRange) : error :=
  check? validateValue "port_range" (SV_PortRange v) in
  if pr_To v <? pr_From v then Some [issue InvalidValue "/to"] else None.

Definition canonicalCIDR (value : string) : bool :=
  match ParsePrefix value with
  | Some prefix => bool_decide (prefix = Masked prefix) && (Prefix_String prefix =s value)
  | None => false
  end.

Definition RouteMatch_Validate (v : RouteMatch) : error :=
  check? validateValue "route_match" (SV_RouteMatch v) in
  check? range_err (λ i cidr,
           if canonicalCIDR cidr then None
           else Some [issue InvalidValue ("/ip_cidrs/" +:+ index_string i)]) (rm_IPCIDRs v) in
  range_err (λ i ports,
    match PortRange_Validate ports with
    | Some err => Some (prefixed err ("/destination_ports/" +:+ index_string i) "")
    | None => None
    end) (rm_DestinationPorts v).

Definition RoutingRule_Validate (v : RoutingRule) : error :=
  check? validateValue "routing_rule" (SV_RoutingRule v) in
  match RouteMatch_Validate (rr_Match v) with
  | Some err => Some (prefixed err "/match" "")
  | None => None
  end.

Definition RoutingProfile_Validate (v : RoutingProfile) : error :=
  check? validateValue "routing_profile" (SV_RoutingProfile v) in
  range_err (λ i rule,
    match RoutingRule_Validate rule with
    | Some err => Some (prefixed err ("/rules/" +:+ index_string i) "")
    | None => None
    end) (rp_Rules v).

Definition RuleSetEntry_Validate (v : RuleSetEntry) : error :=
  check? validateValue "rule_set_entry" (SV_RuleSetEntry v) in
  if (rse_Kind v =s RuleSetCIDR) && negb (canonicalCIDR (rse_CIDR v))
  then Some [issue InvalidValue "/cidr"] else None.

Definition RuleSetWrite_Validate (v : RuleSetWrite) : error :=
  check? validateValue "rule_set_write" (SV_RuleSetWrite v) in
  range_err (λ i entry,
    match RuleSetEntry_Validate entry with
    | Some err => Some (prefixed err ("/entries/" +:+ index_string i) "")
    | None => None
    end) (rsw_Entries v).

Definition entry_json (e : RuleSetEntry) : Json :=
  Obj ([("kind", Str (rse_Kind e))] ++ omit_string "domain" (rse_Domain e) ++
       omit_string "match" (rse_Match e) ++ omit_string "cidr" (rse_CIDR e)).

(** [contentHash]: over the sorted, duplicate-free JSON of the entries. *)
Definition contentHash (v : RuleSetWrite) : string :=
  let entries := sort_strings ((Marshal ∘ entry_json) <$> rsw_Entries v) in
  sha256Hex (Marshal (Obj
    [("schema_version", Int (rsw_SchemaVersion v)); ("format", Str (rsw_Format v));
     ("entries", strings (CompactFunc String.eqb entries))])).

Definition NewRuleSet (write : RuleSetWrite) : result Diagnostics RuleSet :=
  match RuleSetWrite_Validate write with
  | Some err => Err err
  | None =>
      Ok {| rset_SchemaVersion := rsw_SchemaVersion write; rset_Format := rsw_Format write;
            rset_Entries := rsw_Entries write; rset_ContentHash := contentHash write |}
  end.

Definition RuleSet_Validate (v : RuleSet) : error :=
  check? validateValue "rule_set" (SV_RuleSet v) in
  let write := {| rsw_SchemaVersion := rset_SchemaVersion v; rsw_Format := rset_Format v;
                  rsw_Entries := rset_Entries v |} in
  check? RuleSetWrite_Validate write in
  if rset_ContentHash v =s contentHash write then None
  else Some [issue InvalidValue "/content_hash"].

(** ** Client presets and subscriptions *)

Definition ClientPreset_Validate (v : ClientPreset) : error :=
  check? validateValue "client_preset" (SV_ClientPreset v) in
  if negb (ll_Protocol (cp_LocalListener v) =s "socks5") then
    Some [issue InvalidValue "/local_listener/protocol"]
  else if negb (ll_Listen (cp_LocalListener v) =s PresetLoopbackAddress) then
    Some [issue InvalidValue "/local_listener/listen"]
  else if negb (ll_Port (cp_LocalListener v) =? PresetSOCKSPort) then
    Some [issue InvalidValue "/local_listener/port"]
  else if negb (ca_Enabled (cp_ControlAPI v)) then None
  else
    let with_port (controlPort : Z) :=
      if ca_Port (cp_ControlAPI v) =? controlPort then None
      else Some [issue InvalidValue "/control_api/port"] in
    if cp_CoreFamily v =s SingBox then with_port SingBoxControlPort
    else if cp_CoreFamily v =s Mihomo then with_port MihomoControlPort
    else Some [issue InvalidValue "/control_api/enabled"].

Definition SubscriptionProfile_Validate (v : SubscriptionProfile) : error :=
  check? validateValue "subscription_profile" (SV_SubscriptionProfile v) in
  range_err (λ i t,
    let path := "/targets/" +:+ index_string i in
    if seen_before st_Key (sp_Targets v) i t then Some [issue DuplicateResource (path +:+ "/key")]
    else
      range_err (λ j o,
        let p := path +:+ "/policy_overrides/" +:+ index_string j in
        if seen_before po_PolicyGroupID (st_PolicyOverrides t) j o then
          Some [issue DuplicateResource (p +:+ "/policy_group_id")]
        else
          match PolicyOverride_Validate o with
          | Some err => Some (prefixed err p (po_PolicyGroupID o))
          | None => None
          end) (st_PolicyOverrides t)) (sp_Targets v).

(** ** Resources and targets *)

Definition Resource_Validate (v : Resource) : error :=
  let kind := md_Kind (r_Metadata v) in
  let id := md_ResourceID (r_Metadata v) in
  let union := Some [issue InvalidUnion "/payload"] in
  let payload (expected : ResourceKind) (validate : error) :=
    if negb (kind =s expected) then union
    else
      match validate with
      | Some err => Some (prefixed err "/payload" id)
      | None => validateValue "resource" (SV_Resource v)
      end in
  match r_Payload v with
  | Payload_Node p => payload KindNode (Node_Validate p)
  | Payload_Chain _ => payload KindChain None
  | Payload_PolicyGroup p => payload KindPolicyGroup (PolicyGroup_Validate p)
  | Payload_RoutingProfile p => payload KindRoutingProfile (RoutingProfile_Validate p)
  | Payload_DNSProfile p => payload KindDNSProfile (DNSProfile_Validate p)
  | Payload_RuleSet p => payload KindRuleSet (RuleSet_Validate p)
  | Payload_SubscriptionProfile p =>
      payload KindSubscriptionProfile (SubscriptionProfile_Validate p)
  | Payload_ClientPreset p => payload KindClientPreset (ClientPreset_Validate p)
  | Payload_typed_nil _ | Payload_nil => union
  end.

(** [overrideIDs]: the keys of the override map in order. *)
Definition overrideIDs (v : Target) : list ID :=
  sort_strings (map_to_list (t_PolicyOverrides v)).*1.

Definition Target_Validate (v : Target) : error :=
  check? validateValue "target" (SV_Target v) in
  range_err (λ i id,
    let path := "/policy_overrides/" +:+ index_string i in
    match t_PolicyOverrides v !! id with
    | None => None
    | Some override =>
        if negb (id =s po_PolicyGroupID override) then
          Some [issue ReferenceKind (path +:+ "/policy_group_id")]
        else
          match PolicyOverride_Validate override with
          | Some err => Some (prefixed err path (po_PolicyGroupID override))
          | None => None
          end
    end) (overrideIDs v).

(** ** Merging a target's override into a policy group *)

Definition MergePolicyOverride (base : Resource) (override : PolicyOverride)
    : result Diagnostics PolicyGroup :=
  match Resource_Validate base with
  | Some err => Err err
  | None =>
      match r_Payload base with
      | Payload_PolicyGroup group =>
          if negb (rid base =s po_PolicyGroupID override) then
            Err [issue ReferenceKind "/policy_group_id"]
          else
            match PolicyOverride_Validate override with
            | Some err => Err err
            | None =>
                let next :=
                  {| pg_SchemaVersion := pg_SchemaVersion group;
                     pg_Strategy := default (pg_Strategy group) (po_Strategy override);
                     pg_Members := pg_Members group;
                     pg_DefaultMember :=
                       default (pg_DefaultMember group) (po_DefaultMember override);
                     pg_HealthCheck :=
                       default (pg_HealthCheck group) (po_HealthCheck override);
                     pg_OnUnavailable := pg_OnUnavailable group |} in
                match PolicyGroup_Validate next with
                | Some err => Err err
                | None => Ok next
                end
            end
      | _ => Err [issue ReferenceKind "/policy_group_id"]
      end
  end.

(** ** A rejection always says why *)

Definition explained (e : error) : Prop := e ≠ Some [].

Lemma explained_prefixed err p id : err ≠ [] → explained (Some (prefixed err p id)).
Proof. intros H [= E]. by apply prefixDiagnostics_nil in E. Qed.

Lemma explained_finish d : explained (finish d).
Proof. intros E. by apply finish_Some_nonempty in E. Qed.

Lemma explained_validate d v : explained (validateValue d v).
Proof. apply validateValue_nonempty. Qed.

Lemma explained_Some err : explained (Some err) ↔ err ≠ [].
Proof. unfold explained. naive_solver. Qed.

Lemma explained_range_err {A} (f : nat → A → error) l :
  (∀ i x, explained (f i x)) → explained (range_err f l).
Proof.
  intros Hf. unfold range_err. generalize O. induction l as [|x l IH]; intros i; simpl; [done|].
  destruct (f i x) eqn:E; [|apply IH]. rewrite <-E. apply Hf.
Qed.

(** Case analysis on the validators a goal [explained _] runs. *)
Ltac explain_step :=
  match goal with
  | |- explained None => done
  | |- explained (Some [_]) => done
  | |- explained (validateValue _ _) => apply explained_validate
  | |- explained (finish _) => apply explained_finish
  | |- explained (range_err _ _) => apply explained_range_err; intros
  | |- explained (Some (prefixed _ _ _)) => apply explained_prefixed
  | H : ?m = Some ?err |- explained (Some ?err) => rewrite <-H
  | H : ?m = Some ?err |- ?err ≠ [] => apply explained_Some; rewrite <-H
  | |- context [match ?m with _ => _ end] => destruct m eqn:?
  end.
Ltac explain := repeat explain_step; eauto with explained.

Create HintDb explained.

Lemma explained_Node v : explained (Node_Validate v).
Proof. unfold Node_Validate. explain. Qed.
Lemma explained_PolicyHealthCheck v : explained (PolicyHealthCheck_Validate v).
Proof. unfold PolicyHealthCheck_Validate. cbv zeta. explain. Qed.
#[local] Hint Resolve explained_Node explained_PolicyHealthCheck : explained.
Lemma explained_PolicyGroup v : explained (PolicyGroup_Validate v).
Proof. unfold PolicyGroup_Validate. explain. Qed.
Lemma explained_PolicyOverride v : explained (PolicyOverride_Validate v).
Proof. unfold PolicyOverride_Validate. explain. Qed.
Lemma explained_DNSResolver v : explained (DNSResolver_Validate v).
Proof. unfold DNSResolver_Validate. explain. Qed.
Lemma explained_DNSProfile v : explained (DNSProfile_Validate v).
Proof. unfold DNSProfile_Validate. explain. Qed.
Lemma explained_PortRange v : explained (PortRange_Validate v).
Proof. unfold PortRange_Validate. explain. Qed.
#[local] Hint Resolve explained_PolicyGroup explained_PolicyOverride explained_DNSResolver
  explained_DNSProfile explained_PortRange : explained.
Lemma explained_RouteMatch v : explained (RouteMatch_Validate v).
Proof. unfold RouteMatch_Validate. explain. Qed.
#[local] Hint Resolve explained_RouteMatch : explained.
Lemma explained_RoutingRule v : explained (RoutingRule_Validate v).
Proof. unfold RoutingRule_Validate. explain. Qed.
#[local] Hint Resolve explained_RoutingRule : explained.
Lemma explained_RoutingProfile v : explained (RoutingProfile_Validate v).
Proof. unfold RoutingProfile_Validate. explain. Qed.
Lemma explained_RuleSetEntry v : explained (RuleSetEntry_Validate v).
Proof. unfold RuleSetEntry_Validate. explain. Qed.
#[local] Hint Resolve explained_RoutingProfile explained_RuleSetEntry : explained.
Lemma explained_RuleSetWrite v : explained (RuleSetWrite_Validate v).
Proof. unfold RuleSetWrite_Validate. explain. Qed.
#[local] Hint Resolve explained_RuleSetWrite : explained.
Lemma explained_RuleSet v : explained (RuleSet_Validate v).
Proof. unfold RuleSet_Validate. cbv zeta. explain. Qed.
Lemma explained_ClientPreset v : explained (ClientPreset_Validate v).
Proof. unfold ClientPreset_Validate. cbv zeta. explain. Qed.
Lemma explained_SubscriptionProfile v : explained (SubscriptionProfile_Validate v).
Proof. unfold SubscriptionProfile_Validate. cbv zeta. explain. Qed.
#[local] Hint Resolve explained_RuleSet explained_ClientPreset explained_SubscriptionProfile
  : explained.

Lemma explained_Resource v : explained (Resource_Validate v).
Proof. unfold Resource_Validate. cbv zeta. explain. Qed.

Lemma explained_Target v : explained (Target_Validate v).
Proof. unfold Target_Validate. cbv zeta. explain. Qed.

#[local] Hint Resolve explained_Resource : explained.

Lemma MergePolicyOverride_explained r o err : MergePolicyOverride r o = Err err → err ≠ [].
Proof.
  intros H. apply explained_Some. revert H. unfold MergePolicyOverride.
  repeat case_match; intros [= <-]; cbv zeta in *; explain.
Qed.

End Validate.
