(* ===== verification/ValidateFacts.v ===== *)
(** What the [Validate] methods accept, stated without their traversal, and the values
    they protect. *)
From S2P Require Import Prelude Diagnostics IRTypes Hashes Json IRValidate.

Section Facts.
Context {P : Platform}.

(** ** Policy groups *)

Lemma PolicyGroup_Validate_iff v :
  PolicyGroup_Validate v = None ↔
    validateValue "policy_group" (SV_PolicyGroup v) = None ∧
    PolicyHealthCheck_Validate (pg_HealthCheck v) = None ∧
    NoDup (tr_ResourceID <$> pg_Members v) ∧ pg_DefaultMember v ∈ pg_Members v.
Proof.
  unfold PolicyGroup_Validate. destruct (validateValue _ _); [naive_solver|].
  destruct (PolicyHealthCheck_Validate _); [naive_solver|].
  rewrite finish_None, app_nil, range_dup_nil by done. rewrite if_nil_else, bool_decide_eq_true.
  naive_solver.
Qed.

Definition merged (g : PolicyGroup) (o : PolicyOverride) : PolicyGroup :=
  {| pg_SchemaVersion := pg_SchemaVersion g;
     pg_Strategy := default (pg_Strategy g) (po_Strategy o);
     pg_Members := pg_Members g;
     pg_DefaultMember := default (pg_DefaultMember g) (po_DefaultMember o);
     pg_HealthCheck := default (pg_HealthCheck g) (po_HealthCheck o);
     pg_OnUnavailable := pg_OnUnavailable g |}.

Lemma MergePolicyOverride_Ok base o next :
  MergePolicyOverride base o = Ok next ↔
  ∃ g, r_Payload base = Payload_PolicyGroup g ∧ rid base = po_PolicyGroupID o ∧
    Resource_Validate base = None ∧ PolicyOverride_Validate o = None ∧
    PolicyGroup_Validate (merged g o) = None ∧ next = merged g o.
Proof.
  unfold MergePolicyOverride.
  destruct (Resource_Validate base); [naive_solver|].
  destruct (r_Payload base) as [| | | |g| | | | |]; try naive_solver.
  destruct (String.eqb_spec (rid base) (po_PolicyGroupID o)); simpl; [|naive_solver].
  destruct (PolicyOverride_Validate o); [naive_solver|]. cbv zeta.
  fold (merged g o). destruct (PolicyGroup_Validate (merged g o)) eqn:E; naive_solver.
Qed.

(** ** Client presets *)

(** The preset opens only loopback listeners, on the fixed ports. *)
Definition Loopback (v : ClientPreset) : Prop :=
  ll_Protocol (cp_LocalListener v) = "socks5" ∧
  ll_Listen (cp_LocalListener v) = PresetLoopbackAddress ∧
  ll_Port (cp_LocalListener v) = PresetSOCKSPort ∧
  (ca_Enabled (cp_ControlAPI v) = true →
     (cp_CoreFamily v = SingBox ∧ ca_Port (cp_ControlAPI v) = SingBoxControlPort) ∨
     (cp_CoreFamily v = Mihomo ∧ ca_Port (cp_ControlAPI v) = MihomoControlPort)).

Lemma ClientPreset_Validate_iff v :
  ClientPreset_Validate v = None ↔
    validateValue "client_preset" (SV_ClientPreset v) = None ∧ Loopback v.
Proof.
  unfold ClientPreset_Validate, Loopback. cbv zeta. destruct (validateValue _ _); [naive_solver|].
  destruct (String.eqb_spec (ll_Protocol (cp_LocalListener v)) "socks5"); simpl; [|naive_solver].
  destruct (String.eqb_spec (ll_Listen (cp_LocalListener v)) PresetLoopbackAddress); simpl; [|naive_solver].
  destruct (Z.eqb_spec (ll_Port (cp_LocalListener v)) PresetSOCKSPort); simpl; [|naive_solver].
  destruct (ca_Enabled (cp_ControlAPI v)); simpl; [|naive_solver].
  destruct (String.eqb_spec (cp_CoreFamily v) SingBox) as [E|E].
  { destruct (Z.eqb_spec (ca_Port (cp_ControlAPI v)) SingBoxControlPort);
      rewrite E; split; try done; [auto 10|].
    intros (_ & _ & _ & _ & H). destruct (H eq_refl) as [[_ ?]|[? _]]; done. }
  destruct (String.eqb_spec (cp_CoreFamily v) Mihomo) as [E'|E'].
  { destruct (Z.eqb_spec (ca_Port (cp_ControlAPI v)) MihomoControlPort);
      rewrite E'; split; try done; [auto 10|].
    intros (_ & _ & _ & _ & H). destruct (H eq_refl) as [[? _]|[_ ?]]; done. }
  split; [done|]. intros (_ & _ & _ & _ & H). destruct (H eq_refl) as [[? _]|[? _]]; done.
Qed.

(** ** Rule sets *)

(** Adding an entry twice, or in another place, does not change the content hash. *)
Lemma sorted_set_unique (l1 l2 : list string) :
  (∀ x, x ∈ l1 ↔ x ∈ l2) →
  CompactFunc String.eqb (sort_strings l1) = CompactFunc String.eqb (sort_strings l2).
Proof.
  intros Heq.
  assert (Hc : ∀ l, Sorted string_le (CompactFunc String.eqb (sort_strings l)) ∧
                    NoDup (CompactFunc String.eqb (sort_strings l)) ∧
                    ∀ x, x ∈ CompactFunc String.eqb (sort_strings l) ↔ x ∈ l).
  { intros l. pose proof (sort_strings_sorted l) as Hs.
    assert (Hsorted : Sorted string_le (CompactFunc String.eqb (sort_strings l))).
    { destruct (sort_strings l); [constructor|]. by apply compact_after_sorted; [apply _|]. }
    split_and!; [done| |].
    - pose proof (CompactFunc_no_stutter String.eqb (sort_strings l) String.eqb_refl) as Hn.
      apply Sorted_StronglySorted in Hsorted; [|apply _].
      revert Hsorted Hn. generalize (CompactFunc String.eqb (sort_strings l)). clear.
      intros k Hs. induction Hs as [|x k Hk IH Hx]; intros Hn; [constructor|].
      constructor; [|apply IH; inversion Hn; by try constructor].
      intros Hin. inversion Hn as [| |? y k' Hne]; subst; [by apply elem_of_nil in Hin|].
      inversion Hk as [|? ? _ Hy]; subst. rewrite Forall_forall in Hx, Hy.
      apply elem_of_cons in Hin as [|Hin]; [done|]. apply Hne.
      apply (anti_symm string_le); [apply Hx; set_solver|by apply Hy].
    - intros x. rewrite elem_of_CompactFunc; [apply elem_of_isort|].
      intros a b. by apply String.eqb_eq. }
  destruct (Hc l1) as (S1 & N1 & E1), (Hc l2) as (S2 & N2 & E2).
  apply (Sorted_unique string_le); [done..|]. apply NoDup_Permutation; [done..|].
  intros x. by rewrite E1, E2.
Qed.

Lemma contentHash_set v w :
  rsw_SchemaVersion v = rsw_SchemaVersion w → rsw_Format v = rsw_Format w →
  (∀ e, e ∈ rsw_Entries v ↔ e ∈ rsw_Entries w) → contentHash v = contentHash w.
Proof.
  intros Ev Ef He. unfold contentHash. cbv zeta. rewrite Ev, Ef.
  assert (CompactFunc String.eqb (sort_strings ((Marshal ∘ entry_json) <$> rsw_Entries v)) =
          CompactFunc String.eqb (sort_strings ((Marshal ∘ entry_json) <$> rsw_Entries w))) as ->;
    [|done].
  apply sorted_set_unique. intros x. rewrite !list_elem_of_fmap. by setoid_rewrite He.
Qed.

(** ** DNS profiles *)

Lemma resolver_indices_Some rs k n :
  resolver_indices rs !! k = Some n → ∃ r, rs !! n = Some r ∧ dr_ResolverID r = k.
Proof.
  unfold resolver_indices.
  assert (H : ∀ l (m : gmap string nat),
    foldl (λ m ir, <[dr_ResolverID ir.2 := ir.1]> m) m l !! k = Some n →
    m !! k = Some n ∨ ∃ ir : nat * DNSResolver, ir ∈ l ∧ dr_ResolverID ir.2 = k ∧ ir.1 = n).
  { induction l as [|ir l IH]; intros m; simpl; [by left|].
    intros [[[<- <-]|[_ H]]%lookup_insert_Some|(x & Hx & H)]%IH; [right; exists ir; set_solver|by left|].
    right. exists x. set_solver. }
  intros [Hm|(ir & Hin & <- & <-)]%H; [by rewrite lookup_empty in Hm|].
  apply elem_of_lookup_imap in Hin as (i & r & -> & Hi). by exists r.
Qed.

(** No resolver bootstraps through a resolver. *)
Definition NoResolverBootstrap (rs : list DNSResolver) : Prop :=
  Forall (λ r, dr_Kind r = DNSHTTPS → dr_BootstrapResolverID r ∉ (dr_ResolverID <$> rs)) rs.

Lemma dns_visit_silent fuel rs i s :
  NoResolverBootstrap rs → dv_diagnostics (dns_visit fuel rs i s) = dv_diagnostics s.
Proof.
  intros Hno. destruct fuel as [|fuel]; [done|]. cbn [dns_visit]. cbv zeta.
  destruct (rs !! i) as [r|] eqn:Ei; [|done].
  destruct (resolver_indices rs !! dr_BootstrapResolverID r) as [n|] eqn:En; [|done].
  destruct (String.eqb_spec (dr_Kind r) DNSHTTPS) as [Ek|]; [|done].
  exfalso. unfold NoResolverBootstrap in Hno. rewrite Forall_forall in Hno.
  apply (Hno r); [by eapply list_elem_of_lookup_2|done|].
  apply resolver_indices_Some in En as (r' & Hn & <-).
  by eapply list_elem_of_fmap_2, list_elem_of_lookup_2.
Qed.

Lemma dns_cycles_silent rs : NoResolverBootstrap rs → dns_cycles rs = [].
Proof.
  intros Hno. unfold dns_cycles.
  set (s0 := {| dv_colors := _; dv_stack := []; dv_diagnostics := [] |}).
  change [] with (dv_diagnostics s0) at 1. generalize (seq 0 (length rs)) as l. intros l.
  assert (∀ s, dv_diagnostics (foldl (λ s i, match dv_colors s !! i with
      | Some 0%nat => dns_visit (length rs) rs i s | _ => s end) s l) = dv_diagnostics s) as H;
    [|apply (H s0)].
  induction l as [|i l IH]; intros s; simpl; [done|]. rewrite IH.
  destruct (dv_colors s !! i) as [[|]|]; try done. by apply dns_visit_silent.
Qed.

(** A DNS profile without its traversal. *)
Record DNSProfileOk (v : DNSProfile) : Prop := {
  do_schema : validateValue "dns_profile" (SV_DNSProfile v) = None;
  do_bootstrap : NoDup (br_ResolverID <$> dp_Bootstrap v);
  do_resolvers : NoDup (dr_ResolverID <$> dp_Resolvers v);
  do_disjoint : Forall (λ r, dr_ResolverID r ∉ (br_ResolverID <$> dp_Bootstrap v)) (dp_Resolvers v);
  do_each : Forall (λ r, DNSResolver_Validate r = None) (dp_Resolvers v);
  do_https : Forall (λ r, dr_Kind r = DNSHTTPS →
    dr_BootstrapResolverID r ∈ br_ResolverID <$> dp_Bootstrap v) (dp_Resolvers v);
  do_final : dp_FinalResolver v ∈ dr_ResolverID <$> dp_Resolvers v;
  do_rules : Forall (λ rule, dru_ResolverID rule ∈ dr_ResolverID <$> dp_Resolvers v) (dp_Rules v) }.

Lemma DNSProfileOk_no_cycle v : DNSProfileOk v → NoResolverBootstrap (dp_Resolvers v).
Proof.
  intros [_ _ _ Hd _ Hh _ _]. unfold NoResolverBootstrap. rewrite Forall_forall in *.
  intros r Hr Hk Hin. apply list_elem_of_fmap in Hin as (r' & E & Hr').
  apply (Hd _ Hr'). rewrite <-E. by apply Hh.
Qed.

Lemma seen_or_bootstrap (bootstrap : list string) (rs : list DNSResolver) (issue_of : nat → Diagnostic) :
  range_app (λ i r, if seen_before dr_ResolverID rs i r || bool_decide (dr_ResolverID r ∈ bootstrap)
                    then [issue_of i] else []) rs = [] ↔
  NoDup (dr_ResolverID <$> rs) ∧ Forall (λ r, dr_ResolverID r ∉ bootstrap) rs.
Proof.
  rewrite range_app_nil, no_dup_seen, Forall_lookup. setoid_rewrite if_nil_then.
  setoid_rewrite orb_false_iff. setoid_rewrite bool_decide_eq_false. split.
  - intros H. split; intros i x Hx; by destruct (H i x Hx).
  - intros [H1 H2] i x Hx. split; [by apply H1|by apply (H2 i)].
Qed.

Lemma resolver_checks_nil (bootstrap resolvers : list string) rs :
  range_app (λ i r,
    let path := "/resolvers/" +:+ index_string i in
    match DNSResolver_Validate r with Some err => prefixed err path "" | None => [] end ++
    (if (dr_Kind r =s DNSHTTPS) && negb (bool_decide (dr_BootstrapResolverID r ∈ bootstrap))
     then
       let code := if bool_decide (dr_BootstrapResolverID r ∈ resolvers)
                   then ReferenceKind else ReferenceMissing in
       [issue code (path +:+ "/bootstrap_resolver_id")]
     else [])) rs = [] ↔
  Forall (λ r, DNSResolver_Validate r = None) rs ∧
  Forall (λ r, dr_Kind r = DNSHTTPS → dr_BootstrapResolverID r ∈ bootstrap) rs.
Proof.
  cbv zeta. rewrite range_app_split. apply and_iff_both.
  - apply range_app_nil_elem. intros i r. pose proof (explained_DNSResolver r) as He.
    destruct (DNSResolver_Validate r) as [err|]; [|done]. split; [|done].
    intros H. apply prefixDiagnostics_nil in H. by subst.
  - apply range_app_nil_elem. intros i r. rewrite if_nil_then, andb_false_iff, negb_false_iff,
      bool_decide_eq_true, String.eqb_neq. destruct (decide (dr_Kind r = DNSHTTPS)); naive_solver.
Qed.

Lemma DNSProfile_Validate_iff v : DNSProfile_Validate v = None ↔ DNSProfileOk v.
Proof.
  unfold DNSProfile_Validate. destruct (validateValue _ (SV_DNSProfile v)) eqn:Es.
  { split; [done|]. intros [H _ _ _ _ _ _ _]. congruence. }
  cbv zeta. rewrite finish_None, !app_nil, range_dup_nil by done.
  rewrite (seen_or_bootstrap (br_ResolverID <$> dp_Bootstrap v)), resolver_checks_nil, if_nil_else, bool_decide_eq_true.
  rewrite (range_app_nil_elem _ (λ rule, dru_ResolverID rule ∈ dr_ResolverID <$> dp_Resolvers v)).
  2: { intros i rule. by rewrite if_nil_else, bool_decide_eq_true. }
  split.
  - intros (H1 & (H2 & H3) & (H4 & H5) & _ & H6 & H7). by split.
  - intros H. assert (dns_cycles (dp_Resolvers v) = []) as ->
      by by apply dns_cycles_silent, DNSProfileOk_no_cycle.
    by destruct H.
Qed.
End Facts.
