(* ===== verification/Frozen.v ===== *)
(** Frozen compile inputs ([internal/ir/frozen.go]): the validation of a
    snapshot's dependency closure, its normalization, and its targets. *)
From S2P Require Import Prelude Diagnostics IRTypes IRValidate.

(** ** The target descriptor *)

Definition without_overrides (t : Target) : Target :=
  {| t_Key := t_Key t; t_CoreFamily := t_CoreFamily t; t_CoreBuildID := t_CoreBuildID t;
     t_CoreBuildSHA256 := t_CoreBuildSHA256 t; t_AdapterVersion := t_AdapterVersion t;
     t_ClientPresetID := t_ClientPresetID t;
     t_ClientPresetRevision := t_ClientPresetRevision t; t_Format := t_Format t;
     t_PolicyOverrides := ∅ |}.

(** [Target.Equal]: the descriptor without its overrides, then the overrides key
    by key. *)
Definition Target_Equal (v other : Target) : bool :=
  bool_decide (without_overrides v = without_overrides other) &&
  (size (t_PolicyOverrides v) =? size (t_PolicyOverrides other))%nat &&
  forallb (λ kv, bool_decide (t_PolicyOverrides other !! kv.1 = Some kv.2))
    (map_to_list (t_PolicyOverrides v)).

Section Frozen.
Context {P : Platform}.

(** ** Tables of a snapshot *)

(** [resources[metadata.ResourceID] = resource], in order: the last one wins. *)
Definition resource_table (rs : list Resource) : gmap string Resource :=
  foldl (λ m r, <[rid r := r]> m) ∅ rs.

Definition resources_path (i : nat) : string := "/resources/" +:+ index_string i.
Definition targets_path (i : nat) : string := "/targets/" +:+ index_string i.

(** The first loop: duplicate identifiers, scope, disabled resources. *)
Definition check_resources (v : FrozenInputSpec) : Diagnostics :=
  range_app (λ i r,
    let m := r_Metadata r in
    let path := resources_path i +:+ "/metadata" in
    (if seen_before rid (fs_Resources v) i r
     then [issue_at DuplicateResource (path +:+ "/resource_id") (md_ResourceID m)] else []) ++
    (if md_ScopeID m =s fs_ScopeID v then []
     else [issue_at ScopeMismatch (path +:+ "/scope_id") (md_ResourceID m)]) ++
    (if md_Enabled m then []
     else [issue_at ResourceDisabled (path +:+ "/enabled") (md_ResourceID m)]))
    (fs_Resources v).

(** [builds[target.CoreBuildID]] before the target at position [i]. *)
Definition earlier_build (ts : list Target) (i : nat) (id : ID) : option Target :=
  last (filter (λ t, t_CoreBuildID t = id) (take i ts)).

Definition check_targets (v : FrozenInputSpec) : Diagnostics :=
  range_app (λ i t,
    let path := targets_path i in
    (if seen_before t_Key (fs_Targets v) i t
     then [issue_at DuplicateTarget (path +:+ "/key") ""] else []) ++
    match earlier_build (fs_Targets v) i (t_CoreBuildID t) with
    | Some earlier =>
        (if t_CoreFamily earlier =s t_CoreFamily t then []
         else [issue_at InvalidValue (path +:+ "/core_family") ""]) ++
        (if t_CoreBuildSHA256 earlier =s t_CoreBuildSHA256 t then []
         else [issue_at InvalidValue (path +:+ "/core_build_sha256") ""])
    | None => []
    end) (fs_Targets v).

(** ** Roots: profiles, embedded presets, members *)

(** The pin of one reference against the resource it names. *)
Definition check_pin (ref : FrozenRef) (r : Resource) (path : string) : Diagnostics :=
  let m := r_Metadata r in
  (if fr_Kind ref =s md_Kind m then []
   else [issue_at ReferenceKind (path +:+ "/kind") (fr_ResourceID ref)]) ++
  (if fr_Revision ref =? md_Revision m then []
   else [issue_at ReferenceRevision (path +:+ "/revision") (fr_ResourceID ref)]) ++
  (if fr_SecurityEpoch ref =? md_SecurityEpoch m then []
   else [issue_at ReferenceEpoch (path +:+ "/security_epoch") (fr_ResourceID ref)]).

Definition checkRoot (table : gmap string Resource) (ref : FrozenRef) (path : string)
    : Diagnostics :=
  match table !! fr_ResourceID ref with
  | None => [issue_at ReferenceMissing (path +:+ "/resource_id") (fr_ResourceID ref)]
  | Some r => check_pin ref r path
  end.

Definition root_of_ref (table : gmap string Resource) (ref : FrozenRef) : list ID :=
  match table !! fr_ResourceID ref with Some _ => [fr_ResourceID ref] | None => [] end.

Definition check_profile (table : gmap string Resource) (ref : option FrozenRef)
    (path : string) : Diagnostics :=
  match ref with Some ref => checkRoot table ref path | None => [] end.

(** A target's preset is checked where the snapshot embeds it. *)
Definition check_presets (table : gmap string Resource) (v : FrozenInputSpec) : Diagnostics :=
  range_app (λ i t,
    let id := t_ClientPresetID t in
    let path := targets_path i in
    match table !! id with
    | None => []
    | Some r =>
        if negb (md_Kind (r_Metadata r) =s KindClientPreset)
        then [issue_at ReferenceKind (path +:+ "/client_preset_id") id]
        else
          (if md_Revision (r_Metadata r) =? t_ClientPresetRevision t then []
           else [issue_at ReferenceRevision (path +:+ "/client_preset_revision") id]) ++
          match r_Payload r with
          | Payload_ClientPreset preset =>
              (if cp_CoreFamily preset =s t_CoreFamily t then []
               else [issue_at InvalidValue (path +:+ "/core_family") id]) ++
              (if cp_Format preset =s t_Format t then []
               else [issue_at InvalidValue (path +:+ "/format") id])
          | _ => []
          end
    end) (fs_Targets v).

Definition root_of_target (table : gmap string Resource) (t : Target) : list ID :=
  match table !! t_ClientPresetID t with
  | Some r => if md_Kind (r_Metadata r) =s KindClientPreset then [t_ClientPresetID t] else []
  | None => []
  end.

Definition check_members (table : gmap string Resource) (v : FrozenInputSpec) : Diagnostics :=
  range_app (λ i member,
    let path := "/members/" +:+ index_string i in
    (if seen_before fr_ResourceID (fs_Members v) i member
     then [issue_at DuplicateResource (path +:+ "/resource_id") (fr_ResourceID member)]
     else []) ++ checkRoot table member path) (fs_Members v).

Definition snapshot_roots (table : gmap string Resource) (v : FrozenInputSpec) : list ID :=
  match fs_RoutingProfile v with Some ref => root_of_ref table ref | None => [] end ++
  match fs_DNSProfile v with Some ref => root_of_ref table ref | None => [] end ++
  mjoin (root_of_target table <$> fs_Targets v) ++
  mjoin (root_of_ref table <$> fs_Members v).

(** ** Edges *)

(** One typed reference of a payload: its target, the kind it must have, the
    path below the payload. *)
Record edge := { e_target : ID; e_kind : ResourceKind; e_field : string }.

Definition target_edge (ref : TargetRef) (field : string) : list edge :=
  if tr_Type ref =s ResourceRef
  then [{| e_target := tr_ResourceID ref; e_kind := tr_Kind ref;
           e_field := field +:+ "/resource_id" |}]
  else [].

Definition rule_set_edges (ids : list ID) (prefix : string) : list edge :=
  imap (λ k id, {| e_target := id; e_kind := KindRuleSet;
                   e_field := prefix +:+ "/match/rule_set_ids/" +:+ index_string k |}) ids.

Definition payload_edges (p : ResourcePayload) : list edge :=
  match p with
  | Payload_Chain c =>
      imap (λ i hop, {| e_target := nr_NodeID hop; e_kind := KindNode;
                        e_field := "/hops/" +:+ index_string i +:+ "/node_id" |}) (ch_Hops c)
  | Payload_PolicyGroup g =>
      imap (λ i m, {| e_target := tr_ResourceID m; e_kind := tr_Kind m;
                      e_field := "/members/" +:+ index_string i +:+ "/resource_id" |})
        (pg_Members g)
  | Payload_RoutingProfile r =>
      target_edge (rp_Final r) "/final" ++
      range_app (λ j rule,
        let path := "/rules/" +:+ index_string j in
        target_edge (rr_Action rule) (path +:+ "/action") ++
        rule_set_edges (rm_RuleSetIDs (rr_Match rule)) path) (rp_Rules r)
  | Payload_DNSProfile d =>
      range_app (λ j resolver,
        match dr_Outbound resolver with
        | Some ref => target_edge ref ("/resolvers/" +:+ index_string j +:+ "/outbound")
        | None => []
        end) (dp_Resolvers d) ++
      range_app (λ j rule,
        rule_set_edges (dm_RuleSetIDs (dru_Match rule)) ("/rules/" +:+ index_string j))
        (dp_Rules d)
  | _ => []
  end.

(** [check]: an edge resolves to a resource of the expected kind. *)
Definition edge_ok (table : gmap string Resource) (e : edge) : bool :=
  match table !! e_target e with
  | Some r => md_Kind (r_Metadata r) =s e_kind e
  | None => false
  end.

Definition check_edge (table : gmap string Resource) (i : nat) (source : ID) (e : edge)
    : Diagnostics :=
  let path := resources_path i +:+ "/payload" +:+ e_field e in
  match table !! e_target e with
  | None => [issue_at ReferenceMissing path source]
  | Some r =>
      if md_Kind (r_Metadata r) =s e_kind e then []
      else [issue_at ReferenceKind path source]
  end.

(** The rule sets of a DNS rule hold only domains. *)
Definition dns_domain_only (table : gmap string Resource) (id : ID) : bool :=
  match table !! id with
  | Some r =>
      if md_Kind (r_Metadata r) =s KindRuleSet then
        match r_Payload r with
        | Payload_RuleSet s => forallb (λ e, rse_Kind e =s RuleSetDomain) (rset_Entries s)
        | _ => true
        end
      else true
  | None => true
  end.

Definition check_payload (v : FrozenInputSpec) (table : gmap string Resource) (i : nat)
    (r : Resource) : Diagnostics :=
  let source := rid r in
  match r_Payload r with
  | Payload_RoutingProfile p =>
      range_app (λ _ e, check_edge table i source e) (target_edge (rp_Final p) "/final") ++
      (if (rp_DomainResolutionMode p =s ResolveForIPRules)
          && bool_decide (fs_DNSProfile v = None)
       then [issue_at ReferenceMissing
               (resources_path i +:+ "/payload/domain_resolution_mode") source]
       else []) ++
      range_app (λ j rule,
        let path := "/rules/" +:+ index_string j in
        range_app (λ _ e, check_edge table i source e)
          (target_edge (rr_Action rule) (path +:+ "/action") ++
           rule_set_edges (rm_RuleSetIDs (rr_Match rule)) path)) (rp_Rules p)
  | Payload_DNSProfile d =>
      range_app (λ j resolver,
        match dr_Outbound resolver with
        | Some ref =>
            range_app (λ _ e, check_edge table i source e)
              (target_edge ref ("/resolvers/" +:+ index_string j +:+ "/outbound"))
        | None => []
        end) (dp_Resolvers d) ++
      range_app (λ j rule,
        range_app (λ _ e,
          check_edge table i source e ++
          (if dns_domain_only table (e_target e) then []
           else [issue_at ReferenceKind (resources_path i +:+ "/payload" +:+ e_field e) source]))
          (rule_set_edges (dm_RuleSetIDs (dru_Match rule)) ("/rules/" +:+ index_string j)))
        (dp_Rules d)
  | p => range_app (λ _ e, check_edge table i source e) (payload_edges p)
  end.

(** [edges[id]]: the resolved edges of every resource with that identifier. *)
Definition edges_of (table : gmap string Resource) (rs : list Resource) (id : ID) : list ID :=
  mjoin ((λ r, if rid r =s id
               then e_target <$> filter (λ e, edge_ok table e = true) (payload_edges (r_Payload r))
               else []) <$> rs).

(** ** Reachability *)

(** [for _, id := range edges[queue[i]] { if !reachable[id] { ... } }] *)
Definition visit_edges (acc : gset string * list ID) (targets : list ID)
    : gset string * list ID :=
  foldl (λ acc id, if bool_decide (id ∈ acc.1) then acc
                   else ({[id]} ∪ acc.1, acc.2 ++ [id])) acc targets.

(** The queue loop. [queue] is the part not read yet. *)
Fixpoint walk_queue (fuel : nat) (edges : ID → list ID) (reachable : gset string)
    (queue : list ID) : option (gset string) :=
  match queue with
  | [] => Some reachable
  | id :: rest =>
      match fuel with
      | O => None
      | S fuel' =>
          let '(reachable, queue) := visit_edges (reachable, rest) (edges id) in
          walk_queue fuel' edges reachable queue
      end
  end.

(** Each resource enters the queue at most once beyond the roots. *)
Definition reachable_set (v : FrozenInputSpec) : gset string :=
  let table := resource_table (fs_Resources v) in
  let roots := snapshot_roots table v in
  default ∅ (walk_queue (length roots + size table) (edges_of table (fs_Resources v))
               (list_to_set roots) roots).

(** ** Overrides and unreachable resources *)

Definition check_overrides (table : gmap string Resource) (reachable : gset string)
    (v : FrozenInputSpec) : Diagnostics :=
  range_app (λ i t,
    range_app (λ j id,
      let path := targets_path i +:+ "/policy_overrides/" +:+ index_string j in
      match table !! id with
      | None => [issue_at ReferenceMissing (path +:+ "/policy_group_id") id]
      | Some r =>
          if negb (md_Kind (r_Metadata r) =s KindPolicyGroup)
          then [issue_at ReferenceKind (path +:+ "/policy_group_id") id]
          else if negb (bool_decide (id ∈ reachable))
          then [issue_at UnreachableResource (path +:+ "/policy_group_id") id]
          else
            match t_PolicyOverrides t !! id with
            | None => []
            | Some override =>
                match MergePolicyOverride r override with
                | Ok _ => []
                | Err err => prefixed err path id
                end
            end
      end) (overrideIDs t)) (fs_Targets v).

Definition check_reachable (reachable : gset string) (v : FrozenInputSpec) : Diagnostics :=
  range_app (λ i r,
    if bool_decide (rid r ∈ reachable) then []
    else [issue_at UnreachableResource (resources_path i) (rid r)]) (fs_Resources v).

Definition snapshot_diagnostics (v : FrozenInputSpec) : Diagnostics :=
  let table := resource_table (fs_Resources v) in
  let reachable := reachable_set v in
  check_resources v ++ check_targets v ++
  check_profile table (fs_RoutingProfile v) "/routing_profile" ++
  check_profile table (fs_DNSProfile v) "/dns_profile" ++
  check_presets table v ++ check_members table v ++
  range_app (check_payload v table) (fs_Resources v) ++
  check_overrides table reachable v ++ check_reachable reachable v.

Definition FrozenInputSpec_Validate (v : FrozenInputSpec) : error :=
  if MaxFrozenResources <? Z.of_nat (length (fs_Resources v)) then
    Some [issue InputLimitExceeded "/resources"]
  else
    check? range_err (λ i r,
             match Resource_Validate r with
             | Some err => Some (prefixed err (resources_path i) (rid r))
             | None => None
             end) (fs_Resources v) in
    check? range_err (λ i t,
             match Target_Validate t with
             | Some err => Some (prefixed err (targets_path i) "")
             | None => None
             end) (fs_Targets v) in
    check? validateValue "frozen_input" (SV_FrozenInput v) in
    finish (snapshot_diagnostics v).
(** ** Normalization *)

(** [cloneNode]: a deep copy is the value itself; only the dynamic types are
    checked. *)
Definition cloneNode (source : Node) : result Diagnostics Node :=
  match n_Auth source with
  | Auth_nil => Err [issue InvalidUnion "/auth"]
  | _ =>
      match n_Transport source with
      | Transport_nil => Err [issue InvalidUnion "/transport"]
      | _ =>
          match n_Security source with
          | Security_nil => Err [issue InvalidUnion "/security"]
          | _ => Ok source
          end
      end
  end.

(** The payload switch of [cloneSpec]: a subscription profile is not a compile
    input. *)
Definition clone_payload (i : nat) (r : Resource) : error :=
  let union := Some [issue InvalidUnion (resources_path i +:+ "/payload")] in
  match r_Payload r with
  | Payload_Node n =>
      match cloneNode n with
      | Ok _ => None
      | Err err => Some (prefixed err (resources_path i +:+ "/payload") (rid r))
      end
  | Payload_Chain _ | Payload_PolicyGroup _ | Payload_RoutingProfile _
  | Payload_DNSProfile _ | Payload_RuleSet _ | Payload_ClientPreset _ => None
  | Payload_SubscriptionProfile _ | Payload_typed_nil _ | Payload_nil => union
  end.

Definition cloneSpec (source : FrozenInputSpec) : result Diagnostics FrozenInputSpec :=
  match range_err clone_payload (fs_Resources source) with
  | Some err => Err err
  | None => Ok source
  end.

Definition sort_tags (r : Resource) : Resource :=
  let m := r_Metadata r in
  {| r_Metadata :=
       {| md_ResourceID := md_ResourceID m; md_ScopeID := md_ScopeID m;
          md_Kind := md_Kind m; md_Revision := md_Revision m;
          md_SchemaVersion := md_SchemaVersion m; md_Name := md_Name m;
          md_Tags := sort_strings (md_Tags m); md_Enabled := md_Enabled m;
          md_SecurityEpoch := md_SecurityEpoch m |};
     r_Payload := r_Payload r |}.

Definition normalize_spec (v : FrozenInputSpec) : FrozenInputSpec :=
  {| fs_SchemaVersion := fs_SchemaVersion v; fs_SnapshotID := fs_SnapshotID v;
     fs_ScopeID := fs_ScopeID v; fs_CatalogRevision := fs_CatalogRevision v;
     fs_SecurityEpoch := fs_SecurityEpoch v;
     fs_Resources :=
       sort_tags <$> SortFunc (λ a b, compareString (rid a) (rid b)) (fs_Resources v);
     fs_Members :=
       SortFunc (λ a b, compareString (fr_ResourceID a) (fr_ResourceID b)) (fs_Members v);
     fs_Targets := SortFunc (λ a b, compareString (t_Key a) (t_Key b)) (fs_Targets v);
     fs_RoutingProfile := fs_RoutingProfile v; fs_DNSProfile := fs_DNSProfile v |}.

(** A [FrozenInput] handle; [None] is its zero value. *)
Record FrozenInput := { fi_spec : option FrozenInputSpec }.

Definition NewFrozenInput (spec : FrozenInputSpec) : result Diagnostics FrozenInput :=
  if MaxFrozenResources <? Z.of_nat (length (fs_Resources spec)) then
    Err [issue InputLimitExceeded "/resources"]
  else
    let? copy := cloneSpec spec in
    match FrozenInputSpec_Validate copy with
    | Some err => Err err
    | None => Ok {| fi_spec := Some (normalize_spec copy) |}
    end.

Definition FrozenInput_Validate (v : FrozenInput) : error :=
  match fi_spec v with
  | None => Some [issue InvalidSnapshot ""]
  | Some spec => FrozenInputSpec_Validate spec
  end.

(** [FrozenInput.Spec]: a deep copy, or the empty specification. *)
Definition empty_spec : FrozenInputSpec :=
  {| fs_SchemaVersion := 0; fs_SnapshotID := ""; fs_ScopeID := ""; fs_CatalogRevision := 0;
     fs_SecurityEpoch := 0; fs_Resources := []; fs_Members := []; fs_Targets := [];
     fs_RoutingProfile := None; fs_DNSProfile := None |}.

Definition FrozenInput_Spec (v : FrozenInput) : FrozenInputSpec :=
  match fi_spec v with
  | None => empty_spec
  | Some spec => match cloneSpec spec with Ok copy => copy | Err _ => empty_spec end
  end.

Definition FrozenInput_Target (v : FrozenInput) (key : string) : option Target :=
  match fi_spec v with
  | None => None
  | Some spec => snd <$> list_find (λ t, t_Key t = key) (fs_Targets spec)
  end.

(** * What a valid snapshot is *)

(** A reference pins one resource of the snapshot at its kind, revision and
    security epoch. *)
Definition Pinned (v : FrozenInputSpec) (ref : FrozenRef) : Prop :=
  ∃ r, r ∈ fs_Resources v ∧ rid r = fr_ResourceID ref ∧
    md_Kind (r_Metadata r) = fr_Kind ref ∧
    md_Revision (r_Metadata r) = fr_Revision ref ∧
    md_SecurityEpoch (r_Metadata r) = fr_SecurityEpoch ref.

(** An edge leads to a resource of the snapshot of the right kind. *)
Definition Resolved (v : FrozenInputSpec) (e : edge) : Prop :=
  ∃ r, r ∈ fs_Resources v ∧ rid r = e_target e ∧ md_Kind (r_Metadata r) = e_kind e.

(** Two targets of one core build describe the same build. *)
Definition SameBuild (t u : Target) : Prop :=
  t_CoreBuildID t = t_CoreBuildID u →
  t_CoreFamily t = t_CoreFamily u ∧ t_CoreBuildSHA256 t = t_CoreBuildSHA256 u.

(** A preset embedded in the snapshot agrees with the target that pins it. *)
Definition PresetAgrees (t : Target) (r : Resource) : Prop :=
  rid r = t_ClientPresetID t →
  md_Kind (r_Metadata r) = KindClientPreset ∧
  md_Revision (r_Metadata r) = t_ClientPresetRevision t ∧
  ∀ p, r_Payload r = Payload_ClientPreset p →
    cp_CoreFamily p = t_CoreFamily t ∧ cp_Format p = t_Format t.

(** The declared roots of the snapshot. *)
Definition RootOf (v : FrozenInputSpec) (id : ID) : Prop :=
  (∃ ref, fs_RoutingProfile v = Some ref ∧ fr_ResourceID ref = id) ∨
  (∃ ref, fs_DNSProfile v = Some ref ∧ fr_ResourceID ref = id) ∨
  (∃ ref, ref ∈ fs_Members v ∧ fr_ResourceID ref = id) ∨
  (∃ t, t ∈ fs_Targets v ∧ t_ClientPresetID t = id).

(** Reachability in the dependency graph, from the declared roots. *)
Inductive Reach (v : FrozenInputSpec) : ID → Prop :=
| Reach_root id : RootOf v id → Reach v id
| Reach_edge r e :
    r ∈ fs_Resources v → Reach v (rid r) → e ∈ payload_edges (r_Payload r) →
    Reach v (e_target e).

(** A DNS profile matches domains only. *)
Definition DomainOnly (v : FrozenInputSpec) (d : DNSProfile) : Prop :=
  ∀ rule id r s, rule ∈ dp_Rules d → id ∈ dm_RuleSetIDs (dru_Match rule) →
    r ∈ fs_Resources v → rid r = id → md_Kind (r_Metadata r) = KindRuleSet →
    r_Payload r = Payload_RuleSet s →
    Forall (λ e, rse_Kind e = RuleSetDomain) (rset_Entries s).

Record WellFormed (v : FrozenInputSpec) : Prop := {
  wf_limit : Z.of_nat (length (fs_Resources v)) ≤ MaxFrozenResources;
  wf_resources : Forall (λ r, Resource_Validate r = None) (fs_Resources v);
  wf_targets : Forall (λ t, Target_Validate t = None) (fs_Targets v);
  wf_schema : validateValue "frozen_input" (SV_FrozenInput v) = None;
  wf_ids : NoDup (rid <$> fs_Resources v);
  wf_scope : Forall (λ r, md_ScopeID (r_Metadata r) = fs_ScopeID v) (fs_Resources v);
  wf_enabled : Forall (λ r, md_Enabled (r_Metadata r) = true) (fs_Resources v);
  wf_target_keys : NoDup (t_Key <$> fs_Targets v);
  wf_builds : ∀ t u, t ∈ fs_Targets v → u ∈ fs_Targets v → SameBuild t u;
  wf_routing : ∀ ref, fs_RoutingProfile v = Some ref → Pinned v ref;
  wf_dns : ∀ ref, fs_DNSProfile v = Some ref → Pinned v ref;
  wf_presets : ∀ t r, t ∈ fs_Targets v → r ∈ fs_Resources v → PresetAgrees t r;
  wf_member_ids : NoDup (fr_ResourceID <$> fs_Members v);
  wf_members : Forall (Pinned v) (fs_Members v);
  wf_edges : ∀ r e, r ∈ fs_Resources v → e ∈ payload_edges (r_Payload r) → Resolved v e;
  wf_resolve_mode : ∀ r p, r ∈ fs_Resources v → r_Payload r = Payload_RoutingProfile p →
    rp_DomainResolutionMode p = ResolveForIPRules → is_Some (fs_DNSProfile v);
  wf_domain_only : ∀ r d, r ∈ fs_Resources v → r_Payload r = Payload_DNSProfile d →
    DomainOnly v d;
  wf_overrides : ∀ t id o, t ∈ fs_Targets v → t_PolicyOverrides t !! id = Some o →
    ∃ r, r ∈ fs_Resources v ∧ rid r = id ∧ md_Kind (r_Metadata r) = KindPolicyGroup ∧
      is_ok (MergePolicyOverride r o) = true;
  wf_reachable : Forall (λ r, Reach v (rid r)) (fs_Resources v) }.

End Frozen.
