(* ===== verification/FrozenFacts.v ===== *)
(** Frozen compile inputs, the theorems: the validator accepts exactly the well-formed
    snapshots, and normalization is canonical. Frozen compile inputs: the normal form of
    [NewFrozenInput], and target descriptors. *)
From S2P Require Import Prelude Diagnostics IRTypes IRValidate Frozen.

(** ** Tables *)

Lemma resource_table_snoc rs r :
  resource_table (rs ++ [r]) = <[rid r := r]> (resource_table rs).
Proof. unfold resource_table. by rewrite foldl_app. Qed.

Lemma resource_table_Some rs id r :
  resource_table rs !! id = Some r → r ∈ rs ∧ rid r = id.
Proof.
  induction rs as [|x rs IH] using rev_ind; [done|].
  rewrite resource_table_snoc. intros [[<- <-]|[_ H]]%lookup_insert_Some.
  - set_solver.
  - apply IH in H as [??]. set_solver.
Qed.

Lemma resource_table_is_Some rs r : r ∈ rs → is_Some (resource_table rs !! rid r).
Proof.
  induction rs as [|x rs IH] using rev_ind; [by intros ?%elem_of_nil|].
  rewrite resource_table_snoc, lookup_insert_is_Some. intros [H| ->%list_elem_of_singleton]%elem_of_app.
  - destruct (decide (rid x = rid r)); [by left|by right; auto].
  - by left.
Qed.

Lemma resource_table_lookup rs r :
  NoDup (rid <$> rs) → r ∈ rs → resource_table rs !! rid r = Some r.
Proof.
  intros Hnd Hr. destruct (resource_table_is_Some _ _ Hr) as [r' Hr'].
  rewrite Hr'. apply resource_table_Some in Hr' as [Hr' E].
  f_equal. by apply (NoDup_key_inj rid rs).
Qed.

Lemma resource_table_iff rs id r :
  NoDup (rid <$> rs) → resource_table rs !! id = Some r ↔ r ∈ rs ∧ rid r = id.
Proof.
  intros Hnd. split; [apply resource_table_Some|].
  intros [Hr <-]. by apply resource_table_lookup.
Qed.

(** ** The queue loop *)

Lemma visit_edges_reach reach q ts :
  (visit_edges (reach, q) ts).1 = list_to_set ts ∪ reach.
Proof.
  unfold visit_edges. revert reach q. induction ts as [|t ts IH]; intros reach q; simpl; [set_solver|].
  case_bool_decide; rewrite IH; set_solver.
Qed.

Lemma visit_edges_queue reach q ts :
  ∃ new, (visit_edges (reach, q) ts).2 = q ++ new ∧
    (∀ x, x ∈ new ↔ x ∈ ts ∧ x ∉ reach) ∧
    size (visit_edges (reach, q) ts).1 = (size reach + length new)%nat.
Proof.
  unfold visit_edges. revert reach q. induction ts as [|t ts IH]; intros reach q; simpl.
  { exists []. rewrite app_nil_r. split_and!; [done|set_solver|simpl; lia]. }
  case_bool_decide as Ht; simpl in *.
  - destruct (IH reach q) as (new & H1 & H2 & H3). exists new. split_and!; [done|set_solver|done].
  - destruct (IH ({[t]} ∪ reach) (q ++ [t])) as (new & H1 & H2 & H3).
    exists (t :: new). split_and!.
    + by rewrite H1, <-app_assoc.
    + intros x. rewrite elem_of_cons, H2. destruct (decide (x = t)); set_solver.
    + rewrite H3, size_union by set_solver. rewrite size_singleton. simpl. lia.
Qed.

Section Walk.
Context (edges : ID → list ID).

Lemma walk_queue_closed fuel reach q R :
  (∀ x, x ∈ reach → x ∈ q ∨ ∀ y, y ∈ edges x → y ∈ reach) →
  walk_queue fuel edges reach q = Some R →
  reach ⊆ R ∧ ∀ x y, x ∈ R → y ∈ edges x → y ∈ R.
Proof.
  revert reach q. induction fuel as [|fuel IH]; intros reach [|id q] Hinv; simpl; try done.
  1, 2: intros [= <-]; split; [done|]; intros x y Hx Hy;
    destruct (Hinv x Hx) as [?%elem_of_nil|Hc]; [done|by apply Hc].
  destruct (visit_edges (reach, q) (edges id)) as [reach' q'] eqn:E.
  pose proof (visit_edges_reach reach q (edges id)) as H1.
  destruct (visit_edges_queue reach q (edges id)) as (new & H2 & H3 & _).
  rewrite E in *. simpl in *. subst reach' q'. intros HR.
  apply IH in HR as [Hsub Hcl]; [split; [set_solver|done]|].
  intros x Hx. destruct (decide (x ∈ reach)) as [Hxr|Hxr]; [|left; set_solver].
  destruct (decide (x = id)) as [->|Hne]; [right; set_solver|].
  destruct (Hinv x Hxr) as [Hq|Hc]; [left; set_solver|right; set_solver].
Qed.

(** Enough fuel: what is queued, and every element of the universe that is
    not reached yet. *)
Lemma walk_queue_total (U : gset string) fuel reach q :
  (∀ x y, y ∈ edges x → y ∈ U) → reach ⊆ U →
  (length q + (size U - size reach) ≤ fuel)%nat →
  is_Some (walk_queue fuel edges reach q).
Proof.
  intros HU. revert reach q. induction fuel as [|fuel IH]; intros reach [|id q] Hsub Hf;
    simpl in *; try done; [lia|].
  destruct (visit_edges (reach, q) (edges id)) as [reach' q'] eqn:E.
  pose proof (visit_edges_reach reach q (edges id)) as H1.
  destruct (visit_edges_queue reach q (edges id)) as (new & H2 & H3 & H4).
  rewrite E in *. simpl in *. assert (reach' ⊆ U) as HsubU by (subst reach'; set_solver).
  apply IH; [done|]. pose proof (subseteq_size _ _ HsubU).
  subst q'. rewrite length_app. lia.
Qed.

Context (Reached : ID → Prop).
Hypothesis Reached_edge : ∀ x y, Reached x → y ∈ edges x → Reached y.

Lemma walk_queue_sound fuel reach q R :
  (∀ x, x ∈ reach → Reached x) → (∀ x, x ∈ q → Reached x) →
  walk_queue fuel edges reach q = Some R → ∀ x, x ∈ R → Reached x.
Proof.
  revert reach q. induction fuel as [|fuel IH]; intros reach [|id q] Hr Hq; simpl;
    try (intros [= <-]; done).
  destruct (visit_edges (reach, q) (edges id)) as [reach' q'] eqn:E.
  pose proof (visit_edges_reach reach q (edges id)) as H1.
  destruct (visit_edges_queue reach q (edges id)) as (new & H2 & H3 & _).
  rewrite E in *. simpl in *. subst reach' q'. apply IH.
  - set_solver.
  - set_solver.
Qed.
End Walk.

Section Wf.
Context {P : Platform}.

(** ** Each loop reports nothing exactly when its condition holds *)

Lemma check_resources_nil v :
  check_resources v = [] ↔
  NoDup (rid <$> fs_Resources v) ∧
  Forall (λ r, md_ScopeID (r_Metadata r) = fs_ScopeID v) (fs_Resources v) ∧
  Forall (λ r, md_Enabled (r_Metadata r) = true) (fs_Resources v).
Proof.
  unfold check_resources. cbv zeta. rewrite !range_app_split. apply and_iff_both.
  - apply (range_dup_nil rid); done.
  - apply and_iff_both; apply range_app_nil_elem; intros i r.
    + rewrite if_nil_else. apply String.eqb_eq.
    + by rewrite if_nil_else.
Qed.

Lemma earlier_build_elem ts i id e :
  earlier_build ts i id = Some e → e ∈ ts ∧ t_CoreBuildID e = id.
Proof.
  intros H%last_Some_elem_of. apply list_elem_of_filter in H as [H1 H2].
  split; [|done]. by apply elem_of_take in H2 as (?&?%list_elem_of_lookup_2&?).
Qed.

Lemma earlier_build_snoc ts t i id :
  (i ≤ length ts)%nat → earlier_build (ts ++ [t]) i id = earlier_build ts i id.
Proof. intros. unfold earlier_build. by rewrite take_app_le. Qed.

Definition same_build_at (ts : list Target) : Prop :=
  ∀ i t e, ts !! i = Some t → earlier_build ts i (t_CoreBuildID t) = Some e →
    t_CoreFamily e = t_CoreFamily t ∧ t_CoreBuildSHA256 e = t_CoreBuildSHA256 t.

Lemma same_build_at_iff ts :
  same_build_at ts ↔ ∀ t u, t ∈ ts → u ∈ ts → SameBuild t u.
Proof.
  split.
  2: { intros H i t e Hi He. apply earlier_build_elem in He as [He E].
       apply H; [done|by eapply list_elem_of_lookup_2|done]. }
  induction ts as [|x ts IH] using rev_ind; [intros _ ?? []%elem_of_nil|]. intros H.
  assert (Hpre : ∀ t u, t ∈ ts → u ∈ ts → SameBuild t u).
  { apply IH. intros i t e Hi He. pose proof (lookup_lt_Some _ _ _ Hi).
    apply (H i t e); [by apply lookup_app_l_Some|].
    rewrite earlier_build_snoc; [done|lia]. }
  assert (Hlast : ∀ u, u ∈ ts → t_CoreBuildID u = t_CoreBuildID x →
            t_CoreFamily u = t_CoreFamily x ∧ t_CoreBuildSHA256 u = t_CoreBuildSHA256 x).
  { intros u Hu Eu.
    destruct (earlier_build ts (length ts) (t_CoreBuildID x)) as [e|] eqn:He.
    - destruct (H (length ts) x e) as [H1 H2];
        [by rewrite lookup_app_r, Nat.sub_diag by lia|by rewrite earlier_build_snoc|].
      pose proof (earlier_build_elem _ _ _ _ He) as [He1 He2].
      destruct (Hpre u e Hu He1) as [H3 H4]; [congruence|]. split; congruence.
    - unfold earlier_build in He. rewrite firstn_all in He.
      apply last_None in He. assert (u ∈ filter (λ t, t_CoreBuildID t = t_CoreBuildID x) ts) as Hf
        by (by apply list_elem_of_filter). rewrite He in Hf. by inversion Hf. }
  intros t u [Ht| ->%list_elem_of_singleton]%elem_of_app
             [Hu| ->%list_elem_of_singleton]%elem_of_app E.
  - by apply Hpre.
  - by apply Hlast.
  - destruct (Hlast u Hu) as [-> ->]; done.
  - done.
Qed.

Lemma check_targets_nil v :
  check_targets v = [] ↔
  NoDup (t_Key <$> fs_Targets v) ∧
  ∀ t u, t ∈ fs_Targets v → u ∈ fs_Targets v → SameBuild t u.
Proof.
  unfold check_targets. cbv zeta. rewrite range_app_split. apply and_iff_both.
  - apply (range_dup_nil t_Key); done.
  - rewrite <-same_build_at_iff, range_app_nil. unfold same_build_at.
    split; intros H i t.
    + intros e Hi He. specialize (H i t Hi). rewrite He in H.
      rewrite app_nil, !if_nil_else, !String.eqb_eq in H. done.
    + intros Hi. destruct (earlier_build _ _ _) as [e|] eqn:He; [|done].
      rewrite app_nil, !if_nil_else, !String.eqb_eq. eauto.
Qed.

Lemma check_pin_nil ref r path :
  check_pin ref r path = [] ↔
  md_Kind (r_Metadata r) = fr_Kind ref ∧ md_Revision (r_Metadata r) = fr_Revision ref ∧
  md_SecurityEpoch (r_Metadata r) = fr_SecurityEpoch ref.
Proof.
  unfold check_pin. cbv zeta. rewrite !app_nil, !if_nil_else, String.eqb_eq, !Z.eqb_eq. naive_solver.
Qed.

Section Table.
Context (v : FrozenInputSpec).
Hypothesis Hids : NoDup (rid <$> fs_Resources v).
Abbreviation table := (resource_table (fs_Resources v)).

Lemma checkRoot_nil ref path : checkRoot table ref path = [] ↔ Pinned v ref.
Proof.
  unfold checkRoot, Pinned. destruct (table !! fr_ResourceID ref) as [r|] eqn:E.
  - apply resource_table_iff in E as [Hr E]; [|done]. rewrite check_pin_nil.
    split; [naive_solver|]. intros (r' & Hr' & E' & H).
    by rewrite (NoDup_key_inj rid _ r r' Hids Hr Hr') by congruence.
  - split; [done|]. intros (r & Hr & E' & _).
    destruct (resource_table_is_Some _ _ Hr). congruence.
Qed.

Lemma check_profile_nil ref path :
  check_profile table ref path = [] ↔ ∀ r, ref = Some r → Pinned v r.
Proof.
  destruct ref as [ref|]; simpl; [rewrite checkRoot_nil|]; naive_solver.
Qed.

Lemma check_members_nil :
  check_members table v = [] ↔
  NoDup (fr_ResourceID <$> fs_Members v) ∧ Forall (Pinned v) (fs_Members v).
Proof.
  unfold check_members. cbv zeta. rewrite range_app_split. apply and_iff_both.
  - apply (range_dup_nil fr_ResourceID); done.
  - apply range_app_nil_elem. intros i m. apply checkRoot_nil.
Qed.

Lemma check_presets_nil :
  check_presets table v = [] ↔
  ∀ t r, t ∈ fs_Targets v → r ∈ fs_Resources v → PresetAgrees t r.
Proof.
  unfold check_presets. cbv zeta.
  trans (Forall (λ t, ∀ r, r ∈ fs_Resources v → PresetAgrees t r) (fs_Targets v));
    [|rewrite Forall_forall; naive_solver].
  apply range_app_nil_elem. intros i t.
  destruct (table !! t_ClientPresetID t) as [r|] eqn:E.
  - apply resource_table_iff in E as [Hr E]; [|done].
    assert (Hr' : (∀ r, r ∈ fs_Resources v → PresetAgrees t r) ↔ PresetAgrees t r).
    { split; [auto|]. intros H r' Hr' E'.
      assert (r' = r) as -> by (apply (NoDup_key_inj rid _ r' r Hids); congruence). auto. }
    rewrite Hr'. unfold PresetAgrees. destruct (String.eqb_spec (md_Kind (r_Metadata r)) KindClientPreset);
      simpl; [|naive_solver].
    rewrite app_nil, if_nil_else, Z.eqb_eq.
    destruct (r_Payload r); try naive_solver.
    rewrite app_nil, !if_nil_else, !String.eqb_eq. naive_solver.
  - split; [|done]. intros _ r Hr E'. destruct (resource_table_is_Some _ _ Hr). congruence.
Qed.

Lemma edge_ok_iff e : edge_ok table e = true ↔ Resolved v e.
Proof.
  unfold edge_ok, Resolved. destruct (table !! e_target e) as [r|] eqn:E.
  - apply resource_table_iff in E as [Hr E]; [|done]. rewrite String.eqb_eq.
    split; [naive_solver|]. intros (r' & Hr' & E' & H).
    by rewrite (NoDup_key_inj rid _ r r' Hids Hr Hr') by congruence.
  - split; [done|]. intros (r & Hr & E' & _).
    destruct (resource_table_is_Some _ _ Hr). congruence.
Qed.

Lemma check_edge_nil i source e : check_edge table i source e = [] ↔ Resolved v e.
Proof.
  rewrite <-edge_ok_iff. unfold check_edge, edge_ok. cbv zeta.
  destruct (table !! e_target e); [by rewrite if_nil_else|done].
Qed.

Lemma check_edges_nil i source es :
  range_app (λ _ e, check_edge table i source e) es = [] ↔ Forall (Resolved v) es.
Proof. apply range_app_nil_elem. intros _ e. apply check_edge_nil. Qed.

Lemma dns_domain_only_iff id :
  dns_domain_only table id = true ↔
  ∀ r s, r ∈ fs_Resources v → rid r = id → md_Kind (r_Metadata r) = KindRuleSet →
    r_Payload r = Payload_RuleSet s →
    Forall (λ e, rse_Kind e = RuleSetDomain) (rset_Entries s).
Proof.
  unfold dns_domain_only. destruct (table !! id) as [r|] eqn:E.
  - apply resource_table_iff in E as [Hr E]; [|done].
    assert (Hu : ∀ r', r' ∈ fs_Resources v → rid r' = id → r' = r)
      by (intros; apply (NoDup_key_inj rid _ r' r Hids); congruence).
    destruct (String.eqb_spec (md_Kind (r_Metadata r)) KindRuleSet) as [Ek|Ek].
    2: { split; [|done]. intros _ r' s Hr' E' Ek' Ep. by rewrite (Hu _ Hr' E') in Ek'. }
    destruct (r_Payload r) eqn:Ep;
      try (split; [|done]; intros _ r' s' Hr' E' Ek' Ep'; rewrite (Hu _ Hr' E') in Ep'; congruence).
    rewrite (Forall_forallb_iff _ (λ e, rse_Kind e = RuleSetDomain))
      by (intros; apply String.eqb_eq).
    split; [|by eauto]. intros Hd r' s' Hr' E' Ek' Ep'. rewrite (Hu _ Hr' E') in Ep'. congruence.
  - split; [|done]. intros _ r s Hr E'. destruct (resource_table_is_Some _ _ Hr). congruence.
Qed.

(** What [check_payload] establishes for one resource. *)
Definition payload_closed (r : Resource) : Prop :=
  (∀ e, e ∈ payload_edges (r_Payload r) → Resolved v e) ∧
  (∀ p, r_Payload r = Payload_RoutingProfile p →
     rp_DomainResolutionMode p = ResolveForIPRules → is_Some (fs_DNSProfile v)) ∧
  (∀ d, r_Payload r = Payload_DNSProfile d → DomainOnly v d).

Lemma range_app_edges_nil {A} (f : nat → A → list edge) i source l :
  range_app (λ j x, range_app (λ _ e, check_edge table i source e) (f j x)) l = [] ↔
  ∀ e, e ∈ range_app f l → Resolved v e.
Proof.
  rewrite range_app_nil. setoid_rewrite check_edges_nil. setoid_rewrite Forall_forall.
  split.
  - intros H e (j & x & Hx & He)%elem_of_range_app. by eapply H.
  - intros H j x Hx e He. apply H, elem_of_range_app. eauto.
Qed.

Lemma rule_set_edges_targets ids prefix id :
  (∃ e, e ∈ rule_set_edges ids prefix ∧ e_target e = id) ↔ id ∈ ids.
Proof.
  unfold rule_set_edges. setoid_rewrite elem_of_lookup_imap.
  rewrite list_elem_of_lookup. split.
  - intros (e & (k & x & -> & Hk) & <-). by exists k.
  - intros [k Hk]. eexists. split; [by exists k, id|done].
Qed.

Lemma dns_rules_nil i source (d : DNSProfile) :
  range_app (λ j rule,
    range_app (λ _ e,
      check_edge table i source e ++
      (if dns_domain_only table (e_target e) then []
       else [issue_at ReferenceKind (resources_path i +:+ "/payload" +:+ e_field e) source]))
      (rule_set_edges (dm_RuleSetIDs (dru_Match rule)) ("/rules/" +:+ index_string j)))
    (dp_Rules d) = [] ↔
  (∀ e, e ∈ range_app (λ j rule, rule_set_edges (dm_RuleSetIDs (dru_Match rule))
                                   ("/rules/" +:+ index_string j)) (dp_Rules d) →
     Resolved v e) ∧ DomainOnly v d.
Proof.
  rewrite <-(range_app_edges_nil (λ j rule, rule_set_edges (dm_RuleSetIDs (dru_Match rule))
                                   ("/rules/" +:+ index_string j)) i source).
  rewrite !range_app_nil. setoid_rewrite range_app_split.
  assert (Hd : DomainOnly v d ↔ ∀ j rule, dp_Rules d !! j = Some rule →
    range_app (λ (_ : nat) e, if dns_domain_only table (e_target e) then []
      else [issue_at ReferenceKind (resources_path i +:+ "/payload" +:+ e_field e) source])
      (rule_set_edges (dm_RuleSetIDs (dru_Match rule)) ("/rules/" +:+ index_string j)) = []).
  { setoid_rewrite (λ l, range_app_nil_elem _ (λ e, dns_domain_only table (e_target e) = true) l
                           (λ _ _, if_nil_else _ _)).
    setoid_rewrite Forall_forall. unfold DomainOnly. split.
    - intros H j rule Hj e He. apply dns_domain_only_iff. intros r s Hr E Ek Ep.
      eapply H; eauto using list_elem_of_lookup_2.
      apply (rule_set_edges_targets _ ("/rules/" +:+ index_string j)). eauto.
    - intros H rule id r s [j Hj]%list_elem_of_lookup Hid.
      apply (rule_set_edges_targets _ ("/rules/" +:+ index_string j)) in Hid as (e & He & <-).
      specialize (H j rule Hj e He). rewrite dns_domain_only_iff in H. eauto. }
  rewrite Hd. naive_solver.
Qed.

Lemma check_payload_nil i r : check_payload v table i r = [] ↔ payload_closed r.
Proof.
  unfold check_payload, payload_closed. cbv zeta.
  destruct (r_Payload r) as [| | | | |p|d| | |] eqn:Ep;
    try (rewrite check_edges_nil, Forall_forall; naive_solver).
  - simpl. rewrite !app_nil, check_edges_nil, if_nil_then, andb_false_iff,
      bool_decide_eq_false, String.eqb_neq.
    rewrite (range_app_edges_nil (λ j rule,
      target_edge (rr_Action rule) (("/rules/" +:+ index_string j) +:+ "/action") ++
      rule_set_edges (rm_RuleSetIDs (rr_Match rule)) ("/rules/" +:+ index_string j))).
    rewrite <-!Forall_forall, Forall_app.
    setoid_rewrite <-not_eq_None_Some. destruct (decide (fs_DNSProfile v = None)); naive_solver.
  - simpl. rewrite app_nil, dns_rules_nil.
    assert (Ho : range_app (λ j resolver,
        match dr_Outbound resolver with
        | Some ref => range_app (λ _ e, check_edge table i (rid r) e)
            (target_edge ref ("/resolvers/" +:+ index_string j +:+ "/outbound"))
        | None => [] end) (dp_Resolvers d) = [] ↔
      ∀ e, e ∈ range_app (λ j resolver,
        match dr_Outbound resolver with
        | Some ref => target_edge ref ("/resolvers/" +:+ index_string j +:+ "/outbound")
        | None => [] end) (dp_Resolvers d) → Resolved v e).
    { rewrite <-(range_app_edges_nil _ i (rid r)), !range_app_nil.
      split; intros H j x Hx; specialize (H j x Hx); destruct (dr_Outbound x); done. }
    rewrite Ho, <-!Forall_forall, Forall_app. naive_solver.
Qed.

Lemma check_payloads_nil :
  range_app (check_payload v table) (fs_Resources v) = [] ↔
  Forall payload_closed (fs_Resources v).
Proof. apply range_app_nil_elem. intros. apply check_payload_nil. Qed.

(** ** The queue loop computes reachability *)

Lemma elem_of_edges_of id y :
  y ∈ edges_of table (fs_Resources v) id ↔
  ∃ r e, r ∈ fs_Resources v ∧ rid r = id ∧ e ∈ payload_edges (r_Payload r) ∧
    edge_ok table e = true ∧ e_target e = y.
Proof.
  unfold edges_of. rewrite list_elem_of_join. setoid_rewrite list_elem_of_fmap. split.
  - intros (l & Hy & r & -> & Hr). destruct (String.eqb_spec (rid r) id); [|by apply elem_of_nil in Hy].
    apply list_elem_of_fmap in Hy as (e' & -> & [??]%list_elem_of_filter). naive_solver.
  - intros (r & e & Hr & E & He & Hok & <-). eexists. split; [|by exists r].
    apply String.eqb_eq in E. rewrite E. apply list_elem_of_fmap.
    exists e. split; [done|]. by apply list_elem_of_filter.
Qed.

Lemma root_of_ref_spec ref id :
  id ∈ root_of_ref table ref ↔ id = fr_ResourceID ref ∧ is_Some (table !! id).
Proof.
  unfold root_of_ref. destruct (table !! fr_ResourceID ref) eqn:E.
  - rewrite list_elem_of_singleton. split; [intros ->; by rewrite E|naive_solver].
  - rewrite elem_of_nil. split; [done|]. intros [-> [? ?]]. congruence.
Qed.

Lemma root_of_target_spec t id :
  id ∈ root_of_target table t ↔
  id = t_ClientPresetID t ∧ ∃ r, table !! id = Some r ∧ md_Kind (r_Metadata r) = KindClientPreset.
Proof.
  unfold root_of_target. destruct (table !! t_ClientPresetID t) as [r|] eqn:E.
  - destruct (String.eqb_spec (md_Kind (r_Metadata r)) KindClientPreset).
    + rewrite list_elem_of_singleton. naive_solver.
    + rewrite elem_of_nil. naive_solver.
  - rewrite elem_of_nil. naive_solver.
Qed.

Lemma elem_of_snapshot_roots id :
  id ∈ snapshot_roots table v ↔
  (∃ ref, (fs_RoutingProfile v = Some ref ∨ fs_DNSProfile v = Some ref ∨ ref ∈ fs_Members v) ∧
     id ∈ root_of_ref table ref) ∨
  (∃ t, t ∈ fs_Targets v ∧ id ∈ root_of_target table t).
Proof.
  unfold snapshot_roots.
  rewrite !elem_of_app, !elem_of_join_fmap, !elem_of_option_list. split.
  - intros [H|[H|[H|H]]]; [left|left|by right|left]; destruct H as (ref & H & Hr); eauto.
  - intros [(ref & [H|[H|H]] & Hr)|H]; [left|right; left|right; right; right|right; right; left];
      eauto.
Qed.

Abbreviation roots := (snapshot_roots table v).
Abbreviation edges := (edges_of table (fs_Resources v)).

Lemma reachable_walk :
  walk_queue (length roots + size table) edges (list_to_set roots) roots =
    Some (reachable_set v).
Proof.
  assert (is_Some (walk_queue (length roots + size table) edges (list_to_set roots) roots))
    as [R HR].
  - apply walk_queue_total with (U := (dom table : gset string)).
    + intros x y (r & e & _ & _ & _ & Hok & <-)%elem_of_edges_of.
      apply elem_of_dom. unfold edge_ok in Hok. by destruct (table !! e_target e).
    + intros id Hid%elem_of_list_to_set. apply elem_of_dom.
      apply elem_of_snapshot_roots in Hid as [(ref & _ & Hid)|(t & _ & Hid)].
      * by apply root_of_ref_spec in Hid as [_ ?].
      * apply root_of_target_spec in Hid as (_ & r & -> & _). eauto.
    + rewrite size_dom. lia.
  - unfold reachable_set. cbv zeta. by rewrite HR.
Qed.

Lemma reachable_sound id : id ∈ reachable_set v → Reach v id.
Proof.
  assert (Hroots : ∀ x, x ∈ roots → Reach v x).
  { intros x Hx. apply Reach_root. unfold RootOf.
    apply elem_of_snapshot_roots in Hx as [(ref & Href & Hx)|(t & Ht & Hx)].
    - apply root_of_ref_spec in Hx as [-> _]. naive_solver.
    - apply root_of_target_spec in Hx as [-> _]. naive_solver. }
  refine (walk_queue_sound edges (Reach v) _ _ _ _ _ _ Hroots reachable_walk id).
  - intros x y Hx (r & e & Hr & <- & He & _ & <-)%elem_of_edges_of. by eapply Reach_edge.
  - intros x Hx%elem_of_list_to_set. auto.
Qed.

Lemma reachable_complete id r :
  (∀ ref, fs_RoutingProfile v = Some ref → Pinned v ref) →
  (∀ ref, fs_DNSProfile v = Some ref → Pinned v ref) →
  (∀ t r, t ∈ fs_Targets v → r ∈ fs_Resources v → PresetAgrees t r) →
  (∀ r e, r ∈ fs_Resources v → e ∈ payload_edges (r_Payload r) → Resolved v e) →
  Reach v id → r ∈ fs_Resources v → rid r = id → id ∈ reachable_set v.
Proof.
  intros Hrt Hdns Hpre Hedge Hreach Hr E.
  assert (Hq : ∀ x, x ∈ (list_to_set roots : gset string) →
            x ∈ roots ∨ ∀ y, y ∈ edges x → y ∈ (list_to_set roots : gset string)) by set_solver.
  destruct (walk_queue_closed edges _ _ _ _ Hq reachable_walk) as [Hsub Hcl].
  assert (Hroot : ∀ x, x ∈ roots → x ∈ reachable_set v) by set_solver.
  revert r Hr E. induction Hreach as [id Hroot'|r' e Hr' Hreach IH He]; intros r Hr E.
  - apply Hroot, elem_of_snapshot_roots.
    assert (Hsome : table !! id = Some r) by (apply resource_table_iff; auto).
    destruct Hroot' as [(ref & H & <-)|[(ref & H & <-)|[(ref & H & <-)|(t & Ht & <-)]]].
    1-3: left; exists ref; split; [auto|]; apply root_of_ref_spec; eauto.
    right. exists t. split; [done|]. apply root_of_target_spec. split; [done|].
    exists r. split; [done|]. by apply (Hpre t r).
  - apply (Hcl (rid r')); [exact (IH r' Hr' eq_refl)|]. apply elem_of_edges_of. exists r', e.
    split_and!; [done..| |done]. apply edge_ok_iff. by apply (Hedge r').
Qed.

Lemma elem_of_overrideIDs t id :
  id ∈ overrideIDs t ↔ is_Some (t_PolicyOverrides t !! id).
Proof.
  unfold overrideIDs, sort_strings. rewrite elem_of_isort, list_elem_of_fmap. split.
  - intros ([k o] & -> & H%elem_of_map_to_list). eauto.
  - intros [o H]. exists (id, o). split; [done|]. by apply elem_of_map_to_list.
Qed.

Lemma check_overrides_nil reachable :
  (∀ r, r ∈ fs_Resources v → rid r ∈ reachable) →
  check_overrides table reachable v = [] ↔
  ∀ t id o, t ∈ fs_Targets v → t_PolicyOverrides t !! id = Some o →
    ∃ r, r ∈ fs_Resources v ∧ rid r = id ∧ md_Kind (r_Metadata r) = KindPolicyGroup ∧
      is_ok (MergePolicyOverride r o) = true.
Proof.
  intros Hall. unfold check_overrides. cbv zeta.
  trans (Forall (λ t, Forall (λ id, ∀ o, t_PolicyOverrides t !! id = Some o →
    ∃ r, r ∈ fs_Resources v ∧ rid r = id ∧ md_Kind (r_Metadata r) = KindPolicyGroup ∧
      is_ok (MergePolicyOverride r o) = true) (overrideIDs t)) (fs_Targets v)).
  2: { rewrite Forall_forall. setoid_rewrite Forall_forall. setoid_rewrite elem_of_overrideIDs.
       unfold is_Some. naive_solver. }
  apply range_app_nil_elem. intros i t. rewrite range_app_nil, Forall_lookup.
  apply forall_proper. intros j. apply forall_proper. intros id.
  split; intros H Hj; specialize (H Hj);
    apply list_elem_of_lookup_2, elem_of_overrideIDs in Hj as [o Ho]; rewrite Ho in *.
  - intros o' [= <-]. destruct (table !! id) as [r|] eqn:E; [|done].
    apply resource_table_iff in E as [Hr <-]; [|done]. exists r.
    destruct (String.eqb_spec (md_Kind (r_Metadata r)) KindPolicyGroup); [|done]. simpl in H.
    rewrite bool_decide_true in H by auto. simpl in H.
    destruct (MergePolicyOverride r o) eqn:Em; [done|].
    apply prefixDiagnostics_nil in H. by apply MergePolicyOverride_explained in Em.
  - destruct (H o eq_refl) as (r & Hr & <- & Hk & Hok).
    rewrite (resource_table_lookup _ _ Hids Hr), Hk. simpl.
    rewrite bool_decide_true by auto. simpl. by destruct (MergePolicyOverride r o).
Qed.

Lemma check_reachable_nil reachable :
  check_reachable reachable v = [] ↔ Forall (λ r, rid r ∈ reachable) (fs_Resources v).
Proof.
  apply range_app_nil_elem. intros i r. by rewrite if_nil_else, bool_decide_eq_true.
Qed.

End Table.

(** ** The validator decides well-formedness *)

Lemma snapshot_diagnostics_nil v :
  Z.of_nat (length (fs_Resources v)) ≤ MaxFrozenResources →
  Forall (λ r, Resource_Validate r = None) (fs_Resources v) →
  Forall (λ t, Target_Validate t = None) (fs_Targets v) →
  validateValue "frozen_input" (SV_FrozenInput v) = None →
  snapshot_diagnostics v = [] ↔ WellFormed v.
Proof.
  intros Hl Hr Ht Hs. unfold snapshot_diagnostics. cbv zeta. rewrite !app_nil.
  rewrite check_resources_nil, check_targets_nil. split.
  - intros ([Hids [Hsc Hen]] & [Hk Hb] & H3 & H4 & H5 & H6 & H7 & H8 & H9).
    rewrite check_profile_nil in H3 by done. rewrite check_profile_nil in H4 by done.
    rewrite check_presets_nil in H5 by done. apply check_members_nil in H6 as [Hm1 Hm2]; [|done].
    apply check_payloads_nil in H7; [|done].
    rewrite Forall_forall in H7. apply check_reachable_nil in H9.
    rewrite check_overrides_nil in H8; [|done|by apply Forall_forall].
    split; try done.
    + intros r e Hin. by apply H7.
    + intros r p Hin. by apply H7.
    + intros r d Hin. by apply H7.
    + eapply Forall_impl; [exact H9|]. intros r. by apply reachable_sound.
  - intros [_ _ _ _ Hids Hsc Hen Hk Hb Hrt Hdns Hpre Hm1 Hm2 Hedge Hmode Hdom Hov Hreach].
    rewrite Forall_forall in Hreach.
    assert (Hall : ∀ r, r ∈ fs_Resources v → rid r ∈ reachable_set v)
      by (intros; eapply reachable_complete; eauto).
    rewrite !check_profile_nil, check_presets_nil, check_members_nil, check_payloads_nil,
      check_overrides_nil, check_reachable_nil by done.
    rewrite !Forall_forall in *. unfold payload_closed. naive_solver.
Qed.

Lemma FrozenInputSpec_Validate_iff v :
  FrozenInputSpec_Validate v = None ↔ WellFormed v.
Proof.
  unfold FrozenInputSpec_Validate.
  destruct (Z.ltb_spec MaxFrozenResources (Z.of_nat (length (fs_Resources v)))) as [Hl|Hl].
  { split; [done|]. intros [Hl' _]. lia. }
  assert (HR := range_err_each Resource_Validate
    (λ i r err, prefixed err (resources_path i) (rid r)) (fs_Resources v)).
  assert (HT := range_err_each Target_Validate
    (λ i t err, prefixed err (targets_path i) "") (fs_Targets v)).
  destruct (range_err (λ i r, match Resource_Validate r with _ => _ end) _).
  { split; [done|]. intros H. apply wf_resources in H. by apply HR in H. }
  destruct (range_err (λ i t, match Target_Validate t with _ => _ end) _).
  { split; [done|]. intros H. apply wf_targets in H. by apply HT in H. }
  destruct (validateValue "frozen_input" (SV_FrozenInput v)) eqn:Hs.
  { split; [done|]. intros H. apply wf_schema in H. congruence. }
  rewrite finish_None. apply snapshot_diagnostics_nil; [done|by apply HR|by apply HT|done].
Qed.
(** A rejected snapshot is explained. *)
Lemma FrozenInputSpec_Validate_explained v : explained (FrozenInputSpec_Validate v).
Proof.
  unfold FrozenInputSpec_Validate. destruct (_ <? _); [done|].
  assert (Hr : ∀ {A} (check : A → error) (render : nat → A → Diagnostics → Diagnostics) l,
    (∀ x, explained (check x)) → (∀ i x e, e ≠ [] → render i x e ≠ []) →
    explained (range_err (λ i x, match check x with
                                 | Some err => Some (render i x err) | None => None end) l)).
  { intros A check render l Hc Hn. apply explained_range_err. intros i x.
    destruct (check x) eqn:E; [|done]. apply explained_Some, Hn, explained_Some. by rewrite <-E. }
  assert (Hp : ∀ p id err, err ≠ [] → prefixed err p id ≠ [])
    by (intros p id err H E; by apply prefixDiagnostics_nil in E).
  destruct (range_err _ (fs_Resources v)) eqn:E1.
  { rewrite <-E1. apply (Hr _ Resource_Validate (λ i r err, prefixed err (resources_path i) (rid r)));
      [apply explained_Resource|auto]. }
  destruct (range_err _ (fs_Targets v)) eqn:E2.
  { rewrite <-E2. apply (Hr _ Target_Validate (λ i t err, prefixed err (targets_path i) ""));
      [apply explained_Target|auto]. }
  destruct (validateValue _ _) eqn:E3; [rewrite <-E3; apply explained_validate|].
  apply explained_finish.
Qed.
End Wf.

(** ** Target descriptors *)

Lemma without_overrides_eq t u :
  without_overrides t = without_overrides u → t_PolicyOverrides t = t_PolicyOverrides u → t = u.
Proof. destruct t, u. unfold without_overrides. simpl. intros [= -> -> -> -> -> -> -> ->] ->. done. Qed.

(** Inclusion and equal size make two maps equal. *)
Lemma map_subset_size_eq {V} (m n : gmap string V) :
  m ⊆ n → size m = size n → m = n.
Proof.
  intros Hs Hsz. apply map_eq. intros k.
  destruct (n !! k) as [x|] eqn:En.
  - assert (k ∈ dom m) as [y Hy]%elem_of_dom.
    { assert (dom m = dom n) as ->; [|by apply elem_of_dom_2 in En].
      apply set_subseteq_size_eq; [by apply subseteq_dom|]. rewrite !size_dom. lia. }
    rewrite Hy. rewrite (lookup_weaken _ _ _ _ Hy Hs) in En. congruence.
  - by eapply lookup_weaken_None.
Qed.

Lemma Target_Equal_spec v other : Target_Equal v other = true ↔ v = other.
Proof.
  unfold Target_Equal. rewrite !andb_true_iff, bool_decide_eq_true, Nat.eqb_eq, forallb_forall.
  split.
  - intros [[Hw Hsz] Hall]. apply without_overrides_eq; [done|].
    apply map_subset_size_eq; [|done].
    apply map_subseteq_spec. intros k o Ho.
    assert (In (k, o) (map_to_list (t_PolicyOverrides v))) as Hin
      by by apply list_elem_of_In, elem_of_map_to_list.
    specialize (Hall _ Hin). simpl in Hall. by apply bool_decide_eq_true in Hall.
  - intros <-. split_and!; [done..|]. intros [k o] Hin%list_elem_of_In.
    apply elem_of_map_to_list in Hin. by apply bool_decide_eq_true.
Qed.

Section Normal.
Context {P : Platform}.

(** ** Reordering *)

(** Two resources that differ at most in the order of their tags. *)
Definition same_up_to_tags (r1 r2 : Resource) : Prop :=
  md_Tags (r_Metadata r1) ≡ₚ md_Tags (r_Metadata r2) ∧ sort_tags r1 = sort_tags r2.

(** Two specifications that differ only in the order of what are sets. *)
Record Reordered (v w : FrozenInputSpec) : Prop := {
  ro_version : fs_SchemaVersion v = fs_SchemaVersion w;
  ro_snapshot : fs_SnapshotID v = fs_SnapshotID w;
  ro_scope : fs_ScopeID v = fs_ScopeID w;
  ro_revision : fs_CatalogRevision v = fs_CatalogRevision w;
  ro_epoch : fs_SecurityEpoch v = fs_SecurityEpoch w;
  ro_routing : fs_RoutingProfile v = fs_RoutingProfile w;
  ro_dns : fs_DNSProfile v = fs_DNSProfile w;
  ro_members : fs_Members v ≡ₚ fs_Members w;
  ro_targets : fs_Targets v ≡ₚ fs_Targets w;
  ro_resources : ∃ rs, Forall2 same_up_to_tags (fs_Resources v) rs ∧ rs ≡ₚ fs_Resources w }.

Lemma rid_sort_tags r : rid (sort_tags r) = rid r.
Proof. done. Qed.

Lemma sort_tags_same r1 r2 :
  r_Payload r1 = r_Payload r2 →
  (∀ ts, {| md_ResourceID := md_ResourceID (r_Metadata r1); md_ScopeID := md_ScopeID (r_Metadata r1);
            md_Kind := md_Kind (r_Metadata r1); md_Revision := md_Revision (r_Metadata r1);
            md_SchemaVersion := md_SchemaVersion (r_Metadata r1); md_Name := md_Name (r_Metadata r1);
            md_Tags := ts; md_Enabled := md_Enabled (r_Metadata r1);
            md_SecurityEpoch := md_SecurityEpoch (r_Metadata r1) |} =
         {| md_ResourceID := md_ResourceID (r_Metadata r2); md_ScopeID := md_ScopeID (r_Metadata r2);
            md_Kind := md_Kind (r_Metadata r2); md_Revision := md_Revision (r_Metadata r2);
            md_SchemaVersion := md_SchemaVersion (r_Metadata r2); md_Name := md_Name (r_Metadata r2);
            md_Tags := ts; md_Enabled := md_Enabled (r_Metadata r2);
            md_SecurityEpoch := md_SecurityEpoch (r_Metadata r2) |}) →
  md_Tags (r_Metadata r1) ≡ₚ md_Tags (r_Metadata r2) →
  same_up_to_tags r1 r2.
Proof.
  intros Hp Hm Ht. split; [done|]. unfold sort_tags. cbv zeta.
  by rewrite Hp, Hm, (sort_strings_perm _ _ Ht).
Qed.

Lemma insert_sort_tags r rs :
  sort_tags <$> insert_sorted (key_leb rid) r rs =
  insert_sorted (key_leb rid) (sort_tags r) (sort_tags <$> rs).
Proof.
  induction rs as [|x rs IH]; [done|]. csimpl.
  change (key_leb rid (sort_tags r) (sort_tags x)) with (key_leb rid r x).
  destruct (key_leb rid r x); csimpl; [done|]. by rewrite IH.
Qed.

Lemma isort_sort_tags rs :
  sort_tags <$> isort (key_leb rid) rs = isort (key_leb rid) (sort_tags <$> rs).
Proof.
  induction rs as [|x rs IH]; [done|].
  by rewrite fmap_cons, !isort_cons, insert_sort_tags, IH.
Qed.

Lemma same_up_to_tags_fmap rs1 rs2 :
  Forall2 same_up_to_tags rs1 rs2 → sort_tags <$> rs1 = sort_tags <$> rs2.
Proof. induction 1 as [|r1 r2 rs1 rs2 [_ H] _ IH]; csimpl; [done|]. by rewrite H, IH. Qed.

Lemma normalize_reordered v w :
  NoDup (rid <$> fs_Resources v) → NoDup (fr_ResourceID <$> fs_Members v) →
  NoDup (t_Key <$> fs_Targets v) → Reordered v w → normalize_spec v = normalize_spec w.
Proof.
  intros Hr Hm Ht [Ev Esn Esc Erev Eep Ert Edns Pm Pt (rs & Hf & Pr)].
  unfold normalize_spec. rewrite Ev, Esn, Esc, Erev, Eep, Ert, Edns.
  rewrite (SortFunc_key_unique fr_ResourceID _ _ Hm Pm), (SortFunc_key_unique t_Key _ _ Ht Pt).
  f_equal. rewrite !SortFunc_key, !isort_sort_tags.
  rewrite (same_up_to_tags_fmap _ _ Hf). apply isort_key_unique.
  - rewrite <-(same_up_to_tags_fmap _ _ Hf), <-list_fmap_compose. done.
  - by rewrite Pr.
Qed.

Lemma NewFrozenInput_Ok v f :
  NewFrozenInput v = Ok f ↔
  range_err clone_payload (fs_Resources v) = None ∧ WellFormed v ∧
  f = {| fi_spec := Some (normalize_spec v) |}.
Proof.
  unfold NewFrozenInput, cloneSpec.
  pose proof (FrozenInputSpec_Validate_iff v) as Hwf.
  destruct (Z.ltb_spec MaxFrozenResources (Z.of_nat (length (fs_Resources v)))) as [Hl|Hl].
  { split; [done|]. intros (_ & [Hl' _] & _). lia. }
  destruct (range_err clone_payload (fs_Resources v)); [naive_solver|].
  destruct (FrozenInputSpec_Validate v); [naive_solver|].
  split; [|naive_solver]. intros [= <-]. naive_solver.
Qed.

Lemma NewFrozenInput_canonical_aux v w f g :
  Reordered v w → NewFrozenInput v = Ok f → NewFrozenInput w = Ok g → f = g.
Proof.
  intros Hro (_ & Hwf & ->)%NewFrozenInput_Ok (_ & _ & ->)%NewFrozenInput_Ok.
  do 2 f_equal. apply normalize_reordered; [apply Hwf..|done].
Qed.

(** ** Validity of the normal form *)

Lemma elem_of_norm_resources v r :
  r ∈ fs_Resources (normalize_spec v) ↔ ∃ r0, r = sort_tags r0 ∧ r0 ∈ fs_Resources v.
Proof. simpl. rewrite list_elem_of_fmap. by setoid_rewrite elem_of_isort. Qed.

Lemma elem_of_norm_targets v t : t ∈ fs_Targets (normalize_spec v) ↔ t ∈ fs_Targets v.
Proof. apply elem_of_isort. Qed.

Lemma norm_targets_elem v t : t ∈ fs_Targets (normalize_spec v) → t ∈ fs_Targets v.
Proof. apply elem_of_norm_targets. Qed.

Lemma norm_resources_perm {A} (f : Resource → A) v :
  (∀ r, f (sort_tags r) = f r) →
  f <$> fs_Resources (normalize_spec v) ≡ₚ f <$> fs_Resources v.
Proof.
  intros Hf. simpl. rewrite <-list_fmap_compose.
  rewrite (list_fmap_ext (f ∘ sort_tags) f _) by (intros; apply Hf).
  apply fmap_Permutation, isort_perm.
Qed.

Lemma Pinned_norm v ref : Pinned v ref → Pinned (normalize_spec v) ref.
Proof.
  intros (r & Hr & H). exists (sort_tags r). split; [|done].
  apply elem_of_norm_resources. eauto.
Qed.

Lemma Resolved_norm v e : Resolved v e → Resolved (normalize_spec v) e.
Proof.
  intros (r & Hr & H). exists (sort_tags r). split; [|done].
  apply elem_of_norm_resources. eauto.
Qed.

Lemma Reach_norm v id : Reach v id → Reach (normalize_spec v) id.
Proof.
  induction 1 as [id H|r e Hr _ IH He].
  - apply Reach_root. unfold RootOf in *. setoid_rewrite elem_of_norm_targets.
    setoid_rewrite elem_of_isort. done.
  - apply (Reach_edge _ (sort_tags r)); [|done..]. apply elem_of_norm_resources. eauto.
Qed.

(** The schema's array constraints (number of items, uniqueness, shape of each
    item) do not depend on the order of the items. *)
Record OrderBlind : Prop := {
  blind_resource : ∀ r, validateValue "resource" (SV_Resource r) = None →
    validateValue "resource" (SV_Resource (sort_tags r)) = None;
  blind_input : ∀ v, validateValue "frozen_input" (SV_FrozenInput v) = None →
    validateValue "frozen_input" (SV_FrozenInput (normalize_spec v)) = None }.

Context (Hblind : OrderBlind).

Lemma Resource_Validate_sort_tags r :
  Resource_Validate r = None → Resource_Validate (sort_tags r) = None.
Proof.
  unfold Resource_Validate. cbv zeta. simpl.
  pose proof (blind_resource Hblind r) as Hb.
  destruct (r_Payload r); try done; destruct (md_Kind (r_Metadata r) =s _); try done; simpl;
    try done; match goal with |- context [match ?m with Some _ => _ | None => _ end] =>
                by destruct m end.
Qed.

Lemma MergePolicyOverride_sort_tags r o :
  is_ok (MergePolicyOverride r o) = true → is_ok (MergePolicyOverride (sort_tags r) o) = true.
Proof.
  unfold MergePolicyOverride. destruct (Resource_Validate r) eqn:E; [done|].
  by rewrite (Resource_Validate_sort_tags _ E).
Qed.

Lemma WellFormed_normalize v : WellFormed v → WellFormed (normalize_spec v).
Proof.
  intros [Hl Hr Ht Hs Hids Hsc Hen Hk Hb Hrt Hdns Hpre Hm1 Hm2 Hedge Hmode Hdom Hov Hreach].
  rewrite Forall_forall in Hr, Hsc, Hen, Hreach. rewrite Forall_forall in Ht.
  rewrite Forall_forall in Hm2.
  split; try rewrite Forall_forall.
  - simpl. rewrite length_fmap. unfold SortFunc. by rewrite isort_length.
  - intros ? (r & -> & Hin)%elem_of_norm_resources. by apply Resource_Validate_sort_tags, Hr.
  - intros t Hin%norm_targets_elem. by apply Ht.
  - by apply (blind_input Hblind).
  - by rewrite (norm_resources_perm rid).
  - intros ? (r & -> & Hin)%elem_of_norm_resources. by apply (Hsc r).
  - intros ? (r & -> & Hin)%elem_of_norm_resources. by apply (Hen r).
  - simpl. by rewrite SortFunc_key_perm.
  - intros t u Hin1%norm_targets_elem Hin2%norm_targets_elem. by apply Hb.
  - intros ref H. by apply Pinned_norm, Hrt.
  - intros ref H. by apply Pinned_norm, Hdns.
  - intros t ? Hin%norm_targets_elem (r & -> & Hr')%elem_of_norm_resources. by apply (Hpre t r).
  - simpl. by rewrite SortFunc_key_perm.
  - intros m Hin%elem_of_isort. by apply Pinned_norm, Hm2.
  - intros ? e (r & -> & Hin)%elem_of_norm_resources He. by eapply Resolved_norm, (Hedge r).
  - intros ? p (r & -> & Hin)%elem_of_norm_resources. by apply (Hmode r p).
  - intros ? d (r & -> & Hin)%elem_of_norm_resources Hp rule id r' s Hrule Hid (r0 & -> & Hr0)%elem_of_norm_resources.
    by apply (Hdom r d Hin Hp rule id r0 s).
  - intros t id o Hin%norm_targets_elem Ho. destruct (Hov t id o Hin Ho) as (r & Hr' & <- & Hkind & Hok).
    exists (sort_tags r). split_and!; [apply elem_of_norm_resources; eauto|done..|by apply MergePolicyOverride_sort_tags].
  - intros ? (r & -> & Hin)%elem_of_norm_resources. apply Reach_norm. by apply (Hreach r).
Qed.

Lemma NewFrozenInput_valid_aux v f : NewFrozenInput v = Ok f → FrozenInput_Validate f = None.
Proof.
  intros (_ & Hwf & ->)%NewFrozenInput_Ok. simpl.
  by apply FrozenInputSpec_Validate_iff, WellFormed_normalize.
Qed.

End Normal.
