(* ===== verification/Catalog.v ===== *)
(** Resource revisions and references ([internal/catalog]): creation, update
    and invalidation with their revision and security-epoch counters
    ([resource.go]), and the references of a payload ([resource.go],
    [dns.go]). *)
From S2P Require Import Prelude Diagnostics IRTypes IRValidate Frozen.

(** The sentinel errors of [catalog.go]. *)
Inductive catalog_error :=
| ErrNotFound
| ErrRevisionConflict
| ErrInvalidReference
| ErrInvalidInput
| ErrUnavailable
| ErrCrypto
| ErrIdempotencyConflict
| ErrWrapConflict
| ErrTransactionClosed.

Record CreateInput := {
  ci_Name : string; ci_Tags : list string; ci_Enabled : bool; ci_Payload : ResourcePayload }.
Record UpdateInput := {
  ui_Name : string; ui_Tags : list string; ui_Enabled : bool; ui_Payload : ResourcePayload }.

Record Reference := {
  ref_SourceID : ID; ref_SourceKind : ResourceKind; ref_SourceRevision : Z;
  ref_TargetID : ID; ref_TargetRevision : option Z; ref_ExpectedKind : ResourceKind;
  ref_Path : string; ref_Current : bool }.

(** The storage encoding of a resource: [json.Marshal] and [ir.DecodeResource]. *)
Class Codec := {
  Bytes : Type;
  marshalResource : Resource → option Bytes;
  DecodeResource : Bytes → option Resource }.

Definition payloadKind (p : ResourcePayload) : ResourceKind :=
  match p with
  | Payload_Node _ => KindNode
  | Payload_Chain _ => KindChain
  | Payload_PolicyGroup _ => KindPolicyGroup
  | Payload_RoutingProfile _ => KindRoutingProfile
  | Payload_RuleSet _ => KindRuleSet
  | Payload_DNSProfile _ => KindDNSProfile
  | Payload_SubscriptionProfile _ => KindSubscriptionProfile
  | Payload_ClientPreset _ => KindClientPreset
  (* The type switch looks at the dynamic type only. *)
  | Payload_typed_nil variant => variant
  | Payload_nil => ""
  end.

Section Catalog.
Context {P : Platform} {C : Codec}.

Definition StableExternalKey := "stable_external_key".
Definition ManualBinding := "manual_binding".
Definition ExactFingerprint := "exact_fingerprint".

(** The provenance a node may carry. *)
Definition origin_ok (o : Origin) : bool :=
  valid_id (or_SourceResourceID o) && valid_id (or_SourceItemID o) &&
  ((or_MatchMethod o =s StableExternalKey) || (or_MatchMethod o =s ManualBinding)
   || (or_MatchMethod o =s ExactFingerprint)).

(** [Canonical]: tags are a set; everything else keeps its order. *)
Definition Canonical (resource : Resource) : result catalog_error Bytes :=
  let resource := sort_tags resource in
  match Resource_Validate resource with
  | Some _ => Err ErrInvalidInput
  | None =>
      let origin :=
        match r_Payload resource with
        | Payload_Node node => match n_Origin node with Some o => origin_ok o | None => true end
        | _ => true
        end in
      if negb origin then Err ErrInvalidReference
      else
        match marshalResource resource with
        | Some data => Ok data
        | None => Err ErrInvalidInput
        end
  end.

Definition clone (resource : Resource) : result catalog_error Resource :=
  let? data := Canonical resource in
  match DecodeResource data with
  | Some next => Ok next
  | None => Err ErrInvalidInput
  end.

(** [New], given the identifier that the random source produced. *)
Definition New (fresh : option ID) (scope : ID) (input : CreateInput)
    : result catalog_error Resource :=
  match ci_Payload input with
  | Payload_ClientPreset _ => Err ErrInvalidInput
  | _ =>
      match fresh with
      | None => Err ErrUnavailable
      | Some id =>
          clone {| r_Metadata :=
                     {| md_ResourceID := id; md_ScopeID := scope;
                        md_Kind := payloadKind (ci_Payload input); md_Revision := 1;
                        md_SchemaVersion := SchemaVersion; md_Name := ci_Name input;
                        md_Tags := ci_Tags input; md_Enabled := ci_Enabled input;
                        md_SecurityEpoch := 1 |};
                   r_Payload := ci_Payload input |}
      end
  end.

(** Whether replacing payload [old] by [next] changes authentication: the
    complete typed [Auth], and the credentials of the REALITY union. *)
Definition auth_changed (old next : ResourcePayload) : bool :=
  match old, next with
  | Payload_Node previous, Payload_Node current =>
      let changed := negb (bool_decide (n_Auth previous = n_Auth current)) in
      match n_Security previous, n_Security current with
      | Security_Reality p, Security_Reality c =>
          changed || negb (rs_PublicKey p =s rs_PublicKey c) || negb (rs_ShortID p =s rs_ShortID c)
      | Security_Reality _, _ | _, Security_Reality _ => true
      | _, _ => changed
      end
  | _, _ => false
  end.

Definition with_update (old : Resource) (input : UpdateInput) : Resource :=
  let m := r_Metadata old in
  {| r_Metadata :=
       {| md_ResourceID := md_ResourceID m; md_ScopeID := md_ScopeID m; md_Kind := md_Kind m;
          md_Revision := md_Revision m + 1; md_SchemaVersion := md_SchemaVersion m;
          md_Name := ui_Name input; md_Tags := ui_Tags input; md_Enabled := ui_Enabled input;
          md_SecurityEpoch := md_SecurityEpoch m |};
     r_Payload := ui_Payload input |}.

Definition bump_epoch (r : Resource) : Resource :=
  let m := r_Metadata r in
  {| r_Metadata :=
       {| md_ResourceID := md_ResourceID m; md_ScopeID := md_ScopeID m; md_Kind := md_Kind m;
          md_Revision := md_Revision m; md_SchemaVersion := md_SchemaVersion m;
          md_Name := md_Name m; md_Tags := md_Tags m; md_Enabled := md_Enabled m;
          md_SecurityEpoch := md_SecurityEpoch m + 1 |};
     r_Payload := r_Payload r |}.

Definition Apply (old : Resource) (input : UpdateInput) : result catalog_error Resource :=
  let m := r_Metadata old in
  if md_Kind m =s KindClientPreset then Err ErrInvalidInput
  else
    let? _ := Canonical old in
    if (md_Revision m =? MaxInt64) || negb (payloadKind (ui_Payload input) =s md_Kind m)
    then Err ErrInvalidInput
    else
      let next := with_update old input in
      let? _ := Canonical next in
      if auth_changed (r_Payload old) (ui_Payload input)
         || (md_Enabled m && negb (ui_Enabled input))
      then
        if md_SecurityEpoch m =? MaxInt64 then Err ErrInvalidInput
        else clone (bump_epoch next)
      else clone next.

Definition with_invalidation (r : Resource) (disable : bool) : Resource :=
  let m := r_Metadata r in
  {| r_Metadata :=
       {| md_ResourceID := md_ResourceID m; md_ScopeID := md_ScopeID m; md_Kind := md_Kind m;
          md_Revision := md_Revision m + 1; md_SchemaVersion := md_SchemaVersion m;
          md_Name := md_Name m; md_Tags := md_Tags m;
          md_Enabled := if disable then false else md_Enabled m;
          md_SecurityEpoch := md_SecurityEpoch m + 1 |};
     r_Payload := r_Payload r |}.

Definition invalidate (old : Resource) (disable : bool) : result catalog_error Resource :=
  let m := r_Metadata old in
  if md_Kind m =s KindClientPreset then Err ErrInvalidInput
  else if (md_Revision m =? MaxInt64) || (md_SecurityEpoch m =? MaxInt64)
  then Err ErrInvalidInput
  else
    let? next := clone old in
    Ok (with_invalidation next disable).

Definition Revoke (old : Resource) : result catalog_error Resource := invalidate old false.
Definition Delete (old : Resource) : result catalog_error Resource := invalidate old true.

(** ** References *)

(** [DNSReferences]: local references, completed by [ExtractReferences]. *)
Definition DNSReferences (profile : DNSProfile) : list Reference :=
  let ref target kind path :=
    {| ref_SourceID := ""; ref_SourceKind := ""; ref_SourceRevision := 0;
       ref_TargetID := target; ref_TargetRevision := None; ref_ExpectedKind := kind;
       ref_Path := path; ref_Current := false |} in
  range_app (λ i resolver,
    match dr_Outbound resolver with
    | Some o =>
        if tr_Type o =s ResourceRef
        then [ref (tr_ResourceID o) (tr_Kind o)
                ("/resolvers/" +:+ index_string i +:+ "/outbound/resource_id")]
        else []
    | None => []
    end) (dp_Resolvers profile) ++
  range_app (λ i rule,
    imap (λ j id, ref id KindRuleSet
                    ("/rules/" +:+ index_string i +:+ "/match/rule_set_ids/" +:+ index_string j))
      (dm_RuleSetIDs (dru_Match rule))) (dp_Rules profile).

Definition ExtractReferences (resource : Resource) : result catalog_error (list Reference) :=
  match Resource_Validate resource with
  | Some _ => Err ErrInvalidInput
  | None =>
      if payloadKind (r_Payload resource) =s "" then Err ErrInvalidInput
      else
        let m := r_Metadata resource in
        let ref kind target expected path :=
          {| ref_SourceID := md_ResourceID m; ref_SourceKind := kind;
             ref_SourceRevision := md_Revision m; ref_TargetID := target;
             ref_TargetRevision := None; ref_ExpectedKind := expected; ref_Path := path;
             ref_Current := true |} in
        Ok match r_Payload resource with
           | Payload_Chain chain =>
               imap (λ i hop, ref "" (nr_NodeID hop) KindNode
                                ("/payload/hops/" +:+ index_string i +:+ "/node_id"))
                 (ch_Hops chain)
           | Payload_PolicyGroup group =>
               imap (λ i member, ref KindPolicyGroup (tr_ResourceID member) (tr_Kind member)
                                   ("/payload/members/" +:+ index_string i +:+ "/resource_id"))
                 (pg_Members group) ++
               [ref KindPolicyGroup (tr_ResourceID (pg_DefaultMember group))
                  (tr_Kind (pg_DefaultMember group)) "/payload/default_member/resource_id"]
           | Payload_RoutingProfile profile =>
               range_app (λ i rule,
                 let path := "/payload/rules/" +:+ index_string i in
                 (if tr_Type (rr_Action rule) =s ResourceRef
                  then [ref KindRoutingProfile (tr_ResourceID (rr_Action rule))
                          (tr_Kind (rr_Action rule)) (path +:+ "/action/resource_id")]
                  else []) ++
                 imap (λ j id, ref KindRoutingProfile id KindRuleSet
                                 (path +:+ "/match/rule_set_ids/" +:+ index_string j))
                   (rm_RuleSetIDs (rr_Match rule))) (rp_Rules profile) ++
               (if tr_Type (rp_Final profile) =s ResourceRef
                then [ref KindRoutingProfile (tr_ResourceID (rp_Final profile))
                        (tr_Kind (rp_Final profile)) "/payload/final/resource_id"]
                else [])
           | Payload_DNSProfile profile =>
               (λ r, ref KindDNSProfile (ref_TargetID r) (ref_ExpectedKind r)
                       ("/payload" +:+ ref_Path r)) <$> DNSReferences profile
           | Payload_SubscriptionProfile p =>
               let sub id kind path :=
                 ref KindSubscriptionProfile id kind ("/payload" +:+ path) in
               [sub (sp_RoutingProfileID p) KindRoutingProfile "/routing_profile_id";
                sub (sp_DNSProfileID p) KindDNSProfile "/dns_profile_id"] ++
               imap (λ i t, sub (st_ClientPresetID t) KindClientPreset
                              ("/targets/" +:+ index_string i +:+ "/client_preset_id"))
                 (sp_Targets p)
           | _ => []
           end
  end.

End Catalog.
