(* ===== verification/CatalogFacts.v ===== *)
(** The life of a catalog resource: what an update or an invalidation returns, and how
    revisions and security epochs move along its history. *)
From S2P Require Import Prelude Diagnostics IRTypes IRValidate Frozen FrozenFacts Catalog.

Section CatalogFacts.
Context {P : Platform} {C : Codec}.

(** A validated resource is written, and read back as it was. *)
Definition CodecRoundTrip : Prop :=
  ∀ r, Resource_Validate r = None →
    ∃ data, marshalResource r = Some data ∧ DecodeResource data = Some r.

(** What [Canonical] accepts. *)
Definition Admissible (r : Resource) : Prop :=
  Resource_Validate (sort_tags r) = None ∧
  ∀ n o, r_Payload r = Payload_Node n → n_Origin n = Some o → origin_ok o = true.

Lemma Canonical_ok r :
  CodecRoundTrip →
  (∃ data, Canonical r = Ok data ∧ DecodeResource data = Some (sort_tags r)) ↔ Admissible r.
Proof.
  intros Hc. unfold Canonical, Admissible. cbv zeta.
  destruct (Resource_Validate (sort_tags r)) eqn:Ev.
  { split; [by intros (? & ? & _)|by intros [? _]]. }
  destruct (Hc _ Ev) as (data & -> & Hd). simpl.
  match goal with |- context [negb ?b] => destruct b eqn:Eo end; simpl.
  - split; [|by eauto]. intros _. split; [done|]. intros n o En E. rewrite En, E in Eo. done.
  - split; [by intros (? & ? & _)|]. intros [_ H]. exfalso.
    destruct (r_Payload r) as [| |n| | | | | | |]; try done.
    destruct (n_Origin n) eqn:E; [|done]. by rewrite (H n _ eq_refl E) in Eo.
Qed.

Lemma Canonical_Ok_inv r data :
  CodecRoundTrip → Canonical r = Ok data →
  Admissible r ∧ DecodeResource data = Some (sort_tags r).
Proof.
  intros Hc. unfold Canonical, Admissible. cbv zeta.
  destruct (Resource_Validate (sort_tags r)) eqn:Ev; [done|].
  destruct (Hc _ Ev) as (data' & -> & Hd). simpl.
  match goal with |- context [negb ?b] => destruct b eqn:Eo end; simpl; [|done].
  intros [= <-]. split; [|done]. split; [done|]. intros n o En E. by rewrite En, E in Eo.
Qed.

Lemma clone_Ok r next :
  CodecRoundTrip → clone r = Ok next ↔ Admissible r ∧ next = sort_tags r.
Proof.
  intros Hc. unfold clone. split.
  - destruct (Canonical r) as [data|] eqn:E; [|done].
    apply (Canonical_Ok_inv _ _ Hc) in E as [Ha ->]. by intros [= <-].
  - intros [Ha ->]. apply (Canonical_ok _ Hc) in Ha as (data & -> & ->). done.
Qed.

Lemma Canonical_is_ok r : CodecRoundTrip → (∃ data, Canonical r = Ok data) ↔ Admissible r.
Proof.
  intros Hc. rewrite <-(Canonical_ok _ Hc). split; [|by intros (d & ? & _); eauto].
  intros (d & E). exists d. by apply (Canonical_Ok_inv _ _ Hc) in E as E' ; destruct E'.
Qed.

(** Whether an update bumps the security epoch. *)
Definition bumps (old : Resource) (input : UpdateInput) : bool :=
  auth_changed (r_Payload old) (ui_Payload input)
  || (md_Enabled (r_Metadata old) && negb (ui_Enabled input)).

Definition updated (old : Resource) (input : UpdateInput) : Resource :=
  sort_tags (if bumps old input then bump_epoch (with_update old input) else with_update old input).

Lemma Admissible_bump r : Admissible (bump_epoch r) → ∀ n o, r_Payload r = Payload_Node n →
  n_Origin n = Some o → origin_ok o = true.
Proof. intros [_ H]. exact H. Qed.

Lemma Apply_Ok old input next :
  CodecRoundTrip →
  Apply old input = Ok next ↔
    md_Kind (r_Metadata old) ≠ KindClientPreset ∧ Admissible old ∧
    md_Revision (r_Metadata old) ≠ MaxInt64 ∧
    payloadKind (ui_Payload input) = md_Kind (r_Metadata old) ∧
    Admissible (with_update old input) ∧
    (bumps old input = true →
       md_SecurityEpoch (r_Metadata old) ≠ MaxInt64 ∧
       Admissible (bump_epoch (with_update old input))) ∧
    next = updated old input.
Proof.
  intros Hc. unfold Apply. cbv zeta.
  destruct (String.eqb_spec (md_Kind (r_Metadata old)) KindClientPreset) as [|Hk]; [by split; [|naive_solver]|].
  destruct (Canonical old) as [d|e] eqn:E1.
  2: { split; [done|]. intros (_ & Ha & _). apply (Canonical_is_ok _ Hc) in Ha as [? ?]. congruence. }
  assert (Ha : Admissible old) by (apply (Canonical_is_ok _ Hc); eauto).
  destruct (Z.eqb_spec (md_Revision (r_Metadata old)) MaxInt64) as [|Hr]; [by split; [|naive_solver]|].
  destruct (String.eqb_spec (payloadKind (ui_Payload input)) (md_Kind (r_Metadata old))) as [Hp|];
    [|by split; [|naive_solver]]. simpl.
  destruct (Canonical (with_update old input)) as [d'|e] eqn:E2.
  2: { split; [done|]. intros (_ & _ & _ & _ & Ha' & _).
       apply (Canonical_is_ok _ Hc) in Ha' as [? ?]. congruence. }
  assert (Ha' : Admissible (with_update old input)) by (apply (Canonical_is_ok _ Hc); eauto).
  fold (bumps old input). unfold updated. destruct (bumps old input).
  - destruct (Z.eqb_spec (md_SecurityEpoch (r_Metadata old)) MaxInt64) as [He|He].
    { split; [done|]. intros (_ & _ & _ & _ & _ & Hb & _). by destruct Hb. }
    rewrite (clone_Ok _ _ Hc). naive_solver.
  - rewrite (clone_Ok _ _ Hc). naive_solver.
Qed.

Lemma invalidate_Ok old disable next :
  CodecRoundTrip →
  invalidate old disable = Ok next ↔
    md_Kind (r_Metadata old) ≠ KindClientPreset ∧ Admissible old ∧
    md_Revision (r_Metadata old) ≠ MaxInt64 ∧ md_SecurityEpoch (r_Metadata old) ≠ MaxInt64 ∧
    next = with_invalidation (sort_tags old) disable.
Proof.
  intros Hc. unfold invalidate. cbv zeta.
  destruct (String.eqb_spec (md_Kind (r_Metadata old)) KindClientPreset); [by split; [|naive_solver]|].
  destruct (Z.eqb_spec (md_Revision (r_Metadata old)) MaxInt64); [by split; [|naive_solver]|].
  destruct (Z.eqb_spec (md_SecurityEpoch (r_Metadata old)) MaxInt64); [by split; [|naive_solver]|]. simpl.
  destruct (clone old) as [r|] eqn:E.
  - apply (clone_Ok _ _ Hc) in E as [Ha ->]. naive_solver.
  - split; [done|]. intros (_ & Ha & _). assert (clone old = Ok (sort_tags old)) by by apply clone_Ok.
    congruence.
Qed.

(** ** Histories *)

(** One step of a resource's life; [Withdraws] invalidates what was pinned. *)
Inductive step : Resource → bool → Resource → Prop :=
| step_update old input next : Apply old input = Ok next → step old (bumps old input) next
| step_revoke old next : Revoke old = Ok next → step old true next
| step_delete old next : Delete old = Ok next → step old true next.

Lemma step_metadata r b r' :
  CodecRoundTrip → step r b r' →
  rid r' = rid r ∧ md_ScopeID (r_Metadata r') = md_ScopeID (r_Metadata r) ∧
  md_Kind (r_Metadata r') = md_Kind (r_Metadata r) ∧
  md_Revision (r_Metadata r') = md_Revision (r_Metadata r) + 1 ∧
  md_Revision (r_Metadata r) ≠ MaxInt64 ∧
  md_SecurityEpoch (r_Metadata r') = md_SecurityEpoch (r_Metadata r) + (if b then 1 else 0) ∧
  (b = true → md_SecurityEpoch (r_Metadata r) ≠ MaxInt64).
Proof.
  intros Hc. inversion 1 as [? input ? H1|? ? H1|? ? H1]; subst.
  - apply (Apply_Ok _ _ _ Hc) in H1 as (_ & _ & Hr & _ & _ & Hb & ->). unfold updated.
    destruct (bumps r input) eqn:E; simpl; split_and!; try done; try lia; try (intros _; by destruct Hb).
  - apply (invalidate_Ok _ _ _ Hc) in H1 as (_ & _ & Hr & He & ->). simpl. split_and!; try done.
  - apply (invalidate_Ok _ _ _ Hc) in H1 as (_ & _ & Hr & He & ->). simpl. split_and!; try done.
Qed.

(** Reachable versions, with whether some step withdrew the earlier one. *)
Inductive history : Resource → bool → Resource → Prop :=
| history_one r b r' : step r b r' → history r b r'
| history_more r b r1 b' r' : history r b r1 → step r1 b' r' → history r (b || b') r'.

Lemma history_counters r b r' :
  CodecRoundTrip → history r b r' →
  rid r' = rid r ∧ md_Kind (r_Metadata r') = md_Kind (r_Metadata r) ∧
  md_Revision (r_Metadata r) < md_Revision (r_Metadata r') ∧
  md_SecurityEpoch (r_Metadata r) ≤ md_SecurityEpoch (r_Metadata r') ∧
  (b = true → md_SecurityEpoch (r_Metadata r) < md_SecurityEpoch (r_Metadata r')).
Proof.
  intros Hc. induction 1 as [r b r' Hs|r b r1 b' r' _ IH Hs];
    apply (step_metadata _ _ _ Hc) in Hs as (E1 & _ & E2 & E3 & _ & E4 & _).
  - split_and!; try done; try lia; destruct b; lia.
  - destruct IH as (I1 & I2 & I3 & I4 & I5). split_and!; try congruence; try lia.
    + destruct b'; lia.
    + destruct b; simpl; [intros _; specialize (I5 eq_refl); destruct b'; lia|intros ->; lia].
Qed.

Definition counters_in_range (r : Resource) : Prop :=
  1 ≤ md_Revision (r_Metadata r) ≤ MaxInt64 ∧ 1 ≤ md_SecurityEpoch (r_Metadata r) ≤ MaxInt64.

Lemma history_range r b r' :
  CodecRoundTrip → counters_in_range r → history r b r' → counters_in_range r'.
Proof.
  intros Hc Hr. induction 1 as [r b r' Hs|r b r1 b' r' _ IH Hs];
    apply (step_metadata _ _ _ Hc) in Hs as (_ & _ & _ & E3 & N3 & E4 & N4).
  - unfold counters_in_range in *. destruct b; [specialize (N4 eq_refl)|]; lia.
  - specialize (IH Hr). unfold counters_in_range in *. destruct b'; [specialize (N4 eq_refl)|]; lia.
Qed.

(** ** References *)

Lemma target_edge_elem ref field e :
  e ∈ target_edge ref field →
  (tr_Type ref =s ResourceRef) = true ∧
  e = {| e_target := tr_ResourceID ref; e_kind := tr_Kind ref;
         e_field := field +:+ "/resource_id" |}.
Proof.
  unfold target_edge. destruct (tr_Type ref =s ResourceRef); [|by intros ?%elem_of_nil].
  by intros ->%list_elem_of_singleton.
Qed.

(** The references of a payload, as the snapshot's edges see them. *)
Lemma ExtractReferences_edges r refs e :
  ExtractReferences r = Ok refs → e ∈ payload_edges (r_Payload r) →
  ∃ ref, ref ∈ refs ∧ ref_TargetID ref = e_target e ∧ ref_ExpectedKind ref = e_kind e ∧
    ref_SourceID ref = rid r ∧ ref_SourceRevision ref = md_Revision (r_Metadata r) ∧
    ref_Path ref = "/payload" +:+ e_field e.
Proof.
  unfold ExtractReferences. destruct (Resource_Validate r); [done|].
  destruct (payloadKind (r_Payload r) =s ""); [done|]. cbv zeta. intros [= <-].
  destruct (r_Payload r) as [|v|n|c|g|p|d|st|sp|cp]; cbn [payload_edges]; try by intros ?%elem_of_nil.
  - intros (i & hop & -> & Hi)%elem_of_lookup_imap. eexists. split.
    { apply elem_of_lookup_imap. exists i, hop. split; [reflexivity|done]. }
    simpl. split_and!; try done; by str_simpl.
  - intros (i & m & -> & Hi)%elem_of_lookup_imap. eexists. split.
    { apply elem_of_app. left. apply elem_of_lookup_imap. exists i, m. split; [reflexivity|done]. }
    simpl. split_and!; try done; by str_simpl.
  - intros [H|(i & rule & Hi & H)%elem_of_range_app]%elem_of_app.
    + apply target_edge_elem in H as [Et ->]. eexists. split.
      { apply elem_of_app. right. rewrite Et. apply list_elem_of_singleton. reflexivity. }
      simpl. split_and!; try done; by str_simpl.
    + cbv zeta in H. apply elem_of_app in H as [H|(k & id & -> & Hk)%elem_of_lookup_imap].
      * apply target_edge_elem in H as [Et ->]. eexists. split.
        { apply elem_of_app. left. apply elem_of_range_app. exists i, rule. split; [done|].
          apply elem_of_app. left. rewrite Et. apply list_elem_of_singleton. reflexivity. }
        simpl. split_and!; try done; by str_simpl.
      * eexists. split.
        { apply elem_of_app. left. apply elem_of_range_app. exists i, rule. split; [done|].
          apply elem_of_app. right. apply elem_of_lookup_imap. exists k, id. split; [reflexivity|done]. }
        simpl. split_and!; try done; by str_simpl.
  - unfold DNSReferences. cbv zeta.
    intros [(i & resolver & Hi & H)%elem_of_range_app|(i & rule & Hi & H)%elem_of_range_app]%elem_of_app.
    + destruct (dr_Outbound resolver) as [o|] eqn:Eo; [|by apply elem_of_nil in H].
      apply target_edge_elem in H as [Et ->]. eexists. split.
      { apply list_elem_of_fmap. eexists. split; [reflexivity|]. apply elem_of_app. left.
        apply elem_of_range_app. exists i, resolver. split; [done|]. rewrite Eo, Et.
        apply list_elem_of_singleton. reflexivity. }
      simpl. split_and!; try done; by str_simpl.
    + apply elem_of_lookup_imap in H as (k & id & -> & Hk). eexists. split.
      { apply list_elem_of_fmap. eexists. split; [reflexivity|]. apply elem_of_app. right.
        apply elem_of_range_app. exists i, rule. split; [done|]. apply elem_of_lookup_imap.
        exists k, id. split; [reflexivity|done]. }
      simpl. split_and!; try done; by str_simpl.
Qed.
End CatalogFacts.
