(* ===== verification/CatalogRefs.v ===== *)
(** Resolution of references against one snapshot ([internal/catalog]): the members of a
    policy group ([policy_group.go]), explicit targets with their closure
    ([routing.go]) and the references of routing and DNS profiles ([dns.go]).

    The resolver is what the caller reads in its own transaction. [check] recurses
    into chains and groups; fuel of [MaxFrozenResources + 1] suffices because each
    descent adds a resource that was looked up, and there are at most
    [MaxFrozenResources] lookups ([ResolveTargetReferences_total]). *)
From S2P Require Import Prelude Diagnostics IRTypes IRValidate Frozen Catalog.

(** What a repository call can fail with, before [catalogError]: a sentinel, the
    diagnostics of a document, [pgx.ErrNoRows], an error code of the server, and
    what is neither. *)
Inductive failure :=
| Sentinel (e : catalog_error)
| Diagnosed (ds : Diagnostics)
| NoRows
| PgError (code : string)
| JobsConflict
| JobsInvalidInput
| Canceled
| DeadlineExceeded
| OtherError.

Record Resolution := {
  rs_diagnostics : Diagnostics; rs_resources : list Resource;
  rs_seen : gmap ID Resource; rs_lookups : gmap ID (result failure Resource) }.

Definition resolution_start : Resolution :=
  {| rs_diagnostics := []; rs_resources := []; rs_seen := ∅; rs_lookups := ∅ |}.

Section Resolve.
Context {P : Platform}.
Context (scope : ID) (resolve : ID → result failure Resource).

Definition rs_report (s : Resolution) (ds : Diagnostics) : Resolution :=
  {| rs_diagnostics := ds; rs_resources := rs_resources s; rs_seen := rs_seen s;
     rs_lookups := rs_lookups s |}.
Definition rs_add (s : Resolution) (id : ID) (r : Resource) : Resolution :=
  {| rs_diagnostics := rs_diagnostics s; rs_resources := rs_resources s ++ [r];
     rs_seen := <[id := r]> (rs_seen s); rs_lookups := rs_lookups s |}.
Definition rs_cache (s : Resolution) (id : ID) (l : result failure Resource) : Resolution :=
  {| rs_diagnostics := rs_diagnostics s; rs_resources := rs_resources s; rs_seen := rs_seen s;
     rs_lookups := <[id := l]> (rs_lookups s) |}.

(** What both resolvers ask of a resource that was found, in the order they ask it. *)
Definition wrong_reference (id : ID) (kind : ResourceKind) (r : Resource) : option DiagnosticCode :=
  let m := r_Metadata r in
  if negb (md_ResourceID m =s id) || negb (md_Kind m =s kind) then Some ReferenceKind
  else if negb (md_ScopeID m =s scope) then Some ScopeMismatch
  else if negb (md_Enabled m) then Some ResourceDisabled
  else None.

(** ** ResolvePolicyMembers *)

Definition policy_add (s : Resolution) (code : DiagnosticCode) (path : string) (id : ID) : Resolution :=
  rs_report s (rs_diagnostics s ++ [issue_at code path id]).

(** [check]: the resource when it is valid. *)
Definition policy_check (id : ID) (kind : ResourceKind) (path : string) (s : Resolution)
    : result failure (option Resource * Resolution) :=
  let found :=
    match rs_seen s !! id with Some r => Ok r | None => resolve id end in
  match found with
  | Err (Sentinel ErrNotFound) => Ok (None, policy_add s ReferenceMissing path id)
  | Err e => Err e
  | Ok r =>
      match wrong_reference id kind r with
      | Some code => Ok (None, policy_add s code path id)
      | None =>
          match Resource_Validate r with
          | Some _ => Ok (None, policy_add s InvalidValue path id)
          | None =>
              Ok (Some r, match rs_seen s !! id with Some _ => s | None => rs_add s id r end)
          end
      end
  end.

Definition policy_hops (path : string) (hops : list NodeRef) (s : Resolution)
    : outcome failure Resolution :=
  range_fold (λ i hop s,
    let! x := lift (policy_check (nr_NodeID hop) KindNode
                      (path +:+ "/hops/" +:+ index_string i +:+ "/node_id") s) in
    Ret (snd x)) hops s.

Definition policy_member (i : nat) (member : TargetRef) (s : Resolution)
    : outcome failure Resolution :=
  let path := "/members/" +:+ index_string i in
  let! x := lift (policy_check (tr_ResourceID member) (tr_Kind member)
                    (path +:+ "/resource_id") s) in
  match fst x with
  | None => Ret (snd x)
  | Some r =>
      match r_Payload r with
      | Payload_Chain chain => policy_hops path (ch_Hops chain) (snd x)
      | _ => Ret (snd x)
      end
  end.

Definition ResolvePolicyMembers (group : PolicyGroup) : outcome failure (list Resource) :=
  if negb (valid_id scope) then Fails (Sentinel ErrInvalidInput)
  else
    match PolicyGroup_Validate group with
    | Some ds => Fails (Diagnosed ds)
    | None =>
        let! s := range_fold policy_member (pg_Members group) resolution_start in
        match rs_diagnostics s with
        | [] => Ret (rs_resources s)
        | ds => Fails (Diagnosed ds)
        end
    end.

(** ** ResolveTargetReferences *)

(** [add]: sixteen diagnostics at most. *)
Definition target_add (s : Resolution) (code : DiagnosticCode) (path : string) (id : ID) : Resolution :=
  if Nat.ltb (length (rs_diagnostics s)) 16
  then rs_report s (rs_diagnostics s ++ [issue_at code path id]) else s.

(** The resource of [id], looked up once: with the state that remembers it, or
    [ErrInvalidInput] when the budget of lookups is spent. *)
Definition target_lookup (id : ID) (s : Resolution)
    : result failure (result failure Resource * Resolution) :=
  match rs_seen s !! id with
  | Some r => Ok (Ok r, s)
  | None =>
      match rs_lookups s !! id with
      | Some cached => Ok (cached, s)
      | None =>
          if MaxFrozenResources <=? Z.of_nat (size (rs_lookups s))
          then Err (Sentinel ErrInvalidInput)
          else Ok (resolve id, rs_cache s id (resolve id))
      end
  end.

(** The references that [check] follows out of a resource, with their paths. *)
Definition target_edges (path : string) (r : Resource) : list (ID * ResourceKind * string) :=
  match r_Payload r with
  | Payload_Chain chain =>
      imap (λ i hop, (nr_NodeID hop, KindNode,
                      path +:+ "/hops/" +:+ index_string i +:+ "/node_id")) (ch_Hops chain)
  | Payload_PolicyGroup group =>
      imap (λ i member, (tr_ResourceID member, tr_Kind member,
                         path +:+ "/members/" +:+ index_string i +:+ "/resource_id"))
        (pg_Members group)
  | _ => []
  end.

Fixpoint target_check (fuel : nat) (id : ID) (kind : ResourceKind) (path : string) (s : Resolution)
    : outcome failure Resolution :=
  match fuel with
  | O => Panics
  | S fuel =>
      if negb (valid_id id) then Ret (target_add s InvalidValue path id)
      else
        let exists_ := bool_decide (is_Some (rs_seen s !! id)) in
        let! found := lift (target_lookup id s) in
        let s := snd found in
        match fst found with
        | Err (Sentinel ErrNotFound) => Ret (target_add s ReferenceMissing path id)
        | Err e => Fails e
        | Ok r =>
            match wrong_reference id kind r with
            | Some code => Ret (target_add s code path id)
            | None =>
                if exists_ then Ret s
                else
                  match Resource_Validate r with
                  | Some _ => Ret (target_add s InvalidValue path id)
                  | None =>
                      range_fold (λ _ e s, target_check fuel (fst (fst e)) (snd (fst e)) (snd e) s)
                        (target_edges path r) (rs_add s id r)
                  end
            end
        end
  end.

Definition resolution_fuel : nat := Z.to_nat MaxFrozenResources + 1.

Definition ResolveTargetReferences (refs : list Reference) : outcome failure (list Resource) :=
  if negb (valid_id scope) then Fails (Sentinel ErrInvalidInput)
  else
    let! s := range_fold (λ _ ref s, target_check resolution_fuel (ref_TargetID ref)
                                       (ref_ExpectedKind ref) (ref_Path ref) s)
                refs resolution_start in
    match rs_diagnostics s with
    | [] => Ret (rs_resources s)
    | ds => Fails (Diagnosed ds)
    end.

(** A reference as the resolvers build it: the target alone. *)
Definition local_ref (target : ID) (kind : ResourceKind) (path : string) : Reference :=
  {| ref_SourceID := ""; ref_SourceKind := ""; ref_SourceRevision := 0;
     ref_TargetID := target; ref_TargetRevision := None; ref_ExpectedKind := kind;
     ref_Path := path; ref_Current := false |}.

Definition routing_refs (profile : RoutingProfile) : list Reference :=
  range_app (λ i rule,
    let path := "/rules/" +:+ index_string i in
    (if tr_Type (rr_Action rule) =s ResourceRef
     then [local_ref (tr_ResourceID (rr_Action rule)) (tr_Kind (rr_Action rule))
             (path +:+ "/action/resource_id")]
     else []) ++
    imap (λ j id, local_ref id KindRuleSet (path +:+ "/match/rule_set_ids/" +:+ index_string j))
      (rm_RuleSetIDs (rr_Match rule))) (rp_Rules profile) ++
  (if tr_Type (rp_Final profile) =s ResourceRef
   then [local_ref (tr_ResourceID (rp_Final profile)) (tr_Kind (rp_Final profile))
           "/final/resource_id"]
   else []).

Definition ResolveRoutingReferences (profile : RoutingProfile) : outcome failure (list Resource) :=
  match RoutingProfile_Validate profile with
  | Some ds => Fails (Diagnosed ds)
  | None => ResolveTargetReferences (routing_refs profile)
  end.

(** A rule set that a DNS rule cannot use: it has an entry that is no domain. *)
Definition cidr_set (r : Resource) : bool :=
  match r_Payload r with
  | Payload_RuleSet set => existsb (λ e, rse_Kind e =s RuleSetCIDR) (rset_Entries set)
  | _ => false
  end.

Definition ResolveDNSReferences (profile : DNSProfile) : outcome failure (list Resource) :=
  match DNSProfile_Validate profile with
  | Some ds => Fails (Diagnosed ds)
  | None =>
      let refs := DNSReferences profile in
      let! resources := ResolveTargetReferences refs in
      let invalidSets := (λ r, md_ResourceID (r_Metadata r)) <$> filter (λ r, cidr_set r) resources in
      match omap (λ ref, if bool_decide (ref_TargetID ref ∈ invalidSets)
                         then Some (issue_at InvalidValue (ref_Path ref) (ref_TargetID ref))
                         else None) refs with
      | [] => Ret resources
      | ds => Fails (Diagnosed ds)
      end
  end.

End Resolve.

(** ** What the resolution of targets establishes *)

(** The references out of a resource, without their paths. *)
Definition links_of (r : Resource) : list (ID * ResourceKind) :=
  match r_Payload r with
  | Payload_Chain chain => (λ hop, (nr_NodeID hop, KindNode)) <$> ch_Hops chain
  | Payload_PolicyGroup group => (λ member, (tr_ResourceID member, tr_Kind member)) <$> pg_Members group
  | _ => []
  end.

Lemma links_of_path path r : fst <$> target_edges path r = links_of r.
Proof.
  unfold links_of, target_edges. destruct (r_Payload r); try done;
    apply list_eq; intros i; rewrite !list_lookup_fmap, !list_lookup_imap;
    by destruct (_ !! i).
Qed.

(** [returns o Q]: [o] returns a value, which satisfies [Q]. *)
Definition returns {E A} (o : outcome E A) (Q : A → Prop) : Prop :=
  match o with Ret a => Q a | _ => False end.

Lemma returns_bind {E A B} (m : outcome E A) (k : A → outcome E B) (Q : A → Prop) (R : B → Prop) :
  returns m Q → (∀ a, Q a → returns (k a) R) → returns (let! x := m in k x) R.
Proof. destruct m; simpl; [auto|done..]. Qed.

Lemma returns_fold {E A S} (f : nat → A → S → outcome E S) (I : S → Prop) l s :
  I s → (∀ i x s, x ∈ l → I s → returns (f i x s) I) → returns (range_fold f l s) I.
Proof.
  unfold range_fold. generalize O. revert s. induction l as [|x l IH]; intros s k Hs Hf; simpl; [done|].
  apply (returns_bind _ _ I); [apply Hf; [set_solver|done]|].
  intros t Ht. apply IH; [done|]. intros. apply Hf; [set_solver|done].
Qed.

Lemma returns_safe {E A} (o : outcome E A) (Q R : A → Prop) :
  returns o Q → safe o R → returns o (λ a, Q a ∧ R a).
Proof. destruct o; simpl; auto. Qed.

Lemma list_to_set_size (l : list ID) : (size (list_to_set l : gset ID) ≤ length l)%nat.
Proof.
  induction l as [|x l IH]; [done|]. cbn [list_to_set length foldr].
  rewrite size_union_alt, size_singleton.
  assert ((size ((list_to_set l : gset ID) ∖ {[x]}) ≤ size (list_to_set l : gset ID))%nat); [|lia].
  apply subseteq_size. set_solver.
Qed.

Lemma returns_mono {E A} (o : outcome E A) (Q R : A → Prop) :
  returns o Q → (∀ a, Q a → R a) → returns o R.
Proof. destruct o; simpl; auto. Qed.

Section ResolveFacts.
Context {P : Platform}.
Context (scope : ID) (resolve : ID → result failure Resource).

(** A usable resource: found under a valid identifier, in the scope, enabled, valid. *)
Definition usable (id : ID) (r : Resource) : Prop :=
  valid_id id = true ∧ resolve id = Ok r ∧ rid r = id ∧
  md_ScopeID (r_Metadata r) = scope ∧ md_Enabled (r_Metadata r) = true ∧ Resource_Validate r = None.

(** What the references name, directly or through chains and groups. *)
Inductive Reaches (refs : list Reference) : ID → ResourceKind → Prop :=
| reaches_ref ref : ref ∈ refs → Reaches refs (ref_TargetID ref) (ref_ExpectedKind ref)
| reaches_edge id kind r e :
    Reaches refs id kind → resolve id = Ok r → e ∈ links_of r → Reaches refs (fst e) (snd e).

Lemma wrong_reference_None id kind r :
  wrong_reference scope id kind r = None ↔
  rid r = id ∧ md_Kind (r_Metadata r) = kind ∧ md_ScopeID (r_Metadata r) = scope ∧
  md_Enabled (r_Metadata r) = true.
Proof.
  unfold wrong_reference, rid. cbv zeta.
  destruct (String.eqb_spec (md_ResourceID (r_Metadata r)) id), (String.eqb_spec (md_Kind (r_Metadata r)) kind),
    (String.eqb_spec (md_ScopeID (r_Metadata r)) scope), (md_Enabled (r_Metadata r)); simpl; naive_solver.
Qed.

Section Closed.
Context (R : ID → ResourceKind → Prop).
Context (Redge : ∀ id kind r e, R id kind → resolve id = Ok r → e ∈ links_of r → R (fst e) (snd e)).

Record Wf (s : Resolution) : Prop := {
  wf_look : ∀ id l, rs_lookups s !! id = Some l → l = resolve id ∧ ∃ kind, R id kind;
  wf_seen : ∀ id r, rs_seen s !! id = Some r → rs_lookups s !! id = Some (Ok r) ∧ usable id r;
  wf_res : ∀ r, r ∈ rs_resources s ↔ rs_seen s !! rid r = Some r;
  wf_nodup : NoDup (rid <$> rs_resources s);
  wf_size : Z.of_nat (size (rs_lookups s)) ≤ MaxFrozenResources }.

Definition seen_as (s : Resolution) (e : ID * ResourceKind) : Prop :=
  ∃ r, rs_seen s !! fst e = Some r ∧ md_Kind (r_Metadata r) = snd e.

(** From [s] to [t] resources are only added, diagnostics are not lost, and unless
    something was reported, what was added has its references resolved too. *)
Record Grows (s t : Resolution) : Prop := {
  gr_seen : rs_seen s ⊆ rs_seen t;
  gr_diag : rs_diagnostics t = [] → rs_diagnostics s = [];
  gr_closed : rs_diagnostics t = [] → ∀ id r, rs_seen t !! id = Some r → rs_seen s !! id = None →
    ∀ e, e ∈ links_of r → seen_as t e }.

Lemma seen_as_mono s t e : rs_seen s ⊆ rs_seen t → seen_as s e → seen_as t e.
Proof. intros H (r & Hr & Hk). exists r. split; [by eapply lookup_weaken|done]. Qed.

Lemma Grows_refl s : Grows s s.
Proof. split; [done|done|]. intros _ id r H1 H2. congruence. Qed.

Lemma Grows_trans s t u : Grows s t → Grows t u → Grows s u.
Proof.
  intros [Hs1 Hd1 Hc1] [Hs2 Hd2 Hc2]. split; [by etrans|auto|].
  intros Hd id r Hu Hs e He. destruct (rs_seen t !! id) as [r'|] eqn:Et.
  - assert (r' = r) as -> by (eapply lookup_weaken in Et; [|exact Hs2]; congruence).
    eapply seen_as_mono; [exact Hs2|]. eapply (Hc1 (Hd2 Hd)); eauto.
  - eapply (Hc2 Hd); eauto.
Qed.

(** Bookkeeping steps. *)
Lemma Wf_add s code path id : Wf s → Wf (target_add s code path id).
Proof. intros [? ? ? ? ?]. unfold target_add. by destruct (Nat.ltb _ _). Qed.

Lemma target_add_dirty s code path id : rs_diagnostics (target_add s code path id) ≠ [].
Proof.
  unfold target_add. destruct (Nat.ltb_spec (length (rs_diagnostics s)) 16); simpl.
  - by destruct (rs_diagnostics s).
  - intros E. rewrite E in *. simpl in *. lia.
Qed.

Lemma Grows_add s code path id : Grows s (target_add s code path id).
Proof.
  assert (H := target_add_dirty s code path id).
  split; [|done|done]. unfold target_add. by destruct (Nat.ltb _ _).
Qed.

Lemma Wf_lookup s id kind l s' :
  Wf s → R id kind → target_lookup resolve id s = Ok (l, s') →
  Wf s' ∧ rs_seen s' = rs_seen s ∧ rs_diagnostics s' = rs_diagnostics s ∧
  rs_lookups s' !! id = Some l ∧ l = resolve id.
Proof.
  intros W HR. unfold target_lookup.
  destruct (rs_seen s !! id) as [r|] eqn:Es.
  { intros [= <- <-]. destruct (wf_seen s W _ _ Es) as [Hl (_ & Hr & _)]. by split_and!. }
  destruct (rs_lookups s !! id) as [c|] eqn:El.
  { intros [= <- <-]. split_and!; try done. by eapply wf_look. }
  destruct (Z.leb_spec MaxFrozenResources (Z.of_nat (size (rs_lookups s)))) as [|Hlt]; [done|].
  intros [= <- <-]. split_and!; try done; [|by apply lookup_insert_eq].
  destruct W as [W1 W2 W3 W4 W5]. split; simpl; try done.
  - intros j l. rewrite lookup_insert. case_decide as E; [subst; intros [= <-]; eauto|apply W1].
  - intros j r Hj. destruct (W2 _ _ Hj) as [Hl Hu]. split; [|done].
    rewrite lookup_insert_ne; [done|]. intros ->. congruence.
  - rewrite map_size_insert_None by done. lia.
Qed.

Lemma Wf_rs_add s id r :
  Wf s → rs_seen s !! id = None → rs_lookups s !! id = Some (Ok r) → usable id r →
  Wf (rs_add s id r).
Proof.
  intros [W1 W2 W3 W4 W5] Hn Hl Hu. assert (rid r = id) as Hid by apply Hu. split; simpl; try done.
  - intros j r'. rewrite lookup_insert. case_decide as E; [subst j; intros [= <-]; done|apply W2].
  - intros r'. rewrite elem_of_app, W3, list_elem_of_singleton, lookup_insert.
    case_decide as E; [|split; [naive_solver|intros ?; by left]].
    split; [|intros [= ->]; by right]. intros [H| ->]; [|done]. rewrite <-E in H. congruence.
  - rewrite fmap_app. simpl. apply NoDup_app. split_and!; [done| |apply NoDup_singleton].
    intros x (r' & -> & Hr')%list_elem_of_fmap. rewrite list_elem_of_singleton. intros E.
    apply W3 in Hr'. rewrite E, Hid in Hr'. congruence.
Qed.

(** Fewer resources are seen than looked up. *)
Lemma Wf_seen_size s : Wf s → Z.of_nat (size (rs_seen s)) ≤ MaxFrozenResources.
Proof.
  intros W. etrans; [|apply (wf_size s W)]. apply inj_le.
  assert (Hd : dom (rs_seen s) ⊆ dom (rs_lookups s)).
  { intros id [r Hr]%elem_of_dom. apply elem_of_dom. destruct (wf_seen s W _ _ Hr). eauto. }
  rewrite <-!size_dom. by apply subseteq_size.
Qed.

Lemma target_check_spec fuel id kind path s :
  Wf s → R id kind → MaxFrozenResources < Z.of_nat (fuel + size (rs_seen s)) →
  safe (target_check scope resolve fuel id kind path s) (λ t,
    Wf t ∧ Grows s t ∧ (rs_diagnostics t = [] → seen_as t (id, kind))).
Proof.
  revert id kind path s. induction fuel as [|fuel IH]; intros id kind path s W HR Hf; simpl.
  { assert (H := Wf_seen_size s W). simpl in Hf. lia. }
  assert (Hbad : ∀ s' code, Wf s' → rs_seen s' = rs_seen s → rs_diagnostics s' = rs_diagnostics s →
    Wf (target_add s' code path id) ∧ Grows s (target_add s' code path id) ∧
    (rs_diagnostics (target_add s' code path id) = [] → seen_as (target_add s' code path id) (id, kind))).
  { intros s' code W' Es' Ed'. assert (H := target_add_dirty s' code path id).
    split_and!; [by apply Wf_add| |done]. eapply Grows_trans; [|apply Grows_add].
    split; [by rewrite Es'|congruence|]. rewrite Es'. congruence. }
  destruct (valid_id id) eqn:Ev; simpl; [|by apply Hbad].
  destruct (target_lookup resolve id s) as [[l s']|e] eqn:El; simpl; [|done].
  destruct (Wf_lookup _ _ _ _ _ W HR El) as (W' & Es & Ed & Hl & ->).
  destruct (resolve id) as [r|[[]| | | | | | | |]] eqn:Er; simpl; try done; [|by apply Hbad].
  destruct (wrong_reference scope id kind r) as [code|] eqn:Ew; [by apply Hbad|].
  apply wrong_reference_None in Ew as (Hid & Hk & Hsc & Hen).
  destruct (bool_decide_reflect (is_Some (rs_seen s !! id))) as [[r' Hs]|Hn]; simpl.
  { split; [done|]. split; [split; [by rewrite Es|congruence|rewrite Es; congruence]|].
    intros _. exists r. rewrite Es. split; [|done].
    destruct (wf_seen s W _ _ Hs) as [_ (_ & Hr & _)]. simpl in *. congruence. }
  apply eq_None_not_Some in Hn.
  destruct (Resource_Validate r) eqn:Ev'; [by apply Hbad|].
  assert (Hn' : rs_seen s' !! id = None) by by rewrite Es.
  assert (Wa : Wf (rs_add s' id r)) by (apply Wf_rs_add; done).
  assert (Hsz : size (rs_seen (rs_add s' id r)) = S (size (rs_seen s))).
  { simpl. rewrite Es. by apply map_size_insert_None. }
  apply (safe_mono _ (λ t, Wf t ∧ Grows (rs_add s' id r) t ∧
    (rs_diagnostics t = [] → ∀ e, e ∈ (fst <$> target_edges path r) → seen_as t e))).
  - apply (safe_fold_prefix _ (λ done t, Wf t ∧ Grows (rs_add s' id r) t ∧
      (rs_diagnostics t = [] → ∀ e, e ∈ (fst <$> done) → seen_as t e))).
    { split_and!; [done|apply Grows_refl|]. intros _ e He. by apply elem_of_nil in He. }
    intros done_ [[id' kind'] path'] rest t Eq (Wt & Gt & Ht).
    assert (Hin : (id', kind') ∈ links_of r).
    { rewrite <-(links_of_path path r), Eq, fmap_app. set_solver. }
    eapply safe_mono; [apply (IH id' kind' path' t Wt)|].
    + eapply (Redge id kind r (id', kind')); done.
    + assert (size (rs_seen (rs_add s' id r)) ≤ size (rs_seen t))%nat; [|lia].
      rewrite <-!size_dom. apply subseteq_size, subseteq_dom, Gt.
    + intros u (Wu & Gu & Hu). split_and!; [done|by eapply Grows_trans|].
      intros Hd e. rewrite fmap_app, elem_of_app. intros [He|He].
      * eapply seen_as_mono; [apply Gu|]. apply Ht; [by apply Gu|done].
      * simpl in He. apply list_elem_of_singleton in He as ->. by apply Hu.
  - intros t (Wt & Gt & Ht). rewrite (links_of_path path r) in Ht.
    assert (Hs : rs_seen t !! id = Some r).
    { eapply lookup_weaken; [|apply Gt]. apply lookup_insert_eq. }
    split_and!; [done| |intros _; by exists r].
    destruct Gt as [G1 G2 G3]. split.
    + etrans; [|exact G1]. simpl. rewrite <-Es. by apply insert_subseteq.
    + intros Hd. rewrite <-Ed. by apply G2.
    + intros Hd j r' Hj Hnj e He. destruct (decide (j = id)) as [->|Hne].
      * assert (r' = r) as -> by congruence. by apply Ht.
      * eapply (G3 Hd); [exact Hj| |exact He]. simpl. rewrite lookup_insert_ne by done. by rewrite Es.
Qed.

(** ** Completeness *)
Section Complete.
Context (L : list ID) (HL : Z.of_nat (length L) ≤ MaxFrozenResources).
Context (RL : ∀ id kind, R id kind → id ∈ L).
Context (Rok : ∀ id kind, R id kind → ∃ r, usable id r ∧ md_Kind (r_Metadata r) = kind).

Lemma lookups_below id s :
  Wf s → id ∈ L → rs_lookups s !! id = None → Z.of_nat (size (rs_lookups s)) < MaxFrozenResources.
Proof.
  intros W Hid Hn. eapply Z.lt_le_trans; [|exact HL]. apply inj_lt.
  rewrite <-size_dom.
  assert (H : (size (dom (rs_lookups s)) < size (list_to_set L : gset ID))%nat).
  { apply subset_size. split.
    - intros j [l Hl]%elem_of_dom. apply (wf_look s W) in Hl as [_ [k Hk]].
      apply elem_of_list_to_set. by eapply RL.
    - intros Hsub. assert (id ∈ dom (rs_lookups s)) as H by (apply Hsub, elem_of_list_to_set, Hid).
      apply elem_of_dom in H as [? H]. congruence. }
  eapply Nat.lt_le_trans; [exact H|]. apply list_to_set_size.
Qed.

Lemma target_check_complete fuel id kind path s :
  Wf s → R id kind → rs_diagnostics s = [] →
  MaxFrozenResources < Z.of_nat (fuel + size (rs_seen s)) →
  returns (target_check scope resolve fuel id kind path s) (λ t, rs_diagnostics t = []).
Proof.
  revert id kind path s. induction fuel as [|fuel IH]; intros id kind path s W HR Hd Hf; simpl.
  { assert (H := Wf_seen_size s W). simpl in Hf. lia. }
  destruct (Rok _ _ HR) as (r & Hu & Hk). pose proof Hu as (Hv & Hr & Hid & Hsc & Hen & Hval).
  rewrite Hv. simpl.
  assert (∃ s', target_lookup resolve id s = Ok (Ok r, s')) as [s' El].
  { unfold target_lookup. destruct (rs_seen s !! id) as [r'|] eqn:Es.
    { destruct (wf_seen s W _ _ Es) as [_ (_ & Hr' & _)]. assert (r' = r) as -> by congruence. eauto. }
    destruct (rs_lookups s !! id) as [c|] eqn:El.
    { apply (wf_look s W) in El as [-> _]. rewrite Hr. eauto. }
    assert (H := lookups_below id s W (RL _ _ HR) El).
    destruct (Z.leb_spec MaxFrozenResources (Z.of_nat (size (rs_lookups s)))); [lia|].
    rewrite Hr. eauto. }
  rewrite El. simpl. destruct (Wf_lookup _ _ _ _ _ W HR El) as (W' & Es & Ed & Hl & _).
  assert (wrong_reference scope id kind r = None) as -> by by apply wrong_reference_None.
  destruct (bool_decide_reflect (is_Some (rs_seen s !! id))) as [_|Hn]; simpl; [congruence|].
  apply eq_None_not_Some in Hn. rewrite Hval.
  assert (Wa : Wf (rs_add s' id r)) by (apply Wf_rs_add; [done|by rewrite Es|done|done]).
  assert (Hsz : size (rs_seen (rs_add s' id r)) = S (size (rs_seen s))).
  { simpl. rewrite Es. by apply map_size_insert_None. }
  assert (HRe : ∀ e, e ∈ target_edges path r → R (fst (fst e)) (snd (fst e))).
  { intros [e p] He. eapply (Redge id kind r e); [done..|]. rewrite <-(links_of_path path r).
    apply list_elem_of_fmap. by exists (e, p). }
  apply (returns_mono _ (λ t, Wf t ∧ Grows (rs_add s' id r) t ∧ rs_diagnostics t = [])); [|by intros t (_ & _ & ?)].
  apply (returns_fold _ (λ t, Wf t ∧ Grows (rs_add s' id r) t ∧ rs_diagnostics t = [])).
  { split_and!; [done|apply Grows_refl|]. simpl. congruence. }
  intros i [[id' kind'] path'] t He (Wt & Gt & Ht). simpl.
  assert (Hsub : (size (rs_seen (rs_add s' id r)) ≤ size (rs_seen t))%nat).
  { rewrite <-!size_dom. apply subseteq_size, subseteq_dom, Gt. }
  assert (HR' : R id' kind') by apply (HRe _ He).
  eapply returns_mono; [apply returns_safe;
    [apply (IH id' kind' path' t)|apply (target_check_spec fuel id' kind' path' t)]; try done; lia|].
  intros u (Hdu & Wu & Gu & _). split_and!; [done|by eapply Grows_trans|done].
Qed.
End Complete.
End Closed.

Lemma Reaches_edge refs id kind r e :
  Reaches refs id kind → resolve id = Ok r → e ∈ links_of r → Reaches refs (fst e) (snd e).
Proof. apply reaches_edge. Qed.

Lemma Wf_start R : Wf R resolution_start.
Proof. split; simpl; try done; [set_solver|constructor]. Qed.

(** The loop over the references: what holds when nothing was reported. *)
Lemma target_refs_spec refs :
  safe (range_fold (λ _ ref s, target_check scope resolve resolution_fuel (ref_TargetID ref)
                                 (ref_ExpectedKind ref) (ref_Path ref) s) refs resolution_start)
    (λ t, Wf (Reaches refs) t ∧ Grows resolution_start t ∧
       (rs_diagnostics t = [] → ∀ ref, ref ∈ refs → seen_as t (ref_TargetID ref, ref_ExpectedKind ref))).
Proof.
  apply (safe_fold_prefix _ (λ done t, Wf (Reaches refs) t ∧ Grows resolution_start t ∧
    (rs_diagnostics t = [] → ∀ ref, ref ∈ done → seen_as t (ref_TargetID ref, ref_ExpectedKind ref)))).
  { split_and!; [apply Wf_start|apply Grows_refl|]. intros _ ref H. by apply elem_of_nil in H. }
  intros done_ ref rest t Eq (Wt & Gt & Ht).
  eapply safe_mono.
  - apply (target_check_spec _ (Reaches_edge refs)); [done| |unfold resolution_fuel; lia].
    apply reaches_ref. rewrite Eq. set_solver.
  - intros u (Wu & Gu & Hu). split_and!; [done|by eapply Grows_trans|].
    intros Hd ref'. rewrite elem_of_app. intros [H|H].
    + eapply seen_as_mono; [apply Gu|]. apply Ht; [by apply Gu|done].
    + apply list_elem_of_singleton in H as ->. by apply Hu.
Qed.

(** A resolution without diagnostics: everything the references reach is usable and of
    the expected kind, and it is listed once. *)
Lemma ResolveTargetReferences_sound refs rs :
  ResolveTargetReferences scope resolve refs = Ret rs →
  NoDup (rid <$> rs) ∧
  (∀ id kind, Reaches refs id kind → ∃ r, r ∈ rs ∧ usable id r ∧ md_Kind (r_Metadata r) = kind) ∧
  (∀ r, r ∈ rs → ∃ kind, Reaches refs (rid r) kind ∧ usable (rid r) r).
Proof.
  unfold ResolveTargetReferences. destruct (valid_id scope); simpl; [|done].
  assert (H := target_refs_spec refs). destruct (range_fold _ _ _) as [t|e|]; simpl in *; [|done..].
  destruct H as (W & [_ _ G3] & Ht). destruct (rs_diagnostics t) eqn:Ed; [|done]. intros [= <-].
  specialize (G3 eq_refl). specialize (Ht eq_refl).
  split; [by eapply wf_nodup|]. split.
  - assert (Hsa : ∀ id kind, Reaches refs id kind → seen_as t (id, kind)).
    { induction 1 as [ref Hr|id kind r [id' kind'] HR (r' & Hr' & _) Er He]; [by apply Ht|].
      destruct (wf_seen _ t W _ _ Hr') as [_ (_ & Er' & _)]. simpl in Er'.
      assert (r' = r) as -> by congruence. apply (G3 id r Hr'); [apply lookup_empty|done]. }
    intros id kind (r & Hr & Hk)%Hsa. exists r. destruct (wf_seen _ t W _ _ Hr) as [_ Hu].
    split_and!; [|done|done]. apply (wf_res _ t W). assert (rid r = id) as E by apply Hu. by rewrite E.
  - intros r Hr%(wf_res _ t W). destruct (wf_seen _ t W _ _ Hr) as [Hl Hu].
    destruct (wf_look _ t W _ _ Hl) as [_ [kind Hk]]. by exists kind.
Qed.

Lemma ResolveTargetReferences_total refs : ResolveTargetReferences scope resolve refs ≠ Panics.
Proof.
  unfold ResolveTargetReferences. destruct (valid_id scope); simpl; [|done].
  assert (H := target_refs_spec refs). destruct (range_fold _ _ _) as [t|e|]; simpl in *; [|done..].
  by destruct (rs_diagnostics t).
Qed.

(** Conversely nothing is reported when all of it is usable and fits the budget. *)
Lemma ResolveTargetReferences_ok refs L :
  valid_id scope = true → Z.of_nat (length L) ≤ MaxFrozenResources →
  (∀ id kind, Reaches refs id kind → id ∈ L ∧ ∃ r, usable id r ∧ md_Kind (r_Metadata r) = kind) →
  ∃ rs, ResolveTargetReferences scope resolve refs = Ret rs.
Proof.
  intros Hs HL Hok. unfold ResolveTargetReferences. rewrite Hs. simpl.
  assert (H : returns (range_fold (λ _ ref s, target_check scope resolve resolution_fuel (ref_TargetID ref)
                         (ref_ExpectedKind ref) (ref_Path ref) s) refs resolution_start)
                (λ t, Wf (Reaches refs) t ∧ rs_diagnostics t = [])).
  { apply returns_fold; [by split; [apply Wf_start|]|]. intros i ref t Hr (Wt & Hd).
    assert (HR := reaches_ref refs ref Hr).
    eapply returns_mono; [apply returns_safe|].
    - apply (target_check_complete _ (Reaches_edge refs) L HL); try done.
      + intros id kind HR'. by apply (Hok id kind).
      + intros id kind HR'. by apply (Hok id kind).
      + unfold resolution_fuel. lia.
    - apply (target_check_spec _ (Reaches_edge refs)); [done..|unfold resolution_fuel; lia].
    - intros u (Hu & Wu & _). done. }
  destruct (range_fold _ _ _) as [t|e|]; simpl in *; [|done..]. destruct H as [_ ->]. by eexists.
Qed.

(** ** Policy members *)

(** A live resource: found in the scope, enabled and valid. *)
Definition live (id : ID) (kind : ResourceKind) (r : Resource) : Prop :=
  resolve id = Ok r ∧ wrong_reference scope id kind r = None ∧ Resource_Validate r = None.

Record PolicyWf (s : Resolution) : Prop := {
  pw_seen : ∀ id r, rs_seen s !! id = Some r → resolve id = Ok r;
  pw_res : ∀ id r, rs_seen s !! id = Some r → r ∈ rs_resources s }.

(** Nothing is lost from [s] to [t]. *)
Definition keeps (s t : Resolution) : Prop :=
  (∀ r, r ∈ rs_resources s → r ∈ rs_resources t) ∧ (rs_diagnostics t = [] → rs_diagnostics s = []).

Lemma keeps_trans s t u : keeps s t → keeps t u → keeps s u.
Proof. unfold keeps. naive_solver. Qed.

Lemma policy_check_spec id kind path s x t :
  PolicyWf s → policy_check scope resolve id kind path s = Ok (x, t) →
  PolicyWf t ∧ keeps s t ∧
  match x with
  | Some r => live id kind r ∧ r ∈ rs_resources t
  | None => rs_diagnostics t ≠ []
  end.
Proof.
  intros [W1 W2]. unfold policy_check.
  assert (Hbad : ∀ code, PolicyWf (policy_add s code path id) ∧ keeps s (policy_add s code path id) ∧
    rs_diagnostics (policy_add s code path id) ≠ []).
  { intros code. assert (H : rs_diagnostics (policy_add s code path id) ≠ [])
      by (simpl; by destruct (rs_diagnostics s)). split_and!; [by split|by split|done]. }
  assert (Hf : (match rs_seen s !! id with Some r => Ok r | None => resolve id end) = resolve id).
  { destruct (rs_seen s !! id) as [r|] eqn:E; [symmetry; by apply W1|done]. }
  rewrite Hf. destruct (resolve id) as [r|[[]| | | | | | | |]] eqn:Er; try done;
    [|intros [= <- <-]; apply Hbad].
  destruct (wrong_reference scope id kind r) eqn:Ew; [intros [= <- <-]; apply Hbad|].
  destruct (Resource_Validate r) eqn:Ev; [intros [= <- <-]; apply Hbad|].
  intros [= <- <-]. destruct (rs_seen s !! id) as [r'|] eqn:Es.
  { assert (r' = r) as -> by (apply W1 in Es; congruence). split_and!; [by split|by split|done|by eapply W2]. }
  split_and!; [| |done|].
  - split; simpl; intros j r'; rewrite lookup_insert; case_decide; intros Hj.
    + simplify_eq. done.
    + by apply W1.
    + simplify_eq. set_solver.
    + apply W2 in Hj. set_solver.
  - split; simpl; [set_solver|done].
  - simpl. set_solver.
Qed.

(** What the members need: each live, and the hops of those that are chains. *)
Definition member_live (rs : list Resource) (member : TargetRef) : Prop :=
  ∃ r, r ∈ rs ∧ live (tr_ResourceID member) (tr_Kind member) r ∧
    ∀ chain hop, r_Payload r = Payload_Chain chain → hop ∈ ch_Hops chain →
      ∃ r', r' ∈ rs ∧ live (nr_NodeID hop) KindNode r'.

Lemma policy_hops_spec path hops s :
  PolicyWf s →
  safe (policy_hops scope resolve path hops s) (λ t, PolicyWf t ∧ keeps s t ∧
    (rs_diagnostics t = [] → ∀ hop, hop ∈ hops →
       ∃ r', r' ∈ rs_resources t ∧ live (nr_NodeID hop) KindNode r')).
Proof.
  intros W. apply (safe_fold_prefix _ (λ done t, PolicyWf t ∧ keeps s t ∧
    (rs_diagnostics t = [] → ∀ hop, hop ∈ done →
       ∃ r', r' ∈ rs_resources t ∧ live (nr_NodeID hop) KindNode r'))).
  { split_and!; [done|by split|]. intros _ hop H. by apply elem_of_nil in H. }
  intros done_ hop rest t _ (Wt & Kt & Ht). apply (safe_bind _ _ (λ y, ∃ path', policy_check scope resolve
    (nr_NodeID hop) KindNode path' t = Ok y)); [apply safe_lift; eauto|].
  intros [x u] [path' E]. simpl. apply (policy_check_spec _ _ _ _ _ _ Wt) in E as (Wu & Ku & Hx).
  split_and!; [done|by eapply keeps_trans|]. intros Hd hop'. rewrite elem_of_app, list_elem_of_singleton.
  intros [H| ->].
  - apply (Ht (proj2 Ku Hd)) in H as (r' & Hr' & ?). exists r'. split; [by apply Ku|done].
  - destruct x as [r|]; [|done]. exists r. by destruct Hx.
Qed.

(** A group that resolves has live members only, down to the hops of its chains. *)
Lemma ResolvePolicyMembers_sound group rs :
  ResolvePolicyMembers scope resolve group = Ret rs →
  PolicyGroup_Validate group = None ∧ ∀ member, member ∈ pg_Members group → member_live rs member.
Proof.
  unfold ResolvePolicyMembers. destruct (valid_id scope); simpl; [|done].
  destruct (PolicyGroup_Validate group) eqn:Ev; [done|].
  assert (H : safe (range_fold (policy_member scope resolve) (pg_Members group) resolution_start) (λ t,
    PolicyWf t ∧ (rs_diagnostics t = [] → ∀ member, member ∈ pg_Members group →
      member_live (rs_resources t) member))).
  { apply (safe_fold_prefix _ (λ done t, PolicyWf t ∧ (rs_diagnostics t = [] → ∀ member, member ∈ done →
      member_live (rs_resources t) member))).
    { split; [by split|]. intros _ member H. by apply elem_of_nil in H. }
    intros done_ member rest t _ (Wt & Ht).
    assert (Hmono : ∀ u, keeps t u → rs_diagnostics u = [] → ∀ member, member ∈ done_ →
      member_live (rs_resources u) member).
    { intros u Ku Hd m Hm. destruct (Ht (proj2 Ku Hd) m Hm) as (r & Hr & Hl & Hh).
      exists r. split; [by apply Ku|]. split; [done|]. intros chain hop Hc Hin.
      destruct (Hh chain hop Hc Hin) as (r' & ? & ?). exists r'. split; [by apply Ku|done]. }
    unfold policy_member. apply (safe_bind _ _ (λ y, ∃ path', policy_check scope resolve
      (tr_ResourceID member) (tr_Kind member) path' t = Ok y)); [apply safe_lift; eauto|].
    intros [x u] [path' E]. apply (policy_check_spec _ _ _ _ _ _ Wt) in E as (Wu & Ku & Hx). cbn [fst snd].
    assert (Hplain : ∀ r, x = Some r → (∀ chain, r_Payload r ≠ Payload_Chain chain) →
      PolicyWf u ∧ (rs_diagnostics u = [] → ∀ m, m ∈ done_ ++ [member] → member_live (rs_resources u) m)).
    { intros r -> Hn. split; [done|]. intros Hd m. rewrite elem_of_app, list_elem_of_singleton.
      intros [Hm| ->]; [by apply Hmono|]. destruct Hx. exists r. split_and!; [done..|].
      intros chain hop Hc. by apply Hn in Hc. }
    destruct x as [r|]; [|by split; [|intros Hd; rewrite Hd in Hx]].
    destruct (r_Payload r) as [| |n|chain| | | | | |] eqn:Ep;
      try (apply (Hplain r eq_refl); intros; congruence).
    destruct Hx as [Hl Hr]. eapply safe_mono; [by apply policy_hops_spec|]. intros v (Wv & Kv & Hv).
    split; [done|]. intros Hd m. rewrite elem_of_app, list_elem_of_singleton.
    intros [Hm| ->]; [apply Hmono; [by eapply keeps_trans|done..]|].
    exists r. split; [by apply Kv|]. split; [done|]. intros chain' hop Hc Hin.
    assert (chain' = chain) as -> by congruence. by apply Hv. }
  destruct (range_fold _ _ _) as [t|e|]; simpl in *; [|done..]. destruct H as [_ H].
  destruct (rs_diagnostics t); [|done]. intros [= <-]. split; [done|]. by apply H.
Qed.

(** The rule sets of a DNS profile that resolves hold domains only. *)
Lemma ResolveDNSReferences_sound profile rs :
  ResolveDNSReferences scope resolve profile = Ret rs →
  DNSProfile_Validate profile = None ∧
  ResolveTargetReferences scope resolve (DNSReferences profile) = Ret rs ∧
  ∀ ref r, ref ∈ DNSReferences profile → resolve (ref_TargetID ref) = Ok r → cidr_set r = false.
Proof.
  unfold ResolveDNSReferences. destruct (DNSProfile_Validate profile); [done|]. cbv zeta.
  destruct (ResolveTargetReferences scope resolve (DNSReferences profile)) as [rs'|e|] eqn:E; [|done..].
  destruct (omap _ _) eqn:Eo; [|done]. intros [= ->]. split; [done|]. split; [done|].
  intros ref r Hin Hr. apply ResolveTargetReferences_sound in E as (_ & H & _).
  destruct (H _ _ (reaches_ref _ _ Hin)) as (r' & Hr' & (_ & E' & Hid & _) & _).
  assert (r' = r) as -> by congruence. destruct (cidr_set r) eqn:Ec; [|done]. exfalso.
  assert (Hmem : ref_TargetID ref ∈ ((λ r, md_ResourceID (r_Metadata r)) <$> filter (λ r, cidr_set r) rs)).
  { apply list_elem_of_fmap. exists r. split; [done|]. apply list_elem_of_filter. by rewrite Ec. }
  assert (Hs : issue_at InvalidValue (ref_Path ref) (ref_TargetID ref) ∈ ([] : Diagnostics)).
  { rewrite <-Eo. apply list_elem_of_omap. exists ref. split; [done|]. by rewrite bool_decide_eq_true_2. }
  by apply elem_of_nil in Hs.
Qed.
End ResolveFacts.
