(* ===== verification/Secretbox.v ===== *)
(** Envelope encryption of stored records ([internal/secretbox]): a fresh data key for
    every payload, wrapped by a master key, both bound to the record by the additional
    data; content digests with HMAC-SHA-256.

    [Vault] is what the storage relies on; [secretbox_vault] discharges it. *)
From S2P Require Import Prelude Diagnostics IRTypes IRValidate Hashes.

(** [secretbox.Context]. *)
Record Context_ := {
  cx_ScopeID : ID; cx_Table : string; cx_ObjectID : ID; cx_Revision : Z; cx_SchemaVersion : Z }.

Definition KeySize : nat := 32.
Definition MaxKeys : nat := 16.
Definition MaxKeyIDBytes : nat := 64.
Definition MaxPlaintextBytes : Z := 16777216.
Definition MaxDigestBytes : Z := MaxPlaintextBytes.
Definition PayloadVersion : Z := 1.
Definition WrappingVersion : Z := 1.

Definition PurposeCompileInput := "compile_input".
Definition PurposeCompileOutput := "compile_output".
Definition PurposePreview := "publication_preview".
Definition PurposeResourceContent := "resource_content".
Definition PurposeIdempotency := "idempotency".
Definition PurposeCursor := "cursor".
Definition PurposeNodeIdentity := "node_identity".
Definition PurposeImportConnection := "import_connection".
Definition PurposeImportCommit := "import_commit".

Definition TableResourceRevisions := "resource_revisions".
Definition TableSourceSnapshots := "source_snapshots".
Definition TableSourceItems := "source_items".
Definition TableNodeBindings := "node_bindings".
Definition TableImportBatches := "import_batches".
Definition TableImportItems := "import_items".
Definition TableImportCandidates := "import_candidates".
Definition TableSystemSettings := "system_settings".
Definition TableTestTargets := "test_targets".
Definition TableCompatibilityEvidence := "compatibility_evidence".
Definition TableCompileBatches := "compile_batches".
Definition TableCompileOutputs := "compile_outputs".
Definition TableJobs := "jobs".

Definition nonceSize : nat := 12.
Definition tagSize : nat := 16.

Inductive box_error := ErrKeyring | ErrSeal | ErrOpen | ErrDigest.

(** ** What the storage relies on

    Sealing draws from a random source, here a number that tells the draws apart.
    [vault_Digest] and [vault_Mac] are [Digest] of a record and of another text. *)
Class Vault (Plain : Type) := {
  Sealed : Type;
  Wrapped : Type;
  sealed_size : Sealed → Z;
  wrapped_size : Wrapped → Z;
  vault_Seal : nat → Context_ → Plain → option (Sealed * Wrapped);
  vault_Open : Context_ → Sealed → Wrapped → option Plain;
  vault_Rewrap : nat → Context_ → Sealed → Wrapped → option Wrapped;
  vault_Digest : string → Plain → option string;
  vault_Mac : string → string → option string }.

Class VaultLaws (Plain : Type) `{!Vault Plain} : Prop := {
  Open_Seal : ∀ n c p s w, vault_Seal n c p = Some (s, w) → vault_Open c s w = Some p;
  Open_Rewrap : ∀ n c s w w', vault_Rewrap n c s w = Some w' →
    is_Some (vault_Open c s w) ∧ vault_Open c s w' = vault_Open c s w }.

(** ** Bytes *)

Section Bytes.
Local Open Scope N_scope.

(** [binary.BigEndian], in [k] bytes. *)
Fixpoint be (k : nat) (n : N) : list N :=
  match k with
  | O => []
  | S k => be k (n / 256) ++ [n mod 256]
  end.

Lemma be_length k n : length (be k n) = k.
Proof. revert n. induction k as [|k IH]; intros n; simpl; [done|]. rewrite length_app, IH. simpl. lia. Qed.

Lemma be_inj k m n : m < 256 ^ N.of_nat k → n < 256 ^ N.of_nat k → be k m = be k n → m = n.
Proof.
  revert m n. induction k as [|k IH]; intros m n Hm Hn.
  { simpl in *. intros _. change (256 ^ 0) with 1 in *. lia. }
  cbn [be]. rewrite Nat2N.inj_succ, N.pow_succ_r' in Hm, Hn.
  intros [E1 E2]%app_inj_2; [|done]. injection E2 as E2.
  apply IH in E1; [|apply N.Div0.div_lt_upper_bound; lia..].
  rewrite (N.div_mod m 256), (N.div_mod n 256), E1, E2; done.
Qed.
End Bytes.

(** [hmac.New(sha256.New, key)] over [data]. *)
Definition hmac_pad (x : N) (key : list N) : list N :=
  let key := if Nat.ltb 64 (length key) then Sum256 key else key in
  N.lxor x <$> (key ++ replicate (64 - length key) 0%N).
Definition HMAC (key data : list N) : list N :=
  Sum256 (hmac_pad 0x5c key ++ Sum256 (hmac_pad 0x36 key ++ data)).

Definition appendField (dst : list N) (field : string) : list N :=
  dst ++ be 4 (N.of_nat (String.length field)) ++ bytes_of_string field.

(** ** The box *)

Record Payload := { pl_Version : Z; pl_Nonce : list N; pl_Ciphertext : list N }.
Record Wrapping := {
  wp_Version : Z; wp_KeyID : string; wp_Nonce : list N; wp_Ciphertext : list N }.

Record Box := {
  box_activeKeyID : string; box_keys : gmap string (list N); box_contentKey : list N }.

Definition valid_key_char (c : ascii) : bool :=
  let n := N_of_ascii c in
  ((97 <=? n) && (n <=? 122) || (65 <=? n) && (n <=? 90) || (48 <=? n) && (n <=? 57)
   || (n =? 95) || (n =? 45))%N.
Definition validKeyID (id : string) : bool :=
  negb (Nat.eqb (String.length id) 0) && negb (Nat.ltb MaxKeyIDBytes (String.length id))
  && all_chars valid_key_char id.

(** [New]: the map is visited in any order, and every visit asks the same of a key. *)
Definition New (activeKeyID : string) (keys : gmap string (list N)) (contentHMACKey : list N)
    : result box_error Box :=
  if negb (validKeyID activeKeyID) || Nat.eqb (size keys) 0 || Nat.ltb MaxKeys (size keys)
     || negb (Nat.eqb (length contentHMACKey) KeySize) then Err ErrKeyring
  else if negb (bool_decide (is_Some (keys !! activeKeyID))) then Err ErrKeyring
  else if existsb (λ ik,
       negb (validKeyID (fst ik)) || negb (Nat.eqb (length (snd ik)) KeySize)
       || bool_decide (snd ik = contentHMACKey)
       || existsb (λ jo, negb (fst ik =s fst jo) && bool_decide (snd ik = snd jo)) (map_to_list keys))
     (map_to_list keys) then Err ErrKeyring
  else Ok {| box_activeKeyID := activeKeyID; box_keys := keys; box_contentKey := contentHMACKey |}.

Definition ready (b : Box) : bool := bool_decide (is_Some (box_keys b !! box_activeKeyID b)).

(** AES-GCM with its 16-byte tag, and the random source: the [i]-th read of a call,
    [n] bytes or an error. *)
Class Primitives := {
  gcm_Seal : list N → list N → list N → list N → list N;
  gcm_Open : list N → list N → list N → list N → option (list N);
  random : nat → nat → nat → option (list N) }.

Class PrimitivesLaws `{!Primitives} : Prop := {
  gcm_Open_exact : ∀ key nonce ct plain aad,
    gcm_Open key nonce ct aad = Some plain ↔ ct = gcm_Seal key nonce plain aad;
  gcm_Seal_length : ∀ key nonce plain aad,
    length (gcm_Seal key nonce plain aad) = (length plain + tagSize)%nat;
  random_length : ∀ call i n bytes, random call i n = Some bytes → length bytes = n }.

Section Box.
Context {P : Platform} {G : Primitives}.

Definition known_table (table : string) : bool :=
  existsb (λ t, t =s table)
    [TableResourceRevisions; TableSourceSnapshots; TableSourceItems; TableNodeBindings;
     TableImportBatches; TableImportItems; TableImportCandidates; TableSystemSettings;
     TableTestTargets; TableCompatibilityEvidence; TableCompileBatches; TableCompileOutputs;
     TableJobs].
Definition validContext (ctx : Context_) : bool :=
  if negb (Nat.eqb (String.length (cx_ScopeID ctx)) 36) || negb (Nat.eqb (String.length (cx_ObjectID ctx)) 36)
     || (cx_Revision ctx <=? 0) || (cx_SchemaVersion ctx <=? 0) || (2147483647 <? cx_SchemaVersion ctx)
  then false
  else known_table (cx_Table ctx) && valid_id (cx_ScopeID ctx) && valid_id (cx_ObjectID ctx).

Definition validPurpose (purpose : string) : bool :=
  existsb (λ p, p =s purpose)
    [PurposeCompileInput; PurposeCompileOutput; PurposePreview; PurposeResourceContent;
     PurposeIdempotency; PurposeCursor; PurposeNodeIdentity; PurposeImportConnection;
     PurposeImportCommit].

(** Conversions to an unsigned width. *)
Definition uint32 (n : Z) : N := Z.to_N (n mod 4294967296).
Definition uint64 (n : Z) : N := Z.to_N (n mod 18446744073709551616).

Definition nul : string := String "000" "".
Definition contextAAD (ctx : Context_) (purpose : string) (version : Z) : list N :=
  let aad := appendField (bytes_of_string ("proxyloom.secretbox.aad" +:+ nul)) purpose in
  let aad := aad ++ be 4 (uint32 version) in
  let aad := appendField aad (cx_ScopeID ctx) in
  let aad := appendField aad (cx_Table ctx) in
  let aad := appendField aad (cx_ObjectID ctx) in
  let aad := aad ++ be 8 (uint64 (cx_Revision ctx)) in
  aad ++ be 4 (uint32 (cx_SchemaVersion ctx)).

Definition wrappingAAD (ctx : Context_) (p : Payload) (version : Z) (keyID : string) : list N :=
  appendField (contextAAD ctx "dek" version) keyID ++
  Sum256 (be 4 (uint32 (pl_Version p)) ++ pl_Nonce p ++ pl_Ciphertext p).

(** [aes.NewCipher] takes keys of 16, 24 and 32 bytes. *)
Definition newGCM (key : list N) : option (list N) :=
  if existsb (Nat.eqb (length key)) [16; 24; 32]%nat then Some key else None.

(** [wrap], whose nonce is read [i]-th. *)
Definition wrap (call i : nat) (b : Box) (ctx : Context_) (p : Payload) (dek : list N)
    : option Wrapping :=
  gcm ← newGCM (default (replicate KeySize 0%N) (box_keys b !! box_activeKeyID b));
  nonce ← random call i nonceSize;
  Some {| wp_Version := WrappingVersion; wp_KeyID := box_activeKeyID b; wp_Nonce := nonce;
          wp_Ciphertext := gcm_Seal gcm nonce dek
                             (wrappingAAD ctx p WrappingVersion (box_activeKeyID b)) |}.

Definition unwrap (b : Box) (ctx : Context_) (p : Payload) (w : Wrapping) : option (list N) :=
  if negb (ready b) || negb (validContext ctx) || negb (pl_Version p =? PayloadVersion)
     || negb (wp_Version w =? WrappingVersion) || negb (Nat.eqb (length (pl_Nonce p)) nonceSize)
     || Nat.ltb (length (pl_Ciphertext p)) tagSize
     || (MaxPlaintextBytes + Z.of_nat tagSize <? Z.of_nat (length (pl_Ciphertext p)))
     || negb (validKeyID (wp_KeyID w)) || negb (Nat.eqb (length (wp_Nonce w)) nonceSize)
     || negb (Nat.eqb (length (wp_Ciphertext w)) (KeySize + tagSize))
  then None
  else
    key ← box_keys b !! wp_KeyID w;
    gcm ← newGCM key;
    gcm_Open gcm (wp_Nonce w) (wp_Ciphertext w) (wrappingAAD ctx p (wp_Version w) (wp_KeyID w)).

Definition openPayload (ctx : Context_) (p : Payload) (dek : list N) : option (list N) :=
  gcm ← newGCM dek;
  gcm_Open gcm (pl_Nonce p) (pl_Ciphertext p) (contextAAD ctx "payload" PayloadVersion).

Definition Seal (call : nat) (b : Box) (ctx : Context_) (plaintext : list N)
    : result box_error (Payload * Wrapping) :=
  if negb (ready b) || negb (validContext ctx)
     || (MaxPlaintextBytes <? Z.of_nat (length plaintext)) then Err ErrSeal
  else
    match (dek ← random call 0 KeySize;
           gcm ← newGCM dek;
           nonce ← random call 1 nonceSize;
           let p := {| pl_Version := PayloadVersion; pl_Nonce := nonce;
                       pl_Ciphertext := gcm_Seal gcm nonce plaintext
                                          (contextAAD ctx "payload" PayloadVersion) |} in
           w ← wrap call 2 b ctx p dek;
           Some (p, w)) with
    | Some pw => Ok pw
    | None => Err ErrSeal
    end.

Definition Open (b : Box) (ctx : Context_) (p : Payload) (w : Wrapping) : result box_error (list N) :=
  match (dek ← unwrap b ctx p w; openPayload ctx p dek) with
  | Some plain => Ok plain
  | None => Err ErrOpen
  end.

Definition Rewrap (call : nat) (b : Box) (ctx : Context_) (p : Payload) (w : Wrapping)
    : result box_error Wrapping :=
  match (dek ← unwrap b ctx p w;
         _ ← openPayload ctx p dek;
         wrap call 0 b ctx p dek) with
  | Some next => Ok next
  | None => Err ErrOpen
  end.

Definition digest_frame (purpose : string) (data : list N) : list N :=
  appendField (bytes_of_string ("proxyloom.secretbox.hmac" +:+ nul +:+ "v1" +:+ nul)) purpose ++
  be 8 (N.of_nat (length data)) ++ data.
Definition Digest (b : Box) (purpose : string) (data : list N) : result box_error (list N) :=
  if negb (ready b) || negb (validPurpose purpose) || (MaxDigestBytes <? Z.of_nat (length data))
  then Err ErrDigest
  else Ok (HMAC (box_contentKey b) (digest_frame purpose data)).
End Box.

(** [base64.StdEncoding.EncodedLen], and the lengths of the JSON documents that are
    stored: names, digits and Base64 text need no escapes. *)
Definition EncodedLen (n : nat) : Z := 4 * ((Z.of_nat n + 2) / 3).
Definition payload_size (p : Payload) : Z :=
  39 + Z.of_nat (String.length (Itoa (pl_Version p))) + EncodedLen (length (pl_Nonce p))
  + EncodedLen (length (pl_Ciphertext p)).
Definition wrapping_size (w : Wrapping) : Z :=
  51 + Z.of_nat (String.length (Itoa (wp_Version w))) + Z.of_nat (String.length (wp_KeyID w))
  + EncodedLen (length (wp_Nonce w)) + EncodedLen (length (wp_Ciphertext w)).

#[export] Instance Payload_eq_dec : EqDecision Payload.
Proof. solve_decision. Defined.
#[export] Instance Wrapping_eq_dec : EqDecision Wrapping.
Proof. solve_decision. Defined.

Definition ok_value {E A} (r : result E A) : option A :=
  match r with Ok a => Some a | Err _ => None end.
Definition digest_text (r : result box_error (list N)) : option string :=
  (λ d, String.string_of_list_ascii (ascii_of_N <$> d)) <$> ok_value r.
Definition secretbox_vault {P : Platform} {G : Primitives} (b : Box) : Vault (list N) := {|
  Sealed := Payload; Wrapped := Wrapping;
  sealed_size := payload_size; wrapped_size := wrapping_size;
  vault_Seal call c plain := ok_value (Seal call b c plain);
  vault_Open c p w := ok_value (Open b c p w);
  vault_Rewrap call c p w := ok_value (Rewrap call b c p w);
  vault_Digest purpose plain := digest_text (Digest b purpose plain);
  vault_Mac purpose text := digest_text (Digest b purpose (bytes_of_string text)) |}.

(** ** Encodings are injective *)

Lemma bytes_of_string_inj s t : bytes_of_string s = bytes_of_string t → s = t.
Proof.
  unfold bytes_of_string. intros E.
  assert (String.list_ascii_of_string s = String.list_ascii_of_string t) as E'.
  { eapply list_fmap_eq_inj; [|exact E]. intros a b Hab.
    by rewrite <-(ascii_N_embedding a), Hab, ascii_N_embedding. }
  rewrite <-(String.string_of_list_ascii_of_string s), E'.
  apply String.string_of_list_ascii_of_string.
Qed.

Lemma bytes_of_string_length s : length (bytes_of_string s) = String.length s.
Proof. unfold bytes_of_string. rewrite length_fmap. induction s; simpl; auto. Qed.

Definition short (s : string) : Prop := (N.of_nat (String.length s) < 4294967296)%N.

(** Two equal texts with equally long starts: the starts and the rests are equal. *)
Lemma app_cut {A} (a b x y : list A) : length a = length b → a ++ x = b ++ y → a = b ∧ x = y.
Proof. intros Hl E. by apply app_inj_1. Qed.

Definition field (f : string) : list N := be 4 (N.of_nat (String.length f)) ++ bytes_of_string f.

Lemma field_cut f f' r r' :
  short f → short f' → field f ++ r = field f' ++ r' → f = f' ∧ r = r'.
Proof.
  unfold field. intros Hf Hf'. rewrite <-!app_assoc.
  intros [E1 E]%app_cut; [|by rewrite !be_length].
  apply be_inj in E1; [|exact Hf|exact Hf'].
  apply app_cut in E as [E2 E]; [|rewrite !bytes_of_string_length; lia].
  split; [by apply bytes_of_string_inj|done].
Qed.

Lemma uint32_inj m n : 0 ≤ m < 4294967296 → 0 ≤ n < 4294967296 → uint32 m = uint32 n → m = n.
Proof. unfold uint32. intros Hm Hn. rewrite !Z.mod_small by done. lia. Qed.
Lemma uint64_inj m n :
  0 ≤ m < 18446744073709551616 → 0 ≤ n < 18446744073709551616 → uint64 m = uint64 n → m = n.
Proof. unfold uint64. intros Hm Hn. rewrite !Z.mod_small by done. lia. Qed.
Lemma uint32_bound n : (uint32 n < 256 ^ N.of_nat 4)%N.
Proof. unfold uint32. change (256 ^ N.of_nat 4)%N with 4294967296%N. assert (H := Z.mod_pos_bound n 4294967296). lia. Qed.
Lemma uint64_bound n : (uint64 n < 256 ^ N.of_nat 8)%N.
Proof.
  unfold uint64. change (256 ^ N.of_nat 8)%N with 18446744073709551616%N.
  assert (H := Z.mod_pos_bound n 18446744073709551616). lia.
Qed.

Section BoxFacts.
Context {P : Platform} {G : Primitives}.

Lemma known_table_short table : known_table table = true → short table.
Proof.
  unfold known_table. rewrite existsb_exists. intros (t & Ht & ->%String.eqb_eq).
  apply list_elem_of_In in Ht. by repeat (apply elem_of_cons in Ht as [-> | Ht]; [by vm_compute|]); apply elem_of_nil in Ht.
Qed.

Lemma validContext_fields ctx :
  validContext ctx = true →
  short (cx_ScopeID ctx) ∧ short (cx_Table ctx) ∧ short (cx_ObjectID ctx) ∧
  0 < cx_Revision ctx ∧ 0 < cx_SchemaVersion ctx ≤ 2147483647.
Proof.
  unfold validContext. destruct (Nat.eqb_spec (String.length (cx_ScopeID ctx)) 36) as [E1|]; [|done].
  destruct (Nat.eqb_spec (String.length (cx_ObjectID ctx)) 36) as [E2|]; [|done].
  destruct (Z.leb_spec (cx_Revision ctx) 0); [done|].
  destruct (Z.leb_spec (cx_SchemaVersion ctx) 0); [done|].
  destruct (Z.ltb_spec 2147483647 (cx_SchemaVersion ctx)); [done|]. simpl.
  rewrite !andb_true_iff. intros [[Ht _] _]. unfold short. rewrite E1, E2.
  split_and!; [done|by apply known_table_short|done|lia..].
Qed.

(** The additional data of a record determines it: scope, table, object, revision and
    schema version. *)
Lemma contextAAD_inj ctx ctx' purpose version r r' :
  validContext ctx = true → validContext ctx' = true →
  cx_Revision ctx < 9223372036854775808 → cx_Revision ctx' < 9223372036854775808 →
  contextAAD ctx purpose version ++ r = contextAAD ctx' purpose version ++ r' →
  ctx = ctx' ∧ r = r'.
Proof.
  intros (S1 & S2 & S3 & Hr & Hs)%validContext_fields (T1 & T2 & T3 & Hr' & Hs')%validContext_fields B B'.
  assert (Eq : ∀ c, contextAAD c purpose version =
    (appendField (bytes_of_string ("proxyloom.secretbox.aad" +:+ nul)) purpose ++ be 4 (uint32 version)) ++
    field (cx_ScopeID c) ++ field (cx_Table c) ++ field (cx_ObjectID c) ++
    be 8 (uint64 (cx_Revision c)) ++ be 4 (uint32 (cx_SchemaVersion c))).
  { intros c. unfold contextAAD. cbv zeta. generalize (appendField (bytes_of_string ("proxyloom.secretbox.aad" +:+ nul)) purpose).
    intros h. unfold appendField, field. by rewrite <-!app_assoc. }
  rewrite !Eq. generalize (appendField (bytes_of_string ("proxyloom.secretbox.aad" +:+ nul)) purpose
    ++ be 4 (uint32 version)) as head. intros head. rewrite <-!app_assoc. intros [_ E]%app_cut; [|done].
  apply field_cut in E as [E1 E]; [|done..]. apply field_cut in E as [E2 E]; [|done..].
  apply field_cut in E as [E3 E]; [|done..].
  apply app_cut in E as [E4 E]; [|by rewrite !be_length].
  apply app_cut in E as [E5 E]; [|by rewrite !be_length].
  apply be_inj in E4; [|apply uint64_bound..]. apply uint64_inj in E4; [|lia..].
  apply be_inj in E5; [|apply uint32_bound..]. apply uint32_inj in E5; [|lia..].
  split; [|done]. destruct ctx, ctx'; simpl in *; congruence.
Qed.

Lemma digest_frame_inj purpose purpose' data data' :
  validPurpose purpose = true → validPurpose purpose' = true →
  Z.of_nat (length data) ≤ MaxDigestBytes → Z.of_nat (length data') ≤ MaxDigestBytes →
  digest_frame purpose data = digest_frame purpose' data' → purpose = purpose' ∧ data = data'.
Proof.
  assert (Hp : ∀ p, validPurpose p = true → short p).
  { intros p. unfold validPurpose. rewrite existsb_exists. intros (t & Ht & ->%String.eqb_eq).
    apply list_elem_of_In in Ht.
    by repeat (apply elem_of_cons in Ht as [-> | Ht]; [by vm_compute|]); apply elem_of_nil in Ht. }
  unfold digest_frame, MaxDigestBytes, MaxPlaintextBytes. intros V%Hp V'%Hp L L'.
  assert (Eq : ∀ d f r, appendField d f ++ r = d ++ field f ++ r).
  { intros d f r. unfold appendField, field. by rewrite <-!app_assoc. }
  rewrite !Eq. intros [_ E]%app_cut; [|done]. apply field_cut in E as [-> E]; [|done..].
  apply app_cut in E as [_ ->]; [done|by rewrite !be_length].
Qed.

(** A box that [New] made: its active key is present, and every key has 32 bytes and
    an identifier that may be stored. *)
Definition BoxOk (b : Box) : Prop :=
  ready b = true ∧ ∀ id key, box_keys b !! id = Some key → validKeyID id = true ∧ length key = KeySize.

Lemma New_Ok active keys contentKey b :
  New active keys contentKey = Ok b →
  BoxOk b ∧ box_activeKeyID b = active ∧ box_keys b = keys ∧
  (∀ id key, keys !! id = Some key → key ≠ contentKey) ∧
  (∀ i j k, keys !! i = Some k → keys !! j = Some k → i = j).
Proof.
  unfold New. destruct (_ || _); [done|].
  destruct (bool_decide_reflect (is_Some (keys !! active))) as [Ha|]; [|done]. simpl.
  destruct (existsb _ _) eqn:Ex; [done|]. intros [= <-].
  assert (H : ∀ id key, keys !! id = Some key →
    validKeyID id = true ∧ length key = KeySize ∧ key ≠ contentKey ∧
    ∀ j, keys !! j = Some key → id = j).
  { intros id key Hk. assert (Hf := proj2 (not_true_iff_false _) Ex).
    assert (Hin : In (id, key) (map_to_list keys)) by by apply list_elem_of_In, elem_of_map_to_list.
    match type of Ex with existsb ?f _ = false => assert (Hn : f (id, key) = false) end.
    { apply not_true_iff_false. intros E. apply Hf. apply existsb_exists. by exists (id, key). }
    simpl in Hn. rewrite !orb_false_iff, !negb_false_iff in Hn. destruct Hn as [[[H1 H2] H3] H4].
    apply Nat.eqb_eq in H2. apply bool_decide_eq_false in H3. split_and!; [done..|].
    intros j Hj. destruct (String.eqb_spec id j) as [|Hne]; [done|]. exfalso.
    apply not_true_iff_false in H4. apply H4. apply existsb_exists. exists (j, key).
    split; [by apply list_elem_of_In, elem_of_map_to_list|]. simpl.
    apply String.eqb_neq in Hne. rewrite Hne, bool_decide_eq_true_2; done. }
  split_and!; simpl; try done.
  - split; [by apply bool_decide_eq_true_2|]. simpl. intros id key Hk. by destruct (H id key Hk) as (? & ? & _).
  - intros id key Hk. by apply (H id key).
  - intros i j k Hi Hj. by apply (H i k).
Qed.

Section Laws.
Context {GL : PrimitivesLaws}.

Lemma gcm_Open_Seal key nonce plain aad :
  gcm_Open key nonce (gcm_Seal key nonce plain aad) aad = Some plain.
Proof. by apply gcm_Open_exact. Qed.

Lemma newGCM_key key : length key = KeySize → newGCM key = Some key.
Proof. unfold newGCM. by intros ->. Qed.

(** What a sealed record is made of. *)
Record Sealed_ (b : Box) (ctx : Context_) (plain : list N) (p : Payload) (w : Wrapping) (dek key : list N) : Prop := {
  se_dek : length dek = KeySize;
  se_key : box_keys b !! wp_KeyID w = Some key;
  se_active : wp_KeyID w = box_activeKeyID b;
  se_versions : pl_Version p = PayloadVersion ∧ wp_Version w = WrappingVersion;
  se_nonces : length (pl_Nonce p) = nonceSize ∧ length (wp_Nonce w) = nonceSize;
  se_payload : pl_Ciphertext p = gcm_Seal dek (pl_Nonce p) plain (contextAAD ctx "payload" PayloadVersion);
  se_wrap : wp_Ciphertext w = gcm_Seal key (wp_Nonce w) dek (wrappingAAD ctx p WrappingVersion (wp_KeyID w)) }.

Lemma wrap_Some call i b ctx p dek w :
  BoxOk b → wrap call i b ctx p dek = Some w →
  ∃ key, box_keys b !! box_activeKeyID b = Some key ∧ length key = KeySize ∧
    wp_Version w = WrappingVersion ∧ wp_KeyID w = box_activeKeyID b ∧ length (wp_Nonce w) = nonceSize ∧
    wp_Ciphertext w = gcm_Seal key (wp_Nonce w) dek (wrappingAAD ctx p WrappingVersion (wp_KeyID w)).
Proof.
  intros [[key Hk]%bool_decide_eq_true Hb]. destruct (Hb _ _ Hk) as [_ Hl].
  unfold wrap. rewrite Hk. simpl. rewrite (newGCM_key _ Hl). simpl.
  destruct (random call i nonceSize) eqn:Er; simpl; [|done]. intros [= <-]. exists key. simpl.
  apply random_length in Er. done.
Qed.

Lemma Seal_Ok call b ctx plain p w :
  BoxOk b → Seal call b ctx plain = Ok (p, w) →
  validContext ctx = true ∧ Z.of_nat (length plain) ≤ MaxPlaintextBytes ∧
  ∃ dek key, Sealed_ b ctx plain p w dek key.
Proof.
  intros Hb. unfold Seal. destruct (ready b); [|done]. destruct (validContext ctx); [|done].
  destruct (Z.ltb_spec MaxPlaintextBytes (Z.of_nat (length plain))); [done|]. simpl.
  destruct (random call 0 KeySize) as [dek|] eqn:E0; simpl; [|done]. apply random_length in E0.
  rewrite (newGCM_key _ E0). simpl. destruct (random call 1 nonceSize) as [nonce|] eqn:E1; simpl; [|done].
  apply random_length in E1. destruct (wrap _ _ _ _ _ _) as [w'|] eqn:Ew; simpl; [|done].
  intros [= <- <-]. apply (wrap_Some _ _ _ _ _ _ _ Hb) in Ew as (key & Hk & Hl & Hv & Hid & Hn & Hc).
  split_and!; [done..|]. exists dek, key. split; simpl; try done. by rewrite Hid.
Qed.

(** A sealed record opens in every box that holds the key it is wrapped under. *)
Lemma Sealed_opens b b' ctx plain p w dek key :
  BoxOk b' → validContext ctx = true → Z.of_nat (length plain) ≤ MaxPlaintextBytes →
  Sealed_ b ctx plain p w dek key → box_keys b' !! wp_KeyID w = Some key →
  unwrap b' ctx p w = Some dek ∧ openPayload ctx p dek = Some plain.
Proof.
  intros [Hr Hb] Hc Hl [Hd _ _ [V1 V2] [N1 N2] Cp Cw] Hk. destruct (Hb _ _ Hk) as [Hid Hkl]. split.
  - unfold unwrap. rewrite Hr, Hc, V1, V2, N1, N2, Hid, Cp, Cw, !gcm_Seal_length, Hd. simpl.
    destruct (Nat.ltb_spec (length plain + tagSize) tagSize); [lia|].
    destruct (Z.ltb_spec (MaxPlaintextBytes + Z.of_nat tagSize) (Z.of_nat (length plain + tagSize))); [lia|].
    simpl. rewrite Hk. simpl. rewrite (newGCM_key _ Hkl). simpl. by rewrite gcm_Open_Seal.
  - unfold openPayload. rewrite (newGCM_key _ Hd). simpl. by rewrite Cp, gcm_Open_Seal.
Qed.

Lemma Open_Seal_box call b b' ctx plain p w :
  BoxOk b → BoxOk b' → box_keys b' !! box_activeKeyID b = box_keys b !! box_activeKeyID b →
  Seal call b ctx plain = Ok (p, w) → Open b' ctx p w = Ok plain.
Proof.
  intros Hb Hb' Hk (Hc & Hl & dek & key & S)%(Seal_Ok _ _ _ _ _ _ Hb). unfold Open.
  destruct (Sealed_opens b b' ctx plain p w dek key) as [-> H]; try done.
  { rewrite (se_active _ _ _ _ _ _ _ S), Hk, <-(se_active _ _ _ _ _ _ _ S). apply S. }
  simpl. by rewrite H.
Qed.

(** Rewrapping needs the old key, moves the record to the active key, and keeps what it
    opens to in every box that holds the keys. *)
Lemma Rewrap_Ok call b b' ctx p w w' :
  BoxOk b → BoxOk b' → box_keys b' !! box_activeKeyID b = box_keys b !! box_activeKeyID b →
  Rewrap call b ctx p w = Ok w' →
  wp_KeyID w' = box_activeKeyID b ∧ ∃ plain, Open b ctx p w = Ok plain ∧ Open b' ctx p w' = Ok plain.
Proof.
  intros Hb Hb' Hk. unfold Rewrap, Open. destruct (unwrap b ctx p w) as [dek|] eqn:Eu; simpl; [|done].
  destruct (openPayload ctx p dek) as [plain|] eqn:Eo; simpl; [|done].
  destruct (wrap call 0 b ctx p dek) as [next|] eqn:Ew; simpl; [|done]. intros [= ->].
  apply (wrap_Some _ _ _ _ _ _ _ Hb) in Ew as (key & Hkey & Hl & Hv & Hid & Hn & Hc).
  split; [done|]. exists plain. split; [done|].
  assert (Hd : length dek = KeySize).
  { unfold unwrap in Eu. destruct (Nat.eqb_spec (length (wp_Ciphertext w)) (KeySize + tagSize)) as [El|];
      [|by rewrite !orb_true_r in Eu].
    destruct (_ || _); [done|]. destruct (box_keys b !! wp_KeyID w); simpl in Eu; [|done].
    destruct (newGCM _); simpl in Eu; [|done]. apply gcm_Open_exact in Eu.
    apply (f_equal length) in Eu. rewrite gcm_Seal_length in Eu. lia. }
  assert (Hu : unwrap b' ctx p w' = Some dek); [|by rewrite Hu; simpl; rewrite Eo].
  unfold unwrap in Eu |- *. destruct Hb' as [Hr' Hks'].
  destruct (validContext ctx); [|by rewrite !orb_true_r in Eu].
  destruct (pl_Version p =? PayloadVersion); [|by rewrite !orb_true_r in Eu].
  destruct (Nat.eqb (length (pl_Nonce p)) nonceSize); [|by rewrite !orb_true_r in Eu].
  destruct (Nat.ltb (length (pl_Ciphertext p)) tagSize); [by rewrite !orb_true_r in Eu|].
  destruct (MaxPlaintextBytes + Z.of_nat tagSize <? Z.of_nat (length (pl_Ciphertext p))); [by rewrite !orb_true_r in Eu|].
  rewrite Hr', Hid, Hv, Hn, Hc, gcm_Seal_length, Hd. rewrite <-Hk in Hkey.
  destruct (Hks' _ _ Hkey) as [-> _]. simpl. rewrite Hkey. simpl. rewrite (newGCM_key _ Hl). simpl.
  rewrite Hid. apply gcm_Open_Seal.
Qed.

(** What a wrapping is bound to: the record, the format version, the key's identifier
    and the payload, through its hash. *)
Definition hash_input (p : Payload) : list N :=
  be 4 (uint32 (pl_Version p)) ++ pl_Nonce p ++ pl_Ciphertext p.

Lemma wrappingAAD_eq ctx p v id :
  wrappingAAD ctx p v id = contextAAD ctx "dek" v ++ field id ++ Sum256 (hash_input p).
Proof. unfold wrappingAAD, appendField, field. by rewrite <-!app_assoc. Qed.

(** Opening a wrapping with another record or another payload than it was sealed with
    takes a ciphertext that authenticates under two additional data, or two payloads
    with one hash. *)
Lemma Open_binds_box call b ctx ctx' plain plain' p p' w :
  BoxOk b → cx_Revision ctx < 9223372036854775808 → cx_Revision ctx' < 9223372036854775808 →
  Seal call b ctx plain = Ok (p, w) → Open b ctx' p' w = Ok plain' →
  (ctx' = ctx ∧ p' = p ∧ plain' = plain) ∨
  (∃ key, box_keys b !! wp_KeyID w = Some key ∧
     wrappingAAD ctx' p' (wp_Version w) (wp_KeyID w) ≠ wrappingAAD ctx p (wp_Version w) (wp_KeyID w) ∧
     is_Some (gcm_Open key (wp_Nonce w) (wp_Ciphertext w) (wrappingAAD ctx p (wp_Version w) (wp_KeyID w))) ∧
     is_Some (gcm_Open key (wp_Nonce w) (wp_Ciphertext w) (wrappingAAD ctx' p' (wp_Version w) (wp_KeyID w)))) ∨
  (hash_input p' ≠ hash_input p ∧ Sum256 (hash_input p') = Sum256 (hash_input p)).
Proof.
  intros Hb B B' (Hc & Hl & dek & key & S)%(Seal_Ok _ _ _ _ _ _ Hb) Ho.
  destruct (Sealed_opens b b ctx plain p w dek key) as [Eu Ep]; try done; [apply S|].
  pose proof S as [Hd Hk _ [V1 V2] [N1 N2] _ Cw].
  unfold Open in Ho. destruct (unwrap b ctx' p' w) as [dek'|] eqn:Eu'; simpl in Ho; [|done].
  pose proof Eu' as E'. unfold unwrap in E'.
  destruct (validContext ctx') eqn:Hc'; [|by rewrite !orb_true_r in E'].
  destruct (Z.eqb_spec (pl_Version p') PayloadVersion) as [V1'|]; [|by rewrite !orb_true_r in E'].
  destruct (Nat.eqb_spec (length (pl_Nonce p')) nonceSize) as [N1'|]; [|by rewrite !orb_true_r in E'].
  destruct (_ || _); [done|]. rewrite Hk in E'. simpl in E'. destruct Hb as [_ Hks].
  rewrite (newGCM_key _ (proj2 (Hks _ _ Hk))) in E'. simpl in E'.
  destruct (decide (wrappingAAD ctx' p' (wp_Version w) (wp_KeyID w) = wrappingAAD ctx p (wp_Version w) (wp_KeyID w))) as [Ea|Ea].
  2:{ right. left. exists key. split_and!; [done..| |by eexists]. rewrite Cw, V2, gcm_Open_Seal. by eexists. }
  rewrite !wrappingAAD_eq in Ea. apply contextAAD_inj in Ea as [-> Ea]; [|done..].
  apply app_inv_head in Ea. destruct (decide (hash_input p' = hash_input p)) as [Eh|]; [|by right; right].
  left. unfold hash_input in Eh. rewrite V1, V1' in Eh. apply app_inv_head in Eh.
  apply app_cut in Eh as [E1 E2]; [|congruence].
  assert (p' = p) as -> by (destruct p, p'; simpl in *; congruence).
  split_and!; [done..|]. assert (dek' = dek) as -> by congruence. rewrite Ep in Ho. congruence.
Qed.

(** The box keeps what the storage relies on. *)
Lemma secretbox_laws b : BoxOk b → @VaultLaws (list N) (secretbox_vault b).
Proof.
  intros Hb. split.
  - intros n c p s w. simpl. destruct (Seal n b c p) as [[s' w']|] eqn:E; simpl; [|done].
    intros [= -> ->]. by rewrite (Open_Seal_box _ _ _ _ _ _ _ Hb Hb eq_refl E).
  - intros n c s w w'. simpl. destruct (Rewrap n b c s w) as [w''|] eqn:E; simpl; [|done].
    intros [= ->]. apply (Rewrap_Ok _ _ _ _ _ _ _ Hb Hb eq_refl) in E as (_ & plain & -> & ->). by split; [eexists|].
Qed.
End Laws.
End BoxFacts.
