(* ===== verification/Depgraph.v ===== *)
(** Expansion of typed references ([internal/depgraph]): a depth-first walk from
    the roots that lists every dependency before its dependents, and reports
    excluded, cyclic, missing, foreign, disabled and mistyped dependencies. *)
From S2P Require Import Prelude Diagnostics IRTypes Catalog.

Definition DefaultMaxResources : Z := MaxFrozenResources.

Record Options := {
  o_ScopeID : ID;
  o_Exclude : gset string;
  o_MaxResources : Z;
  o_Refs : Resource → result catalog_error (list Reference) }.

Record Result := {
  res_Order : list ID; res_Resources : list Resource; res_Diagnostics : Diagnostics }.

(** What [walk] shares: the result being built, [seen] (1 visiting, 2 done) and
    the scope, fixed by the first resource when the options leave it empty. *)
Record expansion := {
  x_out : Result; x_seen : gmap string Z; x_scope : ID }.

Definition report (x : expansion) (code : DiagnosticCode) (message : string) (id : ID)
    (via : string) : expansion :=
  {| x_out := {| res_Order := res_Order (x_out x); res_Resources := res_Resources (x_out x);
                 res_Diagnostics := res_Diagnostics (x_out x) ++
                   [{| d_Code := code; d_Severity := SeverityError; d_ResourceID := id;
                       d_FieldPath := via; d_TargetKey := ""; d_Message := message;
                       d_SuggestedAction := "" |}] |};
     x_seen := x_seen x; x_scope := x_scope x |}.

Definition mark (x : expansion) (id : ID) (color : Z) : expansion :=
  {| x_out := x_out x; x_seen := <[id := color]> (x_seen x); x_scope := x_scope x |}.

Definition with_scope (x : expansion) (scope : ID) : expansion :=
  {| x_out := x_out x; x_seen := x_seen x; x_scope := scope |}.

(** [out.Order = append(out.Order, id); out.Resources = append(out.Resources, r)] *)
Definition emit (x : expansion) (id : ID) (r : Resource) : expansion :=
  {| x_out := {| res_Order := res_Order (x_out x) ++ [id];
                 res_Resources := res_Resources (x_out x) ++ [r];
                 res_Diagnostics := res_Diagnostics (x_out x) |};
     x_seen := x_seen x; x_scope := x_scope x |}.

Section Expand.
Context (resources : gmap string Resource) (options : Options).

(** The loop over the references of a resource. *)
Fixpoint walk_refs (walk : ID → list ID → string → expansion → option expansion)
    (path : list ID) (refs : list Reference) (x : expansion) : option expansion :=
  match refs with
  | [] => Some x
  | ref :: refs =>
      match resources !! ref_TargetID ref with
      | Some target =>
          if negb (md_Kind (r_Metadata target) =s ref_ExpectedKind ref)
          then walk_refs walk path refs
                 (report x ReferenceKind "The referenced resource has the wrong kind."
                    (ref_TargetID ref) (ref_Path ref))
          else
            match walk (ref_TargetID ref) path (ref_Path ref) x with
            | Some x => walk_refs walk path refs x
            | None => None
            end
      | None =>
          match walk (ref_TargetID ref) path (ref_Path ref) x with
          | Some x => walk_refs walk path refs x
          | None => None
          end
      end
  end.

(** [None]: the fuel ran out. *)
Fixpoint walk (fuel : nat) (id : ID) (path : list ID) (via : string) (x : expansion)
    : option expansion :=
  if bool_decide (id ∈ o_Exclude options) then
    Some (report x "DEPENDENCY_EXCLUDED" "An explicit exclude removed a required dependency." id via)
  else if bool_decide (x_seen x !! id = Some 1) then
    Some (report x "DEPENDENCY_CYCLE" "The dependency graph contains a cycle." id via)
  else if bool_decide (x_seen x !! id = Some 2) then Some x
  else
    match resources !! id with
    | None => Some (report x ReferenceMissing "The referenced resource is missing." id via)
    | Some resource =>
        let m := r_Metadata resource in
        let x := if x_scope x =s "" then with_scope x (md_ScopeID m) else x in
        if negb (md_ScopeID m =s x_scope x) then
          Some (report x ScopeMismatch (diagnosticMessage ScopeMismatch) id via)
        else if negb (md_Enabled m) then
          Some (report x ResourceDisabled (diagnosticMessage ResourceDisabled) id via)
        else if o_MaxResources options <=?
                  Z.of_nat (length (res_Order (x_out x)) + length path) then
          Some (report x InvalidValue "Dependency expansion exceeded the resource limit." id via)
        else
          let x := mark x id 1 in
          match o_Refs options resource with
          | Err _ =>
              Some (mark (report x InvalidValue
                            "The resource references could not be expanded." id via) id 2)
          | Ok refs =>
              match fuel with
              | O => None
              | S fuel' =>
                  match walk_refs (walk fuel') (path ++ [id]) refs x with
                  | None => None
                  | Some x => Some (emit (mark x id 2) id resource)
                  end
              end
          end
    end.

Fixpoint walk_roots (fuel : nat) (i : nat) (roots : list ID) (x : expansion) : option expansion :=
  match roots with
  | [] => Some x
  | root :: roots =>
      match walk fuel root [] ("/roots/" +:+ index_string i) x with
      | Some x => walk_roots fuel (S i) roots x
      | None => None
      end
  end.
End Expand.

Definition start (scope : ID) : expansion :=
  {| x_out := {| res_Order := []; res_Resources := []; res_Diagnostics := [] |};
     x_seen := ∅; x_scope := scope |}.

(** The limit a zero option stands for. *)
Definition with_default_limit (options : Options) : Options :=
  if o_MaxResources options =? 0
  then {| o_ScopeID := o_ScopeID options; o_Exclude := o_Exclude options;
          o_MaxResources := DefaultMaxResources; o_Refs := o_Refs options |}
  else options.

(** The path grows by one at each level and the limit check stops the walk when
    it reaches the limit, so the limit itself is enough fuel. *)
Definition expand_fuel (options : Options) : nat := Z.to_nat (o_MaxResources options).

Definition Expand (resources : gmap string Resource) (roots : list ID) (options : Options)
    : option Result :=
  let options := with_default_limit options in
  x_out <$> walk_roots resources options (expand_fuel options) 0 roots
              (start (o_ScopeID options)).
