(* ===== verification/DepgraphFacts.v ===== *)
(** Expansion of typed references, the theorems: termination within the limit, and the shape
    of an expansion without diagnostics. Expansion of typed references, the other direction:
    when every dependency is present, enabled, in scope, well typed and acyclic, and the
    limit suffices, nothing is reported. *)
From S2P Require Import Prelude Diagnostics IRTypes Catalog Depgraph.

Abbreviation order x := (res_Order (x_out x)).
Abbreviation diags x := (res_Diagnostics (x_out x)).

Section Facts.
Context (resources : gmap string Resource) (options : Options).
Abbreviation Max := (o_MaxResources options).
Abbreviation walk := (walk resources options).
Abbreviation walk_refs := (walk_refs resources).

(** ** Fuel *)

Lemma walk_refs_total w path refs x :
  (∀ id via x, is_Some (w id path via x)) → is_Some (walk_refs w path refs x).
Proof.
  intros Hw. revert x. induction refs as [|ref refs IH]; intros x; simpl; [done|].
  destruct (Hw (ref_TargetID ref) (ref_Path ref) x) as [x' Hx'].
  destruct (resources !! ref_TargetID ref) as [t|]; [destruct (negb _); [done|]|];
    rewrite Hx'; apply IH.
Qed.

Lemma walk_total fuel id path via x :
  Max ≤ Z.of_nat (length path + fuel) → is_Some (walk fuel id path via x).
Proof.
  revert id path via x. induction fuel as [|fuel IH]; intros id path via x Hf; cbn [Depgraph.walk];
    (do 3 (case_bool_decide; [done|])); (destruct (resources !! id) as [r|]; [|done]);
    cbv zeta; destruct (negb _); try done; destruct (negb _); try done;
    destruct (Z.leb_spec Max (Z.of_nat (length (order
      (if x_scope x =s "" then with_scope x (md_ScopeID (r_Metadata r)) else x)) + length path)));
    try done; destruct (o_Refs options r) as [refs|]; try done; [lia|].
  destruct (walk_refs_total (walk fuel) (path ++ [id]) refs
    (mark (if x_scope x =s "" then with_scope x (md_ScopeID (r_Metadata r)) else x) id 1))
    as [x' ->]; [|done].
  intros id' via' x0. apply IH. rewrite length_app. simpl. lia.
Qed.

Lemma walk_roots_total fuel i roots x :
  Max ≤ Z.of_nat fuel → is_Some (walk_roots resources options fuel i roots x).
Proof.
  intros Hf. revert i x. induction roots as [|root roots IH]; intros i x; simpl; [done|].
  destruct (walk_total fuel root [] ("/roots/" +:+ index_string i) x) as [x' ->]; [simpl; lia|].
  apply IH.
Qed.

(** ** Topological order *)

(** [Done l id]: [id] may follow [l]. *)
Definition Done (l : list ID) (id : ID) : Prop :=
  id ∉ o_Exclude options ∧
  ∃ r refs, resources !! id = Some r ∧ md_Enabled (r_Metadata r) = true ∧
    o_Refs options r = Ok refs ∧
    ∀ ref, ref ∈ refs → ref_TargetID ref ∈ l ∧
      ∃ t, resources !! ref_TargetID ref = Some t ∧
           md_Kind (r_Metadata t) = ref_ExpectedKind ref.

Inductive Topo : list ID → Prop :=
| Topo_nil : Topo []
| Topo_snoc l id : Topo l → Done l id → Topo (l ++ [id]).

(** One dependency, and the dependencies of a resource. *)
Definition Dep (a b : ID) : Prop :=
  ∃ r refs ref, resources !! a = Some r ∧ o_Refs options r = Ok refs ∧ ref ∈ refs ∧
    ref_TargetID ref = b.

(** ** The invariant of the walk *)

Record Inv (x : expansion) : Prop := {
  inv_nodup : NoDup (order x);
  inv_resources : Forall2 (λ id r, resources !! id = Some r) (order x) (res_Resources (x_out x));
  inv_seen : ∀ id, id ∈ order x → x_seen x !! id = Some 2;
  inv_done : diags x = [] → ∀ id, x_seen x !! id = Some 2 → id ∈ order x;
  inv_topo : diags x = [] → Topo (order x) }.

(** What one step of the walk does to the state, whatever it reports. *)
Record Grows (x x' : expansion) : Prop := {
  gr_order : ∃ l, order x' = order x ++ l;
  gr_diags : ∃ d, diags x' = diags x ++ d;
  gr_seen1 : ∀ id, x_seen x !! id = Some 1 → x_seen x' !! id = Some 1;
  gr_seen2 : ∀ id, x_seen x !! id = Some 2 → x_seen x' !! id = Some 2;
  gr_scope : x_scope x ≠ "" → x_scope x' = x_scope x }.

#[export] Instance Grows_refl : Reflexive Grows.
Proof. intros x. split; try done; exists []; by rewrite app_nil_r. Qed.

#[export] Instance Grows_trans : Transitive Grows.
Proof.
  intros x y z [[l1 H1] [d1 D1] A1 B1 C1] [[l2 H2] [d2 D2] A2 B2 C2]. split; [| |by auto..|].
  - exists (l1 ++ l2). by rewrite H2, H1, app_assoc.
  - exists (d1 ++ d2). by rewrite D2, D1, app_assoc.
  - intros H. rewrite C2, C1; [done..|]. by rewrite C1.
Qed.

Lemma Grows_diags_nil x x' : Grows x x' → diags x' = [] → diags x = [].
Proof. intros [_ [d ->] _ _ _] [? _]%app_nil. done. Qed.

Lemma Grows_order_elem x x' id : Grows x x' → id ∈ order x → id ∈ order x'.
Proof. intros [[l ->] _ _ _ _]. set_solver. Qed.

Lemma Grows_report x code msg id via : Grows x (report x code msg id via).
Proof. split; try done; [exists []; by rewrite app_nil_r|by eexists]. Qed.

Lemma Inv_report x code msg id via : Inv x → Inv (report x code msg id via).
Proof. intros [H1 H2 H3 H4 H5]. split; try done; simpl; by intros [_ ?]%app_nil. Qed.

Lemma report_diags x code msg id via : diags (report x code msg id via) ≠ [].
Proof. simpl. by intros [_ ?]%app_nil. Qed.

(** [set_scope] of the first resource. *)
Definition scoped (x : expansion) (scope : ID) : expansion :=
  if x_scope x =s "" then with_scope x scope else x.

Lemma scoped_same x scope :
  x_out (scoped x scope) = x_out x ∧ x_seen (scoped x scope) = x_seen x.
Proof. unfold scoped. by destruct (x_scope x =s ""). Qed.

Lemma Grows_scoped x scope : Grows x (scoped x scope).
Proof.
  unfold scoped. destruct (String.eqb_spec (x_scope x) ""); [|done].
  split; try done; exists []; by rewrite app_nil_r.
Qed.

Lemma Inv_scoped x scope : Inv x → Inv (scoped x scope).
Proof.
  intros [H1 H2 H3 H4 H5]. destruct (scoped_same x scope) as [E1 E2].
  split; rewrite ?E1, ?E2; done.
Qed.

(** The outcome of walking [id] at depth [length path]. *)
Record Walked (id : ID) (path : list ID) (x x' : expansion) : Prop := {
  wk_inv : Inv x → Inv x';
  wk_grows : Grows x x';
  wk_listed : Inv x → diags x' = [] → id ∈ order x';
  wk_reach : ∀ k, k ∈ order x' → k ∈ order x ∨ rtc Dep id k;
  wk_bound : order x' = order x ∨ Z.of_nat (length (order x') + length path) ≤ Max }.

Record WalkedRefs (refs : list Reference) (path : list ID) (x x' : expansion) : Prop := {
  wr_inv : Inv x → Inv x';
  wr_grows : Grows x x';
  wr_listed : Inv x → diags x' = [] → ∀ ref, ref ∈ refs → ref_TargetID ref ∈ order x' ∧
    ∃ t, resources !! ref_TargetID ref = Some t ∧ md_Kind (r_Metadata t) = ref_ExpectedKind ref;
  wr_reach : ∀ k, k ∈ order x' → k ∈ order x ∨ ∃ ref, ref ∈ refs ∧ rtc Dep (ref_TargetID ref) k;
  wr_bound : order x' = order x ∨ Z.of_nat (length (order x') + length path) ≤ Max }.

Lemma Walked_report id path x code msg via id' :
  Walked id path x (report x code msg id' via).
Proof.
  split; [by apply Inv_report|apply Grows_report| |by left|by left].
  intros _ H. by apply report_diags in H.
Qed.

(** A listed identifier is a resource of the table. *)
Lemma Inv_lookup x id : Inv x → id ∈ order x → is_Some (resources !! id).
Proof.
  intros [_ H _ _ _] [i Hi]%list_elem_of_lookup.
  destruct (Forall2_lookup_l _ _ _ _ _ H Hi) as (r & _ & ->). done.
Qed.

Lemma Walked_done id path x : x_seen x !! id = Some 2 → Walked id path x x.
Proof. intros H. split; try done; [|by left|by left]. intros Hi Hd. by apply (inv_done _ Hi). Qed.

Lemma Walked_scoped id path x x' scope :
  Walked id path (scoped x scope) x' → Walked id path x x'.
Proof.
  intros [Hi Hg Hl Hr Hb]. destruct (scoped_same x scope) as [E1 E2]. rewrite E1 in *.
  split; [intros; by apply Hi, Inv_scoped|etrans; [apply Grows_scoped|done]
         |intros; apply Hl; [by apply Inv_scoped|done]|done|done].
Qed.

(** References that cannot be expanded: reported, and marked as done. *)
Lemma Walked_failed id path x via msg :
  x_seen x !! id ≠ Some 1 → x_seen x !! id ≠ Some 2 →
  Walked id path x (mark (report (mark x id 1) InvalidValue msg id via) id 2).
Proof.
  intros H1 H2. split.
  - intros [I1 I2 I3 I4 I5]. split; simpl; try done; try by intros [_ ?]%app_nil.
    intros k Hk. rewrite lookup_insert. case_decide; [done|].
    rewrite lookup_insert_ne; [auto|done].
  - split; simpl; try done; [by exists []; rewrite app_nil_r|by eexists| |];
      intros k Hk; rewrite !lookup_insert_ne; congruence.
  - intros _ H. by apply app_nil in H as [_ ?].
  - by left.
  - by left.
Qed.

Lemma walk_refs_walked w path refs x x' :
  (∀ id via x x', w id path via x = Some x' → Walked id path x x') →
  walk_refs w path refs x = Some x' → WalkedRefs refs path x x'.
Proof.
  intros Hw. revert x. induction refs as [|ref refs IH]; intros x; cbn [Depgraph.walk_refs].
  { intros [= <-]. split; try done; [set_solver|by left|by left]. }
  assert (Hstep : ∀ x1, Walked (ref_TargetID ref) path x x1 →
    (∀ t, resources !! ref_TargetID ref = Some t →
       md_Kind (r_Metadata t) = ref_ExpectedKind ref ∨ diags x1 ≠ []) →
    walk_refs w path refs x1 = Some x' → WalkedRefs (ref :: refs) path x x').
  { intros x1 [Hi Hg Hl Hr Hb] Hk Hrest. destruct (IH _ Hrest) as [Hi' Hg' Hl' Hr' Hb'].
    split; [auto|by etrans| | |].
    - intros Hinv Hnil r [->|Hin]%elem_of_cons; [|by apply Hl'; auto].
      pose proof (Grows_diags_nil _ _ Hg' Hnil) as Hnil1.
      assert (Hin : ref_TargetID ref ∈ order x1) by auto.
      split; [by eapply Grows_order_elem|].
      destruct (Inv_lookup x1 (ref_TargetID ref)) as [t Ht]; [auto..|].
      exists t. split; [done|]. by destruct (Hk t Ht).
    - intros k [Hk1|(r & Hin & Hd)]%Hr'; [destruct (Hr k Hk1) as [?|?]; [by left|]|];
        right; eexists; (split; [|done]); set_solver.
    - destruct Hb' as [Hb'|Hb']; [|by right]. rewrite Hb'. done. }
  destruct (resources !! ref_TargetID ref) as [t|] eqn:Et.
  - destruct (String.eqb_spec (md_Kind (r_Metadata t)) (ref_ExpectedKind ref)) as [Ek|Ek]; simpl.
    + destruct (w _ _ _ _) as [x1|] eqn:Ew; [|done]. intros Hrest.
      refine (Hstep x1 (Hw _ _ _ _ Ew) _ Hrest). intros u Hu. left. congruence.
    + apply Hstep; [apply Walked_report|]. intros ? ?. right. apply report_diags.
  - destruct (w _ _ _ _) as [x1|] eqn:Ew; [|done]. intros Hrest.
    refine (Hstep x1 (Hw _ _ _ _ Ew) _ Hrest). intros u Hu. congruence.
Qed.

Lemma Inv_mark x id : Inv x → x_seen x !! id ≠ Some 2 → Inv (mark x id 1).
Proof.
  intros [H1 H2 H3 H4 H5] Hid. split; simpl; try done.
  - intros k Hk. rewrite lookup_insert_ne; [auto|]. intros ->. by apply Hid, H3.
  - intros Hd k. rewrite lookup_insert. case_decide; [done|auto].
Qed.

(** Finishing a resource whose references have been walked. *)
Lemma Inv_emit x refs path id r :
  resources !! id = Some r → id ∉ o_Exclude options → md_Enabled (r_Metadata r) = true →
  o_Refs options r = Ok refs → x_seen x !! id ≠ Some 2 → Inv x →
  (∀ x2, WalkedRefs refs path (mark x id 1) x2 → Inv (emit (mark x2 id 2) id r)).
Proof.
  intros Hr Hex Hen Hrefs Hs Hinv x2 [Wi Wg Wl _ _].
  pose proof (Inv_mark _ _ Hinv Hs) as Hm. specialize (Wi Hm). specialize (Wl Hm).
  assert (Hid : x_seen x2 !! id = Some 1)
    by (apply (gr_seen1 _ _ Wg); simpl; by rewrite lookup_insert_eq).
  assert (Hnot : id ∉ order x2) by (intros ?%(inv_seen _ Wi); congruence).
  destruct Wi as [H1 H2 H3 H4 H5]. split; simpl.
  - apply NoDup_app. split_and!; [done|set_solver|apply NoDup_singleton].
  - by apply Forall2_app; [|repeat constructor].
  - intros k [Hk| ->%list_elem_of_singleton]%elem_of_app; [|by rewrite lookup_insert_eq].
    rewrite lookup_insert_ne; [auto|congruence].
  - intros Hd k. rewrite lookup_insert. case_decide as E; [set_solver|].
    intros Hk. apply elem_of_app. left. auto.
  - intros Hd. apply Topo_snoc; [auto|]. split; [done|]. exists r, refs. auto.
Qed.

Lemma Walked_visit id path r refs x x2 :
  resources !! id = Some r → id ∉ o_Exclude options → md_Enabled (r_Metadata r) = true →
  o_Refs options r = Ok refs → x_seen x !! id ≠ Some 1 → x_seen x !! id ≠ Some 2 →
  Z.of_nat (length (order x) + length path) < Max →
  WalkedRefs refs (path ++ [id]) (mark x id 1) x2 →
  Walked id path x (emit (mark x2 id 2) id r).
Proof.
  intros Hr Hex Hen Hrefs Hs1 Hs2 Hlim HW. pose proof HW as [Wi Wg Wl Wr Wb].
  assert (Hid : x_seen x2 !! id = Some 1)
    by (apply (gr_seen1 _ _ Wg); simpl; by rewrite lookup_insert_eq).
  split.
  - intros Hinv. by eapply Inv_emit.
  - destruct Wg as [[l Gl] [d Gd] G1 G2 Gs]. simpl in *.
    assert (Hkeep : ∀ k c, (c = 1 ∨ c = 2) → x_seen x !! k = Some c →
              <[id:=2]> (x_seen x2) !! k = Some c).
    { intros k c Hc Hk. assert (k ≠ id) by (intros ->; destruct Hc; subst; done).
      rewrite lookup_insert_ne by done.
      destruct Hc; subst; [apply G1|apply G2]; by rewrite lookup_insert_ne. }
    split; simpl.
    + exists (l ++ [id]). by rewrite Gl, app_assoc.
    + by exists d.
    + auto.
    + auto.
    + done.
  - set_solver.
  - intros k [Hk| ->%list_elem_of_singleton]%elem_of_app; [|by right].
    apply Wr in Hk as [Hk|(ref & Hin & Hd)]; [by left|right].
    eapply rtc_l; [|exact Hd]. by exists r, refs, ref.
  - right. simpl. rewrite length_app. simpl.
    destruct Wb as [Wb|Wb]; [simpl in Wb; rewrite Wb; lia|].
    rewrite length_app in Wb. simpl in Wb. lia.
Qed.

Lemma walk_walked fuel id path via x x' :
  walk fuel id path via x = Some x' → Walked id path x x'.
Proof.
  revert id path via x x'. induction fuel as [|fuel IH]; intros id path via x x'; cbn [Depgraph.walk];
    (case_bool_decide as Hex; [intros [= <-]; apply Walked_report|]);
    (case_bool_decide as H1; [intros [= <-]; apply Walked_report|]);
    (case_bool_decide as H2; [intros [= <-]; by apply Walked_done|]);
    (destruct (resources !! id) as [r|] eqn:Hr; [|intros [= <-]; apply Walked_report]);
    cbv zeta; fold (scoped x (md_ScopeID (r_Metadata r)));
    set (x0 := scoped x (md_ScopeID (r_Metadata r)));
    assert (Hs : x_seen x0 = x_seen x) by apply scoped_same; rewrite <-Hs in H1, H2;
    (destruct (negb (_ =s _)); [intros [= <-]; apply (Walked_scoped _ _ _ _ (md_ScopeID (r_Metadata r))), Walked_report|]);
    (destruct (md_Enabled (r_Metadata r)) eqn:Hen; simpl;
       [|intros [= <-]; apply (Walked_scoped _ _ _ _ (md_ScopeID (r_Metadata r))), Walked_report]);
    destruct (Z.leb_spec Max (Z.of_nat (length (order x0) + length path))) as [Hlim|Hlim];
    try (intros [= <-]; apply (Walked_scoped _ _ _ _ (md_ScopeID (r_Metadata r))), Walked_report);
    destruct (o_Refs options r) as [refs|] eqn:Hrefs; try done;
    try (intros [= <-]; apply (Walked_scoped _ _ _ _ (md_ScopeID (r_Metadata r))), Walked_failed; done).
  destruct (walk_refs _ _ _ _) as [x2|] eqn:E; [|done]. intros [= <-].
  apply (Walked_scoped _ _ _ _ (md_ScopeID (r_Metadata r))), (Walked_visit _ _ _ refs); try done.
  eapply walk_refs_walked; [|exact E]. intros. by eapply IH.
Qed.

(** ** The roots *)

Lemma walk_roots_walked fuel i roots x x' :
  walk_roots resources options fuel i roots x = Some x' →
  (Inv x → Inv x') ∧ Grows x x' ∧
  (Inv x → diags x' = [] → ∀ root, root ∈ roots → root ∈ order x') ∧
  (∀ k, k ∈ order x' → k ∈ order x ∨ ∃ root, root ∈ roots ∧ rtc Dep root k) ∧
  (order x' = order x ∨ Z.of_nat (length (order x')) ≤ Max).
Proof.
  revert i x. induction roots as [|root roots IH]; intros i x; simpl.
  { intros [= <-]. split_and!; try done; [set_solver|by left|by left]. }
  destruct (walk fuel root [] ("/roots/" +:+ index_string i) x) as [x1|] eqn:E; [|done].
  intros Hrest. apply walk_walked in E as [Wi Wg Wl Wr Wb].
  apply IH in Hrest as (Hi & Hg & Hl & Hr & Hb). split_and!.
  - auto.
  - by trans x1.
  - intros Hinv Hnil r [->|Hin]%elem_of_cons; [|by apply Hl; auto].
    eapply Grows_order_elem; [exact Hg|]. apply Wl; [done|by eapply Grows_diags_nil].
  - intros k [Hk|(r & Hin & Hd)]%Hr; [destruct (Wr k Hk)|]; set_solver.
  - destruct Hb as [->|Hb]; [|by right]. destruct Wb as [->|Wb]; [by left|right].
    simpl in Wb. lia.
Qed.

Lemma Inv_start scope : Inv (start scope).
Proof.
  split; simpl; [apply NoDup_nil_2|constructor|by intros ? ?%elem_of_nil| |constructor].
  intros _ id. by rewrite lookup_empty.
Qed.

(** ** Consequences of a topological order *)

Lemma Topo_closed l a b : Topo l → a ∈ l → Dep a b → b ∈ l.
Proof.
  intros HT Ha (r & refs & ref & Hr & Hrefs & Hin & <-).
  induction HT as [|l id HT IH [_ (r' & refs' & Hr' & _ & Hrefs' & Hall)]];
    [by apply elem_of_nil in Ha|].
  apply elem_of_app in Ha as [Ha| ->%list_elem_of_singleton]; apply elem_of_app; left; [auto|].
  apply Hall. congruence.
Qed.

Lemma Topo_closed_rtc l a b : Topo l → rtc Dep a b → a ∈ l → b ∈ l.
Proof. intros HT. induction 1 as [|a b c Hab _ IH]; [done|]. intros. eauto using Topo_closed. Qed.

Lemma Topo_acyclic l a : Topo l → NoDup l → a ∈ l → ¬ tc Dep a a.
Proof.
  intros HT. revert a. induction HT as [|l id HT IH Hd]; intros a Hnd Ha Hcyc;
    [by apply elem_of_nil in Ha|].
  apply NoDup_app in Hnd as (Hnd & Hnot & _).
  apply elem_of_app in Ha as [Ha| ->%list_elem_of_singleton]; [by eapply IH|].
  assert (∃ b, Dep id b ∧ rtc Dep b id) as (b & (r & refs & ref & Hr & Hrefs & Hin & <-) & Hb).
  { inversion Hcyc as [? ? H|? b ? H1 H2]; subst; [by exists id|].
    exists b. split; [done|]. by apply tc_rtc. }
  destruct Hd as [_ (r' & refs' & Hr' & _ & Hrefs' & Hall)].
  assert (ref_TargetID ref ∈ l) as Hl by (apply Hall; congruence).
  apply (Hnot id); [|set_solver]. by eapply Topo_closed_rtc.
Qed.

End Facts.

(** ** The expansion *)

Section Expansion.
Context (resources : gmap string Resource) (roots : list ID) (options : Options).
Abbreviation opts := (with_default_limit options).

Lemma Expand_is_Some : is_Some (Expand resources roots options).
Proof.
  destruct (walk_roots_total resources opts (expand_fuel opts) 0 roots (start (o_ScopeID opts)))
    as [x Hx]; [unfold expand_fuel; lia|].
  unfold Expand. cbv zeta. by rewrite Hx.
Qed.

Lemma Expand_walked out :
  Expand resources roots options = Some out →
  ∃ x, x_out x = out ∧ Inv resources opts x ∧
    Grows (start (o_ScopeID opts)) x ∧
    (res_Diagnostics out = [] → ∀ root, root ∈ roots → root ∈ res_Order out) ∧
    (∀ k, k ∈ res_Order out → ∃ root, root ∈ roots ∧ rtc (Dep resources opts) root k) ∧
    Z.of_nat (length (res_Order out)) ≤ Z.max 0 (o_MaxResources opts).
Proof.
  unfold Expand. cbv zeta. intros (x & Hx & ->)%fmap_Some.
  apply walk_roots_walked in Hx as (Hi & Hg & Hl & Hr & Hb).
  pose proof (Inv_start resources opts (o_ScopeID opts)) as Hs.
  exists x. split_and!; [done|auto|done|auto| |].
  - intros k [Hk|?]%Hr; [by apply elem_of_nil in Hk|done].
  - destruct Hb as [->|Hb]; simpl; lia.
Qed.

Lemma Expand_clean out :
  Expand resources roots options = Some out → res_Diagnostics out = [] →
  Topo resources opts (res_Order out) ∧ NoDup (res_Order out) ∧
  (∀ id, id ∈ res_Order out ↔ ∃ root, root ∈ roots ∧ rtc (Dep resources opts) root id) ∧
  Forall2 (λ id r, resources !! id = Some r) (res_Order out) (res_Resources out).
Proof.
  intros (x & <- & Hi & _ & Hl & Hr & _)%Expand_walked Hnil.
  assert (HT := inv_topo _ _ _ Hi Hnil). split_and!; try apply Hi; try done.
  intros id. split; [apply Hr|]. intros (root & Hroot & Hd).
  eapply Topo_closed_rtc; [done..|]. by apply Hl.
Qed.
End Expansion.

Section Clean.
Context (resources : gmap string Resource) (options : Options) (roots : list ID) (scope : ID).
Abbreviation Max := (o_MaxResources options).
Abbreviation walk := (walk resources options).
Abbreviation Dep := (Dep resources options).

(** What the expansion reaches. *)
Definition Needed (id : ID) : Prop := ∃ root, root ∈ roots ∧ rtc Dep root id.

(** A dependency that [walk] has no reason to report. *)
Record Sound (id : ID) : Prop := {
  so_included : id ∉ o_Exclude options;
  so_acyclic : ¬ tc Dep id id;
  so_present : ∃ r refs, resources !! id = Some r ∧ md_Enabled (r_Metadata r) = true ∧
    md_ScopeID (r_Metadata r) = scope ∧ o_Refs options r = Ok refs ∧
    ∀ ref, ref ∈ refs → ∃ t, resources !! ref_TargetID ref = Some t ∧
      md_Kind (r_Metadata t) = ref_ExpectedKind ref }.

Record Expandable : Prop := {
  ex_scope : scope ≠ "";
  ex_start : o_ScopeID options = "" ∨ o_ScopeID options = scope;
  ex_sound : ∀ id, Needed id → Sound id;
  ex_limit : ∃ l : list ID, (∀ id, Needed id → id ∈ l) ∧ Z.of_nat (length l) ≤ Max }.

Context (Hex : Expandable).

Lemma Needed_dep a b : Needed a → Dep a b → Needed b.
Proof. intros (root & Hr & Hp) Hd. exists root. split; [done|]. by eapply rtc_r. Qed.

(** The state of a walk that has reported nothing; [path] is being visited. *)
Record Quiet (path : list ID) (x : expansion) : Prop := {
  qu_silent : diags x = [];
  qu_scope : x_scope x = "" ∨ x_scope x = scope;
  qu_visiting : ∀ k, x_seen x !! k = Some 1 → k ∈ path;
  qu_done : ∀ k, x_seen x !! k = Some 2 → k ∈ order x;
  qu_listed : ∀ k, k ∈ order x → x_seen x !! k = Some 2;
  qu_distinct : NoDup (order x ++ path);
  qu_needed : ∀ k, k ∈ order x ++ path → Needed k }.

(** The limit is not hit before a new dependency. *)
Lemma Quiet_room path x id :
  Quiet path x → Needed id → id ∉ order x ++ path →
  Z.of_nat (length (order x) + length path) < Max.
Proof.
  intros [_ _ _ _ _ Hd Hn] Hid Hnot. destruct (ex_limit Hex) as (l & Hl & Hlen).
  assert (length (id :: order x ++ path) ≤ length l)%nat as H.
  { apply submseteq_length, NoDup_submseteq; [by constructor|].
    intros k [->|Hk]%elem_of_cons; auto. }
  simpl in H. rewrite length_app in H. lia.
Qed.

Lemma Quiet_mark path x id :
  Quiet path x → Needed id → id ∉ order x ++ path → Quiet (path ++ [id]) (mark x id 1).
Proof.
  intros [H1 H2 H3 H4 H5 H6 H7] Hid Hnot.
  assert (Hord : id ∉ order x) by set_solver.
  split; simpl; try done.
  - intros k. rewrite lookup_insert. case_decide; [set_solver|]. intros Hk%H3. set_solver.
  - intros k. rewrite lookup_insert. case_decide; [done|]. apply H4.
  - intros k Hk. rewrite lookup_insert_ne; [auto|]. by intros ->.
  - rewrite app_assoc. apply NoDup_app. split_and!; [done|set_solver|apply NoDup_singleton].
  - intros k. rewrite app_assoc. intros [?| ->%list_elem_of_singleton]%elem_of_app; auto.
Qed.

Lemma Quiet_emit path x id r :
  Quiet (path ++ [id]) x → Quiet path (emit (mark x id 2) id r).
Proof.
  intros [H1 H2 H3 H4 H5 H6 H7].
  assert (Hperm : (order x ++ [id]) ++ path ≡ₚ order x ++ path ++ [id])
    by (rewrite <-app_assoc; f_equiv; apply Permutation_app_comm).
  split; simpl; try done.
  - intros k. rewrite lookup_insert. case_decide; [done|]. intros Hk%H3. set_solver.
  - intros k. rewrite lookup_insert. case_decide; [set_solver|]. intros Hk%H4. set_solver.
  - intros k [Hk| ->%list_elem_of_singleton]%elem_of_app; [|by rewrite lookup_insert_eq].
    rewrite lookup_insert. case_decide; auto.
  - by rewrite Hperm.
  - intros k Hk. apply H7. by rewrite <-Hperm.
Qed.

Lemma Quiet_scoped path x r id :
  Quiet path x → resources !! id = Some r → Needed id →
  Quiet path (scoped x (md_ScopeID (r_Metadata r))) ∧
  x_scope (scoped x (md_ScopeID (r_Metadata r))) = scope.
Proof.
  intros HQ Hr Hid. destruct (so_present _ (ex_sound Hex _ Hid)) as (r' & _ & Hr' & _ & Es & _).
  assert (r' = r) as -> by congruence. unfold scoped. rewrite Es.
  destruct (String.eqb_spec (x_scope x) "") as [E|E]; destruct HQ as [? H2 ? ? ? ? ?].
  - split; [|done]. split; simpl; auto.
  - split; [by split|]. by destruct H2.
Qed.

Lemma walk_refs_quiet w path refs x x' :
  (∀ ref via x x', ref ∈ refs → Quiet path x → w (ref_TargetID ref) path via x = Some x' →
     Quiet path x') →
  (∀ ref, ref ∈ refs → ∃ t, resources !! ref_TargetID ref = Some t ∧
     md_Kind (r_Metadata t) = ref_ExpectedKind ref) →
  Quiet path x → walk_refs resources w path refs x = Some x' → Quiet path x'.
Proof.
  revert x. induction refs as [|ref refs IH]; intros x Hw Ht HQ; simpl; [by intros [= <-]|].
  destruct (Ht ref) as (t & -> & Ek); [by left|]. rewrite Ek, String.eqb_refl. simpl.
  destruct (w _ _ _ _) as [x1|] eqn:E; [|done].
  apply IH; [intros; eapply Hw; eauto; by right|intros; apply Ht; by right|].
  eapply Hw; [by left|done|done].
Qed.

Lemma walk_quiet fuel id path via x x' :
  Needed id → (∀ k, k ∈ path → tc Dep k id) → Quiet path x →
  walk fuel id path via x = Some x' → Quiet path x'.
Proof.
  revert id path via x x'. induction fuel as [|fuel IH]; intros id path via x x' Hid Hpath HQ;
    pose proof (ex_sound Hex _ Hid) as [Hin Hac (r & refs & Hr & Hen & Hsc & Hrefs & Ht)];
    assert (Hnp : id ∉ path) by (intros Hp; by apply Hac, Hpath);
    cbn [Depgraph.walk]; rewrite bool_decide_eq_false_2 by done;
    rewrite bool_decide_eq_false_2 by (intros ?%(qu_visiting _ _ HQ); done);
    (case_bool_decide as H2; [by intros [= <-]|]);
    assert (Hno : id ∉ order x ++ path)
      by (rewrite elem_of_app; intros [?%(qu_listed _ _ HQ)|?]; done);
    rewrite Hr; cbv zeta; fold (scoped x (md_ScopeID (r_Metadata r)));
    destruct (Quiet_scoped _ _ _ _ HQ Hr Hid) as [HQ' Es];
    destruct (scoped_same x (md_ScopeID (r_Metadata r))) as [Eo _];
    set (x0 := scoped x (md_ScopeID (r_Metadata r))) in *;
    rewrite Es, Hsc, String.eqb_refl, Hen; cbn [negb];
    (assert (Hno' : id ∉ order x0 ++ path) by (by rewrite Eo));
    pose proof (Quiet_room _ _ _ HQ' Hid Hno');
    (destruct (Z.leb_spec Max (Z.of_nat (length (order x0) + length path))); [lia|]);
    rewrite Hrefs; [done|].
  destruct (walk_refs _ _ _ _) as [x2|] eqn:E; [|done]. intros [= <-].
  apply Quiet_emit. eapply walk_refs_quiet; [|exact Ht|by apply Quiet_mark|exact E].
  intros ref via' y y' Hin' HQy.
  assert (Hd : Dep id (ref_TargetID ref)) by (by exists r, refs, ref).
  apply IH; [by eapply Needed_dep| |done].
  intros k [Hk| ->%list_elem_of_singleton]%elem_of_app; [|by apply tc_once].
  eapply tc_r; [by apply Hpath|done].
Qed.

Lemma walk_roots_quiet fuel i todo x x' :
  (∀ root, root ∈ todo → root ∈ roots) → Quiet [] x →
  walk_roots resources options fuel i todo x = Some x' → Quiet [] x'.
Proof.
  revert i x. induction todo as [|root todo IH]; intros i x Hin HQ; simpl; [by intros [= <-]|].
  destruct (walk _ _ _ _ _) as [x1|] eqn:E; [|done].
  apply IH; [set_solver|]. eapply walk_quiet; [|by intros ? ?%elem_of_nil|done|exact E].
  exists root. split; [set_solver|done].
Qed.

Lemma Quiet_start : Quiet [] (start (o_ScopeID options)).
Proof.
  split; simpl; try done; try (by intros ? ?%elem_of_nil); try apply (ex_start Hex).
  constructor.
Qed.
End Clean.

Lemma Expand_quiet resources roots options scope out :
  Expandable resources (with_default_limit options) roots scope →
  Expand resources roots options = Some out → res_Diagnostics out = [].
Proof.
  intros Hex. unfold Expand. cbv zeta. intros (x & Hx & ->)%fmap_Some.
  eapply walk_roots_quiet in Hx; [|exact Hex|done|].
  - apply Hx.
  - by eapply Quiet_start.
Qed.
