(* ===== verification/Capability.v ===== *)
(** The locked core builds and their capability records ([internal/capability]): lookups,
    authentication of a binary digest, and the construction of the catalog from the two
    decoded lock files. What a parsed capability catalog guarantees: unique builds, and no
    verified capability from the lock files alone. *)
From S2P Require Import Prelude Diagnostics IRTypes Hashes IRValidate.

Abbreviation State := string (only parsing).
Definition Unverified : State := "unverified".
Definition Unsupported : State := "unsupported".
Definition Verified : State := "verified".

Definition AdapterVersion := "0.2.0-m1-orchestration".
Definition FixtureSet := "isolation-v1".
Definition IDNamespace : ID := "8c3f0e2a-4b91-41d6-a2c1-9f0e6b7d4a10".

Inductive capability_error :=
| ErrUnknownBuild
| ErrDigestMismatch
| ErrArchMismatch
| ErrOSMismatch
| ErrUnverified
| ErrUnsupported
| ErrInvalidLock
| ErrUnknownCapability.

Record EvidenceRef := {
  ev_Suite : string; ev_BuildID : ID; ev_State : State; ev_Report : string;
  ev_FixtureIDs : list string }.

(** [capability.Record]. *)
Record CapabilityRecord := {
  rec_Key : string; rec_State : State; rec_Reason : string; rec_FixtureIDs : list string;
  rec_Evidence : EvidenceRef }.

Record Combination := {
  co_ID : string; co_CapabilityKey : string; co_Protocol : string; co_Transport : string;
  co_Security : string; co_State : State }.

Record Build := {
  b_ID : ID; b_Family : string; b_Version : string; b_GitTag : string; b_GitCommit : string;
  b_OS : string; b_Arch : string; b_AssetName : string; b_AssetURL : string;
  b_AssetSHA256 : string; b_BinaryName : string; b_BinarySHA256 : string; b_CGO : bool;
  b_FeatureNotes : string; b_License : string; b_Source : string; b_AdapterVersion : string;
  b_FixtureSet : string; b_Capabilities : list CapabilityRecord }.

(** [capability.Catalog]. *)
Record CapabilityCatalog := {
  cat_SchemaVersion : Z; cat_AdapterVersion : string; cat_FixtureSet : string;
  cat_IDNamespace : ID; cat_PinnedAt : string; cat_ClientValidation : State;
  cat_Combinations : list Combination; cat_builds : list Build; cat_byID : gmap string nat }.

(** ** Lookups *)

(** [c.builds[index]]; the indices of [byID] are in range. *)
Definition build_at (c : CapabilityCatalog) (id : ID) : option Build :=
  match cat_byID c !! id with Some index => cat_builds c !! index | None => None end.

Definition Catalog_Build (c : CapabilityCatalog) (id : ID) : result capability_error Build :=
  match build_at c id with Some b => Ok b | None => Err ErrUnknownBuild end.

Definition Catalog_Lookup (c : CapabilityCatalog) (family version os arch : string)
    : result capability_error Build :=
  match list_find (λ b, b_Family b = family ∧ b_Version b = version ∧ b_OS b = os
                        ∧ b_Arch b = arch) (cat_builds c) with
  | Some (_, b) => Ok b
  | None => Err ErrUnknownBuild
  end.

Definition Catalog_Capability (c : CapabilityCatalog) (id : ID) (key : string)
    : result capability_error CapabilityRecord :=
  match build_at c id with
  | None => Err ErrUnknownBuild
  | Some b =>
      match list_find (λ r, rec_Key r = key) (b_Capabilities b) with
      | Some (_, r) => Ok r
      | None => Err ErrUnknownCapability
      end
  end.

Definition RequireVerified (c : CapabilityCatalog) (id : ID) (key : string)
    : option capability_error :=
  match Catalog_Capability c id key with
  | Err e => Some e
  | Ok r =>
      if rec_State r =s Verified then None
      else if rec_State r =s Unsupported then Some ErrUnsupported
      else Some ErrUnverified
  end.

Definition BuildName (family tag os arch binarySHA256 : string) : string :=
  family +:+ "|" +:+ tag +:+ "|" +:+ os +:+ "|" +:+ arch +:+ "|" +:+ binarySHA256.

Section Text.
Context {T : GoText}.

Definition equalDigest (want got : string) : bool :=
  ToLower (TrimSpace want) =s ToLower (TrimSpace got).

Definition Authenticate (c : CapabilityCatalog) (id : ID) (actualSHA256 os arch : string)
    : option capability_error :=
  match Catalog_Build c id with
  | Err e => Some e
  | Ok build =>
      if negb (os =s "") && negb (b_OS build =s os) then Some ErrOSMismatch
      else if negb (arch =s "") && negb (b_Arch build =s arch) then Some ErrArchMismatch
      else if (actualSHA256 =s "") || negb (equalDigest (b_BinarySHA256 build) actualSHA256)
      then Some ErrDigestMismatch
      else None
  end.
End Text.

(** ** The lock files

    The two YAML documents arrive decoded; [lock_latest] is the byte scan for
    floating versions that precedes decoding. *)
Record lockBuild := {
  lb_ID : ID; lb_Family : string; lb_Version : string; lb_GitTag : string;
  lb_GitCommit : string; lb_OS : string; lb_Arch : string; lb_AssetName : string;
  lb_AssetURL : string; lb_AssetSHA256 : string; lb_BinaryName : string;
  lb_BinarySHA256 : string; lb_CGO : bool; lb_FeatureNotes : string; lb_License : string;
  lb_Source : string }.

Record lockUnsupported := {
  lu_Family : string; lu_Key : string; lu_State : State; lu_Reason : string }.

Record lockFile := {
  lf_SchemaVersion : Z; lf_AdapterVersion : string; lf_FixtureSet : string;
  lf_IDNamespace : ID; lf_PinnedAt : string; lf_ClientValidation : State;
  lf_Builds : list lockBuild; lf_Unsupported : list lockUnsupported }.

Record lockRecord := {
  lr_Key : string; lr_State : State; lr_Reason : string; lr_FixtureIDs : list string }.

Record combinationsFile := {
  cf_SchemaVersion : Z; cf_State : State; cf_Combinations : list Combination;
  cf_SharedCapabilities : list lockRecord }.

Definition sha256Digest (value : string) : bool :=
  (String.length value =? 64)%nat && is_hex value && (value =s ascii_lower value).

Section Parse.
Context {P : Platform}.

Definition validateBuild (namespace : ID) (build : lockBuild) : option capability_error :=
  let bad := Some ErrInvalidLock in
  if negb (lb_OS build =s "linux")
     || (negb (lb_Arch build =s "amd64") && negb (lb_Arch build =s "arm64")) then bad
  else if negb (lb_Family build =s Xray) && negb (lb_Family build =s SingBox)
          && negb (lb_Family build =s Mihomo) then bad
  else if negb (sha256Digest (lb_AssetSHA256 build)) || negb (sha256Digest (lb_BinarySHA256 build))
  then bad
  else if (lb_AssetURL build =s "") || Contains (lb_AssetURL build) "latest"
          || negb (HasPrefix (lb_AssetURL build) "https://github.com/") then bad
  else if negb (HasSuffix (lb_AssetURL build) ("/" +:+ lb_AssetName build)) then bad
  else if (lb_GitTag build =s "") || (lb_GitCommit build =s "") || (lb_BinaryName build =s "")
          || (lb_License build =s "") || (lb_Source build =s "") then bad
  else if negb (lb_ID build =s
                NameUUID namespace (BuildName (lb_Family build) (lb_GitTag build) (lb_OS build)
                                      (lb_Arch build) (lb_BinarySHA256 build))) then bad
  else match ID_Validate (lb_ID build) with Some _ => bad | None => None end.

(** The combination loop: the state defaults to unverified, and nothing is
    verified by the lock. *)
Fixpoint parse_combinations (combos : list Combination)
    : result capability_error (list Combination) :=
  match combos with
  | [] => Ok []
  | c :: combos =>
      if (co_ID c =s "") || (co_CapabilityKey c =s "") || (co_State c =s Verified)
      then Err ErrInvalidLock
      else
        let? rest := parse_combinations combos in
        Ok ({| co_ID := co_ID c; co_CapabilityKey := co_CapabilityKey c;
               co_Protocol := co_Protocol c; co_Transport := co_Transport c;
               co_Security := co_Security c;
               co_State := if co_State c =s "" then Unverified else co_State c |} :: rest)
  end.

(** Records of a build: one per combination, then the shared ones. *)
Definition combination_record (build : ID) (c : Combination) : CapabilityRecord :=
  {| rec_Key := co_CapabilityKey c; rec_State := Unverified; rec_Reason := "";
     rec_FixtureIDs := [];
     rec_Evidence := {| ev_Suite := ""; ev_BuildID := build; ev_State := Unverified;
                        ev_Report := ""; ev_FixtureIDs := [] |} |}.

Fixpoint shared_records (build : ID) (shared : list lockRecord)
    : result capability_error (list CapabilityRecord) :=
  match shared with
  | [] => Ok []
  | s :: shared =>
      if lr_State s =s Verified then Err ErrInvalidLock
      else
        let? rest := shared_records build shared in
        Ok ({| rec_Key := lr_Key s; rec_State := lr_State s; rec_Reason := lr_Reason s;
               rec_FixtureIDs := lr_FixtureIDs s;
               rec_Evidence := {| ev_Suite := ""; ev_BuildID := build; ev_State := lr_State s;
                                  ev_Report := ""; ev_FixtureIDs := lr_FixtureIDs s |} |} :: rest)
  end.

(** A family-specific rejection replaces the first record of its key, or is
    appended. *)
Fixpoint replace_record (record : CapabilityRecord) (rs : list CapabilityRecord)
    : list CapabilityRecord :=
  match rs with
  | [] => [record]
  | r :: rs => if rec_Key r =s rec_Key record then record :: rs else r :: replace_record record rs
  end.

Fixpoint apply_unsupported (build : ID) (family : string) (extras : list lockUnsupported)
    (rs : list CapabilityRecord) : result capability_error (list CapabilityRecord) :=
  match extras with
  | [] => Ok rs
  | extra :: extras =>
      if negb (lu_Family extra =s family) then apply_unsupported build family extras rs
      else if negb (lu_State extra =s Unsupported) then Err ErrInvalidLock
      else
        let record :=
          {| rec_Key := lu_Key extra; rec_State := Unsupported; rec_Reason := lu_Reason extra;
             rec_FixtureIDs := [];
             rec_Evidence := {| ev_Suite := ""; ev_BuildID := build; ev_State := Unsupported;
                                ev_Report := ""; ev_FixtureIDs := [] |} |} in
        apply_unsupported build family extras (replace_record record rs)
  end.

Definition build_records (combos : list Combination) (shared : list lockRecord)
    (extras : list lockUnsupported) (build : ID) (family : string)
    : result capability_error (list CapabilityRecord) :=
  let? shared := shared_records build shared in
  apply_unsupported build family extras ((combination_record build <$> combos) ++ shared).

Definition lock_pair (b : lockBuild) : string := lb_Family b +:+ "/" +:+ lb_Arch b.

(** The build loop, with [seenPair] and [byID] as they grow. *)
Fixpoint parse_builds (lock : lockFile) (combos : list Combination)
    (shared : list lockRecord) (i : nat) (raws : list lockBuild)
    (seenPair : gset string) (byID : gmap string nat)
    : result capability_error (list Build * gset string * gmap string nat) :=
  match raws with
  | [] => Ok ([], seenPair, byID)
  | raw :: raws =>
      match validateBuild (lf_IDNamespace lock) raw with
      | Some e => Err e
      | None =>
          if bool_decide (lock_pair raw ∈ seenPair) then Err ErrInvalidLock
          else if bool_decide (is_Some (byID !! lb_ID raw)) then Err ErrInvalidLock
          else
            let? records :=
              build_records combos shared (lf_Unsupported lock) (lb_ID raw) (lb_Family raw) in
            let build :=
              {| b_ID := lb_ID raw; b_Family := lb_Family raw; b_Version := lb_Version raw;
                 b_GitTag := lb_GitTag raw; b_GitCommit := lb_GitCommit raw; b_OS := lb_OS raw;
                 b_Arch := lb_Arch raw; b_AssetName := lb_AssetName raw;
                 b_AssetURL := lb_AssetURL raw; b_AssetSHA256 := lb_AssetSHA256 raw;
                 b_BinaryName := lb_BinaryName raw; b_BinarySHA256 := lb_BinarySHA256 raw;
                 b_CGO := lb_CGO raw; b_FeatureNotes := lb_FeatureNotes raw;
                 b_License := lb_License raw; b_Source := lb_Source raw;
                 b_AdapterVersion := lf_AdapterVersion lock; b_FixtureSet := lf_FixtureSet lock;
                 b_Capabilities := records |} in
            let? rest := parse_builds lock combos shared (S i) raws
                           ({[lock_pair raw]} ∪ seenPair) (<[lb_ID raw := i]> byID) in
            let '(builds, pairs, ids) := rest in Ok (build :: builds, pairs, ids)
      end
  end.

Definition parse (lock_latest : bool) (lock : lockFile) (combos : combinationsFile)
    : result capability_error CapabilityCatalog :=
  if lock_latest then Err ErrInvalidLock
  else if negb (lf_SchemaVersion lock =? 1) || negb (cf_SchemaVersion combos =? 1)
  then Err ErrInvalidLock
  else if negb (lf_AdapterVersion lock =s AdapterVersion)
          || negb (lf_FixtureSet lock =s FixtureSet)
          || negb (lf_IDNamespace lock =s IDNamespace) then Err ErrInvalidLock
  else if (lf_ClientValidation lock =s Verified) || (cf_State combos =s Verified)
  then Err ErrInvalidLock
  else if negb (length (lf_Builds lock) =? 6)%nat then Err ErrInvalidLock
  else
    let? combinations := parse_combinations (cf_Combinations combos) in
    if (length combinations <? 10)%nat then Err ErrInvalidLock
    else
      let? parsed := parse_builds lock combinations (cf_SharedCapabilities combos) 0
                       (lf_Builds lock) ∅ ∅ in
      let '(builds, pairs, ids) := parsed in
      if forallb (λ family,
           bool_decide ((family +:+ "/amd64") ∈ pairs) && bool_decide ((family +:+ "/arm64") ∈ pairs))
           [Xray; SingBox; Mihomo]
      then
        Ok {| cat_SchemaVersion := lf_SchemaVersion lock;
              cat_AdapterVersion := lf_AdapterVersion lock;
              cat_FixtureSet := lf_FixtureSet lock; cat_IDNamespace := lf_IDNamespace lock;
              cat_PinnedAt := lf_PinnedAt lock;
              cat_ClientValidation := lf_ClientValidation lock;
              cat_Combinations := combinations; cat_builds := builds; cat_byID := ids |}
      else Err ErrInvalidLock.
End Parse.

(** ** Records of one build *)

Definition first_record (key : string) (rs : list CapabilityRecord) : option CapabilityRecord :=
  snd <$> list_find (λ r, rec_Key r = key) rs.

Lemma first_record_cons key r rs :
  first_record key (r :: rs) = if decide (rec_Key r = key) then Some r else first_record key rs.
Proof.
  unfold first_record. simpl. case_decide; [done|].
  destruct (list_find _ rs) as [[i x]|]; done.
Qed.

Lemma first_record_replace key record rs :
  first_record key (replace_record record rs) =
    if decide (rec_Key record = key) then Some record else first_record key rs.
Proof.
  induction rs as [|r rs IH]; simpl; [by rewrite first_record_cons|].
  destruct (String.eqb_spec (rec_Key r) (rec_Key record)) as [E|E]; rewrite !first_record_cons.
  - rewrite E. by case_decide.
  - rewrite IH. destruct (decide (rec_Key r = key)), (decide (rec_Key record = key)); congruence.
Qed.

Lemma replace_record_states (Q : CapabilityRecord → Prop) record rs :
  Q record → Forall Q rs → Forall Q (replace_record record rs).
Proof.
  intros Hr. induction 1 as [|r rs Hq Hrs IH]; simpl; [by repeat constructor|].
  destruct (_ =s _); by constructor.
Qed.

Definition not_verified (r : CapabilityRecord) : Prop := rec_State r ≠ Verified.

Lemma apply_unsupported_spec build family extras rs rs' :
  apply_unsupported build family extras rs = Ok rs' →
  (Forall not_verified rs → Forall not_verified rs') ∧
  (∀ key r, first_record key rs = Some r → rec_State r = Unsupported →
     ∃ r', first_record key rs' = Some r' ∧ rec_State r' = Unsupported) ∧
  ∀ extra, extra ∈ extras → lu_Family extra = family →
    ∃ r, first_record (lu_Key extra) rs' = Some r ∧ rec_State r = Unsupported.
Proof.
  revert rs. induction extras as [|x extras IH]; intros rs; simpl.
  { intros [= <-]. split_and!; [done|eauto|by intros ? ?%elem_of_nil]. }
  destruct (String.eqb_spec (lu_Family x) family) as [Ef|Ef]; simpl.
  2: { intros (H1 & H2 & H3)%IH. split_and!; try done.
       intros extra [->|Hin]%elem_of_cons; [done|by apply H3]. }
  destruct (String.eqb_spec (lu_State x) Unsupported) as [Es|Es]; simpl; [|done].
  intros (H1 & H2 & H3)%IH. split_and!.
  - intros H. apply H1, replace_record_states; [|done]. done.
  - intros key r Hr Hst.
    destruct (decide (lu_Key x = key)) as [Ek|Ek].
    + eapply H2; [rewrite first_record_replace; simpl; by rewrite decide_True|done].
    + eapply H2; [rewrite first_record_replace; simpl; by rewrite decide_False|done].
  - intros extra [->|Hin]%elem_of_cons Hf; [|by apply H3].
    eapply H2; [rewrite first_record_replace; simpl; by rewrite decide_True|done].
Qed.

Lemma shared_records_spec build shared rs :
  shared_records build shared = Ok rs → Forall not_verified rs.
Proof.
  revert rs. induction shared as [|x shared IH]; intros rs; simpl; [by intros [= <-]|].
  destruct (String.eqb_spec (lr_State x) Verified); [done|].
  destruct (shared_records build shared) as [rest|]; [|done]. intros [= <-].
  constructor; [done|by apply IH].
Qed.

Lemma build_records_spec combos shared extras build family rs :
  build_records combos shared extras build family = Ok rs →
  Forall not_verified rs ∧
  ∀ extra, extra ∈ extras → lu_Family extra = family →
    ∃ r, first_record (lu_Key extra) rs = Some r ∧ rec_State r = Unsupported.
Proof.
  unfold build_records. destruct (shared_records build shared) as [sh|] eqn:Es; [|done].
  intros (H1 & _ & H3)%apply_unsupported_spec. split; [|done].
  apply H1, Forall_app. split; [|by eapply shared_records_spec].
  apply Forall_fmap, Forall_forall. done.
Qed.

(** ** The build loop *)

Section Parse.
Context {P : Platform}.

Record BuildOf (lock : lockFile) (combos : list Combination) (shared : list lockRecord)
    (raw : lockBuild) (b : Build) : Prop := {
  bo_valid : validateBuild (lf_IDNamespace lock) raw = None;
  bo_id : b_ID b = lb_ID raw;
  bo_family : b_Family b = lb_Family raw;
  bo_arch : b_Arch b = lb_Arch raw;
  bo_tag : b_GitTag b = lb_GitTag raw;
  bo_os : b_OS b = lb_OS raw;
  bo_digest : b_BinarySHA256 b = lb_BinarySHA256 raw;
  bo_records : build_records combos shared (lf_Unsupported lock) (lb_ID raw) (lb_Family raw)
               = Ok (b_Capabilities b) }.

Lemma parse_builds_spec lock combos shared i raws pairs ids builds pairs' ids' :
  parse_builds lock combos shared i raws pairs ids = Ok (builds, pairs', ids') →
  Forall2 (BuildOf lock combos shared) raws builds ∧
  NoDup (lock_pair <$> raws) ∧ (∀ p, p ∈ lock_pair <$> raws → p ∉ pairs) ∧
  (∀ p, p ∈ pairs' ↔ p ∈ pairs ∨ p ∈ lock_pair <$> raws) ∧
  (∀ k b, builds !! k = Some b → ids' !! b_ID b = Some (i + k)%nat) ∧
  (∀ id n, ids !! id = Some n → ids' !! id = Some n) ∧
  (∀ id n, ids' !! id = Some n → ids !! id = Some n ∨
     ∃ k b, builds !! k = Some b ∧ b_ID b = id ∧ n = (i + k)%nat).
Proof.
  revert i pairs ids builds pairs' ids'. induction raws as [|raw raws IH];
    intros i pairs ids builds pairs' ids'; simpl.
  { intros [= <- <- <-]. split_and!; try done; [constructor|by intros ? ?%elem_of_nil|set_solver|naive_solver]. }
  destruct (validateBuild _ raw) eqn:Ev; [done|].
  case_bool_decide as Hpair; [done|]. case_bool_decide as Hid; [done|].
  destruct (build_records _ _ _ _ _) as [records|] eqn:Er; [|done].
  destruct (parse_builds _ _ _ _ _ _ _) as [[[bs ps] js]|] eqn:Ep; [|done]. intros [= <- <- <-].
  apply IH in Ep as (H1 & H2 & H3 & H4 & H5 & H6 & H7). csimpl. split_and!.
  - constructor; [by split|done].
  - apply NoDup_cons. split; [|done]. intros H. apply (H3 _ H). set_solver.
  - intros p [->|H]%elem_of_cons; [done|]. specialize (H3 _ H). set_solver.
  - intros p. rewrite H4, elem_of_cons. set_solver.
  - intros [|k] b; simpl.
    + intros [= <-]. simpl. rewrite Nat.add_0_r. apply H6. by rewrite lookup_insert_eq.
    + intros Hk. rewrite (H5 _ _ Hk). f_equal. lia.
  - intros id n Hn. apply H6. rewrite lookup_insert_ne; [done|]. intros <-. apply Hid. by rewrite Hn.
  - intros id n [H|(k & b & Hk & Eb & ->)]%H7.
    + apply lookup_insert_Some in H as [[<- <-]|[_ H]]; [right|by left].
      exists 0%nat. eexists. split_and!; [done|done|lia].
    + right. exists (S k), b. split_and!; [done|done|lia].
Qed.

(** A locked build is named by its own content. *)
Lemma validateBuild_named namespace raw :
  validateBuild namespace raw = None →
  lb_ID raw = NameUUID namespace (BuildName (lb_Family raw) (lb_GitTag raw) (lb_OS raw)
                                    (lb_Arch raw) (lb_BinarySHA256 raw)) ∧
  sha256Digest (lb_BinarySHA256 raw) = true.
Proof.
  unfold validateBuild. cbv zeta.
  destruct (_ || _); [done|]. destruct (_ && _); [done|].
  destruct (_ || _) eqn:Ed; [done|]. apply orb_false_iff in Ed as [_ Ed%negb_false_iff].
  destruct (_ || _); [done|]. destruct (negb _); [done|]. destruct (_ || _); [done|].
  destruct (negb _) eqn:En; [done|]. by apply negb_false_iff, String.eqb_eq in En.
Qed.

(** ** The catalog *)

Record CatalogOk (lock : lockFile) (cat : CapabilityCatalog) : Prop := {
  ck_builds : ∀ b, b ∈ cat_builds cat → Catalog_Build cat (b_ID b) = Ok b;
  ck_lookup : ∀ id b, Catalog_Build cat id = Ok b → b ∈ cat_builds cat ∧ b_ID b = id;
  ck_unverified : ∀ b, b ∈ cat_builds cat → Forall not_verified (b_Capabilities b);
  ck_unsupported : ∀ b extra, b ∈ cat_builds cat → extra ∈ lf_Unsupported lock →
    lu_Family extra = b_Family b →
    ∃ r, Catalog_Capability cat (b_ID b) (lu_Key extra) = Ok r ∧ rec_State r = Unsupported;
  ck_named : ∀ b, b ∈ cat_builds cat →
    b_ID b = NameUUID (lf_IDNamespace lock)
               (BuildName (b_Family b) (b_GitTag b) (b_OS b) (b_Arch b) (b_BinarySHA256 b)) ∧
    sha256Digest (b_BinarySHA256 b) = true;
  ck_pairs : NoDup ((λ b, b_Family b +:+ "/" +:+ b_Arch b) <$> cat_builds cat);
  ck_families : ∀ family arch, family ∈ [Xray; SingBox; Mihomo] → arch ∈ ["amd64"; "arm64"] →
    (family +:+ "/" +:+ arch) ∈ (λ b, b_Family b +:+ "/" +:+ b_Arch b) <$> cat_builds cat }.

Lemma Catalog_Capability_first cat id b key :
  build_at cat id = Some b →
  Catalog_Capability cat id key =
    match first_record key (b_Capabilities b) with Some r => Ok r | None => Err ErrUnknownCapability end.
Proof.
  intros E. unfold Catalog_Capability, first_record. rewrite E.
  by destruct (list_find _ _) as [[i r]|].
Qed.

Lemma parse_ok latest lock combos cat :
  parse latest lock combos = Ok cat → CatalogOk lock cat.
Proof.
  unfold parse. repeat (match goal with |- context [if ?b then Err _ else _] => destruct b; [done|] end).
  destruct (parse_combinations _) as [cs|] eqn:Ec; [|done].
  destruct (_ <? 10)%nat; [done|].
  destruct (parse_builds _ _ _ _ _ _ _) as [[[builds pairs] ids]|] eqn:Ep; [|done].
  destruct (forallb _ _) eqn:Ef; [|done]. intros [= <-].
  apply parse_builds_spec in Ep as (H1 & H2 & _ & H4 & H5 & _ & H7).
  set (cat := {| cat_SchemaVersion := _ |}).
  assert (Hat : ∀ k b, builds !! k = Some b → build_at cat (b_ID b) = Some b).
  { intros k b Hk. unfold build_at. simpl. by rewrite (H5 _ _ Hk). }
  assert (Hof : ∀ b, b ∈ builds → ∃ raw, BuildOf lock cs (cf_SharedCapabilities combos) raw b).
  { intros b (k & Hk)%list_elem_of_lookup.
    destruct (Forall2_lookup_r _ _ _ _ _ H1 Hk) as (raw & _ & H). eauto. }
  assert (Epairs : (λ b, b_Family b +:+ "/" +:+ b_Arch b) <$> builds = lock_pair <$> lf_Builds lock).
  { clear -H1. induction H1 as [|raw b raws bs Hb _ IH]; [done|]. csimpl. rewrite IH.
    unfold lock_pair. by rewrite (bo_family _ _ _ _ _ Hb), (bo_arch _ _ _ _ _ Hb). }
  split.
  - intros b (k & Hk)%list_elem_of_lookup. unfold Catalog_Build. by rewrite (Hat _ _ Hk).
  - intros id b. unfold Catalog_Build, build_at. simpl. destruct (ids !! id) as [n|] eqn:En; [|done].
    destruct (builds !! n) as [b'|] eqn:Eb; [|done]. intros [= <-].
    split; [by eapply list_elem_of_lookup_2|].
    apply H7 in En as [En|(k & b & Hk & E & ->)]; [by rewrite lookup_empty in En|].
    simpl in Eb. congruence.
  - intros b Hb. destruct (Hof _ Hb) as (raw & Hraw).
    by destruct (build_records_spec _ _ _ _ _ _ (bo_records _ _ _ _ _ Hraw)).
  - intros b extra Hb Hex Hfam. destruct (Hof _ Hb) as (raw & Hraw).
    destruct (build_records_spec _ _ _ _ _ _ (bo_records _ _ _ _ _ Hraw)) as [_ Hun].
    destruct (Hun extra Hex) as (r & Hr & Hst); [by rewrite Hfam, (bo_family _ _ _ _ _ Hraw)|].
    simpl in Hb. apply list_elem_of_lookup in Hb as [k Hk]. exists r. split; [|done].
    rewrite (Catalog_Capability_first _ _ _ _ (Hat _ _ Hk)). by rewrite Hr.
  - intros b Hb. destruct (Hof _ Hb) as (raw & [Hv -> -> Harch -> -> -> _]). rewrite Harch.
    by apply validateBuild_named.
  - simpl. by rewrite Epairs.
  - intros family arch Hf Ha. simpl. rewrite Epairs.
    assert (Hin : family +:+ "/amd64" ∈ pairs ∧ family +:+ "/arm64" ∈ pairs).
    { rewrite forallb_forall in Ef. specialize (Ef family). rewrite <-list_elem_of_In in Ef.
      specialize (Ef Hf). by rewrite andb_true_iff, !bool_decide_eq_true in Ef. }
    destruct Hin as [Hi1 Hi2]. apply H4 in Hi1 as [Hi1|Hi1]; [set_solver|].
    apply H4 in Hi2 as [Hi2|Hi2]; [set_solver|].
    revert Ha. rewrite !elem_of_cons, elem_of_nil. intros [->|[->|[]]]; done.
Qed.

Lemma RequireVerified_fails lock cat id key :
  CatalogOk lock cat → RequireVerified cat id key ≠ None.
Proof.
  intros Hok. unfold RequireVerified, Catalog_Capability.
  destruct (build_at cat id) as [b|] eqn:Eb; [|done].
  destruct (list_find _ _) as [[i r]|] eqn:El; [|done].
  assert (Hb : b ∈ cat_builds cat).
  { apply (ck_lookup _ _ Hok id b). unfold Catalog_Build. by rewrite Eb. }
  apply list_find_Some in El as (Hr & _). apply list_elem_of_lookup_2 in Hr.
  pose proof (ck_unverified _ _ Hok _ Hb) as Hu. rewrite Forall_forall in Hu.
  specialize (Hu _ Hr). unfold not_verified in Hu.
  destruct (String.eqb_spec (rec_State r) Verified); [done|]. by destruct (_ =s _).
Qed.
End Parse.
