(* ===== verification/Labels.v ===== *)
(** Deterministic outbound labels ([internal/compiler/label.go]): every item gets
    the shortest prefix of its digest that keeps all tags distinct, grown two
    digits at a time for the items that collide. *)
From S2P Require Import Prelude Diagnostics IRTypes.

Definition labelMinLen : nat := 8.
Definition labelStep : nat := 2.
Definition labelHashLen : nat := 64.
Definition nodePrefix := "n_".
Definition chainPrefix := "c_".
Definition policyPrefix := "g_".

Definition compileIssue (code : DiagnosticCode) (path targetKey : string) (resource : ID)
    : Diagnostic :=
  {| d_Code := code; d_Severity := SeverityError; d_ResourceID := resource;
     d_FieldPath := path; d_TargetKey := targetKey; d_Message := diagnosticMessage code;
     d_SuggestedAction := "" |}.

Record labelItem := {
  li_key : string; li_material : string; li_prefix : string; li_suffixes : list string }.

Definition material (kind : string) (id : ID) (revision : Z) : string :=
  kind +:+ id +:+ "|" +:+ Itoa revision.
Definition nodeMaterial (id : ID) (revision : Z) : string := material "node|" id revision.
Definition chainMaterial (id : ID) (revision : Z) : string := material "chain|" id revision.
Definition policyMaterial (id : ID) (revision : Z) : string := material "policy|" id revision.

Definition nodeLabelItem (id : ID) (revision : Z) : labelItem :=
  {| li_key := nodeMaterial id revision; li_material := nodeMaterial id revision;
     li_prefix := nodePrefix; li_suffixes := [""] |}.
Definition chainLabelItem (id : ID) (revision : Z) : labelItem :=
  {| li_key := chainMaterial id revision; li_material := chainMaterial id revision;
     li_prefix := chainPrefix; li_suffixes := ["_h1"; "_h2"] |}.
Definition policyLabelItem (id : ID) (revision : Z) : labelItem :=
  {| li_key := policyMaterial id revision; li_material := policyMaterial id revision;
     li_prefix := policyPrefix; li_suffixes := [""] |}.

(** ** The assignment loop *)

(** The local [state] of [assign]. *)
Record label_state := { lab_item : labelItem; lab_hex : string; lab_n : nat }.

(** [st.prefix + st.hex[:st.n] + suffix]. *)
Definition label_tag (s : label_state) (suffix : string) : string :=
  li_prefix (lab_item s) +:+ String.substring 0 (lab_n s) (lab_hex s) +:+ suffix.
Definition label_tags (s : label_state) : list string :=
  label_tag s <$> li_suffixes (lab_item s).

Definition collision_error : Diagnostics := [compileIssue CompileLabelCollision "" "" ""].

(** [occupied] and [collision], after the tags of the item at position [i]. *)
Abbreviation scan_acc := (gmap string nat * gset nat)%type.
Definition occupy (i : nat) (acc : scan_acc) (tag : string) : scan_acc :=
  let '(occupied, collision) := acc in
  (<[tag := i]> occupied,
   match occupied !! tag with
   | Some j => {[i]} ∪ ({[j]} ∪ collision)
   | None => collision
   end).

(** One pass over the items; [None] when an item has outgrown its digest. *)
Fixpoint scan_labels (i : nat) (states : list label_state) (acc : scan_acc) : option scan_acc :=
  match states with
  | [] => Some acc
  | s :: states =>
      if (labelHashLen <? lab_n s)%nat then None
      else scan_labels (S i) states (foldl (occupy i) acc (label_tags s))
  end.

(** [for i := range collision { states[i].n += labelStep }] *)
Definition grow_labels (collision : gset nat) (states : list label_state) : list label_state :=
  imap (λ i s, if bool_decide (i ∈ collision)
               then {| lab_item := lab_item s; lab_hex := lab_hex s;
                       lab_n := lab_n s + labelStep |}
               else s) states.

(** [out[st.key] = tags]: a later item of the same key wins. *)
Definition label_map (states : list label_state) : gmap string (list string) :=
  foldl (λ out s, <[li_key (lab_item s) := label_tags s]> out) ∅ states.

(** [None]: the fuel ran out. *)
Fixpoint assign_loop (fuel : nat) (states : list label_state)
    : option (result Diagnostics (list label_state)) :=
  match fuel with
  | O => None
  | S fuel =>
      match scan_labels 0 states (∅, ∅) with
      | None => Some (Err collision_error)
      | Some (_, collision) =>
          if bool_decide (collision = ∅) then Some (Ok states)
          else assign_loop fuel (grow_labels collision states)
      end
  end.

(** An item grows at most 29 times before it exceeds its digest. *)
Definition assign_fuel (items : list labelItem) : nat := S (58 * length items).

Section Assign.
Context (digest : string → string).

Definition initial_state (item : labelItem) : label_state :=
  {| lab_item := item; lab_hex := digest (li_material item); lab_n := labelMinLen |}.

(** The final states; [assign] reads its map off them. *)
Definition assign_states (items : list labelItem)
    : option (result Diagnostics (list label_state)) :=
  if forallb (λ item, String.length (digest (li_material item)) =? labelHashLen)%nat items
  then assign_loop (assign_fuel items) (initial_state <$> items)
  else Some (Err collision_error).

Definition assign (items : list labelItem)
    : option (result Diagnostics (gmap string (list string))) :=
  match assign_states items with
  | None => None
  | Some (Err e) => Some (Err e)
  | Some (Ok states) => Some (Ok (label_map states))
  end.
End Assign.

(** ** What one pass computes *)

(** The positions and tags read so far, in order. *)
Definition tag_positions (i : nat) (states : list label_state) : list (nat * string) :=
  mjoin (imap (λ k s, pair (i + k)%nat <$> label_tags s) states).

Lemma tag_positions_cons i s states :
  tag_positions i (s :: states) = (pair i <$> label_tags s) ++ tag_positions (S i) states.
Proof.
  unfold tag_positions. simpl. rewrite Nat.add_0_r. f_equal. f_equal.
  apply imap_ext. intros k x _. unfold compose. by rewrite Nat.add_succ_r.
Qed.

(** [occupied] is the map of the tags read, and [collision] holds the positions of
    every repeated tag. *)
Record Scanned (read : list (nat * string)) (acc : scan_acc) : Prop := {
  sc_occupied : ∀ tag, is_Some (acc.1 !! tag) ↔ tag ∈ read.*2;
  sc_owner : ∀ tag j, acc.1 !! tag = Some j → (j, tag) ∈ read;
  sc_clean : acc.2 = ∅ → NoDup read.*2;
  sc_collide : ∀ i, i ∈ acc.2 → ∃ a b j tag, read !! a = Some (i, tag) ∧ read !! b = Some (j, tag) ∧ a ≠ b }.

Lemma Scanned_nil : Scanned [] (∅, ∅).
Proof.
  split; simpl.
  - intros tag. rewrite lookup_empty. split; [by intros [? ?]|by intros ?%elem_of_nil].
  - intros tag j. by rewrite lookup_empty.
  - intros _. constructor.
  - set_solver.
Qed.

Lemma Scanned_occupy read acc i tag :
  Scanned read acc → Scanned (read ++ [(i, tag)]) (occupy i acc tag).
Proof.
  destruct acc as [occ col]. intros [Ho Hw Hc Hk]. simpl in *. split; simpl.
  - intros t. rewrite fmap_app. simpl. rewrite elem_of_app, list_elem_of_singleton, <-Ho.
    destruct (decide (t = tag)) as [->|Hne].
    + rewrite lookup_insert_eq. split; [by right|by eexists].
    + rewrite lookup_insert_ne by done. naive_solver.
  - intros t j. rewrite elem_of_app, list_elem_of_singleton. destruct (decide (t = tag)) as [->|Hne].
    + rewrite lookup_insert_eq. intros [= ->]. by right.
    + rewrite lookup_insert_ne by done. intros H. left. by apply Hw.
  - destruct (occ !! tag) as [j|] eqn:E; [set_solver|]. intros ->. rewrite fmap_app.
    apply NoDup_app. split; [by apply Hc|]. split; [|apply NoDup_singleton].
    intros t Ht ->%list_elem_of_singleton. apply Ho in Ht as [j Hj]. simpl in Hj. congruence.
  - assert (Hlast : (read ++ [(i, tag)]) !! length read = Some (i, tag))
      by (rewrite lookup_app_r, Nat.sub_diag by done; done).
    assert (Hold : ∀ k, k ∈ col → ∃ a b j t, (read ++ [(i, tag)]) !! a = Some (k, t) ∧
              (read ++ [(i, tag)]) !! b = Some (j, t) ∧ a ≠ b).
    { intros k (a & b & j & t & Ha & Hb & Hne)%Hk.
      exists a, b, j, t. split_and!; [by apply lookup_app_l_Some..|done]. }
    destruct (occ !! tag) as [j|] eqn:E; [|exact Hold].
    pose proof (Hw _ _ E) as (b & Hb)%list_elem_of_lookup.
    assert (Hlt := lookup_lt_Some _ _ _ Hb).
    apply (lookup_app_l_Some _ [(i, tag)]) in Hb. intros k Hin.
    assert (k = i ∨ k = j ∨ k ∈ col) as [->|[->|?]] by set_solver; [| |by apply Hold].
    + exists (length read), b, j, tag. split_and!; [done..|lia].
    + exists b, (length read), i, tag. split_and!; [done..|lia].
Qed.

Lemma Scanned_occupy_all read acc i tags :
  Scanned read acc → Scanned (read ++ (pair i <$> tags)) (foldl (occupy i) acc tags).
Proof.
  revert read acc. induction tags as [|t tags IH]; intros read acc H; simpl.
  { by rewrite app_nil_r. }
  rewrite cons_middle, app_assoc. by apply IH, Scanned_occupy.
Qed.

Lemma scan_labels_Scanned i states acc acc' read :
  Scanned read acc → scan_labels i states acc = Some acc' →
  Scanned (read ++ tag_positions i states) acc'.
Proof.
  revert i acc read. induction states as [|s states IH]; intros i acc read Hs; simpl.
  { intros [= <-]. unfold tag_positions. simpl. by rewrite app_nil_r. }
  destruct (_ <? _)%nat; [done|]. intros H. rewrite tag_positions_cons, app_assoc.
  eapply IH; [|exact H]. by apply Scanned_occupy_all.
Qed.

Lemma scan_labels_None i states acc :
  scan_labels i states acc = None ↔ Exists (λ s, (labelHashLen < lab_n s)%nat) states.
Proof.
  revert i acc. induction states as [|s states IH]; intros i acc; simpl.
  { by rewrite Exists_nil. }
  rewrite Exists_cons. destruct (Nat.ltb_spec labelHashLen (lab_n s)) as [H|H].
  - split; [by left|done].
  - rewrite IH. split; [by right|intros [?|?]; [lia|done]].
Qed.

Lemma tag_positions_lookup i states a k tag :
  tag_positions i states !! a = Some (k, tag) →
  ∃ s, (i ≤ k)%nat ∧ states !! (k - i)%nat = Some s ∧ tag ∈ label_tags s.
Proof.
  intros H%list_elem_of_lookup_2. unfold tag_positions in H.
  apply list_elem_of_join in H as (l & H & (k' & s & -> & Hs)%elem_of_lookup_imap).
  apply list_elem_of_fmap in H as (t & [= -> ->] & Ht).
  exists s. split_and!; [lia| |done]. by replace (i + k' - i)%nat with k' by lia.
Qed.

Lemma tag_positions_tags i states : (tag_positions i states).*2 = mjoin (label_tags <$> states).
Proof.
  revert i. induction states as [|s states IH]; intros i; [done|].
  rewrite tag_positions_cons, fmap_app, IH. simpl. f_equal.
  rewrite <-list_fmap_compose. rewrite <-(list_fmap_id (label_tags s)) at 2. by apply list_fmap_ext.
Qed.

(** ** Termination *)

(** How many digits the items can still grow past the length of a digest. *)
Definition digits_left (s : label_state) : nat := S labelHashLen - lab_n s.
#[local] Arguments digits_left : simpl never.
Definition room (states : list label_state) : nat := sum_list (digits_left <$> states).

Lemma grow_labels_length col states : length (grow_labels col states) = length states.
Proof. apply length_imap. Qed.

Lemma grow_labels_lookup col states i :
  grow_labels col states !! i =
    (λ s, if bool_decide (i ∈ col)
          then {| lab_item := lab_item s; lab_hex := lab_hex s; lab_n := lab_n s + labelStep |}
          else s) <$> states !! i.
Proof. unfold grow_labels. by rewrite list_lookup_imap. Qed.

Lemma room_imap f states :
  (∀ i s, states !! i = Some s → (lab_n s ≤ lab_n (f i s))%nat) →
  (room (imap f states) ≤ room states)%nat ∧
  ∀ i s, states !! i = Some s → (lab_n s ≤ labelHashLen)%nat → (lab_n s < lab_n (f i s))%nat →
    (room (imap f states) < room states)%nat.
Proof.
  revert f. induction states as [|s states IH]; intros f Hf; [split; [done|by intros []]|].
  destruct (IH (f ∘ S)) as [Hle Hlt]; [intros i; apply (Hf (S i))|].
  specialize (Hf O s eq_refl). unfold room in *. csimpl.
  split; [unfold digits_left in *; lia|].
  intros [|i] t; csimpl; intros Ht Hn Hg; [|specialize (Hlt i t Ht Hn Hg)];
    simplify_eq; unfold digits_left in *; lia.
Qed.

Lemma scan_collision_position i states acc' :
  scan_labels 0 states (∅, ∅) = Some acc' → i ∈ acc'.2 → is_Some (states !! i).
Proof.
  intros Hs Hi. pose proof (scan_labels_Scanned _ _ _ _ _ Scanned_nil Hs) as [_ _ _ Hk].
  destruct (Hk _ Hi) as (a & b & j & t & Ha & _). simpl in Ha.
  apply tag_positions_lookup in Ha as (s & _ & Hl & _). rewrite Nat.sub_0_r in Hl. by eexists.
Qed.

Lemma scan_labels_within states acc :
  scan_labels 0 states acc ≠ None → Forall (λ s, (lab_n s ≤ labelHashLen)%nat) states.
Proof.
  rewrite scan_labels_None, <-Forall_Exists_neg. intros H.
  eapply Forall_impl; [exact H|]. simpl. intros. lia.
Qed.

Lemma room_grow states acc' :
  scan_labels 0 states (∅, ∅) = Some acc' → acc'.2 ≠ ∅ →
  (room (grow_labels acc'.2 states) < room states)%nat.
Proof.
  intros Hs Hne. destruct (set_choose_L _ Hne) as [i Hi].
  destruct (scan_collision_position _ _ _ Hs Hi) as [s Hsi].
  assert (Hn : (lab_n s ≤ labelHashLen)%nat).
  { eapply (Forall_lookup_1 (λ s, (lab_n s ≤ labelHashLen)%nat)); [|exact Hsi].
    apply (scan_labels_within _ (∅, ∅)). by rewrite Hs. }
  unfold grow_labels.
  match goal with |- context [imap ?f _] => destruct (room_imap f states) as [_ H] end.
  - intros k x _. simpl. case_bool_decide; simpl; lia.
  - apply (H _ _ Hsi Hn). rewrite bool_decide_true by done. unfold labelStep. simpl. lia.
Qed.

Lemma assign_loop_total fuel states :
  (room states < fuel)%nat → is_Some (assign_loop fuel states).
Proof.
  revert states. induction fuel as [|fuel IH]; intros states Hf; [lia|]. simpl.
  destruct (scan_labels 0 states (∅, ∅)) as [[occ col]|] eqn:E; [|done].
  case_bool_decide as Hc; [done|]. apply IH. pose proof (room_grow _ _ E Hc). simpl in *. lia.
Qed.

Lemma room_initial digest items :
  room (initial_state digest <$> items) = (57 * length items)%nat.
Proof.
  unfold room. induction items as [|x items IH]; [done|].
  rewrite !fmap_cons. change (sum_list (?a :: ?l)) with (a + sum_list l)%nat. simpl. rewrite IH.
  unfold digits_left, initial_state, labelMinLen, labelHashLen. simpl. lia.
Qed.

Lemma assign_states_total digest items : is_Some (assign_states digest items).
Proof.
  unfold assign_states. destruct (forallb _ _); [|done].
  apply assign_loop_total. rewrite room_initial. unfold assign_fuel. lia.
Qed.

(** ** Invariant of the loop, and its result *)

Definition grown (a b : label_state) : Prop :=
  lab_item a = lab_item b ∧ lab_hex a = lab_hex b ∧ (lab_n a ≤ lab_n b)%nat.

(** On success the items keep their order and digests, none has outgrown its
    digest, and all the tags are distinct. *)
Lemma assign_loop_Ok fuel states states' :
  assign_loop fuel states = Some (Ok states') →
  Forall2 grown states states' ∧ Forall (λ s, (lab_n s ≤ labelHashLen)%nat) states' ∧
  NoDup (mjoin (label_tags <$> states')).
Proof.
  revert states. induction fuel as [|fuel IH]; intros states; [done|]. simpl.
  destruct (scan_labels 0 states (∅, ∅)) as [[occ col]|] eqn:E; [|done].
  case_bool_decide as Hc.
  - intros [= <-]. split; [|split].
    + apply Forall2_same_length_lookup. split; [done|]. intros i x y Hx Hy.
      assert (x = y) as -> by congruence. by split_and!.
    + by eapply scan_labels_within; rewrite E.
    + pose proof (scan_labels_Scanned _ _ _ _ _ Scanned_nil E) as [_ _ Hnd _].
      simpl in Hnd. rewrite <-(tag_positions_tags 0). by apply Hnd.
  - intros (Hf & H)%IH. split; [|done]. apply Forall2_same_length_lookup.
    apply Forall2_same_length_lookup in Hf as [Hlen Hf]. rewrite grow_labels_length in Hlen.
    split; [done|]. intros i x y Hx Hy.
    destruct (Hf i (if bool_decide (i ∈ col)
          then {| lab_item := lab_item x; lab_hex := lab_hex x; lab_n := lab_n x + labelStep |}
          else x) y) as (H1 & H2 & H3); [|done|].
    + by rewrite grow_labels_lookup, Hx.
    + case_bool_decide; simpl in *; split_and!; try done; lia.
Qed.

(** ** Distinct digests never run out of digits *)

Fixpoint no_underscore (s : string) : bool :=
  match s with
  | EmptyString => true
  | String c s' => negb (Ascii.eqb c "_") && no_underscore s'
  end.

(** A suffix is empty or starts with an underscore. *)
Definition suffix_shape (s : string) : bool :=
  match s with EmptyString => true | String c _ => Ascii.eqb c "_" end.

Definition item_shape (item : labelItem) : bool :=
  ((li_prefix item =s nodePrefix) || (li_prefix item =s chainPrefix)
   || (li_prefix item =s policyPrefix)) &&
  bool_decide (NoDup (li_suffixes item)) && forallb suffix_shape (li_suffixes item).

Lemma stem_split a b s t :
  no_underscore a = true → no_underscore b = true →
  suffix_shape s = true → suffix_shape t = true → a +:+ s = b +:+ t → a = b ∧ s = t.
Proof.
  revert b. induction a as [|c a IH]; intros [|d b] Ha Hb Hs Ht E; str_simpl; simpl in *.
  - done.
  - subst s. apply andb_true_iff in Hb as [Hb _]. simpl in Hs. by rewrite Hs in Hb.
  - subst t. apply andb_true_iff in Ha as [Ha _]. simpl in Ht. by rewrite Ht in Ha.
  - apply andb_true_iff in Ha as [_ Ha], Hb as [_ Hb]. injection E as -> E.
    by destruct (IH b Ha Hb Hs Ht E) as [-> ->].
Qed.

Lemma substring_no_underscore n s :
  no_underscore s = true → no_underscore (String.substring 0 n s) = true.
Proof.
  revert s. induction n as [|n IH]; intros [|c s]; simpl; try done.
  rewrite !andb_true_iff. naive_solver.
Qed.

Lemma substring_length n s :
  String.length (String.substring 0 n s) = Nat.min n (String.length s).
Proof. revert s. induction n as [|n IH]; intros [|c s]; simpl; try done. by rewrite IH. Qed.

Lemma substring_all n s : (String.length s ≤ n)%nat → String.substring 0 n s = s.
Proof.
  revert n. induction s as [|c s IH]; intros [|n] Hn; simpl in *; [done|done|lia|].
  rewrite IH; [done|lia].
Qed.

Record GoodState (s : label_state) : Prop := {
  gs_shape : item_shape (lab_item s) = true;
  gs_hex : no_underscore (lab_hex s) = true;
  gs_len : String.length (lab_hex s) = labelHashLen;
  gs_even : Nat.even (lab_n s) = true;
  gs_n : (lab_n s ≤ labelHashLen)%nat }.

Lemma prefix_cancel p q x y :
  ((p =s nodePrefix) || (p =s chainPrefix) || (p =s policyPrefix)) = true →
  ((q =s nodePrefix) || (q =s chainPrefix) || (q =s policyPrefix)) = true →
  p +:+ x = q +:+ y → p = q ∧ x = y.
Proof.
  rewrite !orb_true_iff, !String.eqb_eq.
  intros [[->| ->]| ->] [[->| ->]| ->] E; unfold nodePrefix, chainPrefix, policyPrefix in *;
    str_simpl; by injection E.
Qed.

Lemma label_tag_inj s t a b :
  GoodState s → GoodState t → a ∈ li_suffixes (lab_item s) → b ∈ li_suffixes (lab_item t) →
  label_tag s a = label_tag t b →
  li_prefix (lab_item s) = li_prefix (lab_item t) ∧ lab_n s = lab_n t ∧
  String.substring 0 (lab_n s) (lab_hex s) = String.substring 0 (lab_n t) (lab_hex t) ∧ a = b.
Proof.
  intros [Ss Sh Sl _ Sn] [Ts Th Tl _ Tn] Ha Hb E. unfold label_tag in E.
  apply andb_true_iff in Ss as [Ss Ssuf], Ts as [Ts Tsuf].
  apply andb_true_iff in Ss as [Sp _], Ts as [Tp _].
  apply prefix_cancel in E as [-> E]; [|done..].
  rewrite forallb_forall in Ssuf, Tsuf.
  apply stem_split in E as [E ->];
    [|by apply substring_no_underscore..|by apply Ssuf, list_elem_of_In|by apply Tsuf, list_elem_of_In].
  split_and!; try done. apply (f_equal String.length) in E. rewrite !substring_length in E. lia.
Qed.

Lemma label_tags_NoDup s : GoodState s → NoDup (label_tags s).
Proof.
  intros G. unfold label_tags. apply NoDup_fmap_2_strong.
  - intros a b Ha Hb E. by destruct (label_tag_inj s s a b G G Ha Hb E) as (_ & _ & _ & ->).
  - pose proof (gs_shape _ G) as H. unfold item_shape in H.
    rewrite !andb_true_iff, bool_decide_eq_true in H. tauto.
Qed.

Lemma tag_positions_NoDup i states : Forall GoodState states → NoDup (tag_positions i states).
Proof.
  intros H. revert i. induction H as [|s states Hs _ IH]; intros i; [constructor|].
  rewrite tag_positions_cons. apply NoDup_app. split_and!.
  - apply NoDup_fmap_2; [|by apply label_tags_NoDup]. by intros ?? [= ->].
  - intros [k t] (? & [= -> _] & _)%list_elem_of_fmap Hin.
    apply list_elem_of_lookup in Hin as [a Ha].
    apply tag_positions_lookup in Ha as (? & ? & _). lia.
  - apply IH.
Qed.

(** Digests that no two items share. *)
Definition DistinctHex (states : list label_state) : Prop := NoDup (lab_hex <$> states).

Lemma collision_room states acc' i s :
  Forall GoodState states → DistinctHex states →
  scan_labels 0 states (∅, ∅) = Some acc' → i ∈ acc'.2 → states !! i = Some s →
  (lab_n s < labelHashLen)%nat.
Proof.
  intros HG HD Hs Hi Hsi. pose proof (Forall_lookup_1 _ _ _ _ HG Hsi) as Gs.
  destruct (decide (lab_n s = labelHashLen)) as [En|]; [|pose proof (gs_n _ Gs); lia].
  pose proof (scan_labels_Scanned _ _ _ _ _ Scanned_nil Hs) as [_ _ _ Hk].
  destruct (Hk _ Hi) as (a & b & j & tag & Ha & Hb & Hab). simpl in Ha, Hb. exfalso.
  pose proof (tag_positions_lookup _ _ _ _ _ Ha) as (s1 & _ & H1 & T1).
  pose proof (tag_positions_lookup _ _ _ _ _ Hb) as (t & _ & H2 & T2).
  rewrite Nat.sub_0_r in H1, H2. assert (s1 = s) as -> by congruence.
  pose proof (Forall_lookup_1 _ _ _ _ HG H2) as Gt.
  apply list_elem_of_fmap in T1 as (x & -> & Hx), T2 as (y & E & Hy).
  apply label_tag_inj in E as (_ & En' & E & _); [|done..].
  rewrite !substring_all in E by (rewrite ?(gs_len _ Gs), ?(gs_len _ Gt); lia).
  assert (i = j) as <-.
  { eapply NoDup_lookup; [exact HD| |]; rewrite list_lookup_fmap; [by rewrite Hsi|].
    rewrite H2. simpl. by rewrite E. }
  apply Hab. eapply NoDup_lookup; [by apply (tag_positions_NoDup 0)|done..].
Qed.

Lemma even_add_2 n : Nat.even (n + labelStep) = Nat.even n.
Proof. unfold labelStep. by rewrite Nat.add_comm. Qed.

Lemma grow_labels_good states acc' :
  Forall GoodState states → DistinctHex states → scan_labels 0 states (∅, ∅) = Some acc' →
  Forall GoodState (grow_labels acc'.2 states) ∧ DistinctHex (grow_labels acc'.2 states).
Proof.
  intros HG HD Hs. split.
  - apply Forall_lookup. intros i t. rewrite grow_labels_lookup.
    intros (s & Hsi & ->)%fmap_Some. pose proof (Forall_lookup_1 _ _ _ _ HG Hsi) as Gs.
    case_bool_decide as Hin; [|done].
    pose proof (collision_room _ _ _ _ HG HD Hs Hin Hsi) as Hr.
    destruct Gs as [g1 g2 g3 g4 g5]. split; simpl; try done; [by rewrite even_add_2|].
    unfold labelStep, labelHashLen in *.
    assert (lab_n s ≠ 63%nat) by (intros E; by rewrite E in g4). lia.
  - unfold DistinctHex. replace (lab_hex <$> grow_labels acc'.2 states) with (lab_hex <$> states); [done|].
    apply list_eq. intros i. rewrite !list_lookup_fmap, grow_labels_lookup.
    destruct (states !! i); simpl; [|done]. by case_bool_decide.
Qed.

Lemma assign_loop_good fuel states r :
  Forall GoodState states → DistinctHex states → assign_loop fuel states = Some r →
  ∃ states', r = Ok states' ∧ Forall GoodState states'.
Proof.
  revert states. induction fuel as [|fuel IH]; intros states HG HD; [done|]. simpl.
  destruct (scan_labels 0 states (∅, ∅)) as [[occ col]|] eqn:E.
  - case_bool_decide as Hc; [intros [= <-]; eauto|].
    destruct (grow_labels_good _ _ HG HD E). by apply IH.
  - apply scan_labels_None, Exists_exists in E as (s & Hs & Hn).
    rewrite Forall_forall in HG. pose proof (gs_n _ (HG _ Hs)). lia.
Qed.

(** ** The whole assignment *)

(** What SHA-256 in hexadecimal promises about the materials of [items]. *)
Record GoodDigest (digest : string → string) (items : list labelItem) : Prop := {
  gd_len : Forall (λ it, String.length (digest (li_material it)) = labelHashLen) items;
  gd_hex : Forall (λ it, no_underscore (digest (li_material it)) = true) items;
  gd_inj : NoDup ((λ it, digest (li_material it)) <$> items) }.

Lemma assign_states_Ok digest items states :
  assign_states digest items = Some (Ok states) →
  lab_item <$> states = items ∧
  Forall (λ s, lab_hex s = digest (li_material (lab_item s)) ∧
               (labelMinLen ≤ lab_n s ≤ labelHashLen)%nat) states ∧
  NoDup (mjoin (label_tags <$> states)).
Proof.
  unfold assign_states. destruct (forallb _ _); [|done].
  intros (Hg & Hn & Hnd)%assign_loop_Ok.
  apply Forall2_same_length_lookup in Hg as [Hlen Hg]. rewrite length_fmap in Hlen.
  split_and!; [| |done].
  - apply list_eq_same_length with (n := length items); [done|by rewrite length_fmap|].
    intros i x y Hi. rewrite list_lookup_fmap. intros (s & Hs & ->)%fmap_Some Hy.
    destruct (Hg i (initial_state digest y) s) as [E _]; [by rewrite list_lookup_fmap, Hy|done|].
    done.
  - apply Forall_lookup. intros i s Hs. pose proof (Forall_lookup_1 _ _ _ _ Hn Hs).
    destruct (lookup_lt_is_Some_2 items i) as [y Hy]; [rewrite Hlen; by eapply lookup_lt_Some|].
    destruct (Hg i (initial_state digest y) s) as (E1 & E2 & E3);
      [by rewrite list_lookup_fmap, Hy|done|]. simpl in *. rewrite <-E1, <-E2. done.
Qed.

Lemma assign_states_good digest items :
  GoodDigest digest items → Forall (λ it, item_shape it = true) items →
  ∃ states, assign_states digest items = Some (Ok states) ∧ Forall GoodState states.
Proof.
  intros [Hl Hh Hi] Hs. destruct (assign_states_total digest items) as [r Hr].
  rewrite Hr. unfold assign_states in Hr.
  assert (forallb (λ item, String.length (digest (li_material item)) =? labelHashLen)%nat items
          = true) as E.
  { eapply Forall_forallb_iff; [|exact Hl]. intros. by rewrite Nat.eqb_eq. }
  rewrite E in Hr. apply assign_loop_good in Hr as (states & -> & ?); [eauto| |].
  - apply Forall_fmap, Forall_forall. intros it Hit.
    rewrite Forall_forall in Hl, Hh, Hs. split; simpl; auto. unfold labelMinLen, labelHashLen. lia.
  - unfold DistinctHex. by rewrite <-list_fmap_compose.
Qed.

(** The map returns the tags of each item, when their keys are distinct. *)
Lemma label_map_lookup states s :
  NoDup ((λ s, li_key (lab_item s)) <$> states) → s ∈ states →
  label_map states !! li_key (lab_item s) = Some (label_tags s).
Proof.
  unfold label_map. induction states as [|x states IH] using rev_ind; [by intros _ ?%elem_of_nil|].
  rewrite fmap_app, foldl_app. simpl. intros (Hnd & Hnot & _)%NoDup_app Hin.
  apply elem_of_app in Hin as [Hs| ->%list_elem_of_singleton]; [|by rewrite lookup_insert_eq].
  rewrite lookup_insert_ne; [by apply IH|].
  intros E. apply (Hnot (li_key (lab_item s))); [|rewrite E; set_solver].
  apply (list_elem_of_fmap_2 (λ s, li_key (lab_item s)) _ _ Hs).
Qed.
