(* ===== verification/Adapter.v ===== *)
(** The boundary of the native emitters ([internal/adapter]): the expanded graph an
    emitter reads ([emit.go], [orchestration.go]), the outbound list with its tag
    discipline, and the mapping of nodes ([node.go], [emit.go]). *)
From S2P Require Import Prelude Diagnostics IRTypes IRValidate Labels.

Definition MaxOutbounds : Z := 2000.
Definition MaxRules : Z := 20000.
Definition MaxArtifactBytes : Z := 10485760.
Definition JSONContentType := "application/json".
Definition YAMLContentType := "application/yaml".
Definition InboundTag := "in".
Definition BlockTag := "block".
Definition LoopbackAddr := "127.0.0.1".
Definition KindIndependent := "independent".
Definition KindChainH1 := "chain_h1".
Definition KindChainH2 := "chain_h2".

(** * Data *)

Record IndependentOutbound := { io_Tag : string; io_Resource : Resource }.

Record ChainInstance := {
  ci_ResourceID : ID; ci_Revision : Z; ci_TagH1 : string; ci_TagH2 : string;
  ci_Hop1 : Resource; ci_Hop2 : Resource; ci_FailurePolicy : string }.

Record PolicyInstance := {
  pi_Tag : string; pi_ResourceID : ID; pi_Strategy : string; pi_Members : list string;
  pi_Default : string; pi_Health : PolicyHealthCheck }.

(** AND across [Terms], OR across [Values]; kind "or" is OR across [Terms]. *)
Inductive Condition :=
| Cond (kind : string) (values : list string) (terms : list Condition).

Record RouteRule := {
  ru_Condition : Condition; ru_Target : string; ru_FieldPath : string }.
Record RoutingInput := {
  ri_ResourceID : ID; ri_Mode : string; ri_Rules : list RouteRule }.
Record DNSInput := {
  di_ResourceID : ID; di_Profile : DNSProfile; di_OutboundTags : gmap string string;
  di_Rules : list RouteRule }.

Record EmitInput := {
  in_SnapshotID : ID; in_TargetKey : string; in_Independents : list IndependentOutbound;
  in_Chains : list ChainInstance; in_Policies : list PolicyInstance; in_FinalTag : string;
  in_Routing : option RoutingInput; in_DNS : option DNSInput; in_Preset : option ClientPreset }.

Record OutboundRef := {
  or_Tag : string; or_Kind : string; or_Resource : Resource; or_DialerTag : string;
  or_FieldPath : string }.

Record TrojanTLS := {
  tt_Endpoint : Endpoint; tt_Password : Secret; tt_ServerName : string; tt_VerifyCert : bool;
  tt_ALPN : list string; tt_Fingerprint : string; tt_UDPFalse : bool }.

Record MappedNode := {
  mn_Node : Node; mn_Password : Secret; mn_Username : Secret; mn_UUID : Secret;
  mn_Cipher : string; mn_Flow : string; mn_WS : option WebSocketTransport;
  mn_TLS : option TLSSecurity; mn_Reality : option RealitySecurity }.

(** What an emitter produces ([adapter.go]). *)
Record Artifact := {
  ar_SnapshotID : ID; ar_TargetKey : string; ar_ContentType : string; ar_Bytes : string;
  ar_OutboundCount : Z; ar_RuleCount : Z }.

(** * Operations *)

(** [CompileIssue] is [compileIssue] of the compiler package. *)
Definition CompileIssue := compileIssue.

Definition CheckNativeCounts (input : EmitInput) (outbounds rules : Z) : error :=
  let path := if MaxOutbounds <? outbounds then "/outbounds"
              else if MaxRules <? rules then "/rules" else "" in
  if negb (path =s "") then Some [CompileIssue InputLimitExceeded path (in_TargetKey input) ""]
  else None.

Definition reserved_tags : list string :=
  ["in"; "block"; "direct"; "reject"; "global"; "compatible"; "pass"; "dns-out"].

Section Emit.
Context {T : GoText}.

Definition IsReservedTag (tag : string) : bool := bool_decide (ToLower tag ∈ reserved_tags).

Definition ExitTag (input : EmitInput) : result Diagnostics string :=
  if negb (in_FinalTag input =s "") then Ok (in_FinalTag input)
  else
    match in_Policies input with
    | p :: _ => Ok (pi_Tag p)
    | [] =>
        match in_Chains input with
        | c :: _ => Ok (ci_TagH2 c)
        | [] =>
            match in_Independents input with
            | o :: _ => Ok (io_Tag o)
            | [] => Err [CompileIssue InvalidSnapshot "/members" (in_TargetKey input) ""]
            end
        end
    end.

(** The two loops that append to [refs]. *)
Definition outbound_list (input : EmitInput) : list OutboundRef :=
  imap (λ i outbound,
    {| or_Tag := io_Tag outbound; or_Kind := KindIndependent; or_Resource := io_Resource outbound;
       or_DialerTag := ""; or_FieldPath := "/independents/" +:+ index_string i |})
    (in_Independents input) ++
  range_app (λ i chain,
    let base := "/chains/" +:+ index_string i in
    [{| or_Tag := ci_TagH1 chain; or_Kind := KindChainH1; or_Resource := ci_Hop1 chain;
        or_DialerTag := ""; or_FieldPath := base +:+ "/h1" |};
     {| or_Tag := ci_TagH2 chain; or_Kind := KindChainH2; or_Resource := ci_Hop2 chain;
        or_DialerTag := ci_TagH1 chain; or_FieldPath := base +:+ "/h2" |}]) (in_Chains input).

Definition OutboundRefs (input : EmitInput) : result Diagnostics (list OutboundRef) :=
  if MaxOutbounds <? Z.of_nat (length (in_Independents input)) + 2 * Z.of_nat (length (in_Chains input))
  then Err [CompileIssue InputLimitExceeded "/outbounds" (in_TargetKey input) ""]
  else
    let refs := outbound_list input in
    match range_err (λ i ref,
            let d := CompileIssue CompileLabelCollision (or_FieldPath ref) (in_TargetKey input)
                       (rid (or_Resource ref)) in
            if (or_Tag ref =s "") || IsReservedTag (or_Tag ref) then Some [d]
            else if seen_before or_Tag refs i ref then Some [d] else None) refs with
    | Some err => Err err
    | None => Ok refs
    end.

(** The exit is the last reference with the exit tag; the others are sorted. *)
Definition OrderedOutboundRefs (input : EmitInput)
    : result Diagnostics (string * list OutboundRef) :=
  let? exit := ExitTag input in
  let? refs := OutboundRefs input in
  let rest := filter (λ ref, or_Tag ref ≠ exit) refs in
  let sorted := isort (key_leb or_Tag) rest in
  match last (filter (λ ref, or_Tag ref = exit) refs) with
  | Some first => Ok (exit, first :: sorted)
  | None =>
      if negb (exit =s in_FinalTag input) && bool_decide (in_Policies input = [])
      then Err [CompileIssue InvalidSnapshot "/members" (in_TargetKey input) ""]
      else Ok (exit, sorted)
  end.

Definition UsesTag (input : EmitInput) (tag : string) : bool :=
  let exit := match ExitTag input with Ok exit => exit | Err _ => "" end in
  (exit =s tag) ||
  existsb (λ p, existsb (λ member, member =s tag) (pi_Members p)) (in_Policies input) ||
  match in_Routing input with
  | Some routing => existsb (λ rule, ru_Target rule =s tag) (ri_Rules routing)
  | None => false
  end ||
  match in_DNS input with
  | Some dns => existsb (λ kv, kv.2 =s tag) (map_to_list (di_OutboundTags dns))
  | None => false
  end.

Definition Listener (input : EmitInput) (defaultProtocol : string) (defaultPort : Z)
    : LocalListener :=
  match in_Preset input with
  | Some preset => cp_LocalListener preset
  | None => {| ll_Protocol := defaultProtocol; ll_Listen := LoopbackAddr; ll_Port := defaultPort |}
  end.

Definition ResolvePolicyTag (input : EmitInput) (tag : string) : string :=
  match list_find (λ p, pi_Tag p = tag ∧ pi_Strategy p = PolicyFixed) (in_Policies input) with
  | Some (_, policy) => pi_Default policy
  | None => tag
  end.

(** The last failing check decides the reported path. *)
Definition CommonLocalDNS (input : EmitInput) : error :=
  match in_DNS input with
  | None => None
  | Some dns =>
      let p := di_Profile dns in
      let path1 := match dp_Bootstrap p with
                   | [b] => if br_Kind b =s DNSLocal then "" else "/payload/bootstrap"
                   | _ => "/payload/bootstrap"
                   end in
      let path2 := match dp_Resolvers p with
                   | [r] => if dr_Kind r =s DNSLocal then path1 else "/payload/resolvers"
                   | _ => "/payload/resolvers"
                   end in
      let path := match di_Rules dns with rule :: _ => ru_FieldPath rule | [] => path2 end in
      if negb (path =s "")
      then Some [CompileIssue CompileUnmappedField path (in_TargetKey input) (di_ResourceID dns)]
      else None
  end.
End Emit.

(** ** Node mapping *)

(** [x != nil && *x]. *)
Definition is_set (x : option bool) : bool := match x with Some b => b | None => false end.

Definition MapTrojanNativeTLS (resource : Resource) (path targetKey : string)
    : result Diagnostics TrojanTLS :=
  let fail code suffix :=
    Err [CompileIssue code (path +:+ suffix) targetKey (rid resource)] in
  match r_Payload resource with
  | Payload_Node node =>
      if negb (n_Protocol node =s Trojan) then fail CompileUnmappedField "/protocol"
      else
        match n_Auth node with
        | Auth_Password auth =>
            if negb (pa_Kind auth =s AuthPassword) then fail CompileUnmappedField "/auth"
            else
              match n_Transport node with
              | Transport_TCP transport =>
                  if negb (tcp_Kind transport =s NativeTCP)
                  then fail CompileUnmappedField "/transport"
                  else
                    match n_Security node with
                    | Security_TLS tls =>
                        if negb (tls_Mode tls =s TLS) then fail CompileUnmappedField "/security"
                        else
                          match tls_VerifyCertificate tls with
                          | None => fail RequiredField "/security/verify_certificate"
                          | Some verify =>
                              let f := n_Features node in
                              if is_set (ft_Multiplex f)
                              then fail CompileUnmappedField "/features/multiplex"
                              else if bool_decide (ft_ProtocolVariant f ≠ None)
                              then fail CompileUnmappedField "/features/protocol_variant"
                              else if is_set (ft_UDP f)
                              then fail CompileUnmappedField "/features/udp"
                              else
                                Ok {| tt_Endpoint := n_Endpoint node; tt_Password := pa_Password auth;
                                      tt_ServerName := tls_ServerName tls; tt_VerifyCert := verify;
                                      tt_ALPN := tls_ALPN tls;
                                      tt_Fingerprint := default "" (tls_ClientFingerprint tls);
                                      tt_UDPFalse := bool_decide (ft_UDP f = Some false) |}
                          end
                    | _ => fail CompileUnmappedField "/security"
                    end
              | _ => fail CompileUnmappedField "/transport"
              end
        | _ => fail CompileUnmappedField "/auth"
        end
  | _ => Err [CompileIssue InvalidUnion path targetKey (rid resource)]
  end.

Section MapNode.
Context {P : Platform}.

(** [(Username, Password, UUID, Cipher)] of the authentication union. *)
Definition map_auth (auth : Authentication) : outcome unit (Secret * Secret * Secret * string) :=
  match auth with
  | Auth_MethodPassword a => Ret ("", mpa_Password a, "", mpa_Method a)
  | Auth_VMess a => Ret ("", "", vma_UUID a, vma_Cipher a)
  | Auth_UUID a => Ret ("", "", ua_UUID a, "")
  | Auth_Password a => Ret ("", pa_Password a, "", "")
  | Auth_UsernamePassword a => Ret (upa_Username a, upa_Password a, "", "")
  | Auth_None _ => Ret ("", "", "", "")
  (* A nil [*NoAuth] is never dereferenced; the other nil variants are. *)
  | Auth_typed_nil variant => if variant =s AuthNone then Ret ("", "", "", "") else Panics
  | Auth_nil => Fails ()
  end.

Definition MapNode (resource : Resource) (path target : string) : outcome Diagnostics MappedNode :=
  let fail suffix :=
    Fails [CompileIssue CompileUnmappedField (path +:+ suffix) target (rid resource)] in
  match r_Payload resource with
  | Payload_Node node =>
      match Node_Validate node with
      | Some diagnostics =>
          Fails ((λ d, {| d_Code := d_Code d; d_Severity := d_Severity d;
                          d_ResourceID := rid resource; d_FieldPath := path +:+ d_FieldPath d;
                          d_TargetKey := target; d_Message := d_Message d;
                          d_SuggestedAction := d_SuggestedAction d |}) <$> diagnostics)
      | None =>
          if is_set (ft_UDP (n_Features node)) then fail "/features/udp"
          else if is_set (ft_Multiplex (n_Features node)) then fail "/features/multiplex"
          else
            match map_auth (n_Auth node) with
            | Panics => Panics
            | Fails _ => fail "/auth"
            | Ret (username, password, uuid, cipher) =>
                let mapped ws tls reality :=
                  Ret {| mn_Node := node; mn_Password := password; mn_Username := username;
                         mn_UUID := uuid; mn_Cipher := cipher;
                         mn_Flow := default "" (ft_ProtocolVariant (n_Features node));
                         mn_WS := ws; mn_TLS := tls; mn_Reality := reality |} in
                let with_security ws :=
                  match n_Security node with
                  | Security_None _ | Security_typed_nil _ => mapped ws None None
                  | Security_TLS s => mapped ws (Some s) None
                  | Security_Reality s => mapped ws None (Some s)
                  | Security_nil => fail "/security"
                  end in
                match n_Transport node with
                | Transport_TCP _ | Transport_typed_nil _ => with_security None
                | Transport_WS t => with_security (Some t)
                | Transport_nil => fail "/transport"
                end
            end
      end
  | _ => fail ""
  end.
End MapNode.
