(* ===== verification/Network.v ===== *)
(** Addresses, prefixes, URLs and text as the native emitters use them: [net/netip]
    and [net/url] up to their parsers and printers, [strings.Cut] and [strings.Join]. *)
From S2P Require Import Prelude Diagnostics IRTypes.

(** ** Addresses and prefixes *)

(** An address is its family and its bits, a prefix an address and how many of its
    leading bits count. *)
Record Addr := { a_is6 : bool; a_bits : list bool }.
Record NetPrefix := { np_Addr : Addr; np_Bits : nat }.

(** [Prefix.Contains]: the families agree, and so do the leading bits. *)
Definition prefix_Contains (p : NetPrefix) (a : Addr) : bool :=
  Bool.eqb (a_is6 (np_Addr p)) (a_is6 a) &&
  bool_decide (take (np_Bits p) (a_bits (np_Addr p)) = take (np_Bits p) (a_bits a)).

(** A parsed [url.URL]: [Hostname()], [Port()], [RawQuery], [ForceQuery], [RawPath],
    [EscapedPath()], and [String()] once another scheme or fragment has been set. *)
Record NetURL := {
  nu_Hostname : string; nu_Port : string; nu_RawQuery : string; nu_ForceQuery : bool;
  nu_RawPath : string; nu_EscapedPath : string;
  nu_String : option string → option string → string }.

(** The parsers of [net/netip] and [net/url]. *)
Class Network := {
  ParseAddr : string → option Addr;
  ParseNetPrefix : string → option NetPrefix;
  ParseURL : string → option NetURL }.

(** [Node.NeedsBootstrap] ([ir/dns.go]): whether the endpoint is a name. *)
Definition NeedsBootstrap {N : Network} (n : Node) : bool :=
  bool_decide (ParseAddr (ep_Host (n_Endpoint n)) = None).

(** [net.JoinHostPort]: a host with a colon is bracketed. *)
Definition JoinHostPort (host port : string) : string :=
  if Contains host ":" then "[" +:+ host +:+ "]:" +:+ port else host +:+ ":" +:+ port.

(** ** Text *)

(** [strings.Cut] at a one-byte separator: the text before and after it. *)
Fixpoint Cut (sep : ascii) (s : string) : option (string * string) :=
  match s with
  | EmptyString => None
  | String c s =>
      if Ascii.eqb c sep then Some ("", s)
      else match Cut sep s with
           | Some (before, after) => Some (String c before, after)
           | None => None
           end
  end.

(** [before, after, _ := strings.Cut(s, sep)]. *)
Definition cut_or_all (sep : ascii) (s : string) : string * string := default (s, "") (Cut sep s).

(** [strings.ReplaceAll] of one byte by another. *)
Fixpoint replace_char (old new : ascii) (s : string) : string :=
  match s with
  | EmptyString => ""
  | String c s => String (if Ascii.eqb c old then new else c) (replace_char old new s)
  end.

(** [strings.TrimSuffix] and [strings.TrimPrefix]. *)
Definition TrimSuffix (s suffix : string) : string :=
  if HasSuffix s suffix then String.substring 0 (String.length s - String.length suffix) s else s.
Definition TrimPrefix (s prefix : string) : string :=
  if HasPrefix s prefix
  then String.substring (String.length prefix) (String.length s - String.length prefix) s else s.

(** The name and what follows each of its dots. *)
Fixpoint after_dots (s : string) : list string :=
  match s with
  | EmptyString => []
  | String c s => if Ascii.eqb c "." then s :: after_dots s else after_dots s
  end.
Definition domain_suffixes (name : string) : list string := name :: after_dots name.

(** ** Suffixes *)

Lemma substring_whole p : String.substring 0 (String.length p) p = p.
Proof. induction p as [|c p IH]; simpl; [done|by rewrite IH]. Qed.

Lemma string_length_app q p :
  String.length (q +:+ p) = (String.length q + String.length p)%nat.
Proof. induction q as [|c q IH]; [done|]. rewrite string_app_cons. simpl. by rewrite IH. Qed.

Lemma substring_app q p :
  String.substring (String.length q) (String.length p) (q +:+ p) = p.
Proof. induction q as [|c q IH]; [apply substring_whole|exact IH]. Qed.

Lemma substring_split n s :
  (n ≤ String.length s)%nat →
  s = String.substring 0 n s +:+ String.substring n (String.length s - n) s.
Proof.
  revert n. induction s as [|c s IH]; intros [|n] Hn; simpl in Hn; try lia.
  - done.
  - by rewrite Nat.sub_0_r, substring_whole.
  - simpl. rewrite string_app_cons. f_equal. apply IH. lia.
Qed.

(** [strings.HasSuffix]: the string is something followed by the suffix. *)
Lemma HasSuffix_spec s p : HasSuffix s p = true ↔ ∃ q, s = q +:+ p.
Proof.
  unfold HasSuffix. rewrite andb_true_iff, Nat.leb_le, String.eqb_eq. split.
  - intros [Hle Heq].
    pose proof (substring_split (String.length s - String.length p) s ltac:(lia)) as H.
    replace (String.length s - (String.length s - String.length p))%nat
      with (String.length p) in H by lia.
    rewrite Heq in H. by eexists.
  - intros [q ->]. rewrite string_length_app. split; [lia|].
    rewrite Nat.add_sub. apply substring_app.
Qed.

(** Two suffixes of one string are suffixes of one another. *)
Lemma suffix_comparable a b x y :
  a +:+ x = b +:+ y → (∃ q, y = q +:+ x) ∨ (∃ q, x = q +:+ y).
Proof.
  revert b. induction a as [|c a IH]; intros b E; str_simpl; [right; by exists b|].
  destruct b as [|c' b]; str_simpl; [left; by exists (String c a)|].
  injection E as _ E. by apply IH in E.
Qed.

(** ** Domain names *)

(** The name is in the tree of [root]: it is [root] or ends with a dot and [root]. *)
Definition under (name root : string) : Prop := ∃ q, "." +:+ name = q +:+ "." +:+ root.

Lemma under_spec name root : under name root ↔ name = root ∨ ∃ q, name = q +:+ "." +:+ root.
Proof.
  unfold under. split.
  - intros [[|c q] E]; str_simpl; injection E; [by left|]. intros -> ->. right. by exists q.
  - intros [-> |[q ->]]; [by exists ""|]. exists ("." +:+ q). by str_simpl.
Qed.

Lemma under_refl name : under name name.
Proof. by exists "". Qed.

Lemma under_trans a b c : under a b → under b c → under a c.
Proof.
  intros [q Hq] [q' Hq']. exists (q +:+ q'). rewrite Hq, Hq'. by rewrite string_app_assoc.
Qed.

(** Two trees that share a name are nested. *)
Lemma under_comparable d a b : under d a → under d b → under a b ∨ under b a.
Proof.
  intros [q Hq] [q' Hq']. rewrite Hq in Hq'.
  destruct (suffix_comparable _ _ _ _ Hq') as [[p H]|[p H]]; [right|left]; by exists p.
Qed.

Lemma under_eqb name root :
  (name =s root) || HasSuffix name ("." +:+ root) = true ↔ under name root.
Proof. by rewrite under_spec, orb_true_iff, String.eqb_eq, HasSuffix_spec. Qed.

Lemma elem_of_after_dots x s : x ∈ after_dots s ↔ ∃ q, s = q +:+ "." +:+ x.
Proof.
  induction s as [|c s IH]; simpl.
  { split; [by intros ?%elem_of_nil|]. by intros [[|] E]. }
  transitivity ((c = "."%char ∧ s = x) ∨ x ∈ after_dots s).
  { destruct (Ascii.eqb_spec c "."); [rewrite elem_of_cons|]; naive_solver. }
  rewrite IH. split.
  - intros [[-> ->]|[q ->]]; [by exists ""|by exists (String c q)].
  - intros [[|c' q] E]; str_simpl; injection E as -> E; [by left|right; by exists q].
Qed.

(** [domain_suffixes] lists the roots of the trees that hold the name. *)
Lemma elem_of_domain_suffixes x name : x ∈ domain_suffixes name ↔ under name x.
Proof.
  unfold domain_suffixes. rewrite elem_of_cons, elem_of_after_dots, under_spec. naive_solver.
Qed.

Lemma Cut_app sep k v :
  all_chars (λ c, negb (Ascii.eqb c sep)) k = true →
  Cut sep (k +:+ String sep v) = Some (k, v).
Proof.
  induction k as [|c k IH]; simpl; [by rewrite Ascii.eqb_refl|].
  rewrite andb_true_iff, negb_true_iff. intros [-> H]. by rewrite IH.
Qed.

Lemma cut_prefix k v :
  all_chars (λ c, negb (Ascii.eqb c ":")) k = true →
  cut_or_all ":" ((k +:+ ":") +:+ v) = (k, v).
Proof.
  intros H. unfold cut_or_all. rewrite string_app_assoc. str_simpl.
  by rewrite Cut_app.
Qed.

(** ** Comma-separated lists *)

(** [strings.Split] at a one-byte separator. *)
Fixpoint Split (sep : ascii) (s : string) : list string :=
  match s with
  | EmptyString => [""]
  | String c s =>
      if Ascii.eqb c sep then "" :: Split sep s
      else match Split sep s with
           | [] => [String c ""]
           | x :: l => String c x :: l
           end
  end.

Definition free_of (sep : ascii) (s : string) : bool := all_chars (λ c, negb (Ascii.eqb c sep)) s.

Lemma Split_free sep s : free_of sep s = true → Split sep s = [s].
Proof.
  unfold free_of. induction s as [|c s IH]; simpl; [done|].
  rewrite andb_true_iff, negb_true_iff. intros [-> H]. by rewrite IH.
Qed.

Lemma Split_app sep s t :
  free_of sep s = true → Split sep (s +:+ String sep t) = s :: Split sep t.
Proof.
  unfold free_of. induction s as [|c s IH]; simpl; [by rewrite Ascii.eqb_refl|].
  rewrite andb_true_iff, negb_true_iff. intros [Hc H]. specialize (IH H).
  change (String c s +:+ String sep t) with (String c (s +:+ String sep t)). simpl.
  by rewrite Hc, IH.
Qed.

(** Splitting takes a joined list apart. *)
Lemma Split_concat sep l :
  l ≠ [] → Forall (λ s, free_of sep s = true) l → Split sep (String.concat (String sep "") l) = l.
Proof.
  intros Hne Hl. destruct l as [|s l]; [done|]. clear Hne. revert s Hl.
  induction l as [|t l IH]; intros s [Hs Hl]%Forall_cons; [by apply Split_free|].
  change (String.concat (String sep "") (s :: t :: l))
    with (s +:+ String sep "" +:+ String.concat (String sep "") (t :: l)).
  change (String sep "" +:+ ?x) with (String sep x). rewrite Split_app by done.
  by rewrite IH.
Qed.

Lemma replace_char_free old new s : free_of old s = true → replace_char old new s = s.
Proof.
  unfold free_of. induction s as [|c s IH]; simpl; [done|].
  rewrite andb_true_iff, negb_true_iff. intros [-> H]. by rewrite IH.
Qed.

(** Replacing a byte by one that does not occur can be undone. *)
Lemma replace_char_back a b s : free_of b s = true → replace_char b a (replace_char a b s) = s.
Proof.
  unfold free_of. induction s as [|c s IH]; simpl; [done|].
  rewrite andb_true_iff, negb_true_iff. intros [Hc H]. rewrite IH by done. f_equal.
  destruct (Ascii.eqb_spec c a) as [->|]; [by rewrite Ascii.eqb_refl|by rewrite Hc].
Qed.
