(* ===== verification/Domains.v ===== *)
(** Sets of domain patterns: the reduction of a condition on domains to a list of
    exact names and suffix trees, as [dnsDomains] does it in [adapter/xray/dns.go] and,
    with other prefixes, in [adapter/mihomo/dns.go]. *)
From S2P Require Import Prelude Diagnostics IRTypes Adapter Network.

Section Domains.
(** The prefixes of an exact name and of a suffix tree: "full:" and "domain:" for
    Xray, "exact:" and "suffix:" for Mihomo. *)
Context (exact suffix : string).

Definition domain_prefix (kind : string) : string :=
  if kind =s "domain_suffix" then suffix else exact.

Definition prefixed_values (kind : string) (values : list string) : list string :=
  (λ v, domain_prefix kind +:+ v) <$> values.

(** The membership test of [dnsDomainIntersection]. *)
Definition domains_contain (set : list string) (pattern : string) : bool :=
  bool_decide (pattern ∈ set) ||
  existsb (λ name, bool_decide ((suffix +:+ name) ∈ set))
    (domain_suffixes (cut_or_all ":" pattern).2).

(** [dnsDomainIntersection]. *)
Definition domains_intersection (a b : list string) : list string :=
  CompactFunc String.eqb (sort_strings
    (filter (λ v, domains_contain b v = true) a ++ filter (λ v, domains_contain a v = true) b)).

(** One term of the loop of [dnsDomains]. *)
Definition domains_combine (kind : string) (i : nat) (out next : list string) : list string :=
  if kind =s "or" then out ++ next
  else match i with O => next | _ => domains_intersection out next end.

Definition over_rules {A} (l : list A) : bool := MaxRules <? Z.of_nat (length l).

(** [dnsDomains]: the patterns of a condition on domains, or a code. *)
Fixpoint domains_of (c : Condition) : result DiagnosticCode (list string) :=
  match c with
  | Cond kind values terms =>
      if (kind =s "domain") || (kind =s "domain_suffix") then
        if over_rules values then Err InputLimitExceeded else Ok (prefixed_values kind values)
      else if negb ((kind =s "and") || (kind =s "or")) || bool_decide (length terms = 0%nat)
      then Err CompileUnmappedField
      else
        let? out :=
          (fix each (i : nat) (out : list string) (l : list Condition)
              : result DiagnosticCode (list string) :=
             match l with
             | [] => Ok out
             | term :: l =>
                 let? next := domains_of term in
                 let out := domains_combine kind i out next in
                 if over_rules out then Err InputLimitExceeded else each (S i) out l
             end) 0%nat [] terms in
        Ok (CompactFunc String.eqb (sort_strings out))
  end.
End Domains.
