(* ===== verification/Xray.v ===== *)
(** The Xray emitter ([internal/adapter/xray]): [node.go], [orchestration.go],
    [dns.go], [emit.go]. *)
From S2P Require Import Prelude Diagnostics IRTypes Hashes Json IRValidate Labels Adapter Network.
From S2P Require Import Domains.

Module Xray.

Definition ContentType := JSONContentType.
Definition ListenPort : Z := 17801.

(** ** The document *)

Record sockopt := { DialerProxy : string; DomainStrategy : string }.
Record wsConf := { ws_path : string; ws_headers : option string }.
Record realityConf := {
  r_serverName : string; r_fingerprint : string; r_publicKey : string; r_shortId : string }.
Record tlsConf := {
  t_serverName : string; t_allowInsecure : bool; t_alpn : list string; t_fingerprint : string }.
Record stream := {
  s_Network : string; s_Security : string; s_TLS : option tlsConf; s_WS : option wsConf;
  s_Reality : option realityConf; s_Sockopt : option sockopt }.

Record credentialUser := {
  cu_ID : string; cu_Encryption : string; cu_Security : string; cu_Flow : string;
  cu_User : string; cu_Pass : string }.
Record remoteServer := {
  rs_Address : string; rs_Port : Z; rs_Method : string; rs_Password : string;
  rs_Users : list credentialUser }.
Record trojanServer := { ts_Address : string; ts_Port : Z; ts_Password : string }.

(** The dynamic types of [outbound.Settings]. *)
Inductive settings :=
| Settings_none
| Settings_trojan (servers : list trojanServer)
| Settings_servers (servers : list remoteServer)
| Settings_vnext (vnext : list remoteServer)
| Settings_freedom (domainStrategy : string).

Record outbound := {
  o_Protocol : string; o_Settings : settings; o_Stream : option stream; o_Tag : string }.

Record inbound := {
  i_Listen : string; i_Port : Z; i_Protocol : string; i_Auth : string; i_UDP : bool;
  i_Tag : string }.

Record routingRule := {
  rr_InboundTag : list string; rr_OutboundTag : string; rr_BalancerTag : string;
  rr_Domain : list string; rr_IP : list string; rr_Port : string; rr_Network : string }.

Record balancer := {
  b_Tag : string; b_Selector : list string; b_FallbackTag : string; b_Strategy : string }.

Record dnsServer := {
  ds_Address : string; ds_Port : Z; ds_Domains : list string; ds_Tag : string;
  ds_SkipFallback : bool; ds_FinalQuery : bool }.

Record document := {
  doc_LogLevel : string; doc_Inbound : inbound; doc_Outbounds : list outbound;
  doc_DomainStrategy : string; doc_Rules : list routingRule; doc_Balancers : list balancer;
  doc_DNS : option (list dnsServer); doc_Observatory : bool }.

(** ** JSON *)

Definition sockopt_json (s : sockopt) : Json :=
  Obj ([("dialerProxy", Str (DialerProxy s))] ++ omit_string "domainStrategy" (DomainStrategy s)).
Definition ws_json (w : wsConf) : Json :=
  Obj ([("path", Str (ws_path w))] ++
       omit_none "headers" (λ host, Obj [("Host", Str host)]) (ws_headers w)).
Definition reality_json (r : realityConf) : Json :=
  Obj [("serverName", Str (r_serverName r)); ("fingerprint", Str (r_fingerprint r));
       ("publicKey", Str (r_publicKey r)); ("shortId", Str (r_shortId r))].
Definition tls_json (t : tlsConf) : Json :=
  Obj ([("serverName", Str (t_serverName t)); ("allowInsecure", Bool (t_allowInsecure t))] ++
       omit_strings "alpn" (t_alpn t) ++ omit_string "fingerprint" (t_fingerprint t)).
Definition stream_json (s : stream) : Json :=
  Obj ([("network", Str (s_Network s)); ("security", Str (s_Security s))] ++
       omit_none "tlsSettings" tls_json (s_TLS s) ++ omit_none "wsSettings" ws_json (s_WS s) ++
       omit_none "realitySettings" reality_json (s_Reality s) ++
       omit_none "sockopt" sockopt_json (s_Sockopt s)).

Definition user_json (u : credentialUser) : Json :=
  Obj (omit_string "id" (cu_ID u) ++ omit_string "encryption" (cu_Encryption u) ++
       omit_string "security" (cu_Security u) ++ omit_string "flow" (cu_Flow u) ++
       omit_string "user" (cu_User u) ++ omit_string "pass" (cu_Pass u)).
Definition server_json (s : remoteServer) : Json :=
  Obj ([("address", Str (rs_Address s)); ("port", Int (rs_Port s))] ++
       omit_string "method" (rs_Method s) ++ omit_string "password" (rs_Password s) ++
       match rs_Users s with [] => [] | users => [("users", Arr (user_json <$> users))] end).
Definition trojan_json (s : trojanServer) : Json :=
  Obj [("address", Str (ts_Address s)); ("port", Int (ts_Port s));
       ("password", Str (ts_Password s))].

Definition settings_json (s : settings) : list (string * Json) :=
  let field v := [("settings", v)] in
  match s with
  | Settings_none => []
  | Settings_trojan servers => field (Obj [("servers", Arr (trojan_json <$> servers))])
  | Settings_servers servers => field (Obj [("servers", Arr (server_json <$> servers))])
  | Settings_vnext vnext => field (Obj [("vnext", Arr (server_json <$> vnext))])
  | Settings_freedom strategy => field (Obj [("domainStrategy", Str strategy)])
  end.
Definition outbound_json (o : outbound) : Json :=
  Obj ([("protocol", Str (o_Protocol o))] ++ settings_json (o_Settings o) ++
       omit_none "streamSettings" stream_json (o_Stream o) ++ [("tag", Str (o_Tag o))]).

Definition inbound_json (i : inbound) : Json :=
  Obj [("listen", Str (i_Listen i)); ("port", Int (i_Port i)); ("protocol", Str (i_Protocol i));
       ("settings", Obj [("auth", Str (i_Auth i)); ("udp", Bool (i_UDP i))]);
       ("tag", Str (i_Tag i))].
Definition rule_json (r : routingRule) : Json :=
  Obj ([("type", Str "field"); ("inboundTag", strings (rr_InboundTag r))] ++
       omit_string "outboundTag" (rr_OutboundTag r) ++
       omit_string "balancerTag" (rr_BalancerTag r) ++
       omit_strings "domain" (rr_Domain r) ++ omit_strings "ip" (rr_IP r) ++
       omit_string "port" (rr_Port r) ++ omit_string "network" (rr_Network r)).
Definition balancer_json (b : balancer) : Json :=
  Obj [("tag", Str (b_Tag b)); ("selector", strings (b_Selector b));
       ("fallbackTag", Str (b_FallbackTag b));
       ("strategy", Obj [("type", Str (b_Strategy b))])].
Definition dns_server_json (s : dnsServer) : Json :=
  Obj ([("address", Str (ds_Address s))] ++ omit_int "port" (ds_Port s) ++
       omit_strings "domains" (ds_Domains s) ++ omit_string "tag" (ds_Tag s) ++
       [("skipFallback", Bool (ds_SkipFallback s)); ("finalQuery", Bool (ds_FinalQuery s))]).
Definition dns_json (servers : list dnsServer) : Json :=
  Obj [("servers", Arr (dns_server_json <$> servers)); ("disableFallback", Bool false);
       ("disableFallbackIfMatch", Bool true); ("enableParallelQuery", Bool false);
       ("useSystemHosts", Bool false)].

Definition document_json (d : document) : Json :=
  Obj ([("log", Obj [("loglevel", Str (doc_LogLevel d))]);
        ("inbounds", Arr [inbound_json (doc_Inbound d)]);
        ("outbounds", Arr (outbound_json <$> doc_Outbounds d));
        ("routing", Obj ([("domainStrategy", Str (doc_DomainStrategy d));
                          ("rules", Arr (rule_json <$> doc_Rules d))] ++
                         match doc_Balancers d with
                         | [] => [] | bs => [("balancers", Arr (balancer_json <$> bs))] end))] ++
       omit_none "dns" dns_json (doc_DNS d) ++
       (if doc_Observatory d then [("observatory", Obj [("subjectSelector", Arr [])])] else [])).

(** ** Nodes *)

Definition nodeOutbound (tag : string) (m : MappedNode) (dialer : string)
    : outcome Diagnostics outbound :=
  let n := mn_Node m in
  let ws : option wsConf := (λ w, {| ws_path := ws_Path w; ws_headers := ws_Host w |}) <$> mn_WS m in
  let! tls :=
    match mn_TLS m with
    | None => Ret None
    | Some t =>
        let! verify := must (tls_VerifyCertificate t) in
        Ret (Some {| t_serverName := tls_ServerName t; t_allowInsecure := negb verify;
                     t_alpn := tls_ALPN t; t_fingerprint := default "" (tls_ClientFingerprint t) |})
    end in
  let reality : option realityConf :=
    (λ r, {| r_serverName := rs_ServerName r; r_fingerprint := rs_ClientFingerprint r;
             r_publicKey := rs_PublicKey r; r_shortId := rs_ShortID r |}) <$> mn_Reality m in
  let security :=
    if reality is Some _ then "reality" else if tls is Some _ then "tls" else "none" in
  let s := {| s_Network := if ws is Some _ then "ws" else "tcp"; s_Security := security; s_TLS := tls;
              s_WS := ws; s_Reality := reality;
              s_Sockopt := if dialer =s "" then None
                           else Some {| DialerProxy := dialer; DomainStrategy := "" |} |} in
  let host := ep_Host (n_Endpoint n) in
  let port := ep_Port (n_Endpoint n) in
  let server method password users :=
    {| rs_Address := host; rs_Port := port; rs_Method := method; rs_Password := password;
       rs_Users := users |} in
  let item protocol settings :=
    Ret {| o_Protocol := protocol; o_Settings := settings; o_Stream := Some s; o_Tag := tag |} in
  let p := n_Protocol n in
  if p =s Trojan then
    item p (Settings_trojan [{| ts_Address := host; ts_Port := port; ts_Password := mn_Password m |}])
  else if p =s Shadowsocks then
    item p (Settings_servers [server (mn_Cipher m) (mn_Password m) []])
  else if (p =s VMess) || (p =s VLESS) then
    let user :=
      {| cu_ID := mn_UUID m; cu_Encryption := if p =s VMess then "" else "none";
         cu_Security := if p =s VMess then mn_Cipher m else ""; cu_Flow := mn_Flow m;
         cu_User := ""; cu_Pass := "" |} in
    item p (Settings_vnext [server "" "" [user]])
  else if (p =s SOCKS5) || (p =s HTTP) then
    let users :=
      match n_Auth n with
      | Auth_UsernamePassword _ =>
          [{| cu_ID := ""; cu_Encryption := ""; cu_Security := ""; cu_Flow := "";
              cu_User := mn_Username m; cu_Pass := mn_Password m |}]
      | Auth_typed_nil v =>
          if v =s AuthUsernamePassword
          then [{| cu_ID := ""; cu_Encryption := ""; cu_Security := ""; cu_Flow := "";
                   cu_User := mn_Username m; cu_Pass := mn_Password m |}]
          else []
      | _ => []
      end in
    item (if p =s SOCKS5 then "socks" else p) (Settings_servers [server "" "" users])
  else item p Settings_none.

(** [trojanOutbound]: the outbound of the Trojan mapping. *)
Definition trojanOutbound (tag : string) (mapped : TrojanTLS) (dialerTag : string) : outbound :=
  {| o_Protocol := "trojan";
     o_Settings := Settings_trojan
       [{| ts_Address := ep_Host (tt_Endpoint mapped); ts_Port := ep_Port (tt_Endpoint mapped);
           ts_Password := tt_Password mapped |}];
     o_Stream := Some
       {| s_Network := "tcp"; s_Security := "tls";
          s_TLS := Some {| t_serverName := tt_ServerName mapped;
                           t_allowInsecure := negb (tt_VerifyCert mapped);
                           t_alpn := tt_ALPN mapped; t_fingerprint := tt_Fingerprint mapped |};
          s_WS := None; s_Reality := None;
          s_Sockopt := if dialerTag =s "" then None
                       else Some {| DialerProxy := dialerTag; DomainStrategy := "" |} |};
     o_Tag := tag |}.

(** ** Conditions *)

(** [distribute]: alternatives of conjunctions. *)
Fixpoint distribute (c : Condition) : list (list Condition) :=
  match c with
  | Cond kind values terms =>
      let branches :=
        (fix each (l : list Condition) : list (list (list Condition)) :=
           match l with [] => [] | t :: l => distribute t :: each l end) terms in
      if kind =s "or" then mjoin branches
      else if kind =s "and" then
        foldl (λ result alternatives,
          a ← result; b ← alternatives; [a ++ b]) [[]] branches
      else [[c]]
  end.

Definition domainIncludes (a b : string) : bool :=
  let '(ap, av) := cut_or_all ":" a in
  let '(bp, bv) := cut_or_all ":" b in
  if ap =s "full" then (bp =s "full") && (av =s bv)
  else (av =s bv) || HasSuffix bv ("." +:+ av).

(** The pairwise intersection, by inclusion in either direction. *)
Definition intersection (includes : string → string → bool) (xs ys : list string) : list string :=
  CompactFunc String.eqb (sort_strings
    (a ← xs; b ← ys;
     if includes a b then [b] else if includes b a then [a] else [])).

Section Conditions.
Context {N : Network}.

(** [pa.Contains(pb.Addr()) && pa.Bits() <= pb.Bits()]. *)
Definition prefix_includes (a b : string) : bool :=
  match ParseNetPrefix a, ParseNetPrefix b with
  | Some pa, Some pb =>
      prefix_Contains pa (np_Addr pb) && (np_Bits pa <=? np_Bits pb)%nat
  | _, _ => false
  end.

Definition with_domain (r : routingRule) (domain : list string) : routingRule :=
  {| rr_InboundTag := rr_InboundTag r; rr_OutboundTag := rr_OutboundTag r;
     rr_BalancerTag := rr_BalancerTag r; rr_Domain := domain; rr_IP := rr_IP r;
     rr_Port := rr_Port r; rr_Network := rr_Network r |}.
Definition with_ip (r : routingRule) (ip : list string) : routingRule :=
  {| rr_InboundTag := rr_InboundTag r; rr_OutboundTag := rr_OutboundTag r;
     rr_BalancerTag := rr_BalancerTag r; rr_Domain := rr_Domain r; rr_IP := ip;
     rr_Port := rr_Port r; rr_Network := rr_Network r |}.
Definition with_port (r : routingRule) (port : string) : routingRule :=
  {| rr_InboundTag := rr_InboundTag r; rr_OutboundTag := rr_OutboundTag r;
     rr_BalancerTag := rr_BalancerTag r; rr_Domain := rr_Domain r; rr_IP := rr_IP r;
     rr_Port := port; rr_Network := rr_Network r |}.
Definition with_network (r : routingRule) (network : string) : routingRule :=
  {| rr_InboundTag := rr_InboundTag r; rr_OutboundTag := rr_OutboundTag r;
     rr_BalancerTag := rr_BalancerTag r; rr_Domain := rr_Domain r; rr_IP := rr_IP r;
     rr_Port := rr_Port r; rr_Network := network |}.

(** [addCondition]: the narrowed rule and whether it can still match. A prefix that
    does not parse panics, once it meets another one. *)
Definition addCondition (rule : routingRule) (c : Condition)
    : outcome Diagnostics (routingRule * bool) :=
  let '(Cond kind values _) := c in
  if (kind =s "domain") || (kind =s "domain_suffix") then
    let incoming := prefixed_values "full:" "domain:" kind values in
    match rr_Domain rule with
    | [] => Ret (with_domain rule incoming, true)
    | domain =>
        let domain := intersection domainIncludes domain incoming in
        Ret (with_domain rule domain, negb (bool_decide (domain = [])))
    end
  else if kind =s "ip_cidr" then
    match rr_IP rule with
    | [] => Ret (with_ip rule values, true)
    | ip =>
        if forallb (λ v, bool_decide (is_Some (ParseNetPrefix v))) (ip ++ values) then
          let ip := intersection prefix_includes ip values in
          Ret (with_ip rule ip, negb (bool_decide (ip = [])))
        else Panics
    end
  else if kind =s "port" then
    Ret (with_port rule (replace_char ":" "-" (String.concat "," values)), true)
  else if kind =s "network" then Ret (with_network rule (String.concat "," values), true)
  else Ret (rule, false).

(** The [matched] loop over the terms of a branch; [None] when it broke off. *)
Fixpoint add_conditions (rule : routingRule) (terms : list Condition)
    : outcome Diagnostics (option routingRule) :=
  match terms with
  | [] => Ret (Some rule)
  | term :: terms =>
      let! added := addCondition rule term in
      if added.2 then add_conditions added.1 terms else Ret None
  end.

(** ** Orchestration *)

Definition balanced (balancers : list balancer) (tag : string) : bool :=
  existsb (λ b, b_Tag b =s tag) balancers.

(** A rule for inbound [inbounds] to [tag], a balancer where there is one. *)
Definition rule_to (balancers : list balancer) (inbounds : list string) (tag : string)
    : routingRule :=
  let b := balanced balancers tag in
  {| rr_InboundTag := inbounds; rr_OutboundTag := if b then "" else tag;
     rr_BalancerTag := if b then tag else ""; rr_Domain := []; rr_IP := []; rr_Port := "";
     rr_Network := "" |}.

Definition targetRule (input : EmitInput) (balancers : list balancer) (tag : string) : routingRule :=
  rule_to balancers [InboundTag] (ResolvePolicyTag input tag).

Definition policy_balancer (input : EmitInput) (outbounds : list outbound) (p : PolicyInstance)
    : result Diagnostics (list balancer) :=
  let fail code path := Err [CompileIssue code path (in_TargetKey input) (pi_ResourceID p)] in
  if pi_Strategy p =s PolicyFixed then Ok []
  else if negb (pi_Strategy p =s PolicyRoundRobin)
  then fail CapabilityUnsupported "/payload/strategy"
  else if existsb (λ tag,
            existsb (λ out, negb (o_Tag out =s tag) && HasPrefix (o_Tag out) tag) outbounds)
            (pi_Members p)
  then fail CompileLabelCollision "/payload/members"
  else Ok [{| b_Tag := pi_Tag p; b_Selector := pi_Members p; b_FallbackTag := BlockTag;
              b_Strategy := "roundRobin" |}].

Fixpoint policy_balancers (input : EmitInput) (outbounds : list outbound)
    (policies : list PolicyInstance) : result Diagnostics (list balancer) :=
  match policies with
  | [] => Ok []
  | p :: policies =>
      let? b := policy_balancer input outbounds p in
      let? rest := policy_balancers input outbounds policies in Ok (b ++ rest)
  end.

(** The rules of one compiled rule: one per branch that can match. *)
Definition branch_rules (input : EmitInput) (balancers : list balancer) (r : RouteRule)
    : outcome Diagnostics (list routingRule) :=
  range_fold (λ _ terms rules,
    let! rule := add_conditions (targetRule input balancers (ru_Target r)) terms in
    Ret (rules ++ match rule with Some rule => [rule] | None => [] end))
    (distribute (ru_Condition r)) [].

Definition routing_rules (input : EmitInput) (balancers : list balancer)
    : outcome Diagnostics (list routingRule) :=
  let exit := match ExitTag input with Ok exit => exit | Err _ => "" end in
  let! rules :=
    match in_Routing input with
    | None => Ret []
    | Some routing =>
        range_fold (λ _ r rules, let! new := branch_rules input balancers r in Ret (rules ++ new))
          (ri_Rules routing) []
    end in
  Ret (rules ++ [targetRule input balancers exit]).

Definition direct_outbound (input : EmitInput) : list outbound :=
  if UsesTag input "direct" then
    [{| o_Protocol := "freedom";
        o_Settings := match in_DNS input with
                      | Some _ => Settings_freedom "ForceIP" | None => Settings_none end;
        o_Stream := None; o_Tag := "direct" |}]
  else [].
End Conditions.

(** ** DNS *)

(** [dnsDomainIntersection], [dnsDomains]. *)
Definition dnsDomainIntersection := domains_intersection "domain:".
Definition dnsDomains := domains_of "full:" "domain:".

Definition private_suffixes : list string :=
  ["local"; "localdomain"; "localhost"; "lan"; "home.arpa"; "example"; "invalid"; "test"].

Definition dnsMatchesPrivate (domains : list string) : bool :=
  existsb (λ pattern,
    let '(kind, name) := cut_or_all ":" pattern in
    negb (Contains name ".") ||
    existsb (λ suffix,
      (name =s suffix) || HasSuffix name ("." +:+ suffix) ||
      ((kind =s "domain") && HasSuffix suffix ("." +:+ name))) private_suffixes) domains.

Section Emit.
Context {N : Network} {P : Platform} {T : GoText}.

Definition starts_local (p : DNSProfile) : bool :=
  match dp_Bootstrap p with b :: _ => br_Kind b =s DNSLocal | [] => false end.

(** [bootstrap[id].Kind == DNSLocal] with [ok]: the last entry of an identifier wins. *)
Definition bootstrap_local (p : DNSProfile) (id : string) : bool :=
  match last (filter (λ b, br_ResolverID b = id) (dp_Bootstrap p)) with
  | Some b => br_Kind b =s DNSLocal
  | None => false
  end.

(** A resolver's server and its tag; the path of the field that cannot be mapped. *)
Definition dns_server (p : DNSProfile) (tag : string) (i : nat) (r : DNSResolver)
    : result string dnsServer :=
  let path := "/payload/resolvers/" +:+ index_string i in
  let server address stag :=
    {| ds_Address := address; ds_Port := dr_Port r; ds_Domains := []; ds_Tag := stag;
       ds_SkipFallback := true; ds_FinalQuery := true |} in
  let own := "dns_resolver_" +:+ index_string i in
  if dr_Kind r =s DNSLocal then Ok (server "localhost" "")
  else if dr_Kind r =s DNSUDP then
    if tag =s "" then Err (path +:+ "/outbound") else Ok (server (dr_Address r) own)
  else if dr_Kind r =s DNSHTTPS then
    if tag =s "" then Err (path +:+ "/outbound")
    else
      match ParseURL (dr_URL r) with
      | None => Err (path +:+ "/url")
      | Some u =>
          match ParseAddr (nu_Hostname u) with
          | Some _ => Ok (server (nu_String u None None) own)
          | None =>
              if bootstrap_local p (dr_BootstrapResolverID r) && (tag =s "direct")
              then Ok (server (nu_String u (Some "https+local") None) "")
              else Err (path +:+ "/bootstrap_resolver_id")
          end
      end
  else Err (path +:+ "/kind").

(** [servers], [kinds] and [indices] by resolver, and the routes of their tags. *)
Record dns_servers := {
  dss_servers : gmap string (dnsServer * string * nat); dss_routes : list routingRule }.

Definition add_server (input : EmitInput) (dns : DNSInput) (balancers : list balancer)
    (i : nat) (r : DNSResolver) (s : dns_servers) : outcome string dns_servers :=
  let tag := ResolvePolicyTag input (default "" (di_OutboundTags dns !! dr_ResolverID r)) in
  let! server := lift (dns_server (di_Profile dns) tag i r) in
  Ret {| dss_servers := <[dr_ResolverID r := (server, dr_Kind r, i)]> (dss_servers s);
         dss_routes := dss_routes s ++
           (if ds_Tag server =s "" then [] else [rule_to balancers [ds_Tag server] tag]) |}.

(** The rule loop: the servers listed so far, how many domains they have, and the path
    of the last rule that selected a local server. *)
Record dns_rules := { dr_servers : list dnsServer; dr_count : Z; dr_local : string }.

Definition with_domains (s : dnsServer) (domains : list string) : dnsServer :=
  {| ds_Address := ds_Address s; ds_Port := ds_Port s; ds_Domains := domains; ds_Tag := ds_Tag s;
     ds_SkipFallback := ds_SkipFallback s; ds_FinalQuery := ds_FinalQuery s |}.
Definition final_server (s : dnsServer) : dnsServer :=
  {| ds_Address := ds_Address s; ds_Port := ds_Port s; ds_Domains := ds_Domains s;
     ds_Tag := ds_Tag s; ds_SkipFallback := false; ds_FinalQuery := ds_FinalQuery s |}.

(** A rule adds its server; the code and path where it cannot. *)
Definition add_dns_rule (servers : gmap string (dnsServer * string * nat)) (final_kind : string)
    (r : RouteRule) (s : dns_rules) : outcome (DiagnosticCode * string) dns_rules :=
  let path := ru_FieldPath r in
  match servers !! ru_Target r with
  | None => Fails (CompileUnmappedField, path +:+ "/resolver_id")
  | Some (server, kind, index) =>
      match dnsDomains (ru_Condition r) with
      | Err code => Fails (code, path +:+ "/match")
      | Ok domains =>
          let count := dr_count s + Z.of_nat (length domains) in
          if MaxRules <? count then Fails (InputLimitExceeded, path +:+ "/match")
          else if bool_decide (domains = []) then
            Ret {| dr_servers := dr_servers s; dr_count := count; dr_local := dr_local s |}
          else if (kind =s DNSLocal) && negb (final_kind =s DNSLocal)
          then Fails (CompileUnmappedField, "/payload/resolvers/" +:+ index_string index +:+ "/kind")
          else if negb (kind =s DNSLocal) && negb (dr_local s =s "") && dnsMatchesPrivate domains
          then Fails (CompileUnmappedField, dr_local s +:+ "/resolver_id")
          else
            Ret {| dr_servers := dr_servers s ++ [with_domains server domains]; dr_count := count;
                   dr_local := if kind =s DNSLocal then path else dr_local s |}
      end
  end.

(** Xray's socket resolver is global: a named endpoint requires a local bootstrap. *)
Definition check_bootstrap (p : DNSProfile) (fail : Diagnostics) (_ : nat)
    (ref : OutboundRef) (_ : unit) : outcome Diagnostics unit :=
  match r_Payload (or_Resource ref) with
  | Payload_Node node => if NeedsBootstrap node && negb (starts_local p) then Fails fail else Ret ()
  | Payload_typed_nil kind => if kind =s KindNode then Panics else Ret ()
  | _ => Ret ()
  end.

(** [applyDNS]: the servers and the routes of their queries. *)
Definition applyDNS (input : EmitInput) (balancers : list balancer)
    : outcome Diagnostics (option (list dnsServer) * list routingRule) :=
  match in_DNS input with
  | None => Ret (None, [])
  | Some dns =>
      let p := di_Profile dns in
      let diagnostics code path := [CompileIssue code path (in_TargetKey input) (di_ResourceID dns)] in
      let fail code path := Fails (diagnostics code path) in
      let! refs := lift (OutboundRefs input) in
      let! _ := range_fold
                  (check_bootstrap p (diagnostics CompileUnmappedField "/payload/bootstrap")) refs () in
      match range_fold (add_server input dns balancers) (dp_Resolvers p)
              {| dss_servers := ∅; dss_routes := [] |} with
      | Panics => Panics
      | Fails path => fail CompileUnmappedField path
      | Ret s =>
          match dss_servers s !! dp_FinalResolver p with
          | None => fail CompileUnmappedField "/payload/final_resolver"
          | Some (final, final_kind, _) =>
              if over_rules (di_Rules dns) then fail InputLimitExceeded "/payload/rules"
              else
                match range_fold (λ _ r acc, add_dns_rule (dss_servers s) final_kind r acc)
                        (di_Rules dns) {| dr_servers := []; dr_count := 0; dr_local := "" |} with
                | Panics => Panics
                | Fails (code, path) => fail code path
                | Ret rules => Ret (Some (dr_servers rules ++ [final_server final]), dss_routes s)
                end
          end
      end
  end.

(** ** The whole document *)

Definition orchestrated_inbound (input : EmitInput) : result Diagnostics inbound :=
  let listener := Listener input "socks5" ListenPort in
  if ll_Protocol listener =s "mixed"
  then Err [CompileIssue CompileUnmappedField "/payload/local_listener/protocol"
              (in_TargetKey input) ""]
  else Ok {| i_Listen := ll_Listen listener; i_Port := ll_Port listener;
             i_Protocol := if ll_Protocol listener =s "socks5" then "socks"
                           else ll_Protocol listener;
             i_Auth := "noauth"; i_UDP := false; i_Tag := InboundTag |}.

(** [applyOrchestration], from the outbounds of the nodes and the block outbound. *)
Definition applyOrchestration (outbounds : list outbound) (input : EmitInput)
    : outcome Diagnostics document :=
  let! inbound := lift (orchestrated_inbound input) in
  let! balancers := lift (policy_balancers input outbounds (in_Policies input)) in
  let! rules := routing_rules input balancers in
  let! dns := applyDNS input balancers in
  Ret {| doc_LogLevel := "warning"; doc_Inbound := inbound;
         doc_Outbounds := outbounds ++ direct_outbound input;
         doc_DomainStrategy :=
           match in_Routing input with
           | Some routing => if ri_Mode routing =s ResolveForIPRules then "IPOnDemand" else "AsIs"
           | None => "AsIs"
           end;
         doc_Rules := dns.2 ++ rules; doc_Balancers := balancers; doc_DNS := dns.1;
         doc_Observatory := negb (bool_decide (length balancers = 0%nat)) |}.

(** Text in quotes. *)
Definition quoted (s : string) : string := String quote (s +:+ String quote "").

Definition dial_conflict (item : outbound) : bool :=
  match o_Stream item with
  | Some s =>
      match s_Sockopt s with
      | Some o => negb (DialerProxy o =s "") &&
                  Contains (EncodeJSON (outbound_json item)) (quoted "proxySettings")
      | None => false
      end
  | None => false
  end.

(** All resolvers and the first bootstrap are local. *)
Definition all_local (p : DNSProfile) : bool :=
  starts_local p && forallb (λ r, dr_Kind r =s DNSLocal) (dp_Resolvers p).

Definition force_ip (item : outbound) : outbound :=
  {| o_Protocol := o_Protocol item; o_Settings := o_Settings item;
     o_Stream :=
       (λ s, {| s_Network := s_Network s; s_Security := s_Security s; s_TLS := s_TLS s;
                s_WS := s_WS s; s_Reality := s_Reality s;
                s_Sockopt := (λ o, {| DialerProxy := DialerProxy o; DomainStrategy := "ForceIP" |})
                             <$> s_Sockopt s |}) <$> o_Stream item;
     o_Tag := o_Tag item |}.

(** The outbound of one reference. *)
Definition emit_ref (input : EmitInput) (ref : OutboundRef) : outcome Diagnostics outbound :=
  let fail code path := Fails [CompileIssue code path (in_TargetKey input) (rid (or_Resource ref))] in
  let path := or_FieldPath ref in
  let! mapped := MapNode (or_Resource ref) path (in_TargetKey input) in
  if match mn_Reality mapped with
     | Some r => negb (bool_decide (rs_ALPN r = []))
     | None => false
     end then fail CompileUnmappedField (path +:+ "/security/alpn")
  else
    let! item := nodeOutbound (or_Tag ref) mapped (or_DialerTag ref) in
    let! item :=
      match in_DNS input with
      | Some dns =>
          if negb (or_DialerTag ref =s "") && NeedsBootstrap (mn_Node mapped) then
            if all_local (di_Profile dns) then Ret (force_ip item)
            else fail CompileUnmappedField (path +:+ "/endpoint/host")
          else Ret item
      | None => Ret item
      end in
    if negb (or_DialerTag ref =s "") && dial_conflict item
    then fail CompileDialConflict (path +:+ "/streamSettings/proxySettings")
    else Ret item.

Definition block_outbound : outbound :=
  {| o_Protocol := "blackhole"; o_Settings := Settings_none; o_Stream := None; o_Tag := BlockTag |}.

Definition rule_total (doc : document) : Z :=
  Z.of_nat (length (doc_Rules doc) +
            length match doc_DNS doc with Some servers => servers | None => [] end).
Definition outbound_total (doc : document) : Z :=
  Z.of_nat (length (doc_Outbounds doc) + length (doc_Balancers doc)).

(** The document, before it is encoded. *)
Definition emit_document (input : EmitInput) : outcome Diagnostics document :=
  let! ordered := lift (OrderedOutboundRefs input) in
  let! outbounds :=
    range_fold (λ _ ref acc, let! item := emit_ref input ref in Ret (acc ++ [item])) ordered.2 [] in
  let! doc := applyOrchestration (outbounds ++ [block_outbound]) input in
  let! _ := fail_if (CheckNativeCounts input (outbound_total doc) (rule_total doc)) in
  Ret doc.

Definition Emit (input : EmitInput) : outcome Diagnostics Artifact :=
  let! doc := emit_document input in
  let payload := EncodeJSON (document_json doc) in
  if Contains payload (quoted "proxySettings" +:+ ":")
     || (negb (UsesTag input "direct")
         && Contains payload (quoted "protocol" +:+ ":" +:+ quoted "freedom"))
  then Fails [CompileIssue CompileDialConflict "/outbounds" (in_TargetKey input) ""]
  else Ret {| ar_SnapshotID := in_SnapshotID input; ar_TargetKey := in_TargetKey input;
              ar_ContentType := ContentType; ar_Bytes := payload;
              ar_OutboundCount := outbound_total doc; ar_RuleCount := rule_total doc |}.
End Emit.

End Xray.
