(* ===== verification/Singbox.v ===== *)
(** The sing-box emitter ([internal/adapter/singbox]): [node.go], [orchestration.go],
    [dns.go], [emit.go]. *)
From S2P Require Import Prelude Diagnostics IRTypes Hashes Json IRValidate Labels Adapter Network.
From S2P Require Import Domains.

Module Singbox.

Definition ContentType := JSONContentType.
Definition ListenPort : Z := 17802.

(** ** The document *)

Record utls := { ut_Enabled : bool; ut_Fingerprint : string }.
Record reality := { re_Enabled : bool; re_PublicKey : string; re_ShortID : string }.
Record tls := {
  tl_Enabled : bool; tl_ServerName : string; tl_Insecure : bool; tl_ALPN : list string;
  tl_UTLS : option utls; tl_Reality : option reality }.
Record wsTransport := { wt_Type : string; wt_Path : string; wt_Headers : option string }.

Record outbound := {
  o_Type : string; o_Tag : string; o_Server : string; o_ServerPort : Z; o_Password : string;
  o_Network : string; o_TLS : option tls; o_Detour : string; o_Method : string; o_UUID : string;
  o_Security : string; o_Flow : string; o_Username : string; o_Version : string;
  o_Transport : option wsTransport; o_DomainResolver : string; o_Outbounds : list string;
  o_Default : string }.

Record inbound := { i_Type : string; i_Tag : string; i_Listen : string; i_ListenPort : Z }.

(** [routeRule]: [Rules] nests. *)
Inductive routeRule := {
  rr_Inbound : list string; rr_Outbound : string; rr_Type : string; rr_Mode : string;
  rr_Rules : list routeRule; rr_Domain : list string; rr_DomainSuffix : list string;
  rr_IPCIDR : list string; rr_PortRange : list string; rr_Network : list string;
  rr_Action : string }.

Record clashAPI := {
  ca_ExternalController : string; ca_AllowOrigin : list string; ca_AllowPrivateNetwork : bool }.

Record dnsServer := {
  ds_Type : string; ds_Tag : string; ds_Server : string; ds_ServerPort : Z; ds_Path : string;
  ds_TLS : option tls; ds_DomainResolver : string; ds_Detour : string }.
Record dnsRule := { dr_Rule : routeRule; dr_Server : string }.
Record dnsConfig := { dc_Servers : list dnsServer; dc_Rules : list dnsRule; dc_Final : string }.

Record document := {
  doc_Inbound : inbound; doc_Outbounds : list outbound; doc_Rules : list routeRule;
  doc_Final : string; doc_DNS : option dnsConfig; doc_Experimental : option clashAPI }.

(** ** JSON *)

Definition utls_json (u : utls) : Json :=
  Obj [("enabled", Bool (ut_Enabled u)); ("fingerprint", Str (ut_Fingerprint u))].
Definition reality_json (r : reality) : Json :=
  Obj [("enabled", Bool (re_Enabled r)); ("public_key", Str (re_PublicKey r));
       ("short_id", Str (re_ShortID r))].
Definition tls_json (t : tls) : Json :=
  Obj ([("enabled", Bool (tl_Enabled t)); ("server_name", Str (tl_ServerName t));
        ("insecure", Bool (tl_Insecure t))] ++ omit_strings "alpn" (tl_ALPN t) ++
       omit_none "utls" utls_json (tl_UTLS t) ++ omit_none "reality" reality_json (tl_Reality t)).
Definition ws_json (w : wsTransport) : Json :=
  Obj ([("type", Str (wt_Type w)); ("path", Str (wt_Path w))] ++
       omit_none "headers" (λ host, Obj [("Host", Str host)]) (wt_Headers w)).

Definition outbound_fields (o : outbound) : list (string * Json) :=
  [("type", Str (o_Type o)); ("tag", Str (o_Tag o))] ++
  omit_string "server" (o_Server o) ++ omit_int "server_port" (o_ServerPort o) ++
  omit_string "password" (o_Password o) ++ omit_string "network" (o_Network o) ++
  omit_none "tls" tls_json (o_TLS o) ++ omit_string "detour" (o_Detour o) ++
  omit_string "method" (o_Method o) ++ omit_string "uuid" (o_UUID o) ++
  omit_string "security" (o_Security o) ++ omit_string "flow" (o_Flow o) ++
  omit_string "username" (o_Username o) ++ omit_string "version" (o_Version o) ++
  omit_none "transport" ws_json (o_Transport o) ++
  omit_string "domain_resolver" (o_DomainResolver o) ++
  omit_strings "outbounds" (o_Outbounds o) ++ omit_string "default" (o_Default o).

Definition inbound_json (i : inbound) : Json :=
  Obj [("type", Str (i_Type i)); ("tag", Str (i_Tag i)); ("listen", Str (i_Listen i));
       ("listen_port", Int (i_ListenPort i))].

Fixpoint rule_fields (r : routeRule) : list (string * Json) :=
  let '(Build_routeRule inbound outbound type mode rules domain suffix cidr ports network action) := r in
  omit_strings "inbound" inbound ++ omit_string "outbound" outbound ++ omit_string "type" type ++
  omit_string "mode" mode ++
  match rules with [] => [] | _ => [("rules", Arr ((λ r, Obj (rule_fields r)) <$> rules))] end ++
  omit_strings "domain" domain ++ omit_strings "domain_suffix" suffix ++
  omit_strings "ip_cidr" cidr ++ omit_strings "port_range" ports ++
  omit_strings "network" network ++ omit_string "action" action.
Definition rule_json (r : routeRule) : Json := Obj (rule_fields r).

Definition dns_server_json (s : dnsServer) : Json :=
  Obj ([("type", Str (ds_Type s)); ("tag", Str (ds_Tag s))] ++ omit_string "server" (ds_Server s) ++
       omit_int "server_port" (ds_ServerPort s) ++ omit_string "path" (ds_Path s) ++
       omit_none "tls" tls_json (ds_TLS s) ++ omit_string "domain_resolver" (ds_DomainResolver s) ++
       omit_string "detour" (ds_Detour s)).
(** The embedded rule's fields come first. *)
Definition dns_rule_json (r : dnsRule) : Json :=
  Obj (rule_fields (dr_Rule r) ++ [("server", Str (dr_Server r))]).
Definition dns_json (d : dnsConfig) : Json :=
  Obj ([("servers", Arr (dns_server_json <$> dc_Servers d))] ++
       match dc_Rules d with [] => [] | rules => [("rules", Arr (dns_rule_json <$> rules))] end ++
       [("final", Str (dc_Final d))]).
Definition experimental_json (c : clashAPI) : Json :=
  Obj [("clash_api", Obj
    [("external_controller", Str (ca_ExternalController c));
     ("access_control_allow_origin", strings (ca_AllowOrigin c));
     ("access_control_allow_private_network", Bool (ca_AllowPrivateNetwork c))])].

Definition document_json (d : document) : Json :=
  Obj ([("log", Obj [("level", Str "warning"); ("timestamp", Bool false)]);
        ("inbounds", Arr [inbound_json (doc_Inbound d)]);
        ("outbounds", Arr ((λ o, Obj (outbound_fields o)) <$> doc_Outbounds d));
        ("route", Obj ([("rules", Arr (rule_json <$> doc_Rules d))] ++
                       omit_string "final" (doc_Final d)))] ++
       omit_none "dns" dns_json (doc_DNS d) ++
       omit_none "experimental" experimental_json (doc_Experimental d)).

(** ** Nodes *)

Definition dialConflictFields : list string :=
  ["bind_interface"; "inet4_bind_address"; "inet6_bind_address"; "routing_mark"; "reuse_addr";
   "netns"; "connect_timeout"; "tcp_fast_open"; "tcp_multi_path"; "udp_fragment";
   "domain_strategy"; "network_strategy"; "network_type"; "fallback_network_type";
   "fallback_delay"].

(** A set fingerprint: [&utls{Enabled: true, Fingerprint: ...}]. *)
Definition fingerprint (value : string) : utls := {| ut_Enabled := true; ut_Fingerprint := value |}.

Definition node_tls (m : MappedNode) : outcome Diagnostics (option tls) :=
  match mn_Reality m with
  | Some r =>
      (* The TLS block comes first and would dereference its pointer. *)
      let! _ := match mn_TLS m with Some t => must (tls_VerifyCertificate t) | None => Ret true end in
      Ret (Some {| tl_Enabled := true; tl_ServerName := rs_ServerName r; tl_Insecure := false;
                   tl_ALPN := rs_ALPN r; tl_UTLS := Some (fingerprint (rs_ClientFingerprint r));
                   tl_Reality := Some {| re_Enabled := true; re_PublicKey := rs_PublicKey r;
                                         re_ShortID := rs_ShortID r |} |})
  | None =>
      match mn_TLS m with
      | None => Ret None
      | Some t =>
          let! verify := must (tls_VerifyCertificate t) in
          Ret (Some {| tl_Enabled := true; tl_ServerName := tls_ServerName t;
                       tl_Insecure := negb verify; tl_ALPN := tls_ALPN t;
                       tl_UTLS := fingerprint <$> tls_ClientFingerprint t; tl_Reality := None |})
      end
  end.

Definition nodeOutbound (tag : string) (m : MappedNode) (dialer : string)
    : outcome Diagnostics outbound :=
  let n := mn_Node m in
  let p := n_Protocol n in
  let network :=
    match ft_UDP (n_Features n) with
    | Some udp => if negb udp && negb (p =s HTTP) then "tcp" else ""
    | None => ""
    end in
  let transport : option wsTransport :=
    (λ w, {| wt_Type := "ws"; wt_Path := ws_Path w; wt_Headers := ws_Host w |}) <$> mn_WS m in
  let proxied := (p =s SOCKS5) || (p =s HTTP) in
  let! security := node_tls m in
  Ret {| o_Type := if p =s SOCKS5 then "socks" else p; o_Tag := tag;
         o_Server := ep_Host (n_Endpoint n); o_ServerPort := ep_Port (n_Endpoint n);
         o_Password := if (p =s Trojan) || (p =s Shadowsocks) || proxied then mn_Password m else "";
         o_Network := network; o_TLS := security; o_Detour := dialer;
         o_Method := if p =s Shadowsocks then mn_Cipher m else "";
         o_UUID := if (p =s VMess) || (p =s VLESS) then mn_UUID m else "";
         o_Security := if p =s VMess then mn_Cipher m else "";
         o_Flow := if p =s VLESS then mn_Flow m else "";
         o_Username := if proxied then mn_Username m else "";
         o_Version := if p =s SOCKS5 then "5" else "";
         o_Transport := transport; o_DomainResolver := ""; o_Outbounds := []; o_Default := "" |}.

(** [trojanOutbound]: the outbound of the Trojan mapping. *)
Definition trojanOutbound (tag : string) (mapped : TrojanTLS) (detour : string) : outbound :=
  {| o_Type := "trojan"; o_Tag := tag; o_Server := ep_Host (tt_Endpoint mapped);
     o_ServerPort := ep_Port (tt_Endpoint mapped); o_Password := tt_Password mapped;
     o_Network := if tt_UDPFalse mapped then "tcp" else "";
     o_TLS := Some {| tl_Enabled := true; tl_ServerName := tt_ServerName mapped;
                      tl_Insecure := negb (tt_VerifyCert mapped); tl_ALPN := tt_ALPN mapped;
                      tl_UTLS := if tt_Fingerprint mapped =s "" then None
                                 else Some (fingerprint (tt_Fingerprint mapped));
                      tl_Reality := None |};
     o_Detour := detour; o_Method := ""; o_UUID := ""; o_Security := ""; o_Flow := "";
     o_Username := ""; o_Version := ""; o_Transport := None; o_DomainResolver := "";
     o_Outbounds := []; o_Default := "" |}.

Definition with_resolver (o : outbound) (resolver : string) : outbound :=
  {| o_Type := o_Type o; o_Tag := o_Tag o; o_Server := o_Server o; o_ServerPort := o_ServerPort o;
     o_Password := o_Password o; o_Network := o_Network o; o_TLS := o_TLS o; o_Detour := o_Detour o;
     o_Method := o_Method o; o_UUID := o_UUID o; o_Security := o_Security o; o_Flow := o_Flow o;
     o_Username := o_Username o; o_Version := o_Version o; o_Transport := o_Transport o;
     o_DomainResolver := resolver; o_Outbounds := o_Outbounds o; o_Default := o_Default o |}.

(** An outbound of a type and tag that has no other fields. *)
Definition bare_outbound (type tag : string) : outbound :=
  {| o_Type := type; o_Tag := tag; o_Server := ""; o_ServerPort := 0; o_Password := "";
     o_Network := ""; o_TLS := None; o_Detour := ""; o_Method := ""; o_UUID := "";
     o_Security := ""; o_Flow := ""; o_Username := ""; o_Version := ""; o_Transport := None;
     o_DomainResolver := ""; o_Outbounds := []; o_Default := "" |}.

(** The object of a document: its fields by key. *)
Definition object_get (object : list (string * Json)) (key : string) : option Json :=
  snd <$> last (filter (λ kv, kv.1 = key) object).

Definition MapDialFieldConflict (object : list (string * Json)) : string :=
  match object_get object "detour" with
  | Some (Str detour) =>
      if detour =s "" then ""
      else default "" (head (filter (λ field, is_Some (object_get object field)) dialConflictFields))
  | _ => ""
  end.

(** Encoding and decoding again gives the fields of the outbound by key. *)
Definition DialFieldConflict (item : outbound) : string := MapDialFieldConflict (outbound_fields item).

(** ** Conditions *)

Definition empty_rule : routeRule :=
  {| rr_Inbound := []; rr_Outbound := ""; rr_Type := ""; rr_Mode := ""; rr_Rules := [];
     rr_Domain := []; rr_DomainSuffix := []; rr_IPCIDR := []; rr_PortRange := [];
     rr_Network := []; rr_Action := "" |}.

(** A single port is a range of one. *)
Definition native_port (v : string) : string :=
  match Atoi v with Some _ => v +:+ ":" +:+ v | None => v end.

Fixpoint nativeCondition (c : Condition) : routeRule :=
  match c with
  | Cond kind values terms =>
      let logical := (kind =s "and") || (kind =s "or") in
      let when k := if kind =s k then values else [] in
      {| rr_Inbound := []; rr_Outbound := "";
         rr_Type := if logical then "logical" else ""; rr_Mode := if logical then kind else "";
         rr_Rules := if logical then map nativeCondition terms else [];
         rr_Domain := when "domain"; rr_DomainSuffix := when "domain_suffix";
         rr_IPCIDR := when "ip_cidr"; rr_PortRange := native_port <$> when "port";
         rr_Network := when "network"; rr_Action := "" |}
  end.

Fixpoint conditionUsesIP (c : Condition) : bool :=
  match c with
  | Cond kind _ terms => (kind =s "ip_cidr") || existsb conditionUsesIP terms
  end.

Fixpoint dnsDomainCondition (c : Condition) : bool :=
  match c with
  | Cond kind values terms =>
      if (kind =s "domain") || (kind =s "domain_suffix") then negb (bool_decide (length values = 0%nat))
      else if negb ((kind =s "and") || (kind =s "or")) || bool_decide (length terms = 0%nat) then false
      else forallb dnsDomainCondition terms
  end.

Section Emit.
Context {N : Network} {P : Platform} {T : GoText}.

(** ** Orchestration *)

(** [in.Preset != nil && in.Preset.ControlAPI.Enabled]. *)
Definition control_api (input : EmitInput) : option ControlAPIPreset :=
  match in_Preset input with
  | Some preset => if ca_Enabled (cp_ControlAPI preset) then Some (cp_ControlAPI preset) else None
  | None => None
  end.

Definition clash_api (api : ControlAPIPreset) : clashAPI :=
  let address := JoinHostPort (ca_Listen api) (Itoa (ca_Port api)) in
  {| ca_ExternalController := address; ca_AllowOrigin := ["http://" +:+ address];
     ca_AllowPrivateNetwork := false |}.

Definition policy_outbound (p : PolicyInstance) : outbound :=
  {| o_Type := "selector"; o_Tag := pi_Tag p; o_Server := ""; o_ServerPort := 0; o_Password := "";
     o_Network := ""; o_TLS := None; o_Detour := ""; o_Method := ""; o_UUID := "";
     o_Security := ""; o_Flow := ""; o_Username := ""; o_Version := ""; o_Transport := None;
     o_DomainResolver := ""; o_Outbounds := pi_Members p; o_Default := pi_Default p |}.

Fixpoint policy_outbounds (input : EmitInput) (policies : list PolicyInstance)
    : result Diagnostics (list outbound) :=
  match policies with
  | [] => Ok []
  | p :: policies =>
      let controlled := match control_api input with Some _ => true | None => false end in
      if (pi_Strategy p =s PolicyManualSelect) && controlled then
        let? rest := policy_outbounds input policies in Ok (policy_outbound p :: rest)
      else if negb (pi_Strategy p =s PolicyFixed)
      then Err [CompileIssue CapabilityUnsupported "/payload/strategy" (in_TargetKey input)
                  (pi_ResourceID p)]
      else policy_outbounds input policies
  end.

Definition direct_outbound (input : EmitInput) : list outbound :=
  if UsesTag input "direct" then
    let direct := bare_outbound "direct" "direct" in
    [match in_DNS input with
     | Some dns => with_resolver direct (dp_FinalResolver (di_Profile dns))
     | None => direct
     end]
  else [].

(** A copy of the rule with the action and outbound of a target. *)
Definition with_target (r : routeRule) (action outbound : string) : routeRule :=
  {| rr_Inbound := rr_Inbound r; rr_Outbound := outbound; rr_Type := rr_Type r; rr_Mode := rr_Mode r;
     rr_Rules := rr_Rules r; rr_Domain := rr_Domain r; rr_DomainSuffix := rr_DomainSuffix r;
     rr_IPCIDR := rr_IPCIDR r; rr_PortRange := rr_PortRange r; rr_Network := rr_Network r;
     rr_Action := action |}.

Definition targetRule (input : EmitInput) (rule : routeRule) (tag : string) : routeRule :=
  let tag := ResolvePolicyTag input tag in
  if tag =s BlockTag then with_target rule "reject" (rr_Outbound rule)
  else with_target rule (rr_Action rule) tag.

Definition is_some {A} (o : option A) : bool := match o with Some _ => true | None => false end.

(** [appendTarget]: a direct target resolves first. *)
Definition target_rules (input : EmitInput) (rule : routeRule) (tag : string) : list routeRule :=
  (if is_some (in_DNS input) && (ResolvePolicyTag input tag =s "direct")
   then [with_target rule "resolve" (rr_Outbound rule)] else []) ++
  [targetRule input rule tag].

Fixpoint routing_rules (input : EmitInput) (ri : RoutingInput) (rules : list RouteRule)
    : result Diagnostics (list routeRule) :=
  match rules with
  | [] => Ok []
  | r :: rules =>
      if (ri_Mode ri =s ResolveForIPRules) && conditionUsesIP (ru_Condition r)
      then Err [CompileIssue CompileUnmappedField "/payload/domain_resolution_mode"
                  (in_TargetKey input) (ri_ResourceID ri)]
      else
        let? rest := routing_rules input ri rules in
        Ok (target_rules input (nativeCondition (ru_Condition r)) (ru_Target r) ++ rest)
  end.

Definition exit_tag (input : EmitInput) : string :=
  ResolvePolicyTag input (match ExitTag input with Ok exit => exit | Err _ => "" end).

(** The last rule takes what no other rule has taken. *)
Definition exit_rule : routeRule :=
  {| rr_Inbound := [InboundTag]; rr_Outbound := ""; rr_Type := ""; rr_Mode := ""; rr_Rules := [];
     rr_Domain := []; rr_DomainSuffix := []; rr_IPCIDR := []; rr_PortRange := [];
     rr_Network := []; rr_Action := "" |}.

Definition orchestrated_inbound (input : EmitInput) : inbound :=
  let listener := Listener input "socks5" ListenPort in
  {| i_Type := if ll_Protocol listener =s "socks5" then "socks" else ll_Protocol listener;
     i_Tag := InboundTag; i_Listen := ll_Listen listener; i_ListenPort := ll_Port listener |}.

(** ** DNS *)

(** [strconv.Atoi] of a URL's port, its error ignored: digits beyond the range give
    the largest integer. *)
Definition port_number (port : string) : Z :=
  match Atoi port with
  | Some n => n
  | None => match digits_value 0 port with Some _ => MaxInt64 | None => 0 end
  end.

(** A resolver's server, or the path of the field that cannot be mapped. *)
Definition dns_server (input : EmitInput) (dns : DNSInput) (i : nat) (r : DNSResolver)
    : result string dnsServer :=
  let path := "/payload/resolvers/" +:+ index_string i in
  let tag := ResolvePolicyTag input (default "" (di_OutboundTags dns !! dr_ResolverID r)) in
  let remote := negb (dr_Kind r =s DNSLocal) in
  if remote && ((tag =s "") || (tag =s BlockTag)) then Err (path +:+ "/outbound")
  else
    let detour := if remote && negb (tag =s "direct") then tag else "" in
    if dr_Kind r =s DNSHTTPS then
      match ParseURL (dr_URL r) with
      | None => Err (path +:+ "/url")
      | Some u =>
          if negb (nu_RawQuery u =s "") || nu_ForceQuery u then Err (path +:+ "/url")
          else
            Ok {| ds_Type := dr_Kind r; ds_Tag := dr_ResolverID r; ds_Server := nu_Hostname u;
                  ds_ServerPort := if nu_Port u =s "" then 443 else port_number (nu_Port u);
                  ds_Path := if nu_EscapedPath u =s "" then "/" else nu_EscapedPath u;
                  ds_TLS := Some {| tl_Enabled := true; tl_ServerName := nu_Hostname u;
                                    tl_Insecure := false; tl_ALPN := []; tl_UTLS := None;
                                    tl_Reality := None |};
                  ds_DomainResolver :=
                    match ParseAddr (nu_Hostname u) with
                    | Some _ => "" | None => dr_BootstrapResolverID r end;
                  ds_Detour := detour |}
      end
    else if negb (dr_Kind r =s DNSUDP) && remote then Err (path +:+ "/kind")
    else
      Ok {| ds_Type := dr_Kind r; ds_Tag := dr_ResolverID r; ds_Server := dr_Address r;
            ds_ServerPort := dr_Port r; ds_Path := ""; ds_TLS := None; ds_DomainResolver := "";
            ds_Detour := detour |}.

Fixpoint dns_servers (input : EmitInput) (dns : DNSInput) (i : nat) (resolvers : list DNSResolver)
    : result string (list dnsServer) :=
  match resolvers with
  | [] => Ok []
  | r :: resolvers =>
      let? server := dns_server input dns i r in
      let? rest := dns_servers input dns (S i) resolvers in Ok (server :: rest)
  end.

Definition bootstrap_server (b : BootstrapResolver) : dnsServer :=
  {| ds_Type := br_Kind b; ds_Tag := br_ResolverID b; ds_Server := br_Address b;
     ds_ServerPort := br_Port b; ds_Path := ""; ds_TLS := None; ds_DomainResolver := "";
     ds_Detour := "" |}.

Fixpoint dns_rules (resolvers : list string) (rules : list RouteRule) : result string (list dnsRule) :=
  match rules with
  | [] => Ok []
  | rule :: rules =>
      if negb (bool_decide (ru_Target rule ∈ resolvers)) then Err (ru_FieldPath rule +:+ "/resolver_id")
      else if negb (dnsDomainCondition (ru_Condition rule)) then Err (ru_FieldPath rule +:+ "/match")
      else
        let? rest := dns_rules resolvers rules in
        Ok ({| dr_Rule := nativeCondition (ru_Condition rule); dr_Server := ru_Target rule |} :: rest)
  end.

Definition applyDNS (input : EmitInput) : result Diagnostics (option dnsConfig) :=
  match in_DNS input with
  | None => Ok None
  | Some dns =>
      let p := di_Profile dns in
      let fail {A} code path : result Diagnostics A :=
        Err [CompileIssue code path (in_TargetKey input) (di_ResourceID dns)] in
      let unmapped {A} (r : result string A) : result Diagnostics A :=
        match r with Ok a => Ok a | Err path => fail CompileUnmappedField path end in
      if over_rules (di_Rules dns) then fail InputLimitExceeded "/payload/rules"
      else
        let? servers := unmapped (dns_servers input dns 0 (dp_Resolvers p)) in
        let resolvers := dr_ResolverID <$> dp_Resolvers p in
        if negb (bool_decide (dp_FinalResolver p ∈ resolvers))
        then fail CompileUnmappedField "/payload/final_resolver"
        else
          let? rules := unmapped (dns_rules resolvers (di_Rules dns)) in
          Ok (Some {| dc_Servers := (bootstrap_server <$> dp_Bootstrap p) ++ servers;
                      dc_Rules := rules; dc_Final := dp_FinalResolver p |})
  end.

(** ** The whole document *)

Definition applyOrchestration (outbounds : list outbound) (input : EmitInput)
    : result Diagnostics document :=
  let? policies := policy_outbounds input (in_Policies input) in
  let? rules :=
    match in_Routing input with
    | Some ri => routing_rules input ri (ri_Rules ri)
    | None => Ok []
    end in
  let exit := exit_tag input in
  let? dns := applyDNS input in
  Ok {| doc_Inbound := orchestrated_inbound input;
        doc_Outbounds := outbounds ++ policies ++ direct_outbound input;
        doc_Rules := rules ++ target_rules input exit_rule exit;
        doc_Final := if exit =s BlockTag then "" else exit;
        doc_DNS := dns; doc_Experimental := clash_api <$> control_api input |}.

(** The outbound of one reference. *)
Definition emit_ref (input : EmitInput) (ref : OutboundRef) : outcome Diagnostics outbound :=
  let path := or_FieldPath ref in
  let conflict field :=
    [CompileIssue CompileDialConflict (path +:+ "/" +:+ field) (in_TargetKey input)
       (rid (or_Resource ref))] in
  let! mapped := MapNode (or_Resource ref) path (in_TargetKey input) in
  let! item := nodeOutbound (or_Tag ref) mapped (or_DialerTag ref) in
  let! item :=
    match in_DNS input with
    | Some dns =>
        if NeedsBootstrap (mn_Node mapped) then
          match dp_Bootstrap (di_Profile dns) with
          | [] => Fails (conflict "endpoint/host")
          | b :: _ => Ret (with_resolver item (br_ResolverID b))
          end
        else Ret item
    | None => Ret item
    end in
  let field := DialFieldConflict item in
  if field =s "" then Ret item else Fails (conflict field).

Definition rule_total (doc : document) : Z :=
  Z.of_nat (length (doc_Rules doc) +
            length match doc_DNS doc with Some dns => dc_Rules dns | None => [] end).
Definition outbound_total (doc : document) : Z := Z.of_nat (length (doc_Outbounds doc)).

(** The document, before it is encoded. *)
Definition emit_document (input : EmitInput) : outcome Diagnostics document :=
  let! ordered := lift (OrderedOutboundRefs input) in
  let! outbounds :=
    range_fold (λ _ ref acc, let! item := emit_ref input ref in Ret (acc ++ [item])) ordered.2 [] in
  let! doc := lift (applyOrchestration outbounds input) in
  let! _ := fail_if (CheckNativeCounts input (outbound_total doc) (rule_total doc)) in
  Ret doc.

Definition Emit (input : EmitInput) : outcome Diagnostics Artifact :=
  let! doc := emit_document input in
  Ret {| ar_SnapshotID := in_SnapshotID input; ar_TargetKey := in_TargetKey input;
         ar_ContentType := ContentType; ar_Bytes := EncodeJSON (document_json doc);
         ar_OutboundCount := outbound_total doc; ar_RuleCount := rule_total doc |}.
End Emit.

End Singbox.
