(* ===== verification/Mihomo.v ===== *)
(** The Mihomo emitter ([internal/adapter/mihomo]): [node.go], [orchestration.go],
    [dns.go], [emit.go]. The YAML encoder is a parameter. *)
From S2P Require Import Prelude Diagnostics IRTypes Hashes IRValidate Labels Adapter Network Domains.

Definition upper_char (c : ascii) : ascii :=
  let n := N_of_ascii c in
  if (97 <=? n)%N && (n <=? 122)%N then ascii_of_N (n - 32) else c.
Fixpoint ascii_upper (s : string) : string :=
  match s with EmptyString => "" | String c s => String (upper_char c) (ascii_upper s) end.

(** [strings.ToUpper]; on ASCII text it maps a to z. *)
Class Upper := {
  ToUpper : string → string;
  ToUpper_ascii : ∀ s, is_ascii s → ToUpper s = ascii_upper s }.

Module Mihomo.

Definition ContentType := YAMLContentType.
Definition MixedPort : Z := 17803.

(** ** The document *)

Record wsOptions := { wo_Path : string; wo_Headers : option string }.
Record realityOptions := { ro_PublicKey : string; ro_ShortID : string }.

Record proxy := {
  px_Name : string; px_Type : string; px_Server : string; px_Port : Z; px_Password : string;
  px_Network : string; px_SNI : string; px_ALPN : list string; px_SkipCertVerify : bool;
  px_UDP : option bool; px_ClientFingerprint : string; px_DialerProxy : string;
  px_Cipher : string; px_UUID : string; px_AlterID : option Z; px_Flow : string;
  px_Username : string; px_TLS : option bool; px_ServerName : string; px_WS : option wsOptions;
  px_Reality : option realityOptions }.

Record policyGroup := {
  gr_Name : string; gr_Type : string; gr_Proxies : list string; gr_Strategy : string;
  gr_URL : string; gr_Interval : Z; gr_Timeout : option Z; gr_Tolerance : option Z;
  gr_Lazy : bool; gr_DisableUDP : bool; gr_EmptyFallback : string }.

Record controllerCORS := { cc_AllowOrigins : list string; cc_AllowPrivateNetwork : bool }.

Record dnsRuleProvider := { rp_Type : string; rp_Behavior : string; rp_Payload : list string }.
Record dnsPolicy := { dp_key : string; dp_server : string }.
Record dnsConfig := {
  dc_Enable : bool; dc_IPv6 : bool; dc_EnhancedMode : string; dc_UseHosts : bool;
  dc_UseSystemHosts : bool; dc_RespectRules : bool; dc_NameServer : list string;
  dc_DefaultNameServer : list string; dc_ProxyServerNameServer : list string;
  dc_NameServerPolicy : list dnsPolicy }.

Record document := {
  doc_MixedPort : Z; doc_SOCKSPort : Z; doc_HTTPPort : Z; doc_BindAddress : string;
  doc_AllowLAN : bool; doc_Mode : string; doc_LogLevel : string; doc_ExternalController : string;
  doc_CORS : option controllerCORS; doc_IPv6 : bool; doc_GeodataMode : bool;
  doc_GeoAutoUpdate : bool; doc_FindProcessMode : string; doc_Proxies : list proxy;
  doc_Rules : list string; doc_Groups : list policyGroup; doc_DNS : option dnsConfig;
  doc_RuleProviders : gmap string dnsRuleProvider }.

(** [yaml.v3] with an indent of two, a leading document mark removed. *)
Class YAML := { marshalYAML : document → option string }.

(** ** Nodes *)

(** The TLS fields: [SNI], [ServerName], [ALPN], [SkipCertVerify], [TLS],
    [ClientFingerprint]. *)
Record tls_fields := {
  tf_SNI : string; tf_ServerName : string; tf_ALPN : list string; tf_Skip : bool;
  tf_TLS : option bool; tf_Fingerprint : string }.

Definition no_tls : tls_fields :=
  {| tf_SNI := ""; tf_ServerName := ""; tf_ALPN := []; tf_Skip := false; tf_TLS := None;
     tf_Fingerprint := "" |}.

Definition node_tls (m : MappedNode) : outcome Diagnostics tls_fields :=
  let p := n_Protocol (mn_Node m) in
  let! fields :=
    match mn_TLS m with
    | None => Ret no_tls
    | Some t =>
        let! verify := must (tls_VerifyCertificate t) in
        let named := (p =s VMess) || (p =s VLESS) in
        Ret {| tf_SNI := if named then "" else tls_ServerName t;
               tf_ServerName := if named then tls_ServerName t else "";
               tf_ALPN := tls_ALPN t; tf_Skip := negb verify;
               tf_TLS := if p =s Trojan then None else Some true;
               tf_Fingerprint := default "" (tls_ClientFingerprint t) |}
    end in
  Ret (match mn_Reality m with
       | None => fields
       | Some r =>
           {| tf_SNI := tf_SNI fields; tf_ServerName := rs_ServerName r; tf_ALPN := rs_ALPN r;
              tf_Skip := tf_Skip fields; tf_TLS := Some true;
              tf_Fingerprint := rs_ClientFingerprint r |}
       end).

Definition nodeProxy (tag : string) (m : MappedNode) (dialer : string) : outcome Diagnostics proxy :=
  let n := mn_Node m in
  let p := n_Protocol n in
  let udp := ft_UDP (n_Features n) in
  let proxied := (p =s SOCKS5) || (p =s HTTP) in
  let network := if (p =s Trojan) && bool_decide (udp = Some false) then "tcp" else "" in
  let! tls := node_tls m in
  Ret {| px_Name := tag; px_Type := if p =s Shadowsocks then "ss" else p;
         px_Server := ep_Host (n_Endpoint n); px_Port := ep_Port (n_Endpoint n);
         px_Password := if (p =s Trojan) || (p =s Shadowsocks) || proxied then mn_Password m else "";
         px_Network := match mn_WS m with Some _ => "ws" | None => network end;
         px_SNI := tf_SNI tls; px_ALPN := tf_ALPN tls; px_SkipCertVerify := tf_Skip tls;
         px_UDP := udp; px_ClientFingerprint := tf_Fingerprint tls; px_DialerProxy := dialer;
         px_Cipher := if (p =s Shadowsocks) || (p =s VMess) then mn_Cipher m else "";
         px_UUID := if (p =s VMess) || (p =s VLESS) then mn_UUID m else "";
         px_AlterID := if p =s VMess then Some 0 else None;
         px_Flow := if p =s VLESS then mn_Flow m else "";
         px_Username := if proxied then mn_Username m else "";
         px_TLS := tf_TLS tls; px_ServerName := tf_ServerName tls;
         px_WS := (λ w, {| wo_Path := ws_Path w; wo_Headers := ws_Host w |}) <$> mn_WS m;
         px_Reality := (λ r, {| ro_PublicKey := rs_PublicKey r; ro_ShortID := rs_ShortID r |})
                       <$> mn_Reality m |}.

(** [trojanProxy]: the proxy of the Trojan mapping. *)
Definition trojanProxy (tag : string) (mapped : TrojanTLS) (dialer : string) : proxy :=
  {| px_Name := tag; px_Type := "trojan"; px_Server := ep_Host (tt_Endpoint mapped);
     px_Port := ep_Port (tt_Endpoint mapped); px_Password := tt_Password mapped;
     px_Network := if tt_UDPFalse mapped then "tcp" else ""; px_SNI := tt_ServerName mapped;
     px_ALPN := tt_ALPN mapped; px_SkipCertVerify := negb (tt_VerifyCert mapped);
     px_UDP := if tt_UDPFalse mapped then Some false else None;
     px_ClientFingerprint := tt_Fingerprint mapped; px_DialerProxy := dialer; px_Cipher := "";
     px_UUID := ""; px_AlterID := None; px_Flow := ""; px_Username := ""; px_TLS := None;
     px_ServerName := ""; px_WS := None; px_Reality := None |}.

(** ** Conditions *)

Section Conditions.
Context {U : Upper}.

(** The rule of one value. *)
Definition value_rule (kind : string) (noResolve : bool) (value : string) : string :=
  if kind =s "domain" then "DOMAIN," +:+ value
  else if kind =s "domain_suffix" then "DOMAIN-SUFFIX," +:+ value
  else if kind =s "ip_cidr" then
    (if Contains value ":" then "IP-CIDR6" else "IP-CIDR") +:+ "," +:+ value +:+
    (if noResolve then ",no-resolve" else "")
  else if kind =s "port" then "DST-PORT," +:+ replace_char ":" "-" value
  else if kind =s "network" then "NETWORK," +:+ ToUpper value
  else "," +:+ value.

Fixpoint nativeCondition (noResolve : bool) (c : Condition) : string :=
  match c with
  | Cond kind values terms =>
      if (kind =s "and") || (kind =s "or") then
        match map (nativeCondition noResolve) terms with
        | [term] => term
        | terms => ToUpper kind +:+ ",(" +:+
                   String.concat "," ((λ t, "(" +:+ t +:+ ")") <$> terms) +:+ ")"
        end
      else
        match value_rule kind noResolve <$> values with
        | [term] => term
        | terms => "OR,((" +:+ String.concat "),(" terms +:+ "))"
        end
  end.
End Conditions.

Section Emit.
Context {N : Network} {P : Platform} {T : GoText} {U : Upper} {Y : YAML}.

(** ** Orchestration *)

(** [in.Preset != nil && in.Preset.ControlAPI.Enabled]. *)
Definition control_api (input : EmitInput) : option ControlAPIPreset :=
  match in_Preset input with
  | Some preset => if ca_Enabled (cp_ControlAPI preset) then Some (cp_ControlAPI preset) else None
  | None => None
  end.
Definition control_address (api : ControlAPIPreset) : string :=
  JoinHostPort (ca_Listen api) (Itoa (ca_Port api)).

(** The type, strategy and tolerance of a policy's group. *)
Definition group_kind (input : EmitInput) (p : PolicyInstance)
    : result Diagnostics (string * string * option Z) :=
  let fail code path := Err [CompileIssue code path (in_TargetKey input) (pi_ResourceID p)] in
  let h := pi_Health p in
  if pi_Strategy p =s PolicyManualSelect then
    match control_api input with
    | Some _ => Ok ("select", "", None)
    | None => fail CapabilityUnsupported "/payload/strategy"
    end
  else if pi_Strategy p =s PolicyLatencyBest then Ok ("url-test", "", hc_ToleranceMS h)
  else if pi_Strategy p =s PolicyRoundRobin then
    if negb (hc_Enabled h) then fail CompileUnmappedField "/payload/health_check/enabled"
    else if match hc_ToleranceMS h with Some t => negb (t =? 0) | None => false end
    then fail CompileUnmappedField "/payload/health_check/tolerance_ms"
    else Ok ("load-balance", "round-robin", None)
  else fail CapabilityUnsupported "/payload/strategy".

(** The group of a policy that is not fixed. *)
Definition policy_group (input : EmitInput) (p : PolicyInstance) : outcome Diagnostics policyGroup :=
  let! kind := lift (group_kind input p) in
  let '(type, strategy, tolerance) := kind in
  let group url interval timeout :=
    {| gr_Name := pi_Tag p; gr_Type := type; gr_Proxies := pi_Members p; gr_Strategy := strategy;
       gr_URL := url; gr_Interval := interval; gr_Timeout := timeout; gr_Tolerance := tolerance;
       gr_Lazy := false; gr_DisableUDP := true; gr_EmptyFallback := "REJECT" |} in
  let h := pi_Health p in
  if hc_Enabled h then
    let! interval := must (hc_IntervalMS h) in
    if negb (Z.rem interval 1000 =? 0)
    then Fails [CompileIssue CompileUnmappedField "/payload/health_check/interval_ms"
                  (in_TargetKey input) (pi_ResourceID p)]
    else Ret (group (hc_URL h) (Z.quot interval 1000) (hc_TimeoutMS h))
  else Ret (group "" 0 None).

Definition policy_groups (input : EmitInput) : outcome Diagnostics (list policyGroup) :=
  range_fold (λ _ p groups,
    if pi_Strategy p =s PolicyFixed then Ret groups
    else let! group := policy_group input p in Ret (groups ++ [group])) (in_Policies input) [].

(** [tag]: the native name of a target. *)
Definition native_tag (input : EmitInput) (value : string) : string :=
  let value := ResolvePolicyTag input value in
  if value =s BlockTag then "REJECT" else if value =s "direct" then "DIRECT" else value.

Definition routing_rule (input : EmitInput) (noResolve : bool) (r : RouteRule) : string :=
  let condition := nativeCondition noResolve (ru_Condition r) in
  if HasSuffix condition ",no-resolve"
  then TrimSuffix condition ",no-resolve" +:+ "," +:+ native_tag input (ru_Target r) +:+ ",no-resolve"
  else condition +:+ "," +:+ native_tag input (ru_Target r).

Definition routing_rules (input : EmitInput) : list string :=
  let exit := match ExitTag input with Ok exit => exit | Err _ => "" end in
  match in_Routing input with
  | Some ri => routing_rule input (ri_Mode ri =s PreserveDomain) <$> ri_Rules ri
  | None => []
  end ++ ["MATCH," +:+ native_tag input exit].

(** ** DNS *)

(** [dnsDomainIntersection], [dnsDomains]. *)
Definition dnsDomainIntersection := domains_intersection "suffix:".
Definition dnsDomains := domains_of "exact:" "suffix:".

Definition bootstrap_address (b : BootstrapResolver) : string :=
  if br_Kind b =s DNSLocal then "system"
  else "udp://" +:+ JoinHostPort (br_Address b) (Itoa (br_Port b)).

(** [bootstrap]: the last entry of an identifier wins. *)
Definition bootstrap_map (p : DNSProfile) : gmap string string :=
  foldl (λ m b, <[br_ResolverID b := bootstrap_address b]> m) ∅ (dp_Bootstrap p).

(** [bootstrap[p.Bootstrap[0].ResolverID]], [None] without a bootstrap. *)
Definition first_bootstrap (p : DNSProfile) : option string :=
  match dp_Bootstrap p with
  | [] => None
  | b :: _ => Some (default "" (bootstrap_map p !! br_ResolverID b))
  end.

(** One outbound of the loop that selects the bootstrap. *)
Definition select_bootstrap (p : DNSProfile) (fail : Diagnostics) (_ : nat) (ref : OutboundRef)
    (selected : string) : outcome Diagnostics string :=
  match r_Payload (or_Resource ref) with
  | Payload_Node node =>
      if NeedsBootstrap node
      then match first_bootstrap p with None => Fails fail | Some b => Ret b end
      else Ret selected
  | Payload_typed_nil kind => if kind =s KindNode then Panics else Ret selected
  | _ => Ret selected
  end.

(** A resolver's address and the bootstrap selected after it. *)
Definition dns_server (p : DNSProfile) (tag : string) (i : nat) (r : DNSResolver) (selected : string)
    : result string (string * string) :=
  let path := "/payload/resolvers/" +:+ index_string i in
  let tag := if tag =s "direct" then "DIRECT" else tag in
  let tag := if tag =s BlockTag then "REJECT" else tag in
  if dr_Kind r =s DNSLocal then Ok ("system", selected)
  else if dr_Kind r =s DNSUDP then
    if tag =s "" then Err (path +:+ "/outbound")
    else Ok ("udp://" +:+ JoinHostPort (dr_Address r) (Itoa (dr_Port r)) +:+ "#" +:+ tag, selected)
  else if dr_Kind r =s DNSHTTPS then
    if tag =s "" then Err (path +:+ "/outbound")
    else
      match ParseURL (dr_URL r) with
      | None => Err (path +:+ "/url")
      | Some u =>
          if negb (nu_RawQuery u =s "") || nu_ForceQuery u || negb (nu_RawPath u =s "")
          then Err (path +:+ "/url")
          else
            let? selected :=
              match ParseAddr (nu_Hostname u) with
              | Some _ => Ok selected
              | None =>
                  if negb (tag =s "DIRECT") then Err (path +:+ "/bootstrap_resolver_id")
                  else
                    match bootstrap_map p !! dr_BootstrapResolverID r with
                    | None => Err (path +:+ "/bootstrap_resolver_id")
                    | Some b =>
                        if negb (selected =s "") && negb (selected =s b)
                        then Err (path +:+ "/bootstrap_resolver_id") else Ok b
                    end
              end in
            Ok (nu_String u None (Some tag), selected)
      end
  else Err (path +:+ "/kind").

(** [servers] and [selected] as the loop over the resolvers grows them. *)
Record dns_state := { dst_servers : gmap string string; dst_selected : string }.

Definition add_server (input : EmitInput) (dns : DNSInput) (i : nat) (r : DNSResolver) (s : dns_state)
    : outcome string dns_state :=
  let tag := ResolvePolicyTag input (default "" (di_OutboundTags dns !! dr_ResolverID r)) in
  let! out := lift (dns_server (di_Profile dns) tag i r (dst_selected s)) in
  Ret {| dst_servers := <[dr_ResolverID r := out.1]> (dst_servers s); dst_selected := out.2 |}.

(** [fmt.Sprintf("%04d", i)]. *)
Definition pad4 (i : nat) : string :=
  let s := index_string i in
  match String.length s with 1%nat => "000" | 2%nat => "00" | 3%nat => "0" | _ => "" end +:+ s.

Definition payload_of (pattern : string) : string :=
  let '(prefix, value) := cut_or_all ":" pattern in
  if prefix =s "suffix" then "+." +:+ value else value.

(** The providers, policies and number of domains of the rules so far. *)
Record dns_rules := {
  drs_providers : gmap string dnsRuleProvider; drs_policies : list dnsPolicy; drs_count : Z }.

Definition add_rule (servers : gmap string string) (i : nat) (r : RouteRule) (s : dns_rules)
    : outcome (DiagnosticCode * string) dns_rules :=
  let path := ru_FieldPath r in
  match servers !! ru_Target r with
  | None => Fails (CompileUnmappedField, path +:+ "/resolver_id")
  | Some server =>
      match dnsDomains (ru_Condition r) with
      | Err code => Fails (code, path +:+ "/match")
      | Ok domains =>
          let count := drs_count s + Z.of_nat (length domains) in
          if MaxRules <? count then Fails (InputLimitExceeded, path +:+ "/match")
          else if bool_decide (domains = [])
          then Ret {| drs_providers := drs_providers s; drs_policies := drs_policies s;
                      drs_count := count |}
          else
            let name := "dns_rule_" +:+ pad4 i in
            match drs_providers s !! name with
            | Some _ => Fails (CompileUnmappedField, path)
            | None =>
                Ret {| drs_providers := <[name := {| rp_Type := "inline"; rp_Behavior := "domain";
                         rp_Payload := payload_of <$> domains |}]> (drs_providers s);
                       drs_policies := drs_policies s ++
                         [{| dp_key := "rule-set:" +:+ name; dp_server := server |}];
                       drs_count := count |}
            end
      end
  end.

(** [applyDNS]: the DNS block and the providers of its rules. *)
Definition applyDNS (input : EmitInput)
    : outcome Diagnostics (option dnsConfig * gmap string dnsRuleProvider) :=
  match in_DNS input with
  | None => Ret (None, ∅)
  | Some dns =>
      let p := di_Profile dns in
      let diagnostics code path := [CompileIssue code path (in_TargetKey input) (di_ResourceID dns)] in
      let fail {A} code path : outcome Diagnostics A := Fails (diagnostics code path) in
      let! refs := lift (OutboundRefs input) in
      let! selected := range_fold
                         (select_bootstrap p (diagnostics CompileUnmappedField "/payload/bootstrap"))
                         refs "" in
      match range_fold (add_server input dns) (dp_Resolvers p)
              {| dst_servers := ∅; dst_selected := selected |} with
      | Panics => Panics
      | Fails path => fail CompileUnmappedField path
      | Ret s =>
          let! selected :=
            if dst_selected s =s "" then
              match first_bootstrap p with
              | None => fail CompileUnmappedField "/payload/bootstrap"
              | Some b => Ret b
              end
            else Ret (dst_selected s) in
          match dst_servers s !! dp_FinalResolver p with
          | None => fail CompileUnmappedField "/payload/final_resolver"
          | Some final =>
              if over_rules (di_Rules dns) then fail InputLimitExceeded "/payload/rules"
              else
                match range_fold (add_rule (dst_servers s)) (di_Rules dns)
                        {| drs_providers := ∅; drs_policies := []; drs_count := 0 |} with
                | Panics => Panics
                | Fails (code, path) => fail code path
                | Ret rules =>
                    Ret (Some {| dc_Enable := true; dc_IPv6 := true; dc_EnhancedMode := "redir-host";
                                 dc_UseHosts := false; dc_UseSystemHosts := false;
                                 dc_RespectRules := false; dc_NameServer := [final];
                                 dc_DefaultNameServer := [selected];
                                 dc_ProxyServerNameServer := [selected];
                                 dc_NameServerPolicy := drs_policies rules |},
                         drs_providers rules)
                end
          end
      end
  end.

(** ** The whole document *)

Definition applyOrchestration (proxies : list proxy) (input : EmitInput)
    : outcome Diagnostics document :=
  let listener := Listener input "mixed" MixedPort in
  let port protocol := if ll_Protocol listener =s protocol then ll_Port listener else 0 in
  let! groups := policy_groups input in
  let! dns := applyDNS input in
  Ret {| doc_MixedPort := port "mixed"; doc_SOCKSPort := port "socks5"; doc_HTTPPort := port "http";
         doc_BindAddress := ll_Listen listener; doc_AllowLAN := false; doc_Mode := "rule";
         doc_LogLevel := "silent";
         doc_ExternalController :=
           match control_api input with Some api => control_address api | None => "" end;
         doc_CORS := (λ api, {| cc_AllowOrigins := ["http://" +:+ control_address api];
                                cc_AllowPrivateNetwork := false |}) <$> control_api input;
         doc_IPv6 := match dns.1 with Some _ => true | None => false end;
         doc_GeodataMode := false; doc_GeoAutoUpdate := false; doc_FindProcessMode := "off";
         doc_Proxies := proxies; doc_Rules := routing_rules input; doc_Groups := groups;
         doc_DNS := dns.1; doc_RuleProviders := dns.2 |}.

(** [implicitDirect]: whether traffic could leave directly. *)
Definition implicitDirect (doc : document) : bool :=
  if negb (doc_Mode doc =s "rule") || doc_GeoAutoUpdate doc || doc_GeodataMode doc then true
  else if bool_decide (length (doc_Rules doc) = 0%nat) then true
  else existsb (λ rule,
    let upper := ToUpper rule in
    Contains upper ",DIRECT" || HasSuffix upper ",DIRECT" || (upper =s "DIRECT")) (doc_Rules doc).

(** The proxy of one reference. *)
Definition emit_ref (input : EmitInput) (ref : OutboundRef) : outcome Diagnostics proxy :=
  let! mapped := MapNode (or_Resource ref) (or_FieldPath ref) (in_TargetKey input) in
  nodeProxy (or_Tag ref) mapped (or_DialerTag ref).

Definition rule_total (doc : document) : Z :=
  Z.of_nat (length (doc_Rules doc) +
            length match doc_DNS doc with Some dns => dc_NameServerPolicy dns | None => [] end +
            sum_list ((λ kv, length (rp_Payload kv.2)) <$> map_to_list (doc_RuleProviders doc))).
Definition outbound_total (doc : document) : Z :=
  Z.of_nat (length (doc_Proxies doc) + length (doc_Groups doc)).

(** The document, before it is encoded. *)
Definition emit_document (input : EmitInput) : outcome Diagnostics document :=
  let! ordered := lift (OrderedOutboundRefs input) in
  let! proxies :=
    range_fold (λ _ ref acc, let! item := emit_ref input ref in Ret (acc ++ [item])) ordered.2 [] in
  let! doc := applyOrchestration proxies input in
  let! _ := fail_if (CheckNativeCounts input (outbound_total doc) (rule_total doc)) in
  if implicitDirect doc && negb (UsesTag input "direct")
  then Fails [CompileIssue CompileDialConflict "/rules" (in_TargetKey input) ""]
  else Ret doc.

Definition Emit (input : EmitInput) : outcome Diagnostics Artifact :=
  let! doc := emit_document input in
  match marshalYAML doc with
  | None => Fails [CompileIssue InvalidSnapshot "" (in_TargetKey input) ""]
  | Some payload =>
      Ret {| ar_SnapshotID := in_SnapshotID input; ar_TargetKey := in_TargetKey input;
             ar_ContentType := ContentType; ar_Bytes := payload;
             ar_OutboundCount := outbound_total doc; ar_RuleCount := rule_total doc |}
  end.
End Emit.

End Mihomo.
