(* ===== verification/Compiler.v ===== *)
(** The compile expansion ([internal/compiler]): capability keys ([protocol.go]),
    the graph of outbounds, chains and policies ([prepare.go]), routing, DNS and
    policy orchestration ([orchestration.go]), and the input of the native emitters
    ([emit.go]). *)
From S2P Require Import Prelude Diagnostics IRTypes IRValidate Frozen Capability Labels.
From S2P Require Import Adapter.

Definition ChainTwoHop := "chain.two_hop.tcp".

(** * protocol.go *)

Definition transportKind (t : Transport) : string :=
  match t with
  | Transport_TCP v => tcp_Kind v
  | Transport_WS v => ws_Kind v
  | Transport_typed_nil _ | Transport_nil => ""
  end.

Definition securityMode (s : Security) : string :=
  match s with
  | Security_None v => ns_Mode v
  | Security_TLS v => tls_Mode v
  | Security_Reality v => rs_Mode v
  | Security_typed_nil _ | Security_nil => ""
  end.

(** Whether a combination covers a protocol, transport and security mode. *)
Definition combo_covers (protocol transport security : string) (c : Combination) : bool :=
  (co_Protocol c =s protocol) && (co_Transport c =s transport) &&
  ((co_Security c =s security)
   || ((co_Security c =s "tls_or_none") && ((security =s TLS) || (security =s SecurityNone)))).

Definition nodeCapabilityKey (node : Node) (combinations : list Combination) : option string :=
  let protocol := n_Protocol node in
  let transport := transportKind (n_Transport node) in
  let security := securityMode (n_Security node) in
  if (protocol =s "") || (transport =s "") || (security =s "") then None
  else
    (λ ic, co_CapabilityKey ic.2) <$>
    list_find (λ c, combo_covers protocol transport security c = true) combinations.

Definition expectedFormat (family : string) : option string :=
  if family =s Xray then Some XrayJSON
  else if family =s SingBox then Some SingBoxJSON
  else if family =s Mihomo then Some MihomoYAML
  else None.

(** * The graph *)

Record Graph := {
  g_SnapshotID : ID; g_ScopeID : ID; g_CatalogRevision : Z; g_SecurityEpoch : Z;
  g_Target : Target; g_Build : Build; g_CapabilityState : State;
  g_Independents : list IndependentOutbound; g_Chains : list ChainInstance;
  g_Policies : list PolicyInstance; g_FinalTag : string; g_Routing : option RoutingInput;
  g_DNS : option DNSInput; g_Preset : option ClientPreset; g_RuleSets : list FrozenRef;
  g_Resources : list FrozenRef; g_RequiredKeys : list string; g_UnverifiedKeys : list string }.

(** ** Type assertions on a payload *)

Definition zero_metadata : Metadata :=
  {| md_ResourceID := ""; md_ScopeID := ""; md_Kind := ""; md_Revision := 0;
     md_SchemaVersion := 0; md_Name := ""; md_Tags := []; md_Enabled := false;
     md_SecurityEpoch := 0 |}.
(** [resources[id]]: the zero resource where the key is absent. *)
Definition zero_resource : Resource := {| r_Metadata := zero_metadata; r_Payload := Payload_nil |}.
Definition resource_at (resources : gmap string Resource) (id : ID) : Resource :=
  default zero_resource (resources !! id).

(** The dynamic type of a payload, by the kind it belongs to. *)
Definition payload_type (p : ResourcePayload) : ResourceKind :=
  match p with
  | Payload_nil => ""
  | Payload_typed_nil variant => variant
  | Payload_Node _ => KindNode
  | Payload_Chain _ => KindChain
  | Payload_PolicyGroup _ => KindPolicyGroup
  | Payload_RoutingProfile _ => KindRoutingProfile
  | Payload_DNSProfile _ => KindDNSProfile
  | Payload_RuleSet _ => KindRuleSet
  | Payload_SubscriptionProfile _ => KindSubscriptionProfile
  | Payload_ClientPreset _ => KindClientPreset
  end.

(** [p.( *T )] followed by a field access: panics on another type and on nil. *)
Definition as_chain (p : ResourcePayload) : option Chain :=
  match p with Payload_Chain c => Some c | _ => None end.
Definition as_group (p : ResourcePayload) : option PolicyGroup :=
  match p with Payload_PolicyGroup g => Some g | _ => None end.
Definition as_routing (p : ResourcePayload) : option RoutingProfile :=
  match p with Payload_RoutingProfile r => Some r | _ => None end.
Definition as_dns (p : ResourcePayload) : option DNSProfile :=
  match p with Payload_DNSProfile d => Some d | _ => None end.

(** [v, ok := p.( *T )] followed, when [ok], by a field access. *)
Definition try_preset {E} (p : ResourcePayload) : outcome E (option ClientPreset) :=
  match p with
  | Payload_ClientPreset c => Ret (Some c)
  | p => if payload_type p =s KindClientPreset then Panics else Ret None
  end.
Definition try_rule_set {E} (p : ResourcePayload) : outcome E (option RuleSet) :=
  match p with
  | Payload_RuleSet s => Ret (Some s)
  | p => if payload_type p =s KindRuleSet then Panics else Ret None
  end.

(** * orchestration.go: one rule's condition *)

(** [add]: a term for a non-empty list of values. *)
Definition add_term (kind : string) (values : list string) : list Condition :=
  match values with [] => [] | _ => [Cond kind values []] end.

Definition port_value (port : PortRange) : string :=
  if pr_To port =? pr_From port then Itoa (pr_From port)
  else Itoa (pr_From port) +:+ ":" +:+ Itoa (pr_To port).

(** One entry of a rule set; a CIDR entry has no meaning in a DNS rule. *)
Definition entry_condition (dns : bool) (id : ID) (entry : RuleSetEntry)
    : outcome Diagnostics Condition :=
  if rse_Kind entry =s RuleSetDomain then
    Ret (Cond (if rse_Match entry =s DomainSuffix then "domain_suffix" else "domain")
           [rse_Domain entry] [])
  else if dns then Fails [compileIssue CompileUnmappedField "" "" id]
  else Ret (Cond "ip_cidr" [rse_CIDR entry] []).

Definition rule_set_terms (resources : gmap string Resource) (dns : bool) (ids : list ID)
    : outcome Diagnostics (list Condition) :=
  range_fold (λ _ id terms,
    let! rules := try_rule_set (r_Payload (resource_at resources id)) in
    match rules with
    | None => Fails [compileIssue ReferenceMissing "" "" id]
    | Some rules =>
        range_fold (λ _ entry terms,
          let! c := entry_condition dns id entry in Ret (terms ++ [c]))
          (rset_Entries rules) terms
    end) ids [].

Definition routeCondition (m : RouteMatch) (resources : gmap string Resource) (dns : bool)
    : outcome Diagnostics Condition :=
  let terms :=
    add_term "domain" (rm_DomainExact m) ++ add_term "domain_suffix" (rm_DomainSuffix m) ++
    add_term "ip_cidr" (rm_IPCIDRs m) ++
    add_term "port" (port_value <$> rm_DestinationPorts m) ++
    add_term "network" (rm_Network m) in
  let! sets :=
    match rm_RuleSetIDs m with
    | [] => Ret []
    | ids => let! set := rule_set_terms resources dns ids in Ret [Cond "or" [] set]
    end in
  match terms ++ sets with
  | [term] => Ret term
  | terms => Ret (Cond "and" [] terms)
  end.

(** [ir.RouteMatch{DomainExact: ..., DomainSuffix: ..., RuleSetIDs: ...}] *)
Definition dns_route_match (m : DomainMatch) : RouteMatch :=
  {| rm_DomainExact := dm_DomainExact m; rm_DomainSuffix := dm_DomainSuffix m;
     rm_RuleSetIDs := dm_RuleSetIDs m; rm_IPCIDRs := []; rm_DestinationPorts := [];
     rm_Network := [] |}.

(** * orchestration.go: the orchestration of a graph *)

Section Orchestration.
Context (target : Target) (resources : gmap string Resource).

(** [fail]. *)
Definition target_issue (code : DiagnosticCode) (path : string) (id : ID) : Diagnostics :=
  [compileIssue code path (t_Key target) id].

(** [normalizedRules] and [graph.RuleSets], as [checkRuleLimit] grows them. *)
Record rule_state := { rs_count : Z; rs_sets : list FrozenRef }.

Definition rule_set_ref (id : ID) : FrozenRef :=
  let meta := r_Metadata (resource_at resources id) in
  {| fr_ResourceID := id; fr_Kind := KindRuleSet; fr_Revision := md_Revision meta;
     fr_SecurityEpoch := md_SecurityEpoch meta |}.

Definition checkRuleLimit (m : RouteMatch) (path : string) (id : ID) (s : rule_state)
    : outcome Diagnostics rule_state :=
  let direct :=
    Z.of_nat (length (rm_DomainExact m) + length (rm_DomainSuffix m) + length (rm_IPCIDRs m)
              + length (rm_DestinationPorts m) + length (rm_Network m)) in
  let! count :=
    range_fold (λ _ setID count,
      let! set := try_rule_set (r_Payload (resource_at resources setID)) in
      Ret match set with
          | Some set => count + Z.of_nat (length (rset_Entries set))
          | None => count
          end) (rm_RuleSetIDs m) direct in
  let total := rs_count s + Z.max 1 count in
  if MaxRules <? total then Fails (target_issue InputLimitExceeded path id)
  else Ret {| rs_count := total; rs_sets := rs_sets s ++ (rule_set_ref <$> rm_RuleSetIDs m) |}.

(** [resolve]. *)
Definition resolve (tags : gmap string string) (ref : TargetRef) : string :=
  if tr_Type ref =s BuiltinRef then
    if tr_Builtin ref =s Direct then "direct" else BlockTag
  else default "" (tags !! tr_ResourceID ref).

(** The rejections of a policy, in order. *)
Definition check_policy (controlled : bool) (id : ID) (p : PolicyGroup) : error :=
  let family := t_CoreFamily target in
  let h := pg_HealthCheck p in
  let unmapped path := Some (target_issue CompileUnmappedField path id) in
  if (pg_Strategy p =s PolicyManualSelect) && (negb controlled || (family =s Xray)) then
    Some [{| d_Code := CapabilityUnsupported; d_Severity := SeverityError; d_ResourceID := id;
             d_FieldPath := "/payload/strategy"; d_TargetKey := t_Key target;
             d_Message := diagnosticMessage CapabilityUnsupported;
             d_SuggestedAction := "The approved file preset has no runtime selection control API; use an explicit fixed strategy override." |}]
  else if (pg_Strategy p =s PolicyRoundRobin) && (family =s SingBox) then
    Some (target_issue CapabilityUnsupported "/payload/strategy" id)
  else if (pg_Strategy p =s PolicyRoundRobin) && (family =s Mihomo) && negb (hc_Enabled h) then
    unmapped "/payload/health_check/enabled"
  else if ((pg_Strategy p =s PolicyFixed) || (pg_Strategy p =s PolicyManualSelect))
          && hc_Enabled h then unmapped "/payload/health_check/enabled"
  else if negb (hc_Enabled h)
          && (negb (hc_URL h =s "") || bool_decide (hc_IntervalMS h ≠ None)
              || bool_decide (hc_TimeoutMS h ≠ None) || bool_decide (hc_ToleranceMS h ≠ None))
  then unmapped "/payload/health_check"
  else if (pg_Strategy p =s PolicyLatencyBest) && negb (hc_Enabled h) then
    unmapped "/payload/health_check/enabled"
  else if hc_Enabled h && negb (family =s Mihomo) then
    unmapped "/payload/health_check/timeout_ms"
  else None.

(** [graph.Chains = append(...)] for a chain under two tags. *)
Definition chain_instance (r : Resource) (chain : Chain) (h1 h2 : string)
    : outcome Diagnostics ChainInstance :=
  let! hop1 := must (ch_Hops chain !! 0%nat) in
  let! hop2 := must (ch_Hops chain !! 1%nat) in
  Ret {| ci_ResourceID := rid r; ci_Revision := md_Revision (r_Metadata r); ci_TagH1 := h1;
         ci_TagH2 := h2; ci_Hop1 := resource_at resources (nr_NodeID hop1);
         ci_Hop2 := resource_at resources (nr_NodeID hop2);
         ci_FailurePolicy := ch_FailurePolicy chain |}.

(** The member loop: the outbounds it appends and [memberTags]. *)
Record member_state := {
  ms_independents : list IndependentOutbound; ms_chains : list ChainInstance;
  ms_tags : gmap string string }.

Definition member_prefix (tag : string) (index : nat) : string :=
  tag +:+ "_m" +:+ Itoa (Z.of_nat index + 1).

Definition add_member (tag : string) (index : nat) (member : TargetRef) (s : member_state)
    : outcome Diagnostics member_state :=
  let prefix := member_prefix tag index in
  let r := resource_at resources (tr_ResourceID member) in
  let kind := payload_type (r_Payload r) in
  if kind =s KindNode then
    Ret {| ms_independents := ms_independents s
                                ++ [{| io_Tag := prefix +:+ "_n"; io_Resource := r |}];
           ms_chains := ms_chains s;
           ms_tags := <[tr_ResourceID member := prefix +:+ "_n"]> (ms_tags s) |}
  else if kind =s KindChain then
    let! chain := must (as_chain (r_Payload r)) in
    let! instance := chain_instance r chain (prefix +:+ "_h1") (prefix +:+ "_h2") in
    Ret {| ms_independents := ms_independents s; ms_chains := ms_chains s ++ [instance];
           ms_tags := <[tr_ResourceID member := prefix +:+ "_h2"]> (ms_tags s) |}
  else Ret s.

Definition policy_members (tag : string) (p : PolicyGroup) : outcome Diagnostics member_state :=
  range_fold (add_member tag) (pg_Members p)
    {| ms_independents := []; ms_chains := []; ms_tags := ∅ |}.

(** The default comes first, then the other members in their order. *)
Definition policy_instance (tag : string) (id : ID) (p : PolicyGroup) (tags : gmap string string)
    : PolicyInstance :=
  let member_tag m := default "" (tags !! tr_ResourceID m) in
  let first := member_tag (pg_DefaultMember p) in
  {| pi_Tag := tag; pi_ResourceID := id; pi_Strategy := pg_Strategy p;
     pi_Members := first :: filter (λ t, t ≠ first) (member_tag <$> pg_Members p);
     pi_Default := first; pi_Health := pg_HealthCheck p |}.

(** The policy loop. *)
Record policy_state := {
  ps_independents : list IndependentOutbound; ps_chains : list ChainInstance;
  ps_policies : list PolicyInstance }.

Definition add_policy (controlled : bool) (tags : gmap string string) (r : Resource)
    (s : policy_state) : outcome Diagnostics policy_state :=
  let! p := must (as_group (r_Payload r)) in
  let! _ := fail_if (check_policy controlled (rid r) p) in
  let tag := default "" (tags !! rid r) in
  let! members := policy_members tag p in
  Ret {| ps_independents := ps_independents s ++ ms_independents members;
         ps_chains := ps_chains s ++ ms_chains members;
         ps_policies := ps_policies s ++ [policy_instance tag (rid r) p (ms_tags members)] |}.

(** One enabled rule of a profile: its limit, then its condition. *)
Definition add_rule (dns : bool) (m : RouteMatch) (to : string) (index : nat) (id : ID)
    (acc : list RouteRule * rule_state) : outcome Diagnostics (list RouteRule * rule_state) :=
  let path := "/payload/rules/" +:+ index_string index in
  let! s := checkRuleLimit m path id acc.2 in
  match routeCondition m resources dns with
  | Ret c => Ret (acc.1 ++ [{| ru_Condition := c; ru_Target := to; ru_FieldPath := path |}], s)
  | Fails _ => Fails (target_issue CompileUnmappedField (path +:+ "/match/rule_set_ids") id)
  | Panics => Panics
  end.

Definition routing_input (tags : gmap string string) (r : Resource) (profile : RoutingProfile)
    (s : rule_state) : outcome Diagnostics (RoutingInput * rule_state) :=
  let! out :=
    range_fold (λ i rule acc,
      if rr_Enabled rule
      then add_rule false (rr_Match rule) (resolve tags (rr_Action rule)) i (rid r) acc
      else Ret acc) (rp_Rules profile) ([], s) in
  Ret ({| ri_ResourceID := rid r; ri_Mode := rp_DomainResolutionMode profile;
          ri_Rules := out.1 |}, out.2).

(** [OutboundTags]; a UDP resolver cannot leave the direct path. *)
Definition outbound_tags (tags : gmap string string) (r : Resource) (profile : DNSProfile)
    : outcome Diagnostics (gmap string string) :=
  range_fold (λ i resolver out,
    match dr_Outbound resolver with
    | None => Ret out
    | Some ref =>
        let tag := resolve tags ref in
        if (dr_Kind resolver =s DNSUDP) && negb (tag =s "direct")
        then Fails (target_issue CompileUnmappedField
                      ("/payload/resolvers/" +:+ index_string i +:+ "/outbound") (rid r))
        else Ret (<[dr_ResolverID resolver := tag]> out)
    end) (dp_Resolvers profile) ∅.

Definition dns_input (tags : gmap string string) (r : Resource) (profile : DNSProfile)
    (s : rule_state) : outcome Diagnostics (DNSInput * rule_state) :=
  let! outbounds := outbound_tags tags r profile in
  let! out :=
    range_fold (λ i rule acc,
      if dru_Enabled rule
      then add_rule true (dns_route_match (dru_Match rule)) (dru_ResolverID rule) i (rid r) acc
      else Ret acc) (dp_Rules profile) ([], s) in
  Ret ({| di_ResourceID := rid r; di_Profile := profile; di_OutboundTags := outbounds;
          di_Rules := out.1 |}, out.2).

(** The preset a graph is built for; without one, nothing that needs it may be
    present. *)
Definition check_preset (routing : option RoutingInput) (dns : option DNSInput)
    (policies : list PolicyInstance) : outcome Diagnostics (option ClientPreset) :=
  let id := t_ClientPresetID target in
  match resources !! id with
  | Some resource =>
      let! preset := try_preset (r_Payload resource) in
      let mismatch := target_issue CompileTargetMismatch "/client_preset_id" id in
      match preset with
      | None => Fails mismatch
      | Some preset =>
          if negb (md_Revision (r_Metadata resource) =? t_ClientPresetRevision target)
             || negb (cp_CoreFamily preset =s t_CoreFamily target)
             || negb (cp_Format preset =s t_Format target)
          then Fails mismatch
          else if bool_decide (dns = None)
          then Fails (target_issue ReferenceMissing "/dns_profile" (rid resource))
          else if bool_decide (routing = None)
          then Fails (target_issue ReferenceMissing "/routing_profile" (rid resource))
          else Ret (Some preset)
      end
  | None =>
      match routing, dns, policies with
      | None, None, [] => Ret None
      | _, _, _ => Fails (target_issue ReferenceMissing "/client_preset_id" id)
      end
  end.
End Orchestration.

(** ** prepareOrchestration *)

Definition set_orchestration (g : Graph) (ps : policy_state) (final : string)
    (routing : option RoutingInput) (dns : option DNSInput) (preset : option ClientPreset)
    (sets : list FrozenRef) : Graph :=
  {| g_SnapshotID := g_SnapshotID g; g_ScopeID := g_ScopeID g;
     g_CatalogRevision := g_CatalogRevision g; g_SecurityEpoch := g_SecurityEpoch g;
     g_Target := g_Target g; g_Build := g_Build g; g_CapabilityState := g_CapabilityState g;
     g_Independents := g_Independents g ++ ps_independents ps;
     g_Chains := g_Chains g ++ ps_chains ps; g_Policies := ps_policies ps;
     g_FinalTag := final; g_Routing := routing; g_DNS := dns; g_Preset := preset;
     g_RuleSets := sets; g_Resources := g_Resources g; g_RequiredKeys := g_RequiredKeys g;
     g_UnverifiedKeys := g_UnverifiedKeys g |}.

(** The map [tags] from a resource to the tag that stands for it. *)
Definition policy_tag (labels : gmap string (list string)) (r : Resource)
    : outcome Diagnostics string :=
  must (default [] (labels !! policyMaterial (rid r) (md_Revision (r_Metadata r))) !! 0%nat).

Definition resource_tags (g : Graph) (policies : list Resource)
    (labels : gmap string (list string)) : outcome Diagnostics (gmap string string) :=
  let tags := foldl (λ m o, <[rid (io_Resource o) := io_Tag o]> m) ∅ (g_Independents g) in
  let tags := foldl (λ m c, <[ci_ResourceID c := ci_TagH2 c]> m) tags (g_Chains g) in
  range_fold (λ _ r m, let! tag := policy_tag labels r in Ret (<[rid r := tag]> m)) policies tags.

Definition prepareOrchestration (graph : Graph) (spec : FrozenInputSpec)
    (resources : gmap string Resource) (policies : list Resource)
    (labels : gmap string (list string)) : outcome Diagnostics Graph :=
  let target := g_Target graph in
  let policies := SortFunc (λ a b, compareString (rid a) (rid b)) policies in
  let! preset := try_preset (r_Payload (resource_at resources (t_ClientPresetID target))) in
  let controlled := match preset with Some p => ca_Enabled (cp_ControlAPI p) | None => false end in
  let! tags := resource_tags graph policies labels in
  let! ps :=
    range_fold (λ _ r s, add_policy target resources controlled tags r s) policies
      {| ps_independents := []; ps_chains := []; ps_policies := [] |} in
  let policies := SortFunc (λ a b, compareString (pi_Tag a) (pi_Tag b)) (ps_policies ps) in
  let s := {| rs_count := 0; rs_sets := [] |} in
  let! routed :=
    match fs_RoutingProfile spec with
    | None => Ret ("", None, s)
    | Some ref =>
        let r := resource_at resources (fr_ResourceID ref) in
        let! profile := must (as_routing (r_Payload r)) in
        let! out := routing_input target resources tags r profile s in
        Ret (resolve tags (rp_Final profile), Some out.1, out.2)
    end in
  let '(final, routing, s) := routed in
  let! resolved :=
    match fs_DNSProfile spec with
    | None => Ret (None, s)
    | Some ref =>
        let r := resource_at resources (fr_ResourceID ref) in
        let! profile := must (as_dns (r_Payload r)) in
        let! out := dns_input target resources tags r profile s in
        Ret (Some out.1, out.2)
    end in
  let '(dns, s) := resolved in
  let! preset := check_preset target resources routing dns policies in
  let sets :=
    CompactFunc (λ a b, fr_ResourceID a =s fr_ResourceID b)
      (SortFunc (λ a b, compareString (fr_ResourceID a) (fr_ResourceID b)) (rs_sets s)) in
  Ret (set_orchestration graph
         {| ps_independents := ps_independents ps; ps_chains := ps_chains ps;
            ps_policies := policies |} final routing dns preset sets).

(** * prepare.go *)

(** The slices and [seen] maps that [addResource] grows. *)
Record expand_state := {
  es_items : list labelItem; es_independents : list Resource; es_chains : list Resource;
  es_policies : list Resource; es_seenNode : gset string; es_seenChain : gset string;
  es_seenPolicy : gset string }.

Definition expand_start : expand_state :=
  {| es_items := []; es_independents := []; es_chains := []; es_policies := [];
     es_seenNode := ∅; es_seenChain := ∅; es_seenPolicy := ∅ |}.

Definition addResource (target : Target) (resources : gmap string Resource) (id : ID)
    (s : expand_state) : outcome Diagnostics expand_state :=
  let r := resource_at resources id in
  let revision := md_Revision (r_Metadata r) in
  let kind := payload_type (r_Payload r) in
  if kind =s KindNode then
    if bool_decide (id ∈ es_seenNode s) then Ret s
    else
      Ret {| es_items := es_items s ++ [nodeLabelItem (rid r) revision];
             es_independents := es_independents s ++ [r]; es_chains := es_chains s;
             es_policies := es_policies s; es_seenNode := {[id]} ∪ es_seenNode s;
             es_seenChain := es_seenChain s; es_seenPolicy := es_seenPolicy s |}
  else if kind =s KindChain then
    if bool_decide (id ∈ es_seenChain s) then Ret s
    else
      Ret {| es_items := es_items s ++ [chainLabelItem (rid r) revision];
             es_independents := es_independents s; es_chains := es_chains s ++ [r];
             es_policies := es_policies s; es_seenNode := es_seenNode s;
             es_seenChain := {[id]} ∪ es_seenChain s; es_seenPolicy := es_seenPolicy s |}
  else if kind =s KindPolicyGroup then
    if bool_decide (id ∈ es_seenPolicy s) then Ret s
    else
      Ret {| es_items := es_items s ++ [policyLabelItem id revision];
             es_independents := es_independents s; es_chains := es_chains s;
             es_policies := es_policies s ++ [r]; es_seenNode := es_seenNode s;
             es_seenChain := es_seenChain s; es_seenPolicy := {[id]} ∪ es_seenPolicy s |}
  else Fails [compileIssue InvalidUnion "/members" (t_Key target) id].

(** The references a profile contributes to the expansion. *)
Definition profile_refs (p : ResourcePayload) : outcome Diagnostics (list TargetRef) :=
  match p with
  | Payload_RoutingProfile r => Ret (rp_Final r :: (rr_Action <$> rp_Rules r))
  | Payload_DNSProfile d => Ret (omap dr_Outbound (dp_Resolvers d))
  | p =>
      (* A nil profile is dereferenced. *)
      if (payload_type p =s KindRoutingProfile) || (payload_type p =s KindDNSProfile)
      then Panics else Ret []
  end.

Definition add_profile (target : Target) (resources : gmap string Resource) (original : Resource)
    (s : expand_state) : outcome Diagnostics expand_state :=
  let! refs := profile_refs (r_Payload (resource_at resources (rid original))) in
  range_fold (λ _ ref s,
    if tr_Type ref =s ResourceRef then addResource target resources (tr_ResourceID ref) s
    else Ret s) refs s.

(** Members, then the references of the profiles, each resource once. *)
Definition expand (target : Target) (resources : gmap string Resource) (spec : FrozenInputSpec)
    : outcome Diagnostics expand_state :=
  let! s := range_fold (λ _ m s, addResource target resources (fr_ResourceID m) s)
              (fs_Members spec) expand_start in
  range_fold (λ _ r s, add_profile target resources r s) (fs_Resources spec) s.

(** The number of outbounds the expansion will create. *)
Definition outbound_count (s : expand_state) : outcome Diagnostics Z :=
  range_fold (λ _ r count,
    let! group := must (as_group (r_Payload r)) in
    Ret (count + Z.of_nat (sum_list_with (λ m, if tr_Kind m =s KindChain then 2%nat else 1%nat)
                             (pg_Members group))))
    (es_policies s)
    (Z.of_nat (length (es_independents s)) + 2 * Z.of_nat (length (es_chains s))).

Definition frozen_ref (r : Resource) : FrozenRef :=
  let m := r_Metadata r in
  {| fr_ResourceID := md_ResourceID m; fr_Kind := md_Kind m; fr_Revision := md_Revision m;
     fr_SecurityEpoch := md_SecurityEpoch m |}.

(** [labels[material][i]]. *)
Definition label_at (labels : gmap string (list string)) (key : string) (i : nat)
    : outcome Diagnostics string := must (default [] (labels !! key) !! i).

Definition independent_of (labels : gmap string (list string)) (r : Resource)
    : outcome Diagnostics IndependentOutbound :=
  let! tag := label_at labels (nodeMaterial (rid r) (md_Revision (r_Metadata r))) 0 in
  Ret {| io_Tag := tag; io_Resource := r |}.

Definition chain_of (resources : gmap string Resource) (labels : gmap string (list string))
    (r : Resource) : outcome Diagnostics ChainInstance :=
  let! chain := must (as_chain (r_Payload r)) in
  let key := chainMaterial (rid r) (md_Revision (r_Metadata r)) in
  let! h1 := label_at labels key 0 in
  let! h2 := label_at labels key 1 in
  chain_instance resources r chain h1 h2.

(** [for _, x := range l { out = append(out, f(x)) }] with a body that may fail. *)
Definition range_collect {E A B} (f : A → outcome E B) (l : list A) : outcome E (list B) :=
  range_fold (λ _ x out, let! y := f x in Ret (out ++ [y])) l [].

(** The resources of the snapshot with the target's overrides merged in. *)
Section Prepare.
Context {P : Platform}.

Definition merged_resource (target : Target) (r : Resource) : outcome Diagnostics Resource :=
  match t_PolicyOverrides target !! rid r with
  | None => Ret r
  | Some override =>
      let! merged := lift (MergePolicyOverride r override) in
      Ret {| r_Metadata := r_Metadata r; r_Payload := Payload_PolicyGroup merged |}
  end.

Definition prepare_resources (target : Target) (spec : FrozenInputSpec)
    : outcome Diagnostics (gmap string Resource) :=
  range_fold (λ _ r m, let! r' := merged_resource target r in Ret (<[rid r := r']> m))
    (fs_Resources spec) ∅.
End Prepare.

(** ** Capabilities *)

Record requirement := { rq_key : string; rq_path : string; rq_resourceID : ID }.

Section Capabilities.
Context (catalog : CapabilityCatalog).

(** [addNode]. *)
Definition node_requirement (target : Target) (r : Resource) (path : string)
    : outcome Diagnostics requirement :=
  match r_Payload r with
  | Payload_Node node =>
      match nodeCapabilityKey node (cat_Combinations catalog) with
      | None => Fails [compileIssue CompileUnknownCapability (path +:+ "/protocol") (t_Key target) (rid r)]
      | Some key => Ret {| rq_key := key; rq_path := path; rq_resourceID := rid r |}
      end
  | _ => Fails [compileIssue InvalidUnion path (t_Key target) (rid r)]
  end.

(** Everything a graph asks of its core build, in order. *)
Definition requirements (graph : Graph) : outcome Diagnostics (list requirement) :=
  let target := g_Target graph in
  let! independents :=
    range_fold (λ i o out,
      let! r := node_requirement target (io_Resource o) ("/independents/" +:+ index_string i) in
      Ret (out ++ [r])) (g_Independents graph) [] in
  let! required :=
    range_fold (λ i c out,
      let base := "/chains/" +:+ index_string i in
      let! h1 := node_requirement target (ci_Hop1 c) (base +:+ "/h1") in
      let! h2 := node_requirement target (ci_Hop2 c) (base +:+ "/h2") in
      Ret (out ++ [h1; h2; {| rq_key := ChainTwoHop; rq_path := base;
                              rq_resourceID := ci_ResourceID c |}]))
      (g_Chains graph) independents in
  Ret (required ++
       ((λ p, {| rq_key := "policy." +:+ pi_Strategy p; rq_path := "/payload/strategy";
                 rq_resourceID := pi_ResourceID p |}) <$> g_Policies graph) ++
       match g_Routing graph with
       | Some r => [{| rq_key := "routing.ordered"; rq_path := "/payload/rules";
                       rq_resourceID := ri_ResourceID r |}]
       | None => []
       end ++
       match g_DNS graph with
       | Some d => [{| rq_key := "dns.profile"; rq_path := "/payload/resolvers";
                       rq_resourceID := di_ResourceID d |}]
       | None => []
       end ++
       match g_Preset graph with
       | Some _ => [{| rq_key := "client_preset"; rq_path := "/payload";
                       rq_resourceID := t_ClientPresetID target |}]
       | None => []
       end ++
       ((λ s, {| rq_key := "rule_set.inline"; rq_path := "/payload/entries";
                 rq_resourceID := fr_ResourceID s |}) <$> g_RuleSets graph)).

(** [keys], [unverified] (each with its [seen] map) and [diags]. *)
Record capability_state := {
  cs_keys : list string; cs_unverified : list string; cs_diags : Diagnostics }.

Definition add_unseen (key : string) (keys : list string) : list string :=
  if bool_decide (key ∈ keys) then keys else keys ++ [key].

Definition unverified_info (target : Target) (item : requirement) : Diagnostic :=
  {| d_Code := CapabilityUnverified; d_Severity := SeverityInfo;
     d_ResourceID := rq_resourceID item; d_FieldPath := rq_path item;
     d_TargetKey := t_Key target; d_Message := diagnosticMessage CapabilityUnverified;
     d_SuggestedAction := "" |}.

Definition require_capability (graph : Graph) (item : requirement) (s : capability_state)
    : outcome Diagnostics capability_state :=
  let target := g_Target graph in
  let fail code := Fails [compileIssue code (rq_path item) (t_Key target) (rq_resourceID item)] in
  let keys := add_unseen (rq_key item) (cs_keys s) in
  match Catalog_Capability catalog (b_ID (g_Build graph)) (rq_key item) with
  | Err _ => fail CompileUnknownCapability
  | Ok record =>
      if rec_State record =s Unsupported then fail CapabilityUnsupported
      else if rec_State record =s Verified then
        Ret {| cs_keys := keys; cs_unverified := cs_unverified s; cs_diags := cs_diags s |}
      else
        Ret {| cs_keys := keys; cs_unverified := add_unseen (rq_key item) (cs_unverified s);
               cs_diags := cs_diags s ++ [unverified_info target item] |}
  end.

Definition compile_diagnostic_less : Diagnostic → Diagnostic → bool :=
  lex_by d_FieldPath (lex_by d_Code (λ a b, d_ResourceID a <s d_ResourceID b)).

Definition stableCompileDiagnostics (d : Diagnostics) : Diagnostics :=
  SliceStable compile_diagnostic_less d.

Definition collectCapabilities (graph : Graph)
    : outcome Diagnostics (list string * list string * Diagnostics) :=
  let! required := requirements graph in
  let! s := range_fold (λ _ item s, require_capability graph item s) required
              {| cs_keys := []; cs_unverified := []; cs_diags := [] |} in
  Ret (sort_strings (cs_keys s), sort_strings (cs_unverified s),
       stableCompileDiagnostics (cs_diags s)).
End Capabilities.

(** ** Prepare *)

Definition with_capabilities (g : Graph) (keys unverified : list string) : Graph :=
  {| g_SnapshotID := g_SnapshotID g; g_ScopeID := g_ScopeID g;
     g_CatalogRevision := g_CatalogRevision g; g_SecurityEpoch := g_SecurityEpoch g;
     g_Target := g_Target g; g_Build := g_Build g; g_CapabilityState := Unverified;
     g_Independents := g_Independents g; g_Chains := g_Chains g; g_Policies := g_Policies g;
     g_FinalTag := g_FinalTag g; g_Routing := g_Routing g; g_DNS := g_DNS g;
     g_Preset := g_Preset g; g_RuleSets := g_RuleSets g; g_Resources := g_Resources g;
     g_RequiredKeys := keys; g_UnverifiedKeys := unverified |}.

Definition sort_outbounds (g : Graph) : Graph :=
  {| g_SnapshotID := g_SnapshotID g; g_ScopeID := g_ScopeID g;
     g_CatalogRevision := g_CatalogRevision g; g_SecurityEpoch := g_SecurityEpoch g;
     g_Target := g_Target g; g_Build := g_Build g; g_CapabilityState := g_CapabilityState g;
     g_Independents :=
       SortFunc (λ a b, compareString (io_Tag a) (io_Tag b)) (g_Independents g);
     g_Chains := SortFunc (λ a b, compareString (ci_TagH1 a) (ci_TagH1 b)) (g_Chains g);
     g_Policies := g_Policies g; g_FinalTag := g_FinalTag g; g_Routing := g_Routing g;
     g_DNS := g_DNS g; g_Preset := g_Preset g; g_RuleSets := g_RuleSets g;
     g_Resources := g_Resources g; g_RequiredKeys := g_RequiredKeys g;
     g_UnverifiedKeys := g_UnverifiedKeys g |}.

Section Compile.
Context {P : Platform} {T : GoText} (digest : string → string) (catalog : CapabilityCatalog).

(** The checks of the target against the snapshot and the catalog, before any
    expansion. *)
Definition check_target (input : FrozenInput) (target : Target)
    : outcome Diagnostics Build :=
  let fail code path := Fails [compileIssue code path (t_Key target) ""] in
  match FrozenInput_Validate input with
  | Some err => Fails err
  | None =>
      if negb match FrozenInput_Target input (t_Key target) with
              | Some pinned => Target_Equal pinned target
              | None => false
              end then fail CompileTargetMismatch ""
      else if negb match expectedFormat (t_CoreFamily target) with
                   | Some format => t_Format target =s format
                   | None => false
                   end then fail CompileFormatMismatch "/format"
      else if negb (t_AdapterVersion target =s cat_AdapterVersion catalog)
      then fail CompileAdapterVersion "/adapter_version"
      else
        match Catalog_Build catalog (t_CoreBuildID target) with
        | Err _ => fail CompileUnknownBuild "/core_build_id"
        | Ok build =>
            if negb (b_Family build =s t_CoreFamily target)
            then fail CompileUnknownBuild "/core_family"
            else
              match Authenticate catalog (t_CoreBuildID target) (t_CoreBuildSHA256 target) "" "" with
              | Some ErrUnknownBuild => fail CompileUnknownBuild "/core_build_id"
              | Some _ => fail CompileDigestMismatch "/core_build_sha256"
              | None => Ret build
              end
        end
  end.

(** The graph before orchestration. *)
Definition base_graph (target : Target) (build : Build) (spec : FrozenInputSpec)
    (independents : list IndependentOutbound) (chains : list ChainInstance) : Graph :=
  {| g_SnapshotID := fs_SnapshotID spec; g_ScopeID := fs_ScopeID spec;
     g_CatalogRevision := fs_CatalogRevision spec; g_SecurityEpoch := fs_SecurityEpoch spec;
     g_Target := target; g_Build := build; g_CapabilityState := Unverified;
     g_Independents := SortFunc (λ a b, compareString (io_Tag a) (io_Tag b)) independents;
     g_Chains := SortFunc (λ a b, compareString (ci_ResourceID a) (ci_ResourceID b)) chains;
     g_Policies := []; g_FinalTag := ""; g_Routing := None; g_DNS := None; g_Preset := None;
     g_RuleSets := [];
     g_Resources := SortFunc (λ a b, compareString (fr_ResourceID a) (fr_ResourceID b))
                      (frozen_ref <$> fs_Resources spec);
     g_RequiredKeys := []; g_UnverifiedKeys := [] |}.

(** The expansion of a checked target: the graph before its capabilities. *)
Definition expand_graph (target : Target) (build : Build) (spec : FrozenInputSpec)
    : outcome Diagnostics Graph :=
  let! resources := prepare_resources target spec in
  let! s := expand target resources spec in
  let! labels := match assign digest (es_items s) with
                 | Some r => lift r
                 | None => Panics
                 end in
  let! count := outbound_count s in
  if MaxOutbounds <? count
  then Fails [compileIssue InputLimitExceeded "/outbounds" (t_Key target) ""]
  else
    let! independents := range_collect (independent_of labels) (es_independents s) in
    let! chains := range_collect (chain_of resources labels) (es_chains s) in
    let! graph :=
      prepareOrchestration (base_graph target build spec independents chains) spec resources
        (es_policies s) labels in
    Ret (sort_outbounds graph).

(** Every failure returns its error's diagnostics as the second result
    ([asDiagnostics]), so the error alone stands for both. *)
Definition Prepare (input : FrozenInput) (target : Target)
    : outcome Diagnostics (Graph * Diagnostics) :=
  let! build := check_target input target in
  let! graph := expand_graph target build (FrozenInput_Spec input) in
  let! collected := collectCapabilities catalog graph in
  let '(keys, unverified, diags) := collected in
  Ret (with_capabilities graph keys unverified, diags).

(** [emitNative]'s input. *)
Definition emit_input (graph : Graph) : EmitInput :=
  {| in_SnapshotID := g_SnapshotID graph; in_TargetKey := t_Key (g_Target graph);
     in_Independents := g_Independents graph; in_Chains := g_Chains graph;
     in_Policies := g_Policies graph; in_FinalTag := g_FinalTag graph;
     in_Routing := g_Routing graph; in_DNS := g_DNS graph; in_Preset := g_Preset graph |}.
End Compile.
