(* ===== verification/Compile.v ===== *)
(** The compiler as a whole ([internal/compiler/compile.go], [emit.go]): preparation,
    the emitter of the target's family, the size of the artifact. *)
From S2P Require Import Prelude Diagnostics IRTypes Hashes IRValidate Frozen Labels Adapter.
From S2P Require Import Capability Network Xray Singbox Mihomo Compiler.

Section Compile.
Context {P : Platform} {T : GoText} {N : Network} {U : Upper} {Y : Mihomo.YAML}.
Context (catalog : CapabilityCatalog).

Definition emitNative (graph : Graph) : outcome Diagnostics Artifact :=
  let input := emit_input graph in
  let family := t_CoreFamily (g_Target graph) in
  if family =s IRTypes.Xray then Xray.Emit input
  else if family =s SingBox then Singbox.Emit input
  else if family =s IRTypes.Mihomo then Mihomo.Emit input
  else Fails [compileIssue CompileFormatMismatch "/core_family" (t_Key (g_Target graph)) ""].

(** [canceled]: the error of a done context. *)
Definition Compile (canceled : error) (input : FrozenInput) (target : Target)
    : outcome Diagnostics (Artifact * Diagnostics) :=
  let! _ := fail_if canceled in
  let! prepared := Prepare sha256Hex catalog input target in
  let! artifact := emitNative prepared.1 in
  if MaxArtifactBytes <? Z.of_nat (String.length (ar_Bytes artifact))
  then Fails [compileIssue InputLimitExceeded "/artifact" (t_Key target) ""]
  else Ret (artifact, prepared.2).
End Compile.
