(* ===== verification/RouteFacts.v ===== *)
(** The meaning of a compiled routing condition: AND across the fields of a match, OR across
    the values of a field and the entries of its rule sets. What a list of domain patterns
    matches: [domains_of] computes exactly the domains a condition holds of, and an
    intersection is exact because two suffix trees are nested or disjoint. *)
From S2P Require Import Prelude Diagnostics IRTypes IRValidate Frozen Labels Adapter Network.
From S2P Require Import Domains Compiler.

Section Route.
(** The native predicates: does the connection match [value] as a [kind]? *)
Context (atom : string → string → bool).

(** Conditions use AND across Terms and OR across Values; "or" is OR across Terms. *)
Fixpoint eval (c : Condition) : bool :=
  match c with
  | Cond kind values terms =>
      if kind =s "and" then forallb eval terms
      else if kind =s "or" then existsb eval terms
      else existsb (atom kind) values
  end.

(** An empty field does not constrain. *)
Definition field (kind : string) (values : list string) : bool :=
  match values with [] => true | _ => existsb (atom kind) values end.

Definition entry_kind (entry : RuleSetEntry) : string :=
  if rse_Kind entry =s RuleSetDomain
  then if rse_Match entry =s DomainSuffix then "domain_suffix" else "domain"
  else "ip_cidr".
Definition entry_value (entry : RuleSetEntry) : string :=
  if rse_Kind entry =s RuleSetDomain then rse_Domain entry else rse_CIDR entry.

Definition entries_at (resources : gmap string Resource) (id : ID) : list RuleSetEntry :=
  match r_Payload (resource_at resources id) with
  | Payload_RuleSet s => rset_Entries s
  | _ => []
  end.

Definition match_holds (resources : gmap string Resource) (m : RouteMatch) : bool :=
  field "domain" (rm_DomainExact m) && field "domain_suffix" (rm_DomainSuffix m) &&
  field "ip_cidr" (rm_IPCIDRs m) && field "port" (port_value <$> rm_DestinationPorts m) &&
  field "network" (rm_Network m) &&
  match rm_RuleSetIDs m with
  | [] => true
  | ids => existsb (λ entry, atom (entry_kind entry) (entry_value entry))
             (mjoin (entries_at resources <$> ids))
  end.

(** When a condition exists: every rule set is one, and a DNS rule's rule sets
    hold domains. *)
Definition rule_sets_ok (resources : gmap string Resource) (dns : bool) (ids : list ID) : Prop :=
  ∀ id, id ∈ ids → ∃ s, r_Payload (resource_at resources id) = Payload_RuleSet s ∧
    (dns = true → Forall (λ e, rse_Kind e = RuleSetDomain) (rset_Entries s)).

Definition entry_term (entry : RuleSetEntry) : Condition :=
  Cond (entry_kind entry) [entry_value entry] [].

Lemma entry_condition_Ret dns id entry :
  (dns = true → rse_Kind entry = RuleSetDomain) →
  entry_condition dns id entry = Ret (entry_term entry).
Proof.
  intros H. unfold entry_condition, entry_term, entry_kind, entry_value.
  destruct (String.eqb_spec (rse_Kind entry) RuleSetDomain); [done|].
  destruct dns; [by exfalso; auto|done].
Qed.

Lemma rule_set_terms_Ret resources dns ids :
  rule_sets_ok resources dns ids →
  rule_set_terms resources dns ids = Ret (entry_term <$> mjoin (entries_at resources <$> ids)).
Proof.
  intros Hok. unfold rule_set_terms.
  rewrite (range_fold_app _ (λ id, entry_term <$> entries_at resources id)).
  - simpl. f_equal. clear Hok. induction ids as [|id ids IH]; csimpl; [done|].
    by rewrite IH, fmap_app.
  - intros i id acc Hid. destruct (Hok _ Hid) as (s & Hs & Hdom).
    unfold entries_at. rewrite Hs. simpl.
    rewrite (range_fold_app _ (λ e, [entry_term e])).
    + do 2 f_equal. generalize (rset_Entries s). intros l. induction l; csimpl; [done|]. by f_equal.
    + intros _ e acc' He. rewrite entry_condition_Ret; [done|]. intros Hd.
      specialize (Hdom Hd). rewrite Forall_forall in Hdom. by apply Hdom.
Qed.

Lemma rule_set_terms_inv resources dns ids terms :
  rule_set_terms resources dns ids = Ret terms → rule_sets_ok resources dns ids.
Proof.
  intros H id Hid. destruct (range_fold_Ret _ _ _ _ _ H Hid) as (_ & t & t' & Hs).
  destruct (r_Payload (resource_at resources id)) eqn:E; simpl in Hs;
    try (destruct (_ =s _) in Hs; done); try done.
  eexists. split; [done|]. intros ->. apply Forall_forall. intros e He.
  destruct (range_fold_Ret _ _ _ _ _ Hs He) as (_ & u & u' & Hc).
  unfold entry_condition in Hc. by destruct (String.eqb_spec (rse_Kind e) RuleSetDomain).
Qed.

Lemma eval_add_term kind values :
  (kind =s "and") = false → (kind =s "or") = false →
  forallb eval (add_term kind values) = field kind values.
Proof.
  intros Ha Ho. destruct values as [|v vs]; [done|]. cbn. rewrite Ha, Ho. by rewrite andb_true_r.
Qed.

Lemma entry_kind_atom entry :
  (entry_kind entry =s "and") = false ∧ (entry_kind entry =s "or") = false.
Proof. unfold entry_kind. by repeat case_match. Qed.

Lemma eval_entry_term entry :
  eval (entry_term entry) = atom (entry_kind entry) (entry_value entry).
Proof.
  destruct (entry_kind_atom entry) as [Ha Ho]. unfold entry_term. simpl.
  by rewrite Ha, Ho, orb_false_r.
Qed.

Lemma eval_entry_terms l :
  existsb eval (entry_term <$> l) = existsb (λ e, atom (entry_kind e) (entry_value e)) l.
Proof.
  induction l as [|e l IH]; [done|]. rewrite fmap_cons. cbn [existsb].
  by rewrite IH, eval_entry_term.
Qed.

(** A single term stands for itself. *)
Lemma eval_collapse terms :
  ∃ c, match terms with [term] => Ret term | terms => Ret (Cond "and" [] terms) end
         = Ret (E:=Diagnostics) c ∧ eval c = forallb eval terms.
Proof.
  destruct terms as [|t [|u terms]]; eexists; split; try done. simpl. by rewrite andb_true_r.
Qed.

Lemma routeCondition_eval resources m dns :
  rule_sets_ok resources dns (rm_RuleSetIDs m) →
  ∃ c, routeCondition m resources dns = Ret c ∧ eval c = match_holds resources m.
Proof.
  intros Hok. unfold routeCondition. cbv zeta.
  set (terms := add_term "domain" _ ++ _).
  assert (Hterms : forallb eval terms =
    field "domain" (rm_DomainExact m) && field "domain_suffix" (rm_DomainSuffix m) &&
    field "ip_cidr" (rm_IPCIDRs m) && field "port" (port_value <$> rm_DestinationPorts m) &&
    field "network" (rm_Network m)).
  { unfold terms. rewrite !forallb_app, !eval_add_term by done. by rewrite !andb_assoc. }
  assert (∃ sets, match rm_RuleSetIDs m with
                  | [] => Ret []
                  | ids => let! set := rule_set_terms resources dns ids in Ret [Cond "or" [] set]
                  end = Ret sets ∧
            forallb eval sets = match rm_RuleSetIDs m with
              | [] => true
              | ids => existsb (λ e, atom (entry_kind e) (entry_value e))
                         (mjoin (entries_at resources <$> ids)) end) as (sets & -> & Hsets).
  { destruct (rm_RuleSetIDs m) as [|id ids] eqn:E; [by exists []|].
    rewrite rule_set_terms_Ret by done. eexists. split; [done|]. cbn [forallb].
    rewrite andb_true_r. cbn [eval]. simpl (_ =s _). cbn iota. apply eval_entry_terms. }
  destruct (eval_collapse (terms ++ sets)) as (c & Hret & Hc). exists c. split.
  { by destruct (terms ++ sets) as [|? [|? ?]]. }
  rewrite Hc, forallb_app, Hterms, Hsets. done.
Qed.

Lemma routeCondition_inv resources m dns c :
  routeCondition m resources dns = Ret c → rule_sets_ok resources dns (rm_RuleSetIDs m).
Proof.
  unfold routeCondition. cbv zeta. destruct (rm_RuleSetIDs m) as [|id ids] eqn:E.
  { intros _ id Hid. by apply elem_of_nil in Hid. }
  destruct (rule_set_terms resources dns (id :: ids)) eqn:Er; [|done..].
  intros _. by eapply rule_set_terms_inv.
Qed.
End Route.

(** ** First match *)

(** The compiled rules, tried in order. *)
Fixpoint route_compiled (atom : string → string → bool) (rules : list RouteRule) (final : string)
    : string :=
  match rules with
  | [] => final
  | ru :: rules =>
      if eval atom (ru_Condition ru) then ru_Target ru else route_compiled atom rules final
  end.

Lemma route_compiled_app atom l ru final :
  route_compiled atom (l ++ [ru]) final =
    route_compiled atom l (if eval atom (ru_Condition ru) then ru_Target ru else final).
Proof. induction l as [|x l IH]; simpl; [done|]. by rewrite IH. Qed.

(** The profile's rules: the first enabled rule that matches, or the final target. *)
Fixpoint route_profile (atom : string → string → bool) (resources : gmap string Resource)
    (rules : list RoutingRule) (final : TargetRef) : TargetRef :=
  match rules with
  | [] => final
  | rule :: rules =>
      if rr_Enabled rule && match_holds atom resources (rr_Match rule) then rr_Action rule
      else route_profile atom resources rules final
  end.

Lemma route_first_match atom resources (S : TargetRef → string → Prop) rules compiled final tag :
  Forall2 (λ rule ru, routeCondition (rr_Match rule) resources false = Ret (ru_Condition ru) ∧
                      S (rr_Action rule) (ru_Target ru))
    (filter (λ rule, rr_Enabled rule = true) rules) compiled →
  S final tag →
  S (route_profile atom resources rules final) (route_compiled atom compiled tag).
Proof.
  intros H Hf. revert compiled H. induction rules as [|rule rules IH]; intros compiled; simpl.
  { intros ->%Forall2_nil_inv_l. done. }
  destruct (rr_Enabled rule) eqn:Een.
  - rewrite filter_cons_True by done. intros (ru & rest & [Hc Hs] & H & ->)%Forall2_cons_inv_l. simpl.
    pose proof (routeCondition_inv _ _ _ _ Hc) as Hok.
    destruct (routeCondition_eval atom _ _ _ Hok) as (c & Hc' & Hev).
    rewrite Hc in Hc'. injection Hc' as <-. rewrite Hev.
    destruct (match_holds atom resources (rr_Match rule)); [done|by apply IH].
  - rewrite filter_cons_False by congruence. apply IH.
Qed.

(** ** Names *)

(** The profile's DNS rules: the first enabled rule that matches names the resolver, or
    the final one answers. *)
Fixpoint answer_profile (atom : string → string → bool) (resources : gmap string Resource)
    (rules : list DNSRule) (final : string) : string :=
  match rules with
  | [] => final
  | rule :: rules =>
      if dru_Enabled rule && match_holds atom resources (dns_route_match (dru_Match rule))
      then dru_ResolverID rule
      else answer_profile atom resources rules final
  end.

Lemma answer_first_match atom resources rules compiled final :
  Forall2 (λ rule ru, routeCondition (dns_route_match (dru_Match rule)) resources true
                        = Ret (ru_Condition ru) ∧ ru_Target ru = dru_ResolverID rule)
    (filter (λ rule, dru_Enabled rule = true) rules) compiled →
  route_compiled atom compiled final = answer_profile atom resources rules final.
Proof.
  revert compiled. induction rules as [|rule rules IH]; intros compiled; simpl.
  { by intros ->%Forall2_nil_inv_l. }
  destruct (dru_Enabled rule) eqn:Een.
  - rewrite filter_cons_True by done. intros (ru & rest & [Hc Hs] & H & ->)%Forall2_cons_inv_l. simpl.
    pose proof (routeCondition_inv _ _ _ _ Hc) as Hok.
    destruct (routeCondition_eval atom _ _ _ Hok) as (c & Hc' & Hev).
    rewrite Hc in Hc'. injection Hc' as <-. rewrite Hev.
    destruct (match_holds atom resources _); [done|by apply IH].
  - rewrite filter_cons_False by congruence. apply IH.
Qed.

(** ** Conditions *)

Section Induction.
Context (Q : Condition → Prop).
Hypothesis Hcond : ∀ kind values terms, Forall Q terms → Q (Cond kind values terms).

(** Induction on a condition and the conditions of its terms. *)
Fixpoint Condition_nested_ind (c : Condition) : Q c :=
  match c with
  | Cond kind values terms =>
      Hcond kind values terms
        ((fix each (l : list Condition) : Forall Q l :=
            match l with
            | [] => List.Forall_nil Q
            | t :: l => List.Forall_cons Q t l (Condition_nested_ind t) (each l)
            end) terms)
  end.
End Induction.

Lemma existsb_elem {A} (f : A → bool) l : existsb f l = true ↔ ∃ x, x ∈ l ∧ f x = true.
Proof.
  rewrite existsb_exists. setoid_rewrite list_elem_of_In. done.
Qed.

Lemma existsb_ext_elem {A} (f : A → bool) l1 l2 :
  (∀ x, f x = true → x ∈ l1 ↔ x ∈ l2) → existsb f l1 = existsb f l2.
Proof.
  intros H. apply eq_true_iff_eq. rewrite !existsb_elem. naive_solver.
Qed.

(** ** Patterns *)

Section Patterns.
(** The names of the two kinds of pattern. *)
Context (ke ks : string).
Notation exact := (ke +:+ ":").
Notation suffix := (ks +:+ ":").
Definition no_colon (s : string) : bool := all_chars (λ c, negb (Ascii.eqb c ":")) s.
Hypothesis He : no_colon ke = true.
Hypothesis Hs : no_colon ks = true.
Hypothesis Hne : ke ≠ ks.

(** A pattern matches one name, or a name and all names below it. *)
Definition pattern_matches (d pattern : string) : bool :=
  let '(kind, name) := cut_or_all ":" pattern in
  if kind =s ks then (d =s name) || HasSuffix d ("." +:+ name) else d =s name.

Definition patterns_match (patterns : list string) (d : string) : bool :=
  existsb (pattern_matches d) patterns.

(** The predicates on a connection whose destination is the domain [d]. *)
Definition domain_atom (d kind value : string) : bool :=
  if kind =s "domain_suffix" then (d =s value) || HasSuffix d ("." +:+ value) else d =s value.

Definition WellPrefixed (patterns : list string) : Prop :=
  Forall (λ p, ∃ name, p = exact +:+ name ∨ p = suffix +:+ name) patterns.

Lemma cut_exact name : cut_or_all ":" (exact +:+ name) = (ke, name).
Proof. by apply cut_prefix. Qed.
Lemma cut_suffix name : cut_or_all ":" (suffix +:+ name) = (ks, name).
Proof. by apply cut_prefix. Qed.

Lemma matches_exact d name : pattern_matches d (exact +:+ name) = true ↔ d = name.
Proof.
  unfold pattern_matches. rewrite cut_exact. destruct (String.eqb_spec ke ks); [done|].
  apply String.eqb_eq.
Qed.
Lemma matches_suffix d name : pattern_matches d (suffix +:+ name) = true ↔ under d name.
Proof. unfold pattern_matches. rewrite cut_suffix, String.eqb_refl. apply under_eqb. Qed.

Lemma pattern_of_kind d kind value :
  (kind =s "domain") || (kind =s "domain_suffix") = true →
  pattern_matches d (domain_prefix exact suffix kind +:+ value) = domain_atom d kind value.
Proof.
  intros _. unfold domain_prefix, domain_atom. destruct (kind =s "domain_suffix").
  - apply eq_true_iff_eq. by rewrite matches_suffix, under_eqb.
  - apply eq_true_iff_eq. by rewrite matches_exact, String.eqb_eq.
Qed.

Lemma domains_contain_spec set pattern name kind :
  cut_or_all ":" pattern = (kind, name) →
  domains_contain suffix set pattern = true ↔
    pattern ∈ set ∨ ∃ root, under name root ∧ (suffix +:+ root) ∈ set.
Proof.
  intros Hc. unfold domains_contain. rewrite Hc, orb_true_iff, bool_decide_eq_true, existsb_elem.
  apply or_iff_compat_l. simpl. setoid_rewrite elem_of_domain_suffixes.
  setoid_rewrite bool_decide_eq_true. done.
Qed.

(** A pattern that a set contains matches only what the set matches. *)
Lemma domains_contain_sound set pattern d :
  WellPrefixed [pattern] → domains_contain suffix set pattern = true →
  pattern_matches d pattern = true → patterns_match set d = true.
Proof.
  intros [[name Hp] _]%Forall_cons Hc Hm. apply existsb_elem.
  assert (∃ kind, cut_or_all ":" pattern = (kind, name) ∧ under d name) as (kind & Hk & Hu).
  { destruct Hp as [->| ->].
    - exists ke. rewrite cut_exact. apply matches_exact in Hm as ->. eauto using under_refl.
    - exists ks. rewrite cut_suffix. apply matches_suffix in Hm. eauto. }
  rewrite (domains_contain_spec _ _ _ _ Hk) in Hc. destruct Hc as [Hin|(root & Hr & Hin)]; [eauto|].
  eexists. split; [done|]. apply matches_suffix. by eapply under_trans.
Qed.

(** Of two patterns that match one domain, the list of the other contains one. *)
Lemma domains_contain_complete a b p q d :
  WellPrefixed [p; q] → p ∈ a → q ∈ b →
  pattern_matches d p = true → pattern_matches d q = true →
  domains_contain suffix b p = true ∧ pattern_matches d p = true ∨
  domains_contain suffix a q = true ∧ pattern_matches d q = true.
Proof.
  intros [[x Hx] [[y Hy] _]%Forall_cons]%Forall_cons Hp Hq Mp Mq.
  assert (∀ l r name root, r = suffix +:+ root → r ∈ l → under name root →
    ∀ s, cut_or_all ":" s = (ke, name) ∨ cut_or_all ":" s = (ks, name) →
    domains_contain suffix l s = true) as Hin.
  { intros l r name root -> Hl Hu s [Hk|Hk]; rewrite (domains_contain_spec _ _ _ _ Hk); eauto. }
  destruct Hx as [->| ->], Hy as [->| ->];
    rewrite ?matches_exact, ?matches_suffix in *; subst.
  - left. split; [|done]. rewrite (domains_contain_spec _ _ _ _ (cut_exact _)). by left.
  - left. split; [|done]. eapply Hin; [done|done|done|]. left. apply cut_exact.
  - right. split; [|done]. eapply Hin; [done|done|done|]. left. apply cut_exact.
  - destruct (under_comparable d x y Mp Mq) as [Hu|Hu]; [left|right]; (split; [|done]);
      eapply Hin; try done; right; apply cut_suffix.
Qed.

Lemma WellPrefixed_elem l p : WellPrefixed l → p ∈ l → WellPrefixed [p].
Proof. unfold WellPrefixed. rewrite Forall_forall, Forall_singleton. auto. Qed.

Lemma elem_of_intersection a b v :
  v ∈ domains_intersection suffix a b ↔
    v ∈ a ∧ domains_contain suffix b v = true ∨ v ∈ b ∧ domains_contain suffix a v = true.
Proof.
  unfold domains_intersection, sort_strings.
  rewrite elem_of_CompactFunc by (intros ??; apply String.eqb_eq).
  rewrite elem_of_isort, elem_of_app, !list_elem_of_filter. naive_solver.
Qed.

(** The intersection of two lists matches what both match. *)
Lemma domains_intersection_exact a b d :
  WellPrefixed a → WellPrefixed b →
  patterns_match (domains_intersection suffix a b) d = patterns_match a d && patterns_match b d.
Proof.
  intros Ha Hb. apply eq_true_iff_eq. rewrite andb_true_iff. split.
  - intros (v & Hv & Hm)%existsb_elem. apply elem_of_intersection in Hv as [[Hv Hc]|[Hv Hc]].
    + split; [apply existsb_elem; eauto|].
      eapply domains_contain_sound; [eapply (WellPrefixed_elem a); eauto|done|done].
    + split; [|apply existsb_elem; eauto].
      eapply domains_contain_sound; [eapply (WellPrefixed_elem b); eauto|done|done].
  - intros [(p & Hp & Mp)%existsb_elem (q & Hq & Mq)%existsb_elem]. apply existsb_elem.
    destruct (domains_contain_complete a b p q d) as [[Hc _]|[Hc _]]; try done.
    + unfold WellPrefixed in *. rewrite Forall_forall in Ha, Hb. repeat constructor; auto.
    + exists p. rewrite elem_of_intersection. auto.
    + exists q. rewrite elem_of_intersection. auto.
Qed.

Lemma domains_intersection_prefixed a b :
  WellPrefixed a → WellPrefixed b → WellPrefixed (domains_intersection suffix a b).
Proof.
  unfold WellPrefixed. rewrite !Forall_forall. intros Ha Hb v [[Hv _]|[Hv _]]%elem_of_intersection; auto.
Qed.

Lemma sorted_match l d :
  patterns_match (CompactFunc String.eqb (sort_strings l)) d = patterns_match l d.
Proof.
  apply existsb_ext_elem. intros v _. unfold sort_strings.
  by rewrite elem_of_CompactFunc, elem_of_isort by (intros ??; apply String.eqb_eq).
Qed.

Lemma Forall_impl_elem {A} (Q : A → Prop) l1 l2 :
  Forall Q l1 → (∀ x, x ∈ l2 → x ∈ l1) → Forall Q l2.
Proof. rewrite !Forall_forall. auto. Qed.

(** ** The reduction of a condition *)

Definition DomainsOk (c : Condition) : Prop :=
  ∀ l, domains_of exact suffix c = Ok l →
    WellPrefixed l ∧ ∀ d, patterns_match l d = eval (domain_atom d) c.

Lemma prefixed_values_ok kind values :
  (kind =s "domain") || (kind =s "domain_suffix") = true →
  WellPrefixed (prefixed_values exact suffix kind values) ∧
  ∀ d, patterns_match (prefixed_values exact suffix kind values) d = existsb (domain_atom d kind) values.
Proof.
  intros Hk. unfold prefixed_values. split.
  - apply Forall_fmap, Forall_true. intros v. simpl. unfold domain_prefix.
    exists v. destruct (kind =s "domain_suffix"); auto.
  - intros d. unfold patterns_match. induction values as [|v values IH]; [done|]. csimpl.
    by rewrite pattern_of_kind, IH.
Qed.

(** What the loop of [dnsDomains] has combined so far. *)
Definition combined (kind : string) (i : nat) (out : list string) (d : string)
    (terms : list Condition) : bool :=
  if kind =s "or" then patterns_match out d || existsb (eval (domain_atom d)) terms
  else match i with O => true | _ => patterns_match out d end &&
       forallb (eval (domain_atom d)) terms.

Lemma domains_combine_ok kind i out next d :
  (i = 0%nat → out = []) → WellPrefixed out → WellPrefixed next →
  WellPrefixed (domains_combine suffix kind i out next) ∧
  ∀ terms c, patterns_match next d = eval (domain_atom d) c →
    combined kind (S i) (domains_combine suffix kind i out next) d terms =
    combined kind i out d (c :: terms).
Proof.
  intros H0 Ho Hn. unfold domains_combine, combined. destruct (kind =s "or").
  - split; [by apply Forall_app|]. intros terms c Hc. unfold patterns_match in *.
    rewrite existsb_app, Hc. simpl. by rewrite orb_assoc.
  - destruct i as [|i]; simpl.
    + split; [done|]. intros terms c ->. done.
    + split; [by apply domains_intersection_prefixed|]. intros terms c Hc.
      by rewrite domains_intersection_exact, Hc, andb_assoc.
Qed.

Lemma domains_of_exact c : DomainsOk c.
Proof.
  induction c as [kind values terms IH] using Condition_nested_ind. intros l. simpl.
  destruct ((kind =s "domain") || (kind =s "domain_suffix")) eqn:Ek.
  { destruct (over_rules values); [done|]. intros [= <-].
    destruct (prefixed_values_ok kind values Ek) as [H1 H2]. split; [done|]. intros d. rewrite H2.
    by apply orb_true_iff in Ek as [->%String.eqb_eq| ->%String.eqb_eq]. }
  destruct (negb _ || _) eqn:Ec; [done|]. apply orb_false_iff in Ec as [Hk Hlen].
  match goal with |- context [?each 0%nat [] terms] => set (loop := each) end.
  assert (∀ i out r, (i = 0%nat → out = []) → (i + length terms ≠ 0)%nat → WellPrefixed out →
    loop i out terms = Ok r →
    WellPrefixed r ∧ ∀ d, patterns_match r d = combined kind i out d terms) as Hloop.
  { clear Ek Hk Hlen. induction IH as [|c terms Hc _ IH]; intros i out r H0 Hi Hw; simpl.
    - intros [= <-]. split; [done|]. intros d. unfold combined.
      destruct (kind =s "or"), i; simpl in *; by rewrite ?orb_false_r, ?andb_true_r.
    - destruct (domains_of exact suffix c) as [next|] eqn:Ed; [|done].
      destruct (over_rules _); [done|]. destruct (Hc _ Ed) as [Hn He'].
      intros Hr.
      destruct (IH (S i) (domains_combine suffix kind i out next) r) as [Hr1 Hr2];
        [intros; lia|lia| |exact Hr|].
      + by destruct (domains_combine_ok kind i out next "" H0 Hw Hn).
      + split; [done|]. intros d. rewrite Hr2.
        destruct (domains_combine_ok kind i out next d H0 Hw Hn) as [_ Hcomb]. by apply Hcomb. }
  destruct (loop 0%nat [] terms) as [out|] eqn:El; [|done]. intros [= <-].
  apply bool_decide_eq_false in Hlen.
  destruct (Hloop 0%nat [] out) as [H1 H2]; [done|simpl; lia|constructor|done|]. split.
  - eapply Forall_impl_elem; [exact H1|]. intros v Hv. unfold sort_strings in Hv.
    by rewrite elem_of_CompactFunc, elem_of_isort in Hv by (intros ??; apply String.eqb_eq).
  - intros d. rewrite sorted_match, H2. unfold combined. simpl.
    rewrite negb_false_iff, orb_true_iff, !String.eqb_eq in Hk. by destruct Hk as [->| ->].
Qed.

(** Only the predicates on domains matter to what [domains_of] accepts. *)
Lemma domains_of_eval (atom atom' : string → string → bool) c l :
  (∀ kind v, (kind =s "domain") || (kind =s "domain_suffix") = true → atom kind v = atom' kind v) →
  domains_of exact suffix c = Ok l → eval atom c = eval atom' c.
Proof.
  intros Ha. revert l. induction c as [kind values terms IH] using Condition_nested_ind. intros l. simpl.
  destruct ((kind =s "domain") || (kind =s "domain_suffix")) eqn:Ek.
  { intros _. assert (kind ≠ "and" ∧ kind ≠ "or") as [H1 H2]
      by (by apply orb_true_iff in Ek as [->%String.eqb_eq| ->%String.eqb_eq]).
    apply String.eqb_neq in H1 as ->. apply String.eqb_neq in H2 as ->.
    induction values as [|v values IHv]; simpl; [done|]. by rewrite Ha, IHv. }
  destruct (negb _ || _) eqn:Ec; [done|]. apply orb_false_iff in Ec as [Hk%negb_false_iff _].
  match goal with |- context [?each 0%nat [] terms] => set (loop := each) end.
  assert (∀ i out r, loop i out terms = Ok r → Forall (λ t, eval atom t = eval atom' t) terms) as Hloop.
  { clear Hk Ek. induction IH as [|c terms Hc _ IH]; intros i out r; simpl; [constructor|].
    destruct (domains_of exact suffix c) as [next|] eqn:Ed; [|done].
    destruct (over_rules _); [done|]. intros Hr. constructor; [by eapply Hc|by eapply IH]. }
  destruct (loop 0%nat [] terms) as [out|] eqn:El; [|done]. intros _. specialize (Hloop _ _ _ El).
  clear -Hloop Hk. apply orb_true_iff in Hk as [->%String.eqb_eq| ->%String.eqb_eq]; simpl;
    induction Hloop as [|t l Ht _ IHl]; simpl; [done|by rewrite Ht, IHl|done|by rewrite Ht, IHl].
Qed.
End Patterns.
