(* ===== verification/ExpandFacts.v ===== *)
(** The expansion of a valid snapshot: the resources a target sees, the nodes,
    chains and policies it needs, and their labels. *)
From S2P Require Import Prelude Diagnostics IRTypes IRValidate ValidateFacts Frozen.
From S2P Require Import FrozenFacts Labels Adapter Capability Compiler.

(** What the IR schema ([schemas/ir-v1.schema.json]) says about values it accepts,
    as far as the compiler relies on it. *)
Record SchemaContract `{P : Platform} : Prop := {
  (** [chain.hops]: [minItems] and [maxItems] are 2. *)
  sch_hops : ∀ r c, validateValue "resource" (SV_Resource r) = None →
    r_Payload r = Payload_Chain c → length (ch_Hops c) = 2%nat;
  (** [member_ref.kind]: node or chain. *)
  sch_members : ∀ g, validateValue "policy_group" (SV_PolicyGroup g) = None →
    Forall (λ m, tr_Kind m = KindNode ∨ tr_Kind m = KindChain) (pg_Members g);
  (** [target_ref.type]: resource reference or builtin. *)
  sch_actions : ∀ p, validateValue "routing_profile" (SV_RoutingProfile p) = None →
    Forall (λ ref, tr_Type ref = ResourceRef ∨ tr_Type ref = BuiltinRef)
      (rp_Final p :: (rr_Action <$> rp_Rules p));
  sch_outbounds : ∀ d, validateValue "dns_profile" (SV_DNSProfile d) = None →
    Forall (λ ref, tr_Type ref = ResourceRef ∨ tr_Type ref = BuiltinRef)
      (omap dr_Outbound (dp_Resolvers d));
  (** [frozen_input.routing_profile] and [frozen_input.dns_profile] fix the kind. *)
  sch_routing : ∀ v ref, validateValue "frozen_input" (SV_FrozenInput v) = None →
    fs_RoutingProfile v = Some ref → fr_Kind ref = KindRoutingProfile;
  sch_dns : ∀ v ref, validateValue "frozen_input" (SV_FrozenInput v) = None →
    fs_DNSProfile v = Some ref → fr_Kind ref = KindDNSProfile }.

Arguments SchemaContract P : clear implicits.

(** Neither a nil payload nor a typed nil. *)
Definition solid (p : ResourcePayload) : bool :=
  match p with Payload_nil | Payload_typed_nil _ => false | _ => true end.

Section Validated.
Context {P : Platform}.

(** What an accepted resource is. *)
Lemma Resource_Validate_inv r :
  Resource_Validate r = None →
  md_Kind (r_Metadata r) = payload_type (r_Payload r) ∧ solid (r_Payload r) = true ∧
  validateValue "resource" (SV_Resource r) = None.
Proof.
  unfold Resource_Validate. cbv zeta. destruct (r_Payload r); try done; simpl;
    (match goal with |- context [?a =s ?b] => destruct (String.eqb_spec a b) as [E|] end; [|done]);
    simpl;
    try (match goal with |- context [match ?v with _ => _ end] => destruct v end; [done|]);
    done.
Qed.

Lemma Resource_group_inv r g :
  Resource_Validate r = None → r_Payload r = Payload_PolicyGroup g → PolicyGroup_Validate g = None.
Proof.
  unfold Resource_Validate. cbv zeta. intros H E. rewrite E in H.
  destruct (negb _); [done|]. by destruct (PolicyGroup_Validate g).
Qed.

(** ** The resources a target sees *)

Record ResourceMap (resources : gmap string Resource) : Prop := {
  rmp_key : ∀ id r, resources !! id = Some r → rid r = id;
  rmp_solid : ∀ id r, resources !! id = Some r → solid (r_Payload r) = true;
  rmp_hops : ∀ id r c, resources !! id = Some r → r_Payload r = Payload_Chain c →
    ∃ a b, ch_Hops c = [a; b];
  rmp_edges : ∀ id r e, resources !! id = Some r → e ∈ payload_edges (r_Payload r) →
    ∃ r', resources !! e_target e = Some r' ∧ payload_type (r_Payload r') = e_kind e;
  rmp_group : ∀ id r g, resources !! id = Some r → r_Payload r = Payload_PolicyGroup g →
    Forall (λ m, tr_Kind m = KindNode ∨ tr_Kind m = KindChain) (pg_Members g) ∧
    NoDup (tr_ResourceID <$> pg_Members g) ∧ pg_DefaultMember g ∈ pg_Members g;
  rmp_refs : ∀ id r refs, resources !! id = Some r →
    profile_refs (r_Payload r) = Ret refs →
    Forall (λ ref, tr_Type ref = ResourceRef ∨ tr_Type ref = BuiltinRef) refs }.

(** The resource [r'] that stands for [r] once the overrides are merged. *)
Definition Merges (target : Target) (r r' : Resource) : Prop := merged_resource target r = Ret r'.

Lemma Merges_inv target r r' :
  Merges target r r' →
  r' = r ∨ ∃ g g', r_Payload r = Payload_PolicyGroup g ∧ PolicyGroup_Validate g' = None ∧
    pg_Members g' = pg_Members g ∧
    r' = {| r_Metadata := r_Metadata r; r_Payload := Payload_PolicyGroup g' |}.
Proof.
  unfold Merges, merged_resource. destruct (_ !! _) as [o|]; [|intros [= <-]; by left].
  destruct (MergePolicyOverride r o) as [next|] eqn:E; [|done]. simpl. intros [= <-].
  apply MergePolicyOverride_Ok in E as (g & Hg & _ & _ & _ & Hv & ->). right.
  by exists g, (merged g o).
Qed.

Lemma Merges_same target r r' :
  Merges target r r' →
  r_Metadata r' = r_Metadata r ∧ payload_type (r_Payload r') = payload_type (r_Payload r) ∧
  payload_edges (r_Payload r') = payload_edges (r_Payload r) ∧
  solid (r_Payload r') = solid (r_Payload r).
Proof.
  intros [->|(g & g' & Hg & _ & Hm & ->)]%Merges_inv; [done|]. simpl. rewrite Hg. simpl.
  by rewrite Hm.
Qed.

Definition MapOf (target : Target) (rs : list Resource) (m : gmap string Resource) : Prop :=
  ∀ id r', m !! id = Some r' ↔ ∃ r, r ∈ rs ∧ rid r = id ∧ Merges target r r'.

Lemma prepare_resources_map target spec :
  NoDup (rid <$> fs_Resources spec) →
  safe (prepare_resources target spec) (MapOf target (fs_Resources spec)).
Proof.
  intros Hnd. apply (safe_fold_prefix _ (λ done m, MapOf target done m)).
  { intros id r'. rewrite lookup_empty. split; [done|]. intros (r & H & _). by inversion H. }
  intros done x rest m Hsplit HI. rewrite Hsplit, fmap_app in Hnd.
  assert (Hx : ∀ r, r ∈ done → rid r ≠ rid x).
  { apply NoDup_app in Hnd as (_ & Hd & _). intros r Hr E. apply (Hd (rid r)).
    - by apply list_elem_of_fmap_2.
    - rewrite E. csimpl. set_solver. }
  destruct (merged_resource target x) as [x'|e|] eqn:Em; simpl; [|done|].
  - intros id r'. rewrite lookup_insert_Some. setoid_rewrite elem_of_app.
    setoid_rewrite list_elem_of_singleton. rewrite (HI id r'). split.
    + intros [[<- <-]|[Hne (r & Hr & E & Hm)]]; [by exists x; auto|by exists r; auto].
    + intros (r & [Hr| ->] & <- & Hm).
      * right. split; [by apply not_eq_sym, Hx|by exists r].
      * left. unfold Merges in Hm. split; [done|congruence].
  - revert Em. unfold merged_resource. destruct (_ !! _); [|done]. by destruct (MergePolicyOverride _ _).
Qed.

Context (Hschema : SchemaContract P).

Lemma profile_refs_typed r refs :
  Resource_Validate r = None → profile_refs (r_Payload r) = Ret refs →
  Forall (λ ref, tr_Type ref = ResourceRef ∨ tr_Type ref = BuiltinRef) refs.
Proof.
  intros Hv. unfold Resource_Validate in Hv. cbv zeta in Hv.
  destruct (r_Payload r) as [|v| | | |p|d| | |]; simpl; try (intros [= <-]; by constructor).
  - destruct (_ || _); [done|]. intros [= <-]. constructor.
  - intros [= <-]. destruct (negb _) in Hv; [done|].
    destruct (RoutingProfile_Validate p) eqn:E; [done|].
    unfold RoutingProfile_Validate in E. destruct (validateValue _ (SV_RoutingProfile p)) eqn:E'; [done|].
    by apply (sch_actions Hschema).
  - intros [= <-]. destruct (negb _) in Hv; [done|].
    destruct (DNSProfile_Validate d) eqn:E; [done|].
    unfold DNSProfile_Validate in E. destruct (validateValue _ (SV_DNSProfile d)) eqn:E'; [done|].
    by apply (sch_outbounds Hschema).
Qed.

Lemma merge_exists target spec r :
  WellFormed spec → target ∈ fs_Targets spec → r ∈ fs_Resources spec → ∃ r', Merges target r r'.
Proof.
  intros Hwf Ht Hr. unfold Merges, merged_resource.
  destruct (t_PolicyOverrides target !! rid r) as [o|] eqn:Eo; [|eauto].
  destruct (wf_overrides _ Hwf _ _ _ Ht Eo) as (q & Hq & Eq & _ & Hok).
  assert (q = r) as -> by by eapply (NoDup_key_inj rid), Eq; [apply Hwf|..].
  destruct (MergePolicyOverride r o); [|done]. simpl. eauto.
Qed.

Lemma merged_lookup target spec m r :
  WellFormed spec → target ∈ fs_Targets spec → MapOf target (fs_Resources spec) m →
  r ∈ fs_Resources spec → ∃ r', m !! rid r = Some r' ∧ Merges target r r'.
Proof.
  intros Hwf Ht HM Hr. destruct (merge_exists _ _ _ Hwf Ht Hr) as [r' Hr'].
  exists r'. split; [|done]. apply HM. eauto.
Qed.

Lemma MapOf_ResourceMap target spec m :
  WellFormed spec → target ∈ fs_Targets spec → MapOf target (fs_Resources spec) m → ResourceMap m.
Proof.
  intros Hwf Ht HM.
  assert (Hval : ∀ r, r ∈ fs_Resources spec → Resource_Validate r = None).
  { pose proof (wf_resources _ Hwf) as H. by rewrite Forall_forall in H. }
  split.
  - intros id r' (r & Hr & <- & Hm)%HM. unfold rid. by apply Merges_same in Hm as [-> _].
  - intros id r' (r & Hr & _ & Hm)%HM. apply Merges_same in Hm as (_ & _ & _ & ->).
    by destruct (Resource_Validate_inv _ (Hval _ Hr)) as (_ & ? & _).
  - intros id r' c (r & Hr & _ & Hm)%HM Hc.
    apply Merges_inv in Hm as [->|(g & g' & _ & _ & _ & ->)]; [|done].
    destruct (Resource_Validate_inv _ (Hval _ Hr)) as (_ & _ & Hs).
    pose proof (sch_hops Hschema _ _ Hs Hc). destruct (ch_Hops c) as [|a [|b [|]]]; try done. eauto.
  - intros id r' e (r & Hr & _ & Hm)%HM He. apply Merges_same in Hm as (_ & _ & E & _).
    rewrite E in He. destruct (wf_edges _ Hwf _ _ Hr He) as (t & Htm & Et & Hk).
    destruct (merged_lookup _ _ _ _ Hwf Ht HM Htm) as (t' & Hl & Hm).
    exists t'. rewrite <-Et. split; [done|]. apply Merges_same in Hm as (_ & -> & _).
    by destruct (Resource_Validate_inv _ (Hval _ Htm)) as (<- & _).
  - intros id r' g (r & Hr & _ & Hm)%HM Hg.
    assert (PolicyGroup_Validate g = None) as Hv.
    { apply Merges_inv in Hm as [->|(g0 & g' & _ & Hv & _ & ->)].
      - eapply Resource_group_inv; eauto.
      - simpl in Hg. by simplify_eq. }
    apply PolicyGroup_Validate_iff in Hv as (Hs & _ & ? & ?).
    split; [|done]. by apply (sch_members Hschema).
  - intros id r' refs (r & Hr & _ & Hm)%HM Hrefs.
    apply Merges_inv in Hm as [->|(g0 & g' & _ & _ & _ & ->)].
    + eapply profile_refs_typed; eauto.
    + simpl in Hrefs. by simplify_eq.
Qed.
End Validated.

(** ** What the expansion collects *)

Section Expansion.
Context (target : Target) (resources : gmap string Resource) (HR : ResourceMap resources).

Definition node_item (r : Resource) : labelItem :=
  nodeLabelItem (rid r) (md_Revision (r_Metadata r)).
Definition chain_item (r : Resource) : labelItem :=
  chainLabelItem (rid r) (md_Revision (r_Metadata r)).
Definition policy_item (r : Resource) : labelItem :=
  policyLabelItem (rid r) (md_Revision (r_Metadata r)).

(** The resources of one list: distinct, of one kind, and those its [seen] map holds. *)
Record Collected (kind : ResourceKind) (seen : gset string) (l : list Resource) : Prop := {
  co_lookup : ∀ r, r ∈ l → resources !! rid r = Some r ∧ payload_type (r_Payload r) = kind;
  co_nodup : NoDup (rid <$> l);
  co_seen : ∀ id, id ∈ seen ↔ id ∈ rid <$> l }.

Record Expanded (s : expand_state) : Prop := {
  ex_nodes : Collected KindNode (es_seenNode s) (es_independents s);
  ex_chains : Collected KindChain (es_seenChain s) (es_chains s);
  ex_policies : Collected KindPolicyGroup (es_seenPolicy s) (es_policies s);
  ex_items : es_items s ≡ₚ (node_item <$> es_independents s) ++ (chain_item <$> es_chains s)
               ++ (policy_item <$> es_policies s) }.

(** The resource is one of those collected. *)
Definition Listed (s : expand_state) (id : ID) : Prop :=
  id ∈ rid <$> (es_independents s ++ es_chains s ++ es_policies s).

Lemma Collected_nil kind : Collected kind ∅ [].
Proof. split; [by intros ? ?%elem_of_nil|constructor|set_solver]. Qed.

Lemma Expanded_start : Expanded expand_start.
Proof. split; simpl; try apply Collected_nil. done. Qed.

Lemma Collected_add kind seen l id r :
  Collected kind seen l → id ∉ seen → resources !! id = Some r →
  payload_type (r_Payload r) = kind → Collected kind ({[id]} ∪ seen) (l ++ [r]).
Proof.
  intros [Hl Hn Hs] Hid Hr Hk. pose proof (rmp_key _ HR _ _ Hr) as E. split.
  - intros r' [Hr'| ->%list_elem_of_singleton]%elem_of_app; [by apply Hl|]. by rewrite E.
  - rewrite fmap_app. apply NoDup_app. split_and!; [done| |apply NoDup_singleton].
    intros x Hx ->%list_elem_of_singleton. rewrite E in Hx. by apply Hid, Hs.
  - intros x. rewrite fmap_app, elem_of_app, elem_of_union, Hs. csimpl.
    rewrite list_elem_of_singleton, E. set_solver.
Qed.

Lemma Collected_listed kind seen l id r :
  Collected kind seen l → id ∈ seen → resources !! id = Some r → rid r ∈ rid <$> l.
Proof. intros [_ _ Hs] Hid Hr. rewrite (rmp_key _ HR _ _ Hr). by apply Hs. Qed.

(** Outcome of one [addResource]. *)
Definition Step (id : ID) (s s' : expand_state) : Prop :=
  Expanded s' ∧ Listed s' id ∧ ∀ k, Listed s k → Listed s' k.

Lemma addResource_step id s :
  Expanded s → safe (addResource target resources id s) (Step id s).
Proof.
  intros [Hn Hc Hp Hi]. unfold addResource, resource_at. cbv zeta.
  destruct (resources !! id) as [r|] eqn:Er; [|done]. simpl.
  assert (Eid := rmp_key _ HR _ _ Er).
  assert (Hk : ∀ k, (payload_type (r_Payload r) =s k) = true → payload_type (r_Payload r) = k)
    by (intros k; apply String.eqb_eq).
  destruct (_ =s KindNode) eqn:E1; [apply Hk in E1|].
  { case_bool_decide as Hseen; simpl; (split; [|split]); try done.
    - unfold Listed. rewrite fmap_app. apply elem_of_app. left. by apply (co_seen _ _ _ Hn).
    - split; simpl; try done; [by apply Collected_add|].
      rewrite Hi, fmap_app. csimpl. unfold node_item at 3. solve_Permutation.
    - unfold Listed. simpl. rewrite !fmap_app. csimpl. rewrite Eid. set_solver.
    - intros k. unfold Listed. simpl. rewrite !fmap_app. set_solver. }
  destruct (_ =s KindChain) eqn:E2; [apply Hk in E2|].
  { case_bool_decide as Hseen; simpl; (split; [|split]); try done.
    - unfold Listed. rewrite !fmap_app, !elem_of_app. right. left. by apply (co_seen _ _ _ Hc).
    - split; simpl; try done; [by apply Collected_add|].
      rewrite Hi, fmap_app. csimpl. unfold chain_item at 3. solve_Permutation.
    - unfold Listed. simpl. rewrite !fmap_app. csimpl. rewrite Eid. set_solver.
    - intros k. unfold Listed. simpl. rewrite !fmap_app. set_solver. }
  destruct (_ =s KindPolicyGroup) eqn:E3; [apply Hk in E3|done].
  case_bool_decide as Hseen; simpl; (split; [|split]); try done.
  - unfold Listed. rewrite !fmap_app, !elem_of_app. right. right. by apply (co_seen _ _ _ Hp).
  - split; simpl; try done; [by apply Collected_add|].
    rewrite Hi, fmap_app. csimpl.
    assert (policy_item r = policyLabelItem id (md_Revision (r_Metadata r)))
      as -> by (unfold policy_item; by rewrite Eid). solve_Permutation.
  - unfold Listed. simpl. rewrite !fmap_app. csimpl. rewrite Eid. set_solver.
  - intros k. unfold Listed. simpl. rewrite !fmap_app. set_solver.
Qed.

Lemma safe_expand_fold {A} (f : nat → A → expand_state → outcome Diagnostics expand_state)
    (ids : A → list ID) l s :
  (∀ i x s, x ∈ l → Expanded s →
     safe (f i x s) (λ s', Expanded s' ∧ (∀ id, id ∈ ids x → Listed s' id) ∧
                           ∀ k, Listed s k → Listed s' k)) →
  Expanded s →
  safe (range_fold f l s) (λ s', Expanded s' ∧
    (∀ x id, x ∈ l → id ∈ ids x → Listed s' id) ∧ ∀ k, Listed s k → Listed s' k).
Proof.
  intros Hf Hs.
  apply (safe_fold_prefix f (λ done s', Expanded s' ∧
    (∀ x id, x ∈ done → id ∈ ids x → Listed s' id) ∧ ∀ k, Listed s k → Listed s' k)).
  { split_and!; [done| |done]. by intros ? ? ?%elem_of_nil. }
  intros done x rest s1 Hl (H1 & H2 & H3).
  eapply safe_mono; [apply Hf; [rewrite Hl; set_solver|done]|].
  simpl. intros s2 (H4 & H5 & H6). split_and!; [done| |auto].
  intros y id [Hy| ->%list_elem_of_singleton]%elem_of_app Hid; eauto.
Qed.

Definition ref_ids (ref : TargetRef) : list ID :=
  if tr_Type ref =s ResourceRef then [tr_ResourceID ref] else [].

Lemma add_profile_safe original s :
  Expanded s →
  safe (add_profile target resources original s) (λ s', Expanded s' ∧
    (∀ refs ref id, profile_refs (r_Payload (resource_at resources (rid original))) = Ret refs →
       ref ∈ refs → id ∈ ref_ids ref → Listed s' id) ∧ ∀ k, Listed s k → Listed s' k).
Proof.
  intros Hs. unfold add_profile.
  apply (safe_bind _ _ (λ refs, profile_refs (r_Payload (resource_at resources (rid original))) = Ret refs)).
  { unfold resource_at. destruct (resources !! rid original) as [r|] eqn:Er; [|done]. simpl.
    pose proof (rmp_solid _ HR _ _ Er). by destruct (r_Payload r). }
  intros refs Hrefs.
  eapply safe_mono; [apply (safe_expand_fold _ ref_ids); [|done]|].
  - intros i ref t _ Ht. unfold ref_ids. destruct (_ =s ResourceRef); simpl.
    + eapply safe_mono; [by apply addResource_step|]. simpl. intros t' (H1 & H2 & H3).
      split_and!; [done| |done]. by intros id ->%list_elem_of_singleton.
    + split_and!; [done| |done]. by intros id ?%elem_of_nil.
  - simpl. intros s' (H1 & H2 & H3). split_and!; [done| |done].
    intros refs' ref id Hr' Hin Hid. rewrite Hrefs in Hr'. injection Hr' as <-. eauto.
Qed.

Lemma expand_safe spec :
  safe (expand target resources spec) (λ s, Expanded s ∧
    (∀ m, m ∈ fs_Members spec → Listed s (fr_ResourceID m)) ∧
    ∀ r refs ref id, r ∈ fs_Resources spec →
      profile_refs (r_Payload (resource_at resources (rid r))) = Ret refs →
      ref ∈ refs → id ∈ ref_ids ref → Listed s id).
Proof.
  unfold expand.
  eapply safe_bind; [apply (safe_expand_fold _ (λ m, [fr_ResourceID m])); [|apply Expanded_start]|].
  { intros i m s _ Hs. eapply safe_mono; [by apply addResource_step|]. simpl.
    intros t' (H1 & H2 & H3). split_and!; [done| |done]. by intros id ->%list_elem_of_singleton. }
  simpl. intros s (Hs & Hm & _).
  eapply safe_mono; [apply (safe_expand_fold _ (λ r, match profile_refs
      (r_Payload (resource_at resources (rid r))) with Ret refs => mjoin (ref_ids <$> refs) | _ => [] end));
    [|exact Hs]|].
  - intros i r t _ Ht. eapply safe_mono; [by apply add_profile_safe|]. simpl.
    intros t' (H1 & H2 & H3). split_and!; [done| |done]. intros id Hid.
    destruct (profile_refs _) as [refs| |]; try by apply elem_of_nil in Hid.
    apply elem_of_join_fmap in Hid as (ref & Hr & Hid). eauto.
  - simpl. intros t (H1 & H2 & H3). split_and!; [done| |].
    + intros m Hin. apply H3. apply (Hm m); set_solver.
    + intros r refs ref id Hr Hrefs Hin Hid. apply (H2 r); [done|]. rewrite Hrefs.
      apply elem_of_join_fmap. eauto.
Qed.

(** ** Labels of the expansion *)

Lemma material_inj kind id rev id' rev' :
  material kind id rev = material kind id' rev' → id = id' ∧ rev = rev'.
Proof.
  unfold material. intros E.
  assert (∀ i r, kind +:+ i +:+ "|" +:+ Itoa r = (kind +:+ i) +:+ String "|" (Itoa r)) as Ea.
  { intros. by str_simpl. }
  rewrite !Ea in E. apply (last_separator_split number_char) in E as [E Er];
    [|done|apply Itoa_chars..].
  apply Itoa_inj in Er. split; [|done]. by apply string_app_cancel in E.
Qed.

Definition tags_at (labels : gmap string (list string)) (it : labelItem) : list string :=
  default [] (labels !! li_key it).

(** What a successful assignment gives: every item has its tags, one per suffix on a
    common hexadecimal stem, and no two tags are equal. *)
Record Labelled (labels : gmap string (list string)) (items : list labelItem) : Prop := {
  lb_shape : ∀ it, it ∈ items → ∃ stem, all_chars is_hex_char stem = true ∧
    labels !! li_key it = Some ((λ suf, li_prefix it +:+ stem +:+ suf) <$> li_suffixes it);
  lb_tags : NoDup (mjoin (tags_at labels <$> items)) }.

(** SHA-256 in hexadecimal. *)
Definition HexDigest (digest : string → string) : Prop :=
  ∀ m, all_chars is_hex_char (digest m) = true.

Lemma Collected_keys kind seen l (item : Resource → labelItem) k :
  Collected kind seen l → (∀ r, li_key (item r) = material k (rid r) (md_Revision (r_Metadata r))) →
  NoDup (li_key <$> (item <$> l)).
Proof.
  intros [Hl Hn _] Hk. rewrite <-list_fmap_compose. apply NoDup_fmap_2_strong.
  - intros x y Hx Hy E. unfold compose in E. rewrite !Hk in E. apply material_inj in E as [E _].
    by eapply (NoDup_key_inj rid).
  - clear -Hn. induction l as [|x l IH]; [constructor|]. csimpl in Hn.
    apply NoDup_cons in Hn as [Hx Hn]. constructor; [|by apply IH].
    intros H. by apply Hx, list_elem_of_fmap_2.
Qed.

Lemma Expanded_keys s : Expanded s → NoDup (li_key <$> es_items s).
Proof.
  intros [Hn Hc Hp Hi]. rewrite Hi, !fmap_app. apply NoDup_app. split_and!.
  - by eapply (Collected_keys _ _ _ _ "node|").
  - intros k (? & -> & (r & -> & _)%list_elem_of_fmap)%list_elem_of_fmap.
    rewrite elem_of_app. intros [H|H];
      apply list_elem_of_fmap in H as (? & E & (r' & -> & _)%list_elem_of_fmap); done.
  - apply NoDup_app. split_and!.
    + by eapply (Collected_keys _ _ _ _ "chain|").
    + intros k (? & -> & (r & -> & _)%list_elem_of_fmap)%list_elem_of_fmap.
      intros H; apply list_elem_of_fmap in H as (? & E & (r' & -> & _)%list_elem_of_fmap); done.
    + by eapply (Collected_keys _ _ _ _ "policy|").
Qed.

Lemma substring_all_chars f n s :
  all_chars f s = true → all_chars f (String.substring 0 n s) = true.
Proof.
  revert s. induction n as [|n IH]; intros [|c s]; simpl; try done.
  rewrite !andb_true_iff. naive_solver.
Qed.

Lemma labels_labelled digest s labels :
  HexDigest digest → Expanded s → assign digest (es_items s) = Some (Ok labels) →
  Labelled labels (es_items s).
Proof.
  intros Hd Hs. unfold assign.
  destruct (assign_states digest (es_items s)) as [[states|e]|] eqn:Ea; try done. intros [= <-].
  apply assign_states_Ok in Ea as (Hitems & Hhex & Hnd).
  pose proof (Expanded_keys _ Hs) as Hk. rewrite <-Hitems in *. rewrite <-list_fmap_compose in Hk.
  assert (Hlook : ∀ st, st ∈ states → label_map states !! li_key (lab_item st) = Some (label_tags st))
    by (intros; by apply label_map_lookup).
  split.
  - intros it (st & -> & Hst)%list_elem_of_fmap. rewrite (Hlook _ Hst).
    exists (String.substring 0 (lab_n st) (lab_hex st)). split; [|done].
    rewrite Forall_forall in Hhex. destruct (Hhex _ Hst) as [-> _].
    by apply substring_all_chars.
  - rewrite <-list_fmap_compose.
    replace (tags_at (label_map states) ∘ lab_item <$> states) with (label_tags <$> states); [done|].
    apply list_fmap_ext. intros i st Hst%list_elem_of_lookup_2. unfold compose, tags_at.
    by rewrite Hlook.
Qed.
End Expansion.
