(* ===== verification/MemberFacts.v ===== *)
(** The outbounds of policy members ([prepareOrchestration]): their tags, and what a policy
    instance refers to. Facts about the adapter boundary: the outbound list, its order, and
    the mapping of nodes. *)
From S2P Require Import Prelude Diagnostics IRTypes IRValidate Frozen Capability Labels Adapter.
From S2P Require Import Compiler ExpandFacts.

Lemma range_collect_safe {E A B} (f : A → outcome E B) (R : A → B → Prop) l :
  (∀ x, x ∈ l → safe (f x) (R x)) → safe (range_collect f l) (λ out, Forall2 R l out).
Proof.
  intros Hf. apply (safe_fold_prefix _ (λ done out, Forall2 R done out)); [constructor|].
  intros done x rest out Hl Hout.
  eapply safe_bind; [apply Hf; rewrite Hl; set_solver|]. intros y Hy. simpl.
  apply Forall2_app; [done|]. by repeat constructor.
Qed.

(** ** Shapes of tags *)

Definition chain_tags (c : ChainInstance) : list string := [ci_TagH1 c; ci_TagH2 c].

(** The outbound tags of a graph's two lists. *)
Definition outbound_tag_list (inds : list IndependentOutbound) (chains : list ChainInstance)
    : list string := (io_Tag <$> inds) ++ mjoin (chain_tags <$> chains).

Definition stem_tag (p : string) (suf : string) (t : string) : Prop :=
  ∃ stem, all_chars is_hex_char stem = true ∧ t = p +:+ stem +:+ suf.

(** The tag of a labelled item. *)
Definition base_tag (t : string) : Prop :=
  ∃ p suf, (p = nodePrefix ∨ p = chainPrefix ∨ p = policyPrefix) ∧
    suf ∈ [""; "_h1"; "_h2"] ∧ stem_tag p suf t.
Definition group_tag (t : string) : Prop := stem_tag policyPrefix "" t.

(** The tag of an outbound a policy creates for its member at position [k]. *)
Definition member_tag_at (tag : string) (k : nat) (t : string) : Prop :=
  ∃ suf, suf ∈ ["_n"; "_h1"; "_h2"] ∧ t = member_prefix tag k +:+ suf.
Definition member_tag (tag : string) (t : string) : Prop := ∃ k, member_tag_at tag k t.

Lemma hex_no_underscore s : all_chars is_hex_char s = true → no_underscore s = true.
Proof.
  induction s as [|c s IH]; simpl; [done|]. rewrite !andb_true_iff, negb_true_iff.
  intros [Hc Hs]. split; [|by apply IH]. apply Ascii.eqb_neq. by intros ->.
Qed.

Lemma number_no_underscore n : no_underscore (Itoa n) = true.
Proof.
  pose proof (Itoa_chars n) as H. revert H. generalize (Itoa n) as s.
  induction s as [|c s IH]; simpl; [done|]. rewrite !andb_true_iff, negb_true_iff.
  intros [Hc Hs]. split; [|by apply IH]. apply Ascii.eqb_neq. by intros ->.
Qed.

Lemma stem_split_hex a b s t :
  all_chars is_hex_char a = true → all_chars is_hex_char b = true →
  suffix_shape s = true → suffix_shape t = true → a +:+ s = b +:+ t → a = b ∧ s = t.
Proof. intros. apply stem_split; auto using hex_no_underscore. Qed.

Lemma member_suffix_shape suf : suf ∈ ["_n"; "_h1"; "_h2"] → suffix_shape suf = true.
Proof. rewrite !elem_of_cons, elem_of_nil. by intros [->|[->|[->|[]]]]. Qed.

Lemma member_tag_stem stem k suf :
  member_prefix (policyPrefix +:+ stem +:+ "") k +:+ suf =
  policyPrefix +:+ stem +:+ "_m" +:+ Itoa (Z.of_nat k + 1) +:+ suf.
Proof. unfold member_prefix. by str_simpl. Qed.

Lemma policyPrefix_cancel x y : policyPrefix +:+ x = policyPrefix +:+ y → x = y.
Proof. unfold policyPrefix. str_simpl. by intros [= ->]. Qed.

Lemma member_tag_at_inj T T' k k' t :
  group_tag T → group_tag T' → member_tag_at T k t → member_tag_at T' k' t → T = T' ∧ k = k'.
Proof.
  intros (s & Hs & ->) (s' & Hs' & ->) (u & Hu & ->) (u' & Hu' & E).
  rewrite !member_tag_stem in E. apply policyPrefix_cancel in E.
  apply stem_split_hex in E as [-> E]; try done. split; [done|].
  rewrite !string_app_cons, !string_app_empty_l in E. injection E as E.
  apply stem_split in E as [E _]; try apply number_no_underscore; try by apply member_suffix_shape.
  apply Itoa_inj in E. lia.
Qed.

Lemma base_member_ne b T t : base_tag b → group_tag T → member_tag T t → b ≠ t.
Proof.
  intros (p & suf & Hp & Hsuf & s & Hs & ->) (s' & Hs' & ->) (k & u & Hu & ->) E.
  rewrite member_tag_stem in E.
  assert (Hb : suffix_shape suf = true).
  { revert Hsuf. rewrite !elem_of_cons, elem_of_nil. by intros [->|[->|[->|[]]]]. }
  apply (prefix_cancel p policyPrefix) in E as [_ E]; [|by destruct Hp as [->|[->| ->]]|done].
  apply stem_split_hex in E as [_ E]; try done.
  revert Hsuf. rewrite !elem_of_cons, elem_of_nil. intros [->|[->|[->|[]]]]; done.
Qed.

(** ** The member loop *)

(** [tag] is the exit of an outbound (a node, or a chain's last hop) that stands for
    the resource [id]. *)
Definition Exit (inds : list IndependentOutbound) (chains : list ChainInstance)
    (tag : string) (id : ID) : Prop :=
  (∃ o, o ∈ inds ∧ io_Tag o = tag ∧ rid (io_Resource o) = id) ∨
  (∃ c, c ∈ chains ∧ ci_TagH2 c = tag ∧ ci_ResourceID c = id).

Lemma Exit_mono inds chains inds' chains' tag id :
  inds ⊆ inds' → chains ⊆ chains' → Exit inds chains tag id → Exit inds' chains' tag id.
Proof. intros Hi Hc [(o & Ho & H)|(c & Hc' & H)]; [left; exists o|right; exists c]; auto. Qed.

Lemma Exit_listed inds chains tag id : Exit inds chains tag id → tag ∈ outbound_tag_list inds chains.
Proof.
  unfold outbound_tag_list. rewrite elem_of_app, elem_of_join_fmap.
  intros [(o & Ho & <- & _)|(c & Hc & <- & _)].
  - left. by apply list_elem_of_fmap_2.
  - right. exists c. unfold chain_tags. set_solver.
Qed.

Lemma outbound_tag_list_elem inds chains t :
  t ∈ outbound_tag_list inds chains ↔
  (∃ o, o ∈ inds ∧ io_Tag o = t) ∨ (∃ c, c ∈ chains ∧ (t = ci_TagH1 c ∨ t = ci_TagH2 c)).
Proof.
  unfold outbound_tag_list, chain_tags. rewrite elem_of_app, elem_of_join_fmap, list_elem_of_fmap.
  split; (intros [H|H]; [left|right]); set_solver.
Qed.

Lemma outbound_tag_list_app inds chains inds' chains' :
  outbound_tag_list (inds ++ inds') (chains ++ chains') ≡ₚ
  outbound_tag_list inds chains ++ outbound_tag_list inds' chains'.
Proof. unfold outbound_tag_list. rewrite !fmap_app, join_app. solve_Permutation. Qed.

(** With distinct tags, an exit stands for one resource. *)
Lemma NoDup_fmap_elem {A} (f : A → string) l x y :
  NoDup (f <$> l) → x ∈ l → y ∈ l → f x = f y → x = y.
Proof. apply NoDup_key_inj. Qed.

Lemma NoDup_join_elem {A B} (f : A → list B) l x y b :
  NoDup (mjoin (f <$> l)) → x ∈ l → y ∈ l → b ∈ f x → b ∈ f y → x = y.
Proof.
  induction l as [|z l IH]; intros Hnd Hx Hy; [by apply elem_of_nil in Hx|]. csimpl in Hnd.
  apply NoDup_app in Hnd as (_ & Hd & Hnd). intros Hbx Hby.
  apply elem_of_cons in Hx as [->|Hx], Hy as [->|Hy]; [done| | |by apply IH].
  - exfalso. apply (Hd b); [done|]. apply elem_of_join_fmap. eauto.
  - exfalso. apply (Hd b); [done|]. apply elem_of_join_fmap. eauto.
Qed.

Lemma Exit_inj inds chains tag id id' :
  NoDup (outbound_tag_list inds chains) → Exit inds chains tag id → Exit inds chains tag id' →
  id = id'.
Proof.
  intros (Hi & Hd & Hc)%NoDup_app.
  assert (Hno : ∀ o c, o ∈ inds → c ∈ chains → io_Tag o ≠ ci_TagH2 c).
  { intros o c Ho Hcc E. apply (Hd (io_Tag o)); [by apply list_elem_of_fmap_2|].
    apply elem_of_join_fmap. exists c. rewrite E. unfold chain_tags. set_solver. }
  intros [(o & Ho & <- & <-)|(c & Hcc & <- & <-)] [(o' & Ho' & E & <-)|(c' & Hc' & E & <-)].
  - by rewrite (NoDup_fmap_elem io_Tag inds o' o).
  - by destruct (Hno _ _ Ho Hc').
  - by destruct (Hno _ _ Ho' Hcc).
  - rewrite (NoDup_join_elem chain_tags chains c' c (ci_TagH2 c)); try done;
      unfold chain_tags; rewrite ?E; set_solver.
Qed.

Section Members.
Context (resources : gmap string Resource) (HR : ResourceMap resources).

Definition outbounds_of (m : TargetRef) : nat := if tr_Kind m =s KindChain then 2 else 1.

(** The member resolves to a node or a chain, as its kind says. *)
Definition MemberOk (m : TargetRef) : Prop :=
  (tr_Kind m = KindNode ∨ tr_Kind m = KindChain) ∧
  ∃ r, resources !! tr_ResourceID m = Some r ∧ payload_type (r_Payload r) = tr_Kind m.

Lemma group_members_ok id r g :
  resources !! id = Some r → r_Payload r = Payload_PolicyGroup g → Forall MemberOk (pg_Members g).
Proof.
  intros Hr Hg. destruct (rmp_group _ HR _ _ _ Hr Hg) as (Hk & _ & _).
  rewrite Forall_forall in *. intros m Hm. split; [by apply Hk|].
  apply list_elem_of_lookup in Hm as [i Hi].
  destruct (rmp_edges _ HR _ _ {| e_target := tr_ResourceID m; e_kind := tr_Kind m;
      e_field := "/members/" +:+ index_string i +:+ "/resource_id" |} Hr) as (r' & Hl & Ht); [|eauto].
  rewrite Hg. simpl. apply elem_of_lookup_imap. eauto.
Qed.

(** The chain's first hop is the dialer of its second, and both are nodes. *)
Definition ChainOk (c : ChainInstance) : Prop :=
  ∃ r chain a b, resources !! ci_ResourceID c = Some r ∧ r_Payload r = Payload_Chain chain ∧
    ch_Hops chain = [a; b] ∧ resources !! nr_NodeID a = Some (ci_Hop1 c) ∧
    resources !! nr_NodeID b = Some (ci_Hop2 c) ∧
    payload_type (r_Payload (ci_Hop1 c)) = KindNode ∧
    payload_type (r_Payload (ci_Hop2 c)) = KindNode ∧
    ci_Revision c = md_Revision (r_Metadata r) ∧ ci_FailurePolicy c = ch_FailurePolicy chain.

Definition NodeOk (o : IndependentOutbound) : Prop :=
  resources !! rid (io_Resource o) = Some (io_Resource o) ∧
  payload_type (r_Payload (io_Resource o)) = KindNode.

Record MemberInv (T : string) (done : list TargetRef) (s : member_state) : Prop := {
  mi_nodup : NoDup (outbound_tag_list (ms_independents s) (ms_chains s));
  mi_shape : ∀ t, t ∈ outbound_tag_list (ms_independents s) (ms_chains s) →
    ∃ k, (k < length done)%nat ∧ member_tag_at T k t;
  mi_exit : ∀ m, m ∈ done → is_Some (ms_tags s !! tr_ResourceID m);
  mi_sound : ∀ id tag, ms_tags s !! id = Some tag →
    Exit (ms_independents s) (ms_chains s) tag id;
  mi_count : (length (ms_independents s) + 2 * length (ms_chains s) =
              sum_list_with outbounds_of done)%nat;
  mi_nodes : Forall NodeOk (ms_independents s);
  mi_chains : Forall ChainOk (ms_chains s) }.

(** The tags a member at the next position gets are new and distinct. *)
Lemma member_fresh T done s ts :
  group_tag T → MemberInv T done s → NoDup ts →
  (∀ t, t ∈ ts → member_tag_at T (length done) t) →
  NoDup (outbound_tag_list (ms_independents s) (ms_chains s) ++ ts).
Proof.
  intros HT [Hn Hs _ _ _ _ _] Hts Hsh. apply NoDup_app. split_and!; [done| |done].
  intros t (k & Hk & Ht)%Hs Hin%Hsh. destruct (member_tag_at_inj _ _ _ _ _ HT HT Ht Hin). lia.
Qed.

Lemma member_tag_at_intro T k suf :
  suf ∈ ["_n"; "_h1"; "_h2"] → member_tag_at T k (member_prefix T k +:+ suf).
Proof. intros. by exists suf. Qed.

Lemma chain_instance_safe r c h1 h2 :
  resources !! rid r = Some r → r_Payload r = Payload_Chain c →
  safe (chain_instance resources r c h1 h2)
    (λ i, ci_TagH1 i = h1 ∧ ci_TagH2 i = h2 ∧ ci_ResourceID i = rid r ∧ ChainOk i).
Proof.
  intros Hr Hc. destruct (rmp_hops _ HR _ _ _ Hr Hc) as (a & b & E).
  assert (Hhop : ∀ h, h ∈ ch_Hops c → ∃ n, resources !! nr_NodeID h = Some n ∧
            payload_type (r_Payload n) = KindNode).
  { intros h (k & Hk)%list_elem_of_lookup.
    destruct (rmp_edges _ HR _ _ {| e_target := nr_NodeID h; e_kind := KindNode;
      e_field := "/hops/" +:+ index_string k +:+ "/node_id" |} Hr) as (n & Hn & Ht); [|eauto].
    rewrite Hc. apply elem_of_lookup_imap. eauto. }
  destruct (Hhop a) as (na & Ha & Hta); [rewrite E; set_solver|].
  destruct (Hhop b) as (nb & Hb & Htb); [rewrite E; set_solver|].
  unfold chain_instance. rewrite E. simpl. split_and!; [done..|].
  exists r, c, a, b. unfold resource_at. simpl. by rewrite Ha, Hb.
Qed.

Lemma as_chain_some (r : Resource) :
  solid (r_Payload r) = true → payload_type (r_Payload r) = KindChain →
  ∃ c, as_chain (r_Payload r) = Some c ∧ r_Payload r = Payload_Chain c.
Proof. intros Hs Ht. destruct (r_Payload r); try done. eauto. Qed.

Lemma ms_extend T done s m inds chains tag :
  group_tag T → MemberInv T done s →
  NoDup (outbound_tag_list inds chains) →
  (∀ t, t ∈ outbound_tag_list inds chains → member_tag_at T (length done) t) →
  Exit inds chains tag (tr_ResourceID m) →
  (length inds + 2 * length chains = outbounds_of m)%nat →
  Forall NodeOk inds → Forall ChainOk chains →
  MemberInv T (done ++ [m])
    {| ms_independents := ms_independents s ++ inds; ms_chains := ms_chains s ++ chains;
       ms_tags := <[tr_ResourceID m := tag]> (ms_tags s) |}.
Proof.
  intros HT HI Hnd Hsh Hex Hc Hno Hch. pose proof HI as [Hn Hs He Ho Hk Hmn Hmc].
  split; simpl; [..|by apply Forall_app|by apply Forall_app].
  - rewrite outbound_tag_list_app. by apply (member_fresh T done).
  - intros t. rewrite outbound_tag_list_app, elem_of_app, length_app. simpl.
    intros [(k & ? & ?)%Hs|Ht%Hsh]; [exists k|exists (length done)]; (split; [lia|done]).
  - intros x [Hx| ->%list_elem_of_singleton]%elem_of_app; rewrite lookup_insert_is_Some'; [right|by left].
    by apply He.
  - intros id t [[<- <-]|[_ H]]%lookup_insert_Some; (eapply Exit_mono; [..|by eauto]);
      intros y; rewrite ?elem_of_app; auto.
  - rewrite !length_app, sum_list_with_app. simpl. lia.
Qed.

Lemma member_suffixes_distinct T k : NoDup [member_prefix T k +:+ "_h1"; member_prefix T k +:+ "_h2"].
Proof.
  apply NoDup_cons. split; [|apply NoDup_singleton]. intros E%list_elem_of_singleton.
  by apply string_app_cancel in E.
Qed.

Lemma add_member_safe T done m s :
  group_tag T → MemberOk m → MemberInv T done s →
  safe (add_member resources T (length done) m s) (MemberInv T (done ++ [m])).
Proof.
  intros HT [Hkind (r & Hr & Ht)] HI. unfold add_member, resource_at. cbv zeta. rewrite Hr. simpl.
  pose proof (rmp_key _ HR _ _ Hr) as Eid. rewrite Ht.
  destruct (String.eqb_spec (tr_Kind m) KindNode) as [Ek|Ek].
  { simpl. rewrite <-(app_nil_r (ms_chains s)). apply (ms_extend T done s m); try done.
    - unfold outbound_tag_list. simpl. apply NoDup_singleton.
    - unfold outbound_tag_list. simpl. intros t ->%list_elem_of_singleton.
      apply member_tag_at_intro. set_solver.
    - left. eexists. split; [by apply list_elem_of_singleton|]. simpl. done.
    - unfold outbounds_of. by rewrite Ek.
    - repeat constructor; simpl; [by rewrite Eid|by rewrite Ht]. }
  destruct Hkind as [|Ek']; [done|]. rewrite Ek' in *. simpl.
  destruct (as_chain_some r) as (c & -> & Hc); [by eapply rmp_solid|done|]. simpl.
  eapply safe_bind; [apply chain_instance_safe; [by rewrite Eid|done]|].
  intros i (E1 & E2 & E3 & Hok). simpl. rewrite <-(app_nil_r (ms_independents s)).
  apply (ms_extend T done s m); try done.
  - unfold outbound_tag_list, chain_tags. simpl. rewrite E1, E2. apply member_suffixes_distinct.
  - unfold outbound_tag_list, chain_tags. simpl. rewrite E1, E2. intros t Hin.
    apply elem_of_cons in Hin as [->|Hin]; [|apply list_elem_of_singleton in Hin as ->];
      apply member_tag_at_intro; set_solver.
  - right. exists i. split; [by apply list_elem_of_singleton|]. by rewrite E3.
  - unfold outbounds_of. by rewrite Ek'.
  - by repeat constructor.
Qed.

Lemma policy_members_safe T g :
  group_tag T → Forall MemberOk (pg_Members g) →
  safe (policy_members resources T g) (MemberInv T (pg_Members g)).
Proof.
  intros HT Hm. apply (safe_fold_prefix _ (MemberInv T)).
  - split; simpl; try done; [constructor|by intros ? ?%elem_of_nil|by intros ? ?%elem_of_nil].
  - intros done x rest s Hl HI. apply add_member_safe; [done| |done].
    rewrite Forall_forall in Hm. apply Hm. rewrite Hl. set_solver.
Qed.

(** ** The policy instance *)

(** A policy instance lists the exits of its group's members, the default first and
    the others in their order. *)
Definition PolicyMembers (inds : list IndependentOutbound) (chains : list ChainInstance)
    (g : PolicyGroup) (p : PolicyInstance) : Prop :=
  ∃ tagf : ID → string,
    (∀ m, m ∈ pg_Members g → Exit inds chains (tagf (tr_ResourceID m)) (tr_ResourceID m)) ∧
    pi_Default p = tagf (tr_ResourceID (pg_DefaultMember g)) ∧
    pi_Members p = pi_Default p ::
      (tagf <$> (tr_ResourceID <$>
         filter (λ m, tr_ResourceID m ≠ tr_ResourceID (pg_DefaultMember g)) (pg_Members g))).

Lemma PolicyMembers_mono inds chains inds' chains' g p :
  inds ⊆ inds' → chains ⊆ chains' → PolicyMembers inds chains g p →
  PolicyMembers inds' chains' g p.
Proof. intros Hi Hc (f & Hf & H). exists f. split; [|done]. intros. eapply Exit_mono; eauto. Qed.

Lemma filter_fmap_key (f : ID → string) (l : list TargetRef) (first : ID) :
  (∀ m, m ∈ l → f (tr_ResourceID m) = f first → tr_ResourceID m = first) →
  filter (λ t, t ≠ f first) ((λ m, f (tr_ResourceID m)) <$> l) =
  f <$> (tr_ResourceID <$> filter (λ m, tr_ResourceID m ≠ first) l).
Proof.
  induction l as [|x l IH]; intros Hinj; [done|]. csimpl. rewrite !filter_cons.
  assert (IH' := IH (λ m Hm, Hinj m ltac:(set_solver))).
  destruct (decide (f (tr_ResourceID x) ≠ f first)) as [Hn|Hn];
    destruct (decide (tr_ResourceID x ≠ first)) as [Hn'|Hn']; csimpl; [by rewrite IH'| | |done].
  - exfalso. apply Hn'. intros E. apply Hn. by rewrite E.
  - exfalso. apply Hn. intros E. apply Hn'. apply Hinj; [set_solver|done].
Qed.

Lemma policy_instance_members T g s id :
  MemberInv T (pg_Members g) s → pg_DefaultMember g ∈ pg_Members g →
  PolicyMembers (ms_independents s) (ms_chains s) g (policy_instance T id g (ms_tags s)).
Proof.
  intros [Hn _ He Ho _ _ _] Hd. set (tagf := λ k, default "" (ms_tags s !! k)).
  assert (Hex : ∀ m, m ∈ pg_Members g →
    Exit (ms_independents s) (ms_chains s) (tagf (tr_ResourceID m)) (tr_ResourceID m)).
  { intros m Hm. destruct (He _ Hm) as [t Ht]. unfold tagf. rewrite Ht. simpl. by apply Ho. }
  exists tagf. split_and!; [done..|]. unfold policy_instance. simpl. f_equal.
  apply (filter_fmap_key tagf). intros m Hm E.
  eapply Exit_inj; [exact Hn|by apply Hex|]. rewrite E. by apply Hex.
Qed.
End Members.

(** ** Characters of a tag *)

Definition ascii_char (c : ascii) : bool := (N_of_ascii c <? 128)%N.

Lemma all_chars_is_ascii s : all_chars ascii_char s = true → is_ascii s.
Proof.
  unfold is_ascii. induction s as [|c s IH]; simpl; [by intros _ ? ?%elem_of_nil|].
  rewrite andb_true_iff. intros [Hc Hs] x [->|Hx]%elem_of_cons; [|by apply IH].
  by apply N.ltb_lt.
Qed.

Lemma hex_ascii s : all_chars is_hex_char s = true → all_chars ascii_char s = true.
Proof.
  apply all_chars_impl. intros c. unfold is_hex_char, is_digit, ascii_char. cbv zeta.
  rewrite !orb_true_iff, !andb_true_iff, !N.leb_le, N.ltb_lt. lia.
Qed.

Lemma number_ascii n : all_chars ascii_char (Itoa n) = true.
Proof.
  eapply all_chars_impl; [|apply Itoa_chars]. intros c.
  unfold number_char, is_digit, ascii_char.
  rewrite orb_true_iff, andb_true_iff, !N.leb_le, Ascii.eqb_eq, N.ltb_lt.
  intros [?| ->]; [lia|]. reflexivity.
Qed.

(** A tag that starts with a label prefix and is ASCII text. *)
Definition plain_tag (t : string) : Prop :=
  ∃ p rest, (p = nodePrefix ∨ p = chainPrefix ∨ p = policyPrefix) ∧ t = p +:+ rest ∧
    all_chars ascii_char t = true.

Lemma base_tag_plain t : base_tag t → plain_tag t.
Proof.
  intros (p & suf & Hp & Hsuf & stem & Hst & ->). exists p, (stem +:+ suf).
  split_and!; [done..|]. rewrite !all_chars_app, (hex_ascii stem) by done.
  assert (all_chars ascii_char suf = true) as ->.
  { revert Hsuf. rewrite !elem_of_cons, elem_of_nil. by intros [->|[->|[->|[]]]]. }
  by destruct Hp as [->|[->| ->]].
Qed.

Lemma member_tag_plain T t : group_tag T → member_tag T t → plain_tag t.
Proof.
  intros (stem & Hst & ->) (k & suf & Hsuf & ->). rewrite member_tag_stem.
  eexists policyPrefix, _. split_and!; [by right; right|done|].
  rewrite !all_chars_app, (hex_ascii stem) by done. rewrite number_ascii.
  assert (all_chars ascii_char suf = true) as ->; [|done].
  revert Hsuf. rewrite !elem_of_cons, elem_of_nil. by intros [->|[->|[->|[]]]].
Qed.

Section Emit.
Context {T : GoText}.

Lemma plain_tag_free t : plain_tag t → t ≠ "" ∧ IsReservedTag t = false.
Proof.
  intros (p & rest & Hp & -> & Ha). split; [by destruct Hp as [->|[->| ->]]|].
  unfold IsReservedTag. rewrite ToLower_ascii by by apply all_chars_is_ascii.
  apply bool_decide_eq_false. unfold reserved_tags. intros H. revert H.
  rewrite !elem_of_cons, elem_of_nil.
  unfold nodePrefix, chainPrefix, policyPrefix in Hp.
  destruct Hp as [->|[->| ->]]; str_simpl; simpl; naive_solver.
Qed.

(** ** The outbound list *)

Lemma range_app_fmap {A B C} (f : nat → A → list B) (g : B → C) (h : A → list C) l :
  (∀ i x, g <$> f i x = h x) → g <$> range_app f l = mjoin (h <$> l).
Proof.
  intros Hf. unfold range_app. revert f Hf. induction l as [|x l IH]; intros f Hf; [done|].
  csimpl. rewrite fmap_app, Hf. f_equal. apply (IH (λ i, f (S i))). intros. apply Hf.
Qed.

Lemma outbound_list_tags input :
  or_Tag <$> outbound_list input = outbound_tag_list (in_Independents input) (in_Chains input).
Proof.
  unfold outbound_list, outbound_tag_list. rewrite fmap_app. f_equal.
  - rewrite fmap_imap. unfold compose. simpl.
    generalize (in_Independents input). intros l. induction l as [|o l IH]; csimpl; [done|]. by f_equal.
  - by apply range_app_fmap.
Qed.

(** When [OutboundRefs] accepts a graph. *)
Definition OutboundsOk (input : EmitInput) : Prop :=
  Z.of_nat (length (in_Independents input)) + 2 * Z.of_nat (length (in_Chains input)) ≤ MaxOutbounds ∧
  NoDup (outbound_tag_list (in_Independents input) (in_Chains input)) ∧
  Forall (λ t, t ≠ "" ∧ IsReservedTag t = false)
    (outbound_tag_list (in_Independents input) (in_Chains input)).

Lemma OutboundRefs_Ok input refs :
  OutboundRefs input = Ok refs ↔ OutboundsOk input ∧ refs = outbound_list input.
Proof.
  unfold OutboundRefs, OutboundsOk. cbv zeta.
  destruct (Z.ltb_spec MaxOutbounds
    (Z.of_nat (length (in_Independents input)) + 2 * Z.of_nat (length (in_Chains input)))) as [H|H].
  { split; [done|]. intros [[? _] _]. lia. }
  destruct (range_err _ (outbound_list input)) as [e|] eqn:E.
  - split; [done|]. intros [(_ & Hnd & Hok) _]. exfalso. rewrite <-outbound_list_tags in *.
    assert (Some e = None) as [=]. rewrite <-E. apply range_err_None. intros i ref Hi.
    rewrite Forall_fmap, Forall_forall in Hok.
    destruct (Hok ref (list_elem_of_lookup_2 _ _ _ Hi)) as [Hne Hres].
    rewrite no_dup_seen in Hnd. rewrite (Hnd _ _ Hi), Hres.
    by destruct (String.eqb_spec (or_Tag ref) "").
  - rewrite range_err_None in E. rewrite <-outbound_list_tags. split; [|by intros [_ ->]].
    intros [= <-]. split; [|done]. split_and!; [done| |].
    + apply no_dup_seen. intros i ref Hi. specialize (E i ref Hi). simpl in E.
      destruct (_ || _); [done|]. by destruct (seen_before _ _ _ _).
    + apply Forall_fmap, Forall_lookup. intros i ref Hi. specialize (E i ref Hi). simpl in *.
      destruct (String.eqb_spec (or_Tag ref) ""); [done|]. simpl in E.
      by destruct (IsReservedTag (or_Tag ref)).
Qed.

(** An outbound dials through another one exactly when it is a chain's second hop. *)
Lemma outbound_list_dialer input ref :
  ref ∈ outbound_list input →
  (or_Kind ref = KindIndependent ∧ or_DialerTag ref = "" ∧
     ∃ o, o ∈ in_Independents input ∧ or_Tag ref = io_Tag o ∧ or_Resource ref = io_Resource o) ∨
  (∃ c, c ∈ in_Chains input ∧
     ((or_Kind ref = KindChainH1 ∧ or_DialerTag ref = "" ∧ or_Tag ref = ci_TagH1 c ∧
       or_Resource ref = ci_Hop1 c) ∨
      (or_Kind ref = KindChainH2 ∧ or_DialerTag ref = ci_TagH1 c ∧ or_Tag ref = ci_TagH2 c ∧
       or_Resource ref = ci_Hop2 c))).
Proof.
  unfold outbound_list. intros [H|H]%elem_of_app.
  - apply elem_of_lookup_imap in H as (i & o & -> & Hi). left. simpl. split_and!; [done..|].
    exists o. split; [by eapply list_elem_of_lookup_2|done].
  - apply elem_of_range_app in H as (i & c & Hi & H). right. exists c.
    split; [by eapply list_elem_of_lookup_2|]. cbv zeta in H.
    apply elem_of_cons in H as [->|H]; [left; done|].
    apply list_elem_of_singleton in H as ->. right. done.
Qed.

(** [OrderedOutboundRefs]: the exit first, the others by tag. *)
Lemma OrderedOutboundRefs_Ok input exit ordered :
  OrderedOutboundRefs input = Ok (exit, ordered) →
  ExitTag input = Ok exit ∧ ordered ≡ₚ outbound_list input ∧ NoDup (or_Tag <$> ordered) ∧
  ∃ first rest, ordered = first ++ rest ∧ Sorted string_le (or_Tag <$> rest) ∧
    ((∃ ref, first = [ref] ∧ or_Tag ref = exit) ∨
     (first = [] ∧ exit ∉ (or_Tag <$> outbound_list input) ∧
      (exit = in_FinalTag input ∨ in_Policies input ≠ []))).
Proof.
  unfold OrderedOutboundRefs. destruct (ExitTag input) as [e|]; [|done].
  destruct (OutboundRefs input) as [refs|] eqn:Er; [|done].
  apply OutboundRefs_Ok in Er as [(_ & Hnd & _) ->]. cbv zeta.
  rewrite <-outbound_list_tags in Hnd. set (l := outbound_list input) in *.
  set (rest := isort (key_leb or_Tag) (filter (λ ref, or_Tag ref ≠ e) l)).
  assert (Hsorted : Sorted string_le (or_Tag <$> rest)).
  { pose proof (isort_sorted (key_leb or_Tag) (filter (λ ref, or_Tag ref ≠ e) l)) as Hs.
    change (isort _ _) with rest in Hs. clearbody rest. clear -Hs.
    induction Hs as [|a k _ IH Hhd]; csimpl; constructor; [done|]. destruct Hhd; csimpl; by constructor. }
  assert (Hrest : rest ≡ₚ filter (λ ref, or_Tag ref ≠ e) l) by apply isort_perm.
  assert (Hsplit : l ≡ₚ filter (λ ref, or_Tag ref = e) l ++ filter (λ ref, or_Tag ref ≠ e) l).
  { clearbody l. clear. induction l as [|x l IH]; [done|]. rewrite !filter_cons.
    destruct (decide (or_Tag x = e)), (decide (or_Tag x ≠ e)); try done; simpl.
    - by rewrite <-IH.
    - by rewrite <-Permutation_middle, <-IH. }
  destruct (last (filter (λ ref, or_Tag ref = e) l)) as [first|] eqn:El.
  - intros [= <- <-].
    assert (Hone : filter (λ ref, or_Tag ref = e) l = [first]).
    { assert (Hu : ∀ x, x ∈ filter (λ ref, or_Tag ref = e) l → x = first).
      { apply last_Some_elem_of in El. apply list_elem_of_filter in El as [Ef Hf].
        intros x [Ex Hx]%list_elem_of_filter. eapply (NoDup_key_inj or_Tag); [exact Hnd|..]; congruence. }
      assert (Hn : NoDup (filter (λ ref, or_Tag ref = e) l)).
      { apply NoDup_filter. by eapply NoDup_fmap_1. }
      destruct (filter (λ ref, or_Tag ref = e) l) as [|x [|y k]]; [done|by rewrite (Hu x) by set_solver|].
      exfalso. rewrite (Hu x), (Hu y) in Hn by set_solver. apply NoDup_cons in Hn as [Hn _]. set_solver. }
    rewrite Hone in Hsplit.
    assert (Hp : first :: rest ≡ₚ l) by by rewrite Hsplit, Hrest.
    split_and!; [done|exact Hp|by rewrite Hp|].
    exists [first], rest. split_and!; [done..|]. left. exists first. split; [done|].
    assert (first ∈ filter (λ ref, or_Tag ref = e) l) as H by (rewrite Hone; set_solver).
    by apply list_elem_of_filter in H as [? _].
  - apply last_None in El. rewrite El in Hsplit.
    destruct (negb (e =s in_FinalTag input) && bool_decide (in_Policies input = [])) eqn:Ec; [done|].
    intros [= <- <-]. assert (Hp : rest ≡ₚ l) by by rewrite Hsplit, Hrest.
    split_and!; [done|exact Hp|by rewrite Hp|]. exists [], rest. split_and!; [done..|]. right.
    split_and!; [done| |].
    + intros (ref & -> & Hin)%list_elem_of_fmap.
      assert (ref ∈ filter (λ r, or_Tag r = or_Tag ref) l) as H by by apply list_elem_of_filter.
      rewrite El in H. by apply elem_of_nil in H.
    + apply andb_false_iff in Ec as [H|H].
      * apply negb_false_iff, String.eqb_eq in H. by left.
      * apply bool_decide_eq_false in H. by right.
Qed.
End Emit.

(** ** The Trojan mapping *)

(** The Trojan mapping succeeds exactly on a Trojan node with a password, native
    TCP and TLS whose certificate verification is explicit, without UDP, multiplexing
    or variant; every field is carried over, none is defaulted. *)
Lemma MapTrojanNativeTLS_exact r path key m :
  MapTrojanNativeTLS r path key = Ok m ↔
  ∃ node auth tcp tls verify, r_Payload r = Payload_Node node ∧ n_Protocol node = Trojan ∧
    n_Auth node = Auth_Password auth ∧ pa_Kind auth = AuthPassword ∧
    n_Transport node = Transport_TCP tcp ∧ tcp_Kind tcp = NativeTCP ∧
    n_Security node = Security_TLS tls ∧ tls_Mode tls = TLS ∧
    tls_VerifyCertificate tls = Some verify ∧
    ft_Multiplex (n_Features node) ≠ Some true ∧ ft_ProtocolVariant (n_Features node) = None ∧
    ft_UDP (n_Features node) ≠ Some true ∧
    m = {| tt_Endpoint := n_Endpoint node; tt_Password := pa_Password auth;
           tt_ServerName := tls_ServerName tls; tt_VerifyCert := verify;
           tt_ALPN := tls_ALPN tls; tt_Fingerprint := default "" (tls_ClientFingerprint tls);
           tt_UDPFalse := bool_decide (ft_UDP (n_Features node) = Some false) |}.
Proof.
  assert (Hset : ∀ x, is_set x = false ↔ x ≠ Some true) by (intros [[]|]; split; naive_solver).
  unfold MapTrojanNativeTLS. cbv zeta. split.
  - destruct (r_Payload r) as [| |node| | | | | | |]; try done.
    destruct (String.eqb_spec (n_Protocol node) Trojan) as [Hp|]; [|done].
    destruct (n_Auth node) as [| | | | |auth| |] eqn:Ea; try done.
    destruct (String.eqb_spec (pa_Kind auth) AuthPassword) as [Hk|]; [|done].
    destruct (n_Transport node) as [| |tcp|] eqn:Et; try done.
    destruct (String.eqb_spec (tcp_Kind tcp) NativeTCP) as [Hn|]; [|done].
    destruct (n_Security node) as [| | |tls|] eqn:Es; try done.
    destruct (String.eqb_spec (tls_Mode tls) TLS) as [Hm|]; [|done]. simpl.
    destruct (tls_VerifyCertificate tls) as [verify|] eqn:Ev; [|done].
    destruct (is_set (ft_Multiplex _)) eqn:E1; [done|].
    case_bool_decide as E2; [done|]. destruct (is_set (ft_UDP _)) eqn:E3; [done|].
    intros [= <-]. exists node, auth, tcp, tls, verify.
    apply Hset in E1, E3. destruct (ft_ProtocolVariant _); [by destruct E2|].
    by split_and!.
  - intros (node & auth & tcp & tls & verify & -> & -> & -> & -> & -> & -> & -> & -> & -> & H1 & H2 & H3 & ->).
    apply Hset in H1, H3. rewrite H1, H3, H2. done.
Qed.
