(* ===== verification/GraphFacts.v ===== *)
(** The prepared graph: every outbound and policy has a tag of its own, and every
    tag the routing, DNS and policy inputs mention stands for the resource that the
    snapshot references. *)
From S2P Require Import Prelude Diagnostics IRTypes IRValidate Frozen FrozenFacts Labels.
From S2P Require Import Adapter Capability Compiler RouteFacts ExpandFacts MemberFacts.

Section Graph.
Context (target : Target) (resources : gmap string Resource) (HR : ResourceMap resources).
Context (s : expand_state) (HE : Expanded resources s).
Context (labels : gmap string (list string)) (HL : Labelled labels (es_items s)).

(** ** Tags of the collected resources *)

Definition ptag (r : Resource) : string := default "" (head (tags_at labels (policy_item r))).

Lemma item_tags (item : labelItem) :
  item ∈ es_items s →
  ∃ stem, all_chars is_hex_char stem = true ∧
    tags_at labels item = (λ suf, li_prefix item +:+ stem +:+ suf) <$> li_suffixes item ∧
    labels !! li_key item = Some (tags_at labels item).
Proof.
  intros Hi. destruct (lb_shape _ _ HL _ Hi) as (stem & Hstem & E).
  exists stem. unfold tags_at. by rewrite E.
Qed.

Lemma node_item_in r : r ∈ es_independents s → node_item r ∈ es_items s.
Proof. intros Hr. rewrite (ex_items _ _ HE). set_solver. Qed.
Lemma chain_item_in r : r ∈ es_chains s → chain_item r ∈ es_items s.
Proof. intros Hr. rewrite (ex_items _ _ HE). set_solver. Qed.
Lemma policy_item_in r : r ∈ es_policies s → policy_item r ∈ es_items s.
Proof. intros Hr. rewrite (ex_items _ _ HE). set_solver. Qed.

Lemma base_tag_intro p suf stem :
  (p = nodePrefix ∨ p = chainPrefix ∨ p = policyPrefix) → suf ∈ [""; "_h1"; "_h2"] →
  all_chars is_hex_char stem = true → base_tag (p +:+ stem +:+ suf).
Proof. intros Hp Hs Hst. exists p, suf. split_and!; [done..|]. by exists stem. Qed.

Lemma ptag_spec r :
  r ∈ es_policies s →
  tags_at labels (policy_item r) = [ptag r] ∧ group_tag (ptag r) ∧
  labels !! policyMaterial (rid r) (md_Revision (r_Metadata r)) = Some [ptag r].
Proof.
  intros Hr. destruct (item_tags _ (policy_item_in _ Hr)) as (stem & Hs & E & El).
  unfold ptag. rewrite E in *. simpl in *. split_and!; [done| |done]. by exists stem.
Qed.

Definition IndependentOf (r : Resource) (o : IndependentOutbound) : Prop :=
  io_Resource o = r ∧ tags_at labels (node_item r) = [io_Tag o] ∧ NodeOk resources o ∧
  base_tag (io_Tag o).

Lemma independent_of_safe r :
  r ∈ es_independents s → safe (independent_of labels r) (IndependentOf r).
Proof.
  intros Hr. destruct (item_tags _ (node_item_in _ Hr)) as (stem & Hs & E & El).
  unfold independent_of, label_at.
  change (nodeMaterial _ _) with (li_key (node_item r)). rewrite El, E. simpl.
  destruct (co_lookup _ _ _ _ (ex_nodes _ _ HE) _ Hr).
  split_and!; [done|exact E|by split|]. apply base_tag_intro; [by left|set_solver|done].
Qed.

Definition ChainOf (r : Resource) (c : ChainInstance) : Prop :=
  ci_ResourceID c = rid r ∧ tags_at labels (chain_item r) = chain_tags c ∧ ChainOk resources c ∧
  Forall base_tag (chain_tags c).

Lemma chain_of_safe r :
  r ∈ es_chains s → safe (chain_of resources labels r) (ChainOf r).
Proof.
  intros Hr. destruct (item_tags _ (chain_item_in _ Hr)) as (stem & Hs & E & El).
  destruct (co_lookup _ _ _ _ (ex_chains _ _ HE) _ Hr) as [Hl Ht].
  destruct (as_chain_some r) as (c & Ec & Hc); [by eapply (rmp_solid _ HR)|done|].
  unfold chain_of, label_at. cbv zeta.
  change (chainMaterial _ _) with (li_key (chain_item r)). rewrite El, Ec, E. simpl.
  eapply safe_mono; [by apply chain_instance_safe|]. intros i (E1 & E2 & E3 & Hok).
  split_and!; [done| |done|]; unfold chain_tags; rewrite E1, E2; [exact E|].
  repeat constructor; apply base_tag_intro; try done; try (right; by left); set_solver.
Qed.

(** All the base tags are distinct. *)
Lemma base_tags_NoDup inds chains :
  Forall2 IndependentOf (es_independents s) inds → Forall2 ChainOf (es_chains s) chains →
  NoDup (outbound_tag_list inds chains ++ (ptag <$> es_policies s)).
Proof.
  intros Hi Hc. pose proof (lb_tags _ _ HL) as Hnd.
  assert (E : mjoin (tags_at labels <$> es_items s) ≡ₚ
              outbound_tag_list inds chains ++ (ptag <$> es_policies s)); [|by rewrite <-E].
  rewrite (ex_items _ _ HE), !fmap_app, !join_app. unfold outbound_tag_list. rewrite <-app_assoc.
  apply Permutation_app; [|apply Permutation_app].
  - clear -Hi. induction Hi as [|r o rs os [_ [E _]] _ IH]; csimpl; [done|]. rewrite E. simpl.
    by constructor.
  - clear -Hc. induction Hc as [|r o rs os [_ [E _]] _ IH]; csimpl; [done|]. rewrite E. simpl.
    by repeat constructor.
  - assert (H : ∀ r, r ∈ es_policies s → tags_at labels (policy_item r) = [ptag r])
      by (intros; by apply ptag_spec).
    revert H. generalize (es_policies s) as l. clear. induction l as [|r l IH]; intros H; csimpl; [done|].
    rewrite H by set_solver. simpl. constructor. apply IH. intros. apply H. set_solver.
Qed.

Lemma base_tags_shape inds chains t :
  Forall2 IndependentOf (es_independents s) inds → Forall2 ChainOf (es_chains s) chains →
  t ∈ outbound_tag_list inds chains → base_tag t.
Proof.
  intros Hi Hc Ht%outbound_tag_list_elem.
  destruct Ht as [(o & Ho & <-)|(c & Hin & Ht)].
  - apply list_elem_of_lookup in Ho as [k Hk].
    destruct (Forall2_lookup_r _ _ _ _ _ Hi Hk) as (r & _ & _ & _ & _ & H). done.
  - apply list_elem_of_lookup in Hin as [k Hk].
    destruct (Forall2_lookup_r _ _ _ _ _ Hc Hk) as (r & _ & _ & _ & _ & H).
    rewrite Forall_forall in H. apply H. unfold chain_tags. destruct Ht as [->| ->]; set_solver.
Qed.

(** ** The map from resources to tags *)

Lemma foldl_insert_sound {A} (k v : A → string) l (m : gmap string string) id t :
  foldl (λ m x, <[k x := v x]> m) m l !! id = Some t →
  m !! id = Some t ∨ ∃ x, x ∈ l ∧ k x = id ∧ v x = t.
Proof.
  revert m. induction l as [|x l IH]; intros m; simpl; [by left|].
  intros [[[<- <-]|[_ H]]%lookup_insert_Some|(y & Hy & H)]%IH; [right; exists x; set_solver|by left|].
  right. exists y. set_solver.
Qed.

Lemma foldl_insert_complete {A} (k v : A → string) l (m : gmap string string) id :
  is_Some (m !! id) ∨ id ∈ k <$> l → is_Some (foldl (λ m x, <[k x := v x]> m) m l !! id).
Proof.
  revert m. induction l as [|x l IH]; intros m; csimpl; [by intros [?|?%elem_of_nil]|].
  intros H. apply IH. rewrite lookup_insert_is_Some', elem_of_cons in *. naive_solver.
Qed.

(** [tag] stands for the resource [id]: it is the exit of an outbound, or a policy. *)
Definition Names (inds : list IndependentOutbound) (chains : list ChainInstance)
    (policies : list Resource) (tag : string) (id : ID) : Prop :=
  Exit inds chains tag id ∨ ∃ r, r ∈ policies ∧ rid r = id ∧ ptag r = tag.

Lemma policy_tag_safe r :
  r ∈ es_policies s → safe (policy_tag labels r) (λ t, t = ptag r).
Proof. intros Hr. destruct (ptag_spec _ Hr) as (_ & _ & E). unfold policy_tag. by rewrite E. Qed.

Lemma resource_tags_safe g policies :
  policies ≡ₚ es_policies s →
  safe (resource_tags g policies labels) (λ m,
    (∀ id t, m !! id = Some t → Names (g_Independents g) (g_Chains g) policies t id) ∧
    (∀ id, id ∈ (rid ∘ io_Resource <$> g_Independents g) ++ (ci_ResourceID <$> g_Chains g)
             ++ (rid <$> policies) → is_Some (m !! id)) ∧
    ∀ r, r ∈ policies → m !! rid r = Some (ptag r)).
Proof.
  intros Hp. unfold resource_tags. cbv zeta.
  set (m1 := foldl _ ∅ (g_Independents g)). set (m2 := foldl _ m1 (g_Chains g)).
  assert (Hsound : ∀ id t, m2 !! id = Some t → Exit (g_Independents g) (g_Chains g) t id).
  { intros id t H. apply (foldl_insert_sound ci_ResourceID ci_TagH2) in H as [H|(c & Hc & <- & <-)].
    - apply (foldl_insert_sound (rid ∘ io_Resource) io_Tag) in H as [H|(o & Ho & <- & <-)].
      + by rewrite lookup_empty in H.
      + left. by exists o.
    - right. by exists c. }
  assert (Hcomplete : ∀ id, id ∈ (rid ∘ io_Resource <$> g_Independents g) ++
            (ci_ResourceID <$> g_Chains g) → is_Some (m2 !! id)).
  { intros id [H|H]%elem_of_app; apply (foldl_insert_complete ci_ResourceID ci_TagH2); [left|by right].
    apply (foldl_insert_complete (rid ∘ io_Resource) io_Tag). by right. }
  assert (Hnd : NoDup (rid <$> policies)).
  { rewrite Hp. apply (co_nodup _ _ _ _ (ex_policies _ _ HE)). }
  eapply safe_mono.
  - apply (safe_fold_prefix _ (λ done m,
      (∀ id t, m !! id = Some t → Names (g_Independents g) (g_Chains g) policies t id) ∧
      (∀ id, is_Some (m2 !! id) ∨ id ∈ rid <$> done → is_Some (m !! id)) ∧
      ∀ r, r ∈ done → m !! rid r = Some (ptag r))).
    + split_and!; [intros id t H; left; by apply Hsound|by intros id [?|?%elem_of_nil]|].
      by intros r ?%elem_of_nil.
    + intros done x rest m Hl (H1 & H2 & H3).
      assert (Hx : x ∈ policies) by (rewrite Hl; set_solver).
      eapply safe_bind; [apply policy_tag_safe; by rewrite <-Hp|]. intros t ->. simpl. split_and!.
      * intros id t [[<- <-]|[_ H]]%lookup_insert_Some; [right; by exists x|by apply H1].
      * intros id. rewrite lookup_insert_is_Some', fmap_app, elem_of_app. csimpl.
        rewrite list_elem_of_singleton. intros [H|[H| ->]]; [right|right|by left]; apply H2; auto.
      * intros r [Hr| ->%list_elem_of_singleton]%elem_of_app; [|by rewrite lookup_insert_eq].
        rewrite lookup_insert_ne; [by apply H3|]. intros E.
        rewrite Hl, fmap_app in Hnd. apply NoDup_app in Hnd as (_ & Hd & _).
        apply (Hd (rid r)); [by apply list_elem_of_fmap_2|]. csimpl. rewrite E. set_solver.
  - simpl. intros m (H1 & H2 & H3). split_and!; [done| |done].
    intros id. rewrite app_assoc, elem_of_app. intros [H|H]; apply H2; [left; by apply Hcomplete|by right].
Qed.

(** ** The policy loop *)

(** A policy instance is its group's, under the group's tag. *)
Definition PolicyOf (controlled : bool) (inds : list IndependentOutbound)
    (chains : list ChainInstance) (r : Resource) (p : PolicyInstance) : Prop :=
  ∃ g, r_Payload r = Payload_PolicyGroup g ∧ pi_Tag p = ptag r ∧ pi_ResourceID p = rid r ∧
    pi_Strategy p = pg_Strategy g ∧ pi_Health p = pg_HealthCheck g ∧
    check_policy target controlled (rid r) g = None ∧ PolicyMembers inds chains g p.

Definition member_weight (r : Resource) : nat :=
  match r_Payload r with
  | Payload_PolicyGroup g => sum_list_with outbounds_of (pg_Members g)
  | _ => 0
  end.

Record PolicyInv (controlled : bool) (done : list Resource) (ps : policy_state) : Prop := {
  pv_nodup : NoDup (outbound_tag_list (ps_independents ps) (ps_chains ps));
  pv_shape : ∀ t, t ∈ outbound_tag_list (ps_independents ps) (ps_chains ps) →
    ∃ r, r ∈ done ∧ member_tag (ptag r) t;
  pv_policies : Forall2 (PolicyOf controlled (ps_independents ps) (ps_chains ps)) done
    (ps_policies ps);
  pv_count : (length (ps_independents ps) + 2 * length (ps_chains ps) =
              sum_list_with member_weight done)%nat;
  pv_nodes : Forall (NodeOk resources) (ps_independents ps);
  pv_chains : Forall (ChainOk resources) (ps_chains ps) }.

Lemma policy_tags_eq controlled inds chains rs ps :
  Forall2 (PolicyOf controlled inds chains) rs ps → pi_Tag <$> ps = ptag <$> rs.
Proof.
  induction 1 as [|r p rs ps (g & _ & E & _) _ IH]; [done|]. by rewrite !fmap_cons, E, IH.
Qed.

Lemma ptag_inj r r' :
  NoDup (ptag <$> es_policies s) → r ∈ es_policies s → r' ∈ es_policies s →
  ptag r = ptag r' → r = r'.
Proof. apply NoDup_key_inj. Qed.

Lemma policy_payload r :
  r ∈ es_policies s → ∃ g, as_group (r_Payload r) = Some g ∧ r_Payload r = Payload_PolicyGroup g.
Proof.
  intros Hr. destruct (co_lookup _ _ _ _ (ex_policies _ _ HE) _ Hr) as [Hl Ht].
  pose proof (rmp_solid _ HR _ _ Hl). destruct (r_Payload r); try done. eauto.
Qed.

Lemma add_policy_safe controlled tags done x ps :
  NoDup (ptag <$> es_policies s) → x ∈ es_policies s → (∀ r, r ∈ done → r ∈ es_policies s) →
  x ∉ done → tags !! rid x = Some (ptag x) → PolicyInv controlled done ps →
  safe (add_policy target resources controlled tags x ps) (PolicyInv controlled (done ++ [x])).
Proof.
  intros Hnd Hx Hdone Hnew Htag [Hn Hsh Hp Hc Hno Hch].
  destruct (policy_payload _ Hx) as (g & Eg & Hg). unfold add_policy. rewrite Eg. simpl.
  destruct (co_lookup _ _ _ _ (ex_policies _ _ HE) _ Hx) as [Hl _].
  destruct (rmp_group _ HR _ _ _ Hl Hg) as (_ & _ & Hdef).
  destruct (check_policy target controlled (rid x) g) eqn:Echeck; simpl; [done|].
  rewrite Htag. simpl. destruct (ptag_spec _ Hx) as (_ & HT & _).
  eapply safe_bind; [apply policy_members_safe; [done..|by eapply group_members_ok]|].
  intros ms Hms. simpl.
  assert (Hfresh : ∀ t, t ∈ outbound_tag_list (ps_independents ps) (ps_chains ps) →
            t ∉ outbound_tag_list (ms_independents ms) (ms_chains ms)).
  { intros t (r & Hr & k & Ht)%Hsh Hin. apply (mi_shape _ _ _ _ Hms) in Hin as (k' & _ & Ht').
    destruct (ptag_spec _ (Hdone _ Hr)) as (_ & HT' & _).
    destruct (member_tag_at_inj _ _ _ _ _ HT' HT Ht Ht') as [E _].
    apply Hnew. by rewrite <-(ptag_inj r x Hnd (Hdone _ Hr) Hx E). }
  split; simpl.
  - rewrite outbound_tag_list_app. apply NoDup_app. split_and!; [done..|apply Hms].
  - intros t. rewrite outbound_tag_list_app, elem_of_app. intros [H|H].
    + destruct (Hsh _ H) as (r & Hr & Ht). exists r. set_solver.
    + destruct (mi_shape _ _ _ _ Hms _ H) as (k & _ & Ht). exists x. split; [set_solver|by exists k].
  - apply Forall2_app.
    + eapply Forall2_impl; [exact Hp|]. intros r p (g' & H1 & H2 & H3 & H4 & H5 & H6 & H7).
      exists g'. split_and!; try done. eapply PolicyMembers_mono, H7; set_solver.
    + constructor; [|constructor]. exists g. split_and!; try done.
      eapply PolicyMembers_mono; [| |by eapply policy_instance_members]; set_solver.
  - rewrite !length_app, sum_list_with_app. simpl. unfold member_weight at 2. rewrite Hg.
    pose proof (mi_count _ _ _ _ Hms). lia.
  - apply Forall_app. split; [done|apply Hms].
  - apply Forall_app. split; [done|apply Hms].
Qed.

Lemma policies_safe controlled tags policies :
  NoDup (ptag <$> es_policies s) → policies ≡ₚ es_policies s →
  (∀ r, r ∈ policies → tags !! rid r = Some (ptag r)) →
  safe (range_fold (λ _ r ps, add_policy target resources controlled tags r ps) policies
          {| ps_independents := []; ps_chains := []; ps_policies := [] |})
    (PolicyInv controlled policies).
Proof.
  intros Hnd Hp Htags. apply (safe_fold_prefix _ (PolicyInv controlled)).
  - split; simpl; try done; try constructor. by intros ? ?%elem_of_nil.
  - intros done x rest ps Hl HI.
    assert (Hx : x ∈ policies) by (rewrite Hl; set_solver).
    apply add_policy_safe; try done.
    + by rewrite <-Hp.
    + intros r Hr. rewrite <-Hp, Hl. set_solver.
    + intros Hin. assert (Hnd' : NoDup (rid <$> policies)).
      { rewrite Hp. apply (co_nodup _ _ _ _ (ex_policies _ _ HE)). }
      rewrite Hl, fmap_app in Hnd'. apply NoDup_app in Hnd' as (_ & Hd & _).
      apply (Hd (rid x)); [by apply list_elem_of_fmap_2|]. csimpl. set_solver.
    + by apply Htags.
Qed.

(** ** Rules *)

Lemma try_rule_set_safe id :
  safe (E:=Diagnostics) (try_rule_set (r_Payload (resource_at resources id))) (λ _, True).
Proof.
  unfold resource_at. destruct (resources !! id) as [r|] eqn:Er; [|done]. simpl.
  pose proof (rmp_solid _ HR _ _ Er). by destruct (r_Payload r).
Qed.

Lemma try_preset_safe id :
  safe (E:=Diagnostics) (try_preset (r_Payload (resource_at resources id))) (λ _, True).
Proof.
  unfold resource_at. destruct (resources !! id) as [r|] eqn:Er; [|done]. simpl.
  pose proof (rmp_solid _ HR _ _ Er). by destruct (r_Payload r).
Qed.

Lemma rule_set_terms_safe dns ids : safe (rule_set_terms resources dns ids) (λ _, True).
Proof.
  apply (safe_fold _ (λ _ _, True)); [done|]. intros i id terms _ _.
  eapply safe_bind; [apply try_rule_set_safe|]. intros [rules|] _; [|done].
  apply (safe_fold _ (λ _ _, True)); [done|]. intros j entry t _ _.
  unfold entry_condition. destruct (_ =s _); [done|]. by destruct dns.
Qed.

Lemma routeCondition_safe m dns : safe (routeCondition m resources dns) (λ _, True).
Proof.
  unfold routeCondition. cbv zeta.
  apply (safe_bind _ _ (λ _, True)).
  - destruct (rm_RuleSetIDs m); [done|]. eapply safe_bind; [apply rule_set_terms_safe|done].
  - intros sets _. by destruct (_ ++ sets) as [|? [|? ?]].
Qed.

Lemma checkRuleLimit_safe m path id st :
  safe (checkRuleLimit target resources m path id st) (λ st',
    rs_count st < rs_count st' ∧ rs_count st' ≤ MaxRules ∧
    rs_sets st' = rs_sets st ++ (rule_set_ref resources <$> rm_RuleSetIDs m)).
Proof.
  unfold checkRuleLimit. cbv zeta. eapply (safe_bind _ _ (λ _, True)).
  - apply (safe_fold _ (λ _ _, True)); [done|]. intros i setID count _ _.
    eapply safe_bind; [apply try_rule_set_safe|]. by intros [set|] _.
  - intros count _. simpl. destruct (Z.ltb_spec MaxRules (rs_count st + Z.max 1 count)); simpl; [done|].
    split_and!; [lia|lia|done].
Qed.

(** The rule emitted for one enabled rule. *)
Definition RuleOf (dns : bool) (m : RouteMatch) (to : string) (ru : RouteRule) : Prop :=
  routeCondition m resources dns = Ret (ru_Condition ru) ∧ ru_Target ru = to.

(** The loop over the rules of a profile: [enabled], [match_of] and [to] read one. *)
Record RulesInv {A} (dns : bool) (enabled : A → bool) (match_of : A → RouteMatch) (to : A → string)
    (st : rule_state) (done : list A) (acc : list RouteRule * rule_state) : Prop := {
  rv_rules : Forall2 (λ x, RuleOf dns (match_of x) (to x)) (filter (λ x, enabled x = true) done) acc.1;
  rv_count : rs_count st + Z.of_nat (length acc.1) ≤ rs_count acc.2;
  rv_limit : rs_count acc.2 ≤ MaxRules;
  rv_sets : rs_sets acc.2 = rs_sets st ++
    mjoin ((λ x, rule_set_ref resources <$> rm_RuleSetIDs (match_of x))
             <$> filter (λ x, enabled x = true) done) }.

Lemma rules_safe {A} dns (enabled : A → bool) match_of to id st l :
  rs_count st ≤ MaxRules →
  safe (range_fold (λ i x acc,
          if enabled x then add_rule target resources dns (match_of x) (to x) i id acc else Ret acc)
          l ([], st))
    (RulesInv dns enabled match_of to st l).
Proof.
  intros Hst. apply (safe_fold_prefix _ (RulesInv dns enabled match_of to st)).
  { split; simpl; [constructor|lia|done|by rewrite app_nil_r]. }
  intros done x rest acc _ [H1 H2 H3 H4]. destruct (enabled x) eqn:Een.
  2: { simpl. split; try done; rewrite filter_app, filter_cons_False, filter_nil, app_nil_r by congruence; done. }
  unfold add_rule. cbv zeta. eapply safe_bind; [apply checkRuleLimit_safe|].
  intros st' (Hlt & Hle & Hsets). pose proof (routeCondition_safe (match_of x) dns) as Hsafe.
  destruct (routeCondition (match_of x) resources dns) as [c|e|] eqn:Ec; [|done|done]. simpl.
  split; simpl; [| |done|]; rewrite ?filter_app, ?filter_cons_True, ?filter_nil by done.
  - apply Forall2_app; [done|]. constructor; [|constructor]. split; [exact Ec|done].
  - rewrite length_app. simpl. lia.
  - rewrite fmap_app, join_app, app_assoc, <-H4, Hsets. csimpl. by rewrite app_nil_r.
Qed.

Lemma routing_input_safe tags r profile st :
  rs_count st ≤ MaxRules →
  safe (routing_input target resources tags r profile st) (λ out,
    ri_ResourceID out.1 = rid r ∧ ri_Mode out.1 = rp_DomainResolutionMode profile ∧
    RulesInv false rr_Enabled rr_Match (λ rule, resolve tags (rr_Action rule)) st (rp_Rules profile)
      (ri_Rules out.1, out.2)).
Proof.
  intros Hst. unfold routing_input.
  eapply safe_bind; [by apply (rules_safe false rr_Enabled rr_Match (λ rule, resolve tags (rr_Action rule)))|].
  intros [rules st'] H. simpl. done.
Qed.

(** ** DNS *)

(** [OutboundTags] holds the resolved outbound of every resolver that has one, and a
    UDP resolver's is direct. *)
Definition DNSOut (tags : gmap string string) (profile : DNSProfile) (done : list DNSResolver)
    (out : gmap string string) : Prop :=
  (∀ k t, out !! k = Some t → ∃ resolver ref, resolver ∈ done ∧ dr_ResolverID resolver = k ∧
     dr_Outbound resolver = Some ref ∧ t = resolve tags ref ∧
     (dr_Kind resolver = DNSUDP → t = "direct")) ∧
  ∀ resolver, resolver ∈ done → is_Some (dr_Outbound resolver) →
    is_Some (out !! dr_ResolverID resolver).

Lemma outbound_tags_safe tags r profile :
  safe (outbound_tags target tags r profile) (DNSOut tags profile (dp_Resolvers profile)).
Proof.
  apply (safe_fold_prefix _ (DNSOut tags profile)).
  { split; [by intros k t|]. by intros ? ?%elem_of_nil. }
  intros done x rest out _ [H1 H2]. destruct (dr_Outbound x) as [ref|] eqn:Eo; cbv zeta.
  - destruct ((dr_Kind x =s DNSUDP) && negb (resolve tags ref =s "direct")) eqn:Ek; [done|]. simpl. split.
    + intros k t [[<- <-]|[_ H]]%lookup_insert_Some.
      * exists x, ref. split_and!; try done; [set_solver|]. intros Eu. rewrite Eu in Ek. simpl in Ek.
        rewrite negb_false_iff, String.eqb_eq in Ek. done.
      * destruct (H1 _ _ H) as (y & ref' & Hy & ?). exists y, ref'. set_solver.
    + intros y [Hy| ->%list_elem_of_singleton]%elem_of_app Hs; rewrite lookup_insert_is_Some'; auto.
  - simpl. split.
    + intros k t H. destruct (H1 _ _ H) as (y & ref' & Hy & ?). exists y, ref'. set_solver.
    + intros y [Hy| ->%list_elem_of_singleton]%elem_of_app Hs; [auto|]. rewrite Eo in Hs. by destruct Hs.
Qed.

Lemma dns_input_safe tags r profile st :
  rs_count st ≤ MaxRules →
  safe (dns_input target resources tags r profile st) (λ out,
    di_ResourceID out.1 = rid r ∧ di_Profile out.1 = profile ∧
    DNSOut tags profile (dp_Resolvers profile) (di_OutboundTags out.1) ∧
    RulesInv true dru_Enabled (λ rule, dns_route_match (dru_Match rule)) dru_ResolverID st
      (dp_Rules profile) (di_Rules out.1, out.2)).
Proof.
  intros Hst. unfold dns_input. eapply safe_bind; [apply outbound_tags_safe|]. intros out Hout.
  eapply safe_bind.
  { by apply (rules_safe true dru_Enabled (λ rule, dns_route_match (dru_Match rule)) dru_ResolverID). }
  intros [rules st'] H. simpl. done.
Qed.

Lemma check_preset_safe routing dns policies :
  safe (check_preset target resources routing dns policies) (λ preset,
    match preset with
    | Some p => ∃ r, resources !! t_ClientPresetID target = Some r ∧
        r_Payload r = Payload_ClientPreset p ∧
        md_Revision (r_Metadata r) = t_ClientPresetRevision target ∧
        cp_CoreFamily p = t_CoreFamily target ∧ cp_Format p = t_Format target ∧
        routing ≠ None ∧ dns ≠ None
    | None => resources !! t_ClientPresetID target = None ∧ routing = None ∧ dns = None ∧ policies = []
    end).
Proof.
  unfold check_preset. cbv zeta.
  destruct (resources !! t_ClientPresetID target) as [r|] eqn:Er.
  2: { destruct routing, dns, policies; simpl; done. }
  destruct (r_Payload r) as [|v| | | | | | | |p] eqn:Ep; simpl; try done.
  - pose proof (rmp_solid _ HR _ _ Er) as H. by rewrite Ep in H.
  - destruct (Z.eqb_spec (md_Revision (r_Metadata r)) (t_ClientPresetRevision target)); simpl; [|done].
    destruct (String.eqb_spec (cp_CoreFamily p) (t_CoreFamily target)); simpl; [|done].
    destruct (String.eqb_spec (cp_Format p) (t_Format target)); simpl; [|done].
    do 2 (case_bool_decide; [done|]). simpl. by exists r.
Qed.

(** ** The orchestrated graph *)

(** [tag] stands for the resource [id] in the graph. *)
Definition GNames (g : Graph) (tag : string) (id : ID) : Prop :=
  Exit (g_Independents g) (g_Chains g) tag id ∨
  ∃ p, p ∈ g_Policies g ∧ pi_Tag p = tag ∧ pi_ResourceID p = id.

(** [tag] is what a target reference compiles to. *)
Definition Stands (g : Graph) (ref : TargetRef) (tag : string) : Prop :=
  if tr_Type ref =s BuiltinRef
  then tag = if tr_Builtin ref =s Direct then "direct" else BlockTag
  else GNames g tag (tr_ResourceID ref).

Definition AllTags (g : Graph) : list string :=
  outbound_tag_list (g_Independents g) (g_Chains g) ++ (pi_Tag <$> g_Policies g).

Definition PolicyOk (g : Graph) (p : PolicyInstance) : Prop :=
  ∃ r group controlled, resources !! pi_ResourceID p = Some r ∧
    r_Payload r = Payload_PolicyGroup group ∧ pi_Strategy p = pg_Strategy group ∧
    pi_Health p = pg_HealthCheck group ∧
    check_policy target controlled (pi_ResourceID p) group = None ∧
    PolicyMembers (g_Independents g) (g_Chains g) group p.

(** The routing input is the profile's enabled rules in order, each with its
    condition and the tag of its action, and the tag of the final target. *)
Definition RoutingOk (spec : FrozenInputSpec) (g : Graph) : Prop :=
  match fs_RoutingProfile spec, g_Routing g with
  | None, None => g_FinalTag g = ""
  | Some ref, Some ri =>
      ∃ r p, resources !! fr_ResourceID ref = Some r ∧ r_Payload r = Payload_RoutingProfile p ∧
        ri_ResourceID ri = fr_ResourceID ref ∧ ri_Mode ri = rp_DomainResolutionMode p ∧
        Stands g (rp_Final p) (g_FinalTag g) ∧
        Forall2 (λ rule ru, routeCondition (rr_Match rule) resources false = Ret (ru_Condition ru) ∧
                            Stands g (rr_Action rule) (ru_Target ru))
          (filter (λ rule, rr_Enabled rule = true) (rp_Rules p)) (ri_Rules ri)
  | _, _ => False
  end.

Definition DNSOk (spec : FrozenInputSpec) (g : Graph) : Prop :=
  match fs_DNSProfile spec, g_DNS g with
  | None, None => True
  | Some ref, Some di =>
      ∃ r p, resources !! fr_ResourceID ref = Some r ∧ r_Payload r = Payload_DNSProfile p ∧
        di_ResourceID di = fr_ResourceID ref ∧ di_Profile di = p ∧
        (∀ k t, di_OutboundTags di !! k = Some t → ∃ resolver o, resolver ∈ dp_Resolvers p ∧
           dr_ResolverID resolver = k ∧ dr_Outbound resolver = Some o ∧ Stands g o t ∧
           (dr_Kind resolver = DNSUDP → t = "direct")) ∧
        (∀ resolver, resolver ∈ dp_Resolvers p → is_Some (dr_Outbound resolver) →
           is_Some (di_OutboundTags di !! dr_ResolverID resolver)) ∧
        Forall2 (λ rule ru, routeCondition (dns_route_match (dru_Match rule)) resources true
                              = Ret (ru_Condition ru) ∧ ru_Target ru = dru_ResolverID rule)
          (filter (λ rule, dru_Enabled rule = true) (dp_Rules p)) (di_Rules di)
  | _, _ => False
  end.

Definition rule_count (g : Graph) : Z :=
  Z.of_nat (length match g_Routing g with Some r => ri_Rules r | None => [] end) +
  Z.of_nat (length match g_DNS g with Some d => di_Rules d | None => [] end).

Definition PresetOk (g : Graph) : Prop :=
  match g_Preset g with
  | Some p => ∃ r, resources !! t_ClientPresetID target = Some r ∧
      r_Payload r = Payload_ClientPreset p ∧
      md_Revision (r_Metadata r) = t_ClientPresetRevision target ∧
      cp_CoreFamily p = t_CoreFamily target ∧ cp_Format p = t_Format target ∧
      g_Routing g ≠ None ∧ g_DNS g ≠ None
  | None => g_Routing g = None ∧ g_DNS g = None ∧ g_Policies g = []
  end.

Record Orchestrated (spec : FrozenInputSpec) (count : Z) (g : Graph) : Prop := {
  or_tags : NoDup (AllTags g);
  or_shape : Forall (λ t, base_tag t ∨ ∃ T, group_tag T ∧ member_tag T t) (AllTags g);
  or_count : Z.of_nat (length (g_Independents g)) + 2 * Z.of_nat (length (g_Chains g)) = count;
  or_nodes : Forall (NodeOk resources) (g_Independents g);
  or_chains : Forall (ChainOk resources) (g_Chains g);
  or_policies : Forall (PolicyOk g) (g_Policies g);
  or_listed : ∀ id, Listed s id → ∃ tag, GNames g tag id;
  or_routing : RoutingOk spec g;
  or_dns : DNSOk spec g;
  or_rules : rule_count g ≤ MaxRules;
  or_preset : PresetOk g;
  or_sets : Sorted string_le (fr_ResourceID <$> g_RuleSets g) ∧
            no_stutter (fr_ResourceID <$> g_RuleSets g) }.

(** ** prepareOrchestration *)

Lemma outbound_tag_list_perm inds inds' chains chains' :
  inds ≡ₚ inds' → chains ≡ₚ chains' →
  outbound_tag_list inds chains ≡ₚ outbound_tag_list inds' chains'.
Proof. intros Hi Hc. unfold outbound_tag_list. by rewrite Hi, Hc. Qed.

(** The base outbounds with those of the policies. *)
Lemma orchestrated_tags controlled inds chains policies ps :
  Forall2 IndependentOf (es_independents s) inds → Forall2 ChainOf (es_chains s) chains →
  policies ≡ₚ es_policies s → PolicyInv controlled policies ps →
  NoDup ((outbound_tag_list inds chains
          ++ outbound_tag_list (ps_independents ps) (ps_chains ps)) ++ (ptag <$> policies)) ∧
  Forall (λ t, base_tag t ∨ ∃ T, group_tag T ∧ member_tag T t)
    ((outbound_tag_list inds chains
      ++ outbound_tag_list (ps_independents ps) (ps_chains ps)) ++ (ptag <$> policies)).
Proof.
  intros Hi Hc Hp [Hn Hsh _ _ _ _].
  assert (Hbase : ∀ t, t ∈ outbound_tag_list inds chains ++ (ptag <$> policies) → base_tag t).
  { intros t [H|(r & -> & Hr)%list_elem_of_fmap]%elem_of_app; [by eapply base_tags_shape|].
    rewrite Hp in Hr. destruct (ptag_spec _ Hr) as (_ & (stem & Hst & ->) & _).
    apply base_tag_intro; [by right; right|set_solver|done]. }
  assert (Hmem : ∀ t, t ∈ outbound_tag_list (ps_independents ps) (ps_chains ps) →
            ∃ T, group_tag T ∧ member_tag T t).
  { intros t (r & Hr & Ht)%Hsh. exists (ptag r). split; [|done].
    rewrite Hp in Hr. by apply ptag_spec. }
  split.
  - rewrite <-app_assoc, (Permutation_app_comm (outbound_tag_list (ps_independents ps) _)), app_assoc.
    apply NoDup_app. split_and!; [rewrite Hp; by apply base_tags_NoDup| |done].
    intros t Ht (T & HT & Hin)%Hmem. by eapply base_member_ne; [by apply Hbase| | |].
  - rewrite Forall_forall. intros t. rewrite <-app_assoc, elem_of_app, elem_of_app.
    intros [H|[H|H]]; [left|right|left]; [|by apply Hmem|]; apply Hbase, elem_of_app; auto.
Qed.

Lemma resolve_stands g tags ref :
  (∀ id t, tags !! id = Some t → GNames g t id) →
  (∀ id, Listed s id → is_Some (tags !! id)) →
  (tr_Type ref = ResourceRef ∨ tr_Type ref = BuiltinRef) →
  (tr_Type ref = ResourceRef → Listed s (tr_ResourceID ref)) → Stands g ref (resolve tags ref).
Proof.
  intros Hn Hl Ht Hr. unfold Stands, resolve.
  destruct (String.eqb_spec (tr_Type ref) BuiltinRef); [done|]. destruct Ht as [Ht|]; [|done].
  destruct (Hl _ (Hr Ht)) as [t E]. rewrite E. simpl. by apply Hn.
Qed.

(** What the snapshot guarantees about the profiles it names. *)
Definition RefsListed (refs : list TargetRef) : Prop :=
  Forall (λ ref, (tr_Type ref = ResourceRef ∨ tr_Type ref = BuiltinRef) ∧
                 (tr_Type ref = ResourceRef → Listed s (tr_ResourceID ref))) refs.

Record ProfilesOk (spec : FrozenInputSpec) : Prop := {
  po_routing : ∀ ref, fs_RoutingProfile spec = Some ref → ∃ r p,
    resources !! fr_ResourceID ref = Some r ∧ r_Payload r = Payload_RoutingProfile p ∧
    RefsListed (rp_Final p :: (rr_Action <$> rp_Rules p));
  po_dns : ∀ ref, fs_DNSProfile spec = Some ref → ∃ r p,
    resources !! fr_ResourceID ref = Some r ∧ r_Payload r = Payload_DNSProfile p ∧
    RefsListed (omap dr_Outbound (dp_Resolvers p)) }.

(** The two profile steps, before the graph that their tags name exists. *)
Definition Routed (spec : FrozenInputSpec) (tags : gmap string string)
    (out : string * option RoutingInput * rule_state) : Prop :=
  let '(final, routing, st) := out in
  rs_count st ≤ MaxRules ∧
  Z.of_nat (length match routing with Some r => ri_Rules r | None => [] end) ≤ rs_count st ∧
  match fs_RoutingProfile spec, routing with
  | None, None => final = ""
  | Some ref, Some ri => ∃ r p, resources !! fr_ResourceID ref = Some r ∧
      r_Payload r = Payload_RoutingProfile p ∧ RefsListed (rp_Final p :: (rr_Action <$> rp_Rules p)) ∧
      ri_ResourceID ri = fr_ResourceID ref ∧ ri_Mode ri = rp_DomainResolutionMode p ∧
      final = resolve tags (rp_Final p) ∧
      Forall2 (λ rule, RuleOf false (rr_Match rule) (resolve tags (rr_Action rule)))
        (filter (λ rule, rr_Enabled rule = true) (rp_Rules p)) (ri_Rules ri)
  | _, _ => False
  end.

Definition routing_step (spec : FrozenInputSpec) (tags : gmap string string)
    : outcome Diagnostics (string * option RoutingInput * rule_state) :=
  match fs_RoutingProfile spec with
  | None => Ret ("", None, {| rs_count := 0; rs_sets := [] |})
  | Some ref =>
      let r := resource_at resources (fr_ResourceID ref) in
      let! profile := must (as_routing (r_Payload r)) in
      let! out := routing_input target resources tags r profile {| rs_count := 0; rs_sets := [] |} in
      Ret (resolve tags (rp_Final profile), Some out.1, out.2)
  end.

Lemma routing_step_safe spec tags : ProfilesOk spec → safe (routing_step spec tags) (Routed spec tags).
Proof.
  intros [Hr _]. unfold routing_step, Routed.
  destruct (fs_RoutingProfile spec) as [ref|]; [|simpl; unfold MaxRules; split_and!; done].
  destruct (Hr _ eq_refl) as (r & p & El & Ep & Hrefs). unfold resource_at. rewrite El. simpl.
  rewrite Ep. simpl. eapply safe_bind; [apply routing_input_safe; done|].
  intros [ri st] (E1 & E2 & [H1 H2 H3 _]). simpl in *. split_and!; [done|lia|].
  exists r, p. split_and!; try done. rewrite E1. by apply (rmp_key _ HR).
Qed.

Definition Resolved_dns (spec : FrozenInputSpec) (tags : gmap string string) (st0 : rule_state)
    (out : option DNSInput * rule_state) : Prop :=
  rs_count out.2 ≤ MaxRules ∧
  rs_count st0 + Z.of_nat (length match out.1 with Some d => di_Rules d | None => [] end)
    ≤ rs_count out.2 ∧
  match fs_DNSProfile spec, out.1 with
  | None, None => True
  | Some ref, Some di => ∃ r p, resources !! fr_ResourceID ref = Some r ∧
      r_Payload r = Payload_DNSProfile p ∧ RefsListed (omap dr_Outbound (dp_Resolvers p)) ∧
      di_ResourceID di = fr_ResourceID ref ∧ di_Profile di = p ∧
      DNSOut tags p (dp_Resolvers p) (di_OutboundTags di) ∧
      Forall2 (λ rule, RuleOf true (dns_route_match (dru_Match rule)) (dru_ResolverID rule))
        (filter (λ rule, dru_Enabled rule = true) (dp_Rules p)) (di_Rules di)
  | _, _ => False
  end.

Definition dns_step (spec : FrozenInputSpec) (tags : gmap string string) (st : rule_state)
    : outcome Diagnostics (option DNSInput * rule_state) :=
  match fs_DNSProfile spec with
  | None => Ret (None, st)
  | Some ref =>
      let r := resource_at resources (fr_ResourceID ref) in
      let! profile := must (as_dns (r_Payload r)) in
      let! out := dns_input target resources tags r profile st in
      Ret (Some out.1, out.2)
  end.

Lemma dns_step_safe spec tags st :
  ProfilesOk spec → rs_count st ≤ MaxRules →
  safe (dns_step spec tags st) (Resolved_dns spec tags st).
Proof.
  intros [_ Hr] Hst. unfold dns_step, Resolved_dns.
  destruct (fs_DNSProfile spec) as [ref|]; [|simpl; split_and!; [done|lia|done]].
  destruct (Hr _ eq_refl) as (r & p & El & Ep & Hrefs). unfold resource_at. rewrite El. simpl.
  rewrite Ep. simpl. eapply safe_bind; [by apply dns_input_safe|].
  intros [di st'] (E1 & E2 & Hout & [H1 H2 H3 _]). simpl in *. split_and!; [done..|].
  exists r, p. split_and!; try done. rewrite E1. by apply (rmp_key _ HR).
Qed.

(** The graph that orchestration returns, from what its steps returned. *)
Section Orchestrate.
Context (spec : FrozenInputSpec) (HP : ProfilesOk spec).
Context (inds : list IndependentOutbound) (chains : list ChainInstance).
Context (Hi : Forall2 IndependentOf (es_independents s) inds).
Context (Hc : Forall2 ChainOf (es_chains s) chains).
Context (graph : Graph) (Htarget : g_Target graph = target).
Context (Hgi : g_Independents graph ≡ₚ inds) (Hgc : g_Chains graph ≡ₚ chains).

Definition base_count : Z :=
  Z.of_nat (length (es_independents s)) + 2 * Z.of_nat (length (es_chains s)) +
  Z.of_nat (sum_list_with member_weight (es_policies s)).

Context (policies : list Resource) (Hp : policies ≡ₚ es_policies s).
Context (tags : gmap string string).
Context (Hnames : ∀ id t, tags !! id = Some t →
  Names (g_Independents graph) (g_Chains graph) policies t id).
Context (Hall : ∀ id, id ∈ (rid ∘ io_Resource <$> g_Independents graph)
  ++ (ci_ResourceID <$> g_Chains graph) ++ (rid <$> policies) → is_Some (tags !! id)).
Context (controlled : bool) (ps : policy_state) (Hps : PolicyInv controlled policies ps).

Lemma listed_tag id : Listed s id → is_Some (tags !! id).
Proof.
  intros Hid. apply Hall. unfold Listed in Hid. rewrite !fmap_app, !elem_of_app in Hid.
  rewrite !elem_of_app. destruct Hid as [H|[H|H]]; [left|right; left|right; right].
  - apply list_elem_of_fmap in H as (r & -> & Hr). apply list_elem_of_lookup in Hr as [k Hk].
    destruct (Forall2_lookup_l _ _ _ _ _ Hi Hk) as (o & Ho & E & _).
    apply list_elem_of_fmap. exists o. unfold compose. rewrite E. split; [done|].
    rewrite Hgi. by eapply list_elem_of_lookup_2.
  - apply list_elem_of_fmap in H as (r & -> & Hr). apply list_elem_of_lookup in Hr as [k Hk].
    destruct (Forall2_lookup_l _ _ _ _ _ Hc Hk) as (c & Hcc & E & _).
    apply list_elem_of_fmap. exists c. split; [done|]. rewrite Hgc. by eapply list_elem_of_lookup_2.
  - by rewrite Hp.
Qed.

Definition sorted_policies : list PolicyInstance :=
  SortFunc (λ a b, compareString (pi_Tag a) (pi_Tag b)) (ps_policies ps).

Lemma sorted_policies_perm : sorted_policies ≡ₚ ps_policies ps.
Proof. apply (SortFunc_key_perm pi_Tag). Qed.

(** Any graph with these outbounds and policies gives every resource its tag. *)
Definition HasOutbounds (g : Graph) : Prop :=
  g_Independents g ≡ₚ g_Independents graph ++ ps_independents ps ∧
  g_Chains g ≡ₚ g_Chains graph ++ ps_chains ps ∧ g_Policies g ≡ₚ ps_policies ps.

Lemma tags_name g id t : HasOutbounds g → tags !! id = Some t → GNames g t id.
Proof.
  intros (E1 & E2 & E3) H. apply Hnames in H as [H|(r & Hr & <- & <-)].
  - left. eapply Exit_mono, H; intros x Hx; rewrite ?E1, ?E2; set_solver.
  - right. apply list_elem_of_lookup in Hr as [k Hk].
    destruct (Forall2_lookup_l _ _ _ _ _ (pv_policies _ _ _ Hps) Hk) as (p & Hpk & g' & H).
    exists p. split; [rewrite E3; by eapply list_elem_of_lookup_2|]. naive_solver.
Qed.

Lemma refs_stand g refs ref :
  HasOutbounds g → RefsListed refs → ref ∈ refs → Stands g ref (resolve tags ref).
Proof.
  intros Hg Hr Hin. unfold RefsListed in Hr. rewrite Forall_forall in Hr.
  destruct (Hr _ Hin) as [Ht Hl]. apply resolve_stands; [|apply listed_tag|done|done].
  intros id t. by apply tags_name.
Qed.

Lemma AllTags_perm g :
  HasOutbounds g →
  AllTags g ≡ₚ (outbound_tag_list inds chains
                ++ outbound_tag_list (ps_independents ps) (ps_chains ps)) ++ (ptag <$> policies).
Proof.
  intros (E1 & E2 & E3). unfold AllTags. apply Permutation_app.
  - rewrite (outbound_tag_list_perm _ _ _ _ E1 E2), outbound_tag_list_app.
    apply Permutation_app; [|done]. by apply outbound_tag_list_perm.
  - by rewrite E3, (policy_tags_eq _ _ _ _ _ (pv_policies _ _ _ Hps)).
Qed.

Lemma outbounds_count g :
  HasOutbounds g →
  Z.of_nat (length (g_Independents g)) + 2 * Z.of_nat (length (g_Chains g)) = base_count.
Proof.
  intros (E1 & E2 & _). rewrite E1, E2, !length_app, Hgi, Hgc.
  apply Forall2_length in Hi, Hc. rewrite <-Hi, <-Hc.
  pose proof (pv_count _ _ _ Hps) as Hcount. unfold base_count.
  assert (sum_list_with member_weight policies = sum_list_with member_weight (es_policies s)) as E.
  { by rewrite Hp. }
  lia.
Qed.

Lemma policies_ok g :
  HasOutbounds g → Forall (PolicyOk g) (g_Policies g).
Proof.
  intros (E1 & E2 & E3). rewrite Forall_forall. intros p Hin. rewrite E3 in Hin.
  apply list_elem_of_lookup in Hin as [k Hk].
  destruct (Forall2_lookup_r _ _ _ _ _ (pv_policies _ _ _ Hps) Hk)
    as (r & Hr & group & H1 & H2 & H3 & H4 & H5 & H6 & H7).
  apply list_elem_of_lookup_2 in Hr. rewrite Hp in Hr.
  destruct (co_lookup _ _ _ _ (ex_policies _ _ HE) _ Hr) as [Hl _].
  exists r, group, controlled. rewrite H3. split_and!; try done.
  eapply PolicyMembers_mono, H7; intros x Hx; rewrite ?E1, ?E2; set_solver.
Qed.

Lemma nodes_chains_ok g :
  HasOutbounds g → Forall (NodeOk resources) (g_Independents g) ∧ Forall (ChainOk resources) (g_Chains g).
Proof.
  intros (E1 & E2 & _). rewrite E1, E2, !Forall_app, Hgi, Hgc. split; split.
  - rewrite Forall_forall. intros o (k & Hk)%list_elem_of_lookup.
    by destruct (Forall2_lookup_r _ _ _ _ _ Hi Hk) as (r & _ & _ & _ & H & _).
  - apply (pv_nodes _ _ _ Hps).
  - rewrite Forall_forall. intros c (k & Hk)%list_elem_of_lookup.
    by destruct (Forall2_lookup_r _ _ _ _ _ Hc Hk) as (r & _ & _ & _ & H & _).
  - apply (pv_chains _ _ _ Hps).
Qed.

Lemma routing_ok g final routing st :
  HasOutbounds g → Routed spec tags (final, routing, st) → g_Routing g = routing →
  g_FinalTag g = final → RoutingOk spec g.
Proof.
  intros Hg (_ & _ & H) <- <-. unfold RoutingOk.
  destruct (fs_RoutingProfile spec) as [ref|], (g_Routing g) as [ri|]; try done.
  destruct H as (r & p & H1 & H2 & H3 & H4 & H5 & H6 & H7). exists r, p. split_and!; try done.
  - rewrite H6. eapply refs_stand; [done|exact H3|set_solver].
  - apply Forall2_same_length_lookup. apply Forall2_same_length_lookup in H7 as [Hlen H7].
    split; [done|]. intros i rule ru Hrule Hru. destruct (H7 _ _ _ Hrule Hru) as [Hcnd ->].
    split; [done|]. apply list_elem_of_lookup_2, list_elem_of_filter in Hrule as [_ Hrule].
    eapply refs_stand; [done|exact H3|]. apply elem_of_cons. right. by apply list_elem_of_fmap_2.
Qed.

Lemma dns_ok g st0 dns st :
  HasOutbounds g → Resolved_dns spec tags st0 (dns, st) → g_DNS g = dns → DNSOk spec g.
Proof.
  intros Hg (_ & _ & H) <-. unfold DNSOk. simpl in H.
  destruct (fs_DNSProfile spec) as [ref|], (g_DNS g) as [di|]; try done.
  destruct H as (r & p & H1 & H2 & H3 & H4 & H5 & [H6 H7] & H8). exists r, p. split_and!; try done.
  intros k t Hk. destruct (H6 _ _ Hk) as (resolver & o & Hin & Ek & Eo & -> & Hu).
  exists resolver, o. split_and!; try done. eapply refs_stand; [done|exact H3|].
  apply list_elem_of_omap. eauto.
Qed.
End Orchestrate.

Lemma sorted_sets (l : list FrozenRef) :
  let sets := CompactFunc (λ a b, fr_ResourceID a =s fr_ResourceID b)
      (SortFunc (λ a b, compareString (fr_ResourceID a) (fr_ResourceID b)) l) in
  Sorted string_le (fr_ResourceID <$> sets) ∧ no_stutter (fr_ResourceID <$> sets).
Proof.
  cbv zeta. rewrite SortFunc_key.
  assert (Hc : ∀ l : list FrozenRef, fr_ResourceID <$> CompactFunc (λ a b, fr_ResourceID a =s fr_ResourceID b) l
            = CompactFunc String.eqb (fr_ResourceID <$> l)).
  { intros [|x k]; [done|]. csimpl. f_equal. revert x. induction k as [|y k IH]; intros x; [done|].
    csimpl. destruct (fr_ResourceID x =s fr_ResourceID y) eqn:E; [|by rewrite fmap_cons, IH].
    apply String.eqb_eq in E. rewrite E. rewrite <-(IH y). clear IH.
    assert (∀ (a b : FrozenRef) k, fr_ResourceID a = fr_ResourceID b →
      compact_after (λ a b, fr_ResourceID a =s fr_ResourceID b) a k =
      compact_after (λ a b, fr_ResourceID a =s fr_ResourceID b) b k) as Hsame.
    { clear. intros a b k E. induction k as [|z k IH]; [done|]. simpl. by rewrite E, IH. }
    by rewrite (Hsame x y). }
  rewrite Hc. split.
  - destruct (isort (key_leb fr_ResourceID) l) as [|x k] eqn:E; [constructor|].
    csimpl. apply compact_after_sorted; [apply _|]. rewrite <-fmap_cons, <-E.
    pose proof (isort_sorted (key_leb fr_ResourceID) l) as Hs.
    clear -Hs. induction Hs as [|a l' _ IH Hhd]; csimpl; constructor; [done|].
    destruct Hhd; csimpl; by constructor.
  - apply CompactFunc_no_stutter. apply String.eqb_refl.
Qed.

Lemma prepareOrchestration_safe spec inds chains graph :
  ProfilesOk spec →
  Forall2 IndependentOf (es_independents s) inds → Forall2 ChainOf (es_chains s) chains →
  g_Target graph = target → g_Independents graph ≡ₚ inds → g_Chains graph ≡ₚ chains →
  safe (prepareOrchestration graph spec resources (es_policies s) labels)
    (λ g, Orchestrated spec base_count g ∧ g_Target g = target ∧ g_Build g = g_Build graph).
Proof.
  intros HP Hi Hc Htarget Hgi Hgc. unfold prepareOrchestration. cbv zeta. rewrite Htarget.
  set (policies := SortFunc _ (es_policies s)).
  assert (Hp : policies ≡ₚ es_policies s) by apply (SortFunc_key_perm rid).
  assert (Hnd : NoDup (ptag <$> es_policies s)).
  { pose proof (base_tags_NoDup _ _ Hi Hc) as H. by apply NoDup_app in H as (_ & _ & ?). }
  eapply safe_bind; [apply try_preset_safe|]. intros preset _. cbv zeta.
  set (controlled := match preset with Some p => _ | None => false end).
  eapply safe_bind; [by apply resource_tags_safe|]. intros tags (Hnames & Hall & Hself).
  eapply safe_bind; [by apply policies_safe|]. intros ps Hps. cbv zeta.
  change (match fs_RoutingProfile spec with Some _ => _ | None => _ end)
    with (routing_step spec tags).
  eapply safe_bind; [by apply routing_step_safe|]. intros [[final routing] st1] Hrouted.
  change (match fs_DNSProfile spec with Some _ => _ | None => _ end) with (dns_step spec tags st1).
  eapply safe_bind; [by apply dns_step_safe, Hrouted|]. intros [dns st2] Hdns.
  eapply safe_bind; [apply check_preset_safe|]. intros preset' Hpreset. simpl.
  match goal with |- Orchestrated _ _ ?x ∧ _ => set (g := x) end.
  assert (Hg : HasOutbounds graph ps g) by (split_and!; try done; apply sorted_policies_perm).
  destruct (nodes_chains_ok inds chains Hi Hc graph Hgi Hgc policies controlled ps Hps g Hg) as [Hno Hch].
  destruct (orchestrated_tags _ _ _ _ _ Hi Hc Hp Hps) as [Htn Hts].
  pose proof (AllTags_perm inds chains graph Hgi Hgc policies controlled ps Hps g Hg) as HA.
  split; [|done]. split; try done.
  - by rewrite HA.
  - by rewrite HA.
  - by eapply outbounds_count.
  - by eapply policies_ok.
  - intros id Hid.
    destruct (listed_tag inds chains Hi Hc graph Hgi Hgc policies Hp tags Hall id Hid) as [t Ht].
    exists t. by eapply tags_name.
  - by eapply routing_ok.
  - by eapply dns_ok.
  - destruct Hrouted as (_ & H1 & _), Hdns as (H2 & H3 & _). unfold rule_count. simpl in *. lia.
  - unfold PresetOk. subst g. simpl. destruct preset' as [p|]; [done|].
    destruct Hpreset as (_ & -> & -> & H). split_and!; [done..|].
    pose proof (sorted_policies_perm ps) as Hperm. unfold sorted_policies in Hperm. by rewrite H in *.
  - apply sorted_sets.
Qed.
End Graph.
