(* ===== verification/PrepareFacts.v ===== *)
(** [Prepare] as a whole ([internal/compiler/prepare.go]): it never panics on a
    frozen input, and what a graph it returns guarantees. *)
From S2P Require Import Prelude Diagnostics IRTypes IRValidate Frozen FrozenFacts Capability.
From S2P Require Import Labels Adapter Compiler RouteFacts ExpandFacts MemberFacts GraphFacts.

Section Prepare.
Context {P : Platform} {T : GoText} (Hschema : SchemaContract P).
Context (digest : string → string) (Hdigest : HexDigest digest).

(** ** The number of outbounds *)

Lemma outbound_count_safe resources s :
  ResourceMap resources → Expanded resources s →
  safe (outbound_count s) (λ count, count = base_count s).
Proof.
  intros HR HE. unfold outbound_count.
  eapply safe_mono.
  - apply (safe_fold_prefix _ (λ done count,
      count = Z.of_nat (length (es_independents s)) + 2 * Z.of_nat (length (es_chains s)) +
              Z.of_nat (sum_list_with member_weight done))).
    + simpl. lia.
    + intros done x rest count Hl ->.
      destruct (policy_payload resources HR s HE x) as (g & Eg & Hg); [rewrite Hl; set_solver|].
      rewrite Eg. simpl. rewrite sum_list_with_app. simpl. unfold member_weight at 3. rewrite Hg.
      unfold outbounds_of. lia.
  - by intros count ->.
Qed.

(** ** Sorting the outbounds by tag changes no guarantee *)

Lemma sort_outbounds_same g :
  g_Independents (sort_outbounds g) ≡ₚ g_Independents g ∧
  g_Chains (sort_outbounds g) ≡ₚ g_Chains g.
Proof. split; [apply (SortFunc_key_perm io_Tag)|apply (SortFunc_key_perm ci_TagH1)]. Qed.

Lemma GNames_sort g tag id : GNames g tag id → GNames (sort_outbounds g) tag id.
Proof.
  destruct (sort_outbounds_same g) as [E1 E2]. intros [H|H]; [left|by right].
  eapply Exit_mono, H; intros x; by rewrite ?E1, ?E2.
Qed.

Lemma Stands_sort g ref tag : Stands g ref tag → Stands (sort_outbounds g) ref tag.
Proof. unfold Stands. destruct (_ =s _); [done|apply GNames_sort]. Qed.

Lemma RoutingOk_sort resources spec g :
  RoutingOk resources spec g → RoutingOk resources spec (sort_outbounds g).
Proof.
  unfold RoutingOk. simpl. destruct (fs_RoutingProfile spec) as [ref|], (g_Routing g) as [ri|]; try done.
  intros (r & p & H1 & H2 & H3 & H4 & H5 & H6). exists r, p. split_and!; try done.
  - by apply Stands_sort.
  - eapply Forall2_impl; [exact H6|]. intros rule ru [? ?]. split; [done|by apply Stands_sort].
Qed.

Lemma DNSOk_sort resources spec g :
  DNSOk resources spec g → DNSOk resources spec (sort_outbounds g).
Proof.
  unfold DNSOk. simpl. destruct (fs_DNSProfile spec) as [ref|], (g_DNS g) as [di|]; try done.
  intros (r & p & H1 & H2 & H3 & H4 & H5 & H6 & H7). exists r, p. split_and!; try done.
  intros k t (re & o & ? & ? & ? & ? & ?)%H5. exists re, o. split_and!; try done. by apply Stands_sort.
Qed.

Lemma Orchestrated_sort target resources s spec count g :
  Orchestrated target resources s spec count g →
  Orchestrated target resources s spec count (sort_outbounds g).
Proof.
  destruct (sort_outbounds_same g) as [E1 E2].
  assert (EA : AllTags (sort_outbounds g) ≡ₚ AllTags g).
  { unfold AllTags. apply Permutation_app; [by apply outbound_tag_list_perm|done]. }
  intros [H1 H2 H3 H4 H5 H6 H7 H8 H9 H10 H11 H12]. split; try done.
  - by rewrite EA.
  - by rewrite EA.
  - by rewrite E1, E2.
  - by rewrite E1.
  - by rewrite E2.
  - simpl. eapply Forall_impl; [exact H6|].
    intros p (r & gr & c & ? & ? & ? & ? & ? & Hm). exists r, gr, c. split_and!; try done.
    eapply PolicyMembers_mono, Hm; intros x; by rewrite ?E1, ?E2.
  - intros id (t & Ht)%H7. exists t. by apply GNames_sort.
  - by apply RoutingOk_sort.
  - by apply DNSOk_sort.
Qed.

(** ** The expansion of a valid snapshot *)

Lemma profile_found target spec resources ref kind :
  WellFormed spec → target ∈ fs_Targets spec → MapOf target (fs_Resources spec) resources →
  Pinned spec ref → fr_Kind ref = kind →
  ∃ r0 r, r0 ∈ fs_Resources spec ∧ resources !! fr_ResourceID ref = Some r ∧
    rid r0 = fr_ResourceID ref ∧ payload_type (r_Payload r) = kind.
Proof.
  intros Hwf Ht HM (r0 & Hr0 & Eid & Ek & _) Hkind.
  destruct (merged_lookup _ _ _ _ Hwf Ht HM Hr0) as (r & Hl & Hm).
  exists r0, r. rewrite <-Eid. split_and!; try done.
  apply Merges_same in Hm as (_ & -> & _).
  pose proof (wf_resources _ Hwf) as Hv. rewrite Forall_forall in Hv.
  destruct (Resource_Validate_inv _ (Hv _ Hr0)) as (<- & _). congruence.
Qed.

Lemma refs_listed resources s r refs id :
  ResourceMap resources → resources !! id = Some r → profile_refs (r_Payload r) = Ret refs →
  (∀ ref k, ref ∈ refs → k ∈ ref_ids ref → Listed s k) → RefsListed s refs.
Proof.
  intros HR Hl Hrefs Hlisted. pose proof (rmp_refs _ HR _ _ _ Hl Hrefs) as Ht.
  unfold RefsListed. rewrite Forall_forall in *. intros ref Hin. split; [by apply Ht|].
  intros E. apply (Hlisted ref); [done|]. unfold ref_ids. rewrite E. simpl. set_solver.
Qed.

Lemma ProfilesOk_spec target spec resources s :
  WellFormed spec → target ∈ fs_Targets spec → MapOf target (fs_Resources spec) resources →
  ResourceMap resources →
  (∀ r refs ref id, r ∈ fs_Resources spec →
     profile_refs (r_Payload (resource_at resources (rid r))) = Ret refs →
     ref ∈ refs → id ∈ ref_ids ref → Listed s id) →
  ProfilesOk resources s spec.
Proof.
  intros Hwf Ht HM HR Hlisted. split.
  - intros ref Href.
    destruct (profile_found target spec resources ref KindRoutingProfile Hwf Ht HM)
      as (r0 & r & Hr0 & Hl & Eid & Hk).
    { by eapply wf_routing. } { eapply (sch_routing Hschema); [apply Hwf|done]. }
    pose proof (rmp_solid _ HR _ _ Hl) as Hs.
    destruct (r_Payload r) as [| | | | |p| | | |] eqn:Ep; try done.
    exists r, p. split_and!; try done.
    eapply (refs_listed resources s r); [done|exact Hl|by rewrite Ep|].
    intros ref' k Hin. eapply Hlisted; [exact Hr0| |done].
    unfold resource_at. rewrite Eid, Hl. simpl. by rewrite Ep.
  - intros ref Href.
    destruct (profile_found target spec resources ref KindDNSProfile Hwf Ht HM)
      as (r0 & r & Hr0 & Hl & Eid & Hk).
    { by eapply wf_dns. } { eapply (sch_dns Hschema); [apply Hwf|done]. }
    pose proof (rmp_solid _ HR _ _ Hl) as Hs.
    destruct (r_Payload r) as [| | | | | |p| | |] eqn:Ep; try done.
    exists r, p. split_and!; try done.
    eapply (refs_listed resources s r); [done|exact Hl|by rewrite Ep|].
    intros ref' k Hin. eapply Hlisted; [exact Hr0| |done].
    unfold resource_at. rewrite Eid, Hl. simpl. by rewrite Ep.
Qed.

(** What the expansion guarantees of its graph. *)
Definition GraphOk (target : Target) (spec : FrozenInputSpec) (g : Graph) : Prop :=
  ∃ resources s, MapOf target (fs_Resources spec) resources ∧
    (∀ m, m ∈ fs_Members spec → Listed s (fr_ResourceID m)) ∧
    base_count s ≤ MaxOutbounds ∧ Orchestrated target resources s spec (base_count s) g.

Lemma expand_graph_safe target build spec :
  WellFormed spec → target ∈ fs_Targets spec →
  safe (expand_graph digest target build spec)
    (λ g, GraphOk target spec g ∧ g_Target g = target ∧ g_Build g = build).
Proof.
  intros Hwf Ht. unfold expand_graph.
  eapply safe_bind; [apply prepare_resources_map, Hwf|]. intros resources HM.
  pose proof (MapOf_ResourceMap Hschema _ _ _ Hwf Ht HM) as HR.
  eapply safe_bind; [by apply (expand_safe target resources HR)|]. intros s (HE & Hmem & Hlisted).
  assert (HPr : ProfilesOk resources s spec) by by eapply ProfilesOk_spec.
  apply (safe_bind _ _ (λ labels, assign digest (es_items s) = Some (Ok labels))).
  { destruct (assign digest (es_items s)) as [[l|e]|] eqn:Ea; simpl; [done..|].
    unfold assign in Ea. destruct (assign_states_total digest (es_items s)) as [[|] E];
      by rewrite E in Ea. }
  intros labels HL%(labels_labelled resources digest s labels Hdigest HE).
  eapply safe_bind; [by apply (outbound_count_safe resources)|]. intros count ->.
  destruct (Z.ltb_spec MaxOutbounds (base_count s)) as [|Hcount]; [done|].
  eapply safe_bind.
  { apply (range_collect_safe _ (IndependentOf resources labels)). intros r Hr.
    by eapply independent_of_safe. }
  intros inds Hi. eapply safe_bind.
  { apply (range_collect_safe _ (ChainOf resources labels)). intros r Hr. by eapply chain_of_safe. }
  intros chains Hc. eapply safe_bind.
  { eapply (prepareOrchestration_safe target resources HR s HE labels HL spec inds chains); try done.
    - apply (SortFunc_key_perm io_Tag).
    - apply (SortFunc_key_perm ci_ResourceID). }
  intros g (HO & Et & Eb). simpl. split_and!; [|done..].
  exists resources, s. split_and!; try done. by apply Orchestrated_sort.
Qed.

(** ** The checks of the target *)

Lemma check_target_safe catalog input target :
  safe (check_target catalog input target) (λ build,
    FrozenInput_Validate input = None ∧ FrozenInput_Target input (t_Key target) = Some target ∧
    expectedFormat (t_CoreFamily target) = Some (t_Format target) ∧
    t_AdapterVersion target = cat_AdapterVersion catalog ∧
    Catalog_Build catalog (t_CoreBuildID target) = Ok build ∧
    b_Family build = t_CoreFamily target ∧
    Authenticate catalog (t_CoreBuildID target) (t_CoreBuildSHA256 target) "" "" = None).
Proof.
  unfold check_target. cbv zeta. destruct (FrozenInput_Validate input); [done|].
  destruct (FrozenInput_Target input (t_Key target)) as [pinned|]; [|done].
  destruct (Target_Equal pinned target) eqn:Eq; [|done]. apply Target_Equal_spec in Eq as ->. simpl.
  destruct (expectedFormat (t_CoreFamily target)) as [f|]; [|done].
  destruct (String.eqb_spec (t_Format target) f) as [->|]; [|done]. simpl.
  destruct (String.eqb_spec (t_AdapterVersion target) (cat_AdapterVersion catalog)); [|done]. simpl.
  destruct (Catalog_Build catalog (t_CoreBuildID target)) as [b|]; [|done].
  destruct (String.eqb_spec (b_Family b) (t_CoreFamily target)); [|done]. simpl.
  destruct (Authenticate _ _ _ _ _) as [[]|]; done.
Qed.

(** ** Capabilities *)

Lemma node_requirement_safe catalog target r path :
  safe (node_requirement catalog target r path) (λ _, True).
Proof. unfold node_requirement. destruct (r_Payload r); try done. by destruct (nodeCapabilityKey _ _). Qed.

Lemma requirements_safe catalog g :
  safe (requirements catalog g) (λ reqs, requirements catalog g = Ret reqs).
Proof.
  assert (safe (requirements catalog g) (λ _, True)) as H; [|by destruct (requirements catalog g)].
  unfold requirements. cbv zeta. eapply safe_bind; [|intros inds _; eapply safe_bind; [|done]].
  - apply (safe_fold _ (λ _ _, True)); [done|]. intros i o out _ _.
    eapply safe_bind; [apply node_requirement_safe|done].
  - apply (safe_fold _ (λ _ _, True)); [done|]. intros i c out _ _.
    eapply safe_bind; [apply node_requirement_safe|]. intros h1 _.
    eapply safe_bind; [apply node_requirement_safe|done].
Qed.

Lemma add_unseen_elem key keys k : k ∈ add_unseen key keys ↔ k = key ∨ k ∈ keys.
Proof. unfold add_unseen. case_bool_decide; set_solver. Qed.

Lemma add_unseen_NoDup key keys : NoDup keys → NoDup (add_unseen key keys).
Proof.
  intros Hk. unfold add_unseen. case_bool_decide as H; [done|].
  apply NoDup_app. split_and!; [done| |apply NoDup_singleton]. set_solver.
Qed.

(** A capability the build has and does not reject. *)
Definition Usable (catalog : CapabilityCatalog) (build : ID) (key : string) : Prop :=
  ∃ record, Catalog_Capability catalog build key = Ok record ∧ rec_State record ≠ Unsupported.
Definition Unproven (catalog : CapabilityCatalog) (build : ID) (key : string) : Prop :=
  ∃ record, Catalog_Capability catalog build key = Ok record ∧ rec_State record ≠ Verified ∧
    rec_State record ≠ Unsupported.

Record CapInv (catalog : CapabilityCatalog) (build : ID) (done : list requirement)
    (s : capability_state) : Prop := {
  cv_nodup : NoDup (cs_keys s) ∧ NoDup (cs_unverified s);
  cv_keys : ∀ k, k ∈ cs_keys s ↔ ∃ q, q ∈ done ∧ rq_key q = k;
  cv_usable : ∀ k, k ∈ cs_keys s → Usable catalog build k;
  cv_unverified : ∀ k, k ∈ cs_unverified s ↔ k ∈ cs_keys s ∧ Unproven catalog build k }.

Lemma require_capability_safe catalog g done q s :
  CapInv catalog (b_ID (g_Build g)) done s →
  safe (require_capability catalog g q s) (CapInv catalog (b_ID (g_Build g)) (done ++ [q])).
Proof.
  intros [[Hn Hn'] Hk Hu Hv]. unfold require_capability. cbv zeta.
  destruct (Catalog_Capability catalog (b_ID (g_Build g)) (rq_key q)) as [record|] eqn:Er; [|done].
  destruct (String.eqb_spec (rec_State record) Unsupported) as [|Hs]; [done|].
  assert (Hkeys : ∀ k, k ∈ add_unseen (rq_key q) (cs_keys s) ↔ ∃ q', q' ∈ done ++ [q] ∧ rq_key q' = k).
  { intros k. rewrite add_unseen_elem, Hk. set_solver. }
  assert (Hus : ∀ k, k ∈ add_unseen (rq_key q) (cs_keys s) → Usable catalog (b_ID (g_Build g)) k).
  { intros k [->|H]%add_unseen_elem; [by exists record|by apply Hu]. }
  assert (Hproven : Unproven catalog (b_ID (g_Build g)) (rq_key q) ↔ rec_State record ≠ Verified).
  { unfold Unproven. rewrite Er. naive_solver. }
  destruct (String.eqb_spec (rec_State record) Verified) as [Hver|Hver]; simpl.
  - split; simpl; try done; [by split; [apply add_unseen_NoDup|]|].
    intros k. rewrite Hv, add_unseen_elem. split; [naive_solver|].
    intros [[->|Hin] Hp]; [|done]. by apply Hproven in Hp.
  - split; simpl; try done; [by split; apply add_unseen_NoDup|].
    intros k. rewrite !add_unseen_elem, Hv. split; [|naive_solver].
    intros [->|?]; [|naive_solver]. split; [by left|]. by apply Hproven.
Qed.

(** What [collectCapabilities] returns. *)
Definition CapabilitiesOk (catalog : CapabilityCatalog) (g : Graph) (keys unverified : list string)
    : Prop :=
  ∃ reqs, requirements catalog g = Ret reqs ∧
    Sorted string_le keys ∧ NoDup keys ∧ Sorted string_le unverified ∧ NoDup unverified ∧
    (∀ k, k ∈ keys ↔ ∃ q, q ∈ reqs ∧ rq_key q = k) ∧
    (∀ k, k ∈ keys → Usable catalog (b_ID (g_Build g)) k) ∧
    (∀ k, k ∈ unverified ↔ k ∈ keys ∧ Unproven catalog (b_ID (g_Build g)) k).

Lemma sort_strings_elem k l : k ∈ sort_strings l ↔ k ∈ l.
Proof. apply elem_of_isort. Qed.
Lemma sort_strings_NoDup l : NoDup l → NoDup (sort_strings l).
Proof. unfold sort_strings. by rewrite isort_perm. Qed.

Lemma collectCapabilities_safe catalog g :
  safe (collectCapabilities catalog g) (λ out, CapabilitiesOk catalog g out.1.1 out.1.2).
Proof.
  unfold collectCapabilities. eapply safe_bind; [apply requirements_safe|]. intros reqs Hreqs.
  eapply safe_bind.
  { apply (safe_fold_prefix _ (CapInv catalog (b_ID (g_Build g)))).
    - split; simpl; [split; constructor| | |]; set_solver.
    - intros done x rest s _ H. by apply require_capability_safe. }
  intros s [[Hn Hn'] Hk Hu Hv]. simpl. exists reqs. setoid_rewrite sort_strings_elem.
  split_and!; try done; try apply sort_strings_sorted; by apply sort_strings_NoDup.
Qed.

(** ** Prepare *)

Lemma clone_payload_same i r r' :
  r_Payload r = r_Payload r' → clone_payload i r = None → clone_payload i r' = None.
Proof.
  unfold clone_payload. intros <-. destruct (r_Payload r); try done. unfold cloneNode.
  destruct (n_Auth p), (n_Transport p), (n_Security p); done.
Qed.

Lemma clone_payload_index i j r : clone_payload i r = None → clone_payload j r = None.
Proof.
  unfold clone_payload. destruct (r_Payload r); try done. by destruct (cloneNode p).
Qed.

Lemma frozen_spec src input :
  NewFrozenInput src = Ok input →
  fi_spec input = Some (normalize_spec src) ∧ FrozenInput_Spec input = normalize_spec src.
Proof.
  intros (Hclone & _ & ->)%NewFrozenInput_Ok. split; [done|]. unfold FrozenInput_Spec. simpl.
  unfold cloneSpec.
  assert (range_err clone_payload (fs_Resources (normalize_spec src)) = None) as ->; [|done].
  rewrite range_err_None in *. intros i r Hr.
  apply list_elem_of_lookup_2, elem_of_norm_resources in Hr as (r0 & -> & Hr0).
  apply list_elem_of_lookup in Hr0 as [j Hj].
  eapply clone_payload_same; [|by eapply clone_payload_index, Hclone]. done.
Qed.

Lemma FrozenInput_Target_elem input spec key t :
  fi_spec input = Some spec → FrozenInput_Target input key = Some t → t ∈ fs_Targets spec.
Proof.
  intros E. unfold FrozenInput_Target. rewrite E.
  destruct (list_find _ _) as [[i x]|] eqn:El; [|done]. intros [= <-].
  apply list_find_Some in El as (H & _). by eapply list_elem_of_lookup_2.
Qed.

(** What a prepared graph guarantees. *)
Definition Prepared (catalog : CapabilityCatalog) (target : Target) (spec : FrozenInputSpec)
    (g : Graph) : Prop :=
  GraphOk target spec g ∧ g_Target g = target ∧
  Catalog_Build catalog (t_CoreBuildID target) = Ok (g_Build g) ∧
  CapabilitiesOk catalog g (g_RequiredKeys g) (g_UnverifiedKeys g).

Lemma Prepare_safe catalog src input target :
  NewFrozenInput src = Ok input →
  safe (Prepare digest catalog input target)
    (λ out, Prepared catalog target (normalize_spec src) out.1).
Proof.
  intros Hnew. destruct (frozen_spec _ _ Hnew) as [Efi Espec]. unfold Prepare. rewrite Espec.
  eapply safe_bind; [apply check_target_safe|].
  intros build (Hv & Ht & _ & _ & Hb & _). simpl in Hv.
  assert (Hwf : WellFormed (normalize_spec src)).
  { apply FrozenInputSpec_Validate_iff. unfold FrozenInput_Validate in Hv. by rewrite Efi in Hv. }
  eapply safe_bind; [apply expand_graph_safe; [done|by eapply FrozenInput_Target_elem]|].
  intros g (HG & Et & Eb). eapply safe_bind; [apply collectCapabilities_safe|].
  intros [[keys unverified] diags] Hcap. simpl in *. split_and!; [|done|by rewrite Hb, <-Eb|done].
  destruct HG as (resources & s & H1 & H2 & H3 & [O1 O2 O3 O4 O5 O6 O7 O8 O9 O10 O11 O12]).
  exists resources, s. split_and!; try done.
Qed.

(** The outbounds of a prepared graph are accepted by every emitter. *)
Lemma GraphOk_outbounds target spec g :
  GraphOk target spec g → OutboundsOk (emit_input g).
Proof.
  intros (resources & s & _ & _ & Hcount & HO). destruct HO as [Hn Hs Hc _ _ _ _ _ _ _ _ _].
  unfold OutboundsOk. simpl. unfold AllTags in *. split_and!; [lia|by apply NoDup_app in Hn as [? _]|].
  apply Forall_app in Hs as [Hs _]. eapply Forall_impl; [exact Hs|].
  intros t Ht. apply plain_tag_free. destruct Ht as [Ht|(U & HU & Ht)].
  - by apply base_tag_plain.
  - by eapply member_tag_plain.
Qed.
End Prepare.
