(* ===== verification/ConditionFacts.v ===== *)
(** The conditions of a prepared graph: connections, the terms the compiler makes, and
    what the validated snapshot guarantees of their values. *)
From S2P Require Import Prelude Diagnostics IRTypes IRValidate Frozen FrozenFacts Capability.
From S2P Require Import Labels Adapter Network Compiler RouteFacts ExpandFacts MemberFacts.
From S2P Require Import GraphFacts PrepareFacts.

(** A term other than "and" and "or" is evaluated value by value. *)
Lemma eval_term atom kind values terms :
  kind ≠ "and" → kind ≠ "or" → eval atom (Cond kind values terms) = existsb (atom kind) values.
Proof.
  intros Ha Ho. simpl. by destruct (String.eqb_spec kind "and"), (String.eqb_spec kind "or").
Qed.

(** ** Connections *)

(** The destination of a connection, as far as it is known, and the predicates on its
    port and network. *)
Record Connection := {
  c_domain : option string; c_ip : option Addr; c_port : string → bool; c_network : string → bool }.

(** A query for the name [d]. *)
Definition query (d : string) : Connection :=
  {| c_domain := Some d; c_ip := None; c_port := λ _, false; c_network := λ _, false |}.

Section Connections.
Context {N : Network}.

Definition ip_matches (c : Connection) (cidr : string) : bool :=
  match c_ip c, ParseNetPrefix cidr with
  | Some ip, Some p => prefix_Contains p ip
  | _, _ => false
  end.

(** The predicates of a condition at a connection. *)
Definition conn_atom (c : Connection) (kind value : string) : bool :=
  if (kind =s "domain") || (kind =s "domain_suffix") then
    match c_domain c with Some d => domain_atom d kind value | None => false end
  else if kind =s "ip_cidr" then ip_matches c value
  else if kind =s "port" then c_port c value
  else if kind =s "network" then c_network c value
  else false.

Definition is_network (v : string) : Prop := v = "tcp" ∨ v = "udp".

(** Port numbers are not negative. *)
Definition port_ok (p : PortRange) : Prop := 0 ≤ pr_From p ∧ 0 ≤ pr_To p.

(** Prefixes that parse. *)
Definition Prefixed (v : string) : Prop := is_Some (ParseNetPrefix v).

(** A term of a branch, as the compiler makes them. *)
Definition TermOk (t : Condition) : Prop :=
  match t with
  | Cond kind values _ =>
      values ≠ [] ∧
      (kind = "domain" ∨ kind = "domain_suffix" ∨
       kind = "ip_cidr" ∧ Forall Prefixed values ∨
       kind = "port" ∧ (∃ ports, Forall port_ok ports ∧ values = port_value <$> ports) ∨
       kind = "network" ∧ Forall is_network values)
  end.

Definition kind_of (t : Condition) : string := match t with Cond kind _ _ => kind end.

(** All terms below "and" and "or" are of the compiler's kinds. *)
Fixpoint leaves_ok (c : Condition) : Prop :=
  match c with
  | Cond kind _ terms =>
      if (kind =s "and") || (kind =s "or")
      then (fix each (l : list Condition) : Prop :=
              match l with [] => True | t :: l => leaves_ok t ∧ each l end) terms
      else TermOk c
  end.

Lemma leaves_ok_terms kind values terms :
  (kind =s "and") || (kind =s "or") = true →
  leaves_ok (Cond kind values terms) ↔ Forall leaves_ok terms.
Proof.
  intros Hk. simpl. rewrite Hk. clear. induction terms as [|t l IH]; [done|].
  by rewrite Forall_cons, IH.
Qed.

(** How often a branch of the condition can hold terms of a kind. *)
Fixpoint count (k : string) (c : Condition) : nat :=
  match c with
  | Cond kind _ terms =>
      if kind =s "or" then foldr (λ t n, Nat.max (count k t) n) 0%nat terms
      else if kind =s "and" then foldr (λ t n, count k t + n)%nat 0%nat terms
      else if kind =s k then 1%nat else 0%nat
  end.
End Connections.

(** ** What the schema and the validators promise the emitters *)

Section Contract.
Context {P : Platform} {N : Network}.

(** A node whose unions hold values: the schema rejects a null variant, TLS requires
    [verify_certificate], and the protocol is one of the enumeration. *)
Definition NodeSolid (n : Node) : Prop :=
  (∀ v, n_Auth n ≠ Auth_typed_nil v) ∧ (∀ v, n_Transport n ≠ Transport_typed_nil v) ∧
  (∀ v, n_Security n ≠ Security_typed_nil v) ∧
  (∀ t, n_Security n = Security_TLS t → is_Some (tls_VerifyCertificate t)) ∧
  n_Protocol n ∈ [Shadowsocks; VMess; VLESS; Trojan; SOCKS5; HTTP].

Record EmitContract : Prop := {
  (** [route_match.network]: tcp or udp. *)
  ec_network : ∀ m, validateValue "route_match" (SV_RouteMatch m) = None →
    Forall is_network (rm_Network m);
  (** [port_range]: ports from 1 to 65535. *)
  ec_ports : ∀ p, validateValue "port_range" (SV_PortRange p) = None →
    1 ≤ pr_From p ≤ 65535 ∧ 1 ≤ pr_To p ≤ 65535;
  (** [rule_set_entry.kind]: domain or cidr. *)
  ec_entry : ∀ e, validateValue "rule_set_entry" (SV_RuleSetEntry e) = None →
    rse_Kind e = RuleSetDomain ∨ rse_Kind e = RuleSetCIDR;
  ec_node : ∀ n, validateValue "node" (SV_Node n) = None → NodeSolid n;
  (** [policy_health_check]: when enabled, the interval is required, at least a second. *)
  ec_health : ∀ h, validateValue "policy_health_check" (SV_PolicyHealthCheck h) = None →
    hc_Enabled h = true → ∃ ms, hc_IntervalMS h = Some ms ∧ 1000 ≤ ms;
  (** The validators and the emitters parse prefixes alike ([netip.ParsePrefix]). *)
  ec_prefix : ∀ v p, ParsePrefix v = Some p → Prefixed v }.

Context (Hemit : EmitContract).

Lemma canonical_Prefixed v : canonicalCIDR v = true → Prefixed v.
Proof.
  unfold canonicalCIDR. destruct (ParsePrefix v) as [p|] eqn:E; [|done]. intros _.
  by eapply ec_prefix.
Qed.

(** The values of a validated match. *)
Definition MatchOk (m : RouteMatch) : Prop :=
  Forall Prefixed (rm_IPCIDRs m) ∧ Forall port_ok (rm_DestinationPorts m) ∧
  Forall is_network (rm_Network m).

Lemma RouteMatch_ok m : RouteMatch_Validate m = None → MatchOk m.
Proof.
  unfold RouteMatch_Validate. destruct (validateValue _ _) eqn:Es; [done|].
  destruct (range_err _ (rm_IPCIDRs m)) eqn:Ec; [done|].
  intros Ep. rewrite range_err_None in Ec. rewrite range_err_None in Ep. split_and!; [| |by apply ec_network].
  - apply Forall_lookup. intros i v Hv. specialize (Ec _ _ Hv).
    destruct (canonicalCIDR v) eqn:E; [|done]. by apply canonical_Prefixed.
  - apply Forall_lookup. intros i v Hv. specialize (Ep _ _ Hv).
    destruct (PortRange_Validate v) eqn:E; [done|]. unfold PortRange_Validate in E.
    destruct (validateValue _ (SV_PortRange v)) eqn:Ev; [done|].
    apply (ec_ports Hemit) in Ev. unfold port_ok. lia.
Qed.

Lemma RoutingProfile_ok p :
  RoutingProfile_Validate p = None → Forall (λ rule, MatchOk (rr_Match rule)) (rp_Rules p).
Proof.
  unfold RoutingProfile_Validate. destruct (validateValue _ _); [done|].
  rewrite range_err_None, Forall_lookup. intros H i rule Hr. specialize (H _ _ Hr).
  destruct (RoutingRule_Validate rule) eqn:E; [done|]. unfold RoutingRule_Validate in E.
  destruct (validateValue _ _); [done|].
  destruct (RouteMatch_Validate (rr_Match rule)) eqn:Em; [done|]. by apply RouteMatch_ok.
Qed.

Definition EntryOk (e : RuleSetEntry) : Prop :=
  rse_Kind e = RuleSetDomain ∨ Prefixed (rse_CIDR e).

Lemma RuleSet_ok s : RuleSet_Validate s = None → Forall EntryOk (rset_Entries s).
Proof.
  unfold RuleSet_Validate. destruct (validateValue _ _); [done|].
  destruct (RuleSetWrite_Validate _) eqn:Ew; [done|]. intros _. revert Ew.
  unfold RuleSetWrite_Validate. simpl. destruct (validateValue _ _); [done|].
  rewrite range_err_None, Forall_lookup. intros H i e He. specialize (H _ _ He).
  destruct (RuleSetEntry_Validate e) eqn:E; [done|]. unfold RuleSetEntry_Validate in E.
  destruct (validateValue _ (SV_RuleSetEntry e)) eqn:Es; [done|].
  destruct (ec_entry Hemit _ Es) as [Hk|Hk]; [by left|right]. rewrite Hk in E. simpl in E.
  destruct (canonicalCIDR (rse_CIDR e)) eqn:Ec; [|done]. by apply canonical_Prefixed.
Qed.

(** ** The conditions the compiler makes *)

Definition ConditionOk (c : Condition) : Prop :=
  leaves_ok c ∧ (count "port" c ≤ 1)%nat ∧ (count "network" c ≤ 1)%nat.

Definition SetsOk (resources : gmap string Resource) : Prop :=
  ∀ id, Forall EntryOk (entries_at resources id).

Definition sum_count (k : string) (l : list Condition) : nat := foldr (λ t n, count k t + n)%nat 0%nat l.

Lemma sum_count_app k l l' : sum_count k (l ++ l') = (sum_count k l + sum_count k l')%nat.
Proof. unfold sum_count. induction l as [|t l IH]; simpl; [done|]. rewrite IH. lia. Qed.

Lemma add_term_ok kind values :
  (values ≠ [] → leaves_ok (Cond kind values [])) →
  Forall leaves_ok (add_term kind values).
Proof. intros H. destruct values as [|v vs]; [constructor|]. constructor; [by apply H|constructor]. Qed.

Lemma add_term_count k kind values :
  (kind =s "or") = false → (kind =s "and") = false →
  (sum_count k (add_term kind values) ≤ if kind =s k then 1 else 0)%nat.
Proof.
  intros Ho Ha. destruct values as [|v vs]; simpl; [lia|]. rewrite Ho, Ha. simpl.
  destruct (kind =s k); lia.
Qed.

Lemma entry_term_ok e : EntryOk e → leaves_ok (entry_term e).
Proof.
  intros He. unfold entry_term, entry_kind, entry_value.
  destruct (String.eqb_spec (rse_Kind e) RuleSetDomain) as [|Hk].
  - destruct (_ =s DomainSuffix); simpl; auto.
  - destruct He as [|He]; [done|]. simpl. split; [done|]. right. right. left. auto.
Qed.

Lemma entry_term_count k e : k = "port" ∨ k = "network" → count k (entry_term e) = 0%nat.
Proof.
  intros Hk. unfold entry_term, entry_kind. destruct (rse_Kind e =s _); [destruct (_ =s DomainSuffix)|];
    by destruct Hk as [->| ->].
Qed.

Lemma sets_term_ok resources ids :
  SetsOk resources →
  leaves_ok (Cond "or" [] (entry_term <$> mjoin (entries_at resources <$> ids))) ∧
  (∀ k, k = "port" ∨ k = "network" →
     count k (Cond "or" [] (entry_term <$> mjoin (entries_at resources <$> ids))) = 0%nat).
Proof.
  intros Hs. split.
  - apply leaves_ok_terms; [done|]. apply Forall_fmap, Forall_join, Forall_fmap, Forall_true.
    intros id. eapply Forall_impl; [apply Hs|]. intros e. apply entry_term_ok.
  - intros k Hk. generalize (mjoin (entries_at resources <$> ids)). intros l.
    change (foldr (λ t n, Nat.max (count k t) n) 0%nat (entry_term <$> l) = 0%nat).
    induction l as [|e l IH]; [done|]. rewrite fmap_cons. cbn [foldr].
    by rewrite entry_term_count, IH.
Qed.

Lemma collapse_ok terms c :
  (terms = [c] ∨ c = Cond "and" [] terms) →
  Forall leaves_ok terms → (sum_count "port" terms ≤ 1)%nat → (sum_count "network" terms ≤ 1)%nat →
  ConditionOk c.
Proof.
  intros Hc Hl Hp Hn.
  assert (ConditionOk (Cond "and" [] terms)) as Hand.
  { split_and!; [by apply leaves_ok_terms|exact Hp|exact Hn]. }
  destruct Hc as [->| ->]; [|done].
  rewrite Forall_singleton in Hl. unfold sum_count in *. simpl in Hp, Hn. split_and!; [done|lia..].
Qed.

Lemma routeCondition_ok resources m dns c :
  MatchOk m → SetsOk resources → routeCondition m resources dns = Ret c → ConditionOk c.
Proof.
  intros (Hp & Hports & Hn) Hs Hc. pose proof (routeCondition_inv _ _ _ _ Hc) as Hok.
  unfold routeCondition in Hc. cbv zeta in Hc.
  assert (∃ sets, match rm_RuleSetIDs m with
                  | [] => Ret []
                  | ids => let! set := rule_set_terms resources dns ids in Ret [Cond "or" [] set]
                  end = Ret sets ∧ Forall leaves_ok sets ∧
                  ∀ k, k = "port" ∨ k = "network" → sum_count k sets = 0%nat)
    as (sets & Hsets & Hl & Hk).
  { destruct (rm_RuleSetIDs m) as [|id ids] eqn:E; [by exists []|].
    rewrite rule_set_terms_Ret by done. eexists. split; [done|].
    destruct (sets_term_ok resources (id :: ids) Hs) as [H1 H2].
    split; [by constructor|]. intros k Hk. unfold sum_count. cbn [foldr]. by rewrite H2. }
  rewrite Hsets in Hc.
  assert (∀ k, k = "port" ∨ k = "network" → (sum_count k
    ((add_term "domain" (rm_DomainExact m) ++ add_term "domain_suffix" (rm_DomainSuffix m) ++
      add_term "ip_cidr" (rm_IPCIDRs m) ++ add_term "port" (port_value <$> rm_DestinationPorts m) ++
      add_term "network" (rm_Network m)) ++ sets) ≤ 1)%nat) as Hcount.
  { intros k Hk'. rewrite !sum_count_app, (Hk k Hk').
    pose proof (add_term_count k "domain" (rm_DomainExact m) eq_refl eq_refl).
    pose proof (add_term_count k "domain_suffix" (rm_DomainSuffix m) eq_refl eq_refl).
    pose proof (add_term_count k "ip_cidr" (rm_IPCIDRs m) eq_refl eq_refl).
    pose proof (add_term_count k "port" (port_value <$> rm_DestinationPorts m) eq_refl eq_refl).
    pose proof (add_term_count k "network" (rm_Network m) eq_refl eq_refl).
    destruct Hk' as [->| ->]; simpl in *; lia. }
  eapply collapse_ok; [| |by apply (Hcount "port"); left|by apply (Hcount "network"); right].
  { destruct (_ ++ sets) as [|t [|u l]]; injection Hc as <-; auto. }
  rewrite !Forall_app. split_and!; try done; apply add_term_ok; intros Hne; simpl; eauto 10.
Qed.
End Contract.

(** ** The resources of a prepared graph *)

Section PreparedGraph.
Context {P : Platform} {N : Network} {T : GoText}.
Context (Hschema : SchemaContract P) (Hemit : EmitContract).
Context (digest : string → string) (Hdigest : HexDigest digest) (catalog : CapabilityCatalog).
Context (src : FrozenInputSpec) (input : FrozenInput) (target : Target).
Context (Hnew : NewFrozenInput src = Ok input).
Context (g : Graph) (diags : Diagnostics).
Context (Hprep : Prepare digest catalog input target = Ret (g, diags)).

Lemma prepared_wf : WellFormed (normalize_spec src) ∧ target ∈ fs_Targets (normalize_spec src).
Proof.
  destruct (frozen_spec _ _ Hnew) as [Efi _]. unfold Prepare in Hprep.
  pose proof (check_target_safe catalog input target) as H.
  destruct (check_target catalog input target); [|done..]. simpl in H.
  destruct H as (Hv & Ht & _). split; [|by eapply FrozenInput_Target_elem].
  apply FrozenInputSpec_Validate_iff. unfold FrozenInput_Validate in Hv. by rewrite Efi in Hv.
Qed.

Lemma prepared_graph : GraphOk target (normalize_spec src) g.
Proof.
  pose proof (Prepare_safe Hschema digest Hdigest catalog src input target Hnew) as H.
  rewrite Hprep in H. apply H.
Qed.

(** Every resource of the target other than a policy group is a validated one. *)
Lemma lookup_validated resources id r :
  MapOf target (fs_Resources (normalize_spec src)) resources → resources !! id = Some r →
  (∀ p, r_Payload r ≠ Payload_PolicyGroup p) → Resource_Validate r = None.
Proof.
  intros HM (r0 & Hr0 & _ & Hm)%HM Hp. destruct prepared_wf as [Hwf _].
  pose proof (wf_resources _ Hwf) as Hv. rewrite Forall_forall in Hv.
  apply Merges_inv in Hm as [->|(q & q' & _ & _ & _ & ->)]; [by apply Hv|]. by destruct (Hp q').
Qed.

Lemma sets_ok resources :
  MapOf target (fs_Resources (normalize_spec src)) resources → SetsOk resources.
Proof.
  intros HM id. unfold entries_at, resource_at.
  destruct (resources !! id) as [r|] eqn:E; simpl; [|constructor].
  destruct (r_Payload r) as [| | | | |p| |p| |] eqn:Ep; try constructor.
  assert (Resource_Validate r = None) as Hv
    by (eapply lookup_validated; [done|done|]; by rewrite Ep).
  apply RuleSet_ok; [done|]. unfold Resource_Validate in Hv. cbv zeta in Hv. rewrite Ep in Hv.
  destruct (negb _); [done|]. by destruct (RuleSet_Validate p).
Qed.

Lemma prepared_conditions ri :
  g_Routing g = Some ri → Forall (λ ru, ConditionOk (ru_Condition ru)) (ri_Rules ri).
Proof.
  intros Hri. destruct prepared_graph as (resources & s & HM & _ & _ & HO).
  pose proof (or_routing _ _ _ _ _ _ HO) as HR. unfold RoutingOk in HR. rewrite Hri in HR.
  destruct (fs_RoutingProfile _) as [ref|]; [|done]. destruct HR as (r & p & Hl & Ep & _ & _ & _ & HF).
  assert (Resource_Validate r = None) as Hv
    by (eapply lookup_validated; [done|done|]; by rewrite Ep).
  unfold Resource_Validate in Hv. cbv zeta in Hv. rewrite Ep in Hv. destruct (negb _); [done|].
  destruct (RoutingProfile_Validate p) eqn:Erp; [done|]. apply RoutingProfile_ok in Erp; [|done].
  assert (Forall (λ rule, MatchOk (rr_Match rule)) (filter (λ rule, rr_Enabled rule = true) (rp_Rules p)))
    as Hrules.
  { rewrite Forall_forall in Erp |- *. intros rule [_ Hin]%list_elem_of_filter. by apply Erp. }
  pose proof (sets_ok resources HM) as Hsets.
  clear -HF Hrules Hsets Hemit. induction HF as [|rule ru rules rus [Hc _] _ IH]; [constructor|].
  apply Forall_cons in Hrules as [Hm Hrules]. constructor; [|by apply IH].
  by eapply routeCondition_ok.
Qed.

(** The policies are instances of validated groups, their default an outbound. *)
Lemma prepared_policies_ready :
  NoDup (AllTags g) ∧
  Forall (λ p, ∃ group, PolicyGroup_Validate group = None ∧ pi_Health p = pg_HealthCheck group ∧
                 pi_Strategy p = pg_Strategy group ∧
                 pi_Default p ∈ outbound_tag_list (g_Independents g) (g_Chains g) ∧
                 pi_Members p ⊆ outbound_tag_list (g_Independents g) (g_Chains g))
    (g_Policies g).
Proof.
  destruct prepared_graph as (resources & s & HM & _ & _ & HO).
  split; [apply (or_tags _ _ _ _ _ _ HO)|].
  eapply Forall_impl; [apply (or_policies _ _ _ _ _ _ HO)|].
  intros p (r & group & controlled & Hl & Ep & Hs & Hh & _ & tagf & Hex & Hd & Hm).
  destruct prepared_wf as [Hwf Ht].
  pose proof (MapOf_ResourceMap Hschema _ _ _ Hwf Ht HM) as HR.
  destruct (rmp_group _ HR _ _ _ Hl Ep) as (_ & _ & Hdefault).
  exists group. split_and!; [|done|done| |].
  - pose proof Hl as (r0 & Hr0 & _ & Hmerge)%HM.
    apply Merges_inv in Hmerge as [->|(q & q' & _ & Hv & _ & ->)].
    + pose proof (wf_resources _ Hwf) as Hv. rewrite Forall_forall in Hv. specialize (Hv _ Hr0).
      unfold Resource_Validate in Hv. cbv zeta in Hv. rewrite Ep in Hv.
      destruct (negb _); [done|]. by destruct (PolicyGroup_Validate group).
    + simpl in Ep. by injection Ep as ->.
  - rewrite Hd. eapply Exit_listed. by apply Hex.
  - rewrite Hm, Hd. intros t Hin. apply elem_of_cons in Hin as [->|Hin];
      [eapply Exit_listed; by apply Hex|].
    apply list_elem_of_fmap in Hin as (id & -> & Hin).
    apply list_elem_of_fmap in Hin as (m & -> & [_ Hin]%list_elem_of_filter).
    eapply Exit_listed. by apply Hex.
Qed.

(** The nodes of the outbounds are validated. *)
Lemma prepared_nodes :
  Forall (λ ref, ∃ n, r_Payload (or_Resource ref) = Payload_Node n ∧ Node_Validate n = None ∧ NodeSolid n)
    (outbound_list (emit_input g)).
Proof.
  destruct prepared_graph as (resources & s & HM & _ & _ & HO).
  assert (∀ id r, resources !! id = Some r → payload_type (r_Payload r) = KindNode →
    ∃ n, r_Payload r = Payload_Node n ∧ Node_Validate n = None ∧ NodeSolid n) as Hnode.
  { intros id r Hl Hk. destruct prepared_wf as [Hwf Ht].
    pose proof (rmp_solid _ (MapOf_ResourceMap Hschema _ _ _ Hwf Ht HM) _ _ Hl) as Hs.
    destruct (r_Payload r) as [| |n| | | | | | |] eqn:Ep; try done. exists n. split; [done|].
    assert (Resource_Validate r = None) as Hv
      by (eapply lookup_validated; [done|done|]; by rewrite Ep).
    unfold Resource_Validate in Hv. cbv zeta in Hv. rewrite Ep in Hv. destruct (negb _); [done|].
    destruct (Node_Validate n) eqn:En; [done|]. split; [done|]. apply (ec_node Hemit).
    unfold Node_Validate in En. by destruct (n_Auth n), (n_Transport n), (n_Security n). }
  pose proof (or_nodes _ _ _ _ _ _ HO) as Hn. pose proof (or_chains _ _ _ _ _ _ HO) as Hc.
  unfold outbound_list. apply Forall_app. rewrite Forall_forall in Hn. rewrite Forall_forall in Hc.
  rewrite !Forall_forall. split.
  - intros ref (i & o & -> & Ho)%elem_of_lookup_imap. simpl in *.
    apply list_elem_of_lookup_2, Hn in Ho as [Hl Hk]. eauto.
  - intros ref (i & c & Hi & Hin)%elem_of_range_app. simpl in *.
    apply list_elem_of_lookup_2, Hc in Hi as (r & chain & a & b & _ & _ & _ & H1 & H2 & H3 & H4 & _).
    repeat (apply elem_of_cons in Hin as [->|Hin]); simpl; eauto. by apply elem_of_nil in Hin.
Qed.
End PreparedGraph.
