(* ===== verification/EmitFacts.v ===== *)
(** What the native emitters share: the outbounds of a prepared graph are validated nodes,
    its conditions are of the compiler's shape, and every outbound is rendered once, in
    order. The text of conditions and tags, for the emitters that print them: values without
    the marks of the rule syntax, combinations that are not empty, names of tags. *)
From S2P Require Import Prelude Diagnostics IRTypes Hashes IRValidate Frozen FrozenFacts.
From S2P Require Import Capability Labels Adapter Network Domains Compiler RouteFacts ExpandFacts.
From S2P Require Import MemberFacts GraphFacts PrepareFacts ConditionFacts.

(** The compiled rules and the exit an emitter reads. *)
Definition rules_of (input : EmitInput) : list RouteRule :=
  match in_Routing input with Some ri => ri_Rules ri | None => [] end.
Definition exit_of (input : EmitInput) : string :=
  match ExitTag input with Ok exit => exit | Err _ => "" end.

Section Emit.
Context {P : Platform} {N : Network} {T : GoText}.

(** A node the contract accepts is mapped or refused, never dereferenced as nil. *)
Lemma MapNode_safe r n path target :
  r_Payload r = Payload_Node n → NodeSolid n →
  safe (MapNode r path target) (λ m, mn_Node m = n ∧
    (∀ t, mn_TLS m = Some t → is_Some (tls_VerifyCertificate t)) ∧
    (∀ t, n_Security n = Security_TLS t → mn_TLS m = Some t ∧ mn_Reality m = None)).
Proof.
  intros Hp (Ha & _ & _ & Hv & _). unfold MapNode. rewrite Hp. cbv zeta.
  destruct (Node_Validate n); [done|]. destruct (is_set _); [done|]. destruct (is_set _); [done|].
  assert (safe (map_auth (n_Auth n)) (λ _, True)) as Hm.
  { unfold map_auth. destruct (n_Auth n) eqn:E; try done. by destruct (Ha variant). }
  destruct (map_auth (n_Auth n)) as [[[[u p] uu] ci]| |]; [|done..].
  destruct (n_Transport n), (n_Security n) eqn:Es; simpl; try done; (split_and!; [done|..]);
    intros t' Ht; try done; injection Ht as <-; try done; by apply Hv.
Qed.

(** The outbounds are nodes. *)
Definition NodeRefs (refs : list OutboundRef) : Prop :=
  Forall (λ ref, ∃ n, r_Payload (or_Resource ref) = Payload_Node n ∧ NodeSolid n) refs.

Lemma OutboundRefs_list input refs : OutboundRefs input = Ok refs → refs = outbound_list input.
Proof.
  unfold OutboundRefs. destruct (_ <? _); [done|]. cbv zeta.
  destruct (range_err _ _); [done|]. by intros [= <-].
Qed.

(** One outbound after another. *)
Lemma collect_safe {A} (emit : OutboundRef → outcome Diagnostics A) (R : OutboundRef → A → Prop) refs :
  (∀ ref n, r_Payload (or_Resource ref) = Payload_Node n → NodeSolid n → safe (emit ref) (R ref)) →
  NodeRefs refs →
  safe (range_fold (λ _ ref acc, let! item := emit ref in Ret (acc ++ [item])) refs []) (Forall2 R refs).
Proof.
  intros Hemit Hrefs.
  apply (safe_fold_prefix _ (Forall2 R)); [constructor|].
  intros done ref rest out Hl Hout. unfold NodeRefs in Hrefs. rewrite Forall_forall in Hrefs.
  destruct (Hrefs ref) as (n & Hn & Hs); [rewrite Hl; set_solver|].
  eapply safe_bind; [by eapply Hemit|]. intros o Ho. simpl.
  apply Forall2_app; [done|]. constructor; [done|constructor].
Qed.

(** What an emitter can rely on. *)
Record EmitReady (input : EmitInput) : Prop := {
  er_nodes : NodeRefs (outbound_list input);
  er_conditions : Forall (λ ru, ConditionOk (ru_Condition ru)) (rules_of input);
  (** A fixed policy stands for an outbound, not for another policy. *)
  er_fixed : ∀ tag, ResolvePolicyTag input (ResolvePolicyTag input tag) = ResolvePolicyTag input tag;
  (** An enabled health check has an interval, of a second or more. *)
  er_health : Forall (λ p, hc_Enabled (pi_Health p) = true →
    ∃ ms, hc_IntervalMS (pi_Health p) = Some ms ∧ 1000 ≤ ms) (in_Policies input) }.

Lemma ordered_nodes input exit ordered :
  EmitReady input → OrderedOutboundRefs input = Ok (exit, ordered) → NodeRefs ordered.
Proof.
  intros [Hn _ _ _] Hord. destruct (OrderedOutboundRefs_Ok _ _ _ Hord) as (_ & Hp & _).
  unfold NodeRefs. by rewrite Hp.
Qed.

Context (Hschema : SchemaContract P) (Hcontract : EmitContract).

(** The default of a fixed policy is no policy's tag. *)
Lemma resolve_stable input tags :
  NoDup (tags ++ (pi_Tag <$> in_Policies input)) →
  Forall (λ p, pi_Default p ∈ tags) (in_Policies input) →
  ∀ tag, ResolvePolicyTag input (ResolvePolicyTag input tag) = ResolvePolicyTag input tag.
Proof.
  intros (_ & Hd & _)%NoDup_app Hp tag. unfold ResolvePolicyTag at 2 3.
  destruct (list_find _ _) as [[i p]|] eqn:E.
  - apply list_find_Some in E as (Hi & _ & _). apply list_elem_of_lookup_2 in Hi.
    rewrite Forall_forall in Hp. specialize (Hp _ Hi). unfold ResolvePolicyTag.
    destruct (list_find _ _) as [[j q]|] eqn:E'; [|done].
    apply list_find_Some in E' as (Hj & [Hq _] & _). apply list_elem_of_lookup_2 in Hj.
    exfalso. eapply Hd; [exact Hp|]. rewrite <- Hq. by apply list_elem_of_fmap_2.
  - unfold ResolvePolicyTag. by rewrite E.
Qed.

Lemma prepared_ready catalog src input target g diags :
  NewFrozenInput src = Ok input → Prepare sha256Hex catalog input target = Ret (g, diags) →
  EmitReady (emit_input g).
Proof.
  intros Hnew Hprep. split.
  - eapply Forall_impl.
    + by eapply (prepared_nodes Hschema Hcontract sha256Hex sha256Hex_chars).
    + intros ref (n & Hn & _ & Hs). eauto.
  - unfold rules_of. simpl. destruct (g_Routing g) as [ri|] eqn:E; [|constructor].
    by eapply (prepared_conditions Hschema Hcontract sha256Hex sha256Hex_chars).
  - destruct (prepared_policies_ready Hschema sha256Hex sha256Hex_chars catalog src input target Hnew
      g diags Hprep) as [Hnd Hp].
    eapply resolve_stable; [exact Hnd|]. eapply Forall_impl; [exact Hp|].
    by intros p (group & _ & _ & _ & Hd & _).
  - destruct (prepared_policies_ready Hschema sha256Hex sha256Hex_chars catalog src input target Hnew
      g diags Hprep) as [_ Hp].
    eapply Forall_impl; [exact Hp|]. intros p (group & Hv & -> & _). apply (ec_health Hcontract).
    unfold PolicyGroup_Validate in Hv. destruct (validateValue "policy_group" _); [done|].
    destruct (PolicyHealthCheck_Validate _) eqn:Eh; [done|]. unfold PolicyHealthCheck_Validate in Eh.
    by destruct (validateValue "policy_health_check" _).
Qed.
End Emit.

(** No parenthesis, comma or plus sign. *)
Definition value_char (c : ascii) : bool :=
  negb (Ascii.eqb c "(" || Ascii.eqb c ")" || Ascii.eqb c "," || Ascii.eqb c "+").
Definition plain_value (v : string) : Prop := all_chars value_char v = true.

(** Every "and" and "or" has terms, every value is plain. *)
Fixpoint printable (c : Condition) : Prop :=
  match c with
  | Cond kind values terms =>
      if (kind =s "and") || (kind =s "or")
      then terms ≠ [] ∧ (fix each (l : list Condition) : Prop :=
                           match l with [] => True | t :: l => printable t ∧ each l end) terms
      else Forall plain_value values
  end.

Lemma printable_terms kind values terms :
  (kind =s "and") || (kind =s "or") = true →
  printable (Cond kind values terms) ↔ terms ≠ [] ∧ Forall printable terms.
Proof.
  intros Hk. simpl. rewrite Hk. f_equiv. clear. induction terms as [|t l IH]; [done|].
  by rewrite Forall_cons, IH.
Qed.

Definition MatchPrintable (m : RouteMatch) : Prop :=
  Forall plain_value (rm_DomainExact m ++ rm_DomainSuffix m ++ rm_IPCIDRs m ++ rm_Network m) ∧
  (rm_DomainExact m ≠ [] ∨ rm_DomainSuffix m ≠ [] ∨ rm_RuleSetIDs m ≠ [] ∨ rm_IPCIDRs m ≠ [] ∨
   rm_DestinationPorts m ≠ [] ∨ rm_Network m ≠ []).

Definition EntriesPrintable (entries : list RuleSetEntry) : Prop :=
  entries ≠ [] ∧ Forall (λ e, plain_value (entry_value e)) entries.

Section Contract.
Context {P : Platform}.

(** Patterns and minimal sizes of the schema: a domain name has letters, digits, dots
    and dashes, a prefix digits, dots, colons and a slash. *)
Record TextContract : Prop := {
  (** [route_match]: [minProperties] is 1. *)
  tc_match : ∀ m, validateValue "route_match" (SV_RouteMatch m) = None → MatchPrintable m;
  (** [domain_match], inside of [dns_profile]. *)
  tc_dns : ∀ p, validateValue "dns_profile" (SV_DNSProfile p) = None →
    Forall (λ r, MatchPrintable (dns_route_match (dru_Match r))) (dp_Rules p);
  (** [rule_set_write.entries]: [minItems] is 1. *)
  tc_entries : ∀ w, validateValue "rule_set_write" (SV_RuleSetWrite w) = None →
    EntriesPrintable (rsw_Entries w) }.

Definition SetsPrintable (resources : gmap string Resource) : Prop :=
  ∀ id s, r_Payload (resource_at resources id) = Payload_RuleSet s → EntriesPrintable (rset_Entries s).

Lemma number_plain n : plain_value (Itoa n).
Proof.
  eapply all_chars_impl; [|apply Itoa_chars]. intros c. unfold number_char, value_char. intros Hc.
  apply negb_true_iff. rewrite !orb_false_iff, !Ascii.eqb_neq. by split_and!; intros ->.
Qed.

Lemma plain_app v w : plain_value v → plain_value w → plain_value (v +:+ w).
Proof. unfold plain_value. rewrite all_chars_app. by intros -> ->. Qed.

Lemma port_value_plain p : plain_value (port_value p).
Proof.
  unfold port_value. destruct (_ =? _); [apply number_plain|].
  apply plain_app; [apply number_plain|]. by apply plain_app; [|apply number_plain].
Qed.

Lemma add_term_printable kind values :
  (kind =s "and") = false → (kind =s "or") = false → Forall plain_value values →
  Forall printable (add_term kind values).
Proof.
  intros Ha Ho Hv. destruct values as [|v vs]; [constructor|]. apply Forall_singleton.
  cbn [printable]. by rewrite Ha, Ho.
Qed.

Lemma add_term_nil kind values : add_term kind values = [] → values = [].
Proof. by destruct values. Qed.

Lemma entry_term_printable e : plain_value (entry_value e) → printable (entry_term e).
Proof.
  intros Hv. destruct (entry_kind_atom e) as [Ha Ho]. unfold entry_term.
  cbn [printable]. rewrite Ha, Ho. by apply Forall_singleton.
Qed.

Lemma sets_printable resources dns ids :
  SetsPrintable resources → rule_sets_ok resources dns ids → ids ≠ [] →
  printable (Cond "or" [] (entry_term <$> mjoin (entries_at resources <$> ids))).
Proof.
  intros Hs Hok Hne.
  assert (∀ id, id ∈ ids → EntriesPrintable (entries_at resources id)) as He.
  { intros id Hid. destruct (Hok _ Hid) as (s & Ep & _). unfold entries_at. rewrite Ep.
    by eapply Hs. }
  apply printable_terms; [done|]. split.
  - destruct ids as [|id ids]; [done|]. csimpl. destruct (He id) as [H _]; [by left|].
    by destruct (entries_at resources id).
  - apply Forall_fmap, Forall_join, Forall_fmap. apply Forall_forall. intros id Hid.
    eapply Forall_impl; [by apply He|]. intros e. apply entry_term_printable.
Qed.

Lemma routeCondition_printable resources m dns c :
  MatchPrintable m → SetsPrintable resources → routeCondition m resources dns = Ret c → printable c.
Proof.
  intros [Hv Hne] Hs Hc. pose proof (routeCondition_inv _ _ _ _ Hc) as Hok.
  unfold routeCondition in Hc. cbv zeta in Hc. rewrite !Forall_app in Hv.
  destruct Hv as (H1 & H2 & H3 & H4).
  assert (∃ sets, match rm_RuleSetIDs m with
                  | [] => Ret []
                  | ids => let! set := rule_set_terms resources dns ids in Ret [Cond "or" [] set]
                  end = Ret sets ∧ Forall printable sets ∧ (rm_RuleSetIDs m ≠ [] → sets ≠ []))
    as (sets & Hsets & Hp & Hn).
  { destruct (rm_RuleSetIDs m) as [|id ids] eqn:E; [by exists []|].
    rewrite rule_set_terms_Ret by done. eexists. split; [done|]. split; [|done].
    apply Forall_singleton. by eapply sets_printable. }
  rewrite Hsets in Hc.
  match type of Hc with match ?l with _ => _ end = _ => set (terms := l) in Hc end.
  assert (Forall printable terms) as Ht.
  { unfold terms. rewrite !Forall_app. split_and!; try done; apply add_term_printable; try done.
    apply Forall_fmap, Forall_true. intros p. apply port_value_plain. }
  assert (terms ≠ []) as Hterms.
  { unfold terms. rewrite <- !app_assoc. intros (E1 & E)%app_eq_nil.
    repeat (apply app_eq_nil in E as [? E]).
    repeat match goal with H : add_term _ _ = [] |- _ => apply add_term_nil in H end.
    match goal with H : port_value <$> _ = [] |- _ => apply fmap_nil_inv in H end. tauto. }
  destruct terms as [|t [|u l]]; [done| |].
  - simplify_eq. by inversion Ht.
  - injection Hc as <-. by apply printable_terms.
Qed.
End Contract.

(** ** Tags *)

(** Letters of the labels, digits, underscores and dashes: no mark of the syntax. *)
Definition tag_char (c : ascii) : bool :=
  let n := N_of_ascii c in
  is_digit c || ((65 <=? n)%N && (n <=? 90)%N) || ((97 <=? n)%N && (n <=? 122)%N) ||
  Ascii.eqb c "_" || Ascii.eqb c "-".
Definition tag_text (t : string) : Prop := all_chars tag_char t = true.

Lemma hex_tag s : all_chars is_hex_char s = true → tag_text s.
Proof.
  apply all_chars_impl. intros c. unfold is_hex_char, tag_char. cbv zeta.
  rewrite !orb_true_iff, !andb_true_iff, !N.leb_le. intros [[?|?]|?]; intuition lia.
Qed.

Lemma number_tag n : tag_text (Itoa n).
Proof.
  eapply all_chars_impl; [|apply Itoa_chars]. intros c. unfold number_char, tag_char. cbv zeta.
  rewrite !orb_true_iff. tauto.
Qed.

Lemma tag_app s t : tag_text s → tag_text t → tag_text (s +:+ t).
Proof. unfold tag_text. rewrite all_chars_app. by intros -> ->. Qed.

Lemma suffix_tag suf l : suf ∈ l → Forall tag_text l → tag_text suf.
Proof. rewrite Forall_forall. auto. Qed.

Lemma base_tag_text t : base_tag t → tag_text t.
Proof.
  intros (p & suf & Hp & Hsuf & stem & Hst & ->).
  apply tag_app; [by destruct Hp as [->|[->| ->]]|]. apply tag_app; [by apply hex_tag, Hst|].
  eapply suffix_tag; [exact Hsuf|by repeat constructor].
Qed.

Lemma member_tag_text T t : group_tag T → member_tag T t → tag_text t.
Proof.
  intros (stem & Hst & ->) (k & suf & Hsuf & ->). rewrite member_tag_stem.
  repeat apply tag_app; [done|by apply hex_tag, Hst|done|apply number_tag|].
  eapply suffix_tag; [exact Hsuf|by repeat constructor].
Qed.

(** A name a rule can carry as its target. *)
Definition target_text (t : string) : Prop := tag_text t ∧ t ≠ "" ∧ t ≠ "no-resolve".

Lemma base_target t : base_tag t → target_text t.
Proof.
  intros H. split; [by apply base_tag_text|].
  apply base_tag_plain in H as (p & rest & [->|[->| ->]] & -> & _); done.
Qed.
Lemma member_target T t : group_tag T → member_tag T t → target_text t.
Proof.
  intros HT H. split; [by eapply member_tag_text|].
  apply (member_tag_plain T) in H as (p & rest & [->|[->| ->]] & -> & _); done.
Qed.

(** ** What an emitter that prints can rely on *)

Record TextReady (input : EmitInput) : Prop := {
  tx_rules : Forall (λ ru, printable (ru_Condition ru)) (rules_of input);
  tx_dns : ∀ dns, in_DNS input = Some dns → Forall (λ ru, printable (ru_Condition ru)) (di_Rules dns);
  tx_targets : Forall (λ ru, target_text (ResolvePolicyTag input (ru_Target ru))) (rules_of input);
  tx_exit : ∀ exit, ExitTag input = Ok exit → target_text (ResolvePolicyTag input exit) }.

Section PreparedGraph.
Context {P : Platform} {N : Network} {T : GoText}.
Context (Hschema : SchemaContract P) (Htext : TextContract).
Context (digest : string → string) (Hdigest : HexDigest digest) (catalog : CapabilityCatalog).
Context (src : FrozenInputSpec) (input : FrozenInput) (target : Target).
Context (Hnew : NewFrozenInput src = Ok input).
Context (g : Graph) (diags : Diagnostics).
Context (Hprep : Prepare digest catalog input target = Ret (g, diags)).

Let Hwf : WellFormed (normalize_spec src) :=
  proj1 (prepared_wf digest catalog src input target Hnew g diags Hprep).

Lemma resource_payload_valid resources id r :
  MapOf target (fs_Resources (normalize_spec src)) resources → resources !! id = Some r →
  (∀ p, r_Payload r ≠ Payload_PolicyGroup p) → Resource_Validate r = None.
Proof. by eapply lookup_validated. Qed.

Lemma prepared_sets resources :
  MapOf target (fs_Resources (normalize_spec src)) resources → SetsPrintable resources.
Proof.
  intros HM id s Ep. unfold resource_at in Ep.
  destruct (resources !! id) as [r|] eqn:E; simpl in Ep; [|done].
  assert (Resource_Validate r = None) as Hv
    by (eapply resource_payload_valid; [done|done|]; by rewrite Ep).
  unfold Resource_Validate in Hv. cbv zeta in Hv. rewrite Ep in Hv. destruct (negb _); [done|].
  destruct (RuleSet_Validate s) eqn:Es; [done|]. unfold RuleSet_Validate in Es.
  destruct (validateValue "rule_set" _); [done|].
  destruct (RuleSetWrite_Validate _) eqn:Ew; [done|]. unfold RuleSetWrite_Validate in Ew.
  destruct (validateValue "rule_set_write" _) eqn:Ev; [done|]. by apply (tc_entries Htext) in Ev.
Qed.

Lemma rules_printable {A} (get : A → RouteMatch) dns (Q : A → RouteRule → Prop) resources rules compiled :
  SetsPrintable resources → Forall (λ rule, MatchPrintable (get rule)) rules →
  Forall2 (λ rule ru, routeCondition (get rule) resources dns = Ret (ru_Condition ru) ∧ Q rule ru)
    rules compiled →
  Forall (λ ru, printable (ru_Condition ru)) compiled.
Proof.
  intros Hs Hm HF. induction HF as [|rule ru rules rus [Hc _] _ IH]; [constructor|].
  apply Forall_cons in Hm as [Hm Hrules]. constructor; [|by apply IH].
  by eapply routeCondition_printable.
Qed.

Lemma Forall_filter {A} (Q R : A → Prop) `{∀ x, Decision (R x)} l : Forall Q l → Forall Q (filter R l).
Proof. rewrite !Forall_forall. intros HQ x [_ Hx]%list_elem_of_filter. auto. Qed.

Lemma prepared_routing_printable :
  Forall (λ ru, printable (ru_Condition ru)) (rules_of (emit_input g)).
Proof.
  unfold rules_of. simpl. destruct (g_Routing g) as [ri|] eqn:E; [|constructor].
  destruct (prepared_graph Hschema digest Hdigest catalog src input target Hnew g diags Hprep)
    as (resources & s & HM & _ & _ & HO).
  pose proof (or_routing _ _ _ _ _ _ HO) as HR. unfold RoutingOk in HR. rewrite E in HR.
  destruct (fs_RoutingProfile _) as [ref|]; [|done]. destruct HR as (r & p & Hl & Ep & _ & _ & _ & HF).
  assert (Resource_Validate r = None) as Hv
    by (eapply resource_payload_valid; [done|done|]; by rewrite Ep).
  unfold Resource_Validate in Hv. cbv zeta in Hv. rewrite Ep in Hv. destruct (negb _); [done|].
  destruct (RoutingProfile_Validate p) eqn:Erp; [done|]. unfold RoutingProfile_Validate in Erp.
  destruct (validateValue "routing_profile" _); [done|]. rewrite range_err_None in Erp.
  eapply (rules_printable (λ rule, rr_Match rule)); [by apply prepared_sets| |exact HF].
  apply Forall_filter, Forall_lookup. intros i rule Hr. specialize (Erp _ _ Hr).
  destruct (RoutingRule_Validate rule) eqn:Er; [done|]. unfold RoutingRule_Validate in Er.
  destruct (validateValue "routing_rule" _); [done|].
  destruct (RouteMatch_Validate (rr_Match rule)) eqn:Em; [done|]. unfold RouteMatch_Validate in Em.
  destruct (validateValue "route_match" _) eqn:Es; [done|]. by apply (tc_match Htext).
Qed.

Lemma prepared_dns_printable dns :
  in_DNS (emit_input g) = Some dns → Forall (λ ru, printable (ru_Condition ru)) (di_Rules dns).
Proof.
  simpl. intros E.
  destruct (prepared_graph Hschema digest Hdigest catalog src input target Hnew g diags Hprep)
    as (resources & s & HM & _ & _ & HO).
  pose proof (or_dns _ _ _ _ _ _ HO) as HD. unfold DNSOk in HD. rewrite E in HD.
  destruct (fs_DNSProfile _) as [ref|]; [|done].
  destruct HD as (r & p & Hl & Ep & _ & _ & _ & _ & HF).
  assert (Resource_Validate r = None) as Hv
    by (eapply resource_payload_valid; [done|done|]; by rewrite Ep).
  unfold Resource_Validate in Hv. cbv zeta in Hv. rewrite Ep in Hv. destruct (negb _); [done|].
  destruct (DNSProfile_Validate p) eqn:Edp; [done|]. unfold DNSProfile_Validate in Edp.
  destruct (validateValue "dns_profile" _) eqn:Es; [done|].
  eapply (rules_printable (λ rule, dns_route_match (dru_Match rule)));
    [by apply prepared_sets| |exact HF].
  by apply Forall_filter, (tc_dns Htext).
Qed.

(** Every tag of the graph can be a target. *)
Lemma prepared_tags : Forall target_text (AllTags g).
Proof.
  destruct (prepared_graph Hschema digest Hdigest catalog src input target Hnew g diags Hprep)
    as (resources & s & HM & _ & _ & HO).
  eapply Forall_impl; [apply (or_shape _ _ _ _ _ _ HO)|].
  intros t [Ht|(U & HU & Ht)]; [by apply base_target|by eapply member_target].
Qed.

Lemma prepared_resolve tag :
  tag ∈ AllTags g ∨ tag = "direct" ∨ tag = BlockTag → target_text (ResolvePolicyTag (emit_input g) tag).
Proof.
  intros Ht. pose proof prepared_tags as Hall. rewrite Forall_forall in Hall.
  unfold ResolvePolicyTag. destruct (list_find _ _) as [[i p]|] eqn:E.
  - apply list_find_Some in E as (Hi & _ & _). apply list_elem_of_lookup_2 in Hi.
    destruct (prepared_policies_ready Hschema digest Hdigest catalog src input target Hnew g diags Hprep)
      as [_ Hp].
    rewrite Forall_forall in Hp. destruct (Hp _ Hi) as (_ & _ & _ & _ & Hd & _).
    apply Hall. unfold AllTags. set_solver.
  - destruct Ht as [Ht|[->| ->]]; [by apply Hall|done|done].
Qed.

Lemma GNames_listed tag id : GNames g tag id → tag ∈ AllTags g.
Proof.
  unfold GNames, AllTags. rewrite elem_of_app. intros [H|(p & Hp & <- & _)].
  - left. by eapply Exit_listed.
  - right. by apply list_elem_of_fmap_2.
Qed.

Lemma Stands_tag ref tag : Stands g ref tag → tag ∈ AllTags g ∨ tag = "direct" ∨ tag = BlockTag.
Proof.
  unfold Stands. destruct (_ =s BuiltinRef).
  - destruct (_ =s Direct); auto.
  - intros H%GNames_listed. by left.
Qed.

Lemma prepared_targets :
  Forall (λ ru, target_text (ResolvePolicyTag (emit_input g) (ru_Target ru))) (rules_of (emit_input g)).
Proof.
  unfold rules_of. simpl. destruct (g_Routing g) as [ri|] eqn:E; [|constructor].
  destruct (prepared_graph Hschema digest Hdigest catalog src input target Hnew g diags Hprep)
    as (resources & s & HM & _ & _ & HO).
  pose proof (or_routing _ _ _ _ _ _ HO) as HR. unfold RoutingOk in HR. rewrite E in HR.
  destruct (fs_RoutingProfile _) as [ref|]; [|done]. destruct HR as (r & p & _ & _ & _ & _ & _ & HF).
  eapply Forall2_Forall_r; [exact HF|]. apply Forall_true. intros rule ru [_ Hs].
  by eapply prepared_resolve, Stands_tag.
Qed.

Lemma prepared_exit exit :
  ExitTag (emit_input g) = Ok exit → target_text (ResolvePolicyTag (emit_input g) exit).
Proof.
  intros Hx. apply prepared_resolve. unfold ExitTag in Hx. simpl in Hx.
  destruct (String.eqb_spec (g_FinalTag g) "") as [Ef|Ef]; simpl in Hx.
  - left. unfold AllTags, outbound_tag_list.
    destruct (g_Policies g) as [|p ps]; [|injection Hx as <-; set_solver].
    destruct (g_Chains g) as [|c cs]; [|injection Hx as <-; csimpl; set_solver].
    destruct (g_Independents g); [done|]. injection Hx as <-. set_solver.
  - injection Hx as <-.
    destruct (prepared_graph Hschema digest Hdigest catalog src input target Hnew g diags Hprep)
      as (resources & s & HM & _ & _ & HO).
    pose proof (or_routing _ _ _ _ _ _ HO) as HR. unfold RoutingOk in HR.
    destruct (fs_RoutingProfile _) as [ref|], (g_Routing g); try done.
    destruct HR as (r1 & p1 & _ & _ & _ & _ & Hs & _). by eapply Stands_tag.
Qed.

Lemma prepared_text : TextReady (emit_input g).
Proof.
  split; [apply prepared_routing_printable|apply prepared_dns_printable|apply prepared_targets|
          apply prepared_exit].
Qed.
End PreparedGraph.

(** ** The patterns of a printable condition *)

Section Patterns.
Context (exact suffix : string).

Definition PlainPattern (p : string) : Prop :=
  ∃ v, plain_value v ∧ (p = exact +:+ v ∨ p = suffix +:+ v).

Lemma prefixed_plain kind values :
  Forall plain_value values → Forall PlainPattern (prefixed_values exact suffix kind values).
Proof.
  intros H. apply Forall_fmap. eapply Forall_impl; [exact H|]. intros v Hv. exists v. simpl.
  unfold domain_prefix. destruct (_ =s _); auto.
Qed.

Lemma sorted_subset (l : list string) v : v ∈ CompactFunc String.eqb (sort_strings l) ↔ v ∈ l.
Proof.
  unfold sort_strings. by rewrite elem_of_CompactFunc, elem_of_isort by (intros ??; apply String.eqb_eq).
Qed.

Lemma combine_plain kind i out next :
  Forall PlainPattern out → Forall PlainPattern next →
  Forall PlainPattern (domains_combine suffix kind i out next).
Proof.
  intros Ho Hn. unfold domains_combine. destruct (kind =s "or"); [by apply Forall_app|].
  destruct i; [done|]. rewrite Forall_forall in *. intros p. unfold domains_intersection.
  rewrite sorted_subset, elem_of_app, !list_elem_of_filter. intros [[_ ?]|[_ ?]]; auto.
Qed.

Lemma domains_plain c l : printable c → domains_of exact suffix c = Ok l → Forall PlainPattern l.
Proof.
  revert l. induction c as [kind values terms IH] using Condition_nested_ind. intros l Hp. simpl.
  destruct ((kind =s "domain") || (kind =s "domain_suffix")) eqn:Ek.
  { destruct (over_rules values); [done|]. intros [= <-]. apply prefixed_plain.
    by apply orb_true_iff in Ek as [->%String.eqb_eq| ->%String.eqb_eq]. }
  destruct (negb _ || _) eqn:Ec; [done|]. apply orb_false_iff in Ec as [Hk%negb_false_iff _].
  apply printable_terms in Hp as [_ Hp]; [|done].
  match goal with |- context [?each 0%nat [] terms] => set (loop := each) end.
  assert (∀ i out r, Forall PlainPattern out → loop i out terms = Ok r → Forall PlainPattern r) as Hloop.
  { clear Hk Ek. induction IH as [|c terms Hc _ IH]; intros i out r Hout; simpl; [by intros [= <-]|].
    apply Forall_cons in Hp as [Hp1 Hp].
    destruct (domains_of exact suffix c) as [next|] eqn:Ed; [|done].
    destruct (over_rules _); [done|]. apply (IH Hp). apply combine_plain; [done|by apply Hc]. }
  destruct (loop 0%nat [] terms) as [out|] eqn:El; [|done]. intros [= <-].
  pose proof (Hloop _ _ _ (Forall_nil_2 _) El) as Hout. rewrite Forall_forall in *.
  intros p Hin. apply Hout. by apply sorted_subset.
Qed.
End Patterns.
