(* ===== verification/XrayFacts.v ===== *)
(** The routing of the Xray document: the rules of a compiled rule match exactly the
    connections of its condition, and the first rule that matches is the first
    compiled rule that does. *)
From S2P Require Import Prelude Diagnostics IRTypes IRValidate Labels Adapter Network Domains.
From S2P Require Import Xray Compiler RouteFacts MemberFacts ConditionFacts EmitFacts.

Import Xray.

(** ** The core *)

Section Matching.
Context {N : Network}.

(** How the Xray core matches one entry of each field of a routing rule: "full:" names
    one domain and "domain:" a tree, an IP entry is a prefix, a port list has ports and
    ranges "a-b", a network list has networks, both separated by commas. *)
Class XrayMatching (c : Connection) := {
  nm_domain : string → bool; nm_ip : string → bool;
  nm_port : string → bool; nm_network : string → bool;
  nm_full : ∀ v, nm_domain ("full:" +:+ v) = conn_atom c "domain" v;
  nm_tree : ∀ v, nm_domain ("domain:" +:+ v) = conn_atom c "domain_suffix" v;
  nm_prefix : ∀ v, nm_ip v = ip_matches c v;
  nm_port_list : ∀ ports, ports ≠ [] → Forall port_ok ports →
    nm_port (String.concat "," ((replace_char ":" "-" ∘ port_value) <$> ports)) =
    existsb (c_port c) (port_value <$> ports);
  nm_network_list : ∀ vs, vs ≠ [] → Forall is_network vs →
    nm_network (String.concat "," vs) = existsb (c_network c) vs }.
End Matching.

(** ** Alternatives of conjunctions *)

Lemma existsb_mjoin {A} (f : A → bool) (ls : list (list A)) :
  existsb f (mjoin ls) = existsb (existsb f) ls.
Proof. induction ls as [|l ls IH]; csimpl; [done|]. by rewrite existsb_app, IH. Qed.

Lemma existsb_false {A} (l : list A) : existsb (λ _, false) l = false.
Proof. by induction l. Qed.

Section Distribute.
Context (atom : string → string → bool).
Notation conj := (forallb (eval atom)).

(** The product of the alternatives of two conjuncts is their conjunction. *)
Lemma existsb_product (xs ys : list (list Condition)) :
  existsb conj (a ← xs; b ← ys; [a ++ b]) = existsb conj xs && existsb conj ys.
Proof.
  induction xs as [|a xs IH]; csimpl; [done|]. rewrite existsb_app, IH.
  assert (existsb conj (b ← ys; [a ++ b]) = conj a && existsb conj ys) as ->.
  { clear. induction ys as [|b ys IH]; csimpl; [by rewrite andb_false_r|].
    by rewrite IH, forallb_app, andb_orb_distrib_r. }
  by rewrite andb_orb_distrib_l.
Qed.

Lemma existsb_products (branches : list (list (list Condition))) acc :
  existsb conj (foldl (λ result alternatives, a ← result; b ← alternatives; [a ++ b]) acc branches)
  = existsb conj acc && forallb (existsb conj) branches.
Proof.
  revert acc. induction branches as [|b branches IH]; intros acc; simpl; [by rewrite andb_true_r|].
  by rewrite IH, existsb_product, andb_assoc.
Qed.

(** [distribute] is a disjunctive normal form. *)
Lemma distribute_eval c : existsb conj (distribute c) = eval atom c.
Proof.
  induction c as [kind values terms IH] using Condition_nested_ind. simpl.
  match goal with |- context [mjoin (?each terms)] => set (branches := each terms) end.
  assert (Forall2 (λ branch t, existsb conj branch = eval atom t) branches terms) as Hb.
  { subst branches. induction IH as [|t terms Ht _ IHt]; simpl; constructor; done. }
  destruct (String.eqb_spec kind "or") as [->|Hor].
  { rewrite existsb_mjoin. simpl. clear IH. clearbody branches.
    induction Hb as [|b t bs ts Hbt _ IHb]; simpl; [done|]. by rewrite Hbt, IHb. }
  destruct (String.eqb_spec kind "and") as [->|Hand].
  { rewrite existsb_products. simpl. clear IH. clearbody branches.
    induction Hb as [|b t bs ts Hbt _ IHb]; simpl; [done|]. by rewrite Hbt, IHb. }
  simpl. rewrite andb_true_r, orb_false_r. cbn [eval].
  by destruct (String.eqb_spec kind "and"), (String.eqb_spec kind "or").
Qed.
End Distribute.

(** ** The branches of a condition *)

Notation product := (foldl (λ result alternatives, a ← result; b ← alternatives; [a ++ b])).

Lemma distribute_eq kind values terms :
  distribute (Cond kind values terms) =
    if kind =s "or" then mjoin (distribute <$> terms)
    else if kind =s "and" then product [[]] (distribute <$> terms)
    else [[Cond kind values terms]].
Proof.
  assert (∀ l, (fix each (l : list Condition) : list (list (list Condition)) :=
             match l with [] => [] | t :: l => distribute t :: each l end) l = distribute <$> l) as H.
  { intros l. induction l as [|t l IH]; csimpl; [done|by rewrite IH]. }
  simpl. by rewrite H.
Qed.

(** A property of branches that holds of every alternative and of concatenations. *)
Lemma product_Forall (Q : list Condition → Prop) acc branches :
  (∀ a b, Q a → Q b → Q (a ++ b)) → Forall Q acc → Forall (Forall Q) branches →
  Forall Q (product acc branches).
Proof.
  intros Happ Hacc Hb. revert acc Hacc. induction Hb as [|alt branches Halt _ IH]; intros acc Hacc; [done|].
  simpl. apply IH. rewrite Forall_forall in *. intros x.
  rewrite list_elem_of_bind. setoid_rewrite list_elem_of_bind.
  intros (a & (b & ->%list_elem_of_singleton & Hb) & Ha). auto.
Qed.

Lemma product_bound (f : list Condition → nat) acc n branches ns :
  (∀ a b, f (a ++ b) = f a + f b)%nat → Forall (λ a, f a ≤ n)%nat acc →
  Forall2 (λ alt m, Forall (λ b, f b ≤ m)%nat alt) branches ns →
  Forall (λ x, f x ≤ n + sum_list ns)%nat (product acc branches).
Proof.
  intros Happ Hacc Hb. revert acc n Hacc.
  induction Hb as [|alt m branches ns Halt _ IH]; intros acc n Hacc; simpl.
  { by rewrite Nat.add_0_r. }
  rewrite Nat.add_assoc. apply IH. rewrite Forall_forall in *. intros x.
  rewrite list_elem_of_bind. setoid_rewrite list_elem_of_bind.
  intros (a & (b & ->%list_elem_of_singleton & Hb') & Ha). rewrite Happ.
  specialize (Hacc _ Ha). specialize (Halt _ Hb'). lia.
Qed.

Section Branches.
Context {N : Network}.

Lemma distribute_leaves c : leaves_ok c → Forall (Forall TermOk) (distribute c).
Proof.
  induction c as [kind values terms IH] using Condition_nested_ind. rewrite distribute_eq. intros Hl.
  destruct ((kind =s "and") || (kind =s "or")) eqn:Ek.
  - rewrite leaves_ok_terms in Hl by done.
    assert (Forall (Forall (Forall TermOk)) (distribute <$> terms)) as Hb.
    { apply Forall_fmap. rewrite Forall_forall in *. intros t Ht. apply IH; auto. }
    destruct (String.eqb_spec kind "or"); [by apply Forall_join|].
    destruct (String.eqb_spec kind "and"); [|done].
    apply product_Forall; [by intros; apply Forall_app|by repeat constructor|done].
  - pose proof Ek as Ek'. apply orb_false_iff in Ek' as [-> ->]. simpl in Hl. rewrite Ek in Hl.
    by apply Forall_singleton, Forall_singleton.
Qed.

(** How many terms of a kind a branch has. *)
Definition kind_count (k : string) (branch : list Condition) : nat :=
  length (filter (λ t, kind_of t = k) branch).

Lemma distribute_count k c :
  Forall (λ branch, kind_count k branch ≤ count k c)%nat (distribute c).
Proof.
  induction c as [kind values terms IH] using Condition_nested_ind. rewrite distribute_eq.
  cbn [count]. destruct (kind =s "or"); [|destruct (kind =s "and")].
  - apply Forall_join, Forall_fmap. rewrite Forall_forall in *. intros t Ht.
    eapply Forall_impl; [by apply IH|]. intros branch Hb. simpl in *.
    assert (count k t ≤ foldr (λ t n, Nat.max (count k t) n) 0 terms)%nat; [|lia].
    clear -Ht. induction terms as [|u terms IHt]; [by apply elem_of_nil in Ht|]. simpl.
    apply elem_of_cons in Ht as [->|Ht]; [lia|]. specialize (IHt Ht). lia.
  - replace (foldr (λ t n, count k t + n)%nat 0%nat terms) with (0 + sum_list (count k <$> terms))%nat
      by (clear; induction terms as [|t l IHl]; csimpl; lia).
    apply product_bound.
    + intros a b. unfold kind_count. by rewrite filter_app, length_app.
    + repeat constructor.
    + clear -IH. induction IH; csimpl; constructor; done.
  - repeat constructor. unfold kind_count. destruct (String.eqb_spec kind k) as [->|Hne].
    + rewrite filter_cons_True by done. simpl. lia.
    + by rewrite filter_cons_False by done.
Qed.

(** A branch constrains the port and the network at most once. *)
Definition BranchOk (branch : list Condition) : Prop :=
  Forall TermOk branch ∧ (kind_count "port" branch ≤ 1)%nat ∧ (kind_count "network" branch ≤ 1)%nat.

Lemma ConditionOk_branches c : ConditionOk c → Forall BranchOk (distribute c).
Proof.
  intros (Hl & Hp & Hn). pose proof (distribute_leaves c Hl) as H1.
  pose proof (distribute_count "port" c) as H2. pose proof (distribute_count "network" c) as H3.
  rewrite Forall_forall in *. intros branch Hin. specialize (H1 _ Hin). specialize (H2 _ Hin).
  specialize (H3 _ Hin). simpl in *. split_and!; [done|lia..].
Qed.
End Branches.

(** ** Intersections *)

(** An inclusion test is exact on the well-formed patterns [W] when including means
    matching more, and patterns that both match include one another. *)
Record ExactInclusion (W : string → Prop) (includes : string → string → bool)
    (M : string → bool) : Prop := {
  ei_sound : ∀ a b, W a → W b → includes a b = true → M b = true → M a = true;
  ei_total : ∀ a b, W a → W b → M a = true → M b = true →
    includes a b = true ∨ includes b a = true }.

Lemma elem_of_intersect includes xs ys v :
  v ∈ intersection includes xs ys ↔
    ∃ a b, a ∈ xs ∧ b ∈ ys ∧
      v ∈ (if includes a b then [b] else if includes b a then [a] else []).
Proof.
  unfold intersection, sort_strings.
  rewrite elem_of_CompactFunc by (intros ??; apply String.eqb_eq).
  rewrite elem_of_isort, list_elem_of_bind. setoid_rewrite list_elem_of_bind. naive_solver.
Qed.

Lemma intersection_W W includes xs ys :
  Forall W xs → Forall W ys → Forall W (intersection includes xs ys).
Proof.
  rewrite !Forall_forall. intros Hx Hy v (a & b & Ha & Hb & Hv)%elem_of_intersect.
  destruct (includes a b); [|destruct (includes b a)]; set_solver.
Qed.

Lemma intersection_exact W includes M xs ys :
  ExactInclusion W includes M → Forall W xs → Forall W ys →
  existsb M (intersection includes xs ys) = existsb M xs && existsb M ys.
Proof.
  intros [Hs Ht] Hx Hy. rewrite Forall_forall in Hx. rewrite Forall_forall in Hy.
  apply eq_true_iff_eq. rewrite andb_true_iff, !existsb_elem. split.
  - intros (v & (a & b & Ha & Hb & Hv)%elem_of_intersect & Hm).
    destruct (includes a b) eqn:E1; [|destruct (includes b a) eqn:E2; [|by apply elem_of_nil in Hv]];
      apply list_elem_of_singleton in Hv as ->; eauto 10.
  - intros [(a & Ha & Ma) (b & Hb & Mb)].
    destruct (includes a b) eqn:E1; [|destruct (includes b a) eqn:E2].
    + exists b. split; [|done]. apply elem_of_intersect. exists a, b. rewrite E1. set_solver.
    + exists a. split; [|done]. apply elem_of_intersect. exists a, b. rewrite E1, E2. set_solver.
    + destruct (Ht a b); auto; congruence.
Qed.

(** Domain patterns of the two prefixes. *)
Definition DomainPattern (p : string) : Prop :=
  ∃ v, p = "full:" +:+ v ∨ p = "domain:" +:+ v.

Lemma cut_full v : cut_or_all ":" ("full:" +:+ v) = ("full", v).
Proof. by apply (cut_prefix "full"). Qed.
Lemma cut_domain v : cut_or_all ":" ("domain:" +:+ v) = ("domain", v).
Proof. by apply (cut_prefix "domain"). Qed.

Section Matching.
Context {N : Network} (c : Connection) {X : XrayMatching c}.

Lemma nm_full_spec v : nm_domain ("full:" +:+ v) = true ↔ c_domain c = Some v.
Proof.
  rewrite nm_full. unfold conn_atom, domain_atom. simpl.
  destruct (c_domain c) as [d|]; [|done]. rewrite String.eqb_eq. naive_solver.
Qed.

Lemma nm_tree_spec v : nm_domain ("domain:" +:+ v) = true ↔ ∃ d, c_domain c = Some d ∧ under d v.
Proof.
  rewrite nm_tree. unfold conn_atom, domain_atom. simpl.
  destruct (c_domain c) as [d|]; [|naive_solver]. rewrite under_eqb. naive_solver.
Qed.

Lemma domainIncludes_exact : ExactInclusion DomainPattern domainIncludes nm_domain.
Proof.
  assert (∀ a b, (a =s b) || HasSuffix b ("." +:+ a) = true ↔ under b a) as Hu.
  { intros a b. rewrite <- under_eqb. by rewrite String.eqb_sym. }
  split; unfold domainIncludes; intros a b [x [->| ->]] [y [->| ->]];
    rewrite ?cut_full, ?cut_domain; simpl; rewrite ?Hu, ?nm_full_spec, ?nm_tree_spec, ?String.eqb_eq.
  - by intros ->.
  - done.
  - intros H Hd. eauto.
  - intros H (d & Hd & Hdy). exists d. split; [done|]. by eapply under_trans.
  - intros H1 H2. left. congruence.
  - intros H1 (d & H2 & H3). right. congruence.
  - intros (d & H1 & H2) H3. left. congruence.
  - intros (d & H1 & H2) (d' & H3 & H4). rewrite H1 in H3. injection H3 as <-.
    destruct (under_comparable d x y H2 H4); auto.
Qed.

Lemma take_le {A} (n m : nat) (l k : list A) :
  (n ≤ m)%nat → take m l = take m k → take n l = take n k.
Proof.
  intros Hle H. rewrite <- (Nat.min_l n m) by done. by rewrite <- !take_take, H.
Qed.

Lemma prefix_includes_exact : ExactInclusion Prefixed prefix_includes nm_ip.
Proof.
  split; unfold prefix_includes; intros a b [pa Ha] [pb Hb]; rewrite !nm_prefix; unfold ip_matches;
    rewrite Ha, Hb; destruct (c_ip c) as [ip|]; try done; unfold prefix_Contains;
    rewrite !andb_true_iff, ?orb_true_iff, !Bool.eqb_true_iff, !bool_decide_eq_true, !Nat.leb_le.
  - intros [[H1 H2] H3] [H4 H5]. split; [congruence|]. rewrite H2. by eapply take_le.
  - intros [H1 H2] [H3 H4].
    destruct (Nat.le_ge_cases (np_Bits pa) (np_Bits pb)) as [Hle|Hle]; [left|right].
    + split_and!; [congruence| |done]. rewrite H2. symmetry. by eapply take_le.
    + split_and!; [congruence| |done]. rewrite H4. symmetry. by eapply take_le.
Qed.

(** ** Rules *)

(** An empty field of a rule does not constrain. *)
Definition any_or {A} (m : A → bool) (l : list A) : bool :=
  match l with [] => true | _ => existsb m l end.
Definition text_or (m : string → bool) (s : string) : bool := if s =s "" then true else m s.

Definition rule_matches (r : routingRule) : bool :=
  any_or nm_domain (rr_Domain r) && any_or nm_ip (rr_IP r) &&
  text_or nm_port (rr_Port r) && text_or nm_network (rr_Network r).

Record RuleOk (r : routingRule) (branch : list Condition) : Prop := {
  ro_domain : Forall DomainPattern (rr_Domain r);
  ro_ip : Forall Prefixed (rr_IP r);
  ro_port : rr_Port r = "" ∨ Forall (λ t, kind_of t ≠ "port") branch;
  ro_network : rr_Network r = "" ∨ Forall (λ t, kind_of t ≠ "network") branch;
  ro_branch : BranchOk branch }.

(** What does not change while a rule is narrowed. *)
Definition same_target (r s : routingRule) : Prop :=
  rr_InboundTag r = rr_InboundTag s ∧ rr_OutboundTag r = rr_OutboundTag s ∧
  rr_BalancerTag r = rr_BalancerTag s.

Lemma filter_le_1 (Q : Condition → Prop) `{∀ t, Decision (Q t)} t branch :
  (length (filter Q (t :: branch)) ≤ 1)%nat →
  (length (filter Q branch) ≤ 1)%nat ∧ (Q t → Forall (λ u, ¬ Q u) branch).
Proof.
  destruct (decide (Q t)) as [Ht|Ht].
  - rewrite filter_cons_True by done. simpl. intros Hlen. split; [lia|]. intros _.
    apply Forall_forall. intros u Hu Qu.
    assert (u ∈ filter Q branch) as Hin by (by apply list_elem_of_filter).
    destruct (filter Q branch); [by apply elem_of_nil in Hin|simpl in Hlen; lia].
  - rewrite filter_cons_False by done. done.
Qed.

Lemma incoming_patterns kind values :
  Forall DomainPattern (prefixed_values "full:" "domain:" kind values).
Proof.
  apply Forall_fmap, Forall_true. intros v. exists v. simpl. unfold domain_prefix.
  destruct (kind =s "domain_suffix"); auto.
Qed.

Lemma incoming_matches kind values :
  kind = "domain" ∨ kind = "domain_suffix" →
  existsb nm_domain (prefixed_values "full:" "domain:" kind values) =
  existsb (conn_atom c kind) values.
Proof.
  intros [->| ->]; induction values as [|v values IH]; try done; simpl in *; rewrite IH; f_equal.
  - apply (nm_full v).
  - apply (nm_tree v).
Qed.

(** Narrowing one field by patterns: the new patterns and whether any are left. *)
Definition narrow (includes : string → string → bool) (old values : list string)
    : list string * bool :=
  match old with
  | [] => (values, true)
  | _ => let l := intersection includes old values in (l, negb (bool_decide (l = [])))
  end.

Lemma narrow_exact W includes M old values :
  ExactInclusion W includes M → Forall W old → Forall W values → values ≠ [] →
  let '(l, more) := narrow includes old values in
  Forall W l ∧ (if more then any_or M l else false) = any_or M old && existsb M values.
Proof.
  intros HE Hl Hv Hne. destruct old as [|x old].
  - simpl. split; [done|]. by destruct values.
  - pose proof (intersection_exact W includes M (x :: old) values HE Hl Hv) as H.
    cbn [narrow]. split; [by apply intersection_W|]. cbn [any_or]. rewrite <- H.
    by destruct (intersection includes (x :: old) values).
Qed.

Lemma RuleOk_tail r t branch (Hr : RuleOk r (t :: branch)) :
  BranchOk branch ∧
  (rr_Port r = "" ∨ Forall (λ t, kind_of t ≠ "port") branch) ∧
  (rr_Network r = "" ∨ Forall (λ t, kind_of t ≠ "network") branch).
Proof.
  destruct Hr as [_ _ Hp Hn [[_ Ht]%Forall_cons [H1 H2]]]. split_and!.
  - split_and!; [done|by apply filter_le_1 in H1 as [? _]|by apply filter_le_1 in H2 as [? _]].
  - rewrite Forall_cons in Hp. tauto.
  - rewrite Forall_cons in Hn. tauto.
Qed.

Definition term_ok (t : Condition) (branch : list Condition) (r : routingRule) : Prop :=
  ∃ o, addCondition r t = Ret o ∧ same_target o.1 r ∧
    (if o.2 then rule_matches o.1 else false) = rule_matches r && eval (conn_atom c) t ∧
    (o.2 = true → RuleOk o.1 branch).

(** A conjunct of the rule's match is replaced by its narrowed form. *)
Ltac conjuncts := by repeat match goal with
  | |- context [any_or ?m ?l] => destruct (any_or m l)
  | |- context [existsb ?m ?l] => destruct (existsb m l)
  | |- context [text_or ?m ?l] => destruct (text_or m l)
  end.

Lemma add_domain r kind values terms branch :
  kind = "domain" ∨ kind = "domain_suffix" →
  RuleOk r (Cond kind values terms :: branch) → values ≠ [] →
  term_ok (Cond kind values terms) branch r.
Proof.
  intros Hk Hr Hne. destruct (RuleOk_tail _ _ _ Hr) as (H1 & H2 & H3).
  set (incoming := prefixed_values "full:" "domain:" kind values).
  pose proof (narrow_exact DomainPattern domainIncludes nm_domain (rr_Domain r) incoming
    domainIncludes_exact (ro_domain _ _ Hr) (incoming_patterns kind values)
    ltac:(by destruct values)) as Hn.
  destruct (narrow _ _ _) as [l more] eqn:En. destruct Hn as [Hl Hn].
  exists (with_domain r l, more). split_and!; [|done| |].
  - unfold addCondition. assert ((kind =s "domain") || (kind =s "domain_suffix") = true) as ->
      by (by destruct Hk as [->| ->]).
    unfold narrow in En. by destruct (rr_Domain r); injection En as <- <-.
  - rewrite eval_term by (by destruct Hk as [->| ->]). rewrite <- incoming_matches by done.
    unfold rule_matches. simpl. revert Hn. unfold incoming. destruct more; intros Hn; [rewrite Hn; conjuncts|].
    revert Hn. conjuncts.
  - intros _. split; try done. apply Hr.
Qed.

Lemma add_ip r values terms branch :
  RuleOk r (Cond "ip_cidr" values terms :: branch) → values ≠ [] → Forall Prefixed values →
  term_ok (Cond "ip_cidr" values terms) branch r.
Proof.
  intros Hr Hne Hp. destruct (RuleOk_tail _ _ _ Hr) as (H1 & H2 & H3).
  pose proof (narrow_exact Prefixed prefix_includes nm_ip (rr_IP r) values
    prefix_includes_exact (ro_ip _ _ Hr) Hp Hne) as Hn.
  destruct (narrow _ _ _) as [l more] eqn:En. destruct Hn as [Hl Hn].
  exists (with_ip r l, more). split_and!; [|done| |].
  - cbv [addCondition String.eqb Ascii.eqb Bool.eqb orb]. unfold narrow in En.
    destruct (rr_IP r) as [|x ip] eqn:Ei; injection En as <- <-; [done|].
    assert (forallb (λ v, bool_decide (is_Some (ParseNetPrefix v))) ((x :: ip) ++ values) = true)
      as -> by (apply (Forall_forallb_iff _ Prefixed);
        [intros v; apply bool_decide_eq_true|apply Forall_app; rewrite <- Ei; split; [apply Hr|done]]).
    done.
  - rewrite eval_term by done.
    assert (existsb (conn_atom c "ip_cidr") values = existsb nm_ip values) as ->
      by (clear; induction values as [|v vs IH]; simpl; [done|]; by rewrite IH, nm_prefix).
    unfold rule_matches. simpl. revert Hn. destruct more; intros Hn; [rewrite Hn; conjuncts|].
    revert Hn. conjuncts.
  - intros _. split; try done. apply Hr.
Qed.

Lemma concat_ne sep x l : x ≠ "" → String.concat sep (x :: l) ≠ "".
Proof. destruct x as [|a x]; [done|]. intros _. by destruct l. Qed.

Lemma replace_char_app old new s t :
  replace_char old new (s +:+ t) = replace_char old new s +:+ replace_char old new t.
Proof.
  induction s as [|a s IH]; [done|]. rewrite string_app_cons. simpl. by rewrite IH, string_app_cons.
Qed.

Lemma replace_char_concat old new l :
  old ≠ ","%char →
  replace_char old new (String.concat "," l) = String.concat "," (replace_char old new <$> l).
Proof.
  intros Hne. assert (replace_char old new "," = ",") as Hsep
    by (cbn [replace_char]; destruct (Ascii.eqb_spec "," old); congruence).
  induction l as [|x [|y l] IH]; [done|done|].
  change (String.concat "," (x :: y :: l)) with (x +:+ "," +:+ String.concat "," (y :: l)).
  by rewrite !replace_char_app, IH, Hsep.
Qed.

Lemma replace_char_ne old new s : s ≠ "" → replace_char old new s ≠ "".
Proof. by destruct s. Qed.

Lemma port_value_ne port : port_value port ≠ "".
Proof.
  unfold port_value. destruct (_ =? _); [apply Itoa_not_empty|].
  pose proof (Itoa_not_empty (pr_From port)). by destruct (Itoa (pr_From port)).
Qed.

Lemma text_or_ne m s : s ≠ "" → text_or m s = m s.
Proof. intros H. unfold text_or. by destruct (String.eqb_spec s ""). Qed.

Lemma add_port r ports terms branch :
  RuleOk r (Cond "port" (port_value <$> ports) terms :: branch) → ports ≠ [] →
  Forall port_ok ports →
  term_ok (Cond "port" (port_value <$> ports) terms) branch r.
Proof.
  intros Hr Hne Hports. destruct (RuleOk_tail _ _ _ Hr) as (H1 & _ & H3).
  assert (rr_Port r = "") as Hp.
  { destruct (ro_port _ _ Hr) as [?|[Hk _]%Forall_cons]; [done|]. by destruct Hk. }
  eexists. split_and!; [reflexivity|done| |].
  - rewrite eval_term by done.
    change (existsb (conn_atom c "port") ?l) with (existsb (c_port c) l).
    unfold rule_matches. simpl. rewrite Hp, text_or_ne.
    + rewrite replace_char_concat, <- list_fmap_compose by done.
      rewrite nm_port_list by done. change (text_or nm_port "") with true. conjuncts.
    + apply replace_char_ne. destruct ports as [|p ports]; [done|]. apply concat_ne, port_value_ne.
  - intros _. split; simpl; try done; [apply Hr|apply Hr|]. right.
    destruct (ro_branch _ _ Hr) as [_ [Hl _]]. by apply filter_le_1 in Hl as [_ Hl]; apply Hl.
Qed.

Lemma add_network r values terms branch :
  RuleOk r (Cond "network" values terms :: branch) → values ≠ [] → Forall is_network values →
  term_ok (Cond "network" values terms) branch r.
Proof.
  intros Hr Hne Hv. destruct (RuleOk_tail _ _ _ Hr) as (H1 & H2 & _).
  assert (rr_Network r = "") as Hp.
  { destruct (ro_network _ _ Hr) as [?|[Hk _]%Forall_cons]; [done|]. by destruct Hk. }
  eexists. split_and!; [reflexivity|done| |].
  - rewrite eval_term by done.
    change (existsb (conn_atom c "network") ?l) with (existsb (c_network c) l).
    unfold rule_matches. simpl. rewrite Hp, (text_or_ne _ (String.concat _ _)).
    + rewrite nm_network_list by done. change (text_or nm_network "") with true. conjuncts.
    + destruct Hv as [|v vs Hv Hvs]; [done|]. apply concat_ne. by destruct Hv as [->| ->].
  - intros _. split; simpl; try done; [apply Hr|apply Hr|]. right.
    destruct (ro_branch _ _ Hr) as [_ [_ Hl]]. by apply filter_le_1 in Hl as [_ Hl]; apply Hl.
Qed.

(** One term narrows the rule to the connections that satisfy it. *)
Lemma addCondition_exact r t branch : RuleOk r (t :: branch) → term_ok t branch r.
Proof.
  intros Hr. pose proof (ro_branch _ _ Hr) as [[Ht _]%Forall_cons _].
  destruct t as [kind values terms].
  destruct Ht as [Hne [Hk|[Hk|[[-> Hp]|[[-> (ports & Hports & ->)]|[-> Hn]]]]]].
  - by apply add_domain; [left| |].
  - by apply add_domain; [right| |].
  - by apply add_ip.
  - apply add_port; [done| |done]. by intros ->.
  - by apply add_network.
Qed.

(** A whole branch: [None] when no connection satisfies it. *)
Lemma add_conditions_exact branch r :
  RuleOk r branch →
  ∃ o, add_conditions r branch = Ret o ∧
    match o with
    | Some r' => same_target r' r ∧ rule_matches r' = rule_matches r && forallb (eval (conn_atom c)) branch
    | None => rule_matches r && forallb (eval (conn_atom c)) branch = false
    end.
Proof.
  revert r. induction branch as [|t branch IH]; intros r Hr.
  { eexists. split; [reflexivity|]. simpl. by rewrite andb_true_r. }
  destruct (addCondition_exact r t branch Hr) as ([r' more] & Ho & Ht & Hm & Hok). simpl in *.
  rewrite Ho. rewrite andb_assoc, <- Hm. destruct more; simpl.
  - destruct (IH r' (Hok eq_refl)) as (o & Hadd & Hres). exists o. split; [done|].
    destruct o as [r''|]; [|done]. destruct Hres as [Hs Hres].
    split; [|done]. unfold same_target in *. intuition congruence.
  - by exists None.
Qed.

(** ** First match *)

(** The outbound or balancer of a rule. *)
Definition rule_target (r : routingRule) : string :=
  if rr_OutboundTag r =s "" then rr_BalancerTag r else rr_OutboundTag r.

(** The first rule for the inbound that matches the connection. *)
Fixpoint native_route (inbound : string) (rules : list routingRule) : option string :=
  match rules with
  | [] => None
  | r :: rules =>
      if bool_decide (inbound ∈ rr_InboundTag r) && rule_matches r then Some (rule_target r)
      else native_route inbound rules
  end.

Definition CompiledOk (rules : list RouteRule) : Prop :=
  Forall (λ ru, Forall BranchOk (distribute (ru_Condition ru))) rules.

Section Rules.
Context (input : EmitInput) (balancers : list balancer).

Lemma rule_to_target inbounds tag : rule_target (rule_to balancers inbounds tag) = tag.
Proof.
  unfold rule_target, rule_to. simpl. destruct (balanced balancers tag); [done|].
  by destruct (String.eqb_spec tag "").
Qed.

Lemma same_target_rule r s : same_target r s → rule_target r = rule_target s.
Proof. unfold rule_target. by intros (_ & -> & ->). Qed.

Definition kept (base : routingRule) (branch : list Condition) : list routingRule :=
  match add_conditions base branch with Ret (Some r) => [r] | _ => [] end.

Lemma kept_route base branch rest :
  RuleOk base branch → rule_matches base = true → InboundTag ∈ rr_InboundTag base →
  native_route InboundTag (kept base branch ++ rest) =
    if forallb (eval (conn_atom c)) branch then Some (rule_target base)
    else native_route InboundTag rest.
Proof.
  intros Hok Hm Hin. unfold kept.
  destruct (add_conditions_exact _ _ Hok) as (o & -> & Ho). rewrite Hm in Ho. simpl in Ho.
  destruct o as [r|]; simpl; [|by rewrite Ho].
  destruct Ho as [Ht ->]. rewrite (same_target_rule _ _ Ht). destruct Ht as [-> _].
  rewrite bool_decide_eq_true_2 by done. done.
Qed.

Lemma target_ok tag branch : BranchOk branch → RuleOk (targetRule input balancers tag) branch.
Proof. intros H. split; simpl; auto. Qed.

Lemma branch_rules_exact ru :
  Forall BranchOk (distribute (ru_Condition ru)) →
  ∃ l, branch_rules input balancers ru = Ret l ∧
    ∀ rest, native_route InboundTag (l ++ rest) =
      if eval (conn_atom c) (ru_Condition ru)
      then Some (ResolvePolicyTag input (ru_Target ru)) else native_route InboundTag rest.
Proof.
  intros Hb. set (base := targetRule input balancers (ru_Target ru)).
  exists (mjoin (kept base <$> distribute (ru_Condition ru))). split.
  - unfold branch_rules. rewrite (range_fold_app _ (kept base)); [done|].
    intros _ branch acc Hin. fold base. unfold kept.
    rewrite Forall_forall in Hb.
    destruct (add_conditions_exact branch base) as (o & -> & _); [by apply target_ok, Hb|].
    by destruct o.
  - intros rest. rewrite <- distribute_eval. induction Hb as [|branch l Hbr _ IH]; csimpl; [done|].
    rewrite <- app_assoc, (kept_route base branch); [|by apply target_ok|done|by left].
    rewrite IH. unfold base, targetRule. rewrite rule_to_target.
    by destruct (forallb _ branch).
Qed.

(** The routing of the document is the routing of the compiled rules. *)
Lemma xray_routing_rules_exact :
  CompiledOk (rules_of input) →
  ∃ rules, routing_rules input balancers = Ret rules ∧
    native_route InboundTag rules =
      Some (ResolvePolicyTag input (route_compiled (conn_atom c) (rules_of input) (exit_of input))).
Proof.
  unfold routing_rules. fold (exit_of input). generalize (exit_of input). intros exit.
  assert (∀ rules, CompiledOk rules → ∃ l,
    range_fold (λ _ r rules, let! new := branch_rules input balancers r in Ret (rules ++ new)) rules []
      = Ret l ∧
    native_route InboundTag (l ++ [targetRule input balancers exit]) =
      Some (ResolvePolicyTag input (route_compiled (conn_atom c) rules exit))) as Hrules.
  { intros l Hl. set (g := λ ru, match branch_rules input balancers ru with Ret l => l | _ => [] end).
    exists (mjoin (g <$> l)). split.
    - rewrite (range_fold_app _ g); [done|]. intros _ ru acc Hin.
      unfold CompiledOk in Hl. rewrite Forall_forall in Hl.
      destruct (branch_rules_exact ru (Hl _ Hin)) as (new & Hn & _). unfold g. by rewrite Hn.
    - induction Hl as [|ru l Hru _ IH]; csimpl.
      + unfold targetRule. by rewrite rule_to_target.
      + destruct (branch_rules_exact ru Hru) as (new & Hn & Hroute). unfold g at 1.
        rewrite Hn, <- app_assoc, Hroute, IH. by destruct (eval _ _). }
  unfold rules_of. destruct (in_Routing input) as [ri|]; intros Hok.
  - destruct (Hrules _ Hok) as (l & -> & Hl). eexists. split; [reflexivity|done].
  - eexists. split; [reflexivity|]. simpl. unfold targetRule. by rewrite rule_to_target.
Qed.
End Rules.
End Matching.


(** ** A core that matches as documented *)

Section Core.
Context {N : Network}.

Lemma port_value_free (sep : ascii) p :
  port_ok p → is_digit sep = false → sep ≠ ":"%char → free_of sep (port_value p) = true.
Proof.
  intros [Hf Ht] Hd Hc.
  assert (∀ n, 0 ≤ n → free_of sep (Itoa n) = true) as Hfree.
  { intros n Hn. eapply all_chars_impl, Itoa_digits; [|done]. intros a Ha. apply negb_true_iff.
    apply Ascii.eqb_neq. by intros ->; rewrite Ha in Hd. }
  unfold port_value. destruct (_ =? _); [by apply Hfree|].
  unfold free_of in *. rewrite !all_chars_app, !Hfree by done. cbn [all_chars].
  destruct (Ascii.eqb_spec ":" sep); [congruence|done].
Qed.

Lemma network_free v : is_network v → free_of "," v = true.
Proof. by intros [->| ->]. Qed.

(** For every connection: patterns by their prefix, lists by their commas. *)
#[export] Program Instance core_matching (c : Connection) : XrayMatching c := {|
  nm_domain p :=
    match c_domain c with Some d => pattern_matches "domain" d p | None => false end;
  nm_ip := ip_matches c;
  nm_port s := existsb (λ w, c_port c (replace_char "-" ":" w)) (Split "," s);
  nm_network s := existsb (c_network c) (Split "," s) |}.
Next Obligation.
  intros c v. unfold conn_atom, domain_atom. simpl. destruct (c_domain c) as [d|]; [|done].
  apply eq_true_iff_eq. rewrite String.eqb_eq.
  by apply (matches_exact "full" "domain").
Qed.
Next Obligation.
  intros c v. unfold conn_atom, domain_atom. simpl. destruct (c_domain c) as [d|]; [|done].
  apply eq_true_iff_eq. rewrite under_eqb. by apply (matches_suffix "domain").
Qed.
Next Obligation. done. Qed.
Next Obligation.
  intros c ports Hne Hp. simpl.
  assert (∀ p, p ∈ ports → replace_char "-" ":" (replace_char ":" "-" (port_value p)) = port_value p)
    as Hback.
  { intros p Hin. apply replace_char_back, port_value_free; try done.
    rewrite Forall_forall in Hp. by apply Hp. }
  rewrite (Split_concat ","); [|by destruct ports|].
  - clear Hne Hp. induction ports as [|p ports IH]; csimpl; [done|].
    rewrite Hback by set_solver. rewrite IH; [done|]. intros q Hq. apply Hback. set_solver.
  - apply Forall_fmap. eapply Forall_impl; [exact Hp|]. intros p Hok. simpl.
    assert (free_of "," (port_value p) = true) as H by by apply port_value_free.
    revert H. generalize (port_value p). intros s. unfold free_of.
    induction s as [|a s IH]; simpl; [done|]. rewrite !andb_true_iff. intros [Ha Hs].
    split; [|by apply IH]. by destruct (Ascii.eqb a ":").
Qed.
Next Obligation.
  intros c vs Hne Hv. simpl. rewrite (Split_concat ","); [done|done|].
  eapply Forall_impl; [exact Hv|]. apply network_free.
Qed.
End Core.

(** ** The document *)

Section Document.
Context {N : Network} {P : Platform} {T : GoText}.

Lemma native_route_skip c `{!XrayMatching c} inbound rules rest :
  Forall (λ r, inbound ∉ rr_InboundTag r) rules →
  native_route c inbound (rules ++ rest) = native_route c inbound rest.
Proof.
  induction 1 as [|r rules Hr _ IH]; simpl; [done|]. by rewrite bool_decide_eq_false_2.
Qed.

(** The outbound an outbound dials through, and where it connects to. *)
Definition dialer_of (o : outbound) : string :=
  match o_Stream o with
  | Some s => match s_Sockopt s with Some k => DialerProxy k | None => "" end
  | None => ""
  end.
Definition endpoint_of (o : outbound) : option (string * Z) :=
  match o_Settings o with
  | Settings_trojan [s] => Some (ts_Address s, ts_Port s)
  | Settings_servers [s] | Settings_vnext [s] => Some (rs_Address s, rs_Port s)
  | _ => None
  end.

(** The rendering of a node: its endpoint, its dialer, and TLS that verifies the
    certificate exactly when the node says so. *)
Definition Renders (n : Node) (tag dialer : string) (o : outbound) : Prop :=
  o_Tag o = tag ∧ dialer_of o = dialer ∧
  endpoint_of o = Some (ep_Host (n_Endpoint n), ep_Port (n_Endpoint n)) ∧
  ∀ t, n_Security n = Security_TLS t → ∃ s tls, o_Stream o = Some s ∧ s_TLS s = Some tls ∧
    t_serverName tls = tls_ServerName t ∧ tls_VerifyCertificate t = Some (negb (t_allowInsecure tls)).

Lemma xray_nodeOutbound_safe tag m dialer n :
  mn_Node m = n → NodeSolid n →
  (∀ t, mn_TLS m = Some t → is_Some (tls_VerifyCertificate t)) →
  (∀ t, n_Security n = Security_TLS t → mn_TLS m = Some t ∧ mn_Reality m = None) →
  safe (nodeOutbound tag m dialer) (Renders n tag dialer).
Proof.
  intros Hn (_ & _ & _ & _ & Hp) Ht Hr. unfold nodeOutbound. cbv zeta. rewrite Hn.
  eapply safe_bind with (Q := λ tls, ∀ t, mn_TLS m = Some t → ∃ s, tls = Some s ∧
    t_serverName s = tls_ServerName t ∧ tls_VerifyCertificate t = Some (negb (t_allowInsecure s))).
  { destruct (mn_TLS m) as [t|] eqn:E; [|done]. destruct (Ht t eq_refl) as [v Hv].
    rewrite Hv. simpl. intros ? [= <-]. eexists. split_and!; [done..|]. simpl. by rewrite negb_involutive. }
  intros tls Htls.
  assert (∀ protocol settings s, s_TLS s = tls →
    s_Sockopt s = (if dialer =s "" then None else Some {| DialerProxy := dialer; DomainStrategy := "" |}) →
    endpoint_of {| o_Protocol := protocol; o_Settings := settings; o_Stream := Some s; o_Tag := tag |} =
      Some (ep_Host (n_Endpoint n), ep_Port (n_Endpoint n)) →
    safe (E:=Diagnostics) (Ret {| o_Protocol := protocol; o_Settings := settings; o_Stream := Some s; o_Tag := tag |})
      (Renders n tag dialer)) as Hitem.
  { intros protocol settings s Hs Hk He. split_and!; [done| |done|].
    - unfold dialer_of. simpl. rewrite Hk. by destruct (String.eqb_spec dialer "").
    - intros t Hsec. destruct (Hr t Hsec) as [Hm _]. destruct (Htls t Hm) as (x & -> & H1 & H2).
      by exists s, x. }
  repeat (apply elem_of_cons in Hp as [->|Hp]; [simpl; by apply Hitem|]). by apply elem_of_nil in Hp.
Qed.

Lemma force_ip_renders n tag dialer o : Renders n tag dialer o → Renders n tag dialer (force_ip o).
Proof.
  intros (H1 & H2 & H3 & H4). split_and!; [done| |done|].
  - rewrite <- H2. unfold dialer_of, force_ip. simpl. destruct (o_Stream o) as [s|]; [|done]. simpl.
    by destruct (s_Sockopt s).
  - intros t Ht. destruct (H4 t Ht) as (s & tls & Hs & Htls & H5). unfold force_ip. simpl. rewrite Hs.
    simpl. by eexists _, tls.
Qed.

(** The outbound of a reference renders its node. *)
Definition RefOutbound (ref : OutboundRef) (o : outbound) : Prop :=
  ∃ n, r_Payload (or_Resource ref) = Payload_Node n ∧ Renders n (or_Tag ref) (or_DialerTag ref) o.

Lemma xray_emit_ref_safe input ref n :
  r_Payload (or_Resource ref) = Payload_Node n → NodeSolid n →
  safe (emit_ref input ref) (RefOutbound ref).
Proof.
  intros Hp Hs. unfold emit_ref. cbv zeta.
  eapply safe_bind; [by apply MapNode_safe|]. intros m (Hn & Ht & Hr).
  destruct (match mn_Reality m with Some _ => _ | None => _ end); [done|].
  eapply safe_bind; [by eapply xray_nodeOutbound_safe|]. intros o Ho.
  eapply safe_bind with (Q := Renders n (or_Tag ref) (or_DialerTag ref)).
  { destruct (in_DNS input); [|done]. destruct (_ && _); [|done]. destruct (all_local _); [|done].
    by apply force_ip_renders. }
  intros o' Ho'. destruct (_ && _); [done|]. by exists n.
Qed.

(** The routes of resolver queries are for the resolvers' own inbounds. *)
Definition ResolverRoutes (routes : list routingRule) : Prop :=
  Forall (λ r, InboundTag ∉ rr_InboundTag r) routes.

(** The tag a resolver's queries leave through. *)
Definition resolver_outbound (input : EmitInput) (dns : DNSInput) (id : string) : string :=
  ResolvePolicyTag input (default "" (di_OutboundTags dns !! id)).

(** The address, port and tag of the resolver [id]. *)
Definition ServerFor (input : EmitInput) (dns : DNSInput) (id : string) (s : dnsServer) : Prop :=
  ∃ i r server, dp_Resolvers (di_Profile dns) !! i = Some r ∧ dr_ResolverID r = id ∧
    dns_server (di_Profile dns) (resolver_outbound input dns id) i r = Ok server ∧
    ds_Address s = ds_Address server ∧ ds_Port s = ds_Port server ∧ ds_Tag s = ds_Tag server.

(** The queries of the first [n] resolvers are routed to their outbounds. *)
Definition QueriesRouted (input : EmitInput) (dns : DNSInput) (n : nat) (routes : list routingRule) : Prop :=
  ∀ i r server c `{!XrayMatching c}, (i < n)%nat → dp_Resolvers (di_Profile dns) !! i = Some r →
    dns_server (di_Profile dns) (resolver_outbound input dns (dr_ResolverID r)) i r = Ok server →
    ds_Tag server ≠ "" →
    native_route c (ds_Tag server) routes = Some (resolver_outbound input dns (dr_ResolverID r)).

Lemma dns_server_shape p tag i r server :
  dns_server p tag i r = Ok server →
  ds_Domains server = [] ∧ ds_SkipFallback server = true ∧
  (ds_Tag server = "" ∨ ds_Tag server = "dns_resolver_" +:+ index_string i).
Proof. unfold dns_server. cbv zeta. repeat case_match; try done; intros [= <-]; simpl; auto. Qed.

Record ServersInv (input : EmitInput) (dns : DNSInput) (n : nat) (s : dns_servers) : Prop := {
  si_servers : ∀ id server kind i, dss_servers s !! id = Some (server, kind, i) →
    ServerFor input dns id server ∧ ds_Domains server = [] ∧ ds_SkipFallback server = true;
  si_routes : Forall (λ rule, ∃ i, (i < n)%nat ∧ rr_InboundTag rule = ["dns_resolver_" +:+ index_string i])
    (dss_routes s);
  si_queries : QueriesRouted input dns n (dss_routes s) }.

Lemma resolver_tag_inj i j : "dns_resolver_" +:+ index_string i = "dns_resolver_" +:+ index_string j → i = j.
Proof. intros H%string_app_cancel. by apply index_string_inj. Qed.

Lemma native_route_app c `{!XrayMatching c} inbound l l' t :
  native_route c inbound l = Some t → native_route c inbound (l ++ l') = Some t.
Proof. induction l as [|r l IH]; simpl; [done|]. by destruct (_ && _). Qed.

Lemma add_server_safe input dns balancers i r s :
  dp_Resolvers (di_Profile dns) !! i = Some r → ServersInv input dns i s →
  safe (add_server input dns balancers i r s) (ServersInv input dns (S i)).
Proof.
  intros Hr [Hs Hroutes Hq]. unfold add_server. cbv zeta.
  fold (resolver_outbound input dns (dr_ResolverID r)).
  apply safe_bind with (Q := λ server,
    dns_server (di_Profile dns) (resolver_outbound input dns (dr_ResolverID r)) i r = Ok server);
    [by apply safe_lift|].
  intros server Hd. pose proof (dns_server_shape _ _ _ _ _ Hd) as (Hdom & Hskip & Htag). simpl.
  split; simpl.
  - intros id srv kind k. destruct (decide (dr_ResolverID r = id)) as [<-|Hne].
    + rewrite lookup_insert_eq. intros [= <- _ _]. split; [|done]. by exists i, r, server.
    + rewrite lookup_insert_ne by done. apply Hs.
  - apply Forall_app. split.
    + eapply Forall_impl; [exact Hroutes|]. intros rule (k & Hk & E). exists k. split; [lia|done].
    + destruct (String.eqb_spec (ds_Tag server) ""); [constructor|]. apply Forall_singleton.
      exists i. split; [lia|]. simpl. destruct Htag as [|Htag]; [done|]. by rewrite Htag.
  - intros k r' srv c X Hk Hr' Hsrv Hne. destruct (decide (k = i)) as [->|Hki].
    + assert (r' = r) as -> by congruence. assert (srv = server) as -> by congruence.
      destruct Htag as [|Htag]; [done|]. rewrite native_route_skip.
      * destruct (String.eqb_spec (ds_Tag server) ""); [done|]. simpl.
        rewrite bool_decide_eq_true_2 by by left. simpl. by rewrite rule_to_target.
      * eapply Forall_impl; [exact Hroutes|]. intros rule (j & Hj & ->).
        rewrite Htag, list_elem_of_singleton. intros E%resolver_tag_inj. lia.
    + apply native_route_app. apply (Hq k r' srv c X); [lia|done..].
Qed.

(** ** The answers *)

Section Query.
Context (d : string) {X : XrayMatching (query d)}.

Definition server_matches (s : dnsServer) : bool := existsb nm_domain (ds_Domains s).

(** The first server that lists the name answers; else the first that takes other names. *)
Definition native_dns (servers : list dnsServer) : option dnsServer :=
  match snd <$> list_find (λ s, server_matches s = true) servers with
  | Some s => Some s
  | None => snd <$> list_find (λ s, ds_SkipFallback s = false) servers
  end.

Lemma pattern_native p : DomainPattern p → nm_domain p = pattern_matches "domain" d p.
Proof.
  intros [v [->| ->]]; apply eq_true_iff_eq.
  - rewrite nm_full_spec. simpl. unfold pattern_matches. rewrite cut_full. simpl.
    rewrite String.eqb_eq. naive_solver.
  - rewrite nm_tree_spec. simpl. unfold pattern_matches. rewrite cut_domain. simpl.
    rewrite under_eqb. naive_solver.
Qed.

Lemma dnsDomains_native t l :
  dnsDomains t = Ok l → existsb nm_domain l = eval (conn_atom (query d)) t.
Proof.
  intros Hd.
  destruct (domains_of_exact "full" "domain" eq_refl eq_refl ltac:(done) t l Hd) as [Hw He].
  assert (eval (conn_atom (query d)) t = eval (domain_atom d) t) as ->.
  { apply (domains_of_eval "full" "domain" _ _ t l); [|exact Hd]. intros kind v Hk. unfold conn_atom. by rewrite Hk. }
  rewrite <- He. unfold patterns_match. clear -Hw X.
  induction Hw as [|p l (v & Hp) _ IH]; [done|]. simpl. rewrite pattern_native, IH; [done|].
  exists v. naive_solver.
Qed.

Record RulesInv (input : EmitInput) (dns : DNSInput) (done : list RouteRule) (s : dns_rules) : Prop := {
  ri_skip : Forall (λ s, ds_SkipFallback s = true) (dr_servers s);
  ri_target : ∀ final, match snd <$> list_find (λ s, server_matches s = true) (dr_servers s) with
    | Some server => ServerFor input dns (route_compiled (conn_atom (query d)) done final) server
    | None => route_compiled (conn_atom (query d)) done final = final
    end }.

Lemma list_find_app_match (l : list dnsServer) s :
  snd <$> list_find (λ s, server_matches s = true) (l ++ [s]) =
    match snd <$> list_find (λ s, server_matches s = true) l with
    | Some s' => Some s'
    | None => if server_matches s then Some s else None
    end.
Proof.
  induction l as [|x l IH]; csimpl.
  - by destruct (server_matches s).
  - destruct (server_matches x) eqn:E; csimpl; [done|]. revert IH.
    destruct (list_find _ (l ++ [s])) as [[]|], (list_find _ l) as [[]|]; simpl; intros IH;
      try congruence; by rewrite <- IH.
Qed.

Lemma add_dns_rule_safe input dns servers kind r done s :
  (∀ id server kind i, servers !! id = Some (server, kind, i) →
     ServerFor input dns id server ∧ ds_Domains server = [] ∧ ds_SkipFallback server = true) →
  RulesInv input dns done s →
  safe (add_dns_rule servers kind r s) (RulesInv input dns (done ++ [r])).
Proof.
  intros Hs [Hskip Ht]. unfold add_dns_rule. cbv zeta.
  destruct (servers !! ru_Target r) as [[[srv k] i]|] eqn:El; [|done].
  destruct (Hs _ _ _ _ El) as (Hfor & _ & Hsrv).
  destruct (dnsDomains (ru_Condition r)) as [domains|] eqn:Ed; [|done].
  pose proof (dnsDomains_native _ _ Ed) as He.
  destruct (_ <? _); [done|]. case_bool_decide as Hd.
  - subst domains. simpl in He |- *. split; simpl; [done|]. intros final.
    rewrite route_compiled_app, <- He. apply Ht.
  - destruct (_ && _); [done|]. destruct (_ && _); [done|]. simpl. split; simpl.
    + apply Forall_app. split; [done|]. by apply Forall_singleton.
    + intros final. rewrite route_compiled_app, list_find_app_match.
      specialize (Ht (if eval (conn_atom (query d)) (ru_Condition r) then ru_Target r else final)).
      destruct (snd <$> list_find _ (dr_servers s)) as [s'|]; [done|]. rewrite Ht.
      unfold server_matches. simpl. rewrite He. by destruct (eval _ _).
Qed.
End Query.

(** Every name is answered by the resolver the profile says, and every resolver's own
    queries leave through its outbound. *)
Definition DNSEmitted (input : EmitInput) (conf : option (list dnsServer)) (routes : list routingRule) : Prop :=
  match in_DNS input, conf with
  | None, None => True
  | Some dns, Some servers =>
      (∀ d `{!XrayMatching (query d)}, ∃ s, native_dns d servers = Some s ∧
         ServerFor input dns
           (route_compiled (conn_atom (query d)) (di_Rules dns) (dp_FinalResolver (di_Profile dns))) s) ∧
      QueriesRouted input dns (length (dp_Resolvers (di_Profile dns))) routes
  | _, _ => False
  end.

Lemma xray_applyDNS_safe input balancers :
  NodeRefs (outbound_list input) →
  safe (applyDNS input balancers) (λ out, ResolverRoutes out.2 ∧ DNSEmitted input out.1 out.2).
Proof.
  intros Hrefs. unfold applyDNS, DNSEmitted. destruct (in_DNS input) as [dns|]; [|by split; [constructor|]].
  cbv zeta. eapply safe_bind with (Q := λ refs, refs = outbound_list input).
  { apply safe_lift. apply OutboundRefs_list. }
  intros refs ->. eapply safe_bind with (Q := λ _, True).
  { apply (safe_fold _ (λ _ _, True)); [done|]. intros i ref [] Hin _.
    apply list_elem_of_lookup_2 in Hin. unfold NodeRefs in Hrefs. rewrite Forall_forall in Hrefs.
    destruct (Hrefs _ Hin) as (n & Hn & _). unfold check_bootstrap. rewrite Hn. by destruct (_ && _). }
  intros _ _.
  assert (safe (range_fold (add_server input dns balancers) (dp_Resolvers (di_Profile dns))
            {| dss_servers := ∅; dss_routes := [] |})
            (ServersInv input dns (length (dp_Resolvers (di_Profile dns))))) as Hs.
  { apply (safe_fold _ (ServersInv input dns)).
    - split; simpl; [intros ????; by rewrite lookup_empty|constructor|]. intros ??????; lia.
    - intros i r s Hr Hs. by apply add_server_safe. }
  destruct (range_fold (add_server _ _ _) _ _) as [s|path|]; [|done..].
  destruct Hs as [Hs Hroutes Hqueries].
  destruct (dss_servers s !! _) as [[[final kind] i]|] eqn:Ef; [|done].
  destruct (over_rules (di_Rules dns)); [done|].
  assert (∀ d (X : XrayMatching (query d)),
    safe (range_fold (λ _ r acc, add_dns_rule (dss_servers s) kind r acc) (di_Rules dns)
            {| dr_servers := []; dr_count := 0; dr_local := "" |}) (RulesInv d input dns (di_Rules dns))) as Hr.
  { intros d X. apply (safe_fold_prefix _ (RulesInv d input dns)); [by split|].
    intros done r rest acc _ Hacc. by apply add_dns_rule_safe. }
  destruct (range_fold (λ _ r acc, _) _ _) as [rules|[code path]|];
    [|done|by apply (Hr "" (core_matching _))].
  simpl in Hr |- *. split_and!; [| |done].
  - unfold ResolverRoutes. eapply Forall_impl; [exact Hroutes|]. intros rule (k & _ & ->).
    rewrite list_elem_of_singleton. intros E. discriminate E.
  - intros d X. destruct (Hr d X) as [Hskip Ht]. specialize (Ht (dp_FinalResolver (di_Profile dns))).
    destruct (Hs _ _ _ _ Ef) as (Hfor & Hdom & _).
    unfold native_dns. rewrite list_find_app_match.
    destruct (snd <$> list_find _ (dr_servers rules)) as [srv|]; [by exists srv|].
    unfold server_matches. simpl. rewrite Hdom. simpl. exists (final_server final). split.
    + rewrite list_find_app_r; [done|].
      apply list_find_None. eapply Forall_impl; [exact Hskip|]. simpl. by intros x ->.
    + rewrite Ht. destruct Hfor as (k & r & srv & H1 & H2 & H3 & H4). by exists k, r, srv.
Qed.

(** ** What an emitted document is *)

Definition is_round_robin (p : PolicyInstance) : Prop := pi_Strategy p = PolicyRoundRobin.

Record Emitted (input : EmitInput) (doc : document) : Prop := {
  em_outbounds : ∃ exit ordered nodes, OrderedOutboundRefs input = Ok (exit, ordered) ∧
    Forall2 RefOutbound ordered nodes ∧
    doc_Outbounds doc = nodes ++ block_outbound :: direct_outbound input;
  em_balancers : Forall (λ p, pi_Strategy p = PolicyFixed ∨ is_round_robin p) (in_Policies input) ∧
    b_Tag <$> doc_Balancers doc = pi_Tag <$> filter is_round_robin (in_Policies input) ∧
    b_Selector <$> doc_Balancers doc = pi_Members <$> filter is_round_robin (in_Policies input);
  em_limits : outbound_total doc ≤ MaxOutbounds ∧ rule_total doc ≤ MaxRules;
  em_dns : DNSEmitted input (doc_DNS doc) (doc_Rules doc);
  em_routes : ∀ c `{!XrayMatching c}, native_route c InboundTag (doc_Rules doc) =
    Some (ResolvePolicyTag input (route_compiled (conn_atom c) (rules_of input) (exit_of input))) }.

Lemma policy_balancers_spec input outbounds policies bs :
  policy_balancers input outbounds policies = Ok bs →
  Forall (λ p, pi_Strategy p = PolicyFixed ∨ is_round_robin p) policies ∧
  b_Tag <$> bs = pi_Tag <$> filter is_round_robin policies ∧
  b_Selector <$> bs = pi_Members <$> filter is_round_robin policies.
Proof.
  revert bs. induction policies as [|p policies IH]; intros bs; simpl; [by intros [= <-]|].
  destruct (policy_balancer input outbounds p) as [b|] eqn:Eb; [|done].
  destruct (policy_balancers _ _ policies) as [rest|]; [|done]. intros [= <-].
  destruct (IH rest eq_refl) as (H1 & H2 & H3). revert Eb. unfold policy_balancer. cbv zeta.
  destruct (String.eqb_spec (pi_Strategy p) PolicyFixed) as [E|E].
  { intros [= <-]. rewrite filter_cons_False by (unfold is_round_robin; by rewrite E).
    split_and!; [constructor; auto|done..]. }
  destruct (String.eqb_spec (pi_Strategy p) PolicyRoundRobin) as [E'|]; [|done]. simpl.
  destruct (existsb _ _); [done|]. intros [= <-].
  rewrite filter_cons_True by done. csimpl. rewrite H2, H3.
  split_and!; [constructor; auto|done..].
Qed.

(** The emitter never panics, and what it returns routes as it should. *)
Lemma xray_emit_document_safe input :
  EmitReady input → safe (emit_document input) (Emitted input).
Proof.
  intros Hready. pose proof Hready as [Hnodes Hconditions _ _].
  assert (CompiledOk (rules_of input)) as Hok.
  { eapply Forall_impl; [exact Hconditions|]. intros ru. apply ConditionOk_branches. }
  unfold emit_document.
  eapply safe_bind with (Q := λ o, OrderedOutboundRefs input = Ok o); [by apply safe_lift|].
  intros [exit ordered] Hord. eapply safe_bind.
  { apply (collect_safe (emit_ref input) RefOutbound); [by intros; eapply xray_emit_ref_safe|].
    by eapply ordered_nodes. }
  intros outbounds Hout. eapply safe_bind with (Q := λ doc,
    outbound_total doc ≤ MaxOutbounds → rule_total doc ≤ MaxRules → Emitted input doc).
  - unfold applyOrchestration.
    apply (safe_bind _ _ (λ _, True)); [by apply safe_lift|]. intros inb _.
    apply (safe_bind _ _ (λ bs, policy_balancers input (outbounds ++ [block_outbound])
      (in_Policies input) = Ok bs)); [by apply safe_lift|]. intros bs Hbs.
    apply (safe_bind _ _ (λ rules, routing_rules input bs = Ret rules)).
    { pose proof (xray_routing_rules_exact {| c_domain := None; c_ip := None; c_port := λ _, false;
        c_network := λ _, false |} input bs Hok) as (rules & -> & _). done. }
    intros rules Hrules. eapply safe_bind; [by apply xray_applyDNS_safe|]. intros dns [Hroutes Hdns]. simpl.
    intros Hc1 Hc2. split; simpl.
    + exists exit, ordered, outbounds. split_and!; [done..|]. by rewrite <- app_assoc.
    + by eapply policy_balancers_spec.
    + done.
    + unfold DNSEmitted in *. destruct (in_DNS input), dns.1; try done. destruct Hdns as [Hd Hq].
      split; [done|]. intros i r server c X Hi Hr Hserver Hne. by eapply native_route_app, Hq.
    + intros c X. rewrite native_route_skip by done.
      destruct (xray_routing_rules_exact c input bs Hok) as (rules' & Hr & Hroute).
      rewrite Hrules in Hr. by injection Hr as <-.
  - intros doc Hdoc. eapply safe_bind with (Q := λ _, CheckNativeCounts input (outbound_total doc) (rule_total doc) = None).
    { by apply safe_fail_if. }
    intros [] Hcounts. simpl. unfold CheckNativeCounts in Hcounts.
    destruct (Z.ltb_spec MaxOutbounds (outbound_total doc)); [done|].
    destruct (Z.ltb_spec MaxRules (rule_total doc)); [done|]. by apply Hdoc.
Qed.
End Document.
