(* ===== verification/SingboxFacts.v ===== *)
(** The routing of the sing-box document: a rule matches exactly the connections of
    its condition, resolving first changes nothing, and the first final rule is the
    first compiled rule that matches. *)
From S2P Require Import Prelude Diagnostics IRTypes Json IRValidate Labels Adapter Network.
From S2P Require Import Domains Singbox Compiler RouteFacts MemberFacts ConditionFacts EmitFacts.

Import Singbox.

(** ** The core *)

(** How the core matches one entry of each field: exact names, names with all names
    below them, prefixes, port ranges "a:b", networks. *)
Class SingboxMatching {N : Network} (c : Connection) := {
  sm_domain : string → bool; sm_suffix : string → bool; sm_ip : string → bool;
  sm_port : string → bool; sm_network : string → bool;
  sm_domain_ok : ∀ v, sm_domain v = conn_atom c "domain" v;
  sm_suffix_ok : ∀ v, sm_suffix v = conn_atom c "domain_suffix" v;
  sm_ip_ok : ∀ v, sm_ip v = conn_atom c "ip_cidr" v;
  sm_port_ok : ∀ p, port_ok p → sm_port (native_port (port_value p)) = c_port c (port_value p);
  sm_network_ok : ∀ v, sm_network v = c_network c v }.

Section Matching.
Context {N : Network}.

Section Rule.
Context (c : Connection) {X : SingboxMatching c}.

Definition any_or {A} (m : A → bool) (l : list A) : bool :=
  match l with [] => true | _ => existsb m l end.

(** A plain rule matches when each of its fields does; a logical one combines its rules. *)
Fixpoint rule_matches (inbound : string) (r : routeRule) : bool :=
  any_or (λ i, i =s inbound) (rr_Inbound r) &&
  if rr_Type r =s "logical" then
    if rr_Mode r =s "and" then forallb (rule_matches inbound) (rr_Rules r)
    else existsb (rule_matches inbound) (rr_Rules r)
  else
    any_or sm_domain (rr_Domain r) && any_or sm_suffix (rr_DomainSuffix r) &&
    any_or sm_ip (rr_IPCIDR r) && any_or sm_port (rr_PortRange r) &&
    any_or sm_network (rr_Network r).

Lemma any_or_map {A B} (f : A → B) m m' (l : list A) :
  l ≠ [] → (∀ x, x ∈ l → m (f x) = m' x) → any_or m (f <$> l) = existsb m' l.
Proof.
  intros Hne Hm. destruct l as [|x l]; [done|]. clear Hne. simpl. rewrite Hm by set_solver. f_equal.
  assert (∀ y, y ∈ l → m (f y) = m' y) as Hl by set_solver. clear Hm.
  induction l as [|y l IH]; simpl; [done|]. rewrite Hl by set_solver. rewrite IH; [done|set_solver].
Qed.

Lemma any_or_ext {A} (m m' : A → bool) l : l ≠ [] → (∀ x, m x = m' x) → any_or m l = existsb m' l.
Proof. intros Hne Hm. rewrite <- (list_fmap_id l) at 1. by apply any_or_map. Qed.

(** The rule of a condition matches exactly where the condition holds. *)
Lemma singbox_nativeCondition_exact inbound t :
  leaves_ok t → rule_matches inbound (nativeCondition t) = eval (conn_atom c) t.
Proof.
  induction t as [kind values terms IH] using Condition_nested_ind. intros Hl.
  destruct ((kind =s "and") || (kind =s "or")) eqn:Ek.
  - rewrite leaves_ok_terms in Hl by done. cbn [nativeCondition rule_matches eval].
    rewrite Ek. cbn [rr_Inbound rr_Type rr_Mode rr_Rules any_or String.eqb].
    assert (Forall (λ t, rule_matches inbound (nativeCondition t) = eval (conn_atom c) t) terms) as Ht.
    { rewrite Forall_forall in *. auto. }
    clear IH Hl. apply orb_true_iff in Ek as [Ek|Ek]; apply String.eqb_eq in Ek as ->; simpl.
    + induction Ht as [|t l Ht _ IHl]; simpl; [done|]. by rewrite Ht, IHl.
    + induction Ht as [|t l Ht _ IHl]; simpl; [done|]. by rewrite Ht, IHl.
  - cbn [leaves_ok] in Hl. rewrite Ek in Hl. destruct Hl as [Hne Hk].
    apply orb_false_iff in Ek as [Ea Eo]. apply String.eqb_neq in Ea, Eo.
    rewrite eval_term by done. clear Ea Eo IH.
    destruct Hk as [->|[->|[[-> _]|[[-> (ports & Hp & ->)]|[-> _]]]]]; simpl;
      rewrite ?andb_true_r.
    + apply any_or_ext; [done|apply sm_domain_ok].
    + apply any_or_ext; [done|apply sm_suffix_ok].
    + apply any_or_ext; [done|apply sm_ip_ok].
    + rewrite <- list_fmap_compose.
      rewrite (any_or_map _ _ (λ p, c_port c (port_value p))).
      * clear. induction ports as [|p ports IH]; csimpl; [done|]. by rewrite IH.
      * by intros ->.
      * intros p Hin. rewrite Forall_forall in Hp. by apply sm_port_ok, Hp.
    + apply any_or_ext; [done|apply sm_network_ok].
Qed.
End Rule.

(** ** First match *)

(** What a "resolve" action makes of a connection: it learns addresses of the name, and
    forgets nothing it knew. *)
Record Resolves (c c' : Connection) : Prop := {
  rs_domain : c_domain c' = c_domain c;
  rs_ip : ∀ ip, c_ip c = Some ip → c_ip c' = Some ip;
  rs_port : c_port c' = c_port c;
  rs_network : c_network c' = c_network c }.

Lemma Resolves_atom c c' kind v : Resolves c c' → conn_atom c kind v = true → conn_atom c' kind v = true.
Proof.
  intros [Hd Hi Hp Hn]. unfold conn_atom, ip_matches. rewrite Hd, Hp, Hn.
  destruct (c_ip c) as [ip|]; [by rewrite (Hi ip)|].
  repeat match goal with |- context [if ?b then _ else _] => destruct b end; try done.
Qed.

(** A condition has no negation: what held still holds. *)
Lemma eval_mono (atom atom' : string → string → bool) t :
  (∀ k v, atom k v = true → atom' k v = true) → eval atom t = true → eval atom' t = true.
Proof.
  intros H. induction t as [kind values terms IH] using Condition_nested_ind. cbn [eval].
  destruct (kind =s "and"); [|destruct (kind =s "or")].
  - induction IH as [|t l Ht _ IHl]; simpl; [done|]. rewrite !andb_true_iff.
    intros [H1 H2]. auto.
  - rewrite !existsb_elem. intros (t & Hin & Ht). exists t. split; [done|].
    rewrite Forall_forall in IH. by apply IH.
  - rewrite !existsb_elem. intros (v & Hin & Hv). exists v. auto.
Qed.

Section Route.
Context {X : ∀ c, SingboxMatching c} (resolve : Connection → Connection).
Context (Hresolve : ∀ c, Resolves c (resolve c)).
Context {P : Platform} {T : GoText}.

(** A matching "resolve" rule goes on with the resolved connection; "reject" and a
    routed rule are final. *)
Fixpoint native_route (inbound : string) (rules : list routeRule) (c : Connection) : option string :=
  match rules with
  | [] => None
  | r :: rules =>
      if rule_matches c inbound r then
        if rr_Action r =s "resolve" then native_route inbound rules (resolve c)
        else if rr_Action r =s "reject" then Some BlockTag
        else Some (rr_Outbound r)
      else native_route inbound rules c
  end.

Lemma native_route_cons inbound r rules c :
  native_route inbound (r :: rules) c =
    if rule_matches c inbound r then
      if rr_Action r =s "resolve" then native_route inbound rules (resolve c)
      else if rr_Action r =s "reject" then Some BlockTag
      else Some (rr_Outbound r)
    else native_route inbound rules c.
Proof. done. Qed.

Context (input : EmitInput).

Lemma matches_target c inbound r action outbound :
  rule_matches c inbound (with_target r action outbound) = rule_matches c inbound r.
Proof. by destruct r. Qed.

(** The rules of a target: all or none of them match, and the last decides. *)
Lemma target_rules_route r tag c rest :
  rr_Action r = "" →
  (rule_matches c InboundTag r = true → rule_matches (resolve c) InboundTag r = true) →
  native_route InboundTag (target_rules input r tag ++ rest) c =
    if rule_matches c InboundTag r then Some (ResolvePolicyTag input tag)
    else native_route InboundTag rest c.
Proof.
  intros Ha Hmono.
  assert (∀ c', native_route InboundTag (targetRule input r tag :: rest) c' =
    if rule_matches c' InboundTag r then Some (ResolvePolicyTag input tag)
    else native_route InboundTag rest c') as Ht.
  { intros c'. unfold targetRule. cbv zeta. cbn [native_route].
    destruct (String.eqb_spec (ResolvePolicyTag input tag) BlockTag) as [E|E];
      rewrite matches_target; cbn [with_target rr_Action rr_Outbound].
    - by rewrite E.
    - rewrite Ha. done. }
  unfold target_rules. destruct (is_some (in_DNS input) && _); simpl app; [|apply Ht].
  rewrite native_route_cons, matches_target. cbn [with_target rr_Action].
  change ("resolve" =s "resolve") with true. cbv iota. rewrite !Ht.
  destruct (rule_matches c InboundTag r); [|done]. by rewrite Hmono.
Qed.

Lemma condition_route t tag c rest :
  leaves_ok t →
  native_route InboundTag (target_rules input (nativeCondition t) tag ++ rest) c =
    if eval (conn_atom c) t then Some (ResolvePolicyTag input tag)
    else native_route InboundTag rest c.
Proof.
  intros Hl. rewrite <- (singbox_nativeCondition_exact c InboundTag t Hl). apply target_rules_route.
  - by destruct t.
  - rewrite !singbox_nativeCondition_exact by done. apply eval_mono. intros k v. by apply Resolves_atom.
Qed.

Lemma exit_route tag c : native_route InboundTag (target_rules input exit_rule tag) c =
  Some (ResolvePolicyTag input tag).
Proof. rewrite <- (app_nil_r (target_rules _ _ _)). by rewrite target_rules_route. Qed.

(** The rules of the profile, then the exit. *)
Lemma singbox_routing_rules_exact ri rules compiled exit c :
  Forall (λ ru, ConditionOk (ru_Condition ru)) compiled →
  routing_rules input ri compiled = Ok rules →
  native_route InboundTag (rules ++ target_rules input exit_rule exit) c =
    Some (ResolvePolicyTag input (route_compiled (conn_atom c) compiled exit)).
Proof.
  intros Hok. revert rules. induction Hok as [|ru compiled [Hl _] _ IH]; intros rules; simpl.
  { intros [= <-]. apply exit_route. }
  destruct (_ && _); [done|]. destruct (routing_rules input ri compiled) as [rest|]; [|done].
  intros [= <-]. rewrite <- app_assoc, condition_route by done. rewrite (IH rest eq_refl).
  by destruct (eval _ _).
Qed.
End Route.
End Matching.

(** ** A core that matches as documented *)

Section Core.
Context {N : Network}.

Lemma digits_value_digits acc s n : digits_value acc s = Some n → all_chars is_digit s = true.
Proof.
  revert acc. induction s as [|a s IH]; intros acc; simpl; [done|].
  destruct (is_digit a); [|done]. apply IH.
Qed.

Lemma Atoi_range a b : all_chars is_digit a = true → a ≠ "" → Atoi (a +:+ ":" +:+ b) = None.
Proof.
  intros Ha Hne. destruct a as [|x a]; [done|]. clear Hne. str_simpl.
  cbn [all_chars] in Ha. apply andb_true_iff in Ha as [Hx Ha]. unfold Atoi.
  destruct (Ascii.eqb_spec x "-") as [->|]; [done|]. destruct (Ascii.eqb_spec x "+") as [->|]; [done|].
  destruct (digits_value 0 _) as [z|] eqn:E; [|done]. apply digits_value_digits in E.
  cbn [all_chars] in E. rewrite all_chars_app in E. cbn in E. by rewrite !andb_false_r in E.
Qed.

Lemma digits_no_colon s : all_chars is_digit s = true → all_chars (λ c, negb (Ascii.eqb c ":")) s = true.
Proof.
  apply all_chars_impl. intros c Hc. apply negb_true_iff, Ascii.eqb_neq. by intros ->.
Qed.

Lemma cut_port a b : all_chars is_digit a = true → cut_or_all ":" (a +:+ ":" +:+ b) = (a, b).
Proof. intros Ha. unfold cut_or_all. str_simpl. by rewrite Cut_app by by apply digits_no_colon. Qed.

Lemma cut_none a : all_chars is_digit a = true → cut_or_all ":" a = (a, "").
Proof.
  intros Ha%digits_no_colon. unfold cut_or_all.
  assert (Cut ":" a = None) as ->; [|done]. induction a as [|c a IH]; [done|].
  cbn [all_chars] in Ha. apply andb_true_iff in Ha as [Hc Ha]. simpl.
  apply negb_true_iff in Hc. by rewrite Hc, IH.
Qed.

(** For every connection: a range "a:a" is the port a. *)
#[export] Program Instance core_matching (c : Connection) : SingboxMatching c := {|
  sm_domain := conn_atom c "domain"; sm_suffix := conn_atom c "domain_suffix";
  sm_ip := conn_atom c "ip_cidr";
  sm_port s := let '(a, b) := cut_or_all ":" s in if a =s b then c_port c a else c_port c s;
  sm_network := c_network c |}.
Solve Obligations with done.
Next Obligation.
  intros c p [Hf Ht]. cbv beta. unfold port_value.
  pose proof (Itoa_digits _ Hf) as Df. pose proof (Itoa_digits _ Ht) as Dt.
  destruct (Z.eqb_spec (pr_To p) (pr_From p)) as [E|E].
  - unfold native_port. destruct (Atoi (Itoa (pr_From p))).
    + by rewrite cut_port, String.eqb_refl.
    + rewrite cut_none by done. by destruct (_ =s "") eqn:E'.
  - unfold native_port. rewrite Atoi_range by (done || apply Itoa_not_empty). rewrite cut_port by done.
    destruct (String.eqb_spec (Itoa (pr_From p)) (Itoa (pr_To p))) as [E'%Itoa_inj|]; [done|done].
Qed.

(** A core that resolves nothing. *)
Lemma Resolves_id c : Resolves c (id c).
Proof. done. Qed.
End Core.

(** ** Queries *)

Section Query.
Context {N : Network} {P : Platform} {T : GoText}.

(** The first rule that matches names the server, else the final one answers. *)
Definition native_dns {X : ∀ c, SingboxMatching c} (conf : dnsConfig) (d : string) : string :=
  default (dc_Final conf)
    (dr_Server ∘ snd <$> list_find (λ r, rule_matches (query d) InboundTag (dr_Rule r) = true) (dc_Rules conf)).

(** What the emitter accepts are conditions on names alone. *)
Lemma dnsDomainCondition_leaves t : dnsDomainCondition t = true → leaves_ok t.
Proof.
  induction t as [kind values terms IH] using Condition_nested_ind. cbn [dnsDomainCondition leaves_ok].
  destruct ((kind =s "domain") || (kind =s "domain_suffix")) eqn:Ek.
  - rewrite negb_true_iff, bool_decide_eq_false. intros Hlen.
    apply orb_true_iff in Ek as [->%String.eqb_eq| ->%String.eqb_eq]; (split; [by destruct values|auto]).
  - destruct ((kind =s "and") || (kind =s "or")) eqn:El; simpl; [|done].
    case_bool_decide; [done|]. intros Hall. clear Ek El. induction IH as [|t l Ht _ IHl]; [done|].
    simpl in Hall. apply andb_true_iff in Hall as [H1 H2]. split; [by apply Ht|].
    destruct l; [done|]. by apply IHl.
Qed.

Lemma dns_rules_exact {X : ∀ c, SingboxMatching c} resolvers compiled rules d final :
  dns_rules resolvers compiled = Ok rules →
  native_dns {| dc_Servers := []; dc_Rules := rules; dc_Final := final |} d =
    route_compiled (conn_atom (query d)) compiled final.
Proof.
  revert rules. induction compiled as [|ru compiled IH]; intros rules; simpl; [by intros [= <-]|].
  destruct (negb _); [done|]. destruct (dnsDomainCondition (ru_Condition ru)) eqn:Ed; [|done]. simpl.
  destruct (dns_rules resolvers compiled) as [rest|]; [|done]. intros [= <-].
  unfold native_dns. cbn [dc_Rules dc_Final]. simpl.
  rewrite singbox_nativeCondition_exact by by apply dnsDomainCondition_leaves.
  destruct (eval (conn_atom (query d)) (ru_Condition ru)); [done|]. rewrite <- (IH rest eq_refl).
  unfold native_dns. cbn [dc_Rules dc_Final]. by destruct (list_find _ rest) as [[]|].
Qed.

Lemma dns_rules_servers resolvers compiled rules :
  dns_rules resolvers compiled = Ok rules → Forall (λ r, dr_Server r ∈ resolvers) rules.
Proof.
  revert rules. induction compiled as [|ru compiled IH]; intros rules; simpl; [by intros [= <-]|].
  case_bool_decide; [|done]. simpl. destruct (dnsDomainCondition _); [|done]. simpl.
  destruct (dns_rules resolvers compiled) as [rest|]; [|done]. intros [= <-]. constructor; auto.
Qed.

(** ** The document *)

Lemma dns_server_tag input dns i r s : dns_server input dns i r = Ok s → ds_Tag s = dr_ResolverID r.
Proof. unfold dns_server. cbv zeta. repeat case_match; try done; by intros [= <-]. Qed.

Lemma dns_servers_tags input dns i resolvers servers :
  dns_servers input dns i resolvers = Ok servers → ds_Tag <$> servers = dr_ResolverID <$> resolvers.
Proof.
  revert i servers. induction resolvers as [|r l IH]; intros i servers; simpl; [by intros [= <-]|].
  destruct (dns_server input dns i r) as [s|] eqn:Es; [|done].
  destruct (dns_servers input dns (S i) l) as [rest|] eqn:El; [|done]. intros [= <-]. csimpl.
  by rewrite (dns_server_tag _ _ _ _ _ Es), (IH _ _ El).
Qed.

(** What the DNS block answers, and from which servers. *)
Definition DNSEmitted (input : EmitInput) (conf : option dnsConfig) : Prop :=
  match in_DNS input, conf with
  | None, None => True
  | Some dns, Some conf =>
      ds_Tag <$> dc_Servers conf =
        (br_ResolverID <$> dp_Bootstrap (di_Profile dns)) ++ (dr_ResolverID <$> dp_Resolvers (di_Profile dns)) ∧
      (∀ d, ∃ server, server ∈ dc_Servers conf ∧
         ds_Tag server = route_compiled (conn_atom (query d)) (di_Rules dns) (dp_FinalResolver (di_Profile dns))) ∧
      ∀ X : (∀ c, SingboxMatching c), ∀ d, native_dns conf d =
        route_compiled (conn_atom (query d)) (di_Rules dns) (dp_FinalResolver (di_Profile dns))
  | _, _ => False
  end.
End Query.

Section Document.
Context {N : Network} {P : Platform} {T : GoText}.

Lemma route_compiled_in atom rules final :
  route_compiled atom rules final = final ∨
  ∃ ru, ru ∈ rules ∧ route_compiled atom rules final = ru_Target ru.
Proof.
  induction rules as [|ru rules IH]; simpl; [by left|]. destruct (eval _ _); [set_solver|].
  destruct IH as [?|(x & ? & ?)]; set_solver.
Qed.

Lemma applyDNS_exact input conf : applyDNS input = Ok conf → DNSEmitted input conf.
Proof.
  unfold applyDNS, DNSEmitted. destruct (in_DNS input) as [dns|]; [|by intros [= <-]]. cbv zeta.
  destruct (over_rules _); [done|].
  destruct (dns_servers _ _ _ _) as [servers|] eqn:Es; [|done]. simpl.
  case_bool_decide as Hfinal; [|done]. simpl.
  destruct (dns_rules _ _) as [rules|] eqn:Er; [|done]. intros [= <-]. simpl.
  pose proof (dns_servers_tags _ _ _ _ _ Es) as Ht. split_and!.
  - rewrite fmap_app, Ht, <- list_fmap_compose. done.
  - intros d. set (id := route_compiled _ _ _).
    assert (id ∈ dr_ResolverID <$> dp_Resolvers (di_Profile dns)) as Hid.
    { destruct (route_compiled_in (conn_atom (query d)) (di_Rules dns) (dp_FinalResolver (di_Profile dns)))
        as [E|(ru & Hin & E)]; unfold id; rewrite E; [done|].
      clear -Er Hin. revert rules Er. induction (di_Rules dns) as [|x l IH]; intros rules Er;
        [by apply elem_of_nil in Hin|]. simpl in Er. case_bool_decide; [|done]. simpl in Er.
      destruct (dnsDomainCondition _); [|done]. simpl in Er.
      destruct (dns_rules _ l) as [rest|] eqn:El; [|done].
      apply elem_of_cons in Hin as [->|Hin]; [done|by eapply IH]. }
    rewrite <- Ht in Hid. apply list_elem_of_fmap in Hid as (s & -> & Hs). exists s.
    split; [set_solver|done].
  - intros X d. by rewrite <- (dns_rules_exact _ _ _ d (dp_FinalResolver (di_Profile dns)) Er).
Qed.

(** ** Outbounds *)

Definition outbound_keys : list string :=
  ["type"; "tag"; "server"; "server_port"; "password"; "network"; "tls"; "detour"; "method"; "uuid";
   "security"; "flow"; "username"; "version"; "transport"; "domain_resolver"; "outbounds"; "default"].

Lemma outbound_fields_keys o : Forall (λ kv, kv.1 ∈ outbound_keys) (outbound_fields o).
Proof.
  unfold outbound_fields, omit_string, omit_int, omit_strings, omit_none.
  repeat (apply Forall_app; split); repeat case_match; repeat constructor; simpl;
    apply (bool_decide_unpack _); exact I.
Qed.

(** No dial field is ever set: the guard on them never fires. *)
Lemma DialFieldConflict_none o : DialFieldConflict o = "".
Proof.
  unfold DialFieldConflict, MapDialFieldConflict.
  destruct (object_get (outbound_fields o) "detour") as [[| | | |detour| |]|]; try done.
  destruct (detour =s ""); [done|].
  assert (filter (λ field, is_Some (object_get (outbound_fields o) field)) dialConflictFields = []) as ->;
    [|done].
  apply elem_of_nil_inv. intros field [[j Hj] Hin]%list_elem_of_filter. unfold object_get in Hj.
  apply fmap_Some in Hj as ([k v] & Hl & _). apply last_Some_elem_of in Hl.
  apply list_elem_of_filter in Hl as [Hk Hl]. simpl in Hk. subst k.
  pose proof (outbound_fields_keys o) as Hf. rewrite Forall_forall in Hf. specialize (Hf _ Hl). simpl in Hf.
  assert (Forall (λ f, f ∉ outbound_keys) dialConflictFields) as Hd by (apply (bool_decide_unpack _); exact I).
  rewrite Forall_forall in Hd. by eapply Hd.
Qed.

(** The rendering of a node: its endpoint, its dialer, and TLS that verifies the
    certificate exactly when the node says so. *)
Definition Renders (n : Node) (tag dialer : string) (o : outbound) : Prop :=
  o_Tag o = tag ∧ o_Detour o = dialer ∧
  o_Server o = ep_Host (n_Endpoint n) ∧ o_ServerPort o = ep_Port (n_Endpoint n) ∧
  ∀ t, n_Security n = Security_TLS t → ∃ s, o_TLS o = Some s ∧ tl_Enabled s = true ∧
    tl_ServerName s = tls_ServerName t ∧ tls_VerifyCertificate t = Some (negb (tl_Insecure s)).

Lemma singbox_nodeOutbound_safe tag m dialer n :
  mn_Node m = n →
  (∀ t, mn_TLS m = Some t → is_Some (tls_VerifyCertificate t)) →
  (∀ t, n_Security n = Security_TLS t → mn_TLS m = Some t ∧ mn_Reality m = None) →
  safe (nodeOutbound tag m dialer) (Renders n tag dialer).
Proof.
  intros <- Ht Hr. unfold nodeOutbound. cbv zeta.
  eapply safe_bind with (Q := λ s, ∀ t, mn_TLS m = Some t → mn_Reality m = None → ∃ x, s = Some x ∧
    tl_Enabled x = true ∧ tl_ServerName x = tls_ServerName t ∧
    tls_VerifyCertificate t = Some (negb (tl_Insecure x))).
  { unfold node_tls. destruct (mn_TLS m) as [t|].
    - destruct (Ht t eq_refl) as [v Hv]. rewrite Hv. destruct (mn_Reality m); [done|]. simpl.
      intros ? [= <-] _. eexists. split_and!; [done..|]. simpl. by rewrite negb_involutive.
    - by destruct (mn_Reality m). }
  intros s Hs. split_and!; [done..|]. intros t Hsec. destruct (Hr t Hsec) as [H1 H2]. by apply Hs.
Qed.

(** The outbound of a reference renders its node. *)
Definition RefOutbound (ref : OutboundRef) (o : outbound) : Prop :=
  ∃ n, r_Payload (or_Resource ref) = Payload_Node n ∧ Renders n (or_Tag ref) (or_DialerTag ref) o.

Lemma singbox_emit_ref_safe input ref n :
  r_Payload (or_Resource ref) = Payload_Node n → NodeSolid n →
  safe (emit_ref input ref) (RefOutbound ref).
Proof.
  intros Hp Hs. unfold emit_ref. cbv zeta.
  eapply safe_bind; [by apply MapNode_safe|]. intros m (Hn & Ht & Hr).
  eapply safe_bind; [by eapply singbox_nodeOutbound_safe|]. intros o Ho.
  eapply safe_bind with (Q := Renders n (or_Tag ref) (or_DialerTag ref)).
  { destruct (in_DNS input) as [dns|]; [|done]. destruct (NeedsBootstrap _); [|done].
    by destruct (dp_Bootstrap _). }
  intros o' Ho'. rewrite DialFieldConflict_none. simpl. by exists n.
Qed.

(** ** What an emitted document is *)

Record Emitted (input : EmitInput) (doc : document) : Prop := {
  (** The nodes in order, the selectors, and direct where it is used. *)
  em_outbounds : ∃ exit ordered nodes, OrderedOutboundRefs input = Ok (exit, ordered) ∧
    Forall2 RefOutbound ordered nodes ∧
    doc_Outbounds doc = nodes ++
      (policy_outbound <$> filter (λ p, pi_Strategy p ≠ PolicyFixed) (in_Policies input)) ++
      direct_outbound input;
  (** A policy that is not fixed is a selector, with the API that selects. *)
  em_policies : Forall (λ p, pi_Strategy p = PolicyFixed ∨
    pi_Strategy p = PolicyManualSelect ∧ is_Some (doc_Experimental doc)) (in_Policies input);
  em_limits : outbound_total doc ≤ MaxOutbounds ∧ rule_total doc ≤ MaxRules;
  em_dns : DNSEmitted input (doc_DNS doc);
  em_routes : ∀ X : (∀ c, SingboxMatching c), ∀ resolve, (∀ c, Resolves c (resolve c)) →
    ∀ c, native_route resolve InboundTag (doc_Rules doc) c =
      Some (ResolvePolicyTag input (route_compiled (conn_atom c) (rules_of input) (exit_of input))) }.

Lemma policy_outbounds_spec input policies out :
  policy_outbounds input policies = Ok out →
  out = policy_outbound <$> filter (λ p, pi_Strategy p ≠ PolicyFixed) policies ∧
  Forall (λ p, pi_Strategy p = PolicyFixed ∨
    pi_Strategy p = PolicyManualSelect ∧ is_Some (control_api input)) policies.
Proof.
  revert out. induction policies as [|p policies IH]; intros out; simpl; [by intros [= <-]|].
  destruct (String.eqb_spec (pi_Strategy p) PolicyManualSelect) as [Em|Em];
    [destruct (control_api input) as [api|] eqn:Ea|]; simpl.
  - destruct (policy_outbounds input policies) as [rest|]; [|done]. intros [= <-].
    destruct (IH rest eq_refl) as [H1 H2].
    rewrite filter_cons_True by (by rewrite Em). csimpl. rewrite <- H1. split; [done|].
    constructor; [eauto|done].
  - by rewrite Em.
  - destruct (String.eqb_spec (pi_Strategy p) PolicyFixed) as [Ef|]; [|done]. simpl.
    intros Hout. destruct (IH out Hout) as [H1 H2].
    rewrite filter_cons_False by (intros H; by apply H). split; [done|]. constructor; auto.
Qed.

(** The emitter never panics, and what it returns routes and answers as it should. *)
Lemma singbox_emit_document_safe input :
  EmitReady input → safe (emit_document input) (Emitted input).
Proof.
  intros Hready. pose proof Hready as [Hnodes Hconditions Hfixed _]. unfold emit_document.
  eapply safe_bind with (Q := λ o, OrderedOutboundRefs input = Ok o); [by apply safe_lift|].
  intros [exit ordered] Hord. eapply safe_bind.
  { apply (collect_safe (emit_ref input) RefOutbound); [by intros; eapply singbox_emit_ref_safe|].
    by eapply ordered_nodes. }
  intros outbounds Hout. eapply safe_bind with (Q := λ doc,
    outbound_total doc ≤ MaxOutbounds → rule_total doc ≤ MaxRules → Emitted input doc).
  - apply safe_lift. intros doc. unfold applyOrchestration.
    destruct (policy_outbounds _ _) as [policies|] eqn:Ep; [|done].
    apply policy_outbounds_spec in Ep as [Hp1 Hp2].
    destruct (match in_Routing input with Some _ => _ | None => _ end) as [rules|] eqn:Er; [|done].
    destruct (applyDNS input) as [dns|] eqn:Ed; [|done]. intros [= <-] Hc1 Hc2. split; simpl; try done.
    + exists exit, ordered, outbounds. split_and!; [done..|]. by rewrite Hp1.
    + eapply Forall_impl; [exact Hp2|]. intros p [?|[? ?]]; [by left|right]. split; [done|].
      by apply fmap_is_Some.
    + by apply applyDNS_exact.
    + intros X resolve Hr c. unfold exit_tag. fold (exit_of input).
      assert (∀ compiled, Forall (λ ru, ConditionOk (ru_Condition ru)) compiled →
        ∀ r, ResolvePolicyTag input (route_compiled (conn_atom c) compiled (ResolvePolicyTag input r)) =
             ResolvePolicyTag input (route_compiled (conn_atom c) compiled r)) as Hex.
      { intros compiled _ r. induction compiled as [|ru compiled IH]; simpl; [by rewrite Hfixed|].
        by destruct (eval _ _). }
      rewrite <- Hex by done. unfold rules_of in *. destruct (in_Routing input) as [ri|].
      * by eapply singbox_routing_rules_exact.
      * injection Er as <-. by apply exit_route.
  - intros doc Hdoc. eapply safe_bind with (Q := λ _, CheckNativeCounts input (outbound_total doc) (rule_total doc) = None).
    { by apply safe_fail_if. }
    intros [] Hcounts. simpl. unfold CheckNativeCounts in Hcounts.
    destruct (Z.ltb_spec MaxOutbounds (outbound_total doc)); [done|].
    destruct (Z.ltb_spec MaxRules (rule_total doc)); [done|]. by apply Hdoc.
Qed.
End Document.
