(* ===== verification/MihomoRules.v ===== *)
(** The rules of the Mihomo document: the printed condition reads back as the condition,
    and the first line that matches is the first compiled rule that does. *)
From S2P Require Import Prelude Diagnostics IRTypes Json IRValidate Labels Adapter Network.
From S2P Require Import Domains Mihomo Compiler RouteFacts MemberFacts ConditionFacts EmitFacts.

Import Mihomo.

(** ** Balanced text *)

(** The depth of parentheses after [s], from the depth [d]. *)
Fixpoint balance (d : nat) (s : string) : option nat :=
  match s with
  | EmptyString => Some d
  | String c s =>
      if Ascii.eqb c "(" then balance (S d) s
      else if Ascii.eqb c ")" then match d with O => None | S d => balance d s end
      else balance d s
  end.
Definition balanced (s : string) : Prop := ∀ d, balance d s = Some d.

Lemma balance_app d s t : balance d (s +:+ t) = balance d s ≫= λ e, balance e t.
Proof.
  revert d. induction s as [|c s IH]; intros d; [done|]. rewrite string_app_cons. simpl.
  destruct (Ascii.eqb c "("); [done|]. destruct (Ascii.eqb c ")"); [|done]. by destruct d.
Qed.

Lemma balanced_app s t : balanced s → balanced t → balanced (s +:+ t).
Proof. intros Hs Ht d. rewrite balance_app, Hs. apply Ht. Qed.

Definition no_paren (c : ascii) : bool := negb (Ascii.eqb c "(" || Ascii.eqb c ")").
Lemma balanced_free s : all_chars no_paren s = true → balanced s.
Proof.
  intros Hs d. induction s as [|c s IH]; [done|]. cbn [all_chars] in Hs.
  apply andb_true_iff in Hs as [Hc Hs]. unfold no_paren in Hc.
  apply negb_true_iff, orb_false_iff in Hc as [H1 H2]. simpl. rewrite H1, H2. auto.
Qed.

Lemma plain_balanced v : plain_value v → balanced v.
Proof.
  intros H. apply balanced_free. eapply all_chars_impl; [|exact H]. intros c.
  unfold value_char, no_paren. rewrite !negb_true_iff, !orb_false_iff. tauto.
Qed.

Definition paren (t : string) : string := "(" +:+ t +:+ ")".
(** The terms of a logical rule. *)
Definition group (ts : list string) : string := paren (String.concat "," (paren <$> ts)).

Lemma balanced_paren t : balanced t → balanced (paren t).
Proof.
  intros Ht d. unfold paren. str_simpl. cbn [balance Ascii.eqb]. simpl. by rewrite balance_app, Ht.
Qed.

Lemma balanced_concat sep ts : balanced sep → Forall balanced ts → balanced (String.concat sep ts).
Proof.
  intros Hsep Hts. induction Hts as [|t ts Ht Hts IH]; [done|].
  destruct ts as [|u ts]; [done|].
  change (balanced (t +:+ sep +:+ String.concat sep (u :: ts))). by repeat apply balanced_app.
Qed.

Lemma balanced_group ts : Forall balanced ts → balanced (group ts).
Proof.
  intros H. apply balanced_paren, balanced_concat; [by apply balanced_free|].
  apply Forall_fmap. eapply Forall_impl; [exact H|]. apply balanced_paren.
Qed.

Lemma concat_cons2 sep x y l :
  String.concat sep (x :: y :: l) = x +:+ sep +:+ String.concat sep (y :: l).
Proof. done. Qed.

Lemma concat_parens t ts :
  String.concat "," (paren <$> (t :: ts)) = "(" +:+ String.concat "),(" (t :: ts) +:+ ")".
Proof.
  revert t. induction ts as [|u ts IH]; intros t; [done|].
  specialize (IH u). rewrite (fmap_cons paren t), (fmap_cons paren u) in *. rewrite !concat_cons2, IH.
  unfold paren at 1. by str_simpl.
Qed.

(** The two ways the source writes a list of terms agree. *)
Lemma group_alt t ts : "((" +:+ String.concat "),(" (t :: ts) +:+ "))" = group (t :: ts).
Proof. unfold group. rewrite concat_parens. unfold paren. by str_simpl. Qed.

(** ** The core *)

(** How the core reads a line and matches a rule: the target is the last field, or the
    one before "no-resolve"; "AND" and "OR" combine the rules between parentheses; the
    other rules name one value. *)
Class MihomoMatching {N : Network} (c : Connection) := {
  mm_match : string → bool;
  mm_line : string → string * string;
  mm_all : mm_match "MATCH" = true;
  mm_domain : ∀ v, plain_value v → mm_match ("DOMAIN," +:+ v) = conn_atom c "domain" v;
  mm_suffix : ∀ v, plain_value v → mm_match ("DOMAIN-SUFFIX," +:+ v) = conn_atom c "domain_suffix" v;
  mm_cidr : ∀ type v option, type ∈ ["IP-CIDR"; "IP-CIDR6"] → plain_value v →
    option ∈ [""; ",no-resolve"] → mm_match (type +:+ "," +:+ v +:+ option) = ip_matches c v;
  mm_port : ∀ p, port_ok p →
    mm_match ("DST-PORT," +:+ replace_char ":" "-" (port_value p)) = c_port c (port_value p);
  mm_network : ∀ v, is_network v → mm_match ("NETWORK," +:+ ascii_upper v) = c_network c v;
  mm_and : ∀ ts, ts ≠ [] → Forall balanced ts → mm_match ("AND," +:+ group ts) = forallb mm_match ts;
  mm_or : ∀ ts, ts ≠ [] → Forall balanced ts → mm_match ("OR," +:+ group ts) = existsb mm_match ts;
  mm_target : ∀ t tag, target_text tag → mm_line (t +:+ "," +:+ tag) = (t, tag);
  mm_option : ∀ t tag, target_text tag →
    mm_line (t +:+ "," +:+ tag +:+ ",no-resolve") = (t +:+ ",no-resolve", tag) }.

Section Matching.
Context {N : Network} {U : Upper}.

Lemma upper_network v : is_network v → ToUpper v = ascii_upper v.
Proof. intros H. apply ToUpper_ascii, all_chars_is_ascii. by destruct H as [->| ->]. Qed.

(** The rule of one value of a term. *)
Lemma value_rule_balanced kind nr terms v values :
  TermOk (Cond kind values terms) → Forall plain_value values → v ∈ values →
  balanced (value_rule kind nr v).
Proof.
  intros [_ Hk] Hp Hv. rewrite Forall_forall in Hp. pose proof (plain_balanced _ (Hp _ Hv)) as Hb.
  destruct Hk as [->|[->|[[-> _]|[[-> (ports & Hports & ->)]|[-> Hn]]]]]; unfold value_rule; simpl.
  - by apply (balanced_app "DOMAIN,"); [apply balanced_free|].
  - by apply (balanced_app "DOMAIN-SUFFIX,"); [apply balanced_free|].
  - destruct (Contains v ":"); repeat apply balanced_app; try done; try by apply balanced_free.
    all: destruct nr; by apply balanced_free.
  - apply (balanced_app "DST-PORT,"); [by apply balanced_free|]. apply balanced_free.
    apply list_elem_of_fmap in Hv as (p & -> & _).
    pose proof (port_value_plain p) as Hpp. revert Hpp. generalize (port_value p). clear.
    unfold plain_value. intros s. induction s as [|a s IH]; [done|]. cbn [all_chars replace_char].
    rewrite !andb_true_iff. intros [Ha Hs]. split; [|auto]. destruct (Ascii.eqb a ":"); [done|].
    unfold value_char in Ha. unfold no_paren. rewrite negb_true_iff, !orb_false_iff in *. tauto.
  - apply (balanced_app "NETWORK,"); [by apply balanced_free|].
    rewrite Forall_forall in Hn. specialize (Hn _ Hv). rewrite upper_network by done.
    by destruct Hn as [->| ->]; apply balanced_free.
Qed.

Lemma value_rule_match c {X : MihomoMatching c} kind nr terms v values :
  TermOk (Cond kind values terms) → Forall plain_value values → v ∈ values →
  mm_match (value_rule kind nr v) = conn_atom c kind v.
Proof.
  intros [_ Hk] Hp Hv. rewrite Forall_forall in Hp. specialize (Hp _ Hv).
  destruct Hk as [->|[->|[[-> _]|[[-> (ports & Hports & ->)]|[-> Hn]]]]]; unfold value_rule.
  - by apply mm_domain.
  - by apply mm_suffix.
  - change (conn_atom c "ip_cidr" v) with (ip_matches c v). simpl.
    destruct (Contains v ":"); apply mm_cidr; try done; destruct nr; set_solver.
  - apply list_elem_of_fmap in Hv as (p & -> & Hin). rewrite Forall_forall in Hports.
    by apply mm_port, Hports.
  - rewrite Forall_forall in Hn. specialize (Hn _ Hv). simpl. rewrite upper_network by done.
    by apply mm_network.
Qed.

Definition any_text (ts : list string) : string :=
  match ts with [t] => t | ts => "OR,((" +:+ String.concat "),(" ts +:+ "))" end.
Definition logic_text (op : string) (ts : list string) : string :=
  match ts with
  | [t] => t
  | ts => op +:+ ",(" +:+ String.concat "," ((λ t, "(" +:+ t +:+ ")") <$> ts) +:+ ")"
  end.

Lemma nativeCondition_eq nr kind values terms :
  nativeCondition nr (Cond kind values terms) =
    if (kind =s "and") || (kind =s "or")
    then logic_text (ToUpper kind) (nativeCondition nr <$> terms)
    else any_text (value_rule kind nr <$> values).
Proof.
  cbn [nativeCondition]. destruct (_ || _).
  - change (map ?f terms) with (f <$> terms). by destruct (nativeCondition nr <$> terms) as [|? []].
  - by destruct (value_rule kind nr <$> values) as [|? []].
Qed.

Lemma any_text_many t u ts : any_text (t :: u :: ts) = "OR," +:+ group (t :: u :: ts).
Proof. rewrite <- group_alt. unfold any_text. by str_simpl. Qed.
Lemma logic_text_many op t u ts : logic_text op (t :: u :: ts) = op +:+ "," +:+ group (t :: u :: ts).
Proof.
  unfold logic_text. change (λ t, "(" +:+ t +:+ ")") with paren. unfold group. unfold paren at 2.
  by str_simpl.
Qed.

Lemma any_text_balanced ts : ts ≠ [] → Forall balanced ts → balanced (any_text ts).
Proof.
  intros Hne H. destruct ts as [|t [|u ts]]; [done|by inversion H|]. rewrite any_text_many.
  apply balanced_app; [by apply balanced_free|by apply balanced_group].
Qed.
Lemma logic_text_balanced op ts :
  balanced op → ts ≠ [] → Forall balanced ts → balanced (logic_text op ts).
Proof.
  intros Hop Hne H. destruct ts as [|t [|u ts]]; [done|by inversion H|]. rewrite logic_text_many.
  apply balanced_app; [done|]. apply balanced_app; [by apply balanced_free|by apply balanced_group].
Qed.

Section Connection.
Context (c : Connection) {X : MihomoMatching c}.

Lemma any_text_match ts :
  ts ≠ [] → Forall balanced ts → mm_match (any_text ts) = existsb mm_match ts.
Proof.
  intros Hne H. destruct ts as [|t [|u ts]]; [done|by simpl; rewrite orb_false_r|].
  rewrite any_text_many. by apply mm_or.
Qed.
Lemma and_text_match ts :
  ts ≠ [] → Forall balanced ts → mm_match (logic_text "AND" ts) = forallb mm_match ts.
Proof.
  intros Hne H. destruct ts as [|t [|u ts]]; [done|by simpl; rewrite andb_true_r|].
  rewrite logic_text_many. by apply mm_and.
Qed.
Lemma or_text_match ts :
  ts ≠ [] → Forall balanced ts → mm_match (logic_text "OR" ts) = existsb mm_match ts.
Proof.
  intros Hne H. destruct ts as [|t [|u ts]]; [done|by simpl; rewrite orb_false_r|].
  rewrite logic_text_many. by apply mm_or.
Qed.

Lemma upper_logic kind :
  (kind =s "and") || (kind =s "or") = true → ToUpper kind = ascii_upper kind.
Proof.
  intros [->%String.eqb_eq| ->%String.eqb_eq]%orb_true_iff;
    by apply ToUpper_ascii, all_chars_is_ascii.
Qed.

(** The printed condition is balanced, and matches exactly where the condition holds. *)
Lemma mihomo_nativeCondition_exact nr t :
  leaves_ok t → printable t →
  balanced (nativeCondition nr t) ∧ mm_match (nativeCondition nr t) = eval (conn_atom c) t.
Proof.
  induction t as [kind values terms IH] using Condition_nested_ind. intros Hl Hp.
  rewrite nativeCondition_eq. destruct ((kind =s "and") || (kind =s "or")) eqn:Ek.
  - rewrite leaves_ok_terms in Hl by done. apply printable_terms in Hp as [Hne Hp]; [|done].
    assert (Forall balanced (nativeCondition nr <$> terms) ∧
            Forall (λ t, mm_match (nativeCondition nr t) = eval (conn_atom c) t) terms) as [Hb Hm].
    { rewrite Forall_fmap. rewrite Forall_forall in IH. rewrite Forall_forall in Hl.
      rewrite Forall_forall in Hp. split; apply Forall_forall; intros t Ht; by apply IH; auto. }
    clear IH Hl Hp. rewrite (upper_logic _ Ek).
    assert (nativeCondition nr <$> terms ≠ []) as Hne' by by destruct terms.
    split; [apply logic_text_balanced; [|done..]; apply orb_true_iff in Ek as [->%String.eqb_eq| ->%String.eqb_eq];
            by apply balanced_free|].
    apply orb_true_iff in Ek as [->%String.eqb_eq| ->%String.eqb_eq].
    + change (ascii_upper "and") with "AND". rewrite and_text_match by done. cbn [eval]. simpl.
      clear -Hm. induction Hm as [|t l Ht _ IHl]; csimpl; [done|]. by rewrite Ht, IHl.
    + change (ascii_upper "or") with "OR". rewrite or_text_match by done. cbn [eval]. simpl.
      clear -Hm. induction Hm as [|t l Ht _ IHl]; csimpl; [done|]. by rewrite Ht, IHl.
  - cbn [leaves_ok] in Hl. cbn [printable] in Hp. rewrite Ek in Hl, Hp.
    pose proof Hl as [Hne _].
    assert (Forall balanced (value_rule kind nr <$> values)) as Hb.
    { apply Forall_fmap, Forall_forall. intros v Hv. by eapply value_rule_balanced. }
    assert (value_rule kind nr <$> values ≠ []) as Hne' by by destruct values.
    split; [by apply any_text_balanced|]. rewrite any_text_match by done.
    apply orb_false_iff in Ek as [Ea Eo]. apply String.eqb_neq in Ea, Eo.
    rewrite eval_term by done.
    assert (∀ v, v ∈ values → mm_match (value_rule kind nr v) = conn_atom c kind v) as Hv
      by (intros v Hv; by eapply value_rule_match).
    clear -Hv. induction values as [|v values IH]; csimpl; [done|].
    rewrite Hv by set_solver. rewrite IH; [done|set_solver].
Qed.

(** ** First match *)

Context {P : Platform} {T : GoText}.

(** The target of the first line whose rule matches. *)
Fixpoint native_route (lines : list string) : option string :=
  match lines with
  | [] => None
  | line :: lines =>
      let '(rule, target) := mm_line line in
      if mm_match rule then Some target else native_route lines
  end.

Context (input : EmitInput).

Lemma native_tag_text tag : target_text (ResolvePolicyTag input tag) → target_text (native_tag input tag).
Proof.
  intros H. unfold native_tag. destruct (_ =s BlockTag); [done|]. by destruct (_ =s "direct").
Qed.

Lemma TrimSuffix_app s p : TrimSuffix (s +:+ p) p = s.
Proof.
  unfold TrimSuffix. assert (HasSuffix (s +:+ p) p = true) as -> by (apply HasSuffix_spec; eauto).
  rewrite string_length_app. rewrite Nat.add_sub.
  induction s as [|a s IH]; [by destruct p|]. rewrite string_app_cons. simpl. by rewrite IH.
Qed.

Lemma routing_rule_line nr ru :
  target_text (ResolvePolicyTag input (ru_Target ru)) →
  mm_line (routing_rule input nr ru) =
    (nativeCondition nr (ru_Condition ru), native_tag input (ru_Target ru)).
Proof.
  intros Ht%native_tag_text. unfold routing_rule. cbv zeta.
  destruct (HasSuffix _ ",no-resolve") eqn:Es; [|by apply mm_target].
  apply HasSuffix_spec in Es as [t E]. rewrite E, TrimSuffix_app. by apply mm_option.
Qed.

(** The lines of the document route as the compiled rules. *)
Lemma mihomo_routing_rules_exact :
  Forall (λ ru, ConditionOk (ru_Condition ru)) (rules_of input) → TextReady input →
  target_text (ResolvePolicyTag input (exit_of input)) →
  native_route (routing_rules input) =
    Some (native_tag input (route_compiled (conn_atom c) (rules_of input) (exit_of input))).
Proof.
  intros Hok [Hp _ Ht _] Hexit. unfold routing_rules. fold (exit_of input).
  assert (native_route ["MATCH," +:+ native_tag input (exit_of input)] =
    Some (native_tag input (exit_of input))) as Hlast.
  { cbn [native_route]. change ("MATCH," +:+ ?t) with ("MATCH" +:+ "," +:+ t).
    rewrite mm_target by by apply native_tag_text. by rewrite mm_all. }
  unfold rules_of in *. destruct (in_Routing input) as [ri|]; [|exact Hlast].
  induction Hok as [|ru rules [Hl _] _ IH]; [exact Hlast|].
  apply Forall_cons in Hp as [Hp1 Hp]. apply Forall_cons in Ht as [Ht1 Ht].
  rewrite fmap_cons. cbn [app native_route route_compiled]. rewrite routing_rule_line by done.
  rewrite (proj2 (mihomo_nativeCondition_exact _ _ Hl Hp1)).
  destruct (eval _ _); [done|by apply IH].
Qed.
End Connection.
End Matching.

(** ** A core that matches as documented *)

Section Core.
Context {N : Network}.

(** The texts between the outermost parentheses. *)
Fixpoint groups (depth : nat) (cur s : string) : list string :=
  match s with
  | EmptyString => []
  | String c s =>
      if Ascii.eqb c "(" then
        match depth with O => groups 1 "" s | _ => groups (S depth) (cur +:+ "(") s end
      else if Ascii.eqb c ")" then
        match depth with
        | O => groups O "" s
        | 1%nat => cur :: groups O "" s
        | S d => groups d (cur +:+ ")") s
        end
      else match depth with O => groups O "" s | _ => groups depth (cur +:+ String c "") s end
  end.

Lemma groups_scan d e cur t rest :
  balance d t = Some e → groups (S d) cur (t +:+ rest) = groups (S e) (cur +:+ t) rest.
Proof.
  revert d cur. induction t as [|c t IH]; intros d cur; simpl.
  { intros [= ->]. by rewrite string_app_empty_r. }
  change (String c t +:+ rest) with (String c (t +:+ rest)). cbn [groups].
  destruct (Ascii.eqb_spec c "(") as [->|_]; [|destruct (Ascii.eqb_spec c ")") as [->|_]].
  - intros H. rewrite (IH (S d) _ H). by str_simpl.
  - destruct d as [|d]; [done|]. intros H. rewrite (IH d _ H). by str_simpl.
  - intros H. rewrite (IH d _ H). by str_simpl.
Qed.

Lemma groups_paren t rest : balanced t → groups 0 "" (paren t +:+ rest) = t :: groups 0 "" rest.
Proof.
  intros Ht. unfold paren. str_simpl. cbn [groups]. rewrite Ascii.eqb_refl.
  rewrite (groups_scan 0 0 "" t) by done. done.
Qed.

Lemma groups_list ts : Forall balanced ts → groups 0 "" (String.concat "," (paren <$> ts)) = ts.
Proof.
  intros H. induction H as [|t ts Ht Hts IH]; [done|].
  destruct ts as [|u ts].
  - rewrite <- (string_app_empty_r (String.concat _ _)). by apply groups_paren.
  - rewrite (fmap_cons paren t), (fmap_cons paren u), concat_cons2, groups_paren by done.
    f_equal. exact IH.
Qed.

Lemma groups_group ts : Forall balanced ts → groups 0 "" (group ts) = [String.concat "," (paren <$> ts)].
Proof.
  intros H. unfold group. rewrite <- (string_app_empty_r (paren _)). rewrite groups_paren; [done|].
  apply balanced_concat; [by apply balanced_free|]. apply Forall_fmap.
  eapply Forall_impl; [exact H|]. apply balanced_paren.
Qed.

Lemma groups_length d cur s x : x ∈ groups d cur s → (String.length x ≤ String.length cur + String.length s)%nat.
Proof.
  revert d cur. induction s as [|c s IH]; intros d cur; simpl; [by intros ?%elem_of_nil|].
  destruct (Ascii.eqb c "("); [|destruct (Ascii.eqb c ")")].
  - destruct d; intros H%IH; rewrite ?string_length_app in H; simpl in H; lia.
  - destruct d as [|[|d]]; [| |]; [| intros [->|H]%elem_of_cons; [lia|] | intros H].
    all: try intros H; apply IH in H; rewrite ?string_length_app in H; simpl in H; lia.
  - destruct d; intros H%IH; rewrite ?string_length_app in H; simpl in H; lia.
Qed.

Section Connection.
Context (c : Connection).

Fixpoint rule_match (n : nat) (s : string) : bool :=
  match n with
  | O => false
  | S n =>
      match Cut "," s with
      | None => s =s "MATCH"
      | Some (type, payload) =>
          if type =s "AND" then
            match groups 0 "" payload with
            | [inner] => forallb (rule_match n) (groups 0 "" inner) | _ => false end
          else if type =s "OR" then
            match groups 0 "" payload with
            | [inner] => existsb (rule_match n) (groups 0 "" inner) | _ => false end
          else if type =s "DOMAIN" then conn_atom c "domain" payload
          else if type =s "DOMAIN-SUFFIX" then conn_atom c "domain_suffix" payload
          else if (type =s "IP-CIDR") || (type =s "IP-CIDR6") then ip_matches c (cut_or_all "," payload).1
          else if type =s "DST-PORT" then c_port c (replace_char "-" ":" payload)
          else if type =s "NETWORK" then c_network c (if payload =s "TCP" then "tcp" else "udp")
          else false
      end
  end.

Lemma Cut_length sep s a b : Cut sep s = Some (a, b) → (String.length b < String.length s)%nat.
Proof.
  revert a. induction s as [|x s IH]; intros a; simpl; [done|].
  destruct (Ascii.eqb x sep); [intros [= _ <-]; lia|].
  destruct (Cut sep s) as [[a' b']|]; [|done]. intros [= _ <-]. specialize (IH _ eq_refl). lia.
Qed.

Lemma rule_match_fuel n m s :
  (String.length s < n)%nat → (String.length s < m)%nat → rule_match n s = rule_match m s.
Proof.
  revert m s. induction n as [|n IH]; intros [|m] s Hn Hm; [lia..|]. simpl.
  destruct (Cut "," s) as [[type payload]|] eqn:E; [|done]. apply Cut_length in E.
  assert (∀ inner, groups 0 "" payload = [inner] → ∀ x, x ∈ groups 0 "" inner →
    rule_match n x = rule_match m x) as Hx.
  { intros inner Hi x Hx%groups_length. assert (inner ∈ groups 0 "" payload) as Hin by (rewrite Hi; by left).
    apply groups_length in Hin. simpl in *. apply IH; lia. }
  destruct (groups 0 "" payload) as [|inner [|]]; try done. specialize (Hx _ eq_refl).
  assert (forallb (rule_match n) (groups 0 "" inner) = forallb (rule_match m) (groups 0 "" inner) ∧
          existsb (rule_match n) (groups 0 "" inner) = existsb (rule_match m) (groups 0 "" inner))
    as [-> ->]; [|done].
  induction (groups 0 "" inner) as [|x l IHl]; [done|]. simpl.
  rewrite Hx by by left. destruct IHl as [-> ->]; [|done]. intros y Hy. apply Hx. by right.
Qed.

Definition full_match (s : string) : bool := rule_match (S (String.length s)) s.

Lemma full_match_eq n s : (String.length s < n)%nat → rule_match n s = full_match s.
Proof. intros H. unfold full_match. apply rule_match_fuel; lia. Qed.

Definition no_comma (s : string) : Prop := free_of "," s = true.

Lemma terms_match payload ts :
  Forall balanced ts → groups 0 "" payload = [String.concat "," (paren <$> ts)] →
  ∀ n, (String.length payload < n)%nat →
  forallb (rule_match n) (groups 0 "" (String.concat "," (paren <$> ts))) = forallb full_match ts ∧
  existsb (rule_match n) (groups 0 "" (String.concat "," (paren <$> ts))) = existsb full_match ts.
Proof.
  intros Hb Hg n Hn. rewrite groups_list by done.
  assert (∀ x, x ∈ ts → rule_match n x = full_match x) as Hx.
  { intros x Hx. apply full_match_eq.
    assert (String.concat "," (paren <$> ts) ∈ groups 0 "" payload) as H1 by (rewrite Hg; by left).
    apply groups_length in H1. rewrite <- (groups_list ts) in Hx by done. apply groups_length in Hx.
    simpl in *. lia. }
  clear -Hx. induction ts as [|x l IH]; [done|]. simpl. rewrite Hx by by left.
  destruct IH as [-> ->]; [|done]. intros y Hy. apply Hx. by right.
Qed.

(** The rule of a type, with fuel for its terms. *)
Definition typed_match (n : nat) (type payload : string) : bool :=
  if type =s "AND" then
    match groups 0 "" payload with
    | [inner] => forallb (rule_match n) (groups 0 "" inner) | _ => false end
  else if type =s "OR" then
    match groups 0 "" payload with
    | [inner] => existsb (rule_match n) (groups 0 "" inner) | _ => false end
  else if type =s "DOMAIN" then conn_atom c "domain" payload
  else if type =s "DOMAIN-SUFFIX" then conn_atom c "domain_suffix" payload
  else if (type =s "IP-CIDR") || (type =s "IP-CIDR6") then ip_matches c (cut_or_all "," payload).1
  else if type =s "DST-PORT" then c_port c (replace_char "-" ":" payload)
  else if type =s "NETWORK" then c_network c (if payload =s "TCP" then "tcp" else "udp")
  else false.

Lemma full_match_typed type payload :
  no_comma type → full_match (type +:+ "," +:+ payload) =
    typed_match (String.length (type +:+ "," +:+ payload)) type payload.
Proof.
  intros Ht. unfold full_match. cbn [rule_match].
  change (type +:+ "," +:+ payload) with (type +:+ String "," payload). by rewrite Cut_app.
Qed.

Lemma and_or_match ts :
  Forall balanced ts →
  full_match ("AND," +:+ group ts) = forallb full_match ts ∧
  full_match ("OR," +:+ group ts) = existsb full_match ts.
Proof.
  intros Hb. split.
  - etransitivity; [by apply (full_match_typed "AND" (group ts))|]. unfold typed_match. simpl (_ =s _). cbv iota.
    rewrite groups_group by done. apply terms_match with (payload := group ts); [done|by apply groups_group|].
    rewrite string_length_app. simpl. lia.
  - etransitivity; [by apply (full_match_typed "OR" (group ts))|]. unfold typed_match. simpl (_ =s _). cbv iota.
    rewrite groups_group by done. apply terms_match with (payload := group ts); [done|by apply groups_group|].
    rewrite string_length_app. simpl. lia.
Qed.

Lemma cidr_match type v option :
  type ∈ ["IP-CIDR"; "IP-CIDR6"] → plain_value v → option ∈ [""; ",no-resolve"] →
  full_match (type +:+ "," +:+ v +:+ option) = ip_matches c v.
Proof.
  intros Ht Hv Ho.
  assert ((cut_or_all "," (v +:+ option)).1 = v) as Hc.
  { assert (free_of "," v = true) as Hf.
    { eapply all_chars_impl; [|exact Hv]. intros a. unfold value_char.
      rewrite !negb_true_iff, !orb_false_iff. tauto. }
    unfold cut_or_all.
    repeat (apply elem_of_cons in Ho as [->|Ho]); [| |by apply elem_of_nil in Ho].
    - rewrite string_app_empty_r. clear -Hf. assert (Cut "," v = None) as ->; [|done].
      induction v as [|a v IH]; [done|]. unfold free_of in *. cbn [all_chars] in Hf.
      apply andb_true_iff in Hf as [Ha%negb_true_iff Hv]. simpl. by rewrite Ha, IH.
    - change ",no-resolve" with (String "," "no-resolve"). by rewrite Cut_app. }
  repeat (apply elem_of_cons in Ht as [->|Ht]); [| |by apply elem_of_nil in Ht].
  - rewrite (full_match_typed "IP-CIDR") by done. unfold typed_match. simpl (_ =s _). cbv [orb]. by rewrite Hc.
  - rewrite (full_match_typed "IP-CIDR6") by done. unfold typed_match. simpl (_ =s _). cbv [orb]. by rewrite Hc.
Qed.

Lemma port_match p :
  port_ok p → full_match ("DST-PORT," +:+ replace_char ":" "-" (port_value p)) = c_port c (port_value p).
Proof.
  intros [Hf Ht]. etransitivity; [by apply (full_match_typed "DST-PORT" (replace_char ":" "-" (port_value p)))|]. unfold typed_match.
  simpl (_ =s _). cbv [orb]. f_equal. apply replace_char_back.
  assert (∀ n, 0 ≤ n → free_of "-" (Itoa n) = true) as Hn.
  { intros n Hn. eapply all_chars_impl, Itoa_digits; [|done]. intros a Ha.
    apply negb_true_iff, Ascii.eqb_neq. by intros ->. }
  unfold port_value. destruct (_ =? _); [by apply Hn|].
  unfold free_of in *. by rewrite !all_chars_app, !Hn.
Qed.

(** The text before and after the last comma. *)
Fixpoint cut_last (s : string) : option (string * string) :=
  match s with
  | EmptyString => None
  | String a s =>
      match cut_last s with
      | Some (b, t) => Some (String a b, t)
      | None => if Ascii.eqb a "," then Some ("", s) else None
      end
  end.

Lemma cut_last_none s : no_comma s → cut_last s = None.
Proof.
  unfold no_comma, free_of. induction s as [|a s IH]; [done|]. cbn [all_chars].
  rewrite andb_true_iff, negb_true_iff. intros [Ha Hs]. simpl. by rewrite IH, Ha.
Qed.

Lemma cut_last_app t tag : no_comma tag → cut_last (t +:+ "," +:+ tag) = Some (t, tag).
Proof.
  intros Ht. induction t as [|a t IH].
  - change ("" +:+ "," +:+ tag) with (String "," tag). simpl. by rewrite cut_last_none.
  - change (String a t +:+ ?x) with (String a (t +:+ x)). cbn [cut_last]. by rewrite IH.
Qed.

Definition read_line (s : string) : string * string :=
  if HasSuffix s ",no-resolve" then
    let '(rule, target) := default (s, "") (cut_last (TrimSuffix s ",no-resolve")) in
    (rule +:+ ",no-resolve", target)
  else default (s, "") (cut_last s).

Lemma target_no_comma tag : target_text tag → no_comma tag.
Proof.
  intros [H _]. eapply all_chars_impl; [|exact H]. intros a Ha. apply negb_true_iff, Ascii.eqb_neq.
  by intros ->.
Qed.

Lemma read_target t tag : target_text tag → read_line (t +:+ "," +:+ tag) = (t, tag).
Proof.
  intros Ht. pose proof (target_no_comma _ Ht) as Hc. unfold read_line.
  destruct (HasSuffix _ ",no-resolve") eqn:Es; [|by rewrite cut_last_app].
  apply HasSuffix_spec in Es as [q E]. exfalso. destruct Ht as (_ & _ & Hne). apply Hne.
  by apply (last_separator_split (λ a, negb (Ascii.eqb a ",")) "," t q tag "no-resolve") in E as [_ E].
Qed.

Lemma read_option t tag :
  target_text tag → read_line (t +:+ "," +:+ tag +:+ ",no-resolve") = (t +:+ ",no-resolve", tag).
Proof.
  intros Ht%target_no_comma. unfold read_line.
  assert (t +:+ "," +:+ tag +:+ ",no-resolve" = (t +:+ "," +:+ tag) +:+ ",no-resolve") as ->
    by by rewrite !string_app_assoc.
  assert (HasSuffix ((t +:+ "," +:+ tag) +:+ ",no-resolve") ",no-resolve" = true) as ->
    by (apply HasSuffix_spec; eauto).
  rewrite TrimSuffix_app, cut_last_app by done. done.
Qed.
End Connection.

(** For every connection: the type before the first comma, groups by parentheses. *)
#[export] Instance core_matching (c : Connection) : MihomoMatching c.
Proof.
  refine {| mm_match := full_match c; mm_line := read_line |}.
  - done.
  - intros v _. by apply (full_match_typed c "DOMAIN").
  - intros v _. by apply (full_match_typed c "DOMAIN-SUFFIX").
  - apply cidr_match.
  - apply port_match.
  - by intros v [->| ->].
  - intros ts _ Hb. by apply and_or_match.
  - intros ts _ Hb. by apply and_or_match.
  - apply read_target.
  - apply read_option.
Defined.
End Core.
