(* ===== verification/MihomoFacts.v ===== *)
(** The Mihomo document: its name server policies answer as the profile says, its groups
    are the policies, its lines route as the compiled rules. *)
From S2P Require Import Prelude Diagnostics IRTypes IRValidate Labels Adapter Network Domains.
From S2P Require Import Mihomo Compiler RouteFacts MemberFacts ConditionFacts EmitFacts.
From S2P Require Import MihomoRules.

Import Mihomo.

(** ** DNS *)

Section DNS.
Context {N : Network} {P : Platform} {T : GoText} {U : Upper}.

(** How the core matches an entry of a domain provider against the name [d]: "+." names
    a tree, other entries one name. *)
Class PayloadMatching (d : string) := {
  pm_match : string → bool;
  pm_tree : ∀ v, plain_value v → pm_match ("+." +:+ v) = domain_atom d "domain_suffix" v;
  pm_exact : ∀ v, plain_value v → pm_match v = domain_atom d "domain" v }.

Definition payload_match (d v : string) : bool :=
  match v with
  | String a (String b v') =>
      if Ascii.eqb a "+" && Ascii.eqb b "." then domain_atom d "domain_suffix" v'
      else domain_atom d "domain" v
  | _ => domain_atom d "domain" v
  end.

#[export] Program Instance core_payload (d : string) : PayloadMatching d := {| pm_match := payload_match d |}.
Next Obligation. done. Qed.
Next Obligation.
  intros d [|a [|b v]] Hv; [done..|]. unfold plain_value in Hv. cbn [all_chars] in Hv.
  apply andb_true_iff in Hv as [Ha _]. simpl. by destruct (Ascii.eqb_spec a "+") as [->|].
Qed.

Section Query.
Context (d : string) {M : PayloadMatching d}.

(** The provider of a policy's key, "rule-set:<name>". *)
Definition provider_of (providers : gmap string dnsRuleProvider) (p : dnsPolicy) : list string :=
  let '(kind, name) := cut_or_all ":" (dp_key p) in
  if kind =s "rule-set" then default [] (rp_Payload <$> providers !! name) else [].

Definition policy_matches (providers : gmap string dnsRuleProvider) (p : dnsPolicy) : bool :=
  existsb pm_match (provider_of providers p).

(** The server of the first policy that matches. *)
Fixpoint policy_server (providers : gmap string dnsRuleProvider) (policies : list dnsPolicy)
    : option string :=
  match policies with
  | [] => None
  | p :: policies =>
      if policy_matches providers p then Some (dp_server p) else policy_server providers policies
  end.

Definition native_dns (providers : gmap string dnsRuleProvider) (conf : dnsConfig) : option string :=
  match policy_server providers (dc_NameServerPolicy conf) with
  | Some server => Some server
  | None => head (dc_NameServer conf)
  end.

Lemma payload_of_match p : PlainPattern "exact:" "suffix:" p → pm_match (payload_of p) = pattern_matches "suffix" d p.
Proof.
  intros (v & Hv & [->| ->]); unfold payload_of, pattern_matches.
  - rewrite (cut_prefix "exact") by done. simpl. by apply pm_exact.
  - rewrite (cut_prefix "suffix") by done. simpl. by apply pm_tree.
Qed.

(** The payload of the patterns of a condition matches where the condition holds. *)
Lemma payload_exact t l :
  printable t → dnsDomains t = Ok l →
  existsb pm_match (payload_of <$> l) = eval (domain_atom d) t.
Proof.
  intros Hp Hd. pose proof (domains_plain _ _ _ _ Hp Hd) as Hl.
  destruct (domains_of_exact "exact" "suffix" eq_refl eq_refl ltac:(done) t l Hd) as [_ He].
  rewrite <- He. unfold patterns_match. clear -Hl.
  induction Hl as [|p l Hpl _ IH]; csimpl; [done|]. by rewrite payload_of_match, IH.
Qed.

(** What the loop over the rules has made of the rules [done]. *)
Record RulesInv (servers : gmap string string) (done : list RouteRule) (s : dns_rules) : Prop := {
  ri_names : Forall (λ p, ∃ name rp, dp_key p = "rule-set:" +:+ name ∧
               drs_providers s !! name = Some rp) (drs_policies s);
  ri_targets : Forall (λ ru, is_Some (servers !! ru_Target ru)) done;
  ri_route : ∀ final, servers !! route_compiled (domain_atom d) done final =
    match policy_server (drs_providers s) (drs_policies s) with
    | Some server => Some server
    | None => servers !! final
    end }.

Lemma provider_of_named providers p name :
  dp_key p = "rule-set:" +:+ name → provider_of providers p = default [] (rp_Payload <$> providers !! name).
Proof. intros H. unfold provider_of. by rewrite H, (cut_prefix "rule-set"). Qed.

Lemma policy_server_insert providers name rp policies :
  providers !! name = None →
  Forall (λ p, ∃ name rp, dp_key p = "rule-set:" +:+ name ∧ providers !! name = Some rp) policies →
  policy_server (<[name := rp]> providers) policies = policy_server providers policies.
Proof.
  intros Hn H. induction H as [|p policies (name' & rp' & Hk & Hl) _ IH]; [done|]. simpl.
  unfold policy_matches. rewrite !(provider_of_named _ _ _ Hk).
  rewrite lookup_insert_ne by congruence. by rewrite IH.
Qed.

Lemma policy_server_app providers l p :
  policy_server providers (l ++ [p]) =
    match policy_server providers l with
    | Some server => Some server
    | None => if policy_matches providers p then Some (dp_server p) else None
    end.
Proof. induction l as [|q l IH]; simpl; [done|]. by destruct (policy_matches providers q). Qed.

Lemma add_rule_inv servers done i r s :
  printable (ru_Condition r) → RulesInv servers done s →
  safe (add_rule servers i r s) (RulesInv servers (done ++ [r])).
Proof.
  intros Hp [Hn Ht Hr]. unfold add_rule. cbv zeta.
  destruct (servers !! ru_Target r) as [server|] eqn:Es; [|done].
  destruct (dnsDomains (ru_Condition r)) as [domains|] eqn:Ed; [|done].
  pose proof (payload_exact _ _ Hp Ed) as He.
  assert (Forall (λ ru, is_Some (servers !! ru_Target ru)) (done ++ [r])) as Ht'
    by (apply Forall_app; split; [done|by apply Forall_singleton]).
  destruct (_ <? _); [done|]. case_bool_decide as Hd.
  - subst domains. simpl in He. simpl. split; simpl; [done|done|]. intros final.
    by rewrite route_compiled_app, <- He.
  - set (name := "dns_rule_" +:+ pad4 i).
    destruct (drs_providers s !! name) as [|] eqn:El; [done|]. simpl. split; simpl; [|done|].
    + apply Forall_app. split.
      * eapply Forall_impl; [exact Hn|]. intros p (name' & rp & Hk & Hl). exists name', rp.
        split; [done|]. rewrite lookup_insert_ne by congruence. done.
      * apply Forall_singleton. eexists name, _. split; [done|]. by rewrite lookup_insert_eq.
    + intros final. rewrite route_compiled_app, policy_server_app, policy_server_insert by done.
      rewrite Hr. destruct (policy_server _ _); [done|]. unfold policy_matches.
      match goal with |- context [provider_of _ ?p] => rewrite (provider_of_named _ p name eq_refl) end.
      rewrite lookup_insert_eq. simpl. rewrite He.
      destruct (eval _ _); [done|done].
Qed.

Lemma add_rules_inv servers rules :
  Forall (λ ru, printable (ru_Condition ru)) rules →
  safe (range_fold (add_rule servers) rules {| drs_providers := ∅; drs_policies := []; drs_count := 0 |})
    (RulesInv servers rules).
Proof.
  intros Hp. apply (safe_fold_prefix _ (RulesInv servers)).
  { split; [constructor|constructor|done]. }
  intros done x rest s -> Hs. rewrite Forall_app, Forall_cons in Hp.
  by apply add_rule_inv; [apply Hp|].
Qed.
End Query.
End DNS.

(** ** The document *)

Section Document.
Context {N : Network} {P : Platform} {T : GoText} {U : Upper}.

(** The address of the resolver [id]. *)
Definition ServerFor (input : EmitInput) (dns : DNSInput) (id address : string) : Prop :=
  ∃ i r selected selected', dp_Resolvers (di_Profile dns) !! i = Some r ∧ dr_ResolverID r = id ∧
    dns_server (di_Profile dns) (ResolvePolicyTag input (default "" (di_OutboundTags dns !! id)))
      i r selected = Ok (address, selected').

(** Every name is answered by the server of the resolver the profile says. *)
Definition DNSEmitted (input : EmitInput) (conf : option dnsConfig)
    (providers : gmap string dnsRuleProvider) : Prop :=
  match in_DNS input, conf with
  | None, None => providers = ∅
  | Some dns, Some conf => ∀ d (M : PayloadMatching d), ∃ address,
      native_dns d providers conf = Some address ∧
      ServerFor input dns
        (route_compiled (domain_atom d) (di_Rules dns) (dp_FinalResolver (di_Profile dns))) address
  | _, _ => False
  end.

Lemma add_servers_safe input dns selected :
  safe (range_fold (add_server input dns) (dp_Resolvers (di_Profile dns))
          {| dst_servers := ∅; dst_selected := selected |})
    (λ s, ∀ id a, dst_servers s !! id = Some a → ServerFor input dns id a).
Proof.
  apply (safe_fold _ (λ _ s, ∀ id a, dst_servers s !! id = Some a → ServerFor input dns id a)).
  { intros id a. simpl. by rewrite lookup_empty. }
  intros i r s Hr Hs. unfold add_server. cbv zeta.
  apply safe_bind with (Q := λ out, dns_server (di_Profile dns)
    (ResolvePolicyTag input (default "" (di_OutboundTags dns !! dr_ResolverID r))) i r (dst_selected s) = Ok out).
  { by apply safe_lift. }
  intros [a sel] Hd. simpl. intros id b.
  destruct (decide (dr_ResolverID r = id)) as [<-|Hne].
  - rewrite lookup_insert_eq. intros [= <-]. by exists i, r, (dst_selected s), sel.
  - rewrite lookup_insert_ne by done. apply Hs.
Qed.

Lemma select_bootstrap_safe p fail i ref selected n :
  r_Payload (or_Resource ref) = Payload_Node n →
  safe (select_bootstrap p fail i ref selected) (λ _, True).
Proof.
  intros Hp. unfold select_bootstrap. rewrite Hp. destruct (NeedsBootstrap n); [|done].
  by destruct (first_bootstrap p).
Qed.

Lemma mihomo_applyDNS_safe input :
  NodeRefs (outbound_list input) → TextReady input →
  safe (applyDNS input) (λ out, DNSEmitted input out.1 out.2).
Proof.
  intros Hrefs Htext. unfold applyDNS, DNSEmitted.
  destruct (in_DNS input) as [dns|] eqn:Edns; [|done]. cbv zeta.
  eapply safe_bind with (Q := λ refs, refs = outbound_list input).
  { apply safe_lift. apply OutboundRefs_list. }
  intros refs ->. eapply safe_bind with (Q := λ _, True).
  { apply (safe_fold _ (λ _ _, True)); [done|]. intros i ref sel Hin _.
    apply list_elem_of_lookup_2 in Hin. unfold NodeRefs in Hrefs. rewrite Forall_forall in Hrefs.
    destruct (Hrefs _ Hin) as (n & Hn & _). by eapply select_bootstrap_safe. }
  intros selected _. pose proof (add_servers_safe input dns selected) as Hs.
  destruct (range_fold (add_server _ _) _ _) as [s| |]; [|done..]. simpl in Hs.
  eapply safe_bind with (Q := λ _, True).
  { destruct (dst_selected s =s ""); [|done]. by destruct (first_bootstrap _). }
  intros chosen _. destruct (dst_servers s !! _) as [final|] eqn:Ef; [|done].
  destruct (over_rules _); [done|].
  pose proof (λ d (M : PayloadMatching d),
    add_rules_inv d (dst_servers s) (di_Rules dns) (tx_dns _ Htext _ Edns)) as Hr.
  destruct (range_fold (add_rule _) _ _) as [rules|[code path]|]; [|done|by destruct (Hr "" _)].
  simpl in Hr |- *. intros d M. destruct (Hr d M) as [_ _ Hroute].
  specialize (Hroute (dp_FinalResolver (di_Profile dns))). unfold native_dns. simpl.
  destruct (policy_server d (drs_providers rules) (drs_policies rules)) as [server|].
  - exists server. split; [done|]. by apply Hs.
  - exists final. split; [done|]. apply Hs. by rewrite Hroute.
Qed.

(** ** Proxies and groups *)

(** The rendering of a node: its endpoint, its dialer, and TLS that verifies the
    certificate exactly when the node says so. *)
Definition Renders (n : Node) (tag dialer : string) (o : proxy) : Prop :=
  px_Name o = tag ∧ px_DialerProxy o = dialer ∧
  px_Server o = ep_Host (n_Endpoint n) ∧ px_Port o = ep_Port (n_Endpoint n) ∧
  ∀ t, n_Security n = Security_TLS t →
    (px_TLS o = Some true ∨ px_Type o = Trojan) ∧
    (px_SNI o = tls_ServerName t ∨ px_ServerName o = tls_ServerName t) ∧
    tls_VerifyCertificate t = Some (negb (px_SkipCertVerify o)).

Lemma nodeProxy_safe tag m dialer n :
  mn_Node m = n →
  (∀ t, mn_TLS m = Some t → is_Some (tls_VerifyCertificate t)) →
  (∀ t, n_Security n = Security_TLS t → mn_TLS m = Some t ∧ mn_Reality m = None) →
  safe (nodeProxy tag m dialer) (Renders n tag dialer).
Proof.
  intros <- Ht Hr. unfold nodeProxy. cbv zeta.
  eapply safe_bind with (Q := λ f, ∀ t, mn_TLS m = Some t → mn_Reality m = None →
    (tf_TLS f = Some true ∨ n_Protocol (mn_Node m) = Trojan) ∧
    (tf_SNI f = tls_ServerName t ∨ tf_ServerName f = tls_ServerName t) ∧
    tls_VerifyCertificate t = Some (negb (tf_Skip f))).
  { unfold node_tls. cbv zeta. destruct (mn_TLS m) as [t|]; [|by destruct (mn_Reality m)].
    destruct (Ht t eq_refl) as [v Hv]. rewrite Hv. simpl. intros ? [= <-] ->. simpl.
    rewrite negb_involutive. split_and!; [| |done].
    - destruct (String.eqb_spec (n_Protocol (mn_Node m)) Trojan); auto.
    - destruct (_ || _); auto. }
  intros f Hf. split_and!; [done..|]. intros t Hsec. destruct (Hr t Hsec) as [H1 H2].
  destruct (Hf t H1 H2) as ([H3|H3] & H4 & H5); (split_and!; [|done..]); [by left|right].
  simpl. by rewrite H3.
Qed.

(** The proxy of a reference renders its node. *)
Definition RefProxy (ref : OutboundRef) (o : proxy) : Prop :=
  ∃ n, r_Payload (or_Resource ref) = Payload_Node n ∧ Renders n (or_Tag ref) (or_DialerTag ref) o.

Lemma mihomo_emit_ref_safe input ref n :
  r_Payload (or_Resource ref) = Payload_Node n → NodeSolid n →
  safe (emit_ref input ref) (RefProxy ref).
Proof.
  intros Hp Hs. unfold emit_ref. eapply safe_bind; [by apply MapNode_safe|].
  intros m (Hn & Ht & Hr). eapply safe_mono; [by eapply nodeProxy_safe|]. intros o Ho. by exists n.
Qed.

(** A group lists its policy's members; its interval is the policy's, in seconds. *)
Definition GroupOf (p : PolicyInstance) (gr : policyGroup) : Prop :=
  gr_Name gr = pi_Tag p ∧ gr_Proxies gr = pi_Members p ∧
  (hc_Enabled (pi_Health p) = true →
   hc_IntervalMS (pi_Health p) = Some (1000 * gr_Interval gr) ∧ 1 ≤ gr_Interval gr).

Lemma policy_group_safe input p :
  (hc_Enabled (pi_Health p) = true → ∃ ms, hc_IntervalMS (pi_Health p) = Some ms ∧ 1000 ≤ ms) →
  safe (policy_group input p) (GroupOf p).
Proof.
  intros Hh. unfold policy_group. eapply safe_bind with (Q := λ _, True); [by apply safe_lift|].
  intros [[type strategy] tolerance] _. unfold GroupOf. cbv zeta.
  destruct (hc_Enabled (pi_Health p)); [|done]. destruct (Hh eq_refl) as (ms & -> & Hms). simpl.
  destruct (Z.eqb_spec (Z.rem ms 1000) 0) as [E|]; simpl; [|done].
  pose proof (Z.quot_rem' ms 1000). split_and!; [done..|]. intros _. split; [f_equal; lia|lia].
Qed.

Lemma policy_groups_safe input :
  Forall (λ p, hc_Enabled (pi_Health p) = true → ∃ ms, hc_IntervalMS (pi_Health p) = Some ms ∧ 1000 ≤ ms)
    (in_Policies input) →
  safe (policy_groups input)
    (Forall2 GroupOf (filter (λ p, pi_Strategy p ≠ PolicyFixed) (in_Policies input))).
Proof.
  intros Hh. apply (safe_fold_prefix _
    (λ done groups, Forall2 GroupOf (filter (λ p, pi_Strategy p ≠ PolicyFixed) done) groups)).
  { constructor. }
  intros done p rest groups Hl Hg. rewrite filter_app.
  destruct (String.eqb_spec (pi_Strategy p) PolicyFixed) as [E|E].
  - rewrite filter_cons_False by (intros H; by apply H). simpl. by rewrite app_nil_r.
  - rewrite filter_cons_True by done. eapply safe_bind.
    { apply policy_group_safe. rewrite Forall_forall in Hh. apply Hh. rewrite Hl. set_solver. }
    intros gr Hgr. simpl. apply Forall2_app; [done|]. constructor; [done|constructor].
Qed.

(** ** What an emitted document is *)

Record Emitted (input : EmitInput) (doc : document) : Prop := {
  em_outbounds : ∃ exit ordered, OrderedOutboundRefs input = Ok (exit, ordered) ∧
    Forall2 RefProxy ordered (doc_Proxies doc);
  em_groups : Forall2 GroupOf (filter (λ p, pi_Strategy p ≠ PolicyFixed) (in_Policies input))
    (doc_Groups doc);
  em_limits : outbound_total doc ≤ MaxOutbounds ∧ rule_total doc ≤ MaxRules;
  (** No rule names the direct outbound unless the profile does. *)
  em_direct : UsesTag input "direct" = false →
    Forall (λ rule, Contains (ToUpper rule) ",DIRECT" = false) (doc_Rules doc);
  em_dns : DNSEmitted input (doc_DNS doc) (doc_RuleProviders doc);
  em_routes : ∀ c (X : MihomoMatching c), native_route c (doc_Rules doc) =
    Some (native_tag input (route_compiled (conn_atom c) (rules_of input) (exit_of input))) }.

Lemma implicitDirect_false doc :
  implicitDirect doc = false → Forall (λ rule, Contains (ToUpper rule) ",DIRECT" = false) (doc_Rules doc).
Proof.
  unfold implicitDirect. destruct (_ || _); [done|]. case_bool_decide; [done|].
  rewrite Forall_forall. intros Hx rule Hin. destruct (Contains (ToUpper rule) ",DIRECT") eqn:E; [|done].
  rewrite <- not_true_iff_false in Hx. exfalso. apply Hx, existsb_elem.
  exists rule. split; [done|]. cbv zeta. by rewrite E.
Qed.

(** The emitter never panics, and what it returns routes and answers as it should. *)
Lemma mihomo_emit_document_safe input :
  EmitReady input → TextReady input → safe (emit_document input) (Emitted input).
Proof.
  intros Hready Htext. pose proof Hready as [Hnodes Hconditions _ Hhealth]. unfold emit_document.
  eapply safe_bind with (Q := λ o, OrderedOutboundRefs input = Ok o); [by apply safe_lift|].
  intros [exit ordered] Hord. eapply safe_bind.
  { apply (collect_safe (emit_ref input) RefProxy); [by intros; eapply mihomo_emit_ref_safe|].
    by eapply ordered_nodes. }
  intros proxies Hout. eapply safe_bind with (Q := λ doc,
    outbound_total doc ≤ MaxOutbounds → rule_total doc ≤ MaxRules →
    (UsesTag input "direct" = false →
       Forall (λ rule, Contains (ToUpper rule) ",DIRECT" = false) (doc_Rules doc)) →
    Emitted input doc).
  - unfold applyOrchestration. cbv zeta. eapply safe_bind; [by apply policy_groups_safe|].
    intros groups Hg. eapply safe_bind; [by apply mihomo_applyDNS_safe|]. intros dns Hdns. simpl.
    intros Hc1 Hc2 Hdirect. split; simpl; try done; [by exists exit, ordered|].
    intros c X. destruct (OrderedOutboundRefs_Ok _ _ _ Hord) as (Hexit & _).
    apply mihomo_routing_rules_exact; [done|done|]. unfold exit_of. rewrite Hexit. by apply (tx_exit _ Htext).
  - intros doc Hdoc. eapply safe_bind with (Q := λ _, CheckNativeCounts input (outbound_total doc) (rule_total doc) = None).
    { by apply safe_fail_if. }
    intros [] Hcounts. unfold CheckNativeCounts in Hcounts.
    destruct (Z.ltb_spec MaxOutbounds (outbound_total doc)); [done|].
    destruct (Z.ltb_spec MaxRules (rule_total doc)); [done|].
    destruct (implicitDirect doc) eqn:Ei, (UsesTag input "direct") eqn:Eu; simpl; try done;
      apply Hdoc; try done; intros _; by apply implicitDirect_false.
Qed.
End Document.
