(* ===== verification/CompileFacts.v ===== *)
(** The compiler as a whole: it never panics, and what it returns is the document of a
    prepared graph. Every failure says why: no operation of the compiler or of the
    emitters fails with an empty list of diagnostics. *)
From S2P Require Import Prelude Diagnostics IRTypes Hashes IRValidate Frozen FrozenFacts.
From S2P Require Import Capability Labels Adapter Network Domains Xray Singbox Mihomo Compiler Compile.
From S2P Require Import RouteFacts ExpandFacts MemberFacts GraphFacts PrepareFacts ConditionFacts.
From S2P Require Import EmitFacts.
From S2P Require XrayFacts SingboxFacts MihomoFacts.

Section Compile.
Context {P : Platform} {T : GoText} {N : Network} {U : Upper} {Y : Mihomo.YAML}.

(** What every artifact says of itself. *)
Record ArtifactOk (input : EmitInput) (a : Artifact) : Prop := {
  ao_snapshot : ar_SnapshotID a = in_SnapshotID input;
  ao_target : ar_TargetKey a = in_TargetKey input;
  ao_outbounds : ar_OutboundCount a ≤ MaxOutbounds;
  ao_rules : ar_RuleCount a ≤ MaxRules }.

Lemma xray_Emit_safe input : EmitReady input → safe (Xray.Emit input) (ArtifactOk input).
Proof.
  intros H. unfold Xray.Emit. eapply safe_bind; [by apply XrayFacts.xray_emit_document_safe|].
  intros doc [_ _ [H1 H2] _ _]. cbv zeta. by destruct (_ || _).
Qed.

Lemma singbox_Emit_safe input : EmitReady input → safe (Singbox.Emit input) (ArtifactOk input).
Proof.
  intros H. unfold Singbox.Emit. eapply safe_bind; [by apply SingboxFacts.singbox_emit_document_safe|].
  by intros doc [_ _ [H1 H2] _ _].
Qed.

Lemma mihomo_Emit_safe input :
  EmitReady input → TextReady input → safe (Mihomo.Emit input) (ArtifactOk input).
Proof.
  intros H H'. unfold Mihomo.Emit. eapply safe_bind; [by apply MihomoFacts.mihomo_emit_document_safe|].
  intros doc [_ _ [H1 H2] _ _ _]. by destruct (Mihomo.marshalYAML doc).
Qed.

Lemma emitNative_safe g :
  EmitReady (emit_input g) → TextReady (emit_input g) →
  safe (emitNative g) (ArtifactOk (emit_input g)).
Proof.
  intros H H'. unfold emitNative. cbv zeta. destruct (_ =s IRTypes.Xray); [by apply xray_Emit_safe|].
  destruct (_ =s SingBox); [by apply singbox_Emit_safe|].
  destruct (_ =s IRTypes.Mihomo); [by apply mihomo_Emit_safe|done].
Qed.

(** What the compiler returns. *)
Record Compiled (catalog : CapabilityCatalog) (input : FrozenInput) (target : Target)
    (out : Artifact * Diagnostics) : Prop := {
  cd_graph : ∃ g, Prepare sha256Hex catalog input target = Ret (g, out.2) ∧
    g_Target g = target ∧ emitNative g = Ret out.1 ∧ ArtifactOk (emit_input g) out.1;
  cd_size : Z.of_nat (String.length (ar_Bytes out.1)) ≤ MaxArtifactBytes }.

Context (Hschema : SchemaContract P) (Hemit : EmitContract) (Htext : TextContract).

Lemma prepared_both catalog src input target g diags :
  NewFrozenInput src = Ok input → Prepare sha256Hex catalog input target = Ret (g, diags) →
  EmitReady (emit_input g) ∧ TextReady (emit_input g).
Proof.
  intros Hnew Hprep. split; [by eapply prepared_ready|].
  by eapply (prepared_text Hschema Htext sha256Hex sha256Hex_chars).
Qed.

Lemma Compile_safe catalog canceled src input target :
  NewFrozenInput src = Ok input →
  safe (Compile catalog canceled input target) (Compiled catalog input target).
Proof.
  intros Hnew. unfold Compile. eapply safe_bind with (Q := λ _, True); [by apply safe_fail_if|].
  intros _ _.
  pose proof (Prepare_safe Hschema sha256Hex sha256Hex_chars catalog src input target Hnew) as Hs.
  destruct (Prepare sha256Hex catalog input target) as [[g diags]| |] eqn:E; [|done..].
  destruct Hs as (_ & Ht & _). simpl in Ht. destruct (prepared_both _ _ _ _ _ _ Hnew E) as [H1 H2].
  pose proof (emitNative_safe g H1 H2) as He. cbn [fst snd].
  destruct (emitNative g) as [a| |] eqn:Ea; [|done..]. simpl in He |- *.
  destruct (Z.ltb_spec MaxArtifactBytes (Z.of_nat (String.length (ar_Bytes a)))); [done|].
  split; [|done]. by exists g.
Qed.

(** ** The profiles of a prepared graph *)

(** The native tag of what a target refers to: its own tag, or the member a fixed
    policy stands for. *)
Definition Reaches (g : Graph) (ref : TargetRef) (native : string) : Prop :=
  ∃ tag, Stands g ref tag ∧ native = ResolvePolicyTag (emit_input g) tag.

Section Prepared.
Context (catalog : CapabilityCatalog) (src : FrozenInputSpec) (input : FrozenInput) (target : Target).
Context (Hnew : NewFrozenInput src = Ok input) (g : Graph) (diags : Diagnostics).
Context (Hprep : Prepare sha256Hex catalog input target = Ret (g, diags)).

(** The compiled rules route as the profile. *)
Lemma prepared_route ref :
  fs_RoutingProfile (normalize_spec src) = Some ref →
  ∃ resources r p, MapOf target (fs_Resources (normalize_spec src)) resources ∧
    resources !! fr_ResourceID ref = Some r ∧ r_Payload r = Payload_RoutingProfile p ∧
    ∀ atom, Reaches g (route_profile atom resources (rp_Rules p) (rp_Final p))
      (ResolvePolicyTag (emit_input g)
         (route_compiled atom (rules_of (emit_input g)) (exit_of (emit_input g)))).
Proof.
  intros Href.
  destruct (prepared_graph Hschema sha256Hex sha256Hex_chars catalog src input target Hnew g diags Hprep)
    as (resources & s & HM & _ & _ & HO).
  pose proof (or_routing _ _ _ _ _ _ HO) as HR. unfold RoutingOk in HR. rewrite Href in HR.
  destruct (g_Routing g) as [ri|] eqn:Eri; [|done].
  destruct HR as (r & p & H1 & H2 & _ & _ & H5 & H6). exists resources, r, p. split_and!; [done..|].
  intros atom. eexists. split; [|reflexivity]. unfold rules_of. simpl. rewrite Eri.
  assert (exit_of (emit_input g) = g_FinalTag g) as ->; [|by apply route_first_match].
  assert (g_FinalTag g ≠ "") as Hne.
  { pose proof (prepared_tags Hschema sha256Hex sha256Hex_chars catalog src input target Hnew g diags
      Hprep) as Hall.
    destruct (Stands_tag _ _ _ H5) as [Hin|[->| ->]]; [|done..].
    rewrite Forall_forall in Hall. by apply Hall. }
  unfold exit_of, ExitTag. simpl. by destruct (String.eqb_spec (g_FinalTag g) "").
Qed.

(** The compiled DNS rules answer as the profile. *)
Lemma prepared_answers ref :
  fs_DNSProfile (normalize_spec src) = Some ref →
  ∃ resources r dns, MapOf target (fs_Resources (normalize_spec src)) resources ∧
    resources !! fr_ResourceID ref = Some r ∧ r_Payload r = Payload_DNSProfile (di_Profile dns) ∧
    in_DNS (emit_input g) = Some dns ∧
    ∀ atom, route_compiled atom (di_Rules dns) (dp_FinalResolver (di_Profile dns)) =
      answer_profile atom resources (dp_Rules (di_Profile dns)) (dp_FinalResolver (di_Profile dns)).
Proof.
  intros Href.
  destruct (prepared_graph Hschema sha256Hex sha256Hex_chars catalog src input target Hnew g diags Hprep)
    as (resources & s & HM & _ & _ & HO).
  pose proof (or_dns _ _ _ _ _ _ HO) as HD. unfold DNSOk in HD. rewrite Href in HD.
  destruct (g_DNS g) as [dns|] eqn:Edns; [|done].
  destruct HD as (r & p & H1 & H2 & _ & H4 & _ & _ & H7). exists resources, r, dns.
  rewrite H4. split_and!; [done..|]. intros atom. by apply answer_first_match.
Qed.
End Prepared.
End Compile.

(** ** Failures *)

(** A failure carries a diagnostic. *)
Definition explains {A} (o : outcome Diagnostics A) : Prop := match o with Fails e => e ≠ [] | _ => True end.
Definition explains_result {A} (r : result Diagnostics A) : Prop :=
  match r with Err e => e ≠ [] | Ok _ => True end.

Lemma explains_bind {A B} (m : outcome Diagnostics A) (k : A → outcome Diagnostics B) :
  explains m → (∀ a, explains (k a)) → explains (let! x := m in k x).
Proof. destruct m; simpl; auto. Qed.

Lemma explains_must {A} (o : option A) : explains (must o).
Proof. by destruct o. Qed.

Lemma explains_lift {A} (r : result Diagnostics A) : explains_result r → explains (lift r).
Proof. by destruct r. Qed.

Lemma explains_fail_if (e : error) : explained e → explains (fail_if e).
Proof. destruct e as [d|]; [|done]. intros H E. apply H. simpl in E. by rewrite E. Qed.

Lemma explains_fold {A S} (f : nat → A → S → outcome Diagnostics S) l s :
  (∀ i x s, explains (f i x s)) → explains (range_fold f l s).
Proof.
  intros Hf. unfold range_fold. generalize 0%nat. revert s.
  induction l as [|x l IH]; intros s k; simpl; [done|].
  apply (explains_bind (f k x s)); [apply Hf|]. intros s'. apply IH.
Qed.

Lemma explains_result_bind {A B} (m : result Diagnostics A) (k : A → result Diagnostics B) :
  explains_result m → (∀ a, explains_result (k a)) → explains_result (let? x := m in k x).
Proof. destruct m; simpl; auto. Qed.

Create HintDb explain.
#[export] Hint Resolve explains_must explained_validate explained_finish : explain.

(** Splits an operation into its calls; a literal list is not empty. *)
Ltac account_step :=
  match goal with
  | |- explains (let! _ := _ in _) => apply explains_bind; [|intros ?]
  | |- explains (range_fold _ _ _) => apply explains_fold; intros ? ? ?
  | |- explains (fail_if _) => apply explains_fail_if
  | |- explains (lift _) => apply explains_lift
  | |- explains_result (let? _ := _ in _) => apply explains_result_bind; [|intros ?]
  | |- explains (match ?x with _ => _ end) => destruct x eqn:?
  | |- explains (let '_ := ?x in _) => destruct x
  | |- explains_result (match ?x with _ => _ end) => destruct x eqn:?
  | |- explained (match ?x with _ => _ end) => destruct x eqn:?
  end.
Ltac account := repeat (cbv zeta beta; first [done | solve [auto with explain nocore] | account_step]).

Lemma explains_try_preset p : explains (try_preset p).
Proof. unfold try_preset. destruct p; account. Qed.
Lemma explains_try_rule_set p : explains (try_rule_set p).
Proof. unfold try_rule_set. destruct p; account. Qed.
#[export] Hint Resolve explains_try_preset explains_try_rule_set : explain.

Section Compiler.
Context {P : Platform} {T : GoText}.

Lemma explains_target_issue {A} target code path id :
  explains (A:=A) (Fails (target_issue target code path id)).
Proof. done. Qed.
Lemma explained_check_policy target controlled id p : explained (check_policy target controlled id p).
Proof. unfold check_policy. account. Qed.
Lemma explains_chain_instance resources r chain h1 h2 : explains (chain_instance resources r chain h1 h2).
Proof. unfold chain_instance. account. Qed.
#[local] Hint Resolve explained_check_policy explains_chain_instance : explain.

Lemma explains_add_member resources tag i m s : explains (add_member resources tag i m s).
Proof. unfold add_member. account. Qed.
#[local] Hint Resolve explains_add_member : explain.

Lemma explains_add_policy target resources controlled tags r s :
  explains (add_policy target resources controlled tags r s).
Proof. unfold add_policy, policy_members. account. Qed.

Lemma explains_checkRuleLimit target resources m path id s :
  explains (checkRuleLimit target resources m path id s).
Proof. unfold checkRuleLimit. account. Qed.
#[local] Hint Resolve explains_add_policy explains_checkRuleLimit : explain.

Lemma explains_add_rule target resources dns m to index id acc :
  explains (add_rule target resources dns m to index id acc).
Proof. unfold add_rule. account. Qed.
#[local] Hint Resolve explains_add_rule : explain.

Lemma explains_routing_input target resources tags r profile s :
  explains (routing_input target resources tags r profile s).
Proof. unfold routing_input. account. Qed.

Lemma explains_dns_input target resources tags r profile s :
  explains (dns_input target resources tags r profile s).
Proof. unfold dns_input, outbound_tags. account. Qed.

Lemma explains_check_preset target resources routing dns policies :
  explains (check_preset target resources routing dns policies).
Proof. unfold check_preset. account. Qed.

Lemma explains_resource_tags g policies labels : explains (resource_tags g policies labels).
Proof. unfold resource_tags, policy_tag. account. Qed.
#[local] Hint Resolve explains_routing_input explains_dns_input explains_check_preset
  explains_resource_tags : explain.

Lemma explains_prepareOrchestration graph spec resources policies labels :
  explains (prepareOrchestration graph spec resources policies labels).
Proof. unfold prepareOrchestration. account. Qed.

Lemma explains_addResource target resources id s : explains (addResource target resources id s).
Proof. unfold addResource. account. Qed.
#[local] Hint Resolve explains_prepareOrchestration explains_addResource : explain.

Lemma explains_profile_refs p : explains (profile_refs p).
Proof. unfold profile_refs. destruct p; account. Qed.
#[local] Hint Resolve explains_profile_refs : explain.

Lemma explains_expand target resources spec : explains (expand target resources spec).
Proof. unfold expand, add_profile. account. Qed.

Lemma explains_prepare_resources target spec : explains (prepare_resources target spec).
Proof.
  unfold prepare_resources, merged_resource. account.
  unfold explains_result. destruct (MergePolicyOverride _ _) eqn:E; [done|].
  by eapply MergePolicyOverride_explained.
Qed.

Lemma assign_loop_explained fuel states r : assign_loop fuel states = Some r → explains_result r.
Proof.
  revert states. induction fuel as [|fuel IH]; intros states; simpl; [done|].
  destruct (scan_labels _ _ _) as [[? collision]|]; [|by intros [= <-]].
  case_bool_decide; [by intros [= <-]|apply IH].
Qed.

Lemma assign_explained digest items r : assign digest items = Some r → explains_result r.
Proof.
  unfold assign. destruct (assign_states digest items) as [[states|e]|] eqn:E; [by intros [= <-]| |done].
  intros [= <-]. simpl. unfold assign_states in E. destruct (forallb _ _); [|by injection E as <-].
  by apply assign_loop_explained in E.
Qed.

Lemma explains_outbound_count s : explains (outbound_count s).
Proof. unfold outbound_count. account. Qed.
Lemma explains_independent_of labels r : explains (independent_of labels r).
Proof. unfold independent_of, label_at. account. Qed.
Lemma explains_chain_of resources labels r : explains (chain_of resources labels r).
Proof. unfold chain_of, label_at. account. Qed.
#[local] Hint Resolve explains_expand explains_prepare_resources explains_outbound_count
  explains_independent_of explains_chain_of : explain.

Lemma explains_collect {A B} (f : A → outcome Diagnostics B) l :
  (∀ x, explains (f x)) → explains (range_collect f l).
Proof. intros Hf. unfold range_collect. account. Qed.

Lemma explains_expand_graph digest target build spec : explains (expand_graph digest target build spec).
Proof.
  unfold expand_graph. apply explains_bind; [auto with explain|]. intros resources.
  apply explains_bind; [auto with explain|]. intros s. apply explains_bind.
  { destruct (assign digest (es_items s)) eqn:E; [|done]. by apply explains_lift, (assign_explained _ _ _ E). }
  intros labels. apply explains_bind; [auto with explain|]. intros count. destruct (_ <? _); [done|].
  apply explains_bind; [apply explains_collect; auto with explain|]. intros independents.
  apply explains_bind; [apply explains_collect; auto with explain|]. intros chains.
  apply explains_bind; [auto with explain|done].
Qed.

Lemma explains_check_target catalog input target : explains (check_target catalog input target).
Proof.
  unfold check_target. destruct (FrozenInput_Validate input) as [err|] eqn:E.
  - simpl. apply explained_Some. rewrite <- E. unfold FrozenInput_Validate.
    destruct (fi_spec input); [apply FrozenInputSpec_Validate_explained|done].
  - account.
Qed.

Lemma explains_collectCapabilities catalog graph : explains (collectCapabilities catalog graph).
Proof.
  unfold collectCapabilities, requirements, node_requirement, require_capability. account.
Qed.

(** Preparation. *)
Lemma explains_Prepare digest catalog input target : explains (Prepare digest catalog input target).
Proof.
  unfold Prepare. apply explains_bind; [apply explains_check_target|]. intros build.
  apply explains_bind; [apply explains_expand_graph|]. intros graph.
  apply explains_bind; [apply explains_collectCapabilities|]. by intros [[]].
Qed.

(** ** The emitters *)

Lemma explains_MapNode r path target : explains (MapNode r path target).
Proof.
  unfold MapNode. destruct (r_Payload r) as [| |n| | | | | | |]; try done. cbv zeta.
  destruct (Node_Validate n) as [d|] eqn:E.
  - simpl. intros H%fmap_nil_inv. apply (explained_Node n). by rewrite E, H.
  - account.
Qed.

Lemma explains_OutboundRefs input : explains_result (OutboundRefs input).
Proof.
  unfold OutboundRefs. destruct (_ <? _); [done|]. cbv zeta.
  match goal with |- context [range_err ?f ?l] =>
    assert (explained (range_err f l)) as H; [apply explained_range_err; intros; account|] end.
  destruct (range_err _ _) as [e|]; [|done]. simpl. intros ->. by apply H.
Qed.

Lemma explains_ordered input : explains_result (OrderedOutboundRefs input).
Proof.
  unfold OrderedOutboundRefs. apply explains_result_bind; [unfold ExitTag; account|]. intros exit.
  apply explains_result_bind; [apply explains_OutboundRefs|]. intros refs. account.
Qed.

Lemma explained_counts input outbounds rules : explained (CheckNativeCounts input outbounds rules).
Proof. unfold CheckNativeCounts. account. Qed.
#[local] Hint Resolve explains_MapNode explains_OutboundRefs explains_ordered explained_counts : explain.
Context {N : Network}.

(** *** Xray *)

Lemma xray_nodeOutbound tag m dialer : explains (Xray.nodeOutbound tag m dialer).
Proof. unfold Xray.nodeOutbound. account. Qed.
#[local] Hint Resolve xray_nodeOutbound : explain.

Lemma xray_emit_ref input ref : explains (Xray.emit_ref input ref).
Proof. unfold Xray.emit_ref. account. Qed.

Lemma xray_policy_balancers input outbounds policies :
  explains_result (Xray.policy_balancers input outbounds policies).
Proof.
  induction policies as [|p policies IH]; simpl; [done|].
  apply explains_result_bind; [|intros; by apply explains_result_bind].
  unfold Xray.policy_balancer. account.
Qed.

Lemma xray_add_conditions r terms : explains (Xray.add_conditions r terms).
Proof.
  revert r. induction terms as [|t terms IH]; intros r; simpl; [done|].
  apply explains_bind; [unfold Xray.addCondition; account|]. intros [r' more]. simpl. by destruct more.
Qed.
#[local] Hint Resolve xray_emit_ref xray_policy_balancers xray_add_conditions : explain.

Lemma xray_routing_rules input balancers : explains (Xray.routing_rules input balancers).
Proof. unfold Xray.routing_rules, Xray.branch_rules. account. Qed.

Lemma xray_applyDNS input balancers : explains (Xray.applyDNS input balancers).
Proof. unfold Xray.applyDNS, Xray.check_bootstrap. account. Qed.
#[local] Hint Resolve xray_routing_rules xray_applyDNS : explain.

Lemma xray_emit_document input : explains (Xray.emit_document input).
Proof.
  unfold Xray.emit_document, Xray.applyOrchestration, Xray.orchestrated_inbound. account.
Qed.

(** *** sing-box *)

Lemma singbox_nodeOutbound tag m dialer : explains (Singbox.nodeOutbound tag m dialer).
Proof. unfold Singbox.nodeOutbound, Singbox.node_tls. account. Qed.
#[local] Hint Resolve singbox_nodeOutbound : explain.

Lemma singbox_emit_ref input ref : explains (Singbox.emit_ref input ref).
Proof. unfold Singbox.emit_ref. account. Qed.

Lemma singbox_policy_outbounds input policies : explains_result (Singbox.policy_outbounds input policies).
Proof. induction policies as [|p policies IH]; simpl; account. Qed.

Lemma singbox_routing_rules input ri rules : explains_result (Singbox.routing_rules input ri rules).
Proof. induction rules as [|r rules IH]; simpl; account. Qed.

Lemma singbox_applyDNS input : explains_result (Singbox.applyDNS input).
Proof. unfold Singbox.applyDNS. account. Qed.
#[local] Hint Resolve singbox_emit_ref singbox_policy_outbounds singbox_routing_rules singbox_applyDNS : explain.

Lemma singbox_emit_document input : explains (Singbox.emit_document input).
Proof. unfold Singbox.emit_document, Singbox.applyOrchestration. account. Qed.

(** *** Mihomo *)

Context {U : Upper} {Y : Mihomo.YAML}.

Lemma mihomo_emit_ref input ref : explains (Mihomo.emit_ref input ref).
Proof. unfold Mihomo.emit_ref, Mihomo.nodeProxy, Mihomo.node_tls. account. Qed.

Lemma mihomo_policy_groups input : explains (Mihomo.policy_groups input).
Proof. unfold Mihomo.policy_groups, Mihomo.policy_group, Mihomo.group_kind. account. Qed.

Lemma mihomo_applyDNS input : explains (Mihomo.applyDNS input).
Proof. unfold Mihomo.applyDNS, Mihomo.select_bootstrap. account. Qed.
#[local] Hint Resolve mihomo_emit_ref mihomo_policy_groups mihomo_applyDNS : explain.

Lemma mihomo_emit_document input : explains (Mihomo.emit_document input).
Proof. unfold Mihomo.emit_document, Mihomo.applyOrchestration. account. Qed.
#[local] Hint Resolve xray_emit_document singbox_emit_document mihomo_emit_document : explain.

(** ** The compiler *)

Lemma explains_Emit graph : explains (emitNative graph).
Proof. unfold emitNative, Xray.Emit, Singbox.Emit, Mihomo.Emit. account. Qed.

Lemma explains_Compile catalog canceled input target :
  explained canceled → explains (Compile catalog canceled input target).
Proof.
  intros Hc. unfold Compile. apply explains_bind; [by apply explains_fail_if|]. intros _.
  apply explains_bind; [apply explains_Prepare|]. intros out.
  apply explains_bind; [apply explains_Emit|]. intros a. account.
Qed.
End Compiler.
