(* ===== verification/Base64.v ===== *)
(** [encoding/base64], strict: the standard and the URL alphabet, with padding and
    without, and that decoding is the exact inverse of encoding. A sextet is six bits,
    the highest first. *)
From S2P Require Import Prelude.

Record sextet := Sextet { s5 : bool; s4 : bool; s3 : bool; s2 : bool; s1 : bool; s0 : bool }.

Definition bit_value (b : bool) : N := if b then 1%N else 0%N.
Definition sextet_value (s : sextet) : N :=
  (32 * bit_value (s5 s) + 16 * bit_value (s4 s) + 8 * bit_value (s3 s)
   + 4 * bit_value (s2 s) + 2 * bit_value (s1 s) + bit_value (s0 s))%N.
Definition sextet_of_N (n : N) : sextet :=
  Sextet (N.testbit n 5) (N.testbit n 4) (N.testbit n 3) (N.testbit n 2) (N.testbit n 1)
    (N.testbit n 0).

(** ** The alphabets *)

Definition encode_char (url : bool) (s : sextet) : ascii :=
  let n := sextet_value s in
  if (n <? 26)%N then ascii_of_N (n + 65)
  else if (n <? 52)%N then ascii_of_N (n + 71)
  else if (n <? 62)%N then ascii_of_N (n - 4)
  else if (n =? 62)%N then if url then "-" else "+"
  else if url then "_" else "/".

Definition decode_char (url : bool) (c : ascii) : option sextet :=
  let n := N_of_ascii c in
  if (65 <=? n)%N && (n <=? 90)%N then Some (sextet_of_N (n - 65))
  else if (97 <=? n)%N && (n <=? 122)%N then Some (sextet_of_N (n - 71))
  else if is_digit c then Some (sextet_of_N (n + 4))
  else if Ascii.eqb c (if url then "-" else "+") then Some (sextet_of_N 62)
  else if Ascii.eqb c (if url then "_" else "/") then Some (sextet_of_N 63)
  else None.

Lemma decode_encode_char url s : decode_char url (encode_char url s) = Some s.
Proof. by destruct url, s as [[] [] [] [] [] []]. Qed.

Lemma encode_decode_char url c s : decode_char url c = Some s → encode_char url s = c.
Proof.
  intros H.
  assert (match decode_char url c with Some s => Ascii.eqb (encode_char url s) c | None => true end
          = true) as E by by destruct c as [[] [] [] [] [] [] [] []], url.
  rewrite H in E. by apply Ascii.eqb_eq.
Qed.

(** ** Groups of three bytes *)

Definition sextet_1 (x : ascii) : sextet :=
  let 'Ascii _ _ b2 b3 b4 b5 b6 b7 := x in Sextet b7 b6 b5 b4 b3 b2.
Definition sextet_2 (x y : ascii) : sextet :=
  let 'Ascii a0 a1 _ _ _ _ _ _ := x in
  let 'Ascii _ _ _ _ b4 b5 b6 b7 := y in Sextet a1 a0 b7 b6 b5 b4.
Definition sextet_3 (y z : ascii) : sextet :=
  let 'Ascii b0 b1 b2 b3 _ _ _ _ := y in
  let 'Ascii _ _ _ _ _ _ c6 c7 := z in Sextet b3 b2 b1 b0 c7 c6.
Definition sextet_4 (z : ascii) : sextet :=
  let 'Ascii c0 c1 c2 c3 c4 c5 _ _ := z in Sextet c5 c4 c3 c2 c1 c0.

Definition byte_1 (p q : sextet) : ascii := Ascii (s4 q) (s5 q) (s0 p) (s1 p) (s2 p) (s3 p) (s4 p) (s5 p).
Definition byte_2 (q r : sextet) : ascii := Ascii (s2 r) (s3 r) (s4 r) (s5 r) (s0 q) (s1 q) (s2 q) (s3 q).
Definition byte_3 (r t : sextet) : ascii := Ascii (s0 t) (s1 t) (s2 t) (s3 t) (s4 t) (s5 t) (s0 r) (s1 r).

Definition pad (padded : bool) (n : nat) : list ascii := if padded then replicate n "="%char else [].

Fixpoint encode_groups (url padded : bool) (l : list ascii) : list ascii :=
  let e := encode_char url in
  match l with
  | [] => []
  | [x] => e (sextet_1 x) :: e (sextet_2 x zero) :: pad padded 2
  | [x; y] => e (sextet_1 x) :: e (sextet_2 x y) :: e (sextet_3 y zero) :: pad padded 1
  | x :: y :: z :: l =>
      e (sextet_1 x) :: e (sextet_2 x y) :: e (sextet_3 y z) :: e (sextet_4 z)
        :: encode_groups url padded l
  end.

(** The last, shorter group: [Strict] requires the unused bits to be zero. *)
Definition decode_one (url : bool) (a b : ascii) : option (list ascii) :=
  p ← decode_char url a; q ← decode_char url b;
  if s3 q || s2 q || s1 q || s0 q then None else Some [byte_1 p q].
Definition decode_two (url : bool) (a b c : ascii) : option (list ascii) :=
  p ← decode_char url a; q ← decode_char url b; r ← decode_char url c;
  if s1 r || s0 r then None else Some [byte_1 p q; byte_2 q r].
Definition decode_three (url : bool) (a b c d : ascii) : option (list ascii) :=
  p ← decode_char url a; q ← decode_char url b; r ← decode_char url c; t ← decode_char url d;
  Some [byte_1 p q; byte_2 q r; byte_3 r t].

Definition is_pad (c : ascii) : bool := Ascii.eqb c "=".

Fixpoint decode_groups (url padded : bool) (l : list ascii) : option (list ascii) :=
  match l with
  | [] => Some []
  | [a; b] => if padded then None else decode_one url a b
  | [a; b; c] => if padded then None else decode_two url a b c
  | a :: b :: c :: d :: l =>
      match l with
      | [] =>
          if padded && is_pad c && is_pad d then decode_one url a b
          else if padded && is_pad d then decode_two url a b c
          else decode_three url a b c d
      | _ =>
          x ← decode_three url a b c d; y ← decode_groups url padded l; Some (x ++ y)
      end
  | _ => None
  end.

Definition newline (c : ascii) : bool := Ascii.eqb c "010" || Ascii.eqb c "013".

(** [Encoding.EncodeToString] and [Encoding.Strict().DecodeString]: line breaks are
    skipped. *)
Definition base64_encode (url padded : bool) (s : string) : string :=
  String.string_of_list_ascii (encode_groups url padded (String.list_ascii_of_string s)).
Definition base64_decode (url padded : bool) (s : string) : option string :=
  String.string_of_list_ascii <$>
    decode_groups url padded
      (filter (λ c, newline c = false) (String.list_ascii_of_string s)).

(** ** Decoding inverts encoding *)

Definition base64_char (c : ascii) : bool :=
  let n := N_of_ascii c in
  (65 <=? n)%N && (n <=? 90)%N || (97 <=? n)%N && (n <=? 122)%N || is_digit c ||
  existsb (Ascii.eqb c) ["+"; "/"; "-"; "_"; "="]%char.

(** Induction in steps of three bytes, and of four characters. *)
Lemma ind_3 (P : list ascii → Prop) :
  P [] → (∀ x, P [x]) → (∀ x y, P [x; y]) → (∀ x y z l, P l → P (x :: y :: z :: l)) → ∀ l, P l.
Proof.
  intros H0 H1 H2 H3. fix IH 1. intros [|x [|y [|z l]]]; [done..|]. apply H3, IH.
Qed.
Lemma ind_4 (P : list ascii → Prop) :
  P [] → (∀ a, P [a]) → (∀ a b, P [a; b]) → (∀ a b c, P [a; b; c]) →
  (∀ a b c d l, P l → P (a :: b :: c :: d :: l)) → ∀ l, P l.
Proof.
  intros H0 H1 H2 H3 H4. fix IH 1. intros [|a [|b [|c [|d l]]]]; [done..|]. apply H4, IH.
Qed.

Lemma encode_groups_nonempty url padded x l : encode_groups url padded (x :: l) ≠ [].
Proof. by destruct l as [|y [|z l]]. Qed.

Lemma is_pad_encode url s : is_pad (encode_char url s) = false.
Proof. by destruct url, s as [[] [] [] [] [] []]. Qed.

Lemma base64_char_encode url s : base64_char (encode_char url s) = true.
Proof. by destruct url, s as [[] [] [] [] [] []]. Qed.

Lemma decode_three_encode url x y z :
  decode_three url (encode_char url (sextet_1 x)) (encode_char url (sextet_2 x y))
    (encode_char url (sextet_3 y z)) (encode_char url (sextet_4 z)) = Some [x; y; z].
Proof. unfold decode_three. rewrite !decode_encode_char. by destruct x, y, z. Qed.
Lemma decode_two_encode url x y :
  decode_two url (encode_char url (sextet_1 x)) (encode_char url (sextet_2 x y))
    (encode_char url (sextet_3 y zero)) = Some [x; y].
Proof. unfold decode_two. rewrite !decode_encode_char. by destruct x, y. Qed.
Lemma decode_one_encode url x :
  decode_one url (encode_char url (sextet_1 x)) (encode_char url (sextet_2 x zero)) = Some [x].
Proof. unfold decode_one. rewrite !decode_encode_char. by destruct x. Qed.

Lemma decode_encode_groups url padded l :
  decode_groups url padded (encode_groups url padded l) = Some l.
Proof.
  induction l as [|x|x y|x y z l IH] using ind_3; [done| | |].
  - destruct padded; simpl; apply decode_one_encode.
  - destruct padded; simpl; [|apply decode_two_encode].
    rewrite is_pad_encode. apply decode_two_encode.
  - cbn [encode_groups decode_groups]. rewrite decode_three_encode, !is_pad_encode.
    destruct l as [|w l]; [by rewrite !andb_false_r|].
    destruct (encode_groups url padded (w :: l)) eqn:E; [by apply encode_groups_nonempty in E|].
    by rewrite IH.
Qed.

Lemma encode_groups_chars url padded l :
  Forall (λ c, base64_char c = true) (encode_groups url padded l).
Proof.
  induction l as [|x|x y|x y z l IH] using ind_3; simpl;
    repeat constructor; auto using base64_char_encode; destruct padded; repeat constructor.
Qed.

Lemma base64_char_not_newline c : base64_char c = true → newline c = false.
Proof. by destruct c as [[] [] [] [] [] [] [] []]. Qed.

Lemma filter_newline_id l :
  Forall (λ c, base64_char c = true) l → filter (λ c, newline c = false) l = l.
Proof.
  induction 1 as [|c l Hc _ IH]; [done|].
  rewrite filter_cons_True by by apply base64_char_not_newline. by rewrite IH.
Qed.

Lemma base64_decode_encode url padded s :
  base64_decode url padded (base64_encode url padded s) = Some s.
Proof.
  unfold base64_decode, base64_encode.
  rewrite String.list_ascii_of_string_of_list_ascii, filter_newline_id by apply encode_groups_chars.
  rewrite decode_encode_groups. simpl. by rewrite String.string_of_list_ascii_of_string.
Qed.

(** ** Encoding inverts decoding: only canonical text is accepted *)

Lemma orb_falses a b c d : a || b || c || d = false → (a = false ∧ b = false) ∧ c = false ∧ d = false.
Proof. by destruct a, b, c, d. Qed.

Lemma decode_three_inv url a b c d l :
  decode_three url a b c d = Some l →
  ∃ x y z, l = [x; y; z] ∧ a = encode_char url (sextet_1 x) ∧ b = encode_char url (sextet_2 x y)
    ∧ c = encode_char url (sextet_3 y z) ∧ d = encode_char url (sextet_4 z).
Proof.
  unfold decode_three. intros H.
  destruct (decode_char url a) as [p|] eqn:Ea, (decode_char url b) as [q|] eqn:Eb,
    (decode_char url c) as [r|] eqn:Ec, (decode_char url d) as [t|] eqn:Ed; try done.
  apply encode_decode_char in Ea, Eb, Ec, Ed. injection H as <-. subst.
  eexists _, _, _. split; [done|]. by destruct p, q, r, t.
Qed.
Lemma decode_two_inv url a b c l :
  decode_two url a b c = Some l →
  ∃ x y, l = [x; y] ∧ a = encode_char url (sextet_1 x) ∧ b = encode_char url (sextet_2 x y)
    ∧ c = encode_char url (sextet_3 y zero).
Proof.
  unfold decode_two. intros H.
  destruct (decode_char url a) as [p|] eqn:Ea, (decode_char url b) as [q|] eqn:Eb,
    (decode_char url c) as [r|] eqn:Ec; try done.
  apply encode_decode_char in Ea, Eb, Ec. simpl in H.
  destruct (s1 r || s0 r) eqn:Er; [done|]. apply orb_false_iff in Er as [E1 E0].
  injection H as <-. subst. eexists _, _. split; [done|].
  destruct p, q, r; simpl in *; by subst.
Qed.
Lemma decode_one_inv url a b l :
  decode_one url a b = Some l →
  ∃ x, l = [x] ∧ a = encode_char url (sextet_1 x) ∧ b = encode_char url (sextet_2 x zero).
Proof.
  unfold decode_one. intros H.
  destruct (decode_char url a) as [p|] eqn:Ea, (decode_char url b) as [q|] eqn:Eb; try done.
  apply encode_decode_char in Ea, Eb. simpl in H.
  destruct (s3 q || s2 q || s1 q || s0 q) eqn:Er; [done|].
  apply orb_falses in Er as [[E3 E2] [E1 E0]].
  injection H as <-. subst. eexists _. split; [done|].
  destruct p, q; simpl in *; by subst.
Qed.

Lemma is_pad_eq c : is_pad c = true → c = "="%char.
Proof. apply Ascii.eqb_eq. Qed.

Lemma encode_decode_groups url padded l d :
  decode_groups url padded l = Some d → encode_groups url padded d = l.
Proof.
  revert d. induction l as [|a|a b|a b c|a b c d l IH] using ind_4; intros out; simpl.
  - by intros [= <-].
  - done.
  - destruct padded; [done|]. intros (x & -> & -> & ->)%decode_one_inv. done.
  - destruct padded; [done|]. intros (x & y & -> & -> & -> & ->)%decode_two_inv. done.
  - destruct l as [|e l].
    + destruct padded; simpl.
      * destruct (is_pad c) eqn:Ec, (is_pad d) eqn:Ed; simpl;
          try apply is_pad_eq in Ec as ->; try apply is_pad_eq in Ed as ->.
        -- intros (x & -> & -> & ->)%decode_one_inv. done.
        -- intros (x & y & z & -> & -> & -> & -> & ->)%decode_three_inv. done.
        -- intros (x & y & -> & -> & -> & ->)%decode_two_inv. done.
        -- intros (x & y & z & -> & -> & -> & -> & ->)%decode_three_inv. done.
      * intros (x & y & z & -> & -> & -> & -> & ->)%decode_three_inv. done.
    + intros H. destruct (decode_three url a b c d) as [g|] eqn:E3; [|done].
      cbn [mbind option_bind] in H.
      destruct (decode_groups url padded (e :: l)) as [r|] eqn:Er; [|done].
      cbn [mbind option_bind] in H. injection H as <-.
      apply decode_three_inv in E3 as (x & y & z & -> & -> & -> & -> & ->).
      simpl. by rewrite (IH _ eq_refl).
Qed.

Definition newline_free (s : string) : bool := all_chars (λ c, negb (newline c)) s.

Lemma filter_newline_free s :
  newline_free s = true →
  filter (λ c, newline c = false) (String.list_ascii_of_string s) = String.list_ascii_of_string s.
Proof.
  unfold newline_free. induction s as [|c s IH]; simpl; [done|].
  rewrite andb_true_iff, negb_true_iff. intros [Hc Hs].
  rewrite filter_cons_True by done. by rewrite IH.
Qed.

(** A text without line breaks that decodes is the encoding of what it decodes to. *)
Lemma base64_encode_decode url padded s d :
  newline_free s = true → base64_decode url padded s = Some d → base64_encode url padded d = s.
Proof.
  intros Hs. unfold base64_decode, base64_encode. rewrite filter_newline_free by done.
  destruct (decode_groups _ _ _) as [l|] eqn:E; simpl; [|done]. intros [= <-].
  rewrite String.list_ascii_of_string_of_list_ascii.
  rewrite (encode_decode_groups _ _ _ _ E). apply String.string_of_list_ascii_of_string.
Qed.

Lemma all_chars_list f s :
  all_chars f s = true ↔ Forall (λ c, f c = true) (String.list_ascii_of_string s).
Proof.
  induction s as [|c s IH]; simpl; [by rewrite Forall_nil|].
  by rewrite andb_true_iff, Forall_cons, IH.
Qed.

Lemma base64_encode_chars url padded s : all_chars base64_char (base64_encode url padded s) = true.
Proof.
  apply all_chars_list. unfold base64_encode.
  rewrite String.list_ascii_of_string_of_list_ascii. apply encode_groups_chars.
Qed.

Example base64_example :
  base64_encode false true "aes:pw" = "YWVzOnB3" ∧
  base64_encode true false "ab>" = "YWI-" ∧ base64_encode false true "ab" = "YWI=" ∧
  base64_decode false true "YWI=" = Some "ab" ∧ base64_decode false true "YWJ=" = None ∧
  base64_decode false false "YWI=" = None ∧ base64_decode true false "YWI" = Some "ab".
Proof. vm_compute. done. Qed.
