(* ===== verification/URLText.v ===== *)
(** Text as the import parsers use it: valid UTF-8 ([unicode/utf8]), searching
    ([strings]), and the percent encoding of [net/url] with its inverse. *)
From S2P Require Import Prelude Json Network.

(** ** UTF-8 *)

(** [utf8.ValidString]: [skip] bytes of a rune that was checked are still to come. *)
Fixpoint utf8_valid (skip : nat) (s : string) : bool :=
  match s with
  | EmptyString => true
  | String c s =>
      match skip with
      | S skip => utf8_valid skip s
      | O =>
          if byte_in 0 127 c then utf8_valid 0 s
          else match rune_tail c s with Some tail => utf8_valid tail s | None => false end
      end
  end.
Definition ValidString (s : string) : bool := utf8_valid 0 s.

Lemma utf8_valid_ascii s t :
  all_chars (byte_in 0 127) s = true → utf8_valid 0 (s +:+ t) = utf8_valid 0 t.
Proof.
  induction s as [|c s IH]; str_simpl; [done|]. simpl.
  rewrite andb_true_iff. intros [-> Hs]. by apply IH.
Qed.

Lemma ValidString_ascii s : all_chars (byte_in 0 127) s = true → ValidString s = true.
Proof. intros H. unfold ValidString. rewrite <-(string_app_empty_r s). by rewrite utf8_valid_ascii. Qed.

(** ** Searching *)

Definition one_of (chars : string) (c : ascii) : bool :=
  existsb (Ascii.eqb c) (String.list_ascii_of_string chars).
(** [strings.ContainsAny], for one-byte characters, and [strings.Count] of one. *)
Definition ContainsAny (s chars : string) : bool := negb (all_chars (λ c, negb (one_of chars c)) s).
Definition Count (s : string) (c : ascii) : nat :=
  length (filter (λ d, d = c) (String.list_ascii_of_string s)).

(** [strings.Cut] at a separator of several bytes. *)
Fixpoint CutString (sep s : string) : option (string * string) :=
  if String.prefix sep s
  then Some ("", String.substring (String.length sep) (String.length s - String.length sep) s)
  else
    match s with
    | EmptyString => None
    | String c s =>
        match CutString sep s with
        | Some (before, after) => Some (String c before, after)
        | None => None
        end
    end.

(** The text before and after the last occurrence of a byte. *)
Fixpoint CutLast (sep : ascii) (s : string) : option (string * string) :=
  match s with
  | EmptyString => None
  | String c s =>
      match CutLast sep s with
      | Some (before, after) => Some (String c before, after)
      | None => if Ascii.eqb c sep then Some ("", s) else None
      end
  end.

Lemma substring_rest q p :
  String.substring (String.length q) (String.length (q +:+ p) - String.length q) (q +:+ p) = p.
Proof.
  rewrite string_length_app. replace (_ + _ - _)%nat with (String.length p) by lia.
  apply substring_app.
Qed.

Lemma prefix_self p s : String.prefix p (p +:+ s) = true.
Proof.
  induction p as [|c p IH]; str_simpl; [by destruct s|]. simpl.
  by destruct (ascii_dec c c).
Qed.

(** The separator begins with a byte that the text before it does not have. *)
Lemma CutString_app c sep s t :
  free_of c s = true → CutString (String c sep) (s +:+ String c sep +:+ t) = Some (s, t).
Proof.
  unfold free_of. induction s as [|d s IH]; intros Hs.
  - rewrite string_app_empty_l. destruct (String c sep +:+ t) eqn:E; [done|].
    cbn [CutString]. rewrite <-E, prefix_self. by rewrite substring_rest.
  - simpl in Hs. apply andb_true_iff in Hs as [Hd Hs].
    rewrite string_app_cons. cbn [CutString String.prefix].
    destruct (ascii_dec c d) as [->|_]; [by rewrite Ascii.eqb_refl in Hd|]. by rewrite IH.
Qed.

Lemma prefix_app p s : String.prefix p s = true → ∃ t, s = p +:+ t.
Proof.
  revert s. induction p as [|c p IH]; intros s H; [by exists s|].
  destruct s as [|d s]; [done|]. simpl in H.
  destruct (ascii_dec c d) as [->|]; [|done]. apply IH in H as [t ->]. by exists t.
Qed.

Lemma CutString_inv sep s before after :
  CutString sep s = Some (before, after) → s = before +:+ sep +:+ after.
Proof.
  revert before. induction s as [|c s IH]; intros before; cbn [CutString].
  - destruct (String.prefix sep "") eqn:E; [|done]. intros [= <- <-].
    apply prefix_app in E as [t E]. by destruct sep, t.
  - destruct (String.prefix sep (String c s)) eqn:E.
    + intros [= <- <-]. apply prefix_app in E as [t E].
      pose proof (substring_rest sep t) as H. rewrite <-E in H.
      rewrite string_app_empty_l. etrans; [exact E|]. f_equal. symmetry. exact H.
    + destruct (CutString sep s) as [[b a]|] eqn:E'; [|done]. intros [= <- <-].
      str_simpl. f_equal. by rewrite (IH _ eq_refl) at 1.
Qed.

(** ** Percent encoding *)

(** The modes of [url.escape] in use: [PathEscape], the userinfo of [URL.String], and
    [QueryEscape]. *)
Inductive EscapeMode := PathSegment | UserPassword | QueryComponent.

Definition is_letter (c : ascii) : bool := byte_in 65 90 c || byte_in 97 122 c.

(** [shouldEscape]. *)
Definition shouldEscape (mode : EscapeMode) (c : ascii) : bool :=
  if is_letter c || is_digit c || one_of "-_.~" c then false
  else if one_of "$&+,/:;=?@" c then
    match mode with
    | PathSegment => one_of "/;,?" c
    | UserPassword => one_of "@/?:" c
    | QueryComponent => true
    end
  else true.

Definition upper_hex (n : N) : ascii := if (n <? 10)%N then ascii_of_N (n + 48) else ascii_of_N (n + 55).
Definition unhex (c : ascii) : option N :=
  let n := N_of_ascii c in
  if is_digit c then Some (n - 48)%N
  else if byte_in 97 102 c then Some (n - 87)%N
  else if byte_in 65 70 c then Some (n - 55)%N
  else None.

Definition percent (c : ascii) : string :=
  String "%" (String (upper_hex (N_of_ascii c / 16)) (String (upper_hex (N_of_ascii c mod 16)) "")).

Definition escape_char (mode : EscapeMode) (c : ascii) : string :=
  match mode with
  | QueryComponent => if Ascii.eqb c " " then "+" else if shouldEscape mode c then percent c else String c ""
  | _ => if shouldEscape mode c then percent c else String c ""
  end.

Fixpoint url_escape (mode : EscapeMode) (s : string) : string :=
  match s with EmptyString => "" | String c s => escape_char mode c +:+ url_escape mode s end.

(** [unescape]: [plus] for the mode that reads [+] as a space. *)
Fixpoint url_unescape (plus : bool) (s : string) : option string :=
  match s with
  | EmptyString => Some ""
  | String c s =>
      if Ascii.eqb c "%" then
        match s with
        | String h (String l s) =>
            match unhex h, unhex l with
            | Some h, Some l => String (ascii_of_N (16 * h + l)) <$> url_unescape plus s
            | _, _ => None
            end
        | _ => None
        end
      else String (if plus && Ascii.eqb c "+" then " " else c) <$> url_unescape plus s
  end.

Definition PathEscape : string → string := url_escape PathSegment.
Definition QueryEscape : string → string := url_escape QueryComponent.
Definition PathUnescape : string → option string := url_unescape false.
Definition QueryUnescape : string → option string := url_unescape true.

Definition reads_plus (mode : EscapeMode) : bool := match mode with QueryComponent => true | _ => false end.

Lemma unescape_escape_char mode c s :
  url_unescape (reads_plus mode) (escape_char mode c +:+ s) =
    String c <$> url_unescape (reads_plus mode) s.
Proof. by destruct mode, c as [[] [] [] [] [] [] [] []]. Qed.

Lemma url_unescape_escape mode s : url_unescape (reads_plus mode) (url_escape mode s) = Some s.
Proof.
  induction s as [|c s IH]; [done|]. cbn [url_escape].
  by rewrite unescape_escape_char, IH.
Qed.

(** What an escaped text consists of. *)
Definition escaped_char (c : ascii) : bool :=
  is_letter c || is_digit c || one_of "-_.~%+$&:=@" c.

Lemma escape_char_chars mode c : mode ≠ UserPassword → all_chars escaped_char (escape_char mode c) = true.
Proof. intros. by destruct mode, c as [[] [] [] [] [] [] [] []]. Qed.

Lemma url_escape_chars mode s : mode ≠ UserPassword → all_chars escaped_char (url_escape mode s) = true.
Proof.
  intros Hm. induction s as [|c s IH]; [done|]. cbn [url_escape].
  by rewrite all_chars_app, escape_char_chars.
Qed.

(** ** The host of a URL *)

(** [splitHostPort] of [net/url] (a port is digits, [validOptionalPort]): [URL.Hostname] and [URL.Port]. *)
Definition splitHostPort (hostPort : string) : string * string :=
  let '(host, port) :=
    match CutLast ":" hostPort with
    | Some (host, port) => if all_chars is_digit port then (host, port) else (hostPort, "")
    | None => (hostPort, "")
    end in
  if HasPrefix host "[" && HasSuffix host "]"
  then (String.substring 1 (String.length host - 2) host, port) else (host, port).

Example splitHostPort_example :
  splitHostPort "[2001:db8::1]:443" = ("2001:db8::1", "443") ∧
  splitHostPort "a.example:" = ("a.example", "") ∧ splitHostPort "[" = ("[", "").
Proof. vm_compute. done. Qed.

(** A [url.Userinfo] and what [url.Parse] gives of a link. *)
Record Userinfo := { ui_Username : string; ui_Password : option string }.
Record ShareURL := {
  su_Opaque : string; su_User : option Userinfo; su_Host : string; su_Path : string;
  su_RawQuery : string; su_Fragment : string }.

Definition su_Hostname (u : ShareURL) : string := (splitHostPort (su_Host u)).1.
Definition su_Port (u : ShareURL) : string := (splitHostPort (su_Host u)).2.

(** [Userinfo.String]. *)
Definition Userinfo_String (u : Userinfo) : string :=
  if (ui_Username u =s "") && (default "" (ui_Password u) =s "") then ""
  else
    url_escape UserPassword (ui_Username u) +:+
    match ui_Password u with
    | Some password => ":" +:+ url_escape UserPassword password
    | None => ""
    end.
