(* ===== verification/SafeFetch.v ===== *)
(** Guarded fetching ([safefetch/addr.go], [safefetch/safefetch.go]): which addresses may
    be dialed, and [Client.Fetch] over the redirects that [net/http] follows. The network
    is a function of everything that happened before, so a name may resolve to another
    address each time it is asked. *)
From stdpp Require Import list strings.
From S2P Require Import Prelude Diagnostics Network URLText.

(** ** Addresses *)

(** [netip.Addr]: invalid, 32 bits, or 128 bits with a zone. *)
Inductive IP := NoIP | V4 (a : Z) | V6 (a : Z) (zone : string).
#[export] Instance IP_eq_dec : EqDecision IP.
Proof. solve_decision. Defined.

(** [As4], [v6] and [v6u16]: byte [i] of 4 or 16, word [i] of 8. *)
Definition octet4 (i a : Z) : Z := Z.land (Z.shiftr a (24 - 8 * i)) 255.
Definition octet6 (i a : Z) : Z := Z.land (Z.shiftr a (120 - 8 * i)) 255.
Definition word6 (i a : Z) : Z := Z.land (Z.shiftr a (112 - 16 * i)) 65535.

Definition Is4In6 (a : Z) : bool := Z.shiftr a 32 =? 65535.
Definition Unmap (ip : IP) : IP :=
  match ip with
  | V6 a _ => if Is4In6 a then V4 (Z.land a 4294967295) else ip
  | _ => ip
  end.
Definition IsValid (ip : IP) : bool := negb (bool_decide (ip = NoIP)).
Definition IsUnspecified (ip : IP) : bool := bool_decide (ip = V4 0) || bool_decide (ip = V6 0 "").
Definition IsLoopback (ip : IP) : bool :=
  match Unmap ip with
  | V4 a => octet4 0 a =? 127
  | V6 a _ => a =? 1
  | NoIP => false
  end.
Definition IsPrivate (ip : IP) : bool :=
  match Unmap ip with
  | V4 a =>
      (octet4 0 a =? 10) || (octet4 0 a =? 172) && (Z.land (octet4 1 a) 240 =? 16)
      || (octet4 0 a =? 192) && (octet4 1 a =? 168)
  | V6 a _ => Z.land (octet6 0 a) 254 =? 252
  | NoIP => false
  end.
Definition IsMulticast (ip : IP) : bool :=
  match Unmap ip with
  | V4 a => Z.land (octet4 0 a) 240 =? 224
  | V6 a _ => octet6 0 a =? 255
  | NoIP => false
  end.
Definition IsLinkLocalUnicast (ip : IP) : bool :=
  match Unmap ip with
  | V4 a => (octet4 0 a =? 169) && (octet4 1 a =? 254)
  | V6 a _ => Z.land (word6 0 a) 65472 =? 65152
  | NoIP => false
  end.
Definition IsLinkLocalMulticast (ip : IP) : bool :=
  match Unmap ip with
  | V4 a => (octet4 0 a =? 224) && (octet4 1 a =? 0) && (octet4 2 a =? 0)
  | V6 a _ => Z.land (word6 0 a) 65295 =? 65282
  | NoIP => false
  end.
Definition IsInterfaceLocalMulticast (ip : IP) : bool :=
  match Unmap ip with
  | V6 a _ => Z.land (word6 0 a) 65295 =? 65281
  | _ => false
  end.

(** [netip.Prefix] with [Contains]: never an address with a zone. *)
Record IPPrefix := { ipp_Addr : IP; ipp_Bits : Z }.
Definition Prefix_Contains (p : IPPrefix) (ip : IP) : bool :=
  match ipp_Addr p, ip with
  | V4 b, V4 a => Z.shiftr (Z.lxor a b) (32 - ipp_Bits p) =? 0
  | V6 b _, V6 a zone => (zone =s "") && (Z.shiftr (Z.lxor a b) (128 - ipp_Bits p) =? 0)
  | _, _ => false
  end.

(** The address of eight words: [2001:db8::] and [fd00:ec2::254]. *)
Definition words (l : list Z) : Z := foldl (λ a w, a * 65536 + w) 0 l.
Definition documentation6 : IPPrefix :=
  {| ipp_Addr := V6 (words [0x2001; 0xdb8; 0; 0; 0; 0; 0; 0]) ""; ipp_Bits := 32 |}.
Definition aws6 : Z := words [0xfd00; 0xec2; 0; 0; 0; 0; 0; 0x254].
Definition awsMetadata6 : IP := V6 aws6 "".

Definition blocked (ip : IP) : bool :=
  let ip := Unmap ip in
  if negb (IsValid ip) || IsUnspecified ip || IsLoopback ip || IsPrivate ip || IsMulticast ip
     || IsLinkLocalUnicast ip || IsLinkLocalMulticast ip || IsInterfaceLocalMulticast ip
  then true
  else
    match ip with
    | V4 a =>
        (octet4 0 a =? 0) || (240 <=? octet4 0 a)
        || (octet4 0 a =? 100) && (64 <=? octet4 1 a) && (octet4 1 a <=? 127)
        || (octet4 0 a =? 192) && (octet4 1 a =? 0) && (octet4 2 a =? 0)
    | V6 _ _ => Prefix_Contains documentation6 ip || bool_decide (ip = awsMetadata6)
    | NoIP => false
    end.
Definition BlockedAddress (ip : IP) : bool := blocked ip.

(** ** URLs *)

(** A [url.URL]: [fu_User] is [URL.User.String()], if there is one. *)
Record FetchURL := {
  fu_Scheme : string; fu_Opaque : string; fu_User : option string; fu_Host : string; fu_Fragment : string;
  fu_Rest : string }.
(** [url.Parse], [URL.Parse] of a reference, [URL.String], [netip.ParseAddr], the ASCII form
    of a host ([idnaASCII]), [strings.EqualFold], header validity ([httpguts]) and
    [gzip.NewReader] with what can be read and whether it ends well. *)
Class FetchLibs := {
  fetch_Parse : string → option FetchURL;
  fetch_Resolve : FetchURL → string → option FetchURL;
  fetch_String : FetchURL → string;
  ParseIP : string → option IP;
  idnaASCII : string → string;
  EqualFold : string → string → bool;
  valid_header : string * string → bool;
  gunzip : string → option (string * bool) }.

Definition Hostname (u : FetchURL) : string := (splitHostPort (fu_Host u)).1.
Definition Port (u : FetchURL) : string := (splitHostPort (fu_Host u)).2.
(** [net.LookupPort] of digits. *)
Definition LookupPort (port : string) : bool :=
  match Atoi port with Some n => (0 <=? n) && (n <=? 65535) | None => false end.
(** [net.SplitHostPort]. *)
Definition SplitHostPort (address : string) : option (string * string) :=
  match CutLast ":" address with
  | None => None
  | Some (host, port) =>
      if HasPrefix address "["
      then
        match Cut "]" address with
        | Some (String _ inner, after) =>
            if (after =s ":" +:+ port) && negb (Contains inner "[") && negb (Contains port "[") && negb (Contains port "]")
            then Some (inner, port) else None
        | _ => None
        end
      else if Contains host ":" || Contains address "[" || Contains address "]" then None
      else Some (host, port)
  end.
(** [removeEmptyPort] of [net/http]. *)
Definition removeEmptyPort (host : string) : string :=
  match CutLast ":" host with
  | Some (before, after) => if Contains after "]" then host else TrimSuffix host ":"
  | None => host
  end.
Definition with_host (u : FetchURL) (host : string) : FetchURL :=
  {| fu_Scheme := fu_Scheme u; fu_Opaque := fu_Opaque u; fu_User := fu_User u; fu_Host := host;
     fu_Fragment := fu_Fragment u; fu_Rest := fu_Rest u |}.

(** ** Requests and the network *)

(** Headers by canonical name. *)
Abbreviation Header := (list (string * string)).
Definition header_get (key : string) (h : Header) : string :=
  match find (λ kv, kv.1 =s key) h with Some kv => kv.2 | None => "" end.
Definition header_del (key : string) (h : Header) : Header := List.filter (λ kv, negb (kv.1 =s key)) h.
Definition header_set (key value : string) (h : Header) : Header := header_del key h ++ [(key, value)].

(** A request of [net/http] that is sent: always a [GET] without a body. *)
Record Hop := { hp_URL : FetchURL; hp_Header : Header }.
(** What the network reads: the body is the bytes before its end or its failure. *)
Inductive NetErr := Deadline | OtherNetErr.
Record Response := {
  rs_Status : Z; rs_Location : string; rs_ContentEncoding : string; rs_ContentType : string;
  rs_Body : string; rs_BodyErr : option NetErr }.

(** What is done over the network, and the network: its answer to each step, the [Err] of
    the context, and the deadline of [http.Client], by everything done before. *)
Inductive Event := Looked (host : string) | Dialed (ip : IP) (port : string) | Sent (ip : IP) (hop : Hop).
Class World := {
  LookupNetIP : list Event → string → result NetErr (list IP);
  Connects : list Event → IP → string → bool;
  RoundTrip : list Event → IP → Hop → result NetErr Response;
  ctx_done : list Event → bool;
  did_timeout : list Event → bool }.

(** The errors; [url.Error] shows its URL. *)
Inductive FetchError :=
| ErrInvalidURL | ErrHTTPDisabled | ErrBlockedAddress | ErrRedirect | ErrTooLarge | ErrTimeout | ErrFetch
| DeadlineExceeded | OtherErr | URLError (url : string) (err : FetchError).
Definition net_error (e : NetErr) : FetchError := match e with Deadline => DeadlineExceeded | OtherNetErr => OtherErr end.
(** [errors.Is] one of the seven, and a deadline or cancellation. *)
Fixpoint is_code (err : FetchError) : bool :=
  match err with DeadlineExceeded | OtherErr => false | URLError _ err => is_code err | _ => true end.
Fixpoint is_deadline (err : FetchError) : bool :=
  match err with DeadlineExceeded => true | URLError _ err => is_deadline err | _ => false end.

(** Code that uses the network: [None] is a loop out of fuel. *)
Definition Net (A : Type) : Type := list Event → option (result FetchError A) * list Event.
#[export] Instance Net_ret : MRet Net := λ A a tr, (Some (Ok a), tr).
#[export] Instance Net_bind : MBind Net := λ A B k m tr,
  match m tr with
  | (Some (Ok a), tr) => k a tr
  | (Some (Err err), tr) => (Some (Err err), tr)
  | (None, tr) => (None, tr)
  end.
Definition net_fail {A} (err : FetchError) : Net A := λ tr, (Some (Err err), tr).
Definition net_of {A} (r : result FetchError A) : Net A := λ tr, (Some r, tr).
(** A step of the network, and an error as its caller sees it. *)
Definition step {A} (ev : Event) (answer : list Event → A) : Net A := λ tr, (Some (Ok (answer tr)), tr ++ [ev]).
Definition history : Net (list Event) := λ tr, (Some (Ok tr), tr).
Definition net_wrap {A} (f : list Event → FetchError → FetchError) (m : Net A) : Net A := λ tr,
  match m tr with
  | (Some (Err err), tr) => (Some (Err (f tr err)), tr)
  | out => out
  end.

(** ** [Client.Fetch] *)

Record Client := { cl_AllowNets : list IPPrefix }.
Record Request := {
  rq_Header : Header; rq_AllowHTTP : bool; rq_MaxRedirects : Z; rq_MaxCompressedBytes : Z; rq_MaxDecodedBytes : Z }.
Record FetchResult := { ft_Status : Z; ft_Body : string; ft_ContentType : string; ft_URLDisplay : string }.

Definition DefaultMaxRedirects : Z := 3.
Definition MaxRedirects : Z := 5.
Definition DefaultMaxCompressedBytes : Z := 10485760.
Definition DefaultMaxDecodedBytes : Z := 10485760.
Definition maxURLBytes : Z := 4096.

Section Fetch.
Context {L : FetchLibs} {W : World} {T : GoText}.

Definition parseFetchURL (raw : string) (allowHTTP : bool) : result FetchError FetchURL :=
  if (raw =s "") || (maxURLBytes <? Z.of_nat (String.length raw))
     || ContainsAny raw (" " +:+ String "009" (String "013" (String "010" "")))
  then Err ErrInvalidURL
  else
    match fetch_Parse raw with
    | None => Err ErrInvalidURL
    | Some parsed =>
        if negb (fu_Opaque parsed =s "") || bool_decide (is_Some (fu_User parsed))
           || negb (fu_Fragment parsed =s "") || (fu_Host parsed =s "")
        then Err ErrInvalidURL
        else
          let checked :=
            if Hostname parsed =s "" then Err ErrInvalidURL
            else
              let port := if Port parsed =s "" then (if fu_Scheme parsed =s "https" then "443" else "80")
                          else Port parsed in
              if LookupPort port then Ok parsed else Err ErrInvalidURL in
          if fu_Scheme parsed =s "https" then checked
          else if fu_Scheme parsed =s "http" then (if allowHTTP then checked else Err ErrHTTPDisabled)
          else Err ErrInvalidURL
    end.

Definition displayURL (u : FetchURL) : string :=
  if Port u =s "" then fu_Scheme u +:+ "://" +:+ Hostname u
  else fu_Scheme u +:+ "://" +:+ JoinHostPort (Hostname u) (Port u).

Definition effectivePort (u : FetchURL) : string :=
  if Port u =s "" then (if fu_Scheme u =s "https" then "443" else "80") else Port u.
Definition sameOrigin (a b : FetchURL) : bool :=
  EqualFold (fu_Scheme a) (fu_Scheme b) && EqualFold (Hostname a) (Hostname b) && (effectivePort a =s effectivePort b).

Fixpoint classify (done : bool) (err : FetchError) : FetchError :=
  if is_code err then err
  else if done || is_deadline err then ErrTimeout
  else match err with URLError _ err => classify done err | _ => ErrFetch end.

Definition permitted (c : option Client) (ip : IP) : bool :=
  let ip := Unmap ip in
  if negb (blocked ip) then true
  else match c with
       | None => false
       | Some c => existsb (λ network, Prefix_Contains network ip) (cl_AllowNets c)
       end.

(** The [lookup] of a host, and the connection to the first address that accepts one. *)
Definition Client_lookup (host : string) : Net (list IP) :=
  match ParseIP host with
  | Some ip => mret [ip]
  | None =>
      answer ← step (Looked host) (λ tr, LookupNetIP tr host);
      match answer with
      | Err err => tr ← history; net_fail (classify (ctx_done tr) (net_error err))
      | Ok [] => net_fail ErrBlockedAddress
      | Ok ips => mret ips
      end
  end.
Fixpoint dial (ips : list IP) (port : string) : Net IP :=
  match ips with
  | [] => tr ← history; net_fail (classify (ctx_done tr) ErrFetch)
  | ip :: ips =>
      ok ← step (Dialed ip port) (λ tr, Connects tr ip port);
      if (ok : bool) then mret ip else dial ips port
  end.
Definition dialContext (c : option Client) (address : string) : Net IP :=
  match SplitHostPort address with
  | None => net_fail ErrInvalidURL
  | Some (host, port) =>
      if (host =s "") || (port =s "") then net_fail ErrInvalidURL
      else
        ips ← Client_lookup host;
        let allowed := Unmap <$> List.filter (permitted c) ips in
        if bool_decide (allowed = []) then net_fail ErrBlockedAddress else dial allowed port
  end.

(** [canonicalAddr] of [net/http], for [http] and [https]. *)
Definition canonicalAddr (u : FetchURL) : string := JoinHostPort (idnaASCII (Hostname u)) (effectivePort u).
(** [Client.send] and [Transport.RoundTrip]: every request dials. *)
Definition with_basic_auth (hop : Hop) : Hop :=
  match fu_User (hp_URL hop) with
  | Some user => if header_get "Authorization" (hp_Header hop) =s ""
                 then {| hp_URL := hp_URL hop; hp_Header := header_set "Authorization" user (hp_Header hop) |} else hop
  | None => hop
  end.
Definition roundTrip (c : Client) (hop : Hop) : Net Response :=
  let hop := with_basic_auth hop in
  if negb (forallb valid_header (hp_Header hop)) then net_fail OtherErr
  else if negb (fu_Scheme (hp_URL hop) =s "https") && negb (fu_Scheme (hp_URL hop) =s "http") then net_fail OtherErr
  else if fu_Host (hp_URL hop) =s "" then net_fail OtherErr
  else
    ip ← dialContext (Some c) (canonicalAddr (hp_URL hop));
    answer ← step (Sent ip hop) (λ tr, RoundTrip tr ip hop);
    match answer with Ok response => mret response | Err err => net_fail (net_error err) end.
Definition send (c : Client) (hop : Hop) : Net Response :=
  net_wrap (λ tr err, if did_timeout tr then DeadlineExceeded else err) (roundTrip c hop).

(** [isDomainOrSubdomain] and [shouldCopyHeaderOnRedirect]. *)
Definition isDomainOrSubdomain (sub parent : string) : bool :=
  if sub =s parent then true
  else if ContainsAny sub ":%" then false
  else HasSuffix sub ("." +:+ parent).
Definition shouldCopyHeaderOnRedirect (initial dest : FetchURL) : bool :=
  isDomainOrSubdomain (idnaASCII (Hostname dest)) (idnaASCII (Hostname initial)).
Definition sensitive_headers : list string :=
  ["Authorization"; "Www-Authenticate"; "Cookie"; "Cookie2"; "Proxy-Authorization"; "Proxy-Authenticate"].
Definition body_headers : list string :=
  ["Content-Encoding"; "Content-Language"; "Content-Location"; "Content-Type"].
Definition copyHeaders (strip stripBody : bool) (h : Header) : Header :=
  List.filter (λ kv, negb (strip && bool_decide (kv.1 ∈ sensitive_headers))
                     && negb (stripBody && bool_decide (kv.1 ∈ body_headers))) h.
Definition refererForURL (last new : FetchURL) (explicit : string) : string :=
  if (fu_Scheme last =s "https") && (fu_Scheme new =s "http") then ""
  else if negb (explicit =s "") then explicit
  else
    match fu_User last with
    | None => fetch_String last
    | Some user =>
        match CutString (user +:+ "@") (fetch_String last) with
        | Some (before, after) => before +:+ after
        | None => fetch_String last
        end
    end.

(** The [CheckRedirect] of [Fetch]: [via] holds the URLs of the requests before. *)
Definition CheckRedirect (request : Request) (via : list FetchURL) (hop : Hop) : result FetchError Hop :=
  if rq_MaxRedirects request <? Z.of_nat (length via) then Err ErrRedirect
  else
    match parseFetchURL (fetch_String (hp_URL hop)) (rq_AllowHTTP request) with
    | Err ErrHTTPDisabled => Err ErrHTTPDisabled
    | Err _ => Err ErrRedirect
    | Ok _ =>
        match last via with
        | Some previous =>
            if negb (sameOrigin previous (hp_URL hop))
            then Ok {| hp_URL := hp_URL hop; hp_Header := header_del "Authorization" (hp_Header hop) |} else Ok hop
        | None => Ok hop
        end
    end.

(** [http.Client.do]: [redirectBehavior], the next request, and the loop. *)
Definition should_redirect (status : Z) : bool := bool_decide (status ∈ [301; 302; 303; 307; 308]).
Definition include_body (status : Z) : bool := bool_decide (status ∈ [307; 308]).
Definition next_hop (first : Hop) (previous : FetchURL) (status : Z) (strip : bool) (u : FetchURL) : Hop :=
  let h := copyHeaders strip (negb (include_body status)) (hp_Header first) in
  let ref := refererForURL previous u (header_get "Referer" h) in
  {| hp_URL := u; hp_Header := if ref =s "" then h else header_set "Referer" ref h |}.
Definition strips (first u : FetchURL) (strip : bool) : bool :=
  strip || negb (fu_Host first =s fu_Host u) && negb (shouldCopyHeaderOnRedirect first u).
Fixpoint do_loop (fuel : nat) (c : Client) (request : Request) (first : Hop) (via : list FetchURL) (strip : bool)
    (hop : Hop) : Net (Response * FetchURL) :=
  match fuel with
  | O => λ tr, (None, tr)
  | S fuel =>
      let u0 := hp_URL hop in
      response ← net_wrap (λ _, URLError (fetch_String u0)) (send c hop);
      if negb (should_redirect (rs_Status response)) then mret (response, u0)
      else if rs_Location response =s "" then mret (response, u0)
      else
        match fetch_Resolve u0 (rs_Location response) with
        | None => net_fail (URLError (fetch_String u0) OtherErr)
        | Some u =>
            let strip := strips (hp_URL first) u strip in
            match CheckRedirect request (via ++ [u0]) (next_hop first u0 (rs_Status response) strip u) with
            | Err err => net_fail (URLError (rs_Location response) err)
            | Ok hop => do_loop fuel c request first (via ++ [u0]) strip hop
            end
        end
  end.

(** [io.ReadAll] of an [io.LimitReader]. *)
Definition read_limited (limit : Z) (data : string) (err : option NetErr) : result NetErr string :=
  if limit <=? Z.of_nat (String.length data) then Ok (String.substring 0 (Z.to_nat limit) data)
  else match err with Some err => Err err | None => Ok data end.

(** The request with its defaults. *)
Definition with_defaults (r : Request) : Request :=
  {| rq_Header := rq_Header r; rq_AllowHTTP := rq_AllowHTTP r;
     rq_MaxRedirects := if rq_MaxRedirects r =? 0 then DefaultMaxRedirects else rq_MaxRedirects r;
     rq_MaxCompressedBytes := if rq_MaxCompressedBytes r =? 0 then DefaultMaxCompressedBytes else rq_MaxCompressedBytes r;
     rq_MaxDecodedBytes := if rq_MaxDecodedBytes r =? 0 then DefaultMaxDecodedBytes else rq_MaxDecodedBytes r |}.
Definition outside (lo hi n : Z) : bool := (n <? lo) || (hi <? n).

(** The body of a response, within its limits. *)
Definition decode_body (request : Request) (response : Response) (compressed : string) : result FetchError string :=
  let encoding := ToLower (TrimSpace (rs_ContentEncoding response)) in
  if encoding =s "gzip"
  then
    match gunzip compressed with
    | None => Err ErrFetch
    | Some (data, complete) =>
        match read_limited (rq_MaxDecodedBytes request + 1) data (if complete : bool then None else Some OtherNetErr) with
        | Err _ => Err ErrFetch
        | Ok decoded => if rq_MaxDecodedBytes request <? Z.of_nat (String.length decoded) then Err ErrTooLarge else Ok decoded
        end
    end
  else if negb (encoding =s "") && negb (encoding =s "identity") then Err ErrFetch
  else Ok compressed.

(** The requests that a fetch may make: [MaxRedirects] redirects after the first. *)
Definition fetch_fuel (request : Request) : nat := S (S (Z.to_nat (rq_MaxRedirects request))).
Definition Fetch (c : Client) (raw : string) (r : Request) : Net FetchResult :=
  let request := with_defaults r in
  if outside 0 MaxRedirects (rq_MaxRedirects request) then net_fail ErrInvalidURL
  else if outside 1 DefaultMaxCompressedBytes (rq_MaxCompressedBytes request)
          || outside 1 DefaultMaxDecodedBytes (rq_MaxDecodedBytes request) then net_fail ErrInvalidURL
  else
    parsed ← net_of (parseFetchURL raw (rq_AllowHTTP request));
    match fetch_Parse (fetch_String parsed) with
    | None => net_fail ErrInvalidURL
    | Some u =>
        let hop := {| hp_URL := with_host u (removeEmptyPort (fu_Host u)); hp_Header := rq_Header request |} in
        '(response, final) ← net_wrap (λ tr, classify (ctx_done tr))
                               (do_loop (fetch_fuel request) c request hop [] false hop);
        match read_limited (rq_MaxCompressedBytes request + 1) (rs_Body response) (rs_BodyErr response) with
        | Err err => tr ← history; net_fail (classify (ctx_done tr) (net_error err))
        | Ok compressed =>
            if rq_MaxCompressedBytes request <? Z.of_nat (String.length compressed) then net_fail ErrTooLarge
            else
              body ← net_of (decode_body request response compressed);
              mret {| ft_Status := rs_Status response; ft_Body := body;
                      ft_ContentType := rs_ContentType response; ft_URLDisplay := displayURL final |}
        end
    end.
End Fetch.
