(* ===== verification/ApiError.v ===== *)
(** The errors of the HTTP boundary ([apicontract/errors.go]): an allow-list of codes
    with fixed messages, and details that are cut down to known field names, list
    indices and valid identifiers. *)
From S2P Require Import Prelude Diagnostics IRTypes IRValidate Catalog Network URLText.

Definition CompileObsolete := "COMPILE_OBSOLETE".
Definition PublicationBlocked := "PUBLICATION_BLOCKED".
Definition PreviewConfirmationRequired := "PUBLICATION_CONFIRMATION_REQUIRED".
Definition MalformedRequest := "MALFORMED_REQUEST".
Definition Code_UnknownField := "UNKNOWN_FIELD".
Definition Code_DuplicateField := "DUPLICATE_FIELD".
Definition AuthRequired := "AUTH_REQUIRED".
Definition PermissionDenied := "PERMISSION_DENIED".
Definition ReauthRequired := "REAUTH_REQUIRED".
Definition ResourceNotFound := "RESOURCE_NOT_FOUND".
Definition StateConflict := "STATE_CONFLICT".
Definition IdempotencyConflict := "IDEMPOTENCY_CONFLICT".
Definition LeaseLost := "LEASE_LOST".
Definition RevisionMismatch := "REVISION_MISMATCH".
Definition Code_InputLimitExceeded := "INPUT_LIMIT_EXCEEDED".
Definition ValidationFailed := "VALIDATION_FAILED".
Definition PreconditionRequired := "PRECONDITION_REQUIRED".
Definition RateLimited := "RATE_LIMITED".
Definition ServiceUnavailable := "SERVICE_UNAVAILABLE".
Definition InternalError := "INTERNAL_ERROR".
Definition BudgetExceeded := "BUDGET_EXCEEDED".

(** The status and the message of each code. *)
Definition errorDefinitions : gmap string (Z * string) := list_to_map
  [(BudgetExceeded, (429, "The test budget is exhausted."));
   ("PROXY_CONNECT_FAILED", (422, "The proxy connection could not be established."));
   ("AUTH_FAILED", (422, "Proxy authentication failed."));
   ("TARGET_TLS_FAILED", (422, "The target TLS handshake failed."));
   ("HTTP_EXPECTATION_FAILED",
     (422, "The target response did not match its registered expectation."));
   ("TEST_TARGET_UNAVAILABLE",
     (503, "The controlled target is unavailable; the node cannot be assessed."));
   ("INSUFFICIENT_SAMPLE", (422, "The sample is too small to report throughput."));
   (CompileObsolete, (409, "The compiled input is obsolete."));
   (PublicationBlocked, (422, "The publication is blocked by its current safety state."));
   (PreviewConfirmationRequired, (409, "View and confirm this exact publication preview."));
   (MalformedRequest, (400, "The request does not match the API contract."));
   (Code_UnknownField, (400, "A field is not part of the API contract."));
   (Code_DuplicateField, (400, "Duplicate object fields are forbidden."));
   (AuthRequired, (401, "Authentication is required."));
   (PermissionDenied, (403, "The operation is not permitted."));
   (ReauthRequired, (403, "Recent authentication is required."));
   (ResourceNotFound, (404, "The resource was not found."));
   (StateConflict, (409, "The operation conflicts with the current state."));
   (IdempotencyConflict, (409, "The idempotency key was used for a different request."));
   (LeaseLost, (409, "The job lease is no longer valid."));
   (RevisionMismatch, (412, "The resource revision has changed."));
   (Code_InputLimitExceeded, (413, "The request exceeds the input limit."));
   (ValidationFailed, (422, "The merged resource is not valid."));
   (PreconditionRequired, (428, "A resource revision precondition is required."));
   (RateLimited, (429, "The request exceeds the permitted budget."));
   (ServiceUnavailable, (503, "The operation is temporarily unavailable."));
   (InternalError, (500, "The operation could not be completed."))].

Record Detail := { dt_FieldPath : string; dt_ResourceID : ID }.
Record ErrorBody := { eb_Code : string; eb_Message : string; eb_Details : list Detail }.
Record ErrorResponse := { er_Error : ErrorBody; er_RequestID : string }.
Record ApiError := { ae_code : string; ae_details : list Detail }.

#[export] Instance Detail_eq_dec : EqDecision Detail. Proof. solve_decision. Defined.
#[export] Instance ApiError_eq_dec : EqDecision ApiError. Proof. solve_decision. Defined.

(** What a function of the source returns as its [error]: an error of this package, a
    sentinel of [catalog], diagnostics, or anything else. *)
Inductive GoError :=
| E_api (e : ApiError)
| E_catalog (e : catalog_error)
| E_diagnostics (d : Diagnostics)
| E_other (text : string).

(** [api.KnownField]: the field names of the OpenAPI document. *)
Class ApiFields := { KnownField : string → bool }.

Definition known_code (code : string) : bool := bool_decide (is_Some (errorDefinitions !! code)).

(** [strconv.ParseUint(part, 10, 32)]. *)
Definition ParseUint32 (s : string) : option Z :=
  match s with
  | EmptyString => None
  | _ => n ← digits_value 0 s; if n <? 4294967296 then Some n else None
  end.

Definition requestIDPattern (value : string) : bool :=
  (1 <=? String.length value)%nat && (String.length value <=? 64)%nat &&
  all_chars (λ c, is_letter c || is_digit c || Ascii.eqb c "_" || Ascii.eqb c "-") value.
Definition safeRequestID (value : string) : string :=
  if requestIDPattern value then value else "unavailable".

Section Errors.
Context {P : Platform} {F : ApiFields}.

(** A list index in its canonical form. *)
Definition index_part (part : string) : bool :=
  match ParseUint32 part with Some index => Itoa index =s part | None => false end.

(** The loop stops at the first part that is neither a field nor an index. *)
Fixpoint safe_parts (parts : list string) (out : string) : string :=
  match parts with
  | [] => out
  | part :: parts =>
      if KnownField part || index_part part then safe_parts parts (out +:+ "/" +:+ part) else out
  end.

Definition safePointer (value : string) : string :=
  match value with
  | String "/" rest =>
      if (1024 <? String.length value)%nat then "" else safe_parts (Split "/" rest) ""
  | _ => ""
  end.

Definition safe_detail (detail : Detail) : Detail :=
  {| dt_FieldPath := safePointer (dt_FieldPath detail);
     dt_ResourceID := if valid_id (dt_ResourceID detail) then dt_ResourceID detail else "" |}.

Definition NewError (code : string) (details : list Detail) : ApiError :=
  {| ae_code := if known_code code then code else InternalError;
     ae_details := safe_detail <$> take 16 details |}.

(** [( *Error).Code], on an error that is not nil. *)
Definition Error_Code (e : ApiError) : string :=
  if known_code (ae_code e) then ae_code e else InternalError.
Definition HTTPStatus (e : ApiError) : Z :=
  from_option fst 0 (errorDefinitions !! Error_Code e).
Definition Response (e : ApiError) (requestID : string) : ErrorResponse :=
  let clean := NewError (Error_Code e) (ae_details e) in
  {| er_Error := {| eb_Code := ae_code clean;
                    eb_Message := from_option snd "" (errorDefinitions !! ae_code clean);
                    eb_Details := ae_details clean |};
     er_RequestID := safeRequestID requestID |}.

Definition diagnostic_detail (d : Diagnostic) : Detail :=
  {| dt_FieldPath := d_FieldPath d; dt_ResourceID := d_ResourceID d |}.

Definition AsError (err : GoError) : ApiError :=
  match err with
  | E_api boundary => NewError (Error_Code boundary) (ae_details boundary)
  | E_catalog ErrNotFound => NewError ResourceNotFound []
  | E_catalog ErrRevisionConflict => NewError RevisionMismatch []
  | E_catalog ErrIdempotencyConflict => NewError IdempotencyConflict []
  | E_catalog ErrInvalidReference | E_catalog ErrInvalidInput => NewError ValidationFailed []
  | E_catalog ErrUnavailable | E_catalog ErrCrypto => NewError ServiceUnavailable []
  | E_catalog ErrWrapConflict => NewError StateConflict []
  | E_diagnostics diagnostics => NewError ValidationFailed (diagnostic_detail <$> diagnostics)
  | E_catalog ErrTransactionClosed | E_other _ => NewError InternalError []
  end.

(** ** What an error may show *)

(** A path of known fields and indices; an identifier that is valid, or none. *)
Definition path_of (parts : list string) : string := foldr (λ p path, "/" +:+ p +:+ path) "" parts.
Definition safe_path (path : string) : Prop :=
  ∃ parts, path = path_of parts ∧ Forall (λ p, KnownField p || index_part p = true) parts.
Definition safe_detail_ok (d : Detail) : Prop :=
  safe_path (dt_FieldPath d) ∧ (dt_ResourceID d = "" ∨ ID_Validate (dt_ResourceID d) = None).
Definition safe_error (e : ApiError) : Prop :=
  is_Some (errorDefinitions !! ae_code e) ∧ (length (ae_details e) ≤ 16)%nat ∧
  Forall safe_detail_ok (ae_details e).

Lemma safe_parts_spec parts out :
  ∃ ps, safe_parts parts out = out +:+ path_of ps ∧
        Forall (λ p, KnownField p || index_part p = true) ps.
Proof.
  revert out. induction parts as [|p parts IH]; intros out; simpl.
  { exists []. by rewrite string_app_empty_r. }
  destruct (_ || _) eqn:E; [|exists []; by rewrite string_app_empty_r].
  destruct (IH (out +:+ "/" +:+ p)) as (ps & -> & Hps). exists (p :: ps).
  split; [|by constructor]. simpl. by rewrite !string_app_assoc.
Qed.

Lemma safePointer_safe value : safe_path (safePointer value).
Proof.
  assert (safe_path "") as H0 by (by exists []).
  unfold safePointer. repeat case_match; try done. apply safe_parts_spec.
Qed.

Lemma InternalError_known : is_Some (errorDefinitions !! InternalError).
Proof. apply (bool_decide_eq_true_1 _). vm_compute. reflexivity. Qed.

Lemma NewError_safe code details : safe_error (NewError code details).
Proof.
  unfold safe_error, NewError. cbn [ae_code ae_details]. split; [|split].
  - unfold known_code. case_bool_decide as H; [exact H|exact InternalError_known].
  - rewrite length_fmap, length_take. lia.
  - apply Forall_fmap, Forall_forall. intros d _. split; simpl; [apply safePointer_safe|].
    unfold valid_id. destruct (ID_Validate _) eqn:E; [by left|by right].
Qed.

Lemma AsError_safe err : safe_error (AsError err).
Proof. destruct err as [|[]| |]; apply NewError_safe. Qed.

End Errors.
