(* ===== verification/StoreDB.v ===== *)
(** The catalog tables and the statements on them ([storage/queries/catalog.sql],
    [idempotency.sql], [nodes.sql]), with the constraints and triggers that the
    migrations declare: a statement returns the new tables or an error code of the
    server. What other components keep in the same database is [dc_side]. *)
From S2P Require Import Prelude Diagnostics IRTypes IRValidate Catalog CatalogRefs Secretbox.
From S2P Require Import URLText ApiError.

Record ScopeRow := {
  so_Name : string; so_CatalogRevision : Z; so_AuthEpoch : Z; so_LastTransaction : Z }.
Record HeadRow := {
  he_ScopeID : ID; he_Kind : ResourceKind; he_Name : string; he_Revision : option Z;
  he_Enabled : bool; he_SecurityEpoch : Z; he_CreatedAt : Z; he_DeletedAt : option Z }.
Record RefRow := {
  rf_ScopeID : ID; rf_Target : ID; rf_TargetRevision : option Z; rf_Kind : ResourceKind }.
Record AuditEvent := {
  ae_ID : ID; ae_ScopeID : ID; ae_ActorID : ID; ae_ObjectID : ID; ae_Revision : Z;
  ae_Action : string; ae_RequestID : string }.
Record ReceiptRow := {
  rc_ScopeID : ID; rc_Hmac : string; rc_HTTPStatus : option Z; rc_ResourceID : option ID;
  rc_Revision : option Z; rc_OperationID : option ID; rc_Status : option string }.
(** [operations.CatalogLimits], of which the transactions read five. *)
Record CatalogLimits := {
  cl_MaxDependencyResources : Z; cl_MaxTargetsPerSubscription : Z; cl_MaxNodes : Z; cl_MaxRules : Z;
  cl_MaxOutbounds : Z }.

Definition ReceiptKey : Type := ID * string * string.

Section Tables.
Context {C : Codec} {V : Vault Bytes} {Side : Type}.

Record RevisionRow := {
  re_ScopeID : ID; re_SchemaVersion : Z; re_SecurityEpoch : Z; re_Envelope : Sealed;
  re_ContentHmac : string; re_Transaction : Z }.
Record WrapRow := { wa_ScopeID : ID; wa_Version : Z; wa_Wrapping : Wrapped }.

(** A settings row holds the limits, or nothing that can be read. *)
Record CatalogDB := {
  dc_scopes : gmap ID ScopeRow; dc_heads : gmap ID HeadRow;
  dc_revisions : gmap (ID * Z) RevisionRow; dc_wrappings : gmap (ID * Z) WrapRow;
  dc_refs : gmap (ID * Z * string) RefRow; dc_tags : gset (ID * string);
  dc_audit : list AuditEvent; dc_receipts : gmap ReceiptKey ReceiptRow;
  dc_users : gset (ID * ID); dc_settings : gmap ID (option CatalogLimits); dc_side : Side }.

Definition with_scopes (d : CatalogDB) v : CatalogDB :=
  {| dc_scopes := v; dc_heads := dc_heads d; dc_revisions := dc_revisions d;
     dc_wrappings := dc_wrappings d; dc_refs := dc_refs d; dc_tags := dc_tags d;
     dc_audit := dc_audit d; dc_receipts := dc_receipts d; dc_users := dc_users d;
     dc_settings := dc_settings d; dc_side := dc_side d |}.
Definition with_heads (d : CatalogDB) v : CatalogDB :=
  {| dc_scopes := dc_scopes d; dc_heads := v; dc_revisions := dc_revisions d;
     dc_wrappings := dc_wrappings d; dc_refs := dc_refs d; dc_tags := dc_tags d;
     dc_audit := dc_audit d; dc_receipts := dc_receipts d; dc_users := dc_users d;
     dc_settings := dc_settings d; dc_side := dc_side d |}.
Definition with_revisions (d : CatalogDB) v : CatalogDB :=
  {| dc_scopes := dc_scopes d; dc_heads := dc_heads d; dc_revisions := v;
     dc_wrappings := dc_wrappings d; dc_refs := dc_refs d; dc_tags := dc_tags d;
     dc_audit := dc_audit d; dc_receipts := dc_receipts d; dc_users := dc_users d;
     dc_settings := dc_settings d; dc_side := dc_side d |}.
Definition with_wrappings (d : CatalogDB) v : CatalogDB :=
  {| dc_scopes := dc_scopes d; dc_heads := dc_heads d; dc_revisions := dc_revisions d;
     dc_wrappings := v; dc_refs := dc_refs d; dc_tags := dc_tags d;
     dc_audit := dc_audit d; dc_receipts := dc_receipts d; dc_users := dc_users d;
     dc_settings := dc_settings d; dc_side := dc_side d |}.
Definition with_refs (d : CatalogDB) v : CatalogDB :=
  {| dc_scopes := dc_scopes d; dc_heads := dc_heads d; dc_revisions := dc_revisions d;
     dc_wrappings := dc_wrappings d; dc_refs := v; dc_tags := dc_tags d;
     dc_audit := dc_audit d; dc_receipts := dc_receipts d; dc_users := dc_users d;
     dc_settings := dc_settings d; dc_side := dc_side d |}.
Definition with_tags (d : CatalogDB) v : CatalogDB :=
  {| dc_scopes := dc_scopes d; dc_heads := dc_heads d; dc_revisions := dc_revisions d;
     dc_wrappings := dc_wrappings d; dc_refs := dc_refs d; dc_tags := v;
     dc_audit := dc_audit d; dc_receipts := dc_receipts d; dc_users := dc_users d;
     dc_settings := dc_settings d; dc_side := dc_side d |}.
Definition with_audit (d : CatalogDB) v : CatalogDB :=
  {| dc_scopes := dc_scopes d; dc_heads := dc_heads d; dc_revisions := dc_revisions d;
     dc_wrappings := dc_wrappings d; dc_refs := dc_refs d; dc_tags := dc_tags d;
     dc_audit := v; dc_receipts := dc_receipts d; dc_users := dc_users d;
     dc_settings := dc_settings d; dc_side := dc_side d |}.
Definition with_receipts (d : CatalogDB) v : CatalogDB :=
  {| dc_scopes := dc_scopes d; dc_heads := dc_heads d; dc_revisions := dc_revisions d;
     dc_wrappings := dc_wrappings d; dc_refs := dc_refs d; dc_tags := dc_tags d;
     dc_audit := dc_audit d; dc_receipts := v; dc_users := dc_users d;
     dc_settings := dc_settings d; dc_side := dc_side d |}.
Definition with_side (d : CatalogDB) v : CatalogDB :=
  {| dc_scopes := dc_scopes d; dc_heads := dc_heads d; dc_revisions := dc_revisions d;
     dc_wrappings := dc_wrappings d; dc_refs := dc_refs d; dc_tags := dc_tags d;
     dc_audit := dc_audit d; dc_receipts := dc_receipts d; dc_users := dc_users d;
     dc_settings := dc_settings d; dc_side := v |}.

(** ** Error codes *)

Definition check_violation := "23514".
Definition unique_violation := "23505".
Definition foreign_key_violation := "23503".
Definition numeric_out_of_range := "22003".
Definition bad_text := "22021".
Definition in_failed_transaction := "25P02".

Definition require (b : bool) (code : string) : result failure unit :=
  if b then Ok () else Err (PgError code).

(** A text parameter: valid UTF-8 without the null character. [length] counts runes. *)
Definition text_ok (s : string) : bool :=
  ValidString s && all_chars (λ c, negb (Ascii.eqb c "000")) s.
Fixpoint text_length (s : string) : Z :=
  match s with
  | EmptyString => 0
  | String c s => (if ((128 <=? N_of_ascii c) && (N_of_ascii c <? 192))%N then 0 else 1) + text_length s
  end.
Definition length_between (lo hi : Z) (s : string) : bool :=
  (lo <=? text_length s) && (text_length s <=? hi).

Definition one_of (l : list string) (s : string) : bool := existsb (λ t, t =s s) l.
Definition resources_kind_check : string → bool :=
  one_of ["node"; "chain"; "source"; "policy_group"; "routing_profile"; "rule_set";
          "dns_profile"; "client_preset"; "subscription_profile"].
Definition expected_kind_check : string → bool :=
  one_of ["node"; "chain"; "policy_group"; "rule_set"; "routing_profile"; "dns_profile";
          "client_preset"].
Definition audit_action_check : string → bool :=
  one_of ["node.create"; "node.update"; "node.delete"; "node.clone"; "node.add_tags";
          "node.remove_tags"; "node.set_enabled"; "node.override"; "node.restore_source";
          "import.commit"; "chain.create"; "chain.update"; "chain.delete"; "source.create";
          "source.update"; "source.delete"; "source.refresh"; "policy_group.create";
          "policy_group.update"; "policy_group.delete"; "routing_profile.create";
          "routing_profile.update"; "routing_profile.delete"; "rule_set.create";
          "rule_set.update"; "rule_set.delete"; "dns_profile.create"; "dns_profile.update";
          "dns_profile.delete"; "subscription_profile.create"; "subscription_profile.update";
          "subscription_profile.delete"; "subscription_profile.clone"].

(** ** Reads *)

(** A stored revision with its wrapping: the row of [GetResourceRevision]. *)
Record RevRow := {
  rr_ScopeID : ID; rr_ResourceID : ID; rr_Revision : Z; rr_Row : RevisionRow; rr_Wrap : WrapRow }.

Definition GetResourceIndex (d : CatalogDB) (scope id : ID) : option HeadRow :=
  match dc_heads d !! id with
  | Some h => if he_ScopeID h =s scope then Some h else None
  | None => None
  end.

Definition GetResourceRevision (d : CatalogDB) (scope id : ID) (revision : Z) : option RevRow :=
  match dc_revisions d !! (id, revision), dc_wrappings d !! (id, revision) with
  | Some r, Some w =>
      if (re_ScopeID r =s scope) && (wa_ScopeID w =s scope)
      then Some {| rr_ScopeID := scope; rr_ResourceID := id; rr_Revision := revision;
                   rr_Row := r; rr_Wrap := w |}
      else None
  | _, _ => None
  end.

Definition GetResourceHead (d : CatalogDB) (scope id : ID) : option RevRow :=
  match GetResourceIndex d scope id with
  | Some h =>
      match he_Revision h, he_DeletedAt h with
      | Some revision, None => GetResourceRevision d scope id revision
      | _, _ => None
      end
  | None => None
  end.

(** [SELECT count( * ) ... kind='node' AND deleted_at IS NULL]. *)
Definition count_nodes (d : CatalogDB) (scope : ID) : Z :=
  Z.of_nat (size (filter (λ ih : ID * HeadRow,
    he_ScopeID (snd ih) = scope ∧ he_Kind (snd ih) = KindNode ∧ he_DeletedAt (snd ih) = None)
    (dc_heads d))).

(** ** Writes *)

Definition InsertScope (id name : string) (d : CatalogDB) : result failure CatalogDB :=
  let? _ := require (text_ok name) bad_text in
  match dc_scopes d !! id with
  | Some _ => Ok d
  | None =>
      let? _ := require (length_between 1 256 name) check_violation in
      Ok (with_scopes d (<[id := {| so_Name := name; so_CatalogRevision := 0; so_AuthEpoch := 1;
                                    so_LastTransaction := 0 |}]> (dc_scopes d)))
  end.

(** [AdvanceCatalog] under the trigger [proxyloom_scope_advance]: once per transaction. *)
Definition AdvanceCatalog (tx : Z) (scope : ID) (d : CatalogDB) : result failure CatalogDB :=
  match dc_scopes d !! scope with
  | None => Ok d
  | Some s =>
      let? _ := require (so_CatalogRevision s <? MaxInt64) numeric_out_of_range in
      let? _ := require (negb (so_LastTransaction s =? tx)) check_violation in
      Ok (with_scopes d (<[scope := {| so_Name := so_Name s;
            so_CatalogRevision := so_CatalogRevision s + 1; so_AuthEpoch := so_AuthEpoch s;
            so_LastTransaction := tx |}]> (dc_scopes d)))
  end.

Definition InsertResource (now : Z) (id scope kind name : string) (enabled : bool) (d : CatalogDB)
    : result failure CatalogDB :=
  let? _ := require (text_ok name) bad_text in
  let? _ := require (resources_kind_check kind && length_between 1 256 name) check_violation in
  let? _ := require (negb (bool_decide (is_Some (dc_heads d !! id)))) unique_violation in
  let? _ := require (bool_decide (is_Some (dc_scopes d !! scope))) foreign_key_violation in
  Ok (with_heads d (<[id := {| he_ScopeID := scope; he_Kind := kind; he_Name := name;
        he_Revision := None; he_Enabled := enabled; he_SecurityEpoch := 1; he_CreatedAt := now;
        he_DeletedAt := None |}]> (dc_heads d))).

(** Under [proxyloom_revision_insert]: the next revision of a resource of the scope. *)
Definition InsertResourceRevision (tx : Z) (scope id : ID) (revision schema epoch : Z)
    (envelope : Sealed) (hmac : string) (d : CatalogDB) : result failure CatalogDB :=
  match GetResourceIndex d scope id with
  | None => Err (PgError check_violation)
  | Some h =>
      let? _ := require (revision =? default 0 (he_Revision h) + 1) check_violation in
      let? _ := require ((0 <? revision) && (schema =? 1) && (0 <? epoch)
                         && (1 <=? sealed_size envelope) && (sealed_size envelope <=? 4194304)
                         && Nat.eqb (String.length hmac) 32) check_violation in
      let? _ := require (negb (bool_decide (is_Some (dc_revisions d !! (id, revision)))))
                  unique_violation in
      Ok (with_revisions d (<[(id, revision) := {| re_ScopeID := scope; re_SchemaVersion := schema;
            re_SecurityEpoch := epoch; re_Envelope := envelope; re_ContentHmac := hmac;
            re_Transaction := tx |}]> (dc_revisions d)))
  end.

(** Whether revision [revision] of [id] was inserted by this transaction. *)
Definition fresh_revision (tx : Z) (scope id : ID) (revision : Z) (d : CatalogDB) : bool :=
  match dc_revisions d !! (id, revision) with
  | Some r => (re_ScopeID r =s scope) && (re_Transaction r =? tx)
  | None => false
  end.

Definition InsertResourceWrapping (tx : Z) (scope id : ID) (revision : Z) (w : Wrapped)
    (d : CatalogDB) : result failure CatalogDB :=
  let? _ := require (fresh_revision tx scope id revision d) check_violation in
  let? _ := require ((1 <=? wrapped_size w) && (wrapped_size w <=? 4096)) check_violation in
  let? _ := require (negb (bool_decide (is_Some (dc_wrappings d !! (id, revision))))) unique_violation in
  Ok (with_wrappings d (<[(id, revision) :=
        {| wa_ScopeID := scope; wa_Version := 1; wa_Wrapping := w |}]> (dc_wrappings d))).

Definition InsertResourceReference (tx : Z) (scope id : ID) (revision : Z) (path : string)
    (target : ID) (target_revision : option Z) (kind : string) (d : CatalogDB)
    : result failure CatalogDB :=
  let? _ := require (text_ok path) bad_text in
  let? _ := require (fresh_revision tx scope id revision d) check_violation in
  let? _ := require (length_between 1 128 path && expected_kind_check kind
                     && match target_revision with Some n => 0 <? n | None => true end)
              check_violation in
  let? _ := require (negb (bool_decide (is_Some (dc_refs d !! (id, revision, path))))) unique_violation in
  let? _ := require (match GetResourceIndex d scope target with
                     | Some h => he_Kind h =s kind | None => false end) foreign_key_violation in
  let? _ := require (match target_revision with
                     | Some n => match dc_revisions d !! (target, n) with
                                 | Some r => re_ScopeID r =s scope | None => false end
                     | None => true end) foreign_key_violation in
  Ok (with_refs d (<[(id, revision, path) := {| rf_ScopeID := scope; rf_Target := target;
        rf_TargetRevision := target_revision; rf_Kind := kind |}]> (dc_refs d))).

(** [proxyloom_tags_versioned]: tags change with a revision that this transaction inserts. *)
Definition tags_versioned (tx : Z) (scope id : ID) (d : CatalogDB) : bool :=
  match GetResourceIndex d scope id with
  | None => false
  | Some h =>
      bool_decide (map_Exists (λ key r, fst key = id ∧ re_ScopeID r = scope ∧ re_Transaction r = tx
                                        ∧ default 0 (he_Revision h) ≤ snd key) (dc_revisions d))
  end.

Definition tags_of (id : ID) (d : CatalogDB) : gset (ID * string) :=
  filter (λ t, fst t = id) (dc_tags d).

(** The trigger runs for every row that the statement deletes. *)
Definition DeleteResourceTags (tx : Z) (scope id : ID) (d : CatalogDB) : result failure CatalogDB :=
  match GetResourceIndex d scope id with
  | None => Ok d
  | Some _ =>
      let? _ := require (bool_decide (tags_of id d = ∅) || tags_versioned tx scope id d) check_violation in
      Ok (with_tags d (dc_tags d ∖ tags_of id d))
  end.

Definition InsertResourceTag (tx : Z) (scope id : ID) (tag : string) (d : CatalogDB)
    : result failure CatalogDB :=
  let? _ := require (text_ok tag) bad_text in
  let? _ := require (tags_versioned tx scope id d && length_between 1 64 tag) check_violation in
  let? _ := require (negb (bool_decide ((id, tag) ∈ dc_tags d))) unique_violation in
  Ok (with_tags d ({[(id, tag)]} ∪ dc_tags d)).

(** [UpdateResourceHead] under [proxyloom_preserve_client_preset] and
    [proxyloom_resource_advance]; the row's own checks come after. *)
Definition resource_advance (h : HeadRow) (revision epoch : Z) (enabled : bool) (deleted : option Z) : bool :=
  bool_decide (he_DeletedAt h = None)
  && (revision =? default 0 (he_Revision h) + 1)
  && (he_SecurityEpoch h <=? epoch) && (epoch <=? he_SecurityEpoch h + 1)
  && negb (((he_Enabled h && negb enabled) || bool_decide (is_Some deleted))
           && negb (epoch =? he_SecurityEpoch h + 1)).

Definition UpdateResourceHead (scope id name : string) (revision : Z) (enabled : bool) (epoch : Z)
    (deleted : option Z) (d : CatalogDB) : result failure CatalogDB :=
  let? _ := require (text_ok name) bad_text in
  match GetResourceIndex d scope id with
  | None => Ok d
  | Some h =>
      let? _ := require (negb ((he_Kind h =s KindClientPreset) && bool_decide (is_Some (he_Revision h))))
                  check_violation in
      let? _ := require (resource_advance h revision epoch enabled deleted) check_violation in
      let? _ := require (length_between 1 256 name && (0 <? revision) && (0 <? epoch)
                         && negb (bool_decide (is_Some deleted) && enabled)) check_violation in
      Ok (with_heads d (<[id := {| he_ScopeID := he_ScopeID h; he_Kind := he_Kind h; he_Name := name;
            he_Revision := Some revision; he_Enabled := enabled; he_SecurityEpoch := epoch;
            he_CreatedAt := he_CreatedAt h; he_DeletedAt := deleted |}]> (dc_heads d)))
  end.

Definition InsertResourceAudit (event : AuditEvent) (d : CatalogDB) : result failure CatalogDB :=
  let? _ := require (bool_decide ((ae_ScopeID event, ae_ActorID event) ∈ dc_users d)) check_violation in
  let? _ := require ((0 <? ae_Revision event) && audit_action_check (ae_Action event)
                     && requestIDPattern (ae_RequestID event)) check_violation in
  let? _ := require (negb (existsb (λ e, ae_ID e =s ae_ID event) (dc_audit d))) unique_violation in
  let? _ := require (bool_decide (is_Some (dc_scopes d !! ae_ScopeID event))) foreign_key_violation in
  Ok (with_audit d (event :: dc_audit d)).

(** [CompareAndSwapWrapping]: how many rows changed. *)
Definition CompareAndSwapWrapping (scope id : ID) (revision version : Z) (w : Wrapped) (d : CatalogDB)
    : result failure (Z * CatalogDB) :=
  match dc_wrappings d !! (id, revision) with
  | Some row =>
      if (wa_ScopeID row =s scope) && (wa_Version row =? version)
      then
        let? _ := require (wa_Version row <? MaxInt64) numeric_out_of_range in
        let? _ := require ((1 <=? wrapped_size w) && (wrapped_size w <=? 4096)) check_violation in
        Ok (1, with_wrappings d (<[(id, revision) := {| wa_ScopeID := scope; wa_Version := version + 1;
                                     wa_Wrapping := w |}]> (dc_wrappings d)))
      else Ok (0, d)
  | None => Ok (0, d)
  end.

(** [ClaimIdempotencyKey]: [ON CONFLICT DO NOTHING]. *)
Definition ClaimIdempotencyKey (key : ReceiptKey) (scope : ID) (hmac : string) (d : CatalogDB)
    : result failure (Z * CatalogDB) :=
  match dc_receipts d !! key with
  | Some _ => Ok (0, d)
  | None =>
      let? _ := require (length_between 1 128 (snd (fst key)) && length_between 1 128 (snd key)
                         && Nat.eqb (String.length hmac) 32) check_violation in
      let? _ := require (bool_decide (is_Some (dc_scopes d !! scope))) foreign_key_violation in
      Ok (1, with_receipts d (<[key := {| rc_ScopeID := scope; rc_Hmac := hmac; rc_HTTPStatus := None;
               rc_ResourceID := None; rc_Revision := None; rc_OperationID := None;
               rc_Status := None |}]> (dc_receipts d)))
  end.

(** The checks on a receipt that is complete. *)
Definition receipt_check (http : Z) (resource : option ID) (revision : option Z) (operation : option ID)
    (status : string) : bool :=
  (200 <=? http) && (http <=? 299)
  && match revision with Some n => 0 <? n | None => true end
  && Bool.eqb (bool_decide (resource = None)) (bool_decide (revision = None))
  && (((status =s "created") && (http =? 201) && bool_decide (is_Some resource))
      || (one_of ["updated"; "deleted"; "revoked"] status && ((http =? 200) || (http =? 204))
          && bool_decide (is_Some resource))
      || ((status =s "accepted") && (http =? 202) && bool_decide (is_Some operation))).

Definition FinalizeIdempotencyReceipt (key : ReceiptKey) (http : Z) (resource : option ID)
    (revision : option Z) (operation : option ID) (status : string) (d : CatalogDB)
    : result failure CatalogDB :=
  match dc_receipts d !! key with
  | None => Ok d
  | Some row =>
      let? _ := require (bool_decide (rc_Status row = None)) check_violation in
      let? _ := require (receipt_check http resource revision operation status) check_violation in
      let? _ := require (match resource, revision with
                         | Some id, Some n =>
                             match dc_revisions d !! (id, n) with
                             | Some r => re_ScopeID r =s rc_ScopeID row | None => false end
                         | _, _ => true end) foreign_key_violation in
      Ok (with_receipts d (<[key := {| rc_ScopeID := rc_ScopeID row; rc_Hmac := rc_Hmac row;
            rc_HTTPStatus := Some http; rc_ResourceID := resource; rc_Revision := revision;
            rc_OperationID := operation; rc_Status := Some status |}]> (dc_receipts d)))
  end.

(** ** Deferred constraints, checked at commit for the rows the transaction touched *)

(** [proxyloom_resource_complete]. *)
Definition resource_complete (tx : Z) (d : CatalogDB) (id : ID) : bool :=
  match dc_heads d !! id with
  | None => false
  | Some h =>
      match he_Revision h with
      | None => false
      | Some n =>
          match GetResourceRevision d (he_ScopeID h) id n with
          | Some row => re_SecurityEpoch (rr_Row row) =? he_SecurityEpoch h
          | None => false
          end
      end &&
      match dc_scopes d !! he_ScopeID h with
      | Some s => so_LastTransaction s =? tx
      | None => false
      end
  end.

(** [proxyloom_revision_complete], of the revisions that the transaction inserted. *)
Definition revision_complete (d : CatalogDB) (key : ID * Z) (r : RevisionRow) : bool :=
  match GetResourceIndex d (re_ScopeID r) (fst key) with
  | Some h => match he_Revision h with Some n => snd key <=? n | None => false end
  | None => false
  end &&
  match dc_wrappings d !! key with Some w => wa_ScopeID w =s re_ScopeID r | None => false end.

(** [proxyloom_idempotency_complete]. *)
Definition receipt_complete (d : CatalogDB) (key : ReceiptKey) : bool :=
  match dc_receipts d !! key with Some row => bool_decide (is_Some (rc_Status row)) | None => false end.

Definition commit_check (tx : Z) (heads : list ID) (claims : list ReceiptKey) (d : CatalogDB) : bool :=
  forallb (resource_complete tx d) heads
  && bool_decide (map_Forall (λ key r, re_Transaction r = tx → revision_complete d key r = true)
                    (dc_revisions d))
  && forallb (receipt_complete d) claims.

End Tables.
