(* ===== verification/Store.v ===== *)
(** Catalog transactions ([internal/storage/catalog.go], [catalog_limits.go],
    [catalog_policy_groups.go], [catalog_routing.go], [catalog_dns.go],
    [catalog_subscriptions.go], [node_reads.go], [catalog_presets.go], [idempotency.go],
    with [catalog/node_tx.go], [catalog/presets.go] and the receipts of
    [catalog/catalog.go]).

    A call keeps the state when it fails, because the tables are rolled back by the
    transaction and not by the call: [transactRaw] decides. The server refuses every
    statement after one that failed ([cs_aborted]). [LockResources] changes no row and
    the scope lock serializes the writers, so row locks are not modelled. *)
From S2P Require Import Prelude Diagnostics IRTypes IRValidate Catalog CatalogRefs Secretbox.
From S2P Require Import URLText ApiError StoreDB Hashes Json Base64.

(** [catalogError]: what leaves the repository. *)
Definition catalogError (e : failure) : failure :=
  match e with
  | Diagnosed ds => Diagnosed ds
  | Sentinel c => Sentinel c
  | JobsConflict => JobsConflict
  | JobsInvalidInput => JobsInvalidInput
  | Canceled => Canceled
  | DeadlineExceeded => DeadlineExceeded
  | NoRows => Sentinel ErrNotFound
  | PgError code =>
      if code =s foreign_key_violation then Sentinel ErrInvalidReference
      else if one_of [unique_violation; "40001"; "40P01"] code then Sentinel ErrRevisionConflict
      else if one_of [check_violation; "23502"; "22001"; numeric_out_of_range; "22P02"] code
      then Sentinel ErrInvalidInput
      else Sentinel ErrUnavailable
  | OtherError => Sentinel ErrUnavailable
  end.

Definition typedCatalogKind (kind : ResourceKind) : bool :=
  one_of [KindNode; KindChain; KindPolicyGroup; KindRoutingProfile; KindRuleSet; KindDNSProfile;
          KindClientPreset; KindSubscriptionProfile] kind.

(** [operations.Defaults]. *)
Definition default_limits : CatalogLimits :=
  {| cl_MaxDependencyResources := 10000; cl_MaxTargetsPerSubscription := 32; cl_MaxNodes := 100000;
     cl_MaxRules := 20000; cl_MaxOutbounds := 2000 |}.

Record MutationAudit := {
  ma_PrincipalID : ID; ma_ObjectID : ID; ma_Revision : Z; ma_RequestID : string; ma_Action : string }.

Definition ReceiptCreated := "created".
Definition ReceiptUpdated := "updated".
Definition ReceiptDeleted := "deleted".
Definition ReceiptRevoked := "revoked".
Definition ReceiptAccepted := "accepted".
Record Receipt := {
  rcp_HTTPStatus : Z; rcp_ResourceID : ID; rcp_Revision : Z; rcp_OperationID : ID; rcp_Status : string }.
#[export] Instance Receipt_eq_dec : EqDecision Receipt.
Proof. solve_decision. Defined.
Record IdempotencyRequest := {
  iq_ScopeID : ID; iq_PrincipalID : ID; iq_RouteKey : string; iq_Key : string;
  iq_CanonicalRequest : string }.
Record IdempotencyResult := { ir_Receipt : Receipt; ir_Replayed : bool }.

(** [Receipt.Validate], and its receipt as the table has it. *)
Section Receipts.
Context {P : Platform}.
Definition Receipt_Validate (r : Receipt) : bool :=
  let http := rcp_HTTPStatus r in
  let some := negb (rcp_ResourceID r =s "") in
  let operation := negb (rcp_OperationID r =s "") in
  let accepted := rcp_Status r =s ReceiptAccepted in
  (negb some || valid_id (rcp_ResourceID r)) && (negb operation || valid_id (rcp_OperationID r))
  && (0 <=? rcp_Revision r)
  && (if rcp_Status r =s ReceiptCreated then http =? 201
      else if one_of [ReceiptUpdated; ReceiptDeleted; ReceiptRevoked] (rcp_Status r)
      then (http =? 200) || (http =? 204)
      else if accepted then (http =? 202) && operation
      else false)
  && (accepted || some && (1 <=? rcp_Revision r))
  && Bool.eqb (negb some) (rcp_Revision r =? 0).

(** [dbID] and [irID]: an empty identifier is stored as null. *)
Definition dbID (id : ID) : option ID := if id =s "" then None else Some id.
Definition irID (id : option ID) : ID := default "" id.

Definition receipt_of_row (row : ReceiptRow) : Receipt :=
  {| rcp_HTTPStatus := default 0 (rc_HTTPStatus row); rcp_ResourceID := irID (rc_ResourceID row);
     rcp_Revision := default 0 (rc_Revision row); rcp_OperationID := irID (rc_OperationID row);
     rcp_Status := default "" (rc_Status row) |}.
End Receipts.

Definition safeIdempotencyToken (value : string) : bool :=
  (1 <=? String.length value)%nat && (String.length value <=? 128)%nat
  && all_chars (λ c, (33 <=? N_of_ascii c) && (N_of_ascii c <=? 126))%N value.

(** The framed request that is digested. *)
Definition framed (q : IdempotencyRequest) : string :=
  Marshal (Obj [("scope", Str (iq_ScopeID q)); ("principal", Str (iq_PrincipalID q));
                ("route", Str (iq_RouteKey q));
                ("request", Str (base64_encode false true (iq_CanonicalRequest q)))]).

(** ** [BuiltinClientPresets] *)
Section Presets.
Context {P : Platform}.

Definition preset_id (scope : ID) (family variant : string) : ID :=
  let sum := Sum256 (bytes_of_string ("proxyloom/client-preset/v1/" +:+ scope +:+ "/" +:+ family +:+ variant)) in
  let sum := set_bits 6 15 0x50 (set_bits 8 63 0x80 sum) in
  EncodeToString (Hashes.slice 0 4 sum) +:+ "-" +:+ EncodeToString (Hashes.slice 4 6 sum) +:+ "-" +:+
  EncodeToString (Hashes.slice 6 8 sum) +:+ "-" +:+ EncodeToString (Hashes.slice 8 10 sum) +:+ "-" +:+
  EncodeToString (Hashes.slice 10 16 sum).

Definition preset_definitions : list (string * string * string * string * Z) :=
  [(Xray, XrayJSON, "Xray Linux", "", 0);
   (SingBox, SingBoxJSON, "sing-box Linux", "", 0);
   (Mihomo, MihomoYAML, "Mihomo Linux", "", 0);
   (SingBox, SingBoxJSON, "sing-box Linux Control", "/control", SingBoxControlPort);
   (Mihomo, MihomoYAML, "Mihomo Linux Control", "/control", MihomoControlPort)].

Definition builtin_preset (scope : ID) (def : string * string * string * string * Z) : Resource :=
  let '(family, format, name, variant, port) := def in
  {| r_Metadata := {| md_ResourceID := preset_id scope family variant; md_ScopeID := scope;
                      md_Kind := KindClientPreset; md_Revision := 1; md_SchemaVersion := SchemaVersion;
                      md_Name := name; md_Tags := []; md_Enabled := true; md_SecurityEpoch := 1 |};
     r_Payload := Payload_ClientPreset
       {| cp_SchemaVersion := SchemaVersion; cp_CoreFamily := family; cp_Platform := "linux";
          cp_Format := format;
          cp_LocalListener := {| ll_Protocol := "socks5"; ll_Listen := PresetLoopbackAddress;
                                 ll_Port := PresetSOCKSPort |};
          cp_DNSMode := "profile";
          cp_ControlAPI := if port =? 0
            then {| ca_Enabled := false; ca_Listen := ""; ca_Port := 0 |}
            else {| ca_Enabled := true; ca_Listen := PresetLoopbackAddress; ca_Port := port |};
          cp_ImportMethod := "file"; cp_ReviewStatus := "approved";
          cp_ReviewedAt := "2026-09-10T00:00:00Z" |} |}.

Definition BuiltinClientPresets (scope : ID) : result catalog_error (list Resource) :=
  if negb (valid_id scope) then Err ErrInvalidInput
  else
    let resources := builtin_preset scope <$> preset_definitions in
    if forallb (λ r, bool_decide (Resource_Validate r = None)) resources
    then Ok resources else Err ErrInvalidInput.
End Presets.

Section Store.
Context {P : Platform} {C : Codec} {V : Vault Bytes} {Side : Type}.
Abbreviation DB := (CatalogDB (Side:=Side)).

(** What a transaction draws from outside: its identity, the clock, random identifiers
    for resources and audit events, the draws of the sealing, and the locked core
    builds with the family of each ([capability.Load]). *)
Record CEnv := {
  ce_tx : Z; ce_now : Z; ce_resource_id : nat → option ID; ce_audit_id : nat → option ID;
  ce_draw : nat → nat; ce_cores : option (ID → option string) }.

(** [catalogTx], with the tables, the draws made and what the commit has to check. *)
Record CSt := {
  cs_db : DB; cs_aborted : bool; cs_ids : nat; cs_seals : nat;
  cs_touched : list ID; cs_claims : list ReceiptKey;
  cs_active : bool; cs_dirty : bool; cs_failed : option failure;
  cs_limits : option CatalogLimits; cs_nodeCount : option Z }.

Definition CTx (A : Type) : Type := CEnv → CSt → result failure A * CSt.

#[global] Instance CTx_ret : MRet CTx := λ A a e s, (Ok a, s).
#[global] Instance CTx_bind : MBind CTx := λ A B k m e s,
  match m e s with (Ok a, s) => k a e s | (Err err, s) => (Err err, s) end.

Definition throw {A} (err : failure) : CTx A := λ _ s, (Err err, s).
Definition throw_if (b : bool) (err : catalog_error) : CTx unit :=
  if b then throw (Sentinel err) else mret ().
Definition returning {A} (r : result failure A) : CTx A := λ _ s, (r, s).
Definition returning_o {A} (o : outcome failure A) : CTx A :=
  match o with Ret a => mret a | Fails e => throw e | Panics => throw OtherError end.

Definition set_db (s : CSt) (d : DB) : CSt :=
  {| cs_db := d; cs_aborted := cs_aborted s; cs_ids := cs_ids s; cs_seals := cs_seals s;
     cs_touched := cs_touched s; cs_claims := cs_claims s; cs_active := cs_active s;
     cs_dirty := cs_dirty s; cs_failed := cs_failed s; cs_limits := cs_limits s;
     cs_nodeCount := cs_nodeCount s |}.
Definition set_aborted (s : CSt) : CSt :=
  {| cs_db := cs_db s; cs_aborted := true; cs_ids := cs_ids s; cs_seals := cs_seals s;
     cs_touched := cs_touched s; cs_claims := cs_claims s; cs_active := cs_active s;
     cs_dirty := cs_dirty s; cs_failed := cs_failed s; cs_limits := cs_limits s;
     cs_nodeCount := cs_nodeCount s |}.
Definition set_latch (s : CSt) (active dirty : bool) (failed : option failure) : CSt :=
  {| cs_db := cs_db s; cs_aborted := cs_aborted s; cs_ids := cs_ids s; cs_seals := cs_seals s;
     cs_touched := cs_touched s; cs_claims := cs_claims s; cs_active := active;
     cs_dirty := dirty; cs_failed := failed; cs_limits := cs_limits s;
     cs_nodeCount := cs_nodeCount s |}.
Definition set_counts (s : CSt) (limits : option CatalogLimits) (nodes : option Z) : CSt :=
  {| cs_db := cs_db s; cs_aborted := cs_aborted s; cs_ids := cs_ids s; cs_seals := cs_seals s;
     cs_touched := cs_touched s; cs_claims := cs_claims s; cs_active := cs_active s;
     cs_dirty := cs_dirty s; cs_failed := cs_failed s; cs_limits := limits;
     cs_nodeCount := nodes |}.
Definition set_draws (s : CSt) (ids seals : nat) : CSt :=
  {| cs_db := cs_db s; cs_aborted := cs_aborted s; cs_ids := ids; cs_seals := seals;
     cs_touched := cs_touched s; cs_claims := cs_claims s; cs_active := cs_active s;
     cs_dirty := cs_dirty s; cs_failed := cs_failed s; cs_limits := cs_limits s;
     cs_nodeCount := cs_nodeCount s |}.
Definition set_pending (s : CSt) (touched : list ID) (claims : list ReceiptKey) : CSt :=
  {| cs_db := cs_db s; cs_aborted := cs_aborted s; cs_ids := cs_ids s; cs_seals := cs_seals s;
     cs_touched := touched; cs_claims := claims; cs_active := cs_active s;
     cs_dirty := cs_dirty s; cs_failed := cs_failed s; cs_limits := cs_limits s;
     cs_nodeCount := cs_nodeCount s |}.

(** A statement: refused once one failed; one that fails aborts the transaction. *)
Definition statement {A} (f : CEnv → DB → result failure (A * DB)) : CTx A := λ e s,
  if cs_aborted s then (Err (PgError in_failed_transaction), s)
  else
    match f e (cs_db s) with
    | Ok (a, d) => (Ok a, set_db s d)
    | Err err => (Err err, set_aborted s)
    end.
Definition exec (f : CEnv → DB → result failure DB) : CTx unit :=
  statement (λ e d, let? d' := f e d in Ok ((), d')).
(** A query. No row is an error of the driver ([pgx.ErrNoRows]), not of the server. *)
Definition query {A} (f : DB → A) : CTx A := statement (λ _ d, Ok (f d, d)).
Definition one {A} (o : option A) : CTx A :=
  match o with Some a => mret a | None => throw NoRows end.
Definition touch (id : ID) : CTx unit := λ _ s,
  (Ok (), set_pending s (id :: cs_touched s) (cs_claims s)).

(** ** Opening a stored revision *)

Definition recordContext (scope id : ID) (revision schema : Z) : Context_ :=
  {| cx_ScopeID := scope; cx_Table := TableResourceRevisions; cx_ObjectID := id;
     cx_Revision := revision; cx_SchemaVersion := schema |}.

(** [Catalog.open]. *)
Definition open_row (row : RevRow) : result failure Resource :=
  let crypto := Err (Sentinel ErrCrypto) in
  let aad := recordContext (rr_ScopeID row) (rr_ResourceID row) (rr_Revision row)
               (re_SchemaVersion (rr_Row row)) in
  match vault_Open aad (re_Envelope (rr_Row row)) (wa_Wrapping (rr_Wrap row)) with
  | None => crypto
  | Some plain =>
      match vault_Digest PurposeResourceContent plain with
      | None => crypto
      | Some digest =>
          if negb (digest =s re_ContentHmac (rr_Row row)) then crypto
          else
            match DecodeResource plain with
            | None => crypto
            | Some r =>
                let m := r_Metadata r in
                if (md_ScopeID m =s cx_ScopeID aad) && (md_ResourceID m =s cx_ObjectID aad)
                   && (md_Revision m =? cx_Revision aad)
                   && (md_SchemaVersion m =? cx_SchemaVersion aad)
                   && (md_SecurityEpoch m =? re_SecurityEpoch (rr_Row row))
                then Ok r else crypto
            end
      end
  end.

Definition opened (o : option RevRow) (missing : failure) : result failure Resource :=
  match o with Some row => open_row row | None => Err missing end.

(** [Catalog.Head] and [Revision], outside a transaction. *)
Definition Head (d : DB) (scope id : ID) : result failure Resource :=
  if negb (valid_id scope && valid_id id) then Err (Sentinel ErrInvalidInput)
  else
    match GetResourceIndex d scope id with
    | None => Err (Sentinel ErrNotFound)
    | Some index =>
        if bool_decide (is_Some (he_DeletedAt index)) || negb (typedCatalogKind (he_Kind index))
        then Err (Sentinel ErrNotFound)
        else opened (GetResourceHead d scope id) (Sentinel ErrNotFound)
    end.
Definition Revision (d : DB) (scope id : ID) (revision : Z) : result failure Resource :=
  if negb (valid_id scope && valid_id id) || (revision <? 1) then Err (Sentinel ErrInvalidInput)
  else opened (GetResourceRevision d scope id revision) (Sentinel ErrNotFound).

(** ** The latch *)

(** [mutate] and [runLocked]. *)
Definition mutate {A} (fn : CTx A) : CTx A := λ e s,
  if negb (cs_active s) then (Err (Sentinel ErrTransactionClosed), s)
  else
    match cs_failed s with
    | Some f => (Err f, s)
    | None =>
        match fn e s with
        | (Ok a, s) => (Ok a, set_latch s (cs_active s) true (cs_failed s))
        | (Err err, s) =>
            (Err (catalogError err), set_latch s (cs_active s) (cs_dirty s) (Some (catalogError err)))
        end
    end.

Definition latch {A} (f : failure) : CTx A := λ _ s,
  (Err f, set_latch s (cs_active s) (cs_dirty s) (Some f)).
Definition missing_or_invalid (f : failure) : bool :=
  match f with Sentinel ErrNotFound | Sentinel ErrInvalidInput => true | _ => false end.

(** ** Reads inside a transaction *)

Section Scoped.
Context (scope : ID).

(** [readHead]. *)
Definition readHead (id : ID) (latchMissing : bool) : CTx Resource := λ e s,
  let fails err : result failure Resource * CSt :=
    let mapped := catalogError err in
    if latchMissing || negb (missing_or_invalid mapped)
    then (Err mapped, set_latch s (cs_active s) (cs_dirty s) (Some mapped))
    else (Err mapped, s) in
  if negb (cs_active s) then (Err (Sentinel ErrTransactionClosed), s)
  else
    match cs_failed s with
    | Some f => (Err f, s)
    | None =>
        if negb (valid_id id)
        then (Err (Sentinel ErrInvalidInput),
              set_latch s (cs_active s) (cs_dirty s) (Some (Sentinel ErrInvalidInput)))
        else if cs_aborted s then fails (PgError in_failed_transaction)
        else
          match GetResourceIndex (cs_db s) scope id with
          | None => fails NoRows
          | Some index =>
              if bool_decide (is_Some (he_DeletedAt index)) || negb (typedCatalogKind (he_Kind index))
              then fails (Sentinel ErrNotFound)
              else
                match opened (GetResourceHead (cs_db s) scope id) NoRows with
                | Ok r => (Ok r, s)
                | Err err => fails err
                end
          end
    end.
Definition TxHead (id : ID) : CTx Resource := readHead id true.
Definition TxProbe (id : ID) : CTx Resource := readHead id false.

(** ** Checks before a resource is stored *)

(** A resource of which the resolvers only learn the kind. *)
Definition kind_only (id kind : ID) : Resource :=
  {| r_Metadata := {| md_ResourceID := id; md_ScopeID := scope; md_Kind := kind; md_Revision := 0;
                      md_SchemaVersion := 0; md_Name := ""; md_Tags := []; md_Enabled := false;
                      md_SecurityEpoch := 0 |};
     r_Payload := Payload_nil |}.

(** The resolvers of [checkPolicyMembers], [checkRoutingReferences] and
    [checkDNSReferences]: the last two differ from the first in the kinds they open. *)
Definition store_resolve (opens : string → bool) (d : DB) (id : ID) : result failure Resource :=
  match GetResourceIndex d scope id with
  | None => Err (Sentinel ErrNotFound)
  | Some index =>
      if bool_decide (is_Some (he_DeletedAt index)) then Err (Sentinel ErrNotFound)
      else if negb (opens (he_Kind index)) then Ok (kind_only id (he_Kind index))
      else opened (GetResourceHead d scope id) (Sentinel ErrNotFound)
  end.

(** Diagnostics of the resolution become [ErrInvalidReference]. *)
Definition reference_check {A} (o : outcome failure A) : CTx unit :=
  match o with
  | Ret _ => mret ()
  | Fails (Diagnosed _) => throw (Sentinel ErrInvalidReference)
  | Fails e => throw e
  | Panics => throw OtherError
  end.

Definition checkPolicyMembers (r : Resource) : CTx unit :=
  match r_Payload r with
  | Payload_PolicyGroup group =>
      d ← query id;
      reference_check (ResolvePolicyMembers scope
        (store_resolve (one_of [KindNode; KindChain]) d) group)
  | _ => mret ()
  end.
Definition checkRoutingReferences (r : Resource) : CTx unit :=
  match r_Payload r with
  | Payload_RoutingProfile profile =>
      d ← query id;
      reference_check (ResolveRoutingReferences scope (store_resolve typedCatalogKind d) profile)
  | _ => mret ()
  end.
Definition checkDNSReferences (r : Resource) : CTx unit :=
  match r_Payload r with
  | Payload_DNSProfile profile =>
      d ← query id;
      reference_check (ResolveDNSReferences scope (store_resolve typedCatalogKind d) profile)
  | _ => mret ()
  end.

Definition limitDiagnostic (path : string) (id : ID) : failure :=
  Diagnosed [{| d_Code := InputLimitExceeded; d_Severity := SeverityError; d_ResourceID := id;
                d_FieldPath := path; d_TargetKey := "";
                d_Message := "The configured workspace limit was exceeded.";
                d_SuggestedAction := "" |}].

(** [operationalLimits]: read once per transaction. *)
Definition operationalLimits : CTx CatalogLimits := λ e s,
  match cs_limits s with
  | Some l => (Ok l, s)
  | None =>
      if cs_aborted s then (Err (Sentinel ErrUnavailable), s)
      else
        match dc_settings (cs_db s) !! scope with
        | Some None => (Err (Sentinel ErrUnavailable), s)
        | Some (Some l) => (Ok l, set_counts s (Some l) (cs_nodeCount s))
        | None => (Ok default_limits, set_counts s (Some default_limits) (cs_nodeCount s))
        end
  end.

(** The node count of the transaction: read once, then counted along. *)
Definition nodeCount : CTx Z := λ e s,
  match cs_nodeCount s with
  | Some n => (Ok n, s)
  | None =>
      match query (λ d, count_nodes d scope) e s with
      | (Ok n, s) => (Ok n, set_counts s (cs_limits s) (Some n))
      | (Err err, s) => (Err err, s)
      end
  end.
Definition add_nodes (k : Z) : CTx unit := λ e s,
  (Ok (), set_counts s (cs_limits s) ((λ n, n + k) <$> cs_nodeCount s)).

Definition rule_count (p : ResourcePayload) : Z :=
  match p with
  | Payload_RuleSet set => Z.of_nat (length (rset_Entries set))
  | Payload_RoutingProfile profile => Z.of_nat (length (rp_Rules profile))
  | Payload_DNSProfile profile => Z.of_nat (length (dp_Rules profile))
  | _ => 0
  end.

Definition checkOperationalLimits (r : Resource) (creating : bool) : CTx unit :=
  limits ← operationalLimits;
  _ ← (if creating && (md_Kind (r_Metadata r) =s KindNode)
       then
         n ← nodeCount;
         if cl_MaxNodes limits <=? n then throw (limitDiagnostic "/node" (rid r))
         else add_nodes 1
       else mret ());
  _ ← (match r_Payload r with
       | Payload_SubscriptionProfile p =>
           if cl_MaxTargetsPerSubscription limits <? Z.of_nat (length (sp_Targets p))
           then throw (limitDiagnostic "/subscription/targets" (rid r)) else mret ()
       | _ => mret ()
       end);
  if cl_MaxRules limits <? rule_count (r_Payload r)
  then throw (limitDiagnostic "/payload/rules" (rid r)) else mret ().

(** ** References of a resource *)

Fixpoint each {A B} (f : nat → A → CTx B) (i : nat) (l : list A) : CTx (list B) :=
  match l with
  | [] => mret []
  | x :: l => b ← f i x; bs ← each f (S i) l; mret (b :: bs)
  end.
Fixpoint for_each {A} (f : A → CTx unit) (l : list A) : CTx unit :=
  match l with
  | [] => mret ()
  | x :: l => _ ← f x; for_each f l
  end.

(** [SubscriptionTarget.CheckPreset]: whether the target agrees with its preset. *)
Definition CheckPreset (t : SubscriptionTarget) (p : ClientPreset) : error :=
  if negb (st_Format t =s cp_Format p) then Some [issue InvalidValue "/format"]
  else
    match st_ClientParameters t with
    | None => None
    | Some c =>
        if match clp_LocalPort c with
           | Some port => negb (port =? ll_Port (cp_LocalListener p)) | None => false end
        then Some [issue CapabilityUnsupported "/client_parameters/local_port"]
        else if match clp_ControlAPIEnabled c with
                | Some b => negb (Bool.eqb b (ca_Enabled (cp_ControlAPI p))) | None => false end
        then Some [issue CapabilityUnsupported "/client_parameters/control_api_enabled"]
        else None
    end.

Definition member_reference (r : Resource) (group : string) (i : nat) (id : ID) : CTx Reference :=
  o ← query (λ d, GetResourceIndex d scope id);
  row ← one o;
  if one_of [KindNode; KindChain; KindPolicyGroup] (he_Kind row)
  then
    mret {| ref_SourceID := rid r; ref_SourceKind := md_Kind (r_Metadata r);
            ref_SourceRevision := md_Revision (r_Metadata r); ref_TargetID := id;
            ref_TargetRevision := None; ref_ExpectedKind := he_Kind row;
            ref_Path := "/payload/members/" +:+ group +:+ "/" +:+ index_string i;
            ref_Current := true |}
  else throw (Sentinel ErrInvalidReference).

Definition check_target (cores : ID → option string) (target : SubscriptionTarget) : CTx unit :=
  o ← query (λ d, GetResourceHead d scope (st_ClientPresetID target));
  row ← one o;
  resource ← returning (open_row row);
  match r_Payload resource with
  | Payload_ClientPreset preset =>
      match cores (st_CoreBuildID target) with
      | None => throw (Sentinel ErrInvalidInput)
      | Some family =>
          throw_if (negb (family =s cp_CoreFamily preset)
                    || bool_decide (is_Some (CheckPreset target preset))) ErrInvalidInput
      end
  | _ => throw (Sentinel ErrInvalidReference)
  end.

Definition resourceReferences (r : Resource) : CTx (list Reference) := λ e,
  (refs ← returning (match ExtractReferences r with
                     | Ok refs => Ok refs | Err err => Err (Sentinel err) end);
   match r_Payload r with
   | Payload_SubscriptionProfile p =>
       included ← each (member_reference r "include_ids") 0 (sm_IncludeIDs (sp_Members p));
       excluded ← each (member_reference r "exclude_ids") 0 (sm_ExcludeIDs (sp_Members p));
       match ce_cores e with
       | None => throw (Sentinel ErrUnavailable)
       | Some cores =>
           _ ← for_each (check_target cores) (sp_Targets p);
           mret (refs ++ included ++ excluded)
       end
   | _ => mret refs
   end) e.

(** [lockAndCheckRefs], after the locks: the targets exist with their kinds and have a
    head, and a pinned revision exists. *)
Definition check_ref (ref : Reference) : CTx unit :=
  o ← query (λ d, GetResourceIndex d scope (ref_TargetID ref));
  match o with
  | None => throw (Sentinel ErrInvalidReference)
  | Some h =>
      if negb (he_Kind h =s ref_ExpectedKind ref) || bool_decide (he_Revision h = None)
      then throw (Sentinel ErrInvalidReference)
      else
        match ref_TargetRevision ref with
        | None => mret ()
        | Some n =>
            row ← query (λ d, GetResourceRevision d scope (ref_TargetID ref) n);
            match row with Some _ => mret () | None => throw (Sentinel ErrInvalidReference) end
        end
  end.
Definition lockAndCheckRefs (refs : list Reference) : CTx unit := for_each check_ref refs.

(** ** Writing a revision *)

Definition int32 (z : Z) : Z := (z + 2147483648) mod 4294967296 - 2147483648.

Definition seal (ctx : Context_) (plain : Bytes) : CTx (Sealed * Wrapped) := λ e s,
  (match vault_Seal (ce_draw e (cs_seals s)) ctx plain with
   | Some sw => Ok sw
   | None => Err (Sentinel ErrCrypto)
   end, set_draws s (cs_ids s) (S (cs_seals s))).

Definition persistPlain (m : Metadata) (plain : Bytes) (refs : list Reference) (deleted : bool) : CTx unit :=
  let id := md_ResourceID m in
  let revision := md_Revision m in
  sw ← seal (recordContext scope id revision (md_SchemaVersion m)) plain;
  digest ← returning (match vault_Digest PurposeResourceContent plain with
                      | Some d => Ok d | None => Err (Sentinel ErrCrypto) end);
  _ ← exec (λ e, InsertResourceRevision (ce_tx e) scope id revision (int32 (md_SchemaVersion m))
                   (md_SecurityEpoch m) (fst sw) digest);
  _ ← exec (λ e, InsertResourceWrapping (ce_tx e) scope id revision (snd sw));
  _ ← for_each (λ ref, exec (λ e, InsertResourceReference (ce_tx e) scope id revision (ref_Path ref)
                                     (ref_TargetID ref) (ref_TargetRevision ref)
                                     (ref_ExpectedKind ref))) refs;
  _ ← exec (λ e, DeleteResourceTags (ce_tx e) scope id);
  _ ← for_each (λ tag, exec (λ e, InsertResourceTag (ce_tx e) scope id tag)) (md_Tags m);
  _ ← exec (λ e, UpdateResourceHead scope id (md_Name m) revision (md_Enabled m)
                   (md_SecurityEpoch m) (if deleted then Some (ce_now e) else None));
  touch id.

Definition persist (r : Resource) (refs : list Reference) (deleted : bool) : CTx unit :=
  plain ← returning (match Canonical r with Ok p => Ok p | Err e => Err (Sentinel e) end);
  persistPlain (r_Metadata r) plain refs deleted.

Definition lift_catalog {A} (r : result catalog_error A) : CTx A :=
  returning (match r with Ok a => Ok a | Err e => Err (Sentinel e) end).

(** ** The operations of a transaction *)

Definition fresh_resource_id : CTx (option ID) := λ e s,
  (Ok (ce_resource_id e (cs_ids s)), set_draws s (S (cs_ids s)) (cs_seals s)).

Definition insert_resource (m : Metadata) : CTx unit :=
  _ ← exec (λ e, InsertResource (ce_now e) (md_ResourceID m) scope (md_Kind m) (md_Name m) (md_Enabled m));
  touch (md_ResourceID m).

Definition Create (input : CreateInput) : CTx Resource := mutate (
  _ ← throw_if (match ci_Payload input with
                | Payload_ClientPreset _ => true
                | Payload_typed_nil variant => variant =s KindClientPreset
                | _ => false end) ErrInvalidInput;
  fresh ← fresh_resource_id;
  r ← lift_catalog (Catalog.New fresh scope input);
  _ ← checkOperationalLimits r true;
  _ ← checkPolicyMembers r;
  _ ← checkRoutingReferences r;
  _ ← checkDNSReferences r;
  refs ← resourceReferences r;
  _ ← lockAndCheckRefs refs;
  _ ← insert_resource (r_Metadata r);
  _ ← persist r refs false;
  mret r).

Definition change (id : ID) (expected : Z) (deleted : bool) (apply : Resource → CTx Resource)
    : CTx Resource := mutate (
  _ ← throw_if (negb (valid_id id) || (expected <? 1)) ErrInvalidInput;
  o ← query (λ d, GetResourceHead d scope id);
  row ← one o;
  _ ← throw_if (negb (rr_Revision row =? expected)) ErrRevisionConflict;
  old ← returning (open_row row);
  next ← apply old;
  refs ← resourceReferences next;
  _ ← resourceReferences old;
  _ ← lockAndCheckRefs refs;
  _ ← persist next refs deleted;
  _ ← (if deleted && (md_Kind (r_Metadata old) =s KindNode) then add_nodes (-1) else mret ());
  mret next).

Definition Update (id : ID) (expected : Z) (input : UpdateInput) : CTx Resource :=
  change id expected false (λ old,
    next ← lift_catalog (Apply old input);
    _ ← checkOperationalLimits next false;
    _ ← checkPolicyMembers next;
    _ ← checkRoutingReferences next;
    _ ← checkDNSReferences next;
    mret next).
Definition TxDelete (id : ID) (expected : Z) : CTx Resource :=
  change id expected true (λ old, lift_catalog (Catalog.Delete old)).
Definition TxRevoke (id : ID) (expected : Z) : CTx Resource :=
  change id expected false (λ old, lift_catalog (Revoke old)).

(** [MutationAudit.Validate]: the same actions as the table admits. *)
Definition MutationAudit_valid (a : MutationAudit) : bool :=
  valid_id (ma_PrincipalID a) && valid_id (ma_ObjectID a) && (1 <=? ma_Revision a)
  && requestIDPattern (ma_RequestID a) && audit_action_check (ma_Action a).

Definition TxAudit (a : MutationAudit) : CTx unit := λ e s,
  if negb (cs_active s) then (Err (Sentinel ErrTransactionClosed), s)
  else
    match cs_failed s with
    | Some f => (Err f, s)
    | None =>
        if negb (MutationAudit_valid a) then latch (Sentinel ErrInvalidInput) e s
        else
          match ce_audit_id e (cs_ids s) with
          | None => latch (Sentinel ErrUnavailable) e (set_draws s (S (cs_ids s)) (cs_seals s))
          | Some event =>
              match exec (λ _, InsertResourceAudit {| ae_ID := event; ae_ScopeID := scope;
                       ae_ActorID := ma_PrincipalID a; ae_ObjectID := ma_ObjectID a;
                       ae_Revision := ma_Revision a; ae_Action := ma_Action a;
                       ae_RequestID := ma_RequestID a |}) e (set_draws s (S (cs_ids s)) (cs_seals s)) with
              | (Ok tt, s) => (Ok (), s)
              | (Err _, s) => latch (Sentinel ErrUnavailable) e s
              end
          end
    end.

(** [close]. *)
Definition close : CTx unit := λ _ s, (Ok (), set_latch s false (cs_dirty s) (cs_failed s)).

(** ** Running a transaction *)

Definition begin_tx (d : DB) : CSt :=
  {| cs_db := d; cs_aborted := false; cs_ids := 0; cs_seals := 0; cs_touched := []; cs_claims := [];
     cs_active := true; cs_dirty := false; cs_failed := None; cs_limits := None;
     cs_nodeCount := None |}.

(** The commit: the deferred constraints, and nothing when a statement failed. *)
Definition commit (e : CEnv) (s : CSt) : result failure DB :=
  if cs_aborted s then Err OtherError
  else if commit_check (ce_tx e) (cs_touched s) (cs_claims s) (cs_db s) then Ok (cs_db s)
  else Err (PgError check_violation).

(** [transactRaw]: the result, and the tables afterwards. *)
Definition transactRaw {A} (fn : CTx A) (e : CEnv) (d : DB) : result failure A * DB :=
  if negb (valid_id scope) then (Err (Sentinel ErrInvalidInput), d)
  else
    match dc_scopes d !! scope with
    | None => (Err (Sentinel ErrNotFound), d)
    | Some _ =>
        match fn e (begin_tx d) with
        | (Err err, _) => (Err err, d)
        | (Ok a, s) =>
            match cs_failed s with
            | Some f => (Err f, d)
            | None =>
                match (if cs_dirty s then exec (λ e, AdvanceCatalog (ce_tx e) scope) e s
                       else (Ok (), s)) with
                | (Err err, _) => (Err (catalogError err), d)
                | (Ok _, s) =>
                    match commit e s with
                    | Ok d' => (Ok a, d')
                    | Err err => (Err (catalogError err), d)
                    end
                end
            end
        end
    end.

(** [transact] and [Transact]. *)
Definition transact {A} (fn : CTx A) (e : CEnv) (d : DB) : result failure A * DB :=
  match transactRaw fn e d with
  | (Ok a, d) => (Ok a, d)
  | (Err err, d) => (Err (catalogError err), d)
  end.
End Scoped.

(** ** Operations outside the callback interface *)

(** [EnsureScope] and [Scope]. *)
Definition EnsureScope (scope : ID) (name : string) (d : DB) : result failure DB :=
  if negb (valid_id scope) || negb (ValidString name) || negb (length_between 1 256 name)
  then Err (Sentinel ErrInvalidInput)
  else match InsertScope scope name d with Ok d => Ok d | Err e => Err (catalogError e) end.
Definition Scope (d : DB) (scope : ID) : result failure ScopeRow :=
  if negb (valid_id scope) then Err (Sentinel ErrInvalidInput)
  else match dc_scopes d !! scope with Some s => Ok s | None => Err (Sentinel ErrNotFound) end.

Definition GetWrappingVersion (d : DB) (scope id : ID) (revision : Z) : option Z :=
  match dc_wrappings d !! (id, revision) with
  | Some w => if wa_ScopeID w =s scope then Some (wa_Version w) else None
  | None => None
  end.
Definition WrappingVersion (d : DB) (scope id : ID) (revision : Z) : result failure Z :=
  if negb (valid_id scope && valid_id id) || (revision <? 1) then Err (Sentinel ErrInvalidInput)
  else match GetWrappingVersion d scope id revision with
       | Some v => Ok v | None => Err (Sentinel ErrNotFound) end.

(** [RewrapRevision]; another writer may have run between its read and its write, so
    the tables that it reads and those that it writes are two arguments. *)
Definition RewrapRevision (draw : nat) (scope id : ID) (revision expected : Z) (read d : DB)
    : result failure DB :=
  if negb (valid_id scope && valid_id id) || (revision <? 1) || (expected <? 1)
     || (expected =? MaxInt64)
  then Err (Sentinel ErrInvalidInput)
  else
    match GetResourceRevision read scope id revision with
    | None => Err (Sentinel ErrNotFound)
    | Some row =>
        if negb (wa_Version (rr_Wrap row) =? expected) then Err (Sentinel ErrWrapConflict)
        else
          match vault_Rewrap draw (recordContext scope id revision (re_SchemaVersion (rr_Row row)))
                  (re_Envelope (rr_Row row)) (wa_Wrapping (rr_Wrap row)) with
          | None => Err (Sentinel ErrCrypto)
          | Some next =>
              match CompareAndSwapWrapping scope id revision expected next d with
              | Err e => Err (catalogError e)
              | Ok (count, d) => if count =? 1 then Ok d else Err (Sentinel ErrWrapConflict)
              end
          end
    end.

(** [EnsureBuiltinClientPresets]: one transaction; a preset that is there already must
    be the one that would be written. *)
Definition ensure_preset `{!EqDecision Bytes} (scope : ID) (resource : Resource) : CTx unit :=
  let id := rid resource in
  o ← query (λ d, GetResourceIndex d scope id);
  match o with
  | Some row =>
      _ ← throw_if (bool_decide (is_Some (he_DeletedAt row)) || negb (he_Kind row =s KindClientPreset)
                    || bool_decide (he_Revision row = None)) ErrInvalidInput;
      h ← query (λ d, GetResourceHead d scope id);
      head ← one h;
      stored ← returning (open_row head);
      want ← lift_catalog (Canonical resource);
      throw_if (match Canonical stored with
                | Ok got => negb (bool_decide (got = want)) | Err _ => true end) ErrInvalidInput
  | None =>
      _ ← mutate (_ ← insert_resource scope (r_Metadata resource);
                  _ ← persist scope resource [] false;
                  mret resource);
      mret ()
  end.
Definition EnsureBuiltinClientPresets `{!EqDecision Bytes} (scope : ID) (e : CEnv) (d : DB)
    : result failure unit * DB :=
  match BuiltinClientPresets scope with
  | Err err => (Err (Sentinel err), d)
  | Ok resources => transact scope (for_each (ensure_preset scope) resources) e d
  end.

(** [ExecuteIdempotent]: claim the key, run the callback, store its receipt. *)
Definition pend_claim (key : ReceiptKey) : CTx unit := λ _ s,
  (Ok (), set_pending s (cs_touched s) (key :: cs_claims s)).
Definition claim_key (key : ReceiptKey) (scope : ID) (digest : string) : CTx Z :=
  n ← statement (λ _, ClaimIdempotencyKey key scope digest);
  _ ← (if n =? 0 then mret () else pend_claim key);
  mret n.

Definition run_idempotent (q : IdempotencyRequest) (digest : string) (fn : CTx Receipt)
    : CTx IdempotencyResult :=
  let key := (iq_PrincipalID q, iq_RouteKey q, iq_Key q) in
  count ← claim_key key (iq_ScopeID q) digest;
  if count =? 0
  then
    o ← query (λ d, dc_receipts d !! key);
    row ← one o;
    _ ← throw_if (negb (rc_ScopeID row =s iq_ScopeID q) || negb (rc_Hmac row =s digest))
          ErrIdempotencyConflict;
    let receipt := receipt_of_row row in
    _ ← throw_if (negb (Receipt_Validate receipt)) ErrUnavailable;
    mret {| ir_Receipt := receipt; ir_Replayed := true |}
  else (λ e s,
    match fn e s with
    | (r, s) =>
        let s := set_latch s false (cs_dirty s) (cs_failed s) in
        match r, cs_failed s with
        | Err err, _ => (Err err, s)
        | Ok _, Some f => (Err f, s)
        | Ok receipt, None =>
            (_ ← throw_if (negb (Receipt_Validate receipt)) ErrInvalidInput;
             _ ← exec (λ _, FinalizeIdempotencyReceipt key (int32 (rcp_HTTPStatus receipt))
                              (dbID (rcp_ResourceID receipt))
                              (if rcp_ResourceID receipt =s "" then None else Some (rcp_Revision receipt))
                              (dbID (rcp_OperationID receipt)) (rcp_Status receipt));
             mret {| ir_Receipt := receipt; ir_Replayed := false |}) e s
        end
    end).

Definition ExecuteIdempotent (q : IdempotencyRequest) (fn : CTx Receipt) (e : CEnv) (d : DB)
    : result failure IdempotencyResult * DB :=
  if negb (valid_id (iq_ScopeID q) && valid_id (iq_PrincipalID q)) || negb (safeIdempotencyToken (iq_RouteKey q))
     || negb (safeIdempotencyToken (iq_Key q)) || (String.length (iq_CanonicalRequest q) =? 0)%nat
     || (1048576 <? Z.of_nat (String.length (iq_CanonicalRequest q)))
  then (Err (Sentinel ErrInvalidInput), d)
  else
    match vault_Mac PurposeIdempotency (framed q) with
    | None => (Err (Sentinel ErrCrypto), d)
    | Some digest => transact (iq_ScopeID q) (run_idempotent q digest fn) e d
    end.

End Store.
