(* ===== verification/StoreFacts.v ===== *)
(** What the operations of a catalog transaction do to the tables: inversion of the
    transaction monad, the exact effect of storing a revision, the invariant of the
    tables and its preservation by every operation. *)
From S2P Require Import Prelude Diagnostics IRTypes IRValidate Frozen FrozenFacts Catalog CatalogFacts CatalogRefs.
From S2P Require Import Secretbox URLText ApiError StoreDB Store.

Section StoreFacts.
Context {P : Platform} {C : Codec} {V : Vault Bytes} {Side : Type}.
Abbreviation DB := (CatalogDB (Side:=Side)).
Implicit Types (e : CEnv) (s t : CSt (Side:=Side)) (d : DB).

(** ** Inversion *)

Lemma bind_Ok {A B} (m : CTx A) (k : A → CTx (Side:=Side) B) e s b t :
  (m ≫= k) e s = (Ok b, t) → ∃ a u, m e s = (Ok a, u) ∧ k a e u = (Ok b, t).
Proof. unfold mbind, CTx_bind. destruct (m e s) as [[a|err] u] eqn:E; [|done]. eauto. Qed.

Lemma ret_Ok {A} (a b : A) e s t : (mret a : CTx (Side:=Side) A) e s = (Ok b, t) → b = a ∧ t = s.
Proof. by intros [= -> ->]. Qed.

Lemma throw_if_Ok b err e s u t : throw_if (Side:=Side) b err e s = (Ok u, t) → b = false ∧ t = s.
Proof. unfold throw_if. destruct b; [done|]. by intros [= _ ->]. Qed.

Lemma returning_Ok {A} (r : result failure A) e s a t :
  returning (Side:=Side) r e s = (Ok a, t) → r = Ok a ∧ t = s.
Proof. by intros [= -> ->]. Qed.

Lemma lift_catalog_Ok {A} (r : result catalog_error A) e s a t :
  lift_catalog (Side:=Side) r e s = (Ok a, t) → r = Ok a ∧ t = s.
Proof. unfold lift_catalog. intros [H ->]%returning_Ok. destruct r; by simplify_eq. Qed.

Lemma statement_Ok {A} (f : CEnv → DB → result failure (A * DB)) e s a t :
  statement f e s = (Ok a, t) → ∃ d, f e (cs_db s) = Ok (a, d) ∧ t = set_db s d ∧ cs_aborted s = false.
Proof.
  unfold statement. destruct (cs_aborted s); [done|].
  destruct (f e (cs_db s)) as [[a' d]|] eqn:E; [|done]. intros [= -> <-]. eauto.
Qed.

Lemma exec_Ok (f : CEnv → DB → result failure DB) e s u t :
  exec f e s = (Ok u, t) → ∃ d, f e (cs_db s) = Ok d ∧ t = set_db s d ∧ cs_aborted s = false.
Proof.
  unfold exec. intros (d & E & -> & Ha)%statement_Ok. exists d.
  destruct (f e (cs_db s)); [|done]. by simplify_eq.
Qed.

Lemma set_db_same s : set_db s (cs_db s) = s.
Proof. by destruct s. Qed.

Lemma query_Ok {A} (f : DB → A) e s a t : query f e s = (Ok a, t) → a = f (cs_db s) ∧ t = s.
Proof. unfold query. intros (d & [= <- <-] & -> & _)%statement_Ok. by rewrite set_db_same. Qed.

Lemma one_Ok {A} (o : option A) e s a t : one (Side:=Side) o e s = (Ok a, t) → o = Some a ∧ t = s.
Proof. destruct o; [|done]. by intros [= -> ->]. Qed.

Lemma require_Ok b code u : require b code = Ok u → b = true.
Proof. by destruct b. Qed.

(** ** Calls that only read *)

(** [reads m]: a call of [m] that succeeds changes no table and only counts along. *)
Definition same_tables s t : Prop :=
  cs_db t = cs_db s ∧ cs_aborted t = cs_aborted s ∧ cs_touched t = cs_touched s ∧
  cs_claims t = cs_claims s ∧ cs_active t = cs_active s ∧ cs_dirty t = cs_dirty s ∧
  cs_failed t = cs_failed s.
Definition reads {A} (m : CTx (Side:=Side) A) : Prop :=
  ∀ e s a t, m e s = (Ok a, t) → same_tables s t.

Lemma same_tables_refl s : same_tables s s.
Proof. by split_and!. Qed.
Lemma same_tables_trans s t u : same_tables s t → same_tables t u → same_tables s u.
Proof. unfold same_tables. intros (? & ? & ? & ? & ? & ? & ?) (? & ? & ? & ? & ? & ? & ?). split_and!; congruence. Qed.

Lemma reads_bind {A B} (m : CTx A) (k : A → CTx B) : reads m → (∀ a, reads (k a)) → reads (m ≫= k).
Proof. intros Hm Hk e s b t (a & u & H1 & H2)%bind_Ok. eapply same_tables_trans; [by eapply Hm|by eapply Hk]. Qed.
Lemma reads_ret {A} (a : A) : reads (mret a : CTx A).
Proof. intros e s b t [_ ->]%ret_Ok. apply same_tables_refl. Qed.
Lemma reads_throw {A} err : reads (throw err : CTx A).
Proof. by intros e s b t. Qed.
Lemma reads_throw_if b err : reads (throw_if b err).
Proof. intros e s u t [_ ->]%throw_if_Ok. apply same_tables_refl. Qed.
Lemma reads_returning {A} (r : result failure A) : reads (returning r).
Proof. intros e s u t [_ ->]%returning_Ok. apply same_tables_refl. Qed.
Lemma reads_query {A} (f : DB → A) : reads (query f).
Proof. intros e s u t [_ ->]%query_Ok. apply same_tables_refl. Qed.
Lemma reads_one {A} (o : option A) : reads (one o).
Proof. intros e s u t [_ ->]%one_Ok. apply same_tables_refl. Qed.
Lemma reads_env {A} (m : CEnv → CTx A) : (∀ e, reads (m e)) → reads (λ e, m e e).
Proof. intros H e s a t E. by eapply (H e). Qed.
Lemma reads_if {A} (b : bool) (m n : CTx A) : reads m → reads n → reads (if b then m else n).
Proof. by destruct b. Qed.
Lemma reads_each {A B} (f : nat → A → CTx B) i l : (∀ i x, reads (f i x)) → reads (each f i l).
Proof.
  intros Hf. revert i. induction l as [|x l IH]; intros i; [apply reads_ret|]. cbn [each].
  apply reads_bind; [apply Hf|]. intros b. apply reads_bind; [apply IH|]. intros bs. apply reads_ret.
Qed.
Lemma reads_for_each {A} (f : A → CTx unit) l : (∀ x, reads (f x)) → reads (for_each f l).
Proof.
  intros Hf. induction l as [|x l IH]; [apply reads_ret|]. cbn [for_each].
  apply reads_bind; [apply Hf|]. by intros [].
Qed.

End StoreFacts.

Create HintDb reads.
#[export] Hint Resolve reads_bind reads_ret reads_throw reads_throw_if reads_returning reads_query
  reads_one reads_each reads_for_each reads_if : reads.
#[export] Hint Extern 1 (reads (match ?x with _ => _ end)) => destruct x : reads.

Section Checks.
Context {P : Platform} {C : Codec} {V : Vault Bytes} {Side : Type} (scope : ID).
Abbreviation DB := (CatalogDB (Side:=Side)).

Lemma reads_reference_check {A} (o : outcome failure A) : reads (Side:=Side) (reference_check o).
Proof. destruct o as [a|[]|]; cbn [reference_check]; auto with reads. Qed.
#[local] Hint Resolve reads_reference_check : reads.

Lemma reads_checkPolicyMembers r : reads (Side:=Side) (checkPolicyMembers scope r).
Proof. unfold checkPolicyMembers. destruct (r_Payload r); auto with reads. Qed.
Lemma reads_checkRoutingReferences r : reads (Side:=Side) (checkRoutingReferences scope r).
Proof. unfold checkRoutingReferences. destruct (r_Payload r); auto with reads. Qed.
Lemma reads_checkDNSReferences r : reads (Side:=Side) (checkDNSReferences scope r).
Proof. unfold checkDNSReferences. destruct (r_Payload r); auto with reads. Qed.

Lemma reads_operationalLimits : reads (Side:=Side) (operationalLimits scope).
Proof.
  intros e s a t. unfold operationalLimits. destruct (cs_limits s); [intros [= _ ->]; apply same_tables_refl|].
  destruct (cs_aborted s) eqn:Ea; [done|].
  destruct (dc_settings (cs_db s) !! scope) as [[]|]; [|done|]; intros [= _ <-]; by split_and!.
Qed.
Lemma reads_nodeCount : reads (Side:=Side) (nodeCount scope).
Proof.
  intros e s a t. unfold nodeCount. destruct (cs_nodeCount s); [intros [= _ ->]; apply same_tables_refl|].
  destruct (query _ e s) as [[n|] u] eqn:E; [|done]. apply query_Ok in E as [_ ->]. intros [= _ <-]. by split_and!.
Qed.
Lemma reads_add_nodes k : reads (Side:=Side) (add_nodes k).
Proof. intros e s a t [= _ <-]. by split_and!. Qed.
#[local] Hint Resolve reads_operationalLimits reads_nodeCount reads_add_nodes : reads.

Lemma reads_checkOperationalLimits r b : reads (Side:=Side) (checkOperationalLimits scope r b).
Proof.
  unfold checkOperationalLimits. apply reads_bind; [apply reads_operationalLimits|]. intros limits.
  repeat (apply reads_bind; [|intros []]); auto 6 with reads.
Qed.

Lemma reads_resourceReferences r : reads (Side:=Side) (resourceReferences scope r).
Proof.
  unfold resourceReferences. apply (reads_env (λ e, _ ≫= _)). intros e.
  apply reads_bind; [apply reads_returning|]. intros refs.
  destruct (r_Payload r); auto with reads.
  assert (Hm : ∀ g i x, reads (Side:=Side) (member_reference scope r g i x)).
  { intros. unfold member_reference. auto 6 with reads. }
  apply reads_bind; [auto with reads|]. intros inc. apply reads_bind; [auto with reads|]. intros exc.
  destruct (ce_cores e); auto with reads. apply reads_bind; [|auto with reads].
  apply reads_for_each. intros t. unfold check_target. repeat (apply reads_bind; [auto with reads|]; intros).
  destruct (r_Payload _); auto with reads.
Qed.

Lemma reads_lockAndCheckRefs refs : reads (Side:=Side) (lockAndCheckRefs scope refs).
Proof.
  apply reads_for_each. intros ref. unfold check_ref. apply reads_bind; [auto with reads|]. intros [h|]; auto with reads.
Qed.
End Checks.
#[export] Hint Resolve reads_checkPolicyMembers reads_checkRoutingReferences reads_checkDNSReferences
  reads_checkOperationalLimits reads_resourceReferences reads_lockAndCheckRefs reads_add_nodes : reads.

(** ** Storing a revision *)

Section Persist.
Context {P : Platform} {C : Codec} {V : Vault Bytes} {Side : Type} (scope : ID).
Abbreviation DB := (CatalogDB (Side:=Side)).
Implicit Types (e : CEnv) (s t : CSt (Side:=Side)) (d : DB).

Definition ref_row (ref : Reference) : RefRow :=
  {| rf_ScopeID := scope; rf_Target := ref_TargetID ref; rf_TargetRevision := ref_TargetRevision ref;
     rf_Kind := ref_ExpectedKind ref |}.

(** The references of a revision were added, and the targets have the expected kinds. *)
Record RefsAdded (id : ID) (n : Z) (refs : list Reference) d d' : Prop := {
  ra_old : dc_refs d ⊆ dc_refs d';
  ra_all : ∀ ref, ref ∈ refs → dc_refs d' !! (id, n, ref_Path ref) = Some (ref_row ref);
  ra_new : ∀ key row, dc_refs d' !! key = Some row → dc_refs d !! key = None →
    ∃ ref, ref ∈ refs ∧ key = (id, n, ref_Path ref) ∧ row = ref_row ref;
  ra_kinds : ∀ ref, ref ∈ refs →
    ∃ h, GetResourceIndex d scope (ref_TargetID ref) = Some h ∧ he_Kind h = ref_ExpectedKind ref }.

Lemma InsertResourceReference_Ok tx id n ref d d' :
  InsertResourceReference tx scope id n (ref_Path ref) (ref_TargetID ref) (ref_TargetRevision ref)
    (ref_ExpectedKind ref) d = Ok d' →
  dc_refs d !! (id, n, ref_Path ref) = None ∧
  (∃ h, GetResourceIndex d scope (ref_TargetID ref) = Some h ∧ he_Kind h = ref_ExpectedKind ref) ∧
  d' = with_refs d (<[(id, n, ref_Path ref) := ref_row ref]> (dc_refs d)).
Proof.
  unfold InsertResourceReference. destruct (require (text_ok _) _); [|done].
  destruct (require (fresh_revision _ _ _ _ _) _); [|done]. destruct (require (_ && _ && _) _); [|done].
  destruct (require (negb _) _) eqn:E1; [|done]. apply require_Ok, negb_true_iff, bool_decide_eq_false, eq_None_not_Some in E1.
  destruct (GetResourceIndex d scope (ref_TargetID ref)) as [h|]; [|done].
  destruct (require (he_Kind h =s _) _) eqn:E2; [|done]. apply require_Ok, String.eqb_eq in E2.
  destruct (require _ foreign_key_violation); [|done]. intros [= <-]. eauto.
Qed.

Lemma insert_refs_Ok id n refs e s u t :
  for_each (λ ref, exec (λ e, InsertResourceReference (ce_tx e) scope id n (ref_Path ref)
              (ref_TargetID ref) (ref_TargetRevision ref) (ref_ExpectedKind ref))) refs e s = (Ok u, t) →
  ∃ r, t = set_db s (with_refs (cs_db s) r) ∧ RefsAdded id n refs (cs_db s) (with_refs (cs_db s) r).
Proof.
  revert s. induction refs as [|ref refs IH]; intros s; cbn [for_each].
  { intros [_ ->]%ret_Ok. exists (dc_refs (cs_db s)). split; [by destruct s as [[]]|].
    split; simpl; [done|set_solver|intros; congruence|set_solver]. }
  intros ([] & s1 & (d1 & E1 & -> & _)%exec_Ok & E2)%bind_Ok.
  apply InsertResourceReference_Ok in E1 as (Hn & Hk & ->).
  apply IH in E2 as (r & -> & [H1 H2 H3 H4]). simpl in *. exists r. split; [done|].
  split; simpl.
  - etrans; [|exact H1]. by apply insert_subseteq.
  - intros ref' [-> |Hin]%elem_of_cons; [|by apply H2].
    eapply lookup_weaken; [|exact H1]. apply lookup_insert_eq.
  - intros key row Hr Hd. destruct (decide (key = (id, n, ref_Path ref))) as [-> |Hne].
    + exists ref. split; [set_solver|]. split; [done|].
      assert (H : r !! (id, n, ref_Path ref) = Some (ref_row ref)); [|congruence].
      eapply lookup_weaken; [|exact H1]. apply lookup_insert_eq.
    + destruct (H3 key row Hr) as (ref' & ? & ? & ?); [by rewrite lookup_insert_ne|].
      exists ref'. split; [set_solver|done].
  - intros ref' [-> |Hin]%elem_of_cons; [done|]. by apply H4.
Qed.

Definition tag_set (id : ID) (tags : list string) : gset (ID * string) := list_to_set (fmap (M:=list) (λ t : string, (id, t)) tags).

Lemma insert_tags_Ok id tags e s u t :
  for_each (λ tag, exec (λ e, InsertResourceTag (ce_tx e) scope id tag)) tags e s = (Ok u, t) →
  t = set_db s (with_tags (cs_db s) (dc_tags (cs_db s) ∪ tag_set id tags)).
Proof.
  revert s. induction tags as [|tag tags IH]; intros s; cbn [for_each].
  { intros [_ ->]%ret_Ok. unfold tag_set. cbn. rewrite (right_id_L ∅ (∪)). by destruct s as [[]]. }
  intros ([] & s1 & (d1 & E1 & -> & _)%exec_Ok & E2)%bind_Ok.
  assert (d1 = with_tags (cs_db s) ({[(id, tag)]} ∪ dc_tags (cs_db s))) as ->.
  { unfold InsertResourceTag in E1. destruct (require (text_ok tag) _); [|done].
    destruct (require (_ && _) _); [|done]. destruct (require (negb _) _); [|done]. by simplify_eq. }
  apply IH in E2 as ->. unfold set_db. simpl. f_equal. unfold with_tags. simpl. f_equal.
  unfold tag_set. cbn [fmap list_fmap list_to_set]. set_solver.
Qed.

(** The head of a resource after a revision was stored. *)
Definition head_after (h : HeadRow) (m : Metadata) (deleted : option Z) : HeadRow :=
  {| he_ScopeID := he_ScopeID h; he_Kind := he_Kind h; he_Name := md_Name m;
     he_Revision := Some (md_Revision m); he_Enabled := md_Enabled m;
     he_SecurityEpoch := md_SecurityEpoch m; he_CreatedAt := he_CreatedAt h; he_DeletedAt := deleted |}.

(** What storing revision [m] with plaintext [plain] did to the tables. *)
Record Stored e (m : Metadata) (plain : Bytes) (refs : list Reference) (deleted : bool) d d' : Prop := {
  sd_scopes : dc_scopes d' = dc_scopes d;
  sd_others : dc_audit d' = dc_audit d ∧ dc_receipts d' = dc_receipts d ∧ dc_users d' = dc_users d ∧
    dc_settings d' = dc_settings d ∧ dc_side d' = dc_side d;
  sd_head : ∃ h, GetResourceIndex d scope (md_ResourceID m) = Some h ∧
    md_Revision m = default 0 (he_Revision h) + 1 ∧
    (he_Kind h = KindClientPreset → he_Revision h = None) ∧
    resource_advance h (md_Revision m) (md_SecurityEpoch m) (md_Enabled m)
      (if deleted then Some (ce_now e) else None) = true ∧
    0 < md_SecurityEpoch m ∧ (deleted = true → md_Enabled m = false) ∧
    dc_heads d' = <[md_ResourceID m := head_after h m (if deleted then Some (ce_now e) else None)]> (dc_heads d);
  sd_revision : ∃ draw env w digest, vault_Seal draw (recordContext scope (md_ResourceID m) (md_Revision m)
      (md_SchemaVersion m)) plain = Some (env, w) ∧
    vault_Digest PurposeResourceContent plain = Some digest ∧
    int32 (md_SchemaVersion m) = 1 ∧ 0 < md_Revision m ∧
    dc_revisions d !! (md_ResourceID m, md_Revision m) = None ∧
    dc_wrappings d !! (md_ResourceID m, md_Revision m) = None ∧
    dc_revisions d' = <[(md_ResourceID m, md_Revision m) := {| re_ScopeID := scope;
      re_SchemaVersion := int32 (md_SchemaVersion m); re_SecurityEpoch := md_SecurityEpoch m;
      re_Envelope := env; re_ContentHmac := digest; re_Transaction := ce_tx e |}]> (dc_revisions d) ∧
    dc_wrappings d' = <[(md_ResourceID m, md_Revision m) :=
      {| wa_ScopeID := scope; wa_Version := 1; wa_Wrapping := w |}]> (dc_wrappings d);
  sd_refs : RefsAdded (md_ResourceID m) (md_Revision m) refs d d';
  sd_tags : dc_tags d' = dc_tags d ∖ tags_of (md_ResourceID m) d ∪ tag_set (md_ResourceID m) (md_Tags m) }.

Lemma InsertResourceRevision_Ok tx id n schema epoch env hmac d d' :
  InsertResourceRevision tx scope id n schema epoch env hmac d = Ok d' →
  (∃ h, GetResourceIndex d scope id = Some h ∧ n = default 0 (he_Revision h) + 1) ∧ 0 < n ∧ schema = 1 ∧
  dc_revisions d !! (id, n) = None ∧
  d' = with_revisions d (<[(id, n) := {| re_ScopeID := scope; re_SchemaVersion := schema;
         re_SecurityEpoch := epoch; re_Envelope := env; re_ContentHmac := hmac; re_Transaction := tx |}]>
         (dc_revisions d)).
Proof.
  unfold InsertResourceRevision. destruct (GetResourceIndex d scope id) as [h|] eqn:Eh; [|done].
  destruct (require (n =? _) _) eqn:E1; [|done]. apply require_Ok, Z.eqb_eq in E1.
  destruct (require (_ && _) _) eqn:E2; [|done]. apply require_Ok in E2.
  rewrite !andb_true_iff in E2. destruct E2 as [[[[[H1 H2] _] _] _] _].
  destruct (require (negb _) _) eqn:E3; [|done].
  apply require_Ok, negb_true_iff, bool_decide_eq_false, eq_None_not_Some in E3.
  intros [= <-]. split_and!; [by exists h|lia|lia|done|done].
Qed.

Lemma InsertResourceWrapping_Ok tx id n w d d' :
  InsertResourceWrapping tx scope id n w d = Ok d' →
  dc_wrappings d !! (id, n) = None ∧
  d' = with_wrappings d (<[(id, n) := {| wa_ScopeID := scope; wa_Version := 1; wa_Wrapping := w |}]> (dc_wrappings d)).
Proof.
  unfold InsertResourceWrapping. destruct (require (fresh_revision _ _ _ _ _) _); [|done].
  destruct (require (_ && _) _); [|done]. destruct (require (negb _) _) eqn:E; [|done].
  apply require_Ok, negb_true_iff, bool_decide_eq_false, eq_None_not_Some in E. by intros [= <-].
Qed.

Lemma UpdateResourceHead_Ok id name n enabled epoch deleted h d d' :
  GetResourceIndex d scope id = Some h →
  UpdateResourceHead scope id name n enabled epoch deleted d = Ok d' →
  (he_Kind h = KindClientPreset → he_Revision h = None) ∧
  resource_advance h n epoch enabled deleted = true ∧ 0 < epoch ∧ (is_Some deleted → enabled = false) ∧
  d' = with_heads d (<[id := {| he_ScopeID := he_ScopeID h; he_Kind := he_Kind h; he_Name := name;
         he_Revision := Some n; he_Enabled := enabled; he_SecurityEpoch := epoch;
         he_CreatedAt := he_CreatedAt h; he_DeletedAt := deleted |}]> (dc_heads d)).
Proof.
  unfold UpdateResourceHead. intros ->. destruct (require (text_ok name) _); [|done].
  destruct (require (negb _) _) eqn:E1; [|done]. apply require_Ok, negb_true_iff in E1.
  destruct (require (resource_advance _ _ _ _ _) _) eqn:E2; [|done]. apply require_Ok in E2.
  destruct (require (_ && _) _) eqn:E3; [|done]. apply require_Ok in E3.
  rewrite !andb_true_iff, negb_true_iff in E3. destruct E3 as [[[_ _] H1] H2].
  intros [= <-]. split_and!; [|done|lia| |done].
  - intros Hk. rewrite Hk, String.eqb_refl in E1. simpl in E1.
    by apply bool_decide_eq_false, eq_None_not_Some in E1.
  - intros Hd. rewrite bool_decide_eq_true_2 in H2 by done. by destruct enabled.
Qed.

Lemma DeleteResourceTags_Ok tx id h d d' :
  GetResourceIndex d scope id = Some h → DeleteResourceTags tx scope id d = Ok d' →
  d' = with_tags d (dc_tags d ∖ tags_of id d).
Proof. unfold DeleteResourceTags. intros ->. destruct (require _ _); [|done]. by intros [= <-]. Qed.

Lemma persistPlain_Ok m plain refs deleted e s u t :
  persistPlain scope m plain refs deleted e s = (Ok u, t) →
  Stored e m plain refs deleted (cs_db s) (cs_db t) ∧
  cs_aborted t = cs_aborted s ∧ cs_touched t = md_ResourceID m :: cs_touched s ∧ cs_claims t = cs_claims s ∧
  cs_active t = cs_active s ∧ cs_dirty t = cs_dirty s ∧ cs_failed t = cs_failed s.
Proof.
  unfold persistPlain. cbv zeta.
  intros ([env w] & s1 & E1 & H)%bind_Ok. unfold seal in E1.
  destruct (vault_Seal _ _ _) as [[env' w']|] eqn:Es; [|done]. injection E1 as -> -> <-.
  apply bind_Ok in H as (digest & s2 & [Ed ->]%returning_Ok & H).
  destruct (vault_Digest _ _) as [digest'|] eqn:Edg; [|done]. injection Ed as ->.
  apply bind_Ok in H as ([] & s3 & (d3 & E3 & -> & _)%exec_Ok & H). cbn [fst snd] in *.
  apply InsertResourceRevision_Ok in E3 as ((h & Eh & Hrev) & Hpos & Hschema & Hfresh & ->).
  apply bind_Ok in H as ([] & s4 & (d4 & E4 & -> & _)%exec_Ok & H).
  apply InsertResourceWrapping_Ok in E4 as (Hw & ->).
  apply bind_Ok in H as ([] & s5 & H5 & H). apply insert_refs_Ok in H5 as (r & -> & HR).
  apply bind_Ok in H as ([] & s6 & (d6 & E6 & -> & _)%exec_Ok & H).
  simpl in *. apply (DeleteResourceTags_Ok _ _ h) in E6 as ->; [|exact Eh].
  apply bind_Ok in H as ([] & s7 & H7%insert_tags_Ok & H). subst s7.
  apply bind_Ok in H as ([] & s8 & (d8 & E8 & -> & _)%exec_Ok & H).
  apply (UpdateResourceHead_Ok _ _ _ _ _ _ h) in E8 as (Hp & Hadv & Hep & Hdel & ->); [|exact Eh].
  injection H as _ <-. simpl. split_and!; try done.
  destruct HR as [R1 R2 R3 R4]. split; simpl; try done.
  - exists h. split_and!; try done. intros ->. apply Hdel. by eexists.
  - eexists _, env, w, digest. by split_and!.
Qed.
End Persist.

(** ** The invariant of the tables *)

Section Invariant.
Context {P : Platform} {C : Codec} {V : Vault Bytes} {Side : Type}.
Abbreviation DB := (CatalogDB (Side:=Side)).
Implicit Types (e : CEnv) (s t : CSt (Side:=Side)) (d : DB).

(** Revision [n] of [id] is stored, complete, and opens to [r]. *)
Definition revision_of d (scope id : ID) (n : Z) (r : Resource) : Prop :=
  ∃ row, GetResourceRevision d scope id n = Some row ∧ open_row row = Ok r.

(** The index columns and the tags of a head are those of its resource. *)
Definition indexed d (id : ID) (h : HeadRow) (r : Resource) : Prop :=
  let m := r_Metadata r in
  he_Kind h = md_Kind m ∧ he_Name h = md_Name m ∧ he_Enabled h = md_Enabled m ∧
  he_SecurityEpoch h = md_SecurityEpoch m ∧ tags_of id d = tag_set id (md_Tags m).

(** A stored row of a kind that this repository opens does open, and to what its head
    says; rows of the other kind, the sources, are no documents of this repository. *)
Definition row_opens (h : HeadRow) (row : RevRow) : Prop :=
  if typedCatalogKind (he_Kind h) then ∃ r, open_row row = Ok r else ∀ r, open_row row ≠ Ok r.

(** [new] is a resource that was inserted and has no revision yet. *)
Record CatalogWf (new : option ID) d : Prop := {
  cw_scope : ∀ id h, dc_heads d !! id = Some h → is_Some (dc_scopes d !! he_ScopeID h);
  cw_head : ∀ id h, dc_heads d !! id = Some h →
    match he_Revision h with
    | None => new = Some id
    | Some n => ∃ row, GetResourceRevision d (he_ScopeID h) id n = Some row ∧
        re_SecurityEpoch (rr_Row row) = he_SecurityEpoch h ∧
        ∀ r, open_row row = Ok r → indexed d id h r
    end;
  cw_rev : ∀ id n, is_Some (dc_revisions d !! (id, n)) → ∃ h k row,
    dc_heads d !! id = Some h ∧ he_Revision h = Some k ∧ 1 ≤ n ≤ k ∧
    GetResourceRevision d (he_ScopeID h) id n = Some row ∧ row_opens h row;
  cw_contiguous : ∀ id h k n, dc_heads d !! id = Some h → he_Revision h = Some k → 1 ≤ n ≤ k →
    is_Some (dc_revisions d !! (id, n));
  cw_ref : ∀ id n path row, dc_refs d !! (id, n, path) = Some row →
    is_Some (dc_revisions d !! (id, n)) ∧
    ∃ h, dc_heads d !! rf_Target row = Some h ∧ he_ScopeID h = rf_ScopeID row ∧ he_Kind h = rf_Kind row }.

Lemma GetResourceIndex_Some d scope id h :
  GetResourceIndex d scope id = Some h ↔ dc_heads d !! id = Some h ∧ he_ScopeID h = scope.
Proof.
  unfold GetResourceIndex. destruct (dc_heads d !! id) as [h'|]; [|naive_solver].
  destruct (String.eqb_spec (he_ScopeID h') scope); naive_solver.
Qed.

Lemma GetResourceRevision_Some d scope id n row :
  GetResourceRevision d scope id n = Some row ↔
  ∃ rv w, dc_revisions d !! (id, n) = Some rv ∧ dc_wrappings d !! (id, n) = Some w ∧
    re_ScopeID rv = scope ∧ wa_ScopeID w = scope ∧
    row = {| rr_ScopeID := scope; rr_ResourceID := id; rr_Revision := n; rr_Row := rv; rr_Wrap := w |}.
Proof.
  unfold GetResourceRevision.
  destruct (dc_revisions d !! (id, n)) as [rv|]; [|naive_solver].
  destruct (dc_wrappings d !! (id, n)) as [w|]; [|naive_solver].
  destruct (String.eqb_spec (re_ScopeID rv) scope), (String.eqb_spec (wa_ScopeID w) scope); naive_solver.
Qed.

(** What [open] checks of a resource. *)
Lemma open_row_Ok row r :
  open_row row = Ok r →
  md_ScopeID (r_Metadata r) = rr_ScopeID row ∧ rid r = rr_ResourceID row ∧
  md_Revision (r_Metadata r) = rr_Revision row ∧
  md_SecurityEpoch (r_Metadata r) = re_SecurityEpoch (rr_Row row).
Proof.
  unfold open_row, rid. cbv zeta. destruct (vault_Open _ _ _) as [plain|]; [|done].
  destruct (vault_Digest _ _); [|done]. destruct (negb _); [done|].
  destruct (DecodeResource plain) as [r'|]; [|done].
  destruct (_ && _) eqn:E; [|done]. intros [= ->]. simpl in E.
  rewrite !andb_true_iff, !String.eqb_eq, !Z.eqb_eq in E. naive_solver.
Qed.

Lemma revision_of_metadata d scope id n r :
  revision_of d scope id n r →
  md_ScopeID (r_Metadata r) = scope ∧ rid r = id ∧ md_Revision (r_Metadata r) = n ∧
  ∃ rv, dc_revisions d !! (id, n) = Some rv ∧ md_SecurityEpoch (r_Metadata r) = re_SecurityEpoch rv ∧
    re_ScopeID rv = scope.
Proof.
  intros (row & (rv & w & Hr & _ & Hs & _ & ->)%GetResourceRevision_Some & (H1 & H2 & H3 & H4)%open_row_Ok).
  simpl in *. eauto 10.
Qed.

Lemma revision_of_det d scope id n r r' : revision_of d scope id n r → revision_of d scope id n r' → r = r'.
Proof. intros (row & H1 & H2) (row' & H1' & H2'). congruence. Qed.

(** Later tables keep every stored revision readable. *)
Definition history_kept d d' : Prop :=
  dc_revisions d ⊆ dc_revisions d' ∧ dc_wrappings d ⊆ dc_wrappings d'.

Lemma GetResourceRevision_kept d d' scope id n row :
  history_kept d d' → GetResourceRevision d scope id n = Some row → GetResourceRevision d' scope id n = Some row.
Proof.
  intros [H1 H2] (rv & w & Hr & Hw & Hs & Hs' & ->)%GetResourceRevision_Some.
  apply GetResourceRevision_Some. exists rv, w. split_and!; try done; by eapply lookup_weaken.
Qed.

Lemma revision_of_kept d d' scope id n r :
  history_kept d d' → revision_of d scope id n r → revision_of d' scope id n r.
Proof. intros H (row & Hr & Ho). exists row. split; [by eapply GetResourceRevision_kept|done]. Qed.

(** A head only moves forward: its identity stays, every change is the next revision,
    and a deleted head does not change. *)
Record HeadLater (h h' : HeadRow) : Prop := {
  hl_same : he_ScopeID h' = he_ScopeID h ∧ he_Kind h' = he_Kind h ∧ he_CreatedAt h' = he_CreatedAt h;
  hl_revision : default 0 (he_Revision h) ≤ default 0 (he_Revision h');
  hl_epoch : he_SecurityEpoch h ≤ he_SecurityEpoch h' ≤
    he_SecurityEpoch h + (default 0 (he_Revision h') - default 0 (he_Revision h));
  hl_still : default 0 (he_Revision h') = default 0 (he_Revision h) → h' = h;
  hl_deleted : is_Some (he_DeletedAt h) → h' = h }.

Lemma HeadLater_refl h : HeadLater h h.
Proof. split; try done; lia. Qed.
Lemma HeadLater_trans h1 h2 h3 : HeadLater h1 h2 → HeadLater h2 h3 → HeadLater h1 h3.
Proof.
  intros [(?&?&?) R1 E1 S1 D1] [(?&?&?) R2 E2 S2 D2]. split.
  - split_and!; congruence.
  - lia.
  - lia.
  - intros E. assert (h2 = h1) as -> by (apply S1; lia). apply S2. lia.
  - intros Hd. assert (h2 = h1) as -> by auto. auto.
Qed.

(** From [d] to [d'] inside a transaction of [scope]: history grows, heads of other
    scopes stay, those of the scope move forward. *)
Record Later (scope : ID) d d' : Prop := {
  lt_scopes : dc_scopes d' = dc_scopes d;
  lt_history : history_kept d d';
  lt_refs : dc_refs d ⊆ dc_refs d';
  lt_heads : ∀ id h, dc_heads d !! id = Some h → ∃ h', dc_heads d' !! id = Some h' ∧ HeadLater h h' ∧
    (he_ScopeID h ≠ scope → h' = h);
  lt_new : ∀ id h', dc_heads d' !! id = Some h' → dc_heads d !! id = None → he_ScopeID h' = scope;
  lt_others : dc_receipts d' = dc_receipts d ∧ dc_users d' = dc_users d ∧ dc_settings d' = dc_settings d ∧
    dc_side d' = dc_side d;
  lt_audit : ∃ events, dc_audit d' = events ++ dc_audit d }.

Lemma Later_refl scope d : Later scope d d.
Proof.
  split; try done; [intros id h Hh; exists h; by split_and!; [|apply HeadLater_refl|]|congruence|by exists []].
Qed.
Lemma Later_trans scope d1 d2 d3 : Later scope d1 d2 → Later scope d2 d3 → Later scope d1 d3.
Proof.
  intros [S1 [K1 W1] R1 D1 N1 (B1&B2&B3&B4) [e1 A1]] [S2 [K2 W2] R2 D2 N2 (C1&C2&C3&C4) [e2 A2]]. split.
  - congruence.
  - split; by etrans.
  - by etrans.
  - intros id h Hh. destruct (D1 _ _ Hh) as (h' & Hh' & L1 & O1). destruct (D2 _ _ Hh') as (h'' & Hh'' & L2 & O2).
    exists h''. split; [done|]. split; [by eapply HeadLater_trans|]. intros Hs. rewrite <-(O1 Hs).
    apply O2. by rewrite (proj1 (hl_same _ _ L1)).
  - intros id h'' Hh Hn. destruct (dc_heads d2 !! id) as [h'|] eqn:E; [|by eapply N2].
    destruct (D2 _ _ E) as (h3 & Hh3 & L2 & _). assert (h3 = h'') as -> by congruence.
    rewrite (proj1 (hl_same _ _ L2)). by eapply N1.
  - split_and!; congruence.
  - exists (e2 ++ e1). by rewrite A2, A1, app_assoc.
Qed.

Lemma tags_of_other (id id' : ID) d tags :
  id ≠ id' → tags_of id (with_tags d (dc_tags d ∖ tags_of id' d ∪ tag_set id' tags)) = tags_of id d.
Proof.
  intros Hne. unfold tags_of. simpl. apply set_eq. intros [i t].
  rewrite !elem_of_filter, elem_of_union, elem_of_difference, elem_of_filter. simpl.
  unfold tag_set. rewrite elem_of_list_to_set, list_elem_of_fmap. naive_solver.
Qed.
Lemma tags_of_same (id : ID) d tags :
  tags_of id (with_tags d (dc_tags d ∖ tags_of id d ∪ tag_set id tags)) = tag_set id tags.
Proof.
  unfold tags_of. simpl. apply set_eq. intros [i t].
  rewrite !elem_of_filter, elem_of_union, elem_of_difference, elem_of_filter. simpl.
  unfold tag_set. rewrite elem_of_list_to_set, list_elem_of_fmap. naive_solver.
Qed.

(** Storing a revision that decodes to the resource with that metadata. *)
Section Step.
Context {VL : VaultLaws Bytes}.
Context (scope : ID).

Lemma Stored_later e m plain refs deleted d d' :
  Stored scope e m plain refs deleted d d' → Later scope d d'.
Proof.
  intros [S (A1&A2&A3&A4&A5) (h & (Hh & Hs)%GetResourceIndex_Some & Hr & _ & Ha & _ & _ & Eh)
    (draw & env & w & dg & _ & _ & _ & _ & N1 & N2 & Er & Ew) [R1 R2 R3 R4] T].
  split; try done.
  - split; [rewrite Er|rewrite Ew]; by apply insert_subseteq.
  - intros id h0 H0. rewrite Eh. destruct (decide (id = md_ResourceID m)) as [-> |Hne].
    2:{ rewrite lookup_insert_ne by done. exists h0. by split_and!; [|apply HeadLater_refl|]. }
    rewrite lookup_insert_eq. assert (h0 = h) as -> by congruence.
    eexists. split; [done|]. unfold resource_advance in Ha.
    rewrite !andb_true_iff, bool_decide_eq_true, Z.eqb_eq, !Z.leb_le in Ha.
    destruct Ha as [[[[Hd _] Hl] Hu] _]. split; [|done]. split; simpl; try done; [lia|lia|lia|].
    rewrite Hd. by intros [? ?].
  - intros id h' Hh' Hn. rewrite Eh in Hh'. destruct (decide (id = md_ResourceID m)) as [-> |Hne]; [congruence|].
    rewrite lookup_insert_ne in Hh' by done. congruence.
  - by exists [].
Qed.

Lemma Stored_opens e r plain refs deleted d d' :
  DecodeResource plain = Some (sort_tags r) → md_SchemaVersion (r_Metadata r) = SchemaVersion →
  md_ScopeID (r_Metadata r) = scope →
  Stored scope e (r_Metadata r) plain refs deleted d d' →
  revision_of d' scope (rid r) (md_Revision (r_Metadata r)) (sort_tags r).
Proof.
  intros Hd Hv Hs [_ _ _ (draw & env & w & dg & Hseal & Hdg & Hi & _ & _ & _ & Er & Ew) _ _].
  eexists. split.
  { apply GetResourceRevision_Some. rewrite Er, Ew. do 2 eexists. split_and!; try apply lookup_insert_eq; done. }
  unfold open_row. cbn [rr_ScopeID rr_ResourceID rr_Revision rr_Row rr_Wrap re_SchemaVersion re_Envelope
    wa_Wrapping re_ContentHmac re_SecurityEpoch recordContext cx_ScopeID cx_ObjectID cx_Revision cx_SchemaVersion].
  rewrite Hi. rewrite Hv in Hseal. apply Open_Seal in Hseal.
  unfold rid. change SchemaVersion with 1 in Hseal. rewrite Hseal, Hdg, String.eqb_refl. simpl. rewrite Hd. simpl.
  rewrite Hs, Hv, !String.eqb_refl, !Z.eqb_refl. done.
Qed.
Lemma tag_set_sorted id tags : tag_set id (sort_strings tags) = tag_set id tags.
Proof.
  unfold tag_set. apply set_eq. intros x. rewrite !elem_of_list_to_set, !list_elem_of_fmap.
  by setoid_rewrite elem_of_isort.
Qed.

(** What the invariant asks of a revision: its row opens as its kind demands, and to
    a resource that the index columns and the tags agree with. *)
Definition describes (m : Metadata) (r : Resource) : Prop :=
  md_Kind (r_Metadata r) = md_Kind m ∧ md_Name (r_Metadata r) = md_Name m ∧
  md_Enabled (r_Metadata r) = md_Enabled m ∧ md_SecurityEpoch (r_Metadata r) = md_SecurityEpoch m ∧
  tag_set (md_ResourceID m) (md_Tags (r_Metadata r)) = tag_set (md_ResourceID m) (md_Tags m).

Lemma Stored_wf_row new e m plain refs deleted d d' :
  CatalogWf new d → new = None ∨ new = Some (md_ResourceID m) →
  (∀ h, dc_heads d !! md_ResourceID m = Some h → he_Kind h = md_Kind m) →
  (∀ h row, GetResourceRevision d' scope (md_ResourceID m) (md_Revision m) = Some row → he_Kind h = md_Kind m →
    row_opens h row ∧ ∀ r, open_row row = Ok r → describes m r) →
  Stored scope e m plain refs deleted d d' → CatalogWf None d'.
Proof.
  intros [W1 W2 W3 W4 W5] Hnew Hkind Hopen HS.
  destruct (Stored_later _ _ _ _ _ _ _ HS) as [L1 L2 L3 L4 L5 _ _].
  pose proof HS as [_ _ (h & (Hh & Hhs)%GetResourceIndex_Some & Hrev & _ & _ & _ & _ & Eh)
    (draw & env & w & dg & _ & _ & _ & Hpos & _ & _ & Er & Ew) [R1 R2 R3 R4] T].
  set (id0 := md_ResourceID m) in *. set (n := md_Revision m) in *.
  assert (Hrow0 : ∃ row0, GetResourceRevision d' scope id0 n = Some row0 ∧
    re_SecurityEpoch (rr_Row row0) = md_SecurityEpoch m).
  { eexists. split; [apply GetResourceRevision_Some; rewrite Er, Ew; do 2 eexists; split_and!; try apply lookup_insert_eq; done|done]. }
  destruct Hrow0 as (row0 & Hrow0 & Hep0).
  assert (Htag : ∀ id, tags_of id d' = tags_of id (with_tags d (dc_tags d ∖ tags_of id0 d ∪ tag_set id0 (md_Tags m))))
    by (intros id; unfold tags_of; by rewrite T).
  assert (Hafter : ∀ deleted, he_Kind (head_after h m deleted) = md_Kind m) by (intros ?; exact (Hkind _ Hh)).
  split.
  - intros id h' Hh'. rewrite L1. rewrite Eh, lookup_insert in Hh'. case_decide as E; [|by eapply W1].
    injection Hh' as <-. simpl. by apply (W1 id0).
  - intros id h' Hh'. rewrite Eh, lookup_insert in Hh'. case_decide as E.
    + injection Hh' as <-. subst id. simpl. exists row0. rewrite Hhs. split_and!; [done|done|].
      intros r' (D1 & D2 & D3 & D4 & D5)%(proj2 (Hopen _ _ Hrow0 (Hafter None))).
      unfold indexed. simpl. rewrite Htag, tags_of_same. split_and!; [rewrite D1; by apply Hkind|by symmetry..].
    + specialize (W2 _ _ Hh'). destruct (he_Revision h') as [k|].
      * destruct W2 as (row & Hr & He & Hi). exists row. split; [by eapply GetResourceRevision_kept|]. split; [done|].
        intros r' (H1 & H2 & H3 & H4 & H5)%Hi. split_and!; try done. rewrite Htag, tags_of_other; done.
      * destruct Hnew as [-> | ->]; [done|]. congruence.
  - intros id k Hk. rewrite Er in Hk. destruct (decide ((id0, n) = (id, k))) as [[= <- <-]|Hne].
    + eexists _, n, row0. rewrite Eh, lookup_insert_eq. split_and!; [done|done|lia|lia|simpl; by rewrite Hhs|].
      by apply Hopen.
    + rewrite lookup_insert_ne in Hk by done. destruct (W3 _ _ Hk) as (h' & k' & row & Hh' & Hk' & Hb & Hr' & Ho').
      destruct (L4 _ _ Hh') as (h'' & Hh'' & [Hsame Hle _ _ _] & _).
      rewrite Eh, lookup_insert in Hh''. rewrite Eh. case_decide as E.
      * injection Hh'' as <-. subst id. eexists _, n, row. rewrite lookup_insert_eq. split_and!; [done|done|lia| | |].
        { rewrite Hk' in Hle. simpl in Hle. lia. }
        { simpl. assert (h' = h) as -> by congruence. by eapply GetResourceRevision_kept. }
        assert (h' = h) as -> by congruence. exact Ho'.
      * exists h', k', row. rewrite lookup_insert_ne by done.
        split_and!; try done; [lia|lia|]. by eapply GetResourceRevision_kept.
  - intros id h' k j Hh' Hk Hj. rewrite Eh, lookup_insert in Hh'. rewrite Er. case_decide as E.
    + injection Hh' as <-. simpl in Hk. injection Hk as <-. subst id.
      destruct (decide (j = n)) as [-> |Hne]; [rewrite lookup_insert_eq; by eexists|].
      rewrite lookup_insert_ne by congruence. destruct (he_Revision h) as [k'|] eqn:E'; simpl in Hrev; [|lia].
      eapply W4; [exact Hh|exact E'|lia].
    + rewrite lookup_insert_ne by congruence. by eapply W4.
  - intros id k path row Hrow. destruct (dc_refs d !! (id, k, path)) as [row'|] eqn:E.
    + assert (row' = row) as -> by (eapply lookup_weaken in E; [|exact R1]; congruence).
      destruct (W5 _ _ _ _ E) as [Hk (h' & Hh' & Hsc & Hki)]. split.
      { destruct Hk as [rv Hk]. exists rv. eapply lookup_weaken; [exact Hk|apply L2]. }
      destruct (L4 _ _ Hh') as (h'' & Hh'' & [(A & B & _) _ _ _ _] & _). exists h''. split_and!; congruence.
    + destruct (R3 _ _ Hrow E) as (ref & Hin & [= -> -> ->] & ->). split; [rewrite Er, lookup_insert_eq; by eexists|].
      destruct (R4 _ Hin) as (h' & (Hh' & Hsc)%GetResourceIndex_Some & Hki).
      destruct (L4 _ _ Hh') as (h'' & Hh'' & [(A & B & _) _ _ _ _] & _). exists h''. simpl. split_and!; congruence.
Qed.

Lemma Stored_wf new e r plain refs deleted d d' :
  CatalogWf new d → new = None ∨ new = Some (rid r) →
  DecodeResource plain = Some (sort_tags r) → md_SchemaVersion (r_Metadata r) = SchemaVersion →
  md_ScopeID (r_Metadata r) = scope →
  typedCatalogKind (md_Kind (r_Metadata r)) = true →
  (∀ h, dc_heads d !! rid r = Some h → he_Kind h = md_Kind (r_Metadata r)) →
  Stored scope e (r_Metadata r) plain refs deleted d d' → CatalogWf None d'.
Proof.
  intros W Hnew Hdec Hv Hs Htyped Hkind HS.
  destruct (Stored_opens _ _ _ _ _ _ _ Hdec Hv Hs HS) as (row0 & Hrow0 & Hopen). unfold rid in *.
  apply (Stored_wf_row new e (r_Metadata r) plain refs deleted d d' W Hnew Hkind); [|done].
  intros h row Hrow Hk. assert (row = row0) as -> by congruence. split.
  - unfold row_opens. rewrite Hk, Htyped. by eexists.
  - intros r' Hr'. assert (r' = sort_tags r) as -> by congruence. unfold describes. simpl.
    by rewrite tag_set_sorted.
Qed.

Lemma InsertResource_Ok now id kind name enabled d d' :
  InsertResource now id scope kind name enabled d = Ok d' →
  dc_heads d !! id = None ∧ is_Some (dc_scopes d !! scope) ∧
  d' = with_heads d (<[id := {| he_ScopeID := scope; he_Kind := kind; he_Name := name;
        he_Revision := None; he_Enabled := enabled; he_SecurityEpoch := 1; he_CreatedAt := now;
        he_DeletedAt := None |}]> (dc_heads d)).
Proof.
  unfold InsertResource. destruct (require (text_ok _) _); [|done]. destruct (require (_ && _) _); [|done].
  destruct (require (negb _) _) eqn:E1; [|done]. apply require_Ok, negb_true_iff, bool_decide_eq_false, eq_None_not_Some in E1.
  destruct (require (bool_decide _) _) eqn:E2; [|done]. apply require_Ok, bool_decide_eq_true in E2.
  by intros [= <-].
Qed.

Lemma InsertResource_wf now id kind name enabled d d' :
  CatalogWf None d → InsertResource now id scope kind name enabled d = Ok d' →
  CatalogWf (Some id) d' ∧ Later scope d d' ∧ (∀ h, dc_heads d' !! id = Some h → he_Kind h = kind).
Proof.
  intros [W1 W2 W3 W4 W5] (Hn & Hsc & ->)%InsertResource_Ok. split_and!; [split|split|]; simpl; try done.
  - intros i h. rewrite lookup_insert. case_decide; [by intros [= <-]|apply W1].
  - intros i h. rewrite lookup_insert. case_decide; [intros [= <-]; by subst|].
    intros Hh. specialize (W2 _ _ Hh). by destruct (he_Revision h).
  - intros i n Hi. destruct (W3 _ _ Hi) as (h & k & r & Hh & ?). exists h, k, r.
    rewrite lookup_insert_ne; [done|]. intros ->. congruence.
  - intros i h k n. rewrite lookup_insert. case_decide; [by intros [= <-]|]. apply W4.
  - intros i n path row Hr. destruct (W5 _ _ _ _ Hr) as [Hi (h & Hh & ?)]. split; [done|]. exists h.
    rewrite lookup_insert_ne; [done|]. intros ->. congruence.
  - intros i h Hh. exists h. rewrite lookup_insert_ne; [|intros ->; congruence].
    by split_and!; [|apply HeadLater_refl|].
  - intros i h. rewrite lookup_insert. case_decide; [by intros [= <-]|congruence].
  - by exists [].
  - intros h. rewrite lookup_insert_eq. by intros [= <-].
Qed.
End Step.
End Invariant.

(** ** Every operation of a transaction *)

(** The schema fixes the version of a resource. *)
Definition SchemaVersionFixed `{P : Platform} : Prop :=
  ∀ r, Resource_Validate r = None → md_SchemaVersion (r_Metadata r) = SchemaVersion.

Section Operations.
Context {P : Platform} {C : Codec} {V : Vault Bytes} {Side : Type}.
Context {VL : VaultLaws Bytes} (Hcodec : CodecRoundTrip) (Hschema : SchemaVersionFixed).
Context (scope : ID).
Abbreviation DB := (CatalogDB (Side:=Side)).
Implicit Types (e : CEnv) (s t : CSt (Side:=Side)) (d : DB).

Lemma sort_tags_twice r : sort_tags (sort_tags r) = sort_tags r.
Proof.
  unfold sort_tags. simpl. do 2 f_equal. apply isort_id, isort_sorted. apply go_leb_order.
Qed.

(** The state after an operation stored [r] as the current revision of its resource. *)
Record Written e (r : Resource) (deleted : bool) s t : Prop := {
  wr_wf : CatalogWf None (cs_db t);
  wr_later : Later scope (cs_db s) (cs_db t);
  wr_readable : revision_of (cs_db t) scope (rid r) (md_Revision (r_Metadata r)) r;
  wr_head : ∃ h, dc_heads (cs_db t) !! rid r = Some h ∧ he_ScopeID h = scope ∧
    he_Revision h = Some (md_Revision (r_Metadata r)) ∧
    he_DeletedAt h = (if deleted then Some (ce_now e) else None);
  wr_others : ∀ id, id ≠ rid r → dc_heads (cs_db t) !! id = dc_heads (cs_db s) !! id;
  wr_audit : dc_audit (cs_db t) = dc_audit (cs_db s);
  wr_latch : cs_active s = true ∧ cs_failed s = None ∧
    cs_active t = true ∧ cs_failed t = None ∧ cs_dirty t = true;
  wr_commit : cs_aborted t = cs_aborted s ∧ cs_claims t = cs_claims s ∧
    ∀ id, id ∈ cs_touched t → id = rid r ∨ id ∈ cs_touched s }.

Lemma mutate_Ok {A} (fn : CTx A) e s a t :
  mutate fn e s = (Ok a, t) → cs_active s = true ∧ cs_failed s = None ∧
  ∃ u, fn e s = (Ok a, u) ∧ t = set_latch u (cs_active u) true (cs_failed u).
Proof.
  unfold mutate. destruct (cs_active s); [|done]. destruct (cs_failed s); [done|]. simpl.
  destruct (fn e s) as [[a'|err] u]; [|done]. intros [= -> <-]. eauto.
Qed.

Lemma Resource_Validate_kind r : Resource_Validate r = None → typedCatalogKind (md_Kind (r_Metadata r)) = true.
Proof.
  unfold Resource_Validate.
  destruct (r_Payload r); try done;
    match goal with |- context [negb (?a =s ?k)] => destruct (String.eqb_spec a k) as [-> |]; [done|] end; done.
Qed.

Lemma persist_Ok r refs deleted e s u t :
  persist scope r refs deleted e s = (Ok u, t) →
  ∃ plain, typedCatalogKind (md_Kind (r_Metadata r)) = true ∧ DecodeResource plain = Some (sort_tags r) ∧
    md_SchemaVersion (r_Metadata r) = SchemaVersion ∧
    Stored scope e (r_Metadata r) plain refs deleted (cs_db s) (cs_db t) ∧
    cs_aborted t = cs_aborted s ∧ cs_touched t = rid r :: cs_touched s ∧ cs_claims t = cs_claims s ∧
    cs_active t = cs_active s ∧ cs_dirty t = cs_dirty s ∧ cs_failed t = cs_failed s.
Proof.
  unfold persist. intros (plain & s1 & [E ->]%returning_Ok & H)%bind_Ok.
  destruct (Canonical r) as [p|] eqn:Ec; [|done]. injection E as ->.
  apply (Canonical_Ok_inv _ _ Hcodec) in Ec as [Ha Hd]. apply persistPlain_Ok in H as (H & Hr).
  exists plain. split_and!; try done; try apply Hr; [|apply (Hschema (sort_tags r)), Ha].
  apply (Resource_Validate_kind (sort_tags r)), Ha.
Qed.

Lemma stored_head e m plain refs deleted d d' :
  Stored scope e m plain refs deleted d d' →
  (∃ h, dc_heads d' !! md_ResourceID m = Some h ∧ he_ScopeID h = scope ∧
    he_Revision h = Some (md_Revision m) ∧ he_DeletedAt h = (if deleted then Some (ce_now e) else None)) ∧
  (∀ id, id ≠ md_ResourceID m → dc_heads d' !! id = dc_heads d !! id).
Proof.
  intros [_ _ (h & (Hh & Hs)%GetResourceIndex_Some & _ & _ & _ & _ & _ & Eh) _ _ _]. rewrite Eh. split.
  - eexists. rewrite lookup_insert_eq. split; [done|]. by split_and!.
  - intros id Hne. by rewrite lookup_insert_ne.
Qed.

Lemma New_fields fresh input r :
  Catalog.New fresh scope input = Ok r →
  sort_tags r = r ∧ md_ScopeID (r_Metadata r) = scope ∧ md_Revision (r_Metadata r) = 1.
Proof.
  intros H. unfold Catalog.New in H.
  destruct (ci_Payload input); try done; (destruct fresh as [id|]; [|done]);
    apply (clone_Ok _ _ Hcodec) in H as [_ ->]; (split; [apply sort_tags_twice|done]).
Qed.

Lemma Create_Ok input e s r t :
  CatalogWf None (cs_db s) → Create scope input e s = (Ok r, t) →
  Written e r false s t ∧ dc_heads (cs_db s) !! rid r = None ∧ md_Revision (r_Metadata r) = 1 ∧
  ∃ fresh, Catalog.New fresh scope input = Ok r.
Proof.
  intros W (Ha & Hf & u & H & ->)%mutate_Ok.
  apply bind_Ok in H as ([] & s1 & [_ ->]%throw_if_Ok & H).
  apply bind_Ok in H as (fresh & s2 & [= <- <-] & H).
  apply bind_Ok in H as (r' & s3 & [Hnew ->]%lift_catalog_Ok & H).
  apply bind_Ok in H as ([] & s4 & R1%reads_checkOperationalLimits & H).
  apply bind_Ok in H as ([] & s5 & R2%reads_checkPolicyMembers & H).
  apply bind_Ok in H as ([] & s6 & R3%reads_checkRoutingReferences & H).
  apply bind_Ok in H as ([] & s7 & R4%reads_checkDNSReferences & H).
  apply bind_Ok in H as (refs & s8 & R5%reads_resourceReferences & H).
  apply bind_Ok in H as ([] & s9 & R6%reads_lockAndCheckRefs & H).
  assert (R : same_tables s s9).
  { repeat (eapply same_tables_trans; [|eassumption]). by split_and!. }
  clear R1 R2 R3 R4 R5 R6. destruct R as (Rd & Rab & Rt & Rc & Ract & Rdirty & Rf).
  apply bind_Ok in H as ([] & s10 & H10 & H).
  apply bind_Ok in H as ([] & s11 & H11 & [-> ->]%ret_Ok).
  unfold insert_resource in H10. apply bind_Ok in H10 as ([] & s12 & (d1 & E1 & -> & _)%exec_Ok & [= <-]).
  rewrite Rd in E1. pose proof E1 as (Hfree & _ & Ed1)%InsertResource_Ok.
  apply (InsertResource_wf _ _ _ _ _ _ _ _ W) in E1 as (W1 & L1 & K1).
  apply persist_Ok in H11 as (plain & Had & Hdec & Hv & HS & F1 & F2 & F3 & F4 & F5 & F6). simpl in *.
  destruct (New_fields _ _ _ Hnew) as (Hr & Hm1 & Hm2).
  destruct (stored_head _ _ _ _ _ _ _ HS) as [Hh Ho].
  assert (Hlater := Stored_later _ _ _ _ _ _ _ _ HS).
  split; [|split_and!; [exact Hfree|done|by eexists]]. split; simpl.
  - apply (Stored_wf scope (Some (rid r')) e r' plain refs false d1); [exact W1|by right|done..|exact HS].
  - by eapply Later_trans.
  - rewrite <-Hr at 3. by eapply Stored_opens.
  - exact Hh.
  - intros id Hne. rewrite Ho by done. rewrite Ed1. simpl. by rewrite lookup_insert_ne.
  - destruct HS as [_ (-> & _) _ _ _ _]. by rewrite Ed1.
  - rewrite F4, F6. split_and!; congruence.
  - split_and!; [congruence..|]. intros id. rewrite F2, Rt, !elem_of_cons. unfold rid. naive_solver.
Qed.

Lemma GetResourceHead_Some d id row :
  GetResourceHead d scope id = Some row ↔
  ∃ h n, dc_heads d !! id = Some h ∧ he_ScopeID h = scope ∧ he_Revision h = Some n ∧
    he_DeletedAt h = None ∧ GetResourceRevision d scope id n = Some row.
Proof.
  unfold GetResourceHead. destruct (GetResourceIndex d scope id) as [h|] eqn:E.
  - apply GetResourceIndex_Some in E as [Hh Hs]. destruct (he_Revision h) eqn:E1, (he_DeletedAt h) eqn:E2; naive_solver.
  - split; [done|]. intros (h & n & Hh & Hs & _).
    assert (GetResourceIndex d scope id = Some h) by by apply GetResourceIndex_Some. congruence.
Qed.

(** The common part of updates, deletions and revocations. *)
Lemma change_Ok id expected deleted apply b e s next t :
  CatalogWf None (cs_db s) → (∀ old, reads (apply old)) →
  (∀ old e s next t, apply old e s = (Ok next, t) → CatalogFacts.step old (b old next) next) →
  change scope id expected deleted apply e s = (Ok next, t) →
  Written e next deleted s t ∧ rid next = id ∧ md_Revision (r_Metadata next) = expected + 1 ∧
  ∃ old h, dc_heads (cs_db s) !! id = Some h ∧ he_ScopeID h = scope ∧ he_Revision h = Some expected ∧
    he_DeletedAt h = None ∧ revision_of (cs_db s) scope id expected old ∧
    ∃ u, apply old e s = (Ok next, u).
Proof.
  intros W Hreads Hstep (Ha & Hf & u & H & ->)%mutate_Ok.
  apply bind_Ok in H as ([] & s1 & [_ ->]%throw_if_Ok & H).
  apply bind_Ok in H as (o & s2 & [-> ->]%query_Ok & H).
  apply bind_Ok in H as (row & s3 & [Hrow ->]%one_Ok & H).
  apply bind_Ok in H as ([] & s4 & [Hexp ->]%throw_if_Ok & H).
  apply bind_Ok in H as (old & s5 & [Hopen ->]%returning_Ok & H).
  apply bind_Ok in H as (next' & s6 & Happ & H). pose proof Happ as R1%Hreads.
  apply bind_Ok in H as (refs & s7 & R2%reads_resourceReferences & H).
  apply bind_Ok in H as (refs' & s8 & R3%reads_resourceReferences & H).
  apply bind_Ok in H as ([] & s9 & R4%reads_lockAndCheckRefs & H).
  assert (R : same_tables s s9) by (by repeat (eapply same_tables_trans; [eassumption|])).
  clear R1 R2 R3 R4. destruct R as (Rd & Rab & Rt & Rc & Ract & Rdirty & Rf).
  apply bind_Ok in H as ([] & s10 & H10 & H).
  apply bind_Ok in H as ([] & s11 & H11 & [-> ->]%ret_Ok).
  assert (R11 : same_tables s10 s11).
  { eapply (reads_if _ (add_nodes (-1)) (mret ())); [apply reads_add_nodes|apply reads_ret|exact H11]. }
  destruct R11 as (Td & Tab & Tt & Tc & Tact & Tdirty & Tf).
  apply GetResourceHead_Some in Hrow as (h & n & Hh & Hhs & Hhn & Hhd & Hrow).
  pose proof Hrow as (rv & w & Hrv & _ & _ & _ & ->)%GetResourceRevision_Some. simpl in Hexp.
  apply negb_false_iff, Z.eqb_eq in Hexp as ->.
  assert (Hold : revision_of (cs_db s) scope id expected old) by (eexists; done).
  destruct (revision_of_metadata _ _ _ _ _ Hold) as (M1 & M2 & M3 & _).
  pose proof Happ as St%Hstep. destruct (step_metadata _ _ _ Hcodec St) as (N1 & N2 & N3 & N4 & _).
  apply persist_Ok in H10 as (plain & Had & Hdec & Hv & HS & F1 & F2 & F3 & F4 & F5 & F6).
  rewrite Rd in HS. rewrite <-Td in HS.
  destruct (stored_head _ _ _ _ _ _ _ HS) as [Hh' Ho].
  assert (Hr : sort_tags next' = next').
  { inversion St as [? input ? E|? ? E|? ? E]; subst.
    - apply (Apply_Ok _ _ _ Hcodec) in E as (_ & _ & _ & _ & _ & _ & ->). apply sort_tags_twice.
    - apply (invalidate_Ok _ _ _ Hcodec) in E as (_ & _ & _ & _ & ->). unfold sort_tags, with_invalidation. simpl.
      do 2 f_equal. apply isort_id, isort_sorted. apply go_leb_order.
    - apply (invalidate_Ok _ _ _ Hcodec) in E as (_ & _ & _ & _ & ->). unfold sort_tags, with_invalidation. simpl.
      do 2 f_equal. apply isort_id, isort_sorted. apply go_leb_order. }
  assert (Hid : rid next' = id) by congruence.
  split; [|split_and!; [done|lia|]].
  2:{ exists old, h. split_and!; try done. by eexists. }
  split; simpl.
  - apply (Stored_wf scope None e next' plain refs deleted (cs_db s)); [exact W|by left|done|done|congruence|done| |exact HS].
    rewrite Hid. intros h0 Hh0.
    assert (h0 = h) as -> by congruence. assert (Hw := cw_head _ _ W _ _ Hh). rewrite Hhn, Hhs in Hw.
    destruct Hw as (row' & Hrow' & _ & Hi). rewrite Hrow in Hrow'. injection Hrow' as <-.
    destruct (Hi old Hopen) as (Hk & _). congruence.
  - by eapply Stored_later.
  - rewrite <-Hr at 3. eapply Stored_opens; try done. congruence.
  - exact Hh'.
  - exact Ho.
  - by destruct HS as [_ (-> & _) _ _ _ _].
  - split_and!; congruence.
  - split_and!; [congruence..|]. intros i. rewrite Tt, F2, Rt, !elem_of_cons. unfold rid. naive_solver.
Qed.
End Operations.

(** ** Callbacks *)

(** A callback of a transaction: calls of the transaction's methods, each chosen after
    seeing what the earlier ones returned, and a result of its own. *)
Inductive op :=
| Op_Create (input : CreateInput)
| Op_Update (id : ID) (expected : Z) (input : UpdateInput)
| Op_Delete (id : ID) (expected : Z)
| Op_Revoke (id : ID) (expected : Z)
| Op_Head (id : ID)
| Op_Probe (id : ID)
| Op_Audit (a : MutationAudit).
Inductive callback (A : Type) :=
| Finish (r : result failure A)
| Then (o : op) (k : result failure (option Resource) → callback A).
Arguments Finish {A} r.
Arguments Then {A} o k.

Section Callbacks.
Context {P : Platform} {C : Codec} {V : Vault Bytes} {Side : Type}.
Context {VL : VaultLaws Bytes} (Hcodec : CodecRoundTrip) (Hschema : SchemaVersionFixed).
Context (scope : ID).
Abbreviation DB := (CatalogDB (Side:=Side)).
Implicit Types (e : CEnv) (s t : CSt (Side:=Side)) (d : DB).

Definition run_op (o : op) : CTx (Side:=Side) (option Resource) :=
  match o with
  | Op_Create input => r ← Create scope input; mret (Some r)
  | Op_Update id n input => r ← Update scope id n input; mret (Some r)
  | Op_Delete id n => r ← TxDelete scope id n; mret (Some r)
  | Op_Revoke id n => r ← TxRevoke scope id n; mret (Some r)
  | Op_Head id => r ← TxHead scope id; mret (Some r)
  | Op_Probe id => r ← TxProbe scope id; mret (Some r)
  | Op_Audit a => _ ← TxAudit scope a; mret None
  end.
Fixpoint run_callback {A} (cb : callback A) : CTx (Side:=Side) A :=
  match cb with
  | Finish r => returning r
  | Then o k => λ e s, let '(r, t) := run_op o e s in run_callback (k r) e t
  end.

(** Whether a call fails that the transaction must not survive. *)
Definition fatal (o : op) : bool := match o with Op_Probe _ => false | _ => true end.
Fixpoint some_failed {A} (cb : callback A) e s : bool :=
  match cb with
  | Finish _ => false
  | Then o k =>
      let '(r, t) := run_op o e s in
      (fatal o && negb (is_ok r)) || some_failed (k r) e t
  end.

(** *** The latch *)

Lemma bind_some {A} (m : CTx (Side:=Side) A) (f : A → option Resource) e s r t :
  (a ← m; mret (f a)) e s = (r, t) →
  ∃ r', m e s = (r', t) ∧ r = match r' with Ok a => Ok (f a) | Err err => Err err end.
Proof. unfold mbind, CTx_bind. destruct (m e s) as [[a|err] u]; intros [= <- <-]; eauto. Qed.

Lemma mutate_latches {A} (fn : CTx (Side:=Side) A) e s err t :
  cs_active s = true → mutate fn e s = (Err err, t) → cs_failed t ≠ None.
Proof.
  intros Ha. unfold mutate. rewrite Ha. simpl. destruct (cs_failed s) eqn:E; [intros [= _ <-]; congruence|].
  destruct (fn e s) as [[a|err'] u]; [done|]. by intros [= _ <-].
Qed.

Lemma mutate_sticky {A} (fn : CTx (Side:=Side) A) e s r t f :
  cs_failed s = Some f → mutate fn e s = (r, t) → t = s.
Proof. intros Hf. unfold mutate. destruct (cs_active s); simpl; [rewrite Hf|]; by intros [= _ <-]. Qed.

Lemma readHead_sticky id b e s r t f :
  cs_failed s = Some f → readHead scope id b e s = (r, t) → t = s.
Proof. intros Hf. unfold readHead. destruct (cs_active s); simpl; [rewrite Hf|]; by intros [= _ <-]. Qed.

Lemma TxAudit_sticky a e s r t f :
  cs_failed s = Some f → TxAudit scope a e s = (r, t) → t = s.
Proof. intros Hf. unfold TxAudit. destruct (cs_active s); simpl; [rewrite Hf|]; by intros [= _ <-]. Qed.

Lemma run_op_sticky o e s r t f : cs_failed s = Some f → run_op o e s = (r, t) → t = s.
Proof.
  intros Hf H. destruct o; apply bind_some in H as (r' & H & _);
    first [exact (mutate_sticky _ _ _ _ _ _ Hf H)|exact (readHead_sticky _ _ _ _ _ _ _ Hf H)
          |exact (TxAudit_sticky _ _ _ _ _ _ Hf H)].
Qed.

Lemma run_callback_sticky {A} (cb : callback A) e s r t f :
  cs_failed s = Some f → run_callback cb e s = (r, t) → cs_failed t = Some f.
Proof.
  intros Hf. revert s Hf. induction cb as [r'|o k IH]; intros s Hf; simpl.
  - by intros [= _ <-].
  - destruct (run_op o e s) as [r' u] eqn:E. apply (run_op_sticky _ _ _ _ _ _ Hf) in E as ->. by apply IH.
Qed.

(** A call returns a result without touching anything, or it latches, or it succeeded. *)
Lemma readHead_outcome id b e s r t :
  cs_active s = true → readHead scope id b e s = (r, t) → cs_failed t = None →
  t = s ∧ (b = true → is_ok r = true).
Proof.
  intros Ha. unfold readHead. rewrite Ha. simpl. destruct (cs_failed s) eqn:Ef; [intros [= <- <-]; congruence|].
  assert (Hf : ∀ (err : failure),
    (if b || negb (missing_or_invalid (catalogError err))
     then (Err (catalogError err), set_latch s true (cs_dirty s) (Some (catalogError err)))
     else (Err (catalogError err), s)) = (r, t) → cs_failed t = None → t = s ∧ (b = true → is_ok r = true)).
  { intros err. destruct b; simpl; [intros [= <- <-]; done|].
    destruct (negb _); intros [= <- <-]; [done|]. by intros _. }
  destruct (negb (valid_id id)); [intros [= <- <-]; done|].
  destruct (cs_aborted s); [apply (Hf (PgError in_failed_transaction))|].
  destruct (GetResourceIndex (cs_db s) scope id) as [index|]; [|apply (Hf NoRows)].
  destruct (_ || _); [apply (Hf (Sentinel ErrNotFound))|].
  destruct (opened _ _) as [res|err]; [|apply (Hf err)].
  intros [= <- <-] _. done.
Qed.

Lemma TxAudit_outcome a e s r t :
  cs_active s = true → TxAudit scope a e s = (r, t) → cs_failed t = None →
  r = Ok () ∧ cs_failed s = None ∧ cs_active t = true ∧ cs_dirty t = cs_dirty s ∧ cs_aborted t = cs_aborted s ∧
  cs_touched t = cs_touched s ∧ cs_claims t = cs_claims s ∧
  ∃ event, cs_db t = with_audit (cs_db s) (event :: dc_audit (cs_db s)).
Proof.
  intros Ha. unfold TxAudit. rewrite Ha. simpl. destruct (cs_failed s) eqn:Ef; [intros [= <- <-]; congruence|].
  destruct (negb _); [intros [= <- <-]; done|]. destruct (ce_audit_id e (cs_ids s)); [|intros [= <- <-]; done].
  destruct (exec _ e _) as [[[]|err] u] eqn:E; [|intros [= <- <-]; done].
  apply exec_Ok in E as (d' & E & -> & Hab). simpl in E. intros [= <- <-] _. simpl. split_and!; try done.
  unfold InsertResourceAudit in E. repeat (destruct (require _ _); [|done]). injection E as <-. by eexists.
Qed.

(** A fatal call that fails leaves the latch set. *)
Lemma run_op_latches o e s r t :
  cs_active s = true → run_op o e s = (r, t) → fatal o = true → is_ok r = false → cs_failed t ≠ None.
Proof.
  intros Ha H Hfatal Hr Hn. destruct o; apply bind_some in H as (r' & H & ->); try done;
    destruct r' as [a'|err]; try done; first
    [ by apply mutate_latches in H
    | by apply readHead_outcome in H as [_ H]; [discriminate (H eq_refl)|..]
    | by apply TxAudit_outcome in H as [? _] ].
Qed.

(** *** What a transaction maintains *)

(** Between the start [d0] and the current state of a transaction that was not latched. *)
Record TxInv (claims : list ReceiptKey) d0 s : Prop := {
  ti_wf : CatalogWf None (cs_db s);
  ti_later : Later scope d0 (cs_db s);
  ti_active : cs_active s = true;
  ti_aborted : cs_aborted s = false;
  ti_claims : cs_claims s = claims;
  ti_touched : ∀ id, id ∈ cs_touched s → ∃ h, dc_heads (cs_db s) !! id = Some h ∧ he_ScopeID h = scope;
  ti_dirty : cs_dirty s = true ↔ dc_heads (cs_db s) ≠ dc_heads d0;
  ti_quiet : cs_dirty s = false → cs_touched s = [] ∧ dc_revisions (cs_db s) = dc_revisions d0 ∧
    dc_wrappings (cs_db s) = dc_wrappings d0 ∧ dc_refs (cs_db s) = dc_refs d0 ∧ dc_tags (cs_db s) = dc_tags d0 }.

Lemma TxInv_start d : CatalogWf None d → TxInv [] d (begin_tx d).
Proof.
  intros W. split; simpl; try done; [apply Later_refl|intros id Hid; by apply elem_of_nil in Hid].
Qed.

Lemma TxInv_written c0 d0 e r deleted s t (old : option HeadRow) :
  TxInv c0 d0 s → dc_heads (cs_db s) !! rid r = old →
  md_Revision (r_Metadata r) = default 0 (old ≫= he_Revision) + 1 →
  Written scope e r deleted s t → TxInv c0 d0 t.
Proof.
  intros [T1 T2 T3 T4 T5 T6 T7 T8] Hold Hrev [W1 W2 W3 (h' & Hh' & Hs & Hn & Hd) W5 W6 (_ & _ & L1 & L2 & L3) (B1 & B2 & B3)].
  assert (T2' : Later scope d0 (cs_db t)) by by eapply Later_trans.
  split; try done; try congruence.
  - intros id [-> |Hid]%B3; [by exists h'|]. destruct (T6 _ Hid) as (h & Hh & Hsc).
    destruct (lt_heads _ _ _ W2 _ _ Hh) as (h2 & Hh2 & [(E & _) _ _ _ _] & _). exists h2. split; [done|congruence].
  - rewrite L3. split; [intros _ E|done]. rewrite E in Hh'.
    destruct (lt_heads _ _ _ T2 _ _ Hh') as (h2 & Hh2 & [_ Hle _ _ _] & _).
    rewrite Hold in Hh2. rewrite Hh2 in Hrev. simpl in Hrev. rewrite Hn in Hle. simpl in Hle. lia.
Qed.

Lemma Later_audit d event : Later scope d (with_audit d (event :: dc_audit d)).
Proof.
  split; simpl; try done; [intros id h Hh; exists h; by split_and!; [|apply HeadLater_refl|]|congruence|by exists [event]].
Qed.

Lemma CatalogWf_audit new d events : CatalogWf new d → CatalogWf new (with_audit d events).
Proof. intros [W1 W2 W3 W4 W5]. by split. Qed.

Lemma change_inv c0 d0 id n deleted apply b e s next t :
  TxInv c0 d0 s → (∀ old, reads (apply old)) →
  (∀ old e s next t, apply old e s = (Ok next, t) → CatalogFacts.step old (b old next) next) →
  change scope id n deleted apply e s = (Ok next, t) → TxInv c0 d0 t.
Proof.
  intros T Hreads Hstep H.
  apply (change_Ok Hcodec Hschema _ _ _ _ _ b) in H as (HW & Hid & Hrev & old & h & Hh & _ & Hn & _);
    [|apply T|done..].
  eapply TxInv_written; [exact T|rewrite Hid; exact Hh| |exact HW]. simpl. rewrite Hn. simpl. lia.
Qed.

Lemma Update_step old input e s next t :
  (next ← lift_catalog (Side:=Side) (Apply old input);
   _ ← checkOperationalLimits scope next false; _ ← checkPolicyMembers scope next;
   _ ← checkRoutingReferences scope next; _ ← checkDNSReferences scope next; mret next) e s = (Ok next, t) →
  Apply old input = Ok next.
Proof.
  intros (next' & s1 & [HA ->]%lift_catalog_Ok & H)%bind_Ok.
  apply bind_Ok in H as (? & ? & _ & H). apply bind_Ok in H as (? & ? & _ & H).
  apply bind_Ok in H as (? & ? & _ & H). apply bind_Ok in H as (? & ? & _ & H).
  by apply ret_Ok in H as [-> _].
Qed.

Lemma reads_lift_catalog {A} (r : result catalog_error A) : reads (Side:=Side) (lift_catalog r).
Proof. apply reads_returning. Qed.

Lemma reads_update old input : reads (Side:=Side)
  (next ← lift_catalog (Apply old input);
   _ ← checkOperationalLimits scope next false; _ ← checkPolicyMembers scope next;
   _ ← checkRoutingReferences scope next; _ ← checkDNSReferences scope next; mret next).
Proof. apply reads_bind; [apply reads_lift_catalog|]. intros next. auto 10 with reads. Qed.

Lemma run_op_inv c0 d0 o e s r t :
  TxInv c0 d0 s → run_op o e s = (r, t) → cs_failed t = None → TxInv c0 d0 t.
Proof.
  intros T H Hf. pose proof (ti_active _ _ _ T) as Ha.
  destruct o as [input|id n input|id n|id n|id|id|a]; apply bind_some in H as (r' & H & _).
  - destruct r' as [res|err]; [|by apply mutate_latches in H].
    apply (Create_Ok Hcodec Hschema) in H as (HW & Hn & Hrev & _); [|apply T].
    eapply TxInv_written; [exact T|exact Hn| |exact HW]. simpl. lia.
  - destruct r' as [res|err]; [|by apply mutate_latches in H].
    eapply (change_inv _ _ _ _ _ _ (λ old _, bumps old input)); [exact T|apply (λ old, reads_update old input)| |exact H].
    intros old e' s' next t' E%Update_step. by constructor.
  - destruct r' as [res|err]; [|by apply mutate_latches in H].
    eapply (change_inv _ _ _ _ _ _ (λ _ _, true)); [exact T|intros; apply reads_lift_catalog| |exact H].
    intros old e' s' next t' [E _]%lift_catalog_Ok. by apply step_delete.
  - destruct r' as [res|err]; [|by apply mutate_latches in H].
    eapply (change_inv _ _ _ _ _ _ (λ _ _, true)); [exact T|intros; apply reads_lift_catalog| |exact H].
    intros old e' s' next t' [E _]%lift_catalog_Ok. by apply step_revoke.
  - by apply readHead_outcome in H as [-> _].
  - by apply readHead_outcome in H as [-> _].
  - apply TxAudit_outcome in H as (_ & _ & A1 & A2 & A3 & A4 & A5 & event & Ed); [|done..].
    destruct T as [T1 T2 T3 T4 T5 T6 T7 T8]. split; rewrite ?Ed, ?A2, ?A3, ?A4, ?A5; simpl; try done.
    + by apply CatalogWf_audit.
    + eapply Later_trans; [exact T2|apply Later_audit].
Qed.

Lemma run_callback_inv {A} c0 d0 (cb : callback A) e s r t :
  TxInv c0 d0 s → run_callback cb e s = (r, t) → cs_failed t = None → TxInv c0 d0 t ∧ some_failed cb e s = false.
Proof.
  revert s. induction cb as [r'|o k IH]; intros s T; simpl.
  { by intros [= _ <-] _. }
  destruct (run_op o e s) as [r' u] eqn:E. intros H Hf.
  assert (Hu : cs_failed u = None).
  { destruct (cs_failed u) eqn:Eu; [|done]. by eapply run_callback_sticky in H; [|exact Eu]; congruence. }
  destruct (IH r' u (run_op_inv _ _ _ _ _ _ _ T E Hu) H Hf) as [HT ->]. split; [done|].
  rewrite orb_false_r. destruct (fatal o) eqn:Efa; [|done]. destruct (is_ok r') eqn:Eo; [done|].
  by destruct (run_op_latches _ _ _ _ _ (ti_active _ _ _ T) E Efa Eo).
Qed.
End Callbacks.
