(* ===== verification/NodePatch.v ===== *)
(** Typed patches of a node ([apicontract/node.go]): secrets and optional strings that
    are absent, null or a value, and how a patch is applied to a node. *)
From S2P Require Import Prelude Diagnostics IRTypes IRValidate Catalog Network URLText ApiError.

(** * Fields that are absent, null or a value *)

Record SecretPatch := { se_present : bool; se_clear : bool; se_value : Secret }.
Definition no_secret : SecretPatch := {| se_present := false; se_clear := false; se_value := "" |}.
Definition ReplaceSecret (value : string) : SecretPatch :=
  {| se_present := true; se_clear := false; se_value := value |}.
Definition ClearSecret : SecretPatch :=
  {| se_present := true; se_clear := true; se_value := "" |}.
Definition SecretPatch_IsNull (s : SecretPatch) : bool := se_present s && se_clear s.
Definition SecretPatch_apply (s : SecretPatch) (old : Secret) : Secret :=
  if negb (se_present s) then old
  else if se_clear s then ""
  else se_value s.

Record OptionalStringPatch := { os_present : bool; os_clear : bool; os_value : string }.
Definition no_string : OptionalStringPatch :=
  {| os_present := false; os_clear := false; os_value := "" |}.
Definition ReplaceOptionalString (value : string) : OptionalStringPatch :=
  {| os_present := true; os_clear := false; os_value := value |}.
Definition ClearOptionalString : OptionalStringPatch :=
  {| os_present := true; os_clear := true; os_value := "" |}.
Definition OptionalStringPatch_IsNull (p : OptionalStringPatch) : bool := os_present p && os_clear p.
Definition OptionalStringPatch_apply (p : OptionalStringPatch) (old : option string)
    : option string :=
  if negb (os_present p) then old
  else if os_clear p then None
  else Some (os_value p).

(** * Patches *)

Record AuthPatch := {
  ap_Kind : string; ap_Method : option string; ap_Cipher : option string;
  ap_Password : SecretPatch; ap_UUID : SecretPatch; ap_Username : SecretPatch }.

(** [apicontract.Transport]. *)
Record TransportInput := {
  ti_Kind : string; ti_Path : option string; ti_Host : option string }.

Record SecurityPatch := {
  sc_Mode : string; sc_ServerName : option string; sc_VerifyCertificate : option bool;
  sc_ALPN : option (list string); sc_ClientFingerprint : OptionalStringPatch;
  sc_PublicKey : SecretPatch; sc_ShortID : SecretPatch }.

(** [NodePatch], by what its [Auth] and [Security] pointers are: values here, locations
    where the patches are shared (the overrides). *)
Record NodePatchOf {A S : Type} := {
  np_Protocol : option Protocol; np_Endpoint : option Endpoint; np_Auth : option A;
  np_Transport : option TransportInput; np_Security : option S; np_Features : option Features }.
Arguments NodePatchOf : clear implicits.
Definition NodePatch := NodePatchOf AuthPatch SecurityPatch.

Record NodePatchRequest := {
  nq_Name : option string; nq_Tags : option (list string); nq_Enabled : option bool;
  nq_Node : option NodePatch; nq_BindingRevision : option Z; nq_RestoreFields : list string;
  nq_OriginAction : string; nq_SourceItemID : ID }.

Inductive DTO :=
| DTO_NodePatch (p : NodePatch)
| DTO_NodePatchRequest (r : NodePatchRequest).

(** [ValidateDTO]: UTF-8, the JSON encoder and the OpenAPI schema. [marshalNode] and
    [DecodeNode] are the codec of a node. *)
Class Boundary := {
  ValidateDTO : string → DTO → option ApiError;
  NodeText : Type;
  marshalNode : Node → option NodeText;
  DecodeNode : NodeText → option Node }.

Section Apply.
Context {P : Platform} {F : ApiFields} {B : Boundary}.

Definition AuthPatch_apply (patch : AuthPatch) (old : Authentication) : Authentication :=
  if ap_Kind patch =s AuthNone then Auth_None {| na_Kind := AuthNone |}
  else if ap_Kind patch =s AuthPassword then
    let next := match old with
                | Auth_Password prior => prior
                | _ => {| pa_Kind := ap_Kind patch; pa_Password := "" |}
                end in
    Auth_Password {| pa_Kind := pa_Kind next;
                     pa_Password := SecretPatch_apply (ap_Password patch) (pa_Password next) |}
  else if ap_Kind patch =s AuthUUID then
    let next := match old with
                | Auth_UUID prior => prior
                | _ => {| ua_Kind := ap_Kind patch; ua_UUID := "" |}
                end in
    Auth_UUID {| ua_Kind := ua_Kind next;
                 ua_UUID := SecretPatch_apply (ap_UUID patch) (ua_UUID next) |}
  else if ap_Kind patch =s AuthVMessAEAD then
    let next := match old with
                | Auth_VMess prior => prior
                | _ => {| vma_Kind := ap_Kind patch; vma_UUID := ""; vma_Cipher := "" |}
                end in
    Auth_VMess {| vma_Kind := vma_Kind next;
                  vma_UUID := SecretPatch_apply (ap_UUID patch) (vma_UUID next);
                  vma_Cipher := from_option id (vma_Cipher next) (ap_Cipher patch) |}
  else if ap_Kind patch =s AuthMethodPassword then
    let next := match old with
                | Auth_MethodPassword prior => prior
                | _ => {| mpa_Kind := ap_Kind patch; mpa_Method := ""; mpa_Password := "" |}
                end in
    Auth_MethodPassword
      {| mpa_Kind := mpa_Kind next;
         mpa_Method := from_option id (mpa_Method next) (ap_Method patch);
         mpa_Password := SecretPatch_apply (ap_Password patch) (mpa_Password next) |}
  else if ap_Kind patch =s AuthUsernamePassword then
    let next := match old with
                | Auth_UsernamePassword prior => prior
                | _ => {| upa_Kind := ap_Kind patch; upa_Username := ""; upa_Password := "" |}
                end in
    Auth_UsernamePassword
      {| upa_Kind := upa_Kind next;
         upa_Username := SecretPatch_apply (ap_Username patch) (upa_Username next);
         upa_Password := SecretPatch_apply (ap_Password patch) (upa_Password next) |}
  else Auth_nil.

Definition SecurityPatch_apply (patch : SecurityPatch) (old : Security) : Security :=
  if sc_Mode patch =s SecurityNone then Security_None {| ns_Mode := SecurityNone |}
  else if sc_Mode patch =s TLS then
    let next := match old with
                | Security_TLS prior => prior
                | _ => {| tls_Mode := TLS; tls_ServerName := ""; tls_VerifyCertificate := None;
                          tls_ALPN := []; tls_ClientFingerprint := None |}
                end in
    Security_TLS
      {| tls_Mode := tls_Mode next;
         tls_ServerName := from_option id (tls_ServerName next) (sc_ServerName patch);
         tls_VerifyCertificate :=
           match sc_VerifyCertificate patch with
           | Some v => Some v
           | None => tls_VerifyCertificate next
           end;
         tls_ALPN := from_option id (tls_ALPN next) (sc_ALPN patch);
         tls_ClientFingerprint :=
           OptionalStringPatch_apply (sc_ClientFingerprint patch) (tls_ClientFingerprint next) |}
  else if sc_Mode patch =s Reality then
    let next := match old with
                | Security_Reality prior => prior
                | _ => {| rs_Mode := Reality; rs_ServerName := ""; rs_PublicKey := "";
                          rs_ShortID := ""; rs_ClientFingerprint := ""; rs_ALPN := [] |}
                end in
    Security_Reality
      {| rs_Mode := rs_Mode next;
         rs_ServerName := from_option id (rs_ServerName next) (sc_ServerName patch);
         rs_PublicKey := SecretPatch_apply (sc_PublicKey patch) (rs_PublicKey next);
         rs_ShortID := SecretPatch_apply (sc_ShortID patch) (rs_ShortID next);
         rs_ClientFingerprint :=
           from_option id ""
             (OptionalStringPatch_apply (sc_ClientFingerprint patch)
                (Some (rs_ClientFingerprint next)));
         rs_ALPN := from_option id (rs_ALPN next) (sc_ALPN patch) |}
  else Security_nil.

(** A copy through the codec; a node that does not validate, or that the codec loses,
    is an internal error. *)
Definition cloneNode (node : Node) : result ApiError Node :=
  match Node_Validate node with
  | Some _ => Err (NewError InternalError [])
  | None =>
      match marshalNode node with
      | None => Err (NewError InternalError [])
      | Some data =>
          match DecodeNode data with
          | None => Err (NewError InternalError [])
          | Some copy => Ok copy
          end
      end
  end.

Definition transport_of (patch : TransportInput) : result ApiError Transport :=
  if ti_Kind patch =s NativeTCP then Ok (Transport_TCP {| tcp_Kind := NativeTCP |})
  else if ti_Kind patch =s WebSocket then
    Ok (Transport_WS {| ws_Kind := WebSocket; ws_Path := from_option id "" (ti_Path patch);
                        ws_Host := ti_Host patch |})
  else Err (NewError ValidationFailed []).

Definition security_error (path : string) : ApiError :=
  NewError ValidationFailed [{| dt_FieldPath := path; dt_ResourceID := "" |}].

(** REALITY refuses to clear the two fields it requires. *)
Definition security_of (patch : SecurityPatch) (old : Security) : result ApiError Security :=
  if (sc_Mode patch =s Reality) && SecretPatch_IsNull (sc_ShortID patch)
  then Err (security_error "/security/short_id")
  else if (sc_Mode patch =s Reality) && OptionalStringPatch_IsNull (sc_ClientFingerprint patch)
  then Err (security_error "/security/client_fingerprint")
  else Ok (SecurityPatch_apply patch old).

(** [NodePatch.Apply]. *)
Definition NodePatch_Apply (patch : NodePatch) (old : Node) : result ApiError Node :=
  match ValidateDTO "NodePatch" (DTO_NodePatch patch) with
  | Some err => Err err
  | None =>
      let? next := cloneNode old in
      let? transport := match np_Transport patch with
                        | Some transport => transport_of transport
                        | None => Ok (n_Transport next)
                        end in
      let? security := match np_Security patch with
                       | Some security => security_of security (n_Security next)
                       | None => Ok (n_Security next)
                       end in
      let next :=
        {| n_SchemaVersion := n_SchemaVersion next;
           n_Protocol := from_option id (n_Protocol next) (np_Protocol patch);
           n_Endpoint := from_option id (n_Endpoint next) (np_Endpoint patch);
           n_Auth := from_option (λ auth, AuthPatch_apply auth (n_Auth next)) (n_Auth next)
                       (np_Auth patch);
           n_Transport := transport;
           n_Security := security;
           n_Features := from_option id (n_Features next) (np_Features patch);
           n_Origin := n_Origin next |} in
      match Node_Validate next with
      | Some err => Err (AsError (E_diagnostics err))
      | None => Ok next
      end
  end.

(** [NodePatchRequest.Merge]: the update a request makes of the stored resource. *)
Definition NodePatchRequest_Merge (request : NodePatchRequest) (old : Resource)
    : result ApiError UpdateInput :=
  match ValidateDTO "NodePatchRequest" (DTO_NodePatchRequest request) with
  | Some err => Err err
  | None =>
      match Resource_Validate old with
      | Some _ => Err (NewError InternalError [])
      | None =>
          match r_Payload old with
          | Payload_Node node =>
              let? next := cloneNode node in
              let? next := match nq_Node request with
                           | Some patch => NodePatch_Apply patch next
                           | None => Ok next
                           end in
              Ok {| ui_Name := from_option id (md_Name (r_Metadata old)) (nq_Name request);
                    ui_Tags := from_option id (md_Tags (r_Metadata old)) (nq_Tags request);
                    ui_Enabled := from_option id (md_Enabled (r_Metadata old)) (nq_Enabled request);
                    ui_Payload := Payload_Node next |}
          | _ => Err (NewError ValidationFailed [])
          end
      end
  end.

End Apply.
