(* ===== verification/Override.v ===== *)
(** Manual overrides of imported nodes ([override/override.go]): a document of typed
    patches over the source's node, its fields, how new patches are combined into it,
    how fields are restored to the source's values, and the merge that gives the
    effective node.

    [Restore] has a value receiver and still writes through the [Node], [Auth] and
    [Security] pointers of its document, which [Combine] shares with the old document
    and with the request. So the documents come twice: as values, and as pointers into a
    [Heap] of patches ([Combine_ref], [Restore_ref]), with the same code for the parts
    that only read or copy pointers. *)
From S2P Require Import Prelude Diagnostics IRTypes IRValidate Catalog Network URLText ApiError.
From S2P Require Import NodePatch.

Definition SchemaVersion : Z := 1.

Inductive OverrideError := ErrInvalid | ErrProtocol | ErrRestore | ErrEncode | ErrApply (e : ApiError).

Definition Active := "active".
Definition Stale := "stale".
Definition Conflict := "conflict".
Definition State_Valid (s : string) : bool := (s =s Active) || (s =s Stale) || (s =s Conflict).

(** [Document], by what its [Node] pointer is. *)
Record DocumentOf {N : Type} := {
  ov_SchemaVersion : Z; ov_Name : option string; ov_Node : option N }.
Arguments DocumentOf : clear implicits.
Definition Document := DocumentOf NodePatch.
Definition no_document {N} : DocumentOf N :=
  {| ov_SchemaVersion := 0; ov_Name := None; ov_Node := None |}.

Record Binding := {
  bi_NodeID : ID; bi_SourceItemID : ID; bi_SourceResourceID : ID; bi_Revision : Z;
  bi_Method : string; bi_State : string; bi_Patch : Document }.
Record SourceItem := {
  si_ID : ID; si_SourceID : ID; si_ExternalKey : string; si_Name : string; si_State : string;
  si_NodeID : ID; si_SuggestedNodeID : ID }.

Definition absent {A} (o : option A) : bool := match o with None => true | Some _ => false end.

Section Patch.
Context {A S : Type}.
Implicit Types n : NodePatchOf A S.

Definition nodePatchEmpty (patch : option (NodePatchOf A S)) : bool :=
  match patch with
  | None => true
  | Some p =>
      absent (np_Protocol p) && absent (np_Endpoint p) && absent (np_Auth p) &&
      absent (np_Transport p) && absent (np_Security p) && absent (np_Features p)
  end.

Definition empty_patch : NodePatchOf A S :=
  {| np_Protocol := None; np_Endpoint := None; np_Auth := None; np_Transport := None;
     np_Security := None; np_Features := None |}.

Definition or_old {B} (add old : option B) : option B :=
  match add with Some b => Some b | None => old end.

(** [mergeNodePatch] on the objects the two pointers lead to. *)
Definition mergeNodePatch (old add : option (NodePatchOf A S))
    : result OverrideError (option (NodePatchOf A S)) :=
  match add with
  | None => Ok old
  | Some add =>
      if negb (absent (np_Protocol add)) then Err ErrProtocol
      else
        let next := from_option id empty_patch old in
        let next := {| np_Protocol := np_Protocol next;
                       np_Endpoint := or_old (np_Endpoint add) (np_Endpoint next);
                       np_Auth := or_old (np_Auth add) (np_Auth next);
                       np_Transport := or_old (np_Transport add) (np_Transport next);
                       np_Security := or_old (np_Security add) (np_Security next);
                       np_Features := or_old (np_Features add) (np_Features next) |} in
        if nodePatchEmpty (Some next) then Ok None else Ok (Some next)
  end.

(** The assignments of [nil] in [Restore]. *)
Definition drop_protocol n : NodePatchOf A S :=
  {| np_Protocol := None; np_Endpoint := np_Endpoint n; np_Auth := np_Auth n;
     np_Transport := np_Transport n; np_Security := np_Security n; np_Features := np_Features n |}.
Definition drop_endpoint n : NodePatchOf A S :=
  {| np_Protocol := np_Protocol n; np_Endpoint := None; np_Auth := np_Auth n;
     np_Transport := np_Transport n; np_Security := np_Security n; np_Features := np_Features n |}.
Definition drop_auth n : NodePatchOf A S :=
  {| np_Protocol := np_Protocol n; np_Endpoint := np_Endpoint n; np_Auth := None;
     np_Transport := np_Transport n; np_Security := np_Security n; np_Features := np_Features n |}.
Definition drop_transport n : NodePatchOf A S :=
  {| np_Protocol := np_Protocol n; np_Endpoint := np_Endpoint n; np_Auth := np_Auth n;
     np_Transport := None; np_Security := np_Security n; np_Features := np_Features n |}.
Definition drop_security n : NodePatchOf A S :=
  {| np_Protocol := np_Protocol n; np_Endpoint := np_Endpoint n; np_Auth := np_Auth n;
     np_Transport := np_Transport n; np_Security := None; np_Features := np_Features n |}.
Definition drop_features n : NodePatchOf A S :=
  {| np_Protocol := np_Protocol n; np_Endpoint := np_Endpoint n; np_Auth := np_Auth n;
     np_Transport := np_Transport n; np_Security := np_Security n; np_Features := None |}.
End Patch.

Implicit Types a : AuthPatch.
Implicit Types s : SecurityPatch.

Definition drop_password a : AuthPatch :=
  {| ap_Kind := ap_Kind a; ap_Method := ap_Method a; ap_Cipher := ap_Cipher a;
     ap_Password := no_secret; ap_UUID := ap_UUID a; ap_Username := ap_Username a |}.
Definition drop_uuid a : AuthPatch :=
  {| ap_Kind := ap_Kind a; ap_Method := ap_Method a; ap_Cipher := ap_Cipher a;
     ap_Password := ap_Password a; ap_UUID := no_secret; ap_Username := ap_Username a |}.
Definition drop_username a : AuthPatch :=
  {| ap_Kind := ap_Kind a; ap_Method := ap_Method a; ap_Cipher := ap_Cipher a;
     ap_Password := ap_Password a; ap_UUID := ap_UUID a; ap_Username := no_secret |}.
Definition drop_method a : AuthPatch :=
  {| ap_Kind := ap_Kind a; ap_Method := None; ap_Cipher := ap_Cipher a;
     ap_Password := ap_Password a; ap_UUID := ap_UUID a; ap_Username := ap_Username a |}.
Definition drop_cipher a : AuthPatch :=
  {| ap_Kind := ap_Kind a; ap_Method := ap_Method a; ap_Cipher := None;
     ap_Password := ap_Password a; ap_UUID := ap_UUID a; ap_Username := ap_Username a |}.

Definition drop_server_name s : SecurityPatch :=
  {| sc_Mode := sc_Mode s; sc_ServerName := None; sc_VerifyCertificate := sc_VerifyCertificate s;
     sc_ALPN := sc_ALPN s; sc_ClientFingerprint := sc_ClientFingerprint s;
     sc_PublicKey := sc_PublicKey s; sc_ShortID := sc_ShortID s |}.
Definition drop_verify_certificate s : SecurityPatch :=
  {| sc_Mode := sc_Mode s; sc_ServerName := sc_ServerName s; sc_VerifyCertificate := None;
     sc_ALPN := sc_ALPN s; sc_ClientFingerprint := sc_ClientFingerprint s;
     sc_PublicKey := sc_PublicKey s; sc_ShortID := sc_ShortID s |}.
Definition drop_alpn s : SecurityPatch :=
  {| sc_Mode := sc_Mode s; sc_ServerName := sc_ServerName s;
     sc_VerifyCertificate := sc_VerifyCertificate s; sc_ALPN := None;
     sc_ClientFingerprint := sc_ClientFingerprint s; sc_PublicKey := sc_PublicKey s;
     sc_ShortID := sc_ShortID s |}.
Definition drop_client_fingerprint s : SecurityPatch :=
  {| sc_Mode := sc_Mode s; sc_ServerName := sc_ServerName s;
     sc_VerifyCertificate := sc_VerifyCertificate s; sc_ALPN := sc_ALPN s;
     sc_ClientFingerprint := no_string; sc_PublicKey := sc_PublicKey s;
     sc_ShortID := sc_ShortID s |}.
Definition drop_public_key s : SecurityPatch :=
  {| sc_Mode := sc_Mode s; sc_ServerName := sc_ServerName s;
     sc_VerifyCertificate := sc_VerifyCertificate s; sc_ALPN := sc_ALPN s;
     sc_ClientFingerprint := sc_ClientFingerprint s; sc_PublicKey := no_secret;
     sc_ShortID := sc_ShortID s |}.
Definition drop_short_id s : SecurityPatch :=
  {| sc_Mode := sc_Mode s; sc_ServerName := sc_ServerName s;
     sc_VerifyCertificate := sc_VerifyCertificate s; sc_ALPN := sc_ALPN s;
     sc_ClientFingerprint := sc_ClientFingerprint s; sc_PublicKey := sc_PublicKey s;
     sc_ShortID := no_secret |}.

(** * Documents as values *)

Definition Empty (d : Document) : bool := absent (ov_Name d) && nodePatchEmpty (ov_Node d).

Definition when (b : bool) (path : string) : list string := if b then [path] else [].
Definition given {A} (o : option A) : bool := negb (absent o).

Definition auth_fields a : list string :=
  "/auth" :: when (se_present (ap_Password a)) "/auth/password"
  ++ when (se_present (ap_UUID a)) "/auth/uuid"
  ++ when (se_present (ap_Username a)) "/auth/username"
  ++ when (given (ap_Method a)) "/auth/method" ++ when (given (ap_Cipher a)) "/auth/cipher".
Definition security_fields s : list string :=
  "/security" :: when (given (sc_ServerName s)) "/security/server_name"
  ++ when (given (sc_VerifyCertificate s)) "/security/verify_certificate"
  ++ when (given (sc_ALPN s)) "/security/alpn"
  ++ when (os_present (sc_ClientFingerprint s)) "/security/client_fingerprint"
  ++ when (se_present (sc_PublicKey s)) "/security/public_key"
  ++ when (se_present (sc_ShortID s)) "/security/short_id".
Definition patch_fields (n : NodePatch) : list string :=
  when (given (np_Protocol n)) "/protocol" ++ when (given (np_Endpoint n)) "/endpoint"
  ++ from_option auth_fields [] (np_Auth n) ++ when (given (np_Transport n)) "/transport"
  ++ from_option security_fields [] (np_Security n) ++ when (given (np_Features n)) "/features".
Definition Fields (d : Document) : list string :=
  sort_strings (when (given (ov_Name d)) "/name" ++ from_option patch_fields [] (ov_Node d)).

(** The stored form: [json.Marshal] and [json.Unmarshal] of a document. *)
Class DocumentCodec := {
  MarshalDocument : Document → option string;
  UnmarshalDocument : string → option Document }.

Definition names_protocol (d : Document) : bool :=
  match ov_Node d with Some n => given (np_Protocol n) | None => false end.
Definition with_version (d : Document) : Document :=
  {| ov_SchemaVersion := SchemaVersion; ov_Name := ov_Name d; ov_Node := ov_Node d |}.

Section Codec.
Context {C : DocumentCodec}.

Definition Decode (plain : string) : result OverrideError Document :=
  if plain =s "" then Ok no_document
  else
    match UnmarshalDocument plain with
    | None => Err ErrInvalid
    | Some document =>
        if negb (ov_SchemaVersion document =? SchemaVersion)
           && negb (ov_SchemaVersion document =? 0) then Err ErrInvalid
        else if names_protocol document then Err ErrProtocol
        else Ok (with_version document)
    end.

(** [None] is the [nil] of an empty document. *)
Definition Document_Canonical (d : Document) : result OverrideError (option string) :=
  if Empty d then Ok None
  else if names_protocol d then Err ErrProtocol
  else match MarshalDocument (with_version d) with
       | Some data => Ok (Some data)
       | None => Err ErrEncode
       end.
End Codec.

(** What restoring a path assigns: one case per case of the switch. *)
Inductive FieldEdit :=
| Edit_name
| Edit_node (f : ∀ A S, NodePatchOf A S → NodePatchOf A S)
| Edit_auth (f : AuthPatch → AuthPatch)
| Edit_security (f : SecurityPatch → SecurityPatch).

Definition restore_field (path : string) : option FieldEdit :=
  if path =s "/name" then Some Edit_name
  else if path =s "/protocol" then Some (Edit_node (@drop_protocol))
  else if path =s "/endpoint" then Some (Edit_node (@drop_endpoint))
  else if path =s "/auth" then Some (Edit_node (@drop_auth))
  else if path =s "/auth/password" then Some (Edit_auth drop_password)
  else if path =s "/auth/uuid" then Some (Edit_auth drop_uuid)
  else if path =s "/auth/username" then Some (Edit_auth drop_username)
  else if path =s "/auth/method" then Some (Edit_auth drop_method)
  else if path =s "/auth/cipher" then Some (Edit_auth drop_cipher)
  else if path =s "/transport" then Some (Edit_node (@drop_transport))
  else if path =s "/security" then Some (Edit_node (@drop_security))
  else if path =s "/security/server_name" then Some (Edit_security drop_server_name)
  else if path =s "/security/verify_certificate" then Some (Edit_security drop_verify_certificate)
  else if path =s "/security/alpn" then Some (Edit_security drop_alpn)
  else if path =s "/security/client_fingerprint" then Some (Edit_security drop_client_fingerprint)
  else if path =s "/security/public_key" then Some (Edit_security drop_public_key)
  else if path =s "/security/short_id" then Some (Edit_security drop_short_id)
  else if path =s "/features" then Some (Edit_node (@drop_features))
  else None.

(** The loop over the paths, on any state that the edits change; on an error the state
    is what the edits so far have made of it. *)
Fixpoint restore_loop {St} (edit : FieldEdit → St → St) (paths : list string)
    (seen : gset string) (st : St) : option OverrideError * St :=
  match paths with
  | [] => (None, st)
  | path :: paths =>
      if (path =s "") || bool_decide (path ∈ seen) then (Some ErrRestore, st)
      else
        match restore_field path with
        | None => (Some ErrRestore, st)
        | Some e => restore_loop edit paths ({[path]} ∪ seen) (edit e st)
        end
  end.

Definition on_node (f : NodePatch → NodePatch) (d : Document) : Document :=
  {| ov_SchemaVersion := ov_SchemaVersion d; ov_Name := ov_Name d; ov_Node := f <$> ov_Node d |}.
Definition on_auth (f : AuthPatch → AuthPatch) (n : NodePatch) : NodePatch :=
  {| np_Protocol := np_Protocol n; np_Endpoint := np_Endpoint n; np_Auth := f <$> np_Auth n;
     np_Transport := np_Transport n; np_Security := np_Security n; np_Features := np_Features n |}.
Definition on_security (f : SecurityPatch → SecurityPatch) (n : NodePatch) : NodePatch :=
  {| np_Protocol := np_Protocol n; np_Endpoint := np_Endpoint n; np_Auth := np_Auth n;
     np_Transport := np_Transport n; np_Security := f <$> np_Security n;
     np_Features := np_Features n |}.

Definition edit_value (e : FieldEdit) (d : Document) : Document :=
  match e with
  | Edit_name => {| ov_SchemaVersion := ov_SchemaVersion d; ov_Name := None; ov_Node := ov_Node d |}
  | Edit_node f => on_node (f _ _) d
  | Edit_auth f => on_node (on_auth f) d
  | Edit_security f => on_node (on_security f) d
  end.

(** A patch without fields is no patch. *)
Definition drop_empty (d : Document) : Document :=
  {| ov_SchemaVersion := ov_SchemaVersion d; ov_Name := ov_Name d;
     ov_Node := if nodePatchEmpty (ov_Node d) then None else ov_Node d |}.

Definition Restore (d : Document) (paths : list string) : result OverrideError Document :=
  match paths with
  | [] => Ok d
  | _ =>
      match restore_loop edit_value paths ∅ d with
      | (Some err, _) => Err err
      | (None, d) => Ok (drop_empty d)
      end
  end.

Definition Combine (old : Document) (name : option string) (node : option NodePatch)
    (restore : list string) : result OverrideError Document :=
  let? merged := match node with
                 | None => Ok (ov_Node old)
                 | Some add =>
                     if given (np_Protocol add) then Err ErrProtocol
                     else mergeNodePatch (ov_Node old) (Some add)
                 end in
  Restore {| ov_SchemaVersion := SchemaVersion; ov_Name := or_old name (ov_Name old);
             ov_Node := merged |} restore.

Section Merge.
Context {P : Platform} {F : ApiFields} {B : Boundary}.

Definition set_origin (o : option Origin) (n : Node) : Node :=
  {| n_SchemaVersion := n_SchemaVersion n; n_Protocol := n_Protocol n; n_Endpoint := n_Endpoint n;
     n_Auth := n_Auth n; n_Transport := n_Transport n; n_Security := n_Security n;
     n_Features := n_Features n; n_Origin := o |}.

Definition override_Merge (base : Node) (baseName : string) (patch : Document)
    : result OverrideError (Node * string * list string) :=
  match Node_Validate base with
  | Some _ => Err ErrInvalid
  | None =>
      if names_protocol patch then Err ErrProtocol
      else
        let? next := match ov_Node patch with
                     | Some node =>
                         if nodePatchEmpty (Some node) then Ok base
                         else match NodePatch_Apply node base with
                              | Err e => Err (ErrApply e)
                              | Ok merged => Ok (set_origin (n_Origin base) merged)
                              end
                     | None => Ok base
                     end in
        match Node_Validate next with
        | Some _ => Err ErrInvalid
        | None => Ok (next, from_option id baseName (ov_Name patch), Fields patch)
        end
  end.
End Merge.

(** * Documents as pointers *)

Abbreviation loc := positive (only parsing).
Abbreviation NodeObject := (NodePatchOf loc loc) (only parsing).
Definition DocumentRef := DocumentOf loc.

(** Endpoints, transports and features are never written through, so their pointers are
    values here too. *)
Record Heap := {
  h_nodes : gmap loc NodeObject; h_auths : gmap loc AuthPatch;
  h_securities : gmap loc SecurityPatch }.

Definition on_nodes (f : gmap loc NodeObject → gmap loc NodeObject) (h : Heap) : Heap :=
  {| h_nodes := f (h_nodes h); h_auths := h_auths h; h_securities := h_securities h |}.
Definition on_auths (f : gmap loc AuthPatch → gmap loc AuthPatch) (h : Heap) : Heap :=
  {| h_nodes := h_nodes h; h_auths := f (h_auths h); h_securities := h_securities h |}.
Definition on_securities (f : gmap loc SecurityPatch → gmap loc SecurityPatch) (h : Heap) : Heap :=
  {| h_nodes := h_nodes h; h_auths := h_auths h; h_securities := f (h_securities h) |}.

(** The object of a document, and the pointers in it. *)
Definition node_of (h : Heap) (d : DocumentRef) : option NodeObject := ov_Node d ≫= λ l, h_nodes h !! l.
Definition auth_of (h : Heap) (d : DocumentRef) : option loc := node_of h d ≫= np_Auth.
Definition security_at (h : Heap) (d : DocumentRef) : option loc := node_of h d ≫= np_Security.

Definition alter_opt {A} (f : A → A) (l : option loc) (m : gmap loc A) : gmap loc A :=
  match l with Some l => alter f l m | None => m end.
Arguments alter_opt : simpl never.

Definition edit_heap (e : FieldEdit) (st : Heap * DocumentRef) : Heap * DocumentRef :=
  let (h, d) := st in
  match e with
  | Edit_name =>
      (h, {| ov_SchemaVersion := ov_SchemaVersion d; ov_Name := None; ov_Node := ov_Node d |})
  | Edit_node f => (on_nodes (alter_opt (f _ _) (ov_Node d)) h, d)
  | Edit_auth f => (on_auths (alter_opt f (auth_of h d)) h, d)
  | Edit_security f => (on_securities (alter_opt f (security_at h d)) h, d)
  end.

Definition Restore_ref (h : Heap) (d : DocumentRef) (paths : list string)
    : Heap * result OverrideError DocumentRef :=
  match paths with
  | [] => (h, Ok d)
  | _ =>
      match restore_loop edit_heap paths ∅ (h, d) with
      | (Some err, (h, _)) => (h, Err err)
      | (None, (h, d)) =>
          (h, Ok {| ov_SchemaVersion := ov_SchemaVersion d; ov_Name := ov_Name d;
                    ov_Node := if nodePatchEmpty (node_of h d) then None else ov_Node d |})
      end
  end.

(** [mergeNodePatch] and the object it allocates. *)
Definition merge_ref (h : Heap) (old : DocumentRef) (add : loc)
    : Heap * result OverrideError (option loc) :=
  match mergeNodePatch (node_of h old) (h_nodes h !! add) with
  | Err err => (h, Err err)
  | Ok None => (h, Ok None)
  | Ok (Some next) =>
      let l := fresh (dom (h_nodes h)) in (on_nodes <[l := next]> h, Ok (Some l))
  end.

Definition Combine_ref (h : Heap) (old : DocumentRef) (name : option string) (node : option loc)
    (restore : list string) : Heap * result OverrideError DocumentRef :=
  let (h, merged) := match node with
                     | None => (h, Ok (ov_Node old))
                     | Some add => merge_ref h old add
                     end in
  match merged with
  | Err err => (h, Err err)
  | Ok merged =>
      Restore_ref h {| ov_SchemaVersion := SchemaVersion; ov_Name := or_old name (ov_Name old);
                       ov_Node := merged |} restore
  end.

(** The value behind a document. *)
Definition read_node (h : Heap) (n : NodeObject) : NodePatch :=
  {| np_Protocol := np_Protocol n; np_Endpoint := np_Endpoint n;
     np_Auth := np_Auth n ≫= λ l, h_auths h !! l; np_Transport := np_Transport n;
     np_Security := np_Security n ≫= λ l, h_securities h !! l; np_Features := np_Features n |}.
Definition read_document (h : Heap) (d : DocumentRef) : Document :=
  {| ov_SchemaVersion := ov_SchemaVersion d; ov_Name := ov_Name d;
     ov_Node := read_node h <$> node_of h d |}.
