(* ===== verification/OverrideFacts.v ===== *)
(** What the overrides do: restoring paths keeps exactly the fields they do not name
    ([restrict]), the paths of a document are exactly what restoring needs, and the
    pointer version of [Combine] is its value version, with a frame. Then the effective
    node: what the merge takes from the source and what from the document. *)
From S2P Require Import Prelude Diagnostics IRTypes IRValidate Catalog Network URLText ApiError.
From S2P Require Import NodePatch Override.

(** * Restoring *)

(** The specification: a document with the fields whose path satisfies [K]. *)
Definition keep {A} (b : bool) (o : option A) : option A := if b then o else None.
Definition keep_secret (b : bool) (s : SecretPatch) : SecretPatch := if b then s else no_secret.
Arguments keep : simpl never.
Arguments keep_secret : simpl never.

Section Restrict.
Variable K : string → bool.

Definition restrict_auth (a : AuthPatch) : AuthPatch :=
  {| ap_Kind := ap_Kind a; ap_Method := keep (K "/auth/method") (ap_Method a);
     ap_Cipher := keep (K "/auth/cipher") (ap_Cipher a);
     ap_Password := keep_secret (K "/auth/password") (ap_Password a);
     ap_UUID := keep_secret (K "/auth/uuid") (ap_UUID a);
     ap_Username := keep_secret (K "/auth/username") (ap_Username a) |}.
Definition restrict_security (s : SecurityPatch) : SecurityPatch :=
  {| sc_Mode := sc_Mode s; sc_ServerName := keep (K "/security/server_name") (sc_ServerName s);
     sc_VerifyCertificate := keep (K "/security/verify_certificate") (sc_VerifyCertificate s);
     sc_ALPN := keep (K "/security/alpn") (sc_ALPN s);
     sc_ClientFingerprint :=
       if K "/security/client_fingerprint" then sc_ClientFingerprint s else no_string;
     sc_PublicKey := keep_secret (K "/security/public_key") (sc_PublicKey s);
     sc_ShortID := keep_secret (K "/security/short_id") (sc_ShortID s) |}.
Definition restrict_patch (n : NodePatch) : NodePatch :=
  {| np_Protocol := keep (K "/protocol") (np_Protocol n);
     np_Endpoint := keep (K "/endpoint") (np_Endpoint n);
     np_Auth := keep (K "/auth") (restrict_auth <$> np_Auth n);
     np_Transport := keep (K "/transport") (np_Transport n);
     np_Security := keep (K "/security") (restrict_security <$> np_Security n);
     np_Features := keep (K "/features") (np_Features n) |}.
Definition restrict (d : Document) : Document :=
  {| ov_SchemaVersion := ov_SchemaVersion d; ov_Name := keep (K "/name") (ov_Name d);
     ov_Node := restrict_patch <$> ov_Node d |}.
End Restrict.

(** The paths that name a field. *)
Definition field_paths : list string :=
  ["/name"; "/protocol"; "/endpoint"; "/auth"; "/auth/password"; "/auth/uuid"; "/auth/username";
   "/auth/method"; "/auth/cipher"; "/transport"; "/security"; "/security/server_name";
   "/security/verify_certificate"; "/security/alpn"; "/security/client_fingerprint";
   "/security/public_key"; "/security/short_id"; "/features"].
Definition restorable (paths : list string) : Prop :=
  NoDup paths ∧ Forall (λ p, p ∈ field_paths) paths.
#[export] Instance restorable_dec paths : Decision (restorable paths).
Proof. unfold restorable. apply _. Defined.

Ltac open_document d :=
  let v := fresh "v" in let n := fresh "n" in
  destruct d as [v n [[? ? [[? ? ? ? ? ?]|] ? [[? ? ? ? ? ? ?]|] ?]|]].

Lemma restrict_ext K1 K2 d : (∀ p, p ∈ field_paths → K1 p = K2 p) → restrict K1 d = restrict K2 d.
Proof.
  intros H. unfold restrict, restrict_patch, restrict_auth, restrict_security.
  rewrite !(H "/name"), !(H "/protocol"), !(H "/endpoint"), !(H "/auth"), !(H "/transport"),
    !(H "/security"), !(H "/features"), !(H "/auth/password"), !(H "/auth/uuid"),
    !(H "/auth/username"), !(H "/auth/method"), !(H "/auth/cipher"), !(H "/security/server_name"),
    !(H "/security/verify_certificate"), !(H "/security/alpn"), !(H "/security/client_fingerprint"),
    !(H "/security/public_key"), !(H "/security/short_id"); [done|..];
    unfold field_paths; repeat (apply elem_of_cons; first [by left|right]).
Qed.

Lemma keep_keep {A} b1 b2 (o : option A) : keep b1 (keep b2 o) = keep (b1 && b2) o.
Proof. by destruct b1, b2. Qed.
Lemma keep_secret_keep b1 b2 s : keep_secret b1 (keep_secret b2 s) = keep_secret (b1 && b2) s.
Proof. by destruct b1, b2. Qed.

Lemma restrict_restrict K1 K2 d : restrict K1 (restrict K2 d) = restrict (λ p, K1 p && K2 p) d.
Proof.
  assert (∀ a, restrict_auth K1 (restrict_auth K2 a) = restrict_auth (λ p, K1 p && K2 p) a) as Ha.
  { intros a. unfold restrict_auth. simpl. by rewrite !keep_keep, !keep_secret_keep. }
  assert (∀ s, restrict_security K1 (restrict_security K2 s)
               = restrict_security (λ p, K1 p && K2 p) s) as Hs.
  { intros s. unfold restrict_security. simpl. rewrite !keep_keep, !keep_secret_keep. f_equal.
    by destruct (K1 _), (K2 _). }
  assert (∀ n, restrict_patch K1 (restrict_patch K2 n) = restrict_patch (λ p, K1 p && K2 p) n) as Hn.
  { intros [? ? [a|] ? [s|] ?]; unfold restrict_patch; simpl; rewrite !keep_keep; f_equal;
      unfold keep; repeat (case_match; simpl); rewrite ?Ha, ?Hs; done. }
  destruct d as [v n [p|]]; unfold restrict; simpl; by rewrite !keep_keep, ?Hn.
Qed.

Lemma restrict_all d : restrict (λ _, true) d = d.
Proof. by open_document d. Qed.

(** Each edit takes out its own path. *)
Lemma restore_field_known p : is_Some (restore_field p) ↔ p ∈ field_paths.
Proof.
  split.
  - intros [e He]. unfold restore_field in He.
    repeat match type of He with
           | (if (?a =s ?b) then _ else _) = _ =>
               destruct (String.eqb_spec a b) as [->|];
                 [apply (bool_decide_eq_true_1 _); vm_compute; reflexivity|]
           end.
    discriminate He.
  - intros Hp. unfold field_paths in Hp.
    repeat (apply elem_of_cons in Hp as [->|Hp]; [by eexists|]). by apply elem_of_nil in Hp.
Qed.

Lemma edit_value_restrict p e d :
  restore_field p = Some e → edit_value e d = restrict (λ q, negb (q =s p)) d.
Proof.
  intros He. assert (p ∈ field_paths) as Hp by (apply restore_field_known; eauto).
  unfold field_paths in Hp.
  repeat (apply elem_of_cons in Hp as [->|Hp];
    [vm_compute in He; injection He as <-; open_document d; reflexivity|]).
  by apply elem_of_nil in Hp.
Qed.

(** The loop accepts exactly the lists of distinct known paths. *)
Lemma restore_loop_spec {St} (edit : FieldEdit → St → St) paths seen st :
  (restore_loop edit paths seen st).1 =
    if bool_decide (restorable paths ∧ Forall (λ p, p ∉ seen) paths) then None else Some ErrRestore.
Proof.
  revert seen st. induction paths as [|p paths IH]; intros seen st; cbn [restore_loop fst].
  { rewrite bool_decide_eq_true_2; [done|]. split; [split|]; constructor. }
  destruct (String.eqb_spec p "") as [->|Hne]; cbn [orb].
  { rewrite bool_decide_eq_false_2; [done|]. intros [[_ [Hk _]%Forall_cons] _].
    apply restore_field_known in Hk as [? Hk]. by vm_compute in Hk. }
  destruct (bool_decide_reflect (p ∈ seen)) as [Hs|Hs].
  { rewrite bool_decide_eq_false_2; [done|]. by intros [_ [? _]%Forall_cons]. }
  destruct (restore_field p) as [e|] eqn:He.
  - rewrite IH. assert (p ∈ field_paths) by (apply restore_field_known; eauto).
    erewrite bool_decide_ext; [reflexivity|]. unfold restorable. rewrite NoDup_cons, !Forall_cons. split.
    + intros [[Hn Hk] Hf]. rewrite Forall_forall in Hf. split_and!; try done.
      * intros Hp. specialize (Hf _ Hp). set_solver.
      * apply Forall_forall. set_solver.
    + intros [[[Hp Hn] [_ Hk]] [_ Hf]]. split_and!; try done.
      apply Forall_forall. rewrite Forall_forall in Hf. set_solver.
  - rewrite bool_decide_eq_false_2; [done|]. intros [[_ [Hk _]%Forall_cons] _].
    apply restore_field_known in Hk as [? Hk]. congruence.
Qed.

Lemma restore_loop_value paths seen d :
  (restore_loop edit_value paths seen d).1 = None →
  (restore_loop edit_value paths seen d).2 = restrict (λ p, bool_decide (p ∉ paths)) d.
Proof.
  revert seen d. induction paths as [|p paths IH]; intros seen d; cbn [restore_loop fst snd].
  { intros _. rewrite <-(restrict_all d) at 1. apply restrict_ext. intros q _.
    cbv beta. by rewrite bool_decide_eq_true_2 by apply not_elem_of_nil. }
  destruct (_ || _); [done|]. destruct (restore_field p) as [e|] eqn:He; [|done].
  intros Hok. rewrite (IH _ _ Hok), (edit_value_restrict p e), restrict_restrict by done.
  apply restrict_ext. intros q _. cbv beta.
  destruct (String.eqb_spec q p) as [->|Hne]; cbn [negb].
  - rewrite andb_false_r. symmetry. apply bool_decide_eq_false_2. set_solver.
  - rewrite andb_true_r. apply bool_decide_ext. set_solver.
Qed.

Lemma Restore_spec d paths :
  paths ≠ [] →
  Restore d paths =
    if bool_decide (restorable paths)
    then Ok (drop_empty (restrict (λ p, bool_decide (p ∉ paths)) d)) else Err ErrRestore.
Proof.
  intros Hne. unfold Restore. destruct paths as [|p paths]; [done|]. clear Hne.
  set (l := p :: paths).
  assert ((restore_loop edit_value l ∅ d).1 =
          if bool_decide (restorable l) then None else Some ErrRestore) as Hs.
  { rewrite restore_loop_spec. erewrite bool_decide_ext; [reflexivity|].
    split; [by intros []|]. intros H. split; [done|]. apply Forall_forall. set_solver. }
  assert (Hv := restore_loop_value l ∅ d).
  destruct (restore_loop edit_value l ∅ d) as [o d'] eqn:E. cbn [fst snd] in Hs, Hv.
  destruct (bool_decide (restorable l)); subst o; [|done]. by rewrite Hv.
Qed.

(** * The fields of a document *)

(** Whether the document has the field of a path. *)
Definition has (d : Document) (p : string) : bool :=
  let node f := from_option f false (ov_Node d) in
  let auth f := node (λ n : NodePatch, from_option f false (np_Auth n)) in
  let security f := node (λ n : NodePatch, from_option f false (np_Security n)) in
  if p =s "/name" then given (ov_Name d)
  else if p =s "/protocol" then node (λ n, given (np_Protocol n))
  else if p =s "/endpoint" then node (λ n, given (np_Endpoint n))
  else if p =s "/auth" then auth (λ _, true)
  else if p =s "/auth/password" then auth (λ a, se_present (ap_Password a))
  else if p =s "/auth/uuid" then auth (λ a, se_present (ap_UUID a))
  else if p =s "/auth/username" then auth (λ a, se_present (ap_Username a))
  else if p =s "/auth/method" then auth (λ a, given (ap_Method a))
  else if p =s "/auth/cipher" then auth (λ a, given (ap_Cipher a))
  else if p =s "/transport" then node (λ n, given (np_Transport n))
  else if p =s "/security" then security (λ _, true)
  else if p =s "/security/server_name" then security (λ s, given (sc_ServerName s))
  else if p =s "/security/verify_certificate" then security (λ s, given (sc_VerifyCertificate s))
  else if p =s "/security/alpn" then security (λ s, given (sc_ALPN s))
  else if p =s "/security/client_fingerprint" then
    security (λ s, os_present (sc_ClientFingerprint s))
  else if p =s "/security/public_key" then security (λ s, se_present (sc_PublicKey s))
  else if p =s "/security/short_id" then security (λ s, se_present (sc_ShortID s))
  else if p =s "/features" then node (λ n, given (np_Features n))
  else false.

Lemma filter_when (f : string → bool) x l :
  filter (λ p, f p = true) (x :: l) = when (f x) x ++ filter (λ p, f p = true) l.
Proof. rewrite filter_cons. unfold when. by destruct (decide (f x = true)), (f x). Qed.

Lemma Fields_filter d : Fields d = sort_strings (filter (λ p, has d p = true) field_paths).
Proof.
  unfold Fields. f_equal. unfold field_paths. rewrite !filter_when, filter_nil.
  open_document d; cbn -[when]; unfold patch_fields, auth_fields, security_fields; cbn -[when];
    rewrite ?app_nil_r, <-?app_assoc; reflexivity.
Qed.

Lemma field_paths_NoDup : NoDup field_paths.
Proof. apply (bool_decide_eq_true_1 _). vm_compute. reflexivity. Qed.

Lemma elem_of_Fields d p : p ∈ Fields d ↔ has d p = true ∧ p ∈ field_paths.
Proof. rewrite Fields_filter. unfold sort_strings. by rewrite elem_of_isort, list_elem_of_filter. Qed.

Lemma Fields_NoDup d : NoDup (Fields d).
Proof.
  rewrite Fields_filter. unfold sort_strings. rewrite isort_perm.
  apply NoDup_filter, field_paths_NoDup.
Qed.

(** The object a path is part of. *)
Definition section_of (p : string) : string :=
  if HasPrefix p "/auth/" then "/auth" else if HasPrefix p "/security/" then "/security" else p.

(** A case for each path that names a field. *)
Ltac each_path Hp :=
  unfold field_paths in Hp; repeat (apply elem_of_cons in Hp as [->|Hp]); [..|by apply elem_of_nil in Hp].

Lemma has_restrict K d p :
  p ∈ field_paths → has (restrict K d) p = has d p && K p && K (section_of p).
Proof.
  intros Hp. open_document d; each_path Hp; cbn; unfold keep, keep_secret;
    repeat (match goal with |- context [K ?q] => destruct (K q) end; cbn);
    rewrite ?andb_true_r, ?andb_false_r; reflexivity.
Qed.

Lemma elem_of_Fields_restrict K d p :
  p ∈ Fields (restrict K d) ↔ p ∈ Fields d ∧ K p = true ∧ K (section_of p) = true.
Proof.
  rewrite !elem_of_Fields. split.
  - intros [Hh Hp]. rewrite has_restrict in Hh by done.
    apply andb_true_iff in Hh as [[? ?]%andb_true_iff ?]. done.
  - intros [[? ?] [? ?]]. split; [|done]. rewrite has_restrict by done. by repeat (apply andb_true_iff; split).
Qed.

Lemma Fields_nil d : Fields d = [] ↔ Empty d = true.
Proof.
  split.
  - intros H. assert (∀ p, p ∈ field_paths → has d p = false) as Hh.
    { intros p Hp. destruct (has d p) eqn:E; [|done]. assert (p ∈ Fields d) as Hin
        by (by apply elem_of_Fields). rewrite H in Hin. by apply elem_of_nil in Hin. }
    assert (∀ p, bool_decide (p ∈ field_paths) = true → has d p = false) as Hb.
    { intros p Hp. apply Hh. by apply bool_decide_eq_true_1 in Hp. }
    clear H Hh. assert (H1 := Hb "/name" eq_refl). assert (H2 := Hb "/protocol" eq_refl).
    assert (H3 := Hb "/endpoint" eq_refl). assert (H4 := Hb "/auth" eq_refl).
    assert (H5 := Hb "/transport" eq_refl). assert (H6 := Hb "/security" eq_refl).
    assert (H7 := Hb "/features" eq_refl). clear Hb.
    open_document d; cbn in *; try done; destruct n; cbn in *; try done; unfold Empty; cbn;
      repeat match goal with H : given ?o = false |- _ => destruct o; cbn in H; try discriminate H end; done.
  - intros He. unfold Empty in He. apply andb_true_iff in He as [Hn Hp]. unfold Fields.
    destruct (ov_Name d); [done|]. destruct (ov_Node d) as [n|]; [|done]. cbn in Hp.
    repeat (apply andb_true_iff in Hp as [Hp ?]). destruct n as [[] [] [] [] [] []]; cbn in *; done.
Qed.

(** The empty node patch is dropped without losing a field. *)
Lemma Fields_drop_empty d : Fields (drop_empty d) = Fields d.
Proof.
  unfold drop_empty. destruct (nodePatchEmpty (ov_Node d)) eqn:E; [|by destruct d].
  unfold Fields. cbn. f_equal. f_equal. destruct (ov_Node d) as [n|]; [|done]. cbn in E.
  repeat (apply andb_true_iff in E as [E ?]). destruct n as [[] [] [] [] [] []]; cbn in *; done.
Qed.

(** Restoring every field leaves an empty document. *)
Lemma Restore_all d :
  Fields d ≠ [] →
  Restore d (Fields d) =
    Ok {| ov_SchemaVersion := ov_SchemaVersion d; ov_Name := None; ov_Node := None |}.
Proof.
  intros Hne. rewrite Restore_spec by done. rewrite bool_decide_eq_true_2.
  2: { split; [apply Fields_NoDup|]. apply Forall_forall. by intros p [_ ?]%elem_of_Fields. }
  assert (Empty (restrict (λ p, bool_decide (p ∉ Fields d)) d) = true) as He.
  { apply Fields_nil. destruct (Fields (restrict _ d)) as [|p l] eqn:E; [done|].
    assert (p ∈ p :: l) as Hp by left. rewrite <-E in Hp.
    apply elem_of_Fields_restrict in Hp as (Hp & Hk & _). by apply bool_decide_eq_true_1 in Hk. }
  f_equal. unfold Empty in He. apply andb_true_iff in He as [Hn Hp]. unfold drop_empty. rewrite Hp.
  cbn in *. by destruct (keep _ _).
Qed.

(** * The effective node *)

(** The kind of an authentication, and its secrets by path. *)
Definition auth_kind (a : Authentication) : string :=
  match a with
  | Auth_None _ => AuthNone
  | Auth_Password _ => AuthPassword
  | Auth_UUID _ => AuthUUID
  | Auth_VMess _ => AuthVMessAEAD
  | Auth_MethodPassword _ => AuthMethodPassword
  | Auth_UsernamePassword _ => AuthUsernamePassword
  | Auth_nil | Auth_typed_nil _ => ""
  end.
Definition auth_secrets (a : Authentication) : gmap string Secret :=
  match a with
  | Auth_Password a => {["/auth/password" := pa_Password a]}
  | Auth_UUID a => {["/auth/uuid" := ua_UUID a]}
  | Auth_VMess a => {["/auth/uuid" := vma_UUID a]}
  | Auth_MethodPassword a => {["/auth/password" := mpa_Password a]}
  | Auth_UsernamePassword a =>
      <["/auth/username" := upa_Username a]> {["/auth/password" := upa_Password a]}
  | _ => ∅
  end.
Definition patch_secret (a : AuthPatch) (p : string) : SecretPatch :=
  if p =s "/auth/password" then ap_Password a
  else if p =s "/auth/uuid" then ap_UUID a
  else if p =s "/auth/username" then ap_Username a
  else no_secret.
Definition auth_kinds : list string :=
  [AuthNone; AuthPassword; AuthUUID; AuthVMessAEAD; AuthMethodPassword; AuthUsernamePassword].

(** The method and the cipher, by path. *)
Definition auth_names (a : Authentication) : gmap string string :=
  match a with
  | Auth_VMess a => {["/auth/cipher" := vma_Cipher a]}
  | Auth_MethodPassword a => {["/auth/method" := mpa_Method a]}
  | _ => ∅
  end.
Definition patch_name (a : AuthPatch) (p : string) : option string :=
  if p =s "/auth/cipher" then ap_Cipher a
  else if p =s "/auth/method" then ap_Method a
  else None.

Definition security_mode (s : Security) : string :=
  match s with
  | Security_None _ => SecurityNone
  | Security_TLS _ => TLS
  | Security_Reality _ => Reality
  | Security_nil | Security_typed_nil _ => ""
  end.

(** A secret of the new kind: what the patch says of it, over the source's when the kind
    is the same, over nothing when it has changed. *)
Lemma AuthPatch_apply_secret a old p v :
  auth_secrets (AuthPatch_apply a old) !! p = Some v →
  v = SecretPatch_apply (patch_secret a p)
        (if auth_kind old =s ap_Kind a then from_option id "" (auth_secrets old !! p) else "").
Proof.
  unfold AuthPatch_apply.
  repeat match goal with |- context [ap_Kind a =s ?k] =>
    destruct (String.eqb_spec (ap_Kind a) k) as [->|] end; simpl; intros H;
  try (by rewrite lookup_empty in H);
  repeat match goal with
  | H : <[_ := _]> _ !! _ = Some _ |- _ =>
      apply lookup_insert_Some in H as [[<- <-]|[? H]]
  | H : {[_ := _]} !! _ = Some _ |- _ => apply lookup_singleton_Some in H as [<- <-]
  end;
  destruct old; reflexivity.
Qed.

Lemma AuthPatch_apply_name a old p v :
  auth_names (AuthPatch_apply a old) !! p = Some v →
  v = from_option id
        (if auth_kind old =s ap_Kind a then from_option id "" (auth_names old !! p) else "")
        (patch_name a p).
Proof.
  unfold AuthPatch_apply.
  repeat match goal with |- context [ap_Kind a =s ?k] =>
    destruct (String.eqb_spec (ap_Kind a) k) as [->|] end; simpl; intros H;
  try (by rewrite lookup_empty in H);
  apply lookup_singleton_Some in H as [<- <-]; destruct old; reflexivity.
Qed.

Lemma AuthPatch_apply_kind a old :
  ap_Kind a ∈ auth_kinds → auth_kind (AuthPatch_apply a old) = ap_Kind a.
Proof.
  intros Hk. unfold auth_kinds in Hk.
  repeat (apply elem_of_cons in Hk as [E|Hk]; [unfold AuthPatch_apply; rewrite !E; reflexivity|]).
  by apply elem_of_nil in Hk.
Qed.

Section Merge.
Context {P : Platform} {F : ApiFields} {B : Boundary}.

(** What the JSON codec of a node does: a valid node is read back. *)
Definition NodeRoundTrip : Prop :=
  ∀ n, Node_Validate n = None → ∃ text, marshalNode n = Some text ∧ DecodeNode text = Some n.

Lemma cloneNode_ok n : NodeRoundTrip → Node_Validate n = None → cloneNode n = Ok n.
Proof. intros HR Hn. unfold cloneNode. destruct (HR n Hn) as (t & Hm & Hd). by rewrite Hn, Hm, Hd. Qed.

Definition patch_of (d : Document) : NodePatch := from_option id empty_patch (ov_Node d).

(** The effective node, field by field. *)
Record Effective (base next : Node) (p : NodePatch) : Prop := {
  eff_valid : Node_Validate next = None;
  eff_version : n_SchemaVersion next = n_SchemaVersion base;
  eff_protocol : n_Protocol next = n_Protocol base;
  eff_origin : n_Origin next = n_Origin base;
  eff_endpoint : n_Endpoint next = from_option id (n_Endpoint base) (np_Endpoint p);
  eff_auth : n_Auth next =
    from_option (λ a, AuthPatch_apply a (n_Auth base)) (n_Auth base) (np_Auth p);
  eff_transport : match np_Transport p with
                  | Some t => transport_of t = Ok (n_Transport next)
                  | None => n_Transport next = n_Transport base
                  end;
  eff_security : match np_Security p with
                 | Some s => security_of s (n_Security base) = Ok (n_Security next)
                 | None => n_Security next = n_Security base
                 end;
  eff_features : n_Features next = from_option id (n_Features base) (np_Features p) }.

Lemma Effective_empty base p :
  Node_Validate base = None → nodePatchEmpty (Some p) = true → Effective base base p.
Proof.
  intros Hv He. simpl in He. repeat (apply andb_true_iff in He as [He ?]).
  destruct p as [[] [] [] [] [] []]; try discriminate. by split.
Qed.

Lemma NodePatch_Apply_ok p base next :
  NodeRoundTrip → Node_Validate base = None → NodePatch_Apply p base = Ok next →
  np_Protocol p = None → Effective base next p.
Proof.
  intros HR Hv Ha Hp. unfold NodePatch_Apply in Ha. destruct (ValidateDTO _ _); [done|].
  rewrite cloneNode_ok in Ha by done.
  destruct (np_Transport p) as [t|] eqn:Et; [destruct (transport_of t) as [t'|] eqn:Et'; [|done]|];
    (destruct (np_Security p) as [s|] eqn:Es;
      [destruct (security_of s _) as [s'|] eqn:Es'; [|done]|]);
    rewrite ?Hp in Ha; cbn [from_option] in Ha;
    (match type of Ha with context [Node_Validate ?x] =>
       destruct (Node_Validate x) eqn:En; [discriminate Ha|] end);
    injection Ha as <-; split; cbn [n_SchemaVersion n_Protocol n_Origin n_Endpoint n_Auth n_Transport
      n_Security n_Features]; rewrite ?Et, ?Es; first [exact En|assumption|reflexivity].
Qed.


Lemma override_Merge_ok base name d next name' fields :
  NodeRoundTrip → override_Merge base name d = Ok (next, name', fields) →
  Node_Validate base = None ∧ names_protocol d = false ∧ fields = Fields d ∧
  name' = from_option id name (ov_Name d) ∧ Effective base next (patch_of d).
Proof.
  intros HR H. unfold override_Merge in H. destruct (Node_Validate base) eqn:Hb; [done|].
  destruct (names_protocol d) eqn:Hp; [done|]. unfold patch_of.
  destruct (ov_Node d) as [p|] eqn:Ed; simpl in H.
  2: { rewrite Hb in H. injection H as <- <- <-. split_and!; try done; by apply Effective_empty. }
  unfold names_protocol in Hp. rewrite Ed in Hp.
  assert (np_Protocol p = None) as Hnp by (by destruct (np_Protocol p)).
  destruct (_ && _) eqn:He in H.
  { rewrite Hb in H. injection H as <- <- <-. split_and!; try done; by apply Effective_empty. }
  destruct (NodePatch_Apply p base) as [m|] eqn:Ha; [|done].
  destruct (Node_Validate (set_origin _ _)) eqn:Hm; [done|]. injection H as <- <- <-.
  split_and!; try done. destruct (NodePatch_Apply_ok p base m HR Hb Ha Hnp) as [? ? ? ? ? ? ? ? ?].
  by split.
Qed.

(** An empty document leaves the source. *)
Lemma override_Merge_empty base name d :
  Node_Validate base = None → Empty d = true → override_Merge base name d = Ok (base, name, []).
Proof.
  intros Hv He. assert (Fields d = []) as Hf by (by apply Fields_nil).
  unfold Empty in He. apply andb_true_iff in He as [Hn Hp].
  unfold override_Merge, names_protocol. rewrite Hv, Hf.
  destruct (ov_Name d); [done|]. destruct (ov_Node d) as [p|]; [|by rewrite Hv].
  assert (given (np_Protocol p) = false) as ->.
  { simpl in Hp. repeat (apply andb_true_iff in Hp as [Hp ?]). unfold given. by rewrite Hp. }
  rewrite Hp. by rewrite Hv.
Qed.

End Merge.

(** * The overrides on shared patches

    What the code does through its pointers reads back as what the values say, and nothing
    is written but the patches of the document that is restored. *)

(** No pointer dangles. *)
Definition valid_object (h : Heap) (n : NodeObject) : Prop :=
  (∀ l, np_Auth n = Some l → is_Some (h_auths h !! l)) ∧
  (∀ l, np_Security n = Some l → is_Some (h_securities h !! l)).
Definition valid_pointer (h : Heap) (p : option loc) : Prop :=
  ∀ l, p = Some l → ∃ n, h_nodes h !! l = Some n ∧ valid_object h n.
Definition valid_document (h : Heap) (d : DocumentRef) : Prop := valid_pointer h (ov_Node d).

(** [h'] is [h] up to the objects of a document. *)
Record Framed (h : Heap) (node auth security : option loc) (h' : Heap) : Prop := {
  framed_nodes : ∀ l, node ≠ Some l → h_nodes h' !! l = h_nodes h !! l;
  framed_auths : ∀ l, auth ≠ Some l → h_auths h' !! l = h_auths h !! l;
  framed_securities : ∀ l, security ≠ Some l → h_securities h' !! l = h_securities h !! l }.

Definition drops {A} (o o' : option A) : Prop := o' = None ∨ o' = o.
Lemma drops_refl {A} (o : option A) : drops o o.
Proof. by right. Qed.
Lemma drops_trans {A} (o1 o2 o3 : option A) : drops o1 o2 → drops o2 o3 → drops o1 o3.
Proof. intros H1 [->| ->]; [by left|done]. Qed.
Lemma drops_ne {A} (o o' : option A) x : drops o o' → o ≠ Some x → o' ≠ Some x.
Proof. by intros [->| ->]. Qed.
Lemma drops_Some {A} (o o' : option A) x : drops o o' → o' = Some x → o = Some x.
Proof. by intros [->| ->]. Qed.

Lemma Framed_refl h n a s : Framed h n a s h.
Proof. by split. Qed.

Lemma Framed_trans h1 n1 a1 s1 h2 n2 a2 s2 h3 :
  Framed h1 n1 a1 s1 h2 → drops n1 n2 → drops a1 a2 → drops s1 s2 → Framed h2 n2 a2 s2 h3 →
  Framed h1 n1 a1 s1 h3.
Proof.
  intros [A1 B1 C1] Hn Ha Hs [A2 B2 C2]. split; intros l Hl.
  - rewrite A2 by (by eapply drops_ne). by apply A1.
  - rewrite B2 by (by eapply drops_ne). by apply B1.
  - rewrite C2 by (by eapply drops_ne). by apply C1.
Qed.

(** What one edit does to the objects of a document. *)
Record Edited (h : Heap) (d : DocumentRef) (e : FieldEdit) (h' : Heap) (d' : DocumentRef) : Prop := {
  edited_valid : valid_document h' d';
  edited_read : read_document h' d' = edit_value e (read_document h d);
  edited_frame : Framed h (ov_Node d) (auth_of h d) (security_at h d) h';
  edited_node : ov_Node d' = ov_Node d;
  edited_auth : drops (auth_of h d) (auth_of h' d');
  edited_security : drops (security_at h d) (security_at h' d') }.

(** The edits of a node patch only let go of pointers, and commute with reading. *)
Lemma node_edit p f :
  restore_field p = Some (Edit_node f) →
  (∀ h n, read_node h (f _ _ n) = f _ _ (read_node h n)) ∧
  (∀ A S (n : NodePatchOf A S), drops (np_Auth n) (np_Auth (f _ _ n)) ∧
                                drops (np_Security n) (np_Security (f _ _ n))).
Proof.
  intros He. assert (p ∈ field_paths) as Hp by (apply restore_field_known; eauto).
  each_path Hp; vm_compute in He; try discriminate He; injection He as <-;
    (split; [by intros ? []|]); intros A S n; split; first [by left|by right].
Qed.

Lemma lookup_alter_opt {A} (f : A → A) o m l :
  alter_opt f o m !! l = if bool_decide (o = Some l) then f <$> m !! l else m !! l.
Proof.
  unfold alter_opt. destruct o as [k|]; [|by rewrite bool_decide_eq_false_2].
  destruct (decide (k = l)) as [->|Hne].
  - rewrite lookup_alter_eq. by rewrite bool_decide_eq_true_2.
  - rewrite lookup_alter_ne by done. rewrite bool_decide_eq_false_2; [done|congruence].
Qed.

Lemma alter_opt_other {A} (f : A → A) o (m : gmap loc A) l :
  o ≠ Some l → alter_opt f o m !! l = m !! l.
Proof. intros Hl. rewrite lookup_alter_opt. by rewrite bool_decide_eq_false_2. Qed.

Lemma alter_opt_same {A} (f : A → A) (m : gmap loc A) l :
  alter_opt f (Some l) m !! l = f <$> m !! l.
Proof. rewrite lookup_alter_opt. by rewrite bool_decide_eq_true_2. Qed.

Lemma alter_opt_some {A} (f : A → A) o (m : gmap loc A) l :
  is_Some (m !! l) → is_Some (alter_opt f o m !! l).
Proof.
  intros [x Hx]. rewrite lookup_alter_opt, Hx. destruct (bool_decide _); eauto.
Qed.

(** A document without a node patch is only its name. *)
Lemma edited_none h d e :
  ov_Node d = None → Edited h d e (edit_heap e (h, d)).1 (edit_heap e (h, d)).2.
Proof.
  intros Hd. destruct d as [v n o]; simpl in Hd; subst o.
  destruct e; split; try (intros l Hl; done); try apply Framed_refl; try done; try (by right);
    split; done.
Qed.

Lemma edited_some p e h d l n :
  restore_field p = Some e → ov_Node d = Some l → h_nodes h !! l = Some n → valid_object h n →
  Edited h d e (edit_heap e (h, d)).1 (edit_heap e (h, d)).2.
Proof.
  intros He Hd Hl [Ha Hs]. destruct d as [v nm o]; simpl in Hd; subst o.
  assert (auth_of h {| ov_SchemaVersion := v; ov_Name := nm; ov_Node := Some l |} = np_Auth n) as Ea
    by (unfold auth_of, node_of; simpl; by rewrite Hl).
  assert (security_at h {| ov_SchemaVersion := v; ov_Name := nm; ov_Node := Some l |}
          = np_Security n) as Es by (unfold security_at, node_of; simpl; by rewrite Hl).
  destruct e as [|f|f|f]; simpl.
  - split; simpl; rewrite ?Ea, ?Es; try apply Framed_refl; try done; try (by right).
    intros l' [= <-]. by exists n.
  - destruct (node_edit _ _ He) as [Hr Hdrop]. destruct (Hdrop _ _ n) as [Hda Hds].
    split; simpl.
    + intros l' [= <-]. exists (f _ _ n). simpl. rewrite alter_opt_same, Hl. split; [done|].
      split; intros l' Hl'; [apply Ha|apply Hs]; eauto using drops_Some.
    + unfold read_document, on_node, node_of. simpl. by rewrite alter_opt_same, Hl; simpl; rewrite Hr.
    + rewrite Ea, Es. split; simpl; try done. intros l' Hl'. by apply alter_opt_other.
    + done.
    + rewrite Ea. unfold auth_of, node_of. simpl. by rewrite alter_opt_same, Hl.
    + rewrite Es. unfold security_at, node_of. simpl. by rewrite alter_opt_same, Hl.
  - rewrite Ea. split; simpl.
    + intros l' [= <-]. exists n. split; [done|]. split; simpl; [|done].
      intros l' Hl'. by apply alter_opt_some, Ha.
    + unfold read_document, on_node, node_of. simpl. rewrite Hl. simpl. f_equal. f_equal.
      unfold read_node, on_auth. simpl. f_equal.
      destruct (np_Auth n) as [la|] eqn:Ela; [|done]. cbn [mbind option_bind].
      by rewrite alter_opt_same.
    + rewrite Ea, Es. split; simpl; try done. intros l' Hl'. by apply alter_opt_other.
    + done.
    + rewrite Ea. unfold auth_of, node_of. simpl. rewrite Hl. by right.
    + rewrite Es. unfold security_at, node_of. simpl. rewrite Hl. by right.
  - rewrite Es. split; simpl.
    + intros l' [= <-]. exists n. split; [done|]. split; simpl; [done|].
      intros l' Hl'. by apply alter_opt_some, Hs.
    + unfold read_document, on_node, node_of. simpl. rewrite Hl. simpl. f_equal. f_equal.
      unfold read_node, on_security. simpl. f_equal.
      destruct (np_Security n) as [la|] eqn:Ela; [|done]. cbn [mbind option_bind].
      by rewrite alter_opt_same.
    + rewrite Ea, Es. split; simpl; try done. intros l' Hl'. by apply alter_opt_other.
    + done.
    + rewrite Ea. unfold auth_of, node_of. simpl. rewrite Hl. by right.
    + rewrite Es. unfold security_at, node_of. simpl. rewrite Hl. by right.
Qed.

Lemma edited p e h d :
  restore_field p = Some e → valid_document h d →
  Edited h d e (edit_heap e (h, d)).1 (edit_heap e (h, d)).2.
Proof.
  intros He Hv. destruct (ov_Node d) as [l|] eqn:Hd; [|by apply edited_none].
  destruct (Hv l Hd) as (n & Hl & Hn). by eapply edited_some.
Qed.

(** The loop of [Restore] through pointers. *)
Lemma restore_loop_heap paths seen h d :
  valid_document h d →
  let r := restore_loop edit_heap paths seen (h, d) in
  r.1 = (restore_loop edit_value paths seen (read_document h d)).1 ∧
  valid_document r.2.1 r.2.2 ∧
  read_document r.2.1 r.2.2 = (restore_loop edit_value paths seen (read_document h d)).2 ∧
  Framed h (ov_Node d) (auth_of h d) (security_at h d) r.2.1 ∧ ov_Node r.2.2 = ov_Node d.
Proof.
  revert seen h d. induction paths as [|p paths IH]; intros seen h d Hv; cbn [restore_loop].
  { split_and!; try done; apply Framed_refl. }
  destruct (_ || _); [split_and!; try done; apply Framed_refl|].
  destruct (restore_field p) as [e|] eqn:He; [|split_and!; try done; apply Framed_refl].
  destruct (edited p e h d He Hv) as [Hv' Hr Hf Hn Ha Hs].
  destruct (edit_heap e (h, d)) as [h' d']. cbn [fst snd] in *.
  destruct (IH ({[p]} ∪ seen) h' d' Hv') as (E1 & E2 & E3 & E4 & E5). rewrite Hr in E1, E3.
  split_and!; [done|done|done| |congruence].
  eapply Framed_trans; [exact Hf| |exact Ha|exact Hs|exact E4]. rewrite Hn. apply drops_refl.
Qed.

Lemma nodePatchEmpty_read h d :
  valid_document h d → nodePatchEmpty (ov_Node (read_document h d)) = nodePatchEmpty (node_of h d).
Proof.
  intros Hv. unfold read_document, node_of. simpl. destruct (ov_Node d) as [l|] eqn:Hd; [|done].
  simpl. destruct (Hv l Hd) as (n & Hl & Ha & Hs). rewrite Hl. simpl.
  destruct n as [pr en [la|] tr [ls|] fe]; simpl in *;
    repeat match goal with
    | H : ∀ l, Some ?x = Some l → _ |- _ => destruct (H x eq_refl) as [? ->]; clear H
    end; reflexivity.
Qed.

(** A run through pointers agrees with the run on values. *)
Definition agrees (h : Heap) (r : result OverrideError DocumentRef)
    (v : result OverrideError Document) : Prop :=
  match r, v with
  | Ok d, Ok d' => valid_document h d ∧ read_document h d = d'
  | Err e, Err e' => e = e'
  | _, _ => False
  end.

Lemma Restore_ref_spec h d paths :
  valid_document h d →
  agrees (Restore_ref h d paths).1 (Restore_ref h d paths).2 (Restore (read_document h d) paths) ∧
  Framed h (ov_Node d) (auth_of h d) (security_at h d) (Restore_ref h d paths).1.
Proof.
  intros Hv. unfold Restore_ref, Restore. destruct paths as [|p paths].
  { split; [done|apply Framed_refl]. }
  generalize (p :: paths). clear p paths. intros paths.
  destruct (restore_loop_heap paths ∅ h d Hv) as (E1 & E2 & E3 & E4 & E5).
  destruct (restore_loop edit_heap paths ∅ (h, d)) as [o [h' d']].
  destruct (restore_loop edit_value paths ∅ (read_document h d)) as [o' v]. cbn [fst snd] in *. subst o' v.
  destruct o as [e|]; (split; [|done]); [done|]. unfold drop_empty. rewrite nodePatchEmpty_read by done.
  destruct (nodePatchEmpty (node_of h' d')); by split.
Qed.

(** Merging copies pointers, so it commutes with reading. *)
Lemma read_empty h n :
  valid_object h n → nodePatchEmpty (Some (read_node h n)) = nodePatchEmpty (Some n).
Proof.
  intros Hn.
  set (h' := on_nodes (λ m, <[1%positive := n]> m) h).
  assert (valid_document h' {| ov_SchemaVersion := 0; ov_Name := None; ov_Node := Some 1%positive |}) as Hv.
  { intros l [= <-]. exists n. split; [by apply lookup_insert_eq|done]. }
  apply nodePatchEmpty_read in Hv. unfold read_document, node_of in Hv. simpl in Hv.
  by rewrite lookup_insert_eq in Hv.
Qed.

Lemma bind_or_old {A B} (f : A → option B) (a b : option A) :
  (∀ x, a = Some x → is_Some (f x)) → or_old a b ≫= f = or_old (a ≫= f) (b ≫= f).
Proof. intros H. destruct a as [x|]; [|done]. simpl. by destruct (H x eq_refl) as [y ->]. Qed.

Lemma mergeNodePatch_read h old add :
  (∀ n, old = Some n → valid_object h n) → (∀ n, add = Some n → valid_object h n) →
  mergeNodePatch (read_node h <$> old) (read_node h <$> add) =
    match mergeNodePatch old add with
    | Ok o => Ok (read_node h <$> o)
    | Err e => Err e
    end ∧
  (∀ n, mergeNodePatch old add = Ok (Some n) → valid_object h n).
Proof.
  intros Ho Ha. destruct add as [add|]; [|split; [done|by intros n [= ->]; apply Ho]].
  destruct (Ha add eq_refl) as [Haa Has]. clear Ha. unfold mergeNodePatch. cbn [fmap option_fmap option_map].
  change (np_Protocol (read_node h add)) with (np_Protocol add).
  destruct (negb (absent (np_Protocol add))); [done|].
  set (next := {| np_Protocol := _ |}). set (next' := {| np_Protocol := np_Protocol (from_option id empty_patch old) |}).
  assert (valid_object h next') as Hv'.
  { assert (valid_object h (from_option id empty_patch old)) as [Hoa Hos].
    { destruct old; [by apply Ho|by split]. }
    split; simpl; intros l; [destruct (np_Auth add) eqn:E|destruct (np_Security add) eqn:E];
      simpl; auto; intros [= ->]; auto. }
  assert (next = read_node h next') as ->.
  { unfold next, next', read_node. simpl. rewrite !bind_or_old by done. by destruct old. }
  rewrite read_empty by done. destruct (nodePatchEmpty _); split; try done. by intros n [= <-].
Qed.

(** The pointers a combined document shares: the request's where it has one, else those
    of the old document. *)
Definition shared_auth (h : Heap) (old : DocumentRef) (node : option loc) : option loc :=
  or_old (node ≫= λ l, h_nodes h !! l ≫= np_Auth) (auth_of h old).
Definition shared_security (h : Heap) (old : DocumentRef) (node : option loc) : option loc :=
  or_old (node ≫= λ l, h_nodes h !! l ≫= np_Security) (security_at h old).

Lemma mergeNodePatch_pointers {A S} (old : option (NodePatchOf A S)) add n :
  mergeNodePatch old (Some add) = Ok (Some n) →
  np_Auth n = or_old (np_Auth add) (old ≫= np_Auth) ∧
  np_Security n = or_old (np_Security add) (old ≫= np_Security).
Proof.
  unfold mergeNodePatch. destruct (negb _); [done|]. destruct (nodePatchEmpty _); [done|].
  intros [= <-]. simpl. by destruct old.
Qed.


(** Merging: the pointer it gives reads back as the merged value, the objects that were
    there are there still. *)
Lemma merge_ref_spec h old add n :
  valid_document h old → h_nodes h !! add = Some n → valid_object h n →
  let h' := (merge_ref h old add).1 in
  (∀ l x, h_nodes h !! l = Some x → h_nodes h' !! l = Some x) ∧
  h_auths h' = h_auths h ∧ h_securities h' = h_securities h ∧
  match (merge_ref h old add).2, mergeNodePatch (ov_Node (read_document h old)) (Some (read_node h n)) with
  | Ok p, Ok v => valid_pointer h' p ∧ (p ≫= λ l, read_node h' <$> h_nodes h' !! l) = v ∧
      (∀ l, p = Some l → h_nodes h !! l = None ∧
         h_nodes h' !! l ≫= np_Auth = shared_auth h old (Some add) ∧
         h_nodes h' !! l ≫= np_Security = shared_security h old (Some add))
  | Err e, Err e' => e = e'
  | _, _ => False
  end.
Proof.
  intros Hv Hn Hon. unfold merge_ref.
  assert (shared_auth h old (Some add) = or_old (np_Auth n) (auth_of h old)) as ->
    by (unfold shared_auth; cbn [mbind option_bind]; by rewrite Hn).
  assert (shared_security h old (Some add) = or_old (np_Security n) (security_at h old)) as ->
    by (unfold shared_security; cbn [mbind option_bind]; by rewrite Hn).
  destruct (mergeNodePatch_read h (node_of h old) (Some n)) as [Hr Hval].
  { intros x Hx. unfold node_of in Hx. destruct (ov_Node old) as [l|] eqn:E; [|done].
    destruct (Hv l E) as (y & Hy & ?). simpl in Hx. congruence. }
  { by intros ? [= <-]. }
  cbn [fmap option_fmap option_map] in Hr. rewrite Hn.
  change (ov_Node (read_document h old)) with (read_node h <$> node_of h old). rewrite Hr.
  destruct (mergeNodePatch (node_of h old) (Some n)) as [[next|]|e] eqn:Em; cbn [fst snd]; [|by split_and!..].
  set (l := fresh (dom (h_nodes h))).
  assert (h_nodes h !! l = None) as Hl by (apply not_elem_of_dom, is_fresh).
  destruct (mergeNodePatch_pointers _ _ _ Em) as [Hpa Hps].
  split_and!; try done.
  - intros l' x Hx. simpl. rewrite lookup_insert_ne; [done|congruence].
  - intros l' [= <-]. exists next. split; [apply lookup_insert_eq|]. exact (Hval next eq_refl).
  - simpl. by rewrite lookup_insert_eq.
  - intros l' [= <-]. split; [done|]. simpl. by rewrite lookup_insert_eq.
Qed.

Lemma Combine_ref_spec h old name node restore :
  valid_document h old → valid_pointer h node →
  let r := Combine_ref h old name node restore in
  agrees r.1 r.2
    (Combine (read_document h old) name (node ≫= λ l, read_node h <$> h_nodes h !! l) restore) ∧
  (∀ l x, h_nodes h !! l = Some x → node ≠ None ∨ ov_Node old ≠ Some l → h_nodes r.1 !! l = Some x) ∧
  (∀ l, shared_auth h old node ≠ Some l → h_auths r.1 !! l = h_auths h !! l) ∧
  (∀ l, shared_security h old node ≠ Some l → h_securities r.1 !! l = h_securities h !! l).
Proof.
  intros Hv Hp. unfold Combine_ref, Combine. destruct node as [add|]; cbn [mbind option_bind].
  - destruct (Hp add eq_refl) as (n & Hn & Hon). rewrite Hn. cbn [fmap option_fmap option_map].
    destruct (merge_ref_spec h old add n Hv Hn Hon) as (K1 & K2 & K3 & K4).
    assert (∀ (o : option NodePatch), (if given (np_Protocol (read_node h n)) then Err ErrProtocol
              else mergeNodePatch o (Some (read_node h n))) = mergeNodePatch o (Some (read_node h n))) as ->.
    { intros o. unfold mergeNodePatch, given. by destruct (negb _). }
    destruct (merge_ref h old add) as [h1 [p|e]]; cbn [fst snd] in *;
      destruct (mergeNodePatch (ov_Node (read_document h old)) _) as [v|e']; try done.
    2: { subst e'. split_and!; [done|auto|by rewrite K2|by rewrite K3]. }
    destruct K4 as (Hvp & Hrd & Hsh).
    set (d := {| ov_SchemaVersion := SchemaVersion; ov_Name := or_old name (ov_Name old); ov_Node := p |}).
    destruct (Restore_ref_spec h1 d restore Hvp) as [Hag [F1 F2 F3]].
    assert (read_document h1 d = {| ov_SchemaVersion := SchemaVersion;
              ov_Name := or_old name (ov_Name (read_document h old)); ov_Node := v |}) as Hd.
    { unfold read_document, d, node_of. simpl. f_equal. rewrite <-Hrd. by destruct p. }
    rewrite Hd in Hag. split_and!; [exact Hag| | |].
    + intros l x Hx _. rewrite F1; [by apply K1|]. intros E. simpl in E. destruct (Hsh l E) as [? _]. congruence.
    + intros l Hl. rewrite F2, K2; [done|]. unfold auth_of, node_of, d. cbn [ov_Node].
      destruct p as [l'|]; [|done]. cbn [mbind option_bind]. destruct (Hsh l' eq_refl) as (_ & -> & _). done.
    + intros l Hl. rewrite F3, K3; [done|]. unfold security_at, node_of, d. cbn [ov_Node].
      destruct p as [l'|]; [|done]. cbn [mbind option_bind]. destruct (Hsh l' eq_refl) as (_ & _ & ->). done.
  - set (d := {| ov_SchemaVersion := SchemaVersion; ov_Name := or_old name (ov_Name old);
                 ov_Node := ov_Node old |}).
    destruct (Restore_ref_spec h d restore Hv) as [Hag [F1 F2 F3]].
    split_and!; [exact Hag| |exact F2|exact F3].
    intros l x Hx [?|Hl]; [done|]. by rewrite F1.
Qed.
