(* ===== verification/ShareTypes.v ===== *)
(** The data of the share-link importer ([internal/importparse/types.go]): limits, codes
    and their messages, candidates with their isolated metadata, and the parser monad
    that carries a candidate through the functions of [uri.go] and [vmess.go]; with the
    identity of an imported item ([internal/origin/origin.go]). *)
From S2P Require Import Prelude Diagnostics IRTypes Hashes Json IRValidate Network Base64 URLText.

Definition FormatAuto := "auto".
Definition FormatText := "text".
Definition FormatBase64 := "base64".
Definition StatusValid := "valid".
Definition StatusInvalid := "invalid".
Definition StatusUnsupported := "unsupported".

Definition MaxDecodedBytes : Z := 10 * 1024 * 1024.
Definition MaxEntries : Z := 5000.
Definition MaxURIBytes : Z := 16 * 1024.
Definition MaxBase64Layers : nat := 2.

(** The codes of the importer, apart from those of [ir] with the same names. *)
Module Share.
Definition InvalidFormat : DiagnosticCode := "IMPORT_INVALID_FORMAT".
Definition EmptyInput : DiagnosticCode := "IMPORT_EMPTY_INPUT".
Definition InputTooLarge : DiagnosticCode := "IMPORT_INPUT_TOO_LARGE".
Definition DecodedTooLarge : DiagnosticCode := "IMPORT_DECODED_TOO_LARGE".
Definition TooManyEntries : DiagnosticCode := "IMPORT_TOO_MANY_ENTRIES".
Definition URITooLarge : DiagnosticCode := "IMPORT_URI_TOO_LARGE".
Definition TooManyLayers : DiagnosticCode := "IMPORT_TOO_MANY_BASE64_LAYERS".
Definition InvalidBase64 : DiagnosticCode := "IMPORT_INVALID_BASE64".
Definition InvalidUTF8 : DiagnosticCode := "IMPORT_INVALID_UTF8".
Definition NativeConfig : DiagnosticCode := "IMPORT_NATIVE_CONFIG_UNSUPPORTED".
Definition InvalidURI : DiagnosticCode := "IMPORT_INVALID_URI".
Definition UnknownScheme : DiagnosticCode := "IMPORT_UNKNOWN_SCHEME".
Definition DuplicateField : DiagnosticCode := "IMPORT_DUPLICATE_FIELD".
Definition RequiredField : DiagnosticCode := "IMPORT_REQUIRED_FIELD".
Definition InvalidValue : DiagnosticCode := "IMPORT_INVALID_VALUE".
Definition Unsupported : DiagnosticCode := "IMPORT_UNSUPPORTED_PARAMETER".
Definition UnknownMetadata : DiagnosticCode := "IMPORT_UNKNOWN_METADATA".
Definition UnsafeTLS : DiagnosticCode := "IMPORT_UNSAFE_TLS".
Definition Ambiguous : DiagnosticCode := "IMPORT_AMBIGUOUS_PARAMETER".
Definition IdentitySuggestion : DiagnosticCode := "IMPORT_IDENTITY_SUGGESTION".
Definition IdentityAmbiguous : DiagnosticCode := "IMPORT_IDENTITY_AMBIGUOUS".

Definition message (code : DiagnosticCode) : string :=
  if code =s InvalidFormat then "Choose auto, text, or base64 input format."
  else if code =s EmptyInput then "At least one nonblank share-link entry is required."
  else if code =s InputTooLarge then "The encoded input exceeds the import byte budget."
  else if code =s DecodedTooLarge then "Decoded input exceeds the 10 MiB budget."
  else if code =s TooManyEntries then "An import may contain at most 5000 nonblank entries."
  else if code =s URITooLarge then "A share link may contain at most 16 KiB."
  else if code =s TooManyLayers then "At most two Base64 list envelopes are allowed."
  else if code =s InvalidBase64 then "A strict standard or URL-safe Base64 list is required."
  else if code =s InvalidUTF8 then "Valid UTF-8 text is required."
  else if code =s NativeConfig then "Native JSON, YAML, and compressed configurations cannot be imported in P0."
  else if code =s InvalidURI then "A share link in a documented URI dialect is required."
  else if code =s UnknownScheme then "This share-link scheme is not supported."
  else if code =s DuplicateField then "Duplicate query or JSON fields are forbidden."
  else if code =s RequiredField then "A required connection or authentication field is missing."
  else if code =s Unsupported then "This connection parameter cannot be represented without changing its meaning."
  else if code =s UnknownMetadata then "Upstream metadata is isolated and is not part of the executable node."
  else if code =s UnsafeTLS then "Imported links cannot disable certificate verification."
  else if code =s Ambiguous then "Conflicting or ambiguous connection parameters are forbidden."
  else if code =s IdentitySuggestion then "A similar existing node is a suggestion only and was not merged."
  else if code =s IdentityAmbiguous then "Several existing nodes could match; choose a target explicitly."
  else "The value does not satisfy the documented import dialect.".

Definition issue (code : DiagnosticCode) (path : string) : Diagnostic :=
  {| d_Code := code; d_Severity := SeverityError; d_ResourceID := "";
     d_FieldPath := path; d_TargetKey := ""; d_Message := message code;
     d_SuggestedAction := "" |}.

Definition failure (code : DiagnosticCode) (path : string) : Diagnostics := [issue code path].
End Share.

(** ** Candidates *)

(** The metadata holds the raw JSON text of each isolated field. *)
Record Candidate := {
  cand_Index : Z; cand_Line : Z; cand_Name : string; cand_Dialect : string;
  cand_Status : string; cand_Node : option Node; cand_Diagnostics : Diagnostics;
  cand_Metadata : gmap string string }.

Definition candidate_Valid (c : Candidate) : bool :=
  (cand_Status c =s StatusValid) && bool_decide (cand_Node c ≠ None).

Record ImportResult := {
  ir_Format : string; ir_Base64Layers : nat; ir_Candidates : list Candidate }.

(** [c := Candidate{Line: 1, Status: StatusInvalid, Diagnostics: ir.Diagnostics{}}]. *)
Definition new_candidate : Candidate :=
  {| cand_Index := 0; cand_Line := 1; cand_Name := ""; cand_Dialect := "";
     cand_Status := StatusInvalid; cand_Node := None; cand_Diagnostics := [];
     cand_Metadata := ∅ |}.

Definition set_name (name : string) (c : Candidate) : Candidate :=
  {| cand_Index := cand_Index c; cand_Line := cand_Line c; cand_Name := name;
     cand_Dialect := cand_Dialect c; cand_Status := cand_Status c; cand_Node := cand_Node c;
     cand_Diagnostics := cand_Diagnostics c; cand_Metadata := cand_Metadata c |}.
Definition set_dialect (dialect : string) (c : Candidate) : Candidate :=
  {| cand_Index := cand_Index c; cand_Line := cand_Line c; cand_Name := cand_Name c;
     cand_Dialect := dialect; cand_Status := cand_Status c; cand_Node := cand_Node c;
     cand_Diagnostics := cand_Diagnostics c; cand_Metadata := cand_Metadata c |}.
Definition set_outcome (status : string) (node : option Node) (c : Candidate) : Candidate :=
  {| cand_Index := cand_Index c; cand_Line := cand_Line c; cand_Name := cand_Name c;
     cand_Dialect := cand_Dialect c; cand_Status := status; cand_Node := node;
     cand_Diagnostics := cand_Diagnostics c; cand_Metadata := cand_Metadata c |}.
Definition add_diagnostics (d : Diagnostics) (c : Candidate) : Candidate :=
  {| cand_Index := cand_Index c; cand_Line := cand_Line c; cand_Name := cand_Name c;
     cand_Dialect := cand_Dialect c; cand_Status := cand_Status c; cand_Node := cand_Node c;
     cand_Diagnostics := cand_Diagnostics c ++ d; cand_Metadata := cand_Metadata c |}.
Definition set_place (index line : Z) (c : Candidate) : Candidate :=
  {| cand_Index := index; cand_Line := line; cand_Name := cand_Name c;
     cand_Dialect := cand_Dialect c; cand_Status := cand_Status c; cand_Node := cand_Node c;
     cand_Diagnostics := cand_Diagnostics c; cand_Metadata := cand_Metadata c |}.

Definition unsupported_code (code : DiagnosticCode) : bool :=
  (code =s Share.Unsupported) || (code =s Share.UnknownScheme) || (code =s Share.NativeConfig).

(** [Candidate.fail]. *)
Definition candidate_fail (code : DiagnosticCode) (path : string) (c : Candidate) : Candidate :=
  add_diagnostics [Share.issue code path]
    (set_outcome (if unsupported_code code then StatusUnsupported else StatusInvalid) None c).

(** [Candidate.metadata]. *)
Definition candidate_metadata (key value : string) (c : Candidate) : Candidate :=
  {| cand_Index := cand_Index c; cand_Line := cand_Line c; cand_Name := cand_Name c;
     cand_Dialect := cand_Dialect c; cand_Status := cand_Status c; cand_Node := cand_Node c;
     cand_Diagnostics := cand_Diagnostics c;
     cand_Metadata := <[key := value]> (cand_Metadata c) |}.

Definition metadata_warning : Diagnostic :=
  {| d_Code := Share.UnknownMetadata; d_Severity := SeverityWarning; d_ResourceID := "";
     d_FieldPath := "/metadata"; d_TargetKey := ""; d_Message := Share.message Share.UnknownMetadata;
     d_SuggestedAction := "" |}.

(** [Candidate.warnMetadata]: one warning, however many fields are isolated. *)
Definition warnMetadata (c : Candidate) : Candidate :=
  if existsb (λ d, d_Code d =s Share.UnknownMetadata) (cand_Diagnostics c) then c
  else add_diagnostics [metadata_warning] c.

(** ** Parsers *)

(** A function that takes the candidate by pointer and returns [(value, error)]: what it
    has written to the candidate stays when it fails. *)
Definition Parser (A : Type) : Type := Candidate → result Diagnostics A * Candidate.

#[export] Instance parser_ret : MRet Parser := λ A a c, (Ok a, c).
#[export] Instance parser_bind : MBind Parser := λ A B f m c,
  match m c with
  | (Ok a, c) => f a c
  | (Err e, c) => (Err e, c)
  end.

Definition lift {A} (r : result Diagnostics A) : Parser A := λ c, (r, c).
Definition reject {A} (code : DiagnosticCode) (path : string) : Parser A :=
  λ c, (Err (Share.failure code path), c).
Definition modify (f : Candidate → Candidate) : Parser unit := λ c, (Ok tt, f c).
(** [if b { return ir.Node{}, failure(code, path) }]. *)
Definition refuse_if (b : bool) (code : DiagnosticCode) (path : string) : Parser unit :=
  if b then reject code path else mret tt.

(** [if err != nil { return ir.Node{}, failure(code, path) }]. *)
Definition or_fail {E A} (r : result E A) (code : DiagnosticCode) (path : string)
    : result Diagnostics A :=
  match r with Ok a => Ok a | Err _ => Err (Share.failure code path) end.
Definition some_or_fail {A} (o : option A) (code : DiagnosticCode) (path : string)
    : result Diagnostics A :=
  match o with Some a => Ok a | None => Err (Share.failure code path) end.

(** ** Libraries *)

(** A [netip.Addr] up to what the importer reads: its zone, whether it is an IPv6
    address, its text, and the text of [Unmap]. *)
Record HostAddr := { ha_Zone : string; ha_Is6 : bool; ha_Text : string; ha_Unmapped : string }.

(** The tokens of a [json.Decoder]: delimiters, strings, and every other scalar. *)
Inductive JToken := JDelim (c : ascii) | JString (s : string) | JScalar | JFailed.
(** One position of the stream: what [More] says there, and what [Token] gives. *)
Record JStep := { js_More : bool; js_Token : JToken }.

(** [url.Parse], [netip.ParseAddr], [idna.Lookup.ToASCII]; the tokens of a document up to
    the first failure ([io.EOF] where the list ends), [json.Unmarshal] into a map of raw
    values ([None] inside for [null]) and into a string. *)
Class ShareLibs := {
  share_Parse : string → option ShareURL;
  host_ParseAddr : string → option HostAddr;
  idna_ToASCII : string → option string;
  json_steps : string → list JStep;
  json_object : string → option (option (gmap string string));
  json_text : string → option string }.

(** ** Identity of imported items *)

Definition StableExternalKey := "stable_external_key".
Definition ManualBinding := "manual_binding".
Definition ExactFingerprint := "exact_fingerprint".
Definition Suggestion := "suggestion".
Definition Identity := "identity".
Definition Duplicate := "duplicate".
Definition Suggest := "suggestion".

Record Item := {
  im_SourceItemID : ID; im_ExternalKey : string; im_Fingerprint : string; im_Name : string;
  im_Protocol : Protocol; im_Host : string; im_Port : Z }.
Record OriginRecord := {
  og_NodeID : ID; og_Revision : Z; og_BoundSourceItemID : ID; og_ExternalKey : string;
  og_Fingerprint : string; og_Name : string; og_Protocol : Protocol; og_Host : string;
  og_Port : Z }.
Record Decision := {
  de_Kind : string; de_Method : string; de_NodeID : ID; de_Revision : Z; de_Ambiguous : bool }.

(** [^[A-Za-z0-9._:~-]{1,128}$]. *)
Definition external_key_char (c : ascii) : bool := is_letter c || is_digit c || one_of "._:~-" c.
Definition ParseExternalKey (value : string) : option string :=
  if all_chars external_key_char value && (1 <=? String.length value)%nat
     && (String.length value <=? 128)%nat
  then Some value else None.

Definition ExternalKeyFromMetadata `{ShareLibs} (metadata : gmap string string) : string :=
  match metadata !! "external_key" with
  | None => ""
  | Some raw =>
      match json_text raw with
      | None => ""
      | Some value => default "" (ParseExternalKey value)
      end
  end.

(** [collect]: one hit, or several of one node, decide; hits of several nodes are
    ambiguous and name none. *)
Definition collect (records : list OriginRecord) (keep : OriginRecord → bool)
    (kind method : string) : option Decision :=
  match filter (λ r, keep r = true) records with
  | [] => None
  | hit :: hits =>
      let ambiguous :=
        (1 <? length (hit :: hits))%nat &&
        (1 <? length (remove_dups (og_NodeID <$> hit :: hits)))%nat in
      Some {| de_Kind := kind; de_Method := method;
              de_NodeID := if ambiguous then "" else og_NodeID hit;
              de_Revision := if ambiguous then 0 else og_Revision hit;
              de_Ambiguous := ambiguous |}
  end.

(** The conditions of [Match], in the order in which they are tried. *)
Definition same_key (item : Item) (r : OriginRecord) : bool := og_ExternalKey r =s im_ExternalKey item.
Definition bound_to (item : Item) (r : OriginRecord) : bool :=
  og_BoundSourceItemID r =s im_SourceItemID item.
Definition same_fingerprint (item : Item) (r : OriginRecord) : bool :=
  og_Fingerprint r =s im_Fingerprint item.
Definition resembles (item : Item) (r : OriginRecord) : bool :=
  if negb (im_Fingerprint item =s "") && same_fingerprint item r then false
  else
    (negb (im_Protocol item =s "") && (og_Protocol r =s im_Protocol item)
     && (og_Host r =s im_Host item) && (og_Port r =? im_Port item)
     && negb (im_Host item =s "") && (0 <? im_Port item)) ||
    (negb (im_Name item =s "") && (og_Name r =s im_Name item) && (og_Protocol r =s im_Protocol item)).

Definition try_match (field : string) (records : list OriginRecord) (keep : OriginRecord → bool)
    (kind method : string) : option Decision :=
  if field =s "" then None else collect records keep kind method.

Definition Match (item : Item) (records : list OriginRecord) : option Decision :=
  match try_match (im_ExternalKey item) records (same_key item) Identity StableExternalKey with
  | Some d => Some d
  | None =>
      match try_match (im_SourceItemID item) records (bound_to item) Identity ManualBinding with
      | Some d => Some d
      | None =>
          match try_match (im_Fingerprint item) records (same_fingerprint item)
                  Duplicate ExactFingerprint with
          | Some d => Some d
          | None => collect records (resembles item) Suggest Suggestion
          end
      end
  end.
