(* ===== verification/ShareLink.v ===== *)
(** The share-link parsers ([internal/importparse/uri.go], [vmess.go]): links of the
    documented dialects become typed nodes, fields outside the dialect are isolated as
    metadata or refuse the link.

    The errors of these functions are [ir.Diagnostics], so the branch of [ParseURI] for
    another kind of error is not reached. *)
From S2P Require Import Prelude Diagnostics IRTypes Hashes Json IRValidate Network Base64 URLText ShareTypes.

Section ShareLink.
Context {P : Platform} {T : GoText} {L : ShareLibs}.

(** ** Text *)

(** [safeText]: the runes of a valid string below 0x80 are its bytes below 0x80. *)
Definition safeText (value : string) : bool :=
  ValidString value && all_chars (λ c, negb (byte_in 0 31 c || byte_in 127 127 c)) value.

Definition scheme_char (first : bool) (c : ascii) : bool :=
  is_letter c || negb first && (is_digit c || one_of "+-." c).

(** [uriScheme], with the text after the separator. *)
Definition uriScheme (raw : string) : option (string * string) :=
  match CutString "://" raw with
  | Some (String c rest as scheme, body) =>
      if scheme_char true c && all_chars (scheme_char false) rest
      then Some (ToLower scheme, body) else None
  | _ => None
  end.

Definition containsURI (data : string) : bool :=
  existsb (λ line, bool_decide (uriScheme (TrimSpace line) ≠ None)) (Split "010" data).

Definition compressed (data : string) : bool :=
  HasPrefix data (String "031" (String "139" "")) ||
  HasPrefix data ("PK" +:+ String "003" (String "004" "")) ||
  HasPrefix data (String "253" ("7zXZ" +:+ String "000" "")).

(** ** Base64 *)

Definition base64_space (c : ascii) : bool :=
  Ascii.eqb c " " || Ascii.eqb c "009" || Ascii.eqb c "013" || Ascii.eqb c "010".

Fixpoint drop_chars (f : ascii → bool) (s : string) : string :=
  match s with
  | EmptyString => ""
  | String c s => if f c then drop_chars f s else String c (drop_chars f s)
  end.

Definition decodeBase64 (raw : string) (whitespace : bool) : result Diagnostics string :=
  let raw := if whitespace then drop_chars base64_space raw else raw in
  if (raw =s "") || negb (all_chars (λ c, negb (base64_space c)) raw)
  then Err (Share.failure Share.InvalidBase64 "")
  else
    match base64_decode (ContainsAny raw "-_") (ContainsAny raw "=") raw with
    | Some decoded => Ok decoded
    | None => Err (Share.failure Share.InvalidBase64 "")
    end.

(** ** Hosts and ports *)

Definition decimalPort (raw : string) : result Diagnostics Z :=
  if raw =s "" then Err (Share.failure Share.RequiredField "/endpoint/port")
  else if negb (all_chars is_digit raw) then Err (Share.failure Share.InvalidValue "/endpoint/port")
  else
    match Atoi raw with
    | Some port =>
        if (port <? 1) || (65535 <? port) then Err (Share.failure Share.InvalidValue "/endpoint/port")
        else Ok port
    | None => Err (Share.failure Share.InvalidValue "/endpoint/port")
    end.

Definition normalizeHost (raw : string) : result Diagnostics string :=
  if (raw =s "") || negb (TrimSpace raw =s raw) || negb (ValidString raw)
  then Err (Share.failure Share.InvalidValue "")
  else
    match host_ParseAddr raw with
    | Some addr =>
        if negb (ha_Zone addr =s "") then Err (Share.failure Share.Unsupported "")
        else Ok (ha_Unmapped addr)
    | None =>
        if ContainsAny raw ":/[]%@?#\" then Err (Share.failure Share.InvalidValue "")
        else
          match idna_ToASCII raw with
          | None => Err (Share.failure Share.InvalidValue "")
          | Some text =>
              let text := ToLower (TrimSuffix text ".") in
              match Endpoint_Validate {| ep_Host := text; ep_Port := 1 |} with
              | Some _ => Err (Share.failure Share.InvalidValue "")
              | None => Ok text
              end
          end
    end.

Definition endpoint (u : ShareURL) (defaultPort : Z) : result Diagnostics Endpoint :=
  if (1 <? Count (su_Host u) ":")%nat && negb (HasPrefix (su_Host u) "[")
  then Err (Share.failure Share.InvalidURI "/endpoint")
  else
    let? host := or_fail (normalizeHost (su_Hostname u)) Share.InvalidValue "/endpoint/host" in
    if negb (su_Port u =s "") then
      let? port := decimalPort (su_Port u) in Ok {| ep_Host := host; ep_Port := port |}
    else if HasSuffix (su_Host u) ":" || (defaultPort =? 0)
    then Err (Share.failure Share.RequiredField "/endpoint/port")
    else Ok {| ep_Host := host; ep_Port := defaultPort |}.

(** ** Queries *)

Definition query_entry (out : gmap string string) (entry : string)
    : result Diagnostics (gmap string string) :=
  if (entry =s "") || ContainsAny entry ";" then Err (Share.failure Share.InvalidURI "/query")
  else
    let '(key, value) := cut_or_all "=" entry in
    match QueryUnescape key with
    | None => Err (Share.failure Share.InvalidURI "/query")
    | Some key =>
        if (key =s "") || negb (safeText key) then Err (Share.failure Share.InvalidURI "/query")
        else
          match QueryUnescape value with
          | None => Err (Share.failure Share.InvalidURI "/query")
          | Some value =>
              if negb (ValidString value) then Err (Share.failure Share.InvalidURI "/query")
              else if bool_decide (out !! key ≠ None)
              then Err (Share.failure Share.DuplicateField "/query")
              else Ok (<[key := value]> out)
          end
    end.

Fixpoint query_entries (out : gmap string string) (entries : list string)
    : result Diagnostics (gmap string string) :=
  match entries with
  | [] => Ok out
  | entry :: entries => let? out := query_entry out entry in query_entries out entries
  end.

Definition strictQuery (raw : string) : result Diagnostics (gmap string string) :=
  if raw =s "" then Ok ∅ else query_entries ∅ (Split "&" raw).

Definition metadataKey (key : string) : bool :=
  HasPrefix key "x-" || bool_decide (key ∈ ["external_key"; "remarks"; "remark"; "group"; "tag"; "name"]).

(** [sort.Strings] over the keys of a map. *)
Definition sorted_keys (m : gmap string string) : list string := sort_strings (map_to_list m).*1.

(** The loop of [isolateUnknown] and of [parseVMess]: fields outside [allowed] become
    metadata; [false] if one of them is not a metadata field. *)
Fixpoint isolate (allowed : list string) (text : string → string) (keys : list string)
    (c : Candidate) : bool * Candidate :=
  match keys with
  | [] => (true, c)
  | key :: keys =>
      if bool_decide (key ∈ allowed) then isolate allowed text keys c
      else
        let '(ok, c) := isolate allowed text keys
                          (warnMetadata (candidate_metadata key (text key) c)) in
        (metadataKey key && ok, c)
  end.

Definition isolate_or_refuse (allowed : list string) (text : string → string) (keys : list string)
    (path : string) : Parser unit := λ c,
  let '(ok, c) := isolate allowed text keys c in
  if ok then (Ok tt, c) else (Err (Share.failure Share.Unsupported path), c).

Definition query_text (q : gmap string string) (key : string) : string :=
  Marshal (Str (default "" (q !! key))).

Definition isolateUnknown (q : gmap string string) (allowed : list string) : Parser unit :=
  isolate_or_refuse allowed (query_text q) (sorted_keys q) "/query".

(** ** Transport and security *)

Definition has (q : gmap string string) (key : string) : bool := bool_decide (q !! key ≠ None).

Definition parseTransport (q : gmap string string) (defaultType : string)
    : result Diagnostics Transport :=
  let kind := default defaultType (q !! "type") in
  if kind =s "tcp" then
    if has q "path" then Err (Share.failure Share.Unsupported "/transport/path")
    else if has q "host" then Err (Share.failure Share.Unsupported "/transport/host")
    else Ok (Transport_TCP {| tcp_Kind := NativeTCP |})
  else if kind =s "ws" then
    let path := default "/" (q !! "path") in
    match q !! "host" with
    | None => Ok (Transport_WS {| ws_Kind := WebSocket; ws_Path := path; ws_Host := None |})
    | Some v =>
        let? host := or_fail (normalizeHost v) Share.InvalidValue "/transport/host" in
        Ok (Transport_WS {| ws_Kind := WebSocket; ws_Path := path; ws_Host := Some host |})
    end
  else Err (Share.failure Share.Unsupported "/transport").

Definition insecure_keys : list string := ["allowInsecure"; "insecure"; "skip-cert-verify"].
Definition verify_path : string := "/security/verify_certificate".

Definition check_insecure (q : gmap string string) : error :=
  range_err (λ _ key,
    match q !! key with
    | None => None
    | Some value =>
        if (value =s "1") || (value =s "true") then Some (Share.failure Share.UnsafeTLS verify_path)
        else if negb (value =s "0") && negb (value =s "false")
        then Some (Share.failure Share.InvalidValue verify_path)
        else None
    end) insecure_keys.

Definition insecure_count (q : gmap string string) : nat :=
  length (filter (λ key, has q key = true) insecure_keys).

Definition parse_alpn (q : gmap string string) : result Diagnostics (list string) :=
  match q !! "alpn" with
  | None => Ok []
  | Some value =>
      let alpn := Split "," value in
      match
        range_err (λ i protocol,
          if (protocol =s "") || (255 <? String.length protocol)%nat || negb (safeText protocol)
             || ContainsAny protocol " " || seen_before id alpn i protocol
          then Some (Share.failure Share.InvalidValue "/security/alpn") else None) alpn
      with
      | Some err => Err err
      | None => Ok alpn
      end
  end.

Definition none_keys : list string := ["sni"; "alpn"; "fp"; "pbk"; "sid"] ++ insecure_keys.

Definition parseSecurity (q : gmap string string) (defaultMode host : string)
    : result Diagnostics Security :=
  let mode := default defaultMode (q !! "security") in
  match check_insecure q with
  | Some err => Err err
  | None =>
      if (1 <? insecure_count q)%nat then Err (Share.failure Share.Ambiguous verify_path)
      else if mode =s "none" then
        if existsb (has q) none_keys then Err (Share.failure Share.Unsupported "/security")
        else Ok (Security_None {| ns_Mode := SecurityNone |})
      else if negb (mode =s "tls") && negb (mode =s "reality")
      then Err (Share.failure Share.Unsupported "/security")
      else
        let? serverName :=
          match q !! "sni" with
          | None => Ok host
          | Some value => or_fail (normalizeHost value) Share.InvalidValue "/security/server_name"
          end in
        let? alpn := parse_alpn q in
        if mode =s "reality" then
          if existsb (λ key, match q !! key with
                             | None => true
                             | Some value => (value =s "") && negb (key =s "sid")
                             end) ["sni"; "pbk"; "sid"; "fp"]
          then Err (Share.failure Share.RequiredField "/security")
          else if (0 <? insecure_count q)%nat then Err (Share.failure Share.Unsupported verify_path)
          else
            Ok (Security_Reality
              {| rs_Mode := Reality; rs_ServerName := serverName;
                 rs_PublicKey := default "" (q !! "pbk");
                 rs_ShortID := ToLower (default "" (q !! "sid"));
                 rs_ClientFingerprint := default "" (q !! "fp"); rs_ALPN := alpn |})
        else if has q "pbk" then Err (Share.failure Share.Unsupported "/security/public_key")
        else if has q "sid" then Err (Share.failure Share.Unsupported "/security/short_id")
        else
          Ok (Security_TLS
            {| tls_Mode := TLS; tls_ServerName := serverName; tls_VerifyCertificate := Some true;
               tls_ALPN := alpn; tls_ClientFingerprint := q !! "fp" |})
  end.

(** ** Nodes from URLs *)

Definition no_features : Features :=
  {| ft_UDP := None; ft_Multiplex := None; ft_ProtocolVariant := None |}.
Definition make_node (protocol : Protocol) (e : Endpoint) (auth : Authentication)
    (transport : Transport) (security : Security) (features : Features) : Node :=
  {| n_SchemaVersion := SchemaVersion; n_Protocol := protocol; n_Endpoint := e; n_Auth := auth;
     n_Transport := transport; n_Security := security; n_Features := features;
     n_Origin := None |}.

Definition is_tcp (t : Transport) : bool :=
  match t with Transport_TCP _ => true | Transport_typed_nil v => v =s NativeTCP | _ => false end.
Definition is_tls (s : Security) : bool :=
  match s with Security_TLS _ => true | Security_typed_nil v => v =s TLS | _ => false end.
Definition is_reality (s : Security) : bool :=
  match s with Security_Reality _ => true | Security_typed_nil v => v =s Reality | _ => false end.

Definition supportedCombination (node : Node) : error :=
  let tcp := is_tcp (n_Transport node) in
  let tls := is_tls (n_Security node) in
  let reality := is_reality (n_Security node) in
  if ((n_Protocol node =s SOCKS5) || (n_Protocol node =s HTTP)) && negb tcp
  then Some (Share.failure Share.Unsupported "/transport")
  else if (n_Protocol node =s Trojan) && negb tls
          || reality && (negb (n_Protocol node =s VLESS) || negb tcp)
  then Some (Share.failure Share.Unsupported "/security")
  else if bool_decide (ft_ProtocolVariant (n_Features node) ≠ None)
          && (negb tcp || negb tls && negb reality)
  then Some (Share.failure Share.Unsupported "/features/protocol_variant")
  else None.

Definition url_allowed (scheme : string) : list string :=
  ["type"; "security"; "sni"; "alpn"; "fp"; "allowInsecure"; "insecure"; "skip-cert-verify"] ++
  (if (scheme =s "vless") || (scheme =s "trojan") then ["path"; "host"] else []) ++
  (if scheme =s "vless" then ["encryption"; "flow"; "pbk"; "sid"] else []).

(** The switch of [parseURLNode] over the scheme: the credentials, and the protocol
    variant of VLESS. *)
Definition url_auth (scheme : string) (u : ShareURL) (q : gmap string string)
    : result Diagnostics (Authentication * Features) :=
  let username := match su_User u with Some i => ui_Username i | None => "" end in
  let password := match su_User u with Some i => ui_Password i | None => None end in
  if scheme =s "vless" then
    if username =s "" then Err (Share.failure Share.RequiredField "/auth/uuid")
    else if bool_decide (password ≠ None) then Err (Share.failure Share.Ambiguous "/auth")
    else
      let auth := Auth_UUID {| ua_Kind := AuthUUID; ua_UUID := ToLower username |} in
      if has q "encryption" && negb (default "" (q !! "encryption") =s "none")
      then Err (Share.failure Share.Unsupported "/auth")
      else
        match q !! "flow" with
        | None => Ok (auth, no_features)
        | Some flow =>
            if negb (flow =s XTLSVision)
            then Err (Share.failure Share.Unsupported "/features/protocol_variant")
            else Ok (auth, {| ft_UDP := None; ft_Multiplex := None; ft_ProtocolVariant := Some flow |})
        end
  else if scheme =s "trojan" then
    if username =s "" then Err (Share.failure Share.RequiredField "/auth/password")
    else if bool_decide (password ≠ None) then Err (Share.failure Share.Ambiguous "/auth")
    else Ok (Auth_Password {| pa_Kind := AuthPassword; pa_Password := username |}, no_features)
  else
    match su_User u with
    | None => Ok (Auth_None {| na_Kind := AuthNone |}, no_features)
    | Some _ =>
        match password with
        | Some password =>
            if (username =s "") || (password =s "")
            then Err (Share.failure Share.RequiredField "/auth")
            else
              Ok (Auth_UsernamePassword
                {| upa_Kind := AuthUsernamePassword; upa_Username := username;
                   upa_Password := password |}, no_features)
        | None => Err (Share.failure Share.RequiredField "/auth")
        end
    end.

(** The part of [parseURLNode] after the isolation of unknown fields. *)
Definition url_node (scheme : string) (u : ShareURL) (q : gmap string string)
    : result Diagnostics Node :=
  let protocol := if scheme =s "https" then HTTP else scheme in
  let defaultPort := if scheme =s "http" then 80 else if scheme =s "https" then 443 else 0 in
  let? e := endpoint u defaultPort in
  let? auth := url_auth scheme u q in
  let? transport := parseTransport q "tcp" in
  let defaultSecurity := if (scheme =s "trojan") || (scheme =s "https") then "tls" else "none" in
  let given := default "" (q !! "security") in
  if ((scheme =s "http") || (scheme =s "https")) && negb (given =s "")
     && negb (given =s defaultSecurity)
  then Err (Share.failure Share.Ambiguous "/security")
  else
    let? security := parseSecurity q defaultSecurity (ep_Host e) in
    Ok (make_node protocol e auth.1 transport security auth.2).

Definition parseURLNode (raw scheme : string) : Parser Node :=
  u ← lift (some_or_fail (share_Parse raw) Share.InvalidURI "");
  _ ← refuse_if (negb (su_Opaque u =s "") || (su_Host u =s "")
                 || negb (su_Path u =s "") && negb (su_Path u =s "/")
                 || ContainsAny (su_Host u) " \") Share.InvalidURI "";
  _ ← modify (set_name (su_Fragment u));
  q ← lift (strictQuery (su_RawQuery u));
  _ ← isolateUnknown q (url_allowed scheme);
  lift (url_node scheme u q).

(** ** Shadowsocks *)

Definition ss_credentials (userinfo : string) : result Diagnostics (string * string) :=
  match Cut ":" userinfo with
  | Some (method, password) =>
      let? method := some_or_fail (PathUnescape method) Share.InvalidURI "/auth" in
      let? password := some_or_fail (PathUnescape password) Share.InvalidURI "/auth" in
      Ok (method, password)
  | None =>
      match decodeBase64 userinfo false with
      | Ok decoded =>
          if negb (ValidString decoded) then Err (Share.failure Share.InvalidBase64 "/auth")
          else some_or_fail (Cut ":" decoded) Share.RequiredField "/auth"
      | Err _ => Err (Share.failure Share.InvalidBase64 "/auth")
      end
  end.

Definition ss_methods : list string := [AES128GCM; AES256GCM; ChaCha20IETFPoly1305].

(** The part of [parseSS] after the isolation of unknown fields. *)
Definition ss_node (body : string) : result Diagnostics Node :=
  if negb (Count body "@" =? 1)%nat then Err (Share.failure Share.InvalidURI "/auth")
  else
    let '(userinfo, address) := cut_or_all "@" body in
    match share_Parse ("ss://" +:+ address) with
    | None => Err (Share.failure Share.InvalidURI "/endpoint")
    | Some u =>
        if (su_Host u =s "") || bool_decide (su_User u ≠ None)
           || negb (su_Path u =s "") && negb (su_Path u =s "/")
        then Err (Share.failure Share.InvalidURI "/endpoint")
        else
          let? e := endpoint u 0 in
          let? credentials := ss_credentials userinfo in
          let '(method, password) := credentials in
          if (method =s "") || (password =s "") then Err (Share.failure Share.RequiredField "/auth")
          else if negb (bool_decide (method ∈ ss_methods))
          then Err (Share.failure Share.Unsupported "/auth/method")
          else
            Ok (make_node Shadowsocks e
              (Auth_MethodPassword
                 {| mpa_Kind := AuthMethodPassword; mpa_Method := method; mpa_Password := password |})
              (Transport_TCP {| tcp_Kind := NativeTCP |}) (Security_None {| ns_Mode := SecurityNone |})
              no_features)
    end.

(** [body] is the text after the scheme. *)
Definition parseSS (body : string) : Parser Node :=
  let '(body, fragment) := cut_or_all "#" body in
  name ← lift (some_or_fail (PathUnescape fragment) Share.InvalidURI "/name");
  _ ← modify (set_name name);
  let '(body, query) := cut_or_all "?" body in
  q ← lift (strictQuery query);
  _ ← isolateUnknown q [];
  lift (ss_node body).
End ShareLink.
