(* ===== verification/ShareVMess.v ===== *)
(** The VMess JSON dialect ([internal/importparse/vmess.go]): a strict scan of the
    document before it is read (nesting, repeated fields, surrogates), then its scalar
    fields, then the checks it shares with the URL dialects. *)
From S2P Require Import Prelude Diagnostics IRTypes Hashes Json IRValidate Network Base64 URLText ShareTypes ShareLink.

(** ** The scan *)

Definition scan_error : Diagnostics := Share.failure Share.InvalidValue "/vmess".

(** [decoder.More()]. *)
Definition More (s : list JStep) : bool := match s with [] => false | x :: _ => js_More x end.

(** [decoder.Token()]: [None] for an error, [io.EOF] among them. *)
Definition Token (s : list JStep) : option (JToken * list JStep) :=
  match s with
  | [] => None
  | x :: s => match js_Token x with JFailed => None | token => Some (token, s) end
  end.

(** [end, err := decoder.Token(); err != nil || end != json.Delim(c)]. *)
Definition scan_end (c : ascii) (s : list JStep) : result Diagnostics (list JStep) :=
  match Token s with
  | Some (JDelim d, s) => if Ascii.eqb d c then Ok s else Err scan_error
  | _ => Err scan_error
  end.

(** [scanJSONValue]. Each call takes a token, each round of a loop calls: the fuel of one
    for every token is never exhausted; [seen] is the set of keys of the object. *)
Fixpoint scan (fuel depth : nat) (s : list JStep) : option (result Diagnostics (list JStep)) :=
  match fuel with
  | O => None
  | S fuel =>
      if (32 <? depth)%nat then Some (Err scan_error)
      else
        match Token s with
        | None => Some (Err scan_error)
        | Some (JDelim c, s) =>
            if Ascii.eqb c "{" then scan_fields fuel depth [] s
            else if Ascii.eqb c "[" then scan_items fuel depth s
            else Some (Err scan_error)
        | Some (_, s) => Some (Ok s)
        end
  end
with scan_fields (fuel depth : nat) (seen : list string) (s : list JStep)
    : option (result Diagnostics (list JStep)) :=
  match fuel with
  | O => None
  | S fuel =>
      if More s then
        match Token s with
        | Some (JString key, s) =>
            if bool_decide (key ∈ seen) then Some (Err (Share.failure Share.DuplicateField "/vmess"))
            else
              match scan fuel (S depth) s with
              | Some (Ok s) => scan_fields fuel depth (key :: seen) s
              | other => other
              end
        | _ => Some (Err scan_error)
        end
      else Some (scan_end "}" s)
  end
with scan_items (fuel depth : nat) (s : list JStep) : option (result Diagnostics (list JStep)) :=
  match fuel with
  | O => None
  | S fuel =>
      if More s then
        match scan fuel (S depth) s with
        | Some (Ok s) => scan_items fuel depth s
        | other => other
        end
      else Some (scan_end "]" s)
  end.

Definition scan_fuel (s : list JStep) : nat := (2 * length s + 2)%nat.
(** There is always enough ([scanJSONValue_runs]). *)
Definition scanJSONValue (s : list JStep) : result Diagnostics (list JStep) :=
  default (Err scan_error) (scan (scan_fuel s) 0 s).

(** ** Surrogates *)

(** [strconv.ParseUint(s, 16, 16)] of four bytes. *)
Definition hex4 (a b c d : ascii) : option N :=
  match unhex a, unhex b, unhex c, unhex d with
  | Some a, Some b, Some c, Some d => Some (((a * 16 + b) * 16 + c) * 16 + d)%N
  | _, _, _, _ => None
  end.

(** [validSurrogates]: [skip] bytes of an escape that was read are still to be passed. *)
Fixpoint surrogates (inString : bool) (skip : nat) (s : string) : bool :=
  match s with
  | EmptyString => true
  | String x s =>
      match skip with
      | S skip => surrogates inString skip s
      | O =>
          if Ascii.eqb x quote then surrogates (negb inString) 0 s
          else if negb inString || negb (Ascii.eqb x "\") then surrogates inString 0 s
          else
            match s with
            | EmptyString => true
            | String u rest =>
                if negb (Ascii.eqb u "u") then surrogates inString 1 s
                else
                  match rest with
                  | String a (String b (String c (String d rest))) =>
                      match hex4 a b c d with
                      | None => false
                      | Some n =>
                          if (56320 <=? n)%N && (n <=? 57343)%N then false
                          else if (55296 <=? n)%N && (n <=? 56319)%N then
                            match rest with
                            | String e (String v (String a (String b (String c (String d _))))) =>
                                if Ascii.eqb e "\" && Ascii.eqb v "u" then
                                  match hex4 a b c d with
                                  | Some low =>
                                      if (low <? 56320)%N || (57343 <? low)%N then false
                                      else surrogates inString 11 s
                                  | None => false
                                  end
                                else false
                            | _ => false
                            end
                          else surrogates inString 5 s
                      end
                  | _ => false
                  end
            end
      end
  end.
Definition validSurrogates (data : string) : bool := surrogates false 0 data.

Section VMess.
Context {P : Platform} {T : GoText} {L : ShareLibs}.

Definition vmessObject (data : string) : result Diagnostics (gmap string string) :=
  if negb (ValidString data) || negb (validSurrogates data) then Err scan_error
  else
    let? rest := scanJSONValue (json_steps data) in
    match rest with
    | [] =>
        match json_object data with
        | Some (Some values) => Ok values
        | _ => Err scan_error
        end
    | _ => Err scan_error
    end.

(** ** Scalar fields *)

Definition vmess_path (key : string) : string := "/vmess/" +:+ key.

Definition vmessScalar (values : gmap string string) (key : string) (required number : bool)
    : result Diagnostics string :=
  match values !! key with
  | None => if required then Err (Share.failure Share.RequiredField (vmess_path key)) else Ok ""
  | Some value =>
      if value =s "null" then Err (Share.failure Share.InvalidValue (vmess_path key))
      else
        let? text :=
          match json_text value with
          | Some text => Ok text
          | None =>
              if negb number || negb (all_chars is_digit value)
              then Err (Share.failure Share.InvalidValue (vmess_path key)) else Ok value
          end in
        if required && (text =s "") then Err (Share.failure Share.RequiredField (vmess_path key))
        else Ok text
  end.

Definition vmess_allowed : list string :=
  ["v"; "ps"; "add"; "port"; "id"; "aid"; "scy"; "net"; "type"; "host"; "path"; "tls"; "sni";
   "alpn"; "fp"; "allowInsecure"].
Definition vmess_ciphers : list string :=
  [VMessAuto; VMessAES128GCM; VMessChaCha20Poly1305; VMessNone; VMessZero].
Definition vmess_optional : list string := ["host"; "path"; "sni"; "alpn"; "fp"].

(** The loop that fills [q] with the optional fields that are not empty. *)
Fixpoint vmess_fill (values : gmap string string) (keys : list string) (q : gmap string string)
    : result Diagnostics (gmap string string) :=
  match keys with
  | [] => Ok q
  | key :: keys =>
      let? value := vmessScalar values key false false in
      vmess_fill values keys (if value =s "" then q else <[key := value]> q)
  end.

Definition vmess_insecure (values q : gmap string string) : result Diagnostics (gmap string string) :=
  match values !! "allowInsecure" with
  | None => Ok q
  | Some value =>
      if bool_decide (value ∈ ["true"; "1"; "false"; "0"]) then Ok (<["allowInsecure" := value]> q)
      else
        match json_text value with
        | Some text =>
            if value =s "null" then Err (Share.failure Share.InvalidValue verify_path)
            else Ok (<["allowInsecure" := text]> q)
        | None => Err (Share.failure Share.InvalidValue verify_path)
        end
  end.

(** From the identifier on: what [parseVMess] reads after the endpoint. *)
Definition vmess_node (values : gmap string string) (host : string) (port : Z)
    : result Diagnostics Node :=
  let? id := vmessScalar values "id" true false in
  let? alterID := vmessScalar values "aid" true true in
  if negb (alterID =s "0") then Err (Share.failure Share.Unsupported "/vmess/aid")
  else
    let? cipher := vmessScalar values "scy" true false in
    if negb (bool_decide (cipher ∈ vmess_ciphers))
    then Err (Share.failure Share.Unsupported "/auth/cipher")
    else
      let? network := vmessScalar values "net" true false in
      let? headerType := vmessScalar values "type" false false in
      if negb (headerType =s "") && negb (headerType =s "none")
      then Err (Share.failure Share.Unsupported "/vmess/type")
      else
        let? tlsMode := vmessScalar values "tls" false false in
        if negb (has values "tls") then Err (Share.failure Share.RequiredField "/vmess/tls")
        else
          let tlsMode := if tlsMode =s "" then "none" else tlsMode in
          let? q := vmess_fill values vmess_optional (<["type" := network]> {["security" := tlsMode]}) in
          let? q := vmess_insecure values q in
          let? transport := parseTransport q network in
          let? security := parseSecurity q tlsMode host in
          Ok (make_node VMess {| ep_Host := host; ep_Port := port |}
                (Auth_VMess {| vma_Kind := AuthVMessAEAD; vma_UUID := ToLower id; vma_Cipher := cipher |})
                transport security no_features).

(** The version, the name and the endpoint. *)
Definition vmess_fields (values : gmap string string) : Parser Node :=
  version ← lift (vmessScalar values "v" true true);
  _ ← refuse_if (negb (version =s "2")) Share.Unsupported "/vmess/v";
  name ← lift (vmessScalar values "ps" false false);
  _ ← modify (set_name name);
  host ← lift (vmessScalar values "add" true false);
  host ← lift (or_fail (normalizeHost host) Share.InvalidValue "/endpoint/host");
  portText ← lift (vmessScalar values "port" true true);
  port ← lift (decimalPort portText);
  lift (vmess_node values host port).

Definition raw_text (values : gmap string string) (key : string) : string := default "" (values !! key).

(** [body] is the text after the scheme. *)
Definition parseVMess (body : string) : Parser Node :=
  _ ← refuse_if (ContainsAny body "?#") Share.InvalidURI "";
  data ← lift (or_fail (decodeBase64 body false) Share.InvalidBase64 "");
  values ← lift (vmessObject data);
  _ ← isolate_or_refuse vmess_allowed (raw_text values) (sorted_keys values) "/vmess";
  vmess_fields values.
End VMess.

(** ** The scan stops *)

Lemma Token_shorter s t s' : Token s = Some (t, s') → (length s' < length s)%nat.
Proof. destruct s as [|[m t'] s]; simpl; [done|]. destruct t'; intros [= <- <-]; simpl; lia. Qed.

Lemma scan_end_shorter c s s' : scan_end c s = Ok s' → (length s' < length s)%nat.
Proof.
  unfold scan_end. destruct (Token s) as [[[] t]|] eqn:E; try done.
  destruct (Ascii.eqb _ _); [|done]. intros [= <-]. by eapply Token_shorter.
Qed.

(** The scan of [s] answers, and leaves fewer tokens when it succeeds. *)
Definition answers (s : list JStep) (r : option (result Diagnostics (list JStep))) : Prop :=
  match r with
  | None => False
  | Some (Ok s') => (length s' < length s)%nat
  | Some (Err _) => True
  end.

Lemma answers_shorter s s' r : answers s' r → (length s' ≤ length s)%nat → answers s r.
Proof. destruct r as [[]|]; simpl; lia. Qed.

Lemma answers_end c s : answers s (Some (scan_end c s)).
Proof. simpl. destruct (scan_end c s) eqn:E; [|done]. by apply scan_end_shorter in E. Qed.

Lemma scan_total fuel :
  (∀ depth s, (2 * length s + 1 < fuel)%nat → answers s (scan fuel depth s)) ∧
  (∀ depth seen s, (2 * length s < fuel)%nat → answers s (scan_fields fuel depth seen s)) ∧
  (∀ depth s, (2 * length s + 2 < fuel)%nat → answers s (scan_items fuel depth s)).
Proof.
  induction fuel as [|fuel (IH1 & IH2 & IH3)]; [split_and!; lia|]. split_and!.
  - intros depth s Hs. cbn [scan]. destruct (32 <? depth)%nat; [done|].
    destruct (Token s) as [[t s']|] eqn:E; [|done]. apply Token_shorter in E.
    destruct t; simpl; try lia.
    destruct (Ascii.eqb c "{"); [|destruct (Ascii.eqb c "["); [|done]];
      eapply answers_shorter; [apply IH2| |apply IH3|]; lia.
  - intros depth seen s Hs. cbn [scan_fields]. destruct (More s); [|apply answers_end].
    destruct (Token s) as [[[] s']|] eqn:E; try done. apply Token_shorter in E.
    case_bool_decide; [done|].
    pose proof (IH1 (S depth) s' ltac:(lia)) as H1.
    destruct (scan fuel (S depth) s') as [[s''|]|]; [|done..]. simpl in H1.
    eapply answers_shorter; [apply IH2|]; lia.
  - intros depth s Hs. cbn [scan_items]. destruct (More s); [|apply answers_end].
    pose proof (IH1 (S depth) s ltac:(lia)) as H1.
    destruct (scan fuel (S depth) s) as [[s'|]|]; [|done..]. simpl in H1.
    eapply answers_shorter; [apply IH3|]; lia.
Qed.

Lemma scanJSONValue_runs s : scan (scan_fuel s) 0 s = Some (scanJSONValue s).
Proof.
  unfold scanJSONValue. pose proof (proj1 (scan_total (scan_fuel s)) 0%nat s) as H.
  destruct (scan _ _ _); [done|]. destruct H. unfold scan_fuel. lia.
Qed.
