(* ===== verification/ShareParse.v ===== *)
(** Parsing one link and a whole list ([ParseURI] of [uri.go], [batch.go]): the checks
    that follow every dialect, and the envelopes, limits and lines of a list. *)
From S2P Require Import Prelude Diagnostics IRTypes Hashes Json IRValidate Network Base64 URLText ShareTypes ShareLink ShareVMess.

Section ShareParse.
Context {P : Platform} {T : GoText} {L : ShareLibs}.

(** ** One link *)

(** The checks of [ParseURI] after the parser of the dialect. *)
Definition check_name (c : Candidate) : error :=
  if negb (cand_Name c =s "") && negb (safeText (cand_Name c))
  then Some (Share.failure Share.InvalidValue "/name") else None.

Definition check_external_key (c : Candidate) : error :=
  match cand_Metadata c !! "external_key" with
  | None => None
  | Some value =>
      match json_text value ≫= ParseExternalKey with
      | Some _ => None
      | None => Some (Share.failure Share.InvalidValue "/metadata/external_key")
      end
  end.

Definition check_candidate (c : Candidate) (node : Node) : error :=
  check? check_name c in
  check? check_external_key c in
  check? supportedCombination node in
  Node_Validate node.

Definition refused (err : Diagnostics) (c : Candidate) : Candidate :=
  let c := add_diagnostics err c in
  if existsb (λ d, unsupported_code (d_Code d)) err
  then set_outcome StatusUnsupported (cand_Node c) c else c.

Definition finish_candidate (r : result Diagnostics Node * Candidate) : Candidate :=
  match r with
  | (Err err, c) => refused err c
  | (Ok node, c) =>
      match check_candidate c node with
      | Some err => refused err c
      | None => set_outcome StatusValid (Some node) c
      end
  end.

Definition url_schemes : list string := ["vless"; "trojan"; "socks5"; "http"; "https"].

Definition ParseURI (raw : string) : Candidate :=
  let c := new_candidate in
  if MaxURIBytes <? Z.of_nat (String.length raw) then candidate_fail Share.URITooLarge "" c
  else if negb (ValidString raw) then candidate_fail Share.InvalidUTF8 "" c
  else if negb (safeText raw) then candidate_fail Share.InvalidURI "" c
  else
    match uriScheme raw with
    | None => candidate_fail Share.InvalidURI "" c
    | Some (scheme, body) =>
        if scheme =s "vmess" then
          finish_candidate (parseVMess body (set_dialect "vmess-json-v2" c))
        else if scheme =s "ss" then
          finish_candidate (parseSS body (set_dialect "ss-sip002" c))
        else if bool_decide (scheme ∈ url_schemes) then
          finish_candidate (parseURLNode raw scheme (set_dialect (scheme +:+ "-uri-v1") c))
        else candidate_fail Share.UnknownScheme "" c
    end.

(** ** A list *)

(** [EncodedLimit]. *)
Definition EncodedLimit (decoded : Z) : Z := ((decoded + 2) / 3 * 4 + 2) / 3 * 4.
Definition MaxInputBytes : Z := EncodedLimit MaxDecodedBytes.

Definition byte_order_mark : string := String "239" (String "187" (String "191" "")).

(** The loop of [nativeDocument] over the lines: comments and blank lines are skipped,
    the first other line decides. *)
Fixpoint native_lines (lines : list string) : bool :=
  match lines with
  | [] => false
  | line :: lines =>
      let line := TrimSpace line in
      if (line =s "") || HasPrefix line "#" then native_lines lines
      else
        match uriScheme line with
        | Some _ => false
        | None =>
            if HasPrefix line "- " then true
            else
              match Cut ":" line with
              | Some (_, after) => (after =s "") || HasPrefix after " " || HasPrefix after (String "009" "")
              | None => false
              end
        end
  end.

Definition nativeDocument (data : string) : bool :=
  let trimmed := TrimSpace data in
  if trimmed =s "" then false
  else if HasPrefix trimmed "{" || HasPrefix trimmed "[" || HasPrefix trimmed "---"
          || HasPrefix trimmed "%YAML" then true
  else native_lines (Split "010" trimmed).

(** The checks on new data: [decodedSize] is the size before the byte order mark goes. *)
Definition check_text (data : string) : error :=
  if compressed data then Some (Share.failure Share.NativeConfig "")
  else if negb (ValidString data) then Some (Share.failure Share.InvalidUTF8 "")
  else if TrimSpace data =s "" then Some (Share.failure Share.EmptyInput "")
  else None.

(** The result of the loop over the envelopes: the data, its size and the layers. *)
Record Unwrapped := { un_data : string; un_size : nat; un_layers : nat }.

(** A call of [ctx.Err()] asks whether the context has ended by that call. *)
Definition Context := nat → option string.

(** Errors of [ParseBounded]: the context's, or diagnostics. *)
Inductive parse_error := Ended (cause : string) | Refused (d : Diagnostics).

(** One round of the loop: leave it, go on with decoded data, or fail. *)
Definition unwrap_round (format : string) (u : Unwrapped) : result Diagnostics (bool * Unwrapped) :=
  if nativeDocument (un_data u) then Err (Share.failure Share.NativeConfig "")
  else if (negb (format =s FormatBase64) || (0 <? un_layers u)%nat) && containsURI (un_data u)
  then Ok (true, u)
  else if (un_layers u =? MaxBase64Layers)%nat then Err (Share.failure Share.TooManyLayers "")
  else
    match decodeBase64 (un_data u) true with
    | Err _ => Err (Share.failure Share.InvalidBase64 "")
    | Ok decoded =>
        let data := TrimPrefix decoded byte_order_mark in
        match check_text data with
        | Some err => Err err
        | None =>
            Ok (false, {| un_data := data; un_size := String.length decoded;
                          un_layers := S (un_layers u) |})
        end
    end.

(** The loop; [polls] counts the calls of [ctx.Err()]. *)
Fixpoint unwrap (fuel : nat) (ctx : Context) (polls : nat) (format : string) (u : Unwrapped)
    : option (result parse_error (Unwrapped * nat)) :=
  match fuel with
  | O => None
  | S fuel =>
      match ctx polls with
      | Some cause => Some (Err (Ended cause))
      | None =>
          match unwrap_round format u with
          | Err err => Some (Err (Refused err))
          | Ok (true, u) => Some (Ok (u, S polls))
          | Ok (false, u) => unwrap fuel ctx (S polls) format u
          end
      end
  end.

(** Three rounds: a round without a decision adds a layer, and the third layer is
    refused. *)
Definition unwrap_fuel : nat := S MaxBase64Layers.

(** [strings.ReplaceAll(_, CRLF, LF)], then of CR. *)
Fixpoint join_crlf (s : string) : string :=
  match s with
  | EmptyString => ""
  | String c s' =>
      match s' with
      | String d rest =>
          if Ascii.eqb c "013" && Ascii.eqb d "010" then String "010" (join_crlf rest)
          else String c (join_crlf s')
      | EmptyString => s
      end
  end.
Definition unix_lines (data : string) : list string :=
  Split "010" (replace_char "013" "010" (join_crlf data)).

Definition blank (line : string) : bool := TrimSpace line =s "".

(** The loop that counts the entries, and the one that parses them. *)
Fixpoint count_entries (ctx : Context) (polls : nat) (maxEntries : Z) (count : nat)
    (lines : list string) : result parse_error (nat * nat) :=
  match lines with
  | [] => Ok (count, polls)
  | line :: lines =>
      match ctx polls with
      | Some cause => Err (Ended cause)
      | None =>
          if blank line then count_entries ctx (S polls) maxEntries count lines
          else if maxEntries <? Z.of_nat (S count)
          then Err (Refused (Share.failure Share.TooManyEntries ""))
          else count_entries ctx (S polls) maxEntries (S count) lines
      end
  end.

Fixpoint parse_entries (ctx : Context) (polls : nat) (line : Z) (out : list Candidate)
    (lines : list string) : result parse_error (list Candidate) :=
  match lines with
  | [] => Ok out
  | raw :: lines =>
      let line := line + 1 in
      match ctx polls with
      | Some cause => Err (Ended cause)
      | None =>
          let raw := TrimSpace raw in
          if raw =s "" then parse_entries ctx (S polls) line out lines
          else
            parse_entries ctx (S polls) line
              (out ++ [set_place (Z.of_nat (length out)) line (ParseURI raw)]) lines
      end
  end.

(** From the plain text on. *)
Definition parse_text (ctx : Context) (polls : nat) (maxDecoded maxEntries : Z) (u : Unwrapped)
    : result parse_error ImportResult :=
  if maxDecoded <? Z.of_nat (un_size u) then Err (Refused (Share.failure Share.DecodedTooLarge ""))
  else if nativeDocument (un_data u) then Err (Refused (Share.failure Share.NativeConfig ""))
  else
    let lines := unix_lines (un_data u) in
    let? counted := count_entries ctx polls maxEntries 0 lines in
    if (counted.1 =? 0)%nat then Err (Refused (Share.failure Share.EmptyInput ""))
    else
      let? candidates := parse_entries ctx counted.2 0 [] lines in
      Ok {| ir_Format := if (0 <? un_layers u)%nat then FormatBase64 else FormatText;
            ir_Base64Layers := un_layers u; ir_Candidates := candidates |}.

(** [ParseBounded]; [None] if the loop over the envelopes ran out of rounds. *)
Definition ParseBounded (ctx : Context) (format input : string) (maxDecoded maxEntries : Z)
    : option (result parse_error ImportResult) :=
  let refuse code path := Some (Err (Refused (Share.failure code path))) in
  if (maxDecoded <? 1) || (MaxDecodedBytes <? maxDecoded) || (maxEntries <? 1) || (MaxEntries <? maxEntries)
  then refuse Share.InvalidValue "/limits"
  else
    match ctx 0%nat with
    | Some cause => Some (Err (Ended cause))
    | None =>
        let format := if format =s "" then FormatAuto else format in
        if negb (bool_decide (format ∈ [FormatAuto; FormatText; FormatBase64]))
        then refuse Share.InvalidFormat "/format"
        else if EncodedLimit maxDecoded <? Z.of_nat (String.length input)
        then refuse Share.InputTooLarge ""
        else
          let data := TrimPrefix input byte_order_mark in
          let u := {| un_data := data; un_size := String.length input; un_layers := 0 |} in
          if TrimSpace data =s "" then refuse Share.EmptyInput ""
          else if compressed data then refuse Share.NativeConfig ""
          else if negb (ValidString data) then refuse Share.InvalidUTF8 ""
          else if format =s FormatText then Some (parse_text ctx 1 maxDecoded maxEntries u)
          else
            match unwrap unwrap_fuel ctx 1 format u with
            | None => None
            | Some (Err e) => Some (Err e)
            | Some (Ok (u, polls)) => Some (parse_text ctx polls maxDecoded maxEntries u)
            end
    end.

(** [Parse]. *)
Definition Parse (ctx : Context) (format input : string) : option (result parse_error ImportResult) :=
  ParseBounded ctx format input MaxDecodedBytes MaxEntries.
End ShareParse.
