(* ===== verification/ShareEmit.v ===== *)
(** Exporting a node as a share link ([internal/importparse/emit.go]) and a list of nodes
    as a document ([encodeExport] of [internal/server/exports.go]). A link is parsed back
    before it is returned.

    An empty list of ALPN names stands for a nil slice, the only empty one that decoding
    gives ([minItems] of the schema), so that [reflect.DeepEqual] is equality. *)
From S2P Require Import Prelude Diagnostics IRTypes Hashes Json IRValidate Network Base64 URLText ShareTypes ShareLink ShareVMess ShareParse.

#[export] Instance NativeTCPTransport_eq_dec : EqDecision NativeTCPTransport. Proof. solve_decision. Defined.
#[export] Instance WebSocketTransport_eq_dec : EqDecision WebSocketTransport. Proof. solve_decision. Defined.
#[export] Instance Transport_eq_dec : EqDecision Transport. Proof. solve_decision. Defined.
#[export] Instance NoSecurity_eq_dec : EqDecision NoSecurity. Proof. solve_decision. Defined.
#[export] Instance TLSSecurity_eq_dec : EqDecision TLSSecurity. Proof. solve_decision. Defined.
#[export] Instance RealitySecurity_eq_dec : EqDecision RealitySecurity. Proof. solve_decision. Defined.
#[export] Instance Security_eq_dec : EqDecision Security. Proof. solve_decision. Defined.
#[export] Instance Features_eq_dec : EqDecision Features. Proof. solve_decision. Defined.

Section ShareEmit.
Context {P : Platform} {T : GoText} {L : ShareLibs}.

Definition hostPort (e : Endpoint) : string :=
  let host :=
    match host_ParseAddr (ep_Host e) with
    | Some addr => if ha_Is6 addr then "[" +:+ ha_Text addr +:+ "]" else ep_Host e
    | None => ep_Host e
    end in
  host +:+ ":" +:+ Itoa (ep_Port e).

Definition encodeFragment (name : string) : string :=
  if name =s "" then "" else "#" +:+ PathEscape name.

(** The encoders fail without saying why: [EncodeURI] reports the node. They run on a node
    that validates, which one with a typed nil variant does not. *)
Definition encodeShadowsocks (name : string) (node : Node) : option string :=
  match n_Auth node, n_Transport node, n_Security node with
  | Auth_MethodPassword auth, Transport_TCP _, Security_None _ =>
      let userinfo := base64_encode true false (mpa_Method auth +:+ ":" +:+ mpa_Password auth) in
      Some ("ss://" +:+ userinfo +:+ "@" +:+ hostPort (n_Endpoint node) +:+ encodeFragment name)
  | _, _, _ => None
  end.

(** [shareQuery]: the transport and the security of a node as query fields. *)
Definition transport_query (urlNode : bool) (t : Transport)
    : option (string * gmap string string) :=
  match t with
  | Transport_TCP _ => Some ("tcp", if urlNode then {["type" := "tcp"]} else ∅)
  | Transport_WS ws =>
      let extra := {["type" := "ws"]} in
      let extra := if ws_Path ws =s "" then extra else <["path" := ws_Path ws]> extra in
      Some ("ws", match ws_Host ws with Some host => <["host" := host]> extra | None => extra end)
  | _ => None
  end.

Definition put_unless_empty (key value : string) (m : gmap string string) : gmap string string :=
  if value =s "" then m else <[key := value]> m.
Definition put_alpn (alpn : list string) (m : gmap string string) : gmap string string :=
  match alpn with [] => m | _ => <["alpn" := String.concat "," alpn]> m end.

Definition security_query (urlNode : bool) (node : Node) (extra : gmap string string)
    : option (string * gmap string string) :=
  let protocol := n_Protocol node in
  match n_Security node with
  | Security_None _ =>
      if protocol =s Trojan then None
      else
        Some ("none",
          if urlNode && negb (protocol =s HTTP) && negb (protocol =s SOCKS5)
          then <["security" := "none"]> extra else extra)
  | Security_TLS sec =>
      if bool_decide (tls_VerifyCertificate sec = Some false) then None
      else
        Some ("tls",
          if urlNode || (protocol =s VMess) then
            let extra := if negb (protocol =s HTTP) then <["security" := "tls"]> extra else extra in
            let extra :=
              if negb (tls_ServerName sec =s "") && negb (tls_ServerName sec =s ep_Host (n_Endpoint node))
              then <["sni" := tls_ServerName sec]> extra else extra in
            put_unless_empty "fp" (default "" (tls_ClientFingerprint sec)) (put_alpn (tls_ALPN sec) extra)
          else extra)
  | Security_Reality sec =>
      Some ("reality",
        put_alpn (rs_ALPN sec)
          (<["fp" := rs_ClientFingerprint sec]> (<["sid" := rs_ShortID sec]>
            (<["pbk" := rs_PublicKey sec]> (<["sni" := rs_ServerName sec]>
              (<["security" := "reality"]> extra))))))
  | _ => None
  end.

Definition shareQuery (node : Node) (urlNode : bool)
    : option (string * string * gmap string string) :=
  '(network, extra) ← transport_query urlNode (n_Transport node);
  '(security, extra) ← security_query urlNode node extra;
  let extra :=
    if urlNode && (network =s "tcp") && bool_decide (extra !! "type" = Some "tcp")
       && ((n_Protocol node =s SOCKS5) || (n_Protocol node =s HTTP))
    then delete "type" extra else extra in
  Some (network, security, extra).

(** [url.QueryEscape(key)=url.QueryEscape(value)], joined in the order of the keys. *)
Definition query_part (m : gmap string string) (key : string) : string :=
  QueryEscape key +:+ "=" +:+ QueryEscape (default "" (m !! key)).
Definition encode_query (m : gmap string string) : string :=
  String.concat "&" (query_part m <$> sorted_keys m).

Definition encodeShareQuery (node : Node) : option string :=
  '(_, extra) ← shareQuery node true;
  extra ←
    match ft_ProtocolVariant (n_Features node) with
    | None => Some extra
    | Some variant =>
        if n_Protocol node =s VLESS then Some (<["flow" := variant]> extra) else None
    end;
  Some (if bool_decide (extra = ∅) then "" else "?" +:+ encode_query extra).

Definition urlUserinfo (node : Node) : option string :=
  let text username password :=
    Some (Userinfo_String {| ui_Username := username; ui_Password := password |} +:+ "@") in
  match n_Auth node with
  | Auth_UUID auth => text (ua_UUID auth) None
  | Auth_Password auth => text (pa_Password auth) None
  | Auth_UsernamePassword auth => text (upa_Username auth) (Some (upa_Password auth))
  | Auth_None _ =>
      if negb (n_Protocol node =s SOCKS5) && negb (n_Protocol node =s HTTP) then None else Some ""
  | _ => None
  end.

Definition encodeURLNode (name : string) (node : Node) : option string :=
  userinfo ← urlUserinfo node;
  let scheme :=
    if n_Protocol node =s HTTP then if is_tls (n_Security node) then "https" else "http"
    else n_Protocol node in
  query ← encodeShareQuery node;
  Some (scheme +:+ "://" +:+ userinfo +:+ hostPort (n_Endpoint node) +:+ query +:+ encodeFragment name).

(** [json.Marshal] of a map of strings: the keys in order. *)
Definition marshal_map (m : gmap string string) : string :=
  Marshal (Obj ((λ key, (key, Str (default "" (m !! key)))) <$> sorted_keys m)).

Definition vmess_body (name : string) (node : Node) (auth : VMessAuth)
    (network security : string) (extra : gmap string string) : gmap string string :=
  foldl (λ body key, put_unless_empty key (default "" (extra !! key)) body)
    (list_to_map
      [("v", "2"); ("ps", name); ("add", ep_Host (n_Endpoint node));
       ("port", Itoa (ep_Port (n_Endpoint node))); ("id", vma_UUID auth); ("aid", "0");
       ("scy", vma_Cipher auth); ("net", network); ("type", "none"); ("tls", security)])
    vmess_optional.

Definition encodeVMessURI (name : string) (node : Node) : option string :=
  match n_Auth node with
  | Auth_VMess auth =>
      '(network, security, extra) ← shareQuery node false;
      Some ("vmess://" +:+ base64_encode false true
              (marshal_map (vmess_body name node auth network security extra)))
  | _ => None
  end.

Definition encode_link (name : string) (node : Node) : option (option string) :=
  let protocol := n_Protocol node in
  if protocol =s Shadowsocks then Some (encodeShadowsocks name node)
  else if protocol =s VMess then Some (encodeVMessURI name node)
  else if bool_decide (protocol ∈ [VLESS; Trojan; SOCKS5; HTTP]) then Some (encodeURLNode name node)
  else None.

(** [ExportError] is the path of the field. *)
Definition verification_disabled (s : Security) : bool :=
  match s with
  | Security_TLS sec => bool_decide (tls_VerifyCertificate sec = Some false)
  | _ => false
  end.

(** The comparisons of the link that was parsed back, in order. *)
Definition first_difference (node parsed : Node) : option string :=
  if negb (bool_decide (n_Protocol node = n_Protocol parsed)) then Some "/node/protocol"
  else if negb (bool_decide (n_Endpoint node = n_Endpoint parsed)) then Some "/node/endpoint"
  else if negb (bool_decide (n_Auth node = n_Auth parsed)) then Some "/node/auth"
  else if negb (bool_decide (n_Transport node = n_Transport parsed)) then Some "/node/transport"
  else if negb (bool_decide (n_Security node = n_Security parsed)) then Some "/node/security"
  else if negb (bool_decide (n_Features node = n_Features parsed)) then Some "/node/features"
  else None.

Definition check_export (name : string) (node : Node) (uri : string) : result string string :=
  let parsed := ParseURI uri in
  match candidate_Valid parsed, cand_Node parsed with
  | true, Some back =>
      if negb (cand_Name parsed =s name) then Err "/name"
      else
        match first_difference node back with
        | Some path => Err path
        | None => Ok uri
        end
  | _, _ =>
      Err ("/node" +:+ match cand_Diagnostics parsed with d :: _ => d_FieldPath d | [] => "" end)
  end.

Definition EncodeURI (name : string) (node : Node) : result string string :=
  if bool_decide (Node_Validate node ≠ None) then Err "/node"
  else if negb (safeText name) then Err "/name"
  else if bool_decide (ft_UDP (n_Features node) ≠ None) then Err "/node/features/udp"
  else if bool_decide (ft_Multiplex (n_Features node) ≠ None) then Err "/node/features/multiplex"
  else if verification_disabled (n_Security node) then Err "/node/security/verify_certificate"
  else
    match encode_link name node with
    | None => Err "/node/protocol"
    | Some None => Err "/node"
    | Some (Some uri) => check_export name node uri
    end.

(** ** A list of nodes *)

(** [encodeExport] for the formats of links. The error is the path of the field and the
    resource. *)
Fixpoint export_lines (i : nat) (nodes : list Resource) : result (option (string * ID)) (list string) :=
  match nodes with
  | [] => Ok []
  | resource :: nodes =>
      match r_Payload resource with
      | Payload_Node node =>
          match EncodeURI (md_Name (r_Metadata resource)) node with
          | Ok uri => let? lines := export_lines (S i) nodes in Ok (uri :: lines)
          | Err path => Err (Some ("/resources/" +:+ index_string i +:+ path, rid resource))
          end
      | _ => Err None
      end
  end.

Definition newline_text : string := String "010" "".

Definition encodeExport (format : string) (nodes : list Resource)
    : option (result (option (string * ID)) string) :=
  if (format =s "uri_list") || (format =s "base64_uri_list") then
    Some
      (let? lines := export_lines 0 nodes in
       let content := String.concat newline_text lines in
       Ok (if format =s "base64_uri_list" then base64_encode false true content else content))
  else None.
End ShareEmit.
