(* ===== verification/ShareFacts.v ===== *)
(** What the share-link parsers guarantee: the fields of an accepted node, the isolation of
    unknown fields, and that a refusal is explained. The encodings of share links are read
    back: Base64 text, query strings, and the isolation of the fields of a query. *)
From S2P Require Import Prelude Diagnostics IRTypes Hashes Json IRValidate Network Base64 URLText.
From S2P Require Import ShareTypes ShareLink ShareVMess ShareParse ShareEmit.

(** Case analysis on the conditions and partial results of a parser in a hypothesis. *)
Ltac split_parser H :=
  repeat first
    [ discriminate H
    | match type of H with
      | context [match ?m with _ => _ end] =>
          first [is_var m; destruct m | destruct m eqn:?]; try discriminate H
      end ].

(** ** Refusals have a reason *)

Definition explains {A} (r : result Diagnostics A) : Prop :=
  match r with Ok _ => True | Err e => e ≠ [] end.

Lemma share_explains_bind {A B} (r : result Diagnostics A) (k : A → result Diagnostics B) :
  explains r → (∀ a, explains (k a)) → explains (let? x := r in k x).
Proof. destruct r; [auto|done]. Qed.

Lemma explains_or_fail {E A} (r : result E A) code path : explains (or_fail r code path).
Proof. by destruct r. Qed.
Lemma explains_some_or_fail {A} (o : option A) code path : explains (some_or_fail o code path).
Proof. by destruct o. Qed.

Create HintDb share.
#[export] Hint Resolve explains_or_fail explains_some_or_fail : share.
#[export] Hint Extern 1 (explains (Err _)) => cbn [explains] : share.

Ltac explains_step :=
  first
    [ done
    | apply share_explains_bind; [|intros]
    | match goal with
      | |- explains (Ok _) => exact I
      | |- explains (Err (Share.failure _ _)) => done
      | |- explains (match ?m with _ => _ end) => destruct m eqn:?
      end ].
Ltac explains_tac := repeat (explains_step; cbv zeta); eauto with share.

Section ShareFacts.
Context {P : Platform} {T : GoText} {L : ShareLibs}.

Lemma explains_decodeBase64 raw w : explains (decodeBase64 raw w).
Proof. unfold decodeBase64. explains_tac. Qed.
Lemma explains_decimalPort raw : explains (decimalPort raw).
Proof. unfold decimalPort. explains_tac. Qed.
#[local] Hint Resolve explains_decodeBase64 explains_decimalPort : share.
Lemma explains_endpoint u p : explains (endpoint u p).
Proof. unfold endpoint. explains_tac. Qed.
Lemma explains_query_entries out l : explains (query_entries out l).
Proof.
  revert out. induction l as [|e l IH]; intros out; simpl; [done|].
  apply share_explains_bind; [|done]. unfold query_entry. explains_tac.
Qed.
#[local] Hint Resolve explains_endpoint explains_query_entries : share.
Lemma explains_strictQuery raw : explains (strictQuery raw).
Proof. unfold strictQuery. explains_tac. Qed.
Lemma explains_parseTransport q d : explains (parseTransport q d).
Proof. unfold parseTransport. explains_tac. Qed.

Lemma range_err_nonempty {A} (f : nat → A → error) l err :
  (∀ i x err, f i x = Some err → err ≠ []) → range_err f l = Some err → err ≠ [].
Proof.
  intros Hf. unfold range_err. generalize 0%nat.
  induction l as [|x l IH]; intros i; simpl; [done|].
  destruct (f i x) eqn:E; [|apply IH]. intros [= <-]. by eapply Hf.
Qed.

Lemma explains_parse_alpn q : explains (parse_alpn q).
Proof.
  unfold parse_alpn. destruct (q !! "alpn"); [|done].
  destruct (range_err _ _) eqn:E; [|done]. eapply range_err_nonempty; [|exact E].
  intros i x err. simpl. by case_match; [intros [= <-]|].
Qed.
Lemma check_insecure_nonempty q err : check_insecure q = Some err → err ≠ [].
Proof.
  intros E. eapply range_err_nonempty; [|exact E].
  intros i key e. simpl. repeat case_match; by intros [= <-].
Qed.
#[local] Hint Resolve explains_strictQuery explains_parseTransport explains_parse_alpn
  check_insecure_nonempty : share.
Lemma explains_parseSecurity q d h : explains (parseSecurity q d h).
Proof. unfold parseSecurity. explains_tac. Qed.
#[local] Hint Resolve explains_parseSecurity : share.
Lemma explains_url_auth s u q : explains (url_auth s u q).
Proof. unfold url_auth. explains_tac. Qed.
#[local] Hint Resolve explains_url_auth : share.
Lemma explains_url_node s u q : explains (url_node s u q).
Proof. unfold url_node. explains_tac. Qed.
Lemma explains_ss_credentials s : explains (ss_credentials s).
Proof. unfold ss_credentials. explains_tac. Qed.
#[local] Hint Resolve explains_ss_credentials : share.
Lemma explains_ss_node body : explains (ss_node body).
Proof. unfold ss_node. explains_tac. Qed.
Lemma explains_vmessScalar v k r n : explains (vmessScalar v k r n).
Proof. unfold vmessScalar. explains_tac. Qed.
#[local] Hint Resolve explains_url_node explains_ss_node explains_vmessScalar : share.
Lemma explains_vmess_fill v keys q : explains (vmess_fill v keys q).
Proof.
  revert q. induction keys as [|k keys IH]; intros q; simpl; [done|].
  apply share_explains_bind; eauto with share.
Qed.
Lemma explains_vmess_insecure v q : explains (vmess_insecure v q).
Proof. unfold vmess_insecure. explains_tac. Qed.
#[local] Hint Resolve explains_vmess_fill explains_vmess_insecure : share.
Lemma explains_vmess_node v h p : explains (vmess_node v h p).
Proof. unfold vmess_node. explains_tac. Qed.
#[local] Hint Resolve explains_vmess_node : share.

Definition ok_explained (r : option (result Diagnostics (list JStep))) : Prop :=
  match r with Some r => explains r | None => True end.
Lemma explains_scan_end c s : explains (scan_end c s).
Proof. unfold scan_end. explains_tac. Qed.
Lemma explains_scan fuel :
  (∀ d s, ok_explained (scan fuel d s)) ∧ (∀ d k s, ok_explained (scan_fields fuel d k s)) ∧
  (∀ d s, ok_explained (scan_items fuel d s)).
Proof.
  induction fuel as [|fuel (IH1 & IH2 & IH3)]; [done|].
  split_and!; intros; cbn [scan scan_fields scan_items].
  - repeat (case_match; try done).
  - destruct (More s); [|apply explains_scan_end].
    destruct (Token s) as [[[] s']|]; try done. case_bool_decide; [done|].
    specialize (IH1 (S d) s'). destruct (scan fuel (S d) s') as [[]|]; [apply IH2|done..].
  - destruct (More s); [|apply explains_scan_end].
    specialize (IH1 (S d) s). destruct (scan fuel (S d) s) as [[]|]; [apply IH3|done..].
Qed.
Lemma explains_vmessObject data : explains (vmessObject data).
Proof.
  unfold vmessObject. destruct (_ || _); [done|]. apply share_explains_bind; [|intros; explains_tac].
  unfold scanJSONValue. pose proof (proj1 (explains_scan (scan_fuel (json_steps data))) 0%nat (json_steps data)) as H.
  by destruct (scan _ _ _).
Qed.
#[local] Hint Resolve explains_vmessObject : share.

(** A parser that explains its refusals. *)
Definition parser_explains {A} (m : Parser A) : Prop := ∀ c, explains (m c).1.
Lemma parser_explains_bind {A B} (m : Parser A) (k : A → Parser B) :
  parser_explains m → (∀ a, parser_explains (k a)) → parser_explains (m ≫= k).
Proof.
  intros Hm Hk c. unfold mbind, parser_bind. specialize (Hm c).
  destruct (m c) as [[a|e] c']; [apply Hk|done].
Qed.
Lemma parser_explains_lift {A} (r : result Diagnostics A) : explains r → parser_explains (lift r).
Proof. by intros H c. Qed.
Lemma parser_explains_refuse b code path : parser_explains (refuse_if b code path).
Proof. by destruct b. Qed.
Lemma parser_explains_isolate a t k p : parser_explains (isolate_or_refuse a t k p).
Proof. intros c. unfold isolate_or_refuse. by destruct (isolate a t k c) as [[] ?]. Qed.

Ltac parser_tac :=
  repeat first
    [ apply parser_explains_bind; [|intros]
    | apply parser_explains_refuse | apply parser_explains_isolate
    | apply parser_explains_lift; eauto with share | done ].

Lemma explains_parseVMess body : parser_explains (parseVMess body).
Proof. unfold parseVMess, vmess_fields. parser_tac. Qed.
Lemma explains_parseSS body : parser_explains (parseSS body).
Proof.
  unfold parseSS, isolateUnknown. destruct (cut_or_all "#" body) as [b f].
  parser_tac. destruct (cut_or_all "?" b) as [b' q]. parser_tac.
Qed.
Lemma explains_parseURLNode raw scheme : parser_explains (parseURLNode raw scheme).
Proof. unfold parseURLNode, isolateUnknown. parser_tac. Qed.
End ShareFacts.

(** ** Base64 *)

Definition url_only (c : ascii) : bool := one_of "-_" c.

Lemma encode_char_std s : url_only (encode_char false s) = false.
Proof. by destruct s as [[] [] [] [] [] []]. Qed.
Lemma encode_char_same s :
  url_only (encode_char true s) = false → encode_char false s = encode_char true s.
Proof. by destruct s as [[] [] [] [] [] []]. Qed.

Lemma encode_groups_std padded l :
  Forall (λ c, url_only c = false) (encode_groups false padded l).
Proof.
  induction l as [|x|x y|x y z l IH] using ind_3; simpl; repeat constructor;
    auto using encode_char_std; destruct padded; repeat constructor.
Qed.
Lemma encode_groups_unpadded url l : Forall (λ c, is_pad c = false) (encode_groups url false l).
Proof.
  induction l as [|x|x y|x y z l IH] using ind_3; simpl; repeat constructor;
    auto using is_pad_encode.
Qed.

(** Text of the URL alphabet without [-] and [_] is text of the standard alphabet. *)
Lemma encode_groups_same padded l :
  Forall (λ c, url_only c = false) (encode_groups true padded l) →
  encode_groups false padded l = encode_groups true padded l.
Proof.
  induction l as [|x|x y|x y z l IH] using ind_3; cbn [encode_groups]; [done|..];
    rewrite ?Forall_cons; intros H.
  - destruct H as (H1 & H2 & _). by rewrite !encode_char_same.
  - destruct H as (H1 & H2 & H3 & _). by rewrite !encode_char_same.
  - destruct H as (H1 & H2 & H3 & H4 & H). by rewrite !encode_char_same, IH.
Qed.

(** Text that needs no padding is the same with and without. *)
Lemma encode_groups_no_pad url l :
  Forall (λ c, is_pad c = false) (encode_groups url true l) →
  encode_groups url false l = encode_groups url true l.
Proof.
  induction l as [|x|x y|x y z l IH] using ind_3; cbn [encode_groups]; [done|..];
    rewrite ?Forall_cons; intros H.
  - by destruct H as (_ & _ & (H & _)%Forall_cons).
  - by destruct H as (_ & _ & _ & (H & _)%Forall_cons).
  - destruct H as (_ & _ & _ & _ & H). by rewrite IH.
Qed.

Lemma ContainsAny_list s chars :
  ContainsAny s chars = false ↔
  Forall (λ c, one_of chars c = false) (String.list_ascii_of_string s).
Proof.
  unfold ContainsAny. rewrite negb_false_iff, all_chars_list.
  apply Forall_proper; [|done]. intros c. apply negb_true_iff.
Qed.

Lemma one_pad c : one_of "=" c = is_pad c.
Proof. unfold one_of, is_pad. simpl. by rewrite orb_false_r. Qed.

Lemma ContainsAny_encode url padded d chars :
  ContainsAny (base64_encode url padded d) chars = false ↔
  Forall (λ c, one_of chars c = false)
    (encode_groups url padded (String.list_ascii_of_string d)).
Proof.
  rewrite ContainsAny_list. unfold base64_encode.
  by rewrite String.list_ascii_of_string_of_list_ascii.
Qed.

(** The alphabet and the padding that [decodeBase64] infers give the text back. *)
Lemma inferred_encoding url padded d :
  base64_encode (ContainsAny (base64_encode url padded d) "-_")
    (ContainsAny (base64_encode url padded d) "=") d = base64_encode url padded d.
Proof.
  set (s := base64_encode url padded d). unfold base64_encode.
  assert (encode_groups (ContainsAny s "-_") padded (String.list_ascii_of_string d)
          = encode_groups url padded (String.list_ascii_of_string d)) as E1.
  { destruct (ContainsAny s "-_") eqn:E; destruct url; try done.
    - exfalso. apply not_false_iff_true in E. apply E.
      apply ContainsAny_encode. apply encode_groups_std.
    - apply ContainsAny_encode in E. by apply encode_groups_same. }
  transitivity (String.string_of_list_ascii
    (encode_groups (ContainsAny s "-_") padded (String.list_ascii_of_string d)));
    [|by rewrite E1].
  f_equal. destruct (ContainsAny s "=") eqn:E; destruct padded; try done.
  - exfalso. apply not_false_iff_true in E. apply E.
    apply ContainsAny_encode. eapply Forall_impl; [apply encode_groups_unpadded|].
    intros c Hc. by rewrite one_pad.
  - apply ContainsAny_encode in E. apply encode_groups_no_pad. rewrite E1.
    eapply Forall_impl; [exact E|]. intros c Hc. by rewrite <-one_pad.
Qed.

Lemma base64_char_not_space c : base64_char c = true → base64_space c = false.
Proof. by destruct c as [[] [] [] [] [] [] [] []]. Qed.

Lemma base64_encode_spaceless url padded d :
  all_chars (λ c, negb (base64_space c)) (base64_encode url padded d) = true.
Proof.
  eapply all_chars_impl; [|apply base64_encode_chars].
  intros c H. by rewrite base64_char_not_space.
Qed.

(** [decodeBase64] accepts the four encodings of a text and nothing else. *)
Lemma decodeBase64_encodes raw d :
  decodeBase64 raw false = Ok d ↔ raw ≠ "" ∧ ∃ url padded, raw = base64_encode url padded d.
Proof.
  unfold decodeBase64. split.
  - destruct (String.eqb_spec raw ""); simpl; [done|].
    destruct (all_chars _ raw) eqn:Es; simpl; [|done].
    destruct (base64_decode _ _ raw) eqn:E; [|done]. intros [= ->]. split; [done|].
    eexists _, _. symmetry. eapply base64_encode_decode; [|exact E].
    unfold newline_free. eapply all_chars_impl; [|exact Es].
    intros c. by destruct c as [[] [] [] [] [] [] [] []].
  - intros (Hne & url & padded & ->). apply String.eqb_neq in Hne. rewrite Hne.
    rewrite base64_encode_spaceless. simpl.
    rewrite <-(inferred_encoding url padded d) at 3. by rewrite base64_decode_encode.
Qed.

Lemma base64_encode_nonempty url padded d : d ≠ "" → base64_encode url padded d ≠ "".
Proof.
  intros Hd E. assert (base64_decode url padded "" = Some d) as H
    by (rewrite <-E; apply base64_decode_encode).
  by injection H as <-.
Qed.

Lemma decodeBase64_encode url padded d :
  d ≠ "" → decodeBase64 (base64_encode url padded d) false = Ok d.
Proof.
  intros Hd. apply decodeBase64_encodes. split; [by apply base64_encode_nonempty|by eexists _, _].
Qed.

Lemma drop_chars_id f s : all_chars (λ c, negb (f c)) s = true → drop_chars f s = s.
Proof.
  induction s as [|c s IH]; simpl; [done|]. rewrite andb_true_iff, negb_true_iff.
  intros [-> H]. by rewrite IH.
Qed.

Lemma decodeBase64_whitespace url padded d :
  d ≠ "" → decodeBase64 (base64_encode url padded d) true = Ok d.
Proof.
  intros Hd. rewrite <-(decodeBase64_encode url padded d Hd). unfold decodeBase64.
  by rewrite drop_chars_id by apply base64_encode_spaceless.
Qed.

(** ** Queries *)

Definition query_char (c : ascii) : bool := is_letter c || is_digit c || one_of "-_.~%+" c.

Lemma QueryEscape_chars s : all_chars query_char (QueryEscape s) = true.
Proof.
  induction s as [|c s IH]; [done|].
  change (QueryEscape (String c s)) with (escape_char QueryComponent c +:+ QueryEscape s).
  rewrite all_chars_app, IH, andb_true_r. by destruct c as [[] [] [] [] [] [] [] []].
Qed.
Lemma QueryUnescape_escape s : QueryUnescape (QueryEscape s) = Some s.
Proof. exact (url_unescape_escape QueryComponent s). Qed.
Lemma PathUnescape_escape s : PathUnescape (PathEscape s) = Some s.
Proof. exact (url_unescape_escape PathSegment s). Qed.

Lemma QueryEscape_free sep s : query_char sep = false → free_of sep (QueryEscape s) = true.
Proof.
  intros Hs. eapply all_chars_impl; [|apply QueryEscape_chars].
  intros c Hc. apply negb_true_iff, Ascii.eqb_neq. intros ->. congruence.
Qed.

Lemma free_of_app sep s t : free_of sep (s +:+ t) = free_of sep s && free_of sep t.
Proof. apply all_chars_app. Qed.

Lemma query_part_free sep m k :
  query_char sep = false → sep ≠ "="%char → free_of sep (query_part m k) = true.
Proof.
  intros H Hne. unfold query_part. rewrite !free_of_app, !QueryEscape_free by done.
  unfold free_of. cbn [all_chars]. apply not_eq_sym, Ascii.eqb_neq in Hne. by rewrite Hne.
Qed.

Lemma elem_of_sorted_keys m k : k ∈ sorted_keys m ↔ is_Some (m !! k).
Proof.
  unfold sorted_keys, sort_strings. rewrite elem_of_isort, list_elem_of_fmap. split.
  - intros ([k' v] & -> & H). apply elem_of_map_to_list in H. by eexists.
  - intros [v H]. exists (k, v). split; [done|]. by apply elem_of_map_to_list.
Qed.
Lemma NoDup_sorted_keys m : NoDup (sorted_keys m).
Proof. unfold sorted_keys, sort_strings. rewrite isort_perm. apply NoDup_fst_map_to_list. Qed.

Lemma not_contains c s : one_of (String c "") c = true → free_of c s = true → ContainsAny s (String c "") = false.
Proof.
  intros _. unfold free_of, ContainsAny. intros H. apply negb_false_iff.
  eapply all_chars_impl; [|exact H]. intros d. unfold one_of. simpl. by rewrite orb_false_r.
Qed.

Lemma cut_or_all_app sep k v :
  free_of sep k = true → cut_or_all sep (k +:+ String sep "" +:+ v) = (k, v).
Proof.
  intros H. unfold cut_or_all. change (String sep "" +:+ v) with (String sep v).
  by rewrite Cut_app.
Qed.

Lemma query_entry_part m out k v :
  m !! k = Some v → k ≠ "" → safeText k = true → ValidString v = true → out !! k = None →
  query_entry out (query_part m k) = Ok (<[k := v]> out).
Proof.
  intros Hm Hk Hsafe Hv Hout. unfold query_entry.
  rewrite (not_contains ";") by (done || by apply query_part_free).
  unfold query_part. rewrite Hm. simpl default.
  assert (QueryEscape k +:+ "=" +:+ QueryEscape v =s "" = false) as ->.
  { apply String.eqb_neq. by destruct (QueryEscape k). }
  simpl orb.
  rewrite (cut_or_all_app "=") by by apply QueryEscape_free. cbv iota beta.
  rewrite !QueryUnescape_escape.
  apply String.eqb_neq in Hk. rewrite Hk, Hsafe, Hv. simpl.
  by rewrite Hout, bool_decide_false by (intros H; by apply H).
Qed.

Lemma query_entries_parts m keys out :
  NoDup keys → (∀ k, k ∈ keys → out !! k = None) →
  (∀ k, k ∈ keys → ∃ v, m !! k = Some v ∧ k ≠ "" ∧ safeText k = true ∧ ValidString v = true) →
  ∃ r, query_entries out (query_part m <$> keys) = Ok r ∧
    ∀ k, r !! k = if bool_decide (k ∈ keys) then m !! k else out !! k.
Proof.
  revert out. induction keys as [|key keys IH]; intros out Hnd Hout Hm.
  { exists out. split; [done|]. intros k. by rewrite bool_decide_false by set_solver. }
  apply NoDup_cons in Hnd as [Hkey Hnd].
  destruct (Hm key ltac:(set_solver)) as (v & Hv & Hne & Hs & Hu).
  csimpl. rewrite (query_entry_part m out key v) by (done || apply Hout; set_solver).
  destruct (IH (<[key := v]> out)) as (r & Hr & Hl).
  - done.
  - intros k Hk. rewrite lookup_insert_ne by (intros ->; done). apply Hout. set_solver.
  - intros k Hk. apply Hm. set_solver.
  - exists r. split; [done|]. intros k. rewrite Hl.
    destruct (decide (k ∈ keys)) as [Hk|Hk].
    + by rewrite !bool_decide_true by set_solver.
    + rewrite (bool_decide_false (k ∈ keys)) by done.
      destruct (decide (k = key)) as [->|Hkk].
      * by rewrite lookup_insert_eq, bool_decide_true by set_solver.
      * by rewrite lookup_insert_ne, bool_decide_false by set_solver.
Qed.

Lemma encode_query_nonempty m : m ≠ ∅ → encode_query m ≠ "".
Proof.
  intros Hm. destruct (map_choose m Hm) as (k & v & Hk).
  unfold encode_query. assert (k ∈ sorted_keys m) as H by (apply elem_of_sorted_keys; by eexists).
  destruct (sorted_keys m) as [|k1 l]; [set_solver|]. intros E.
  csimpl in E. unfold query_part in E.
  destruct l as [|k2 l]; simpl in E; by destruct (QueryEscape k1).
Qed.

(** The fields of a query that is exported are those that the parser reads. *)
Lemma strictQuery_encode_query m :
  (∀ k v, m !! k = Some v → k ≠ "" ∧ safeText k = true ∧ ValidString v = true) →
  strictQuery (if bool_decide (m = ∅) then "" else encode_query m) = Ok m.
Proof.
  intros Hm. unfold strictQuery. case_bool_decide as He; [by subst|].
  pose proof (encode_query_nonempty m He) as Hne. apply String.eqb_neq in Hne. rewrite Hne.
  unfold encode_query. rewrite Split_concat.
  - destruct (query_entries_parts m (sorted_keys m) ∅) as (r & Hr & Hl).
    + apply NoDup_sorted_keys.
    + intros. apply lookup_empty.
    + intros k [v Hv]%elem_of_sorted_keys. exists v. by split; [|eapply Hm].
    + rewrite Hr. f_equal. apply map_eq. intros k. rewrite Hl.
      case_bool_decide as Hk; [done|]. rewrite lookup_empty. symmetry.
      apply eq_None_not_Some. by rewrite <-elem_of_sorted_keys.
  - intros E. destruct (map_choose m He) as (k & v & Hk).
    assert (k ∈ sorted_keys m) as H by (apply elem_of_sorted_keys; by eexists).
    apply (f_equal length) in E. rewrite length_fmap in E.
    destruct (sorted_keys m); [by apply not_elem_of_nil in H|done].
  - apply Forall_forall. intros s (k & -> & _)%list_elem_of_fmap. by apply query_part_free.
Qed.

(** ** Isolation *)

(** Fields outside the dialect. *)
Definition unknown_keys (allowed keys : list string) : list string :=
  filter (λ k, k ∉ allowed) keys.

(** The candidate [c'] is [c] with other metadata and warnings. *)
Definition same_but_metadata (c c' : Candidate) : Prop :=
  cand_Index c' = cand_Index c ∧ cand_Line c' = cand_Line c ∧ cand_Name c' = cand_Name c ∧
  cand_Dialect c' = cand_Dialect c ∧ cand_Status c' = cand_Status c ∧ cand_Node c' = cand_Node c.

Lemma warnMetadata_metadata c : cand_Metadata (warnMetadata c) = cand_Metadata c.
Proof. unfold warnMetadata. by destruct (existsb _ _). Qed.

Definition at_most_warned (c : Candidate) : Prop :=
  cand_Diagnostics c = [] ∨ cand_Diagnostics c = [metadata_warning].

Lemma warnMetadata_once c :
  at_most_warned c → cand_Diagnostics (warnMetadata c) = [metadata_warning].
Proof. intros [E|E]; unfold warnMetadata; rewrite E; simpl; by rewrite ?E. Qed.

Lemma warnMetadata_same c : same_but_metadata c (warnMetadata c).
Proof. unfold warnMetadata. by destruct (existsb _ _). Qed.

Lemma isolate_exact allowed text keys c :
  at_most_warned c →
  let (ok, c') := isolate allowed text keys c in
  let unknown := unknown_keys allowed keys in
  ok = forallb metadataKey unknown ∧ same_but_metadata c c' ∧
  (∀ k, cand_Metadata c' !! k =
        if bool_decide (k ∈ unknown) then Some (text k) else cand_Metadata c !! k) ∧
  cand_Diagnostics c' =
    (if bool_decide (unknown = []) then cand_Diagnostics c else [metadata_warning]).
Proof.
  revert c. induction keys as [|key keys IH]; intros c Hc; cbn [isolate].
  { split_and!; [done..| |done]. intros k. by rewrite bool_decide_false by set_solver. }
  unfold unknown_keys. case_bool_decide as Ha.
  { rewrite filter_cons_False by (intros H; by apply H). by apply IH. }
  rewrite filter_cons_True by done. fold (unknown_keys allowed keys).
  set (c1 := warnMetadata (candidate_metadata key (text key) c)).
  assert (cand_Diagnostics c1 = [metadata_warning]) as Hd by by apply warnMetadata_once.
  specialize (IH c1 (or_intror Hd)). destruct (isolate allowed text keys c1) as [ok c'].
  destruct IH as (-> & Hs & Hm & He). split_and!.
  - done.
  - pose proof (warnMetadata_same (candidate_metadata key (text key) c)) as H1.
    unfold same_but_metadata in *. fold c1 in H1. simpl in H1. naive_solver congruence.
  - intros k. rewrite Hm. unfold c1. rewrite warnMetadata_metadata. simpl.
    destruct (decide (k ∈ unknown_keys allowed keys)) as [Hk|Hk].
    + by rewrite !bool_decide_true by set_solver.
    + rewrite (bool_decide_false (k ∈ unknown_keys _ _)) by done.
      destruct (decide (k = key)) as [->|Hne].
      * by rewrite lookup_insert_eq, bool_decide_true by set_solver.
      * by rewrite lookup_insert_ne, bool_decide_false by set_solver.
  - rewrite He, Hd. by destruct (bool_decide _).
Qed.

Definition unknown_fields (allowed : list string) (q : gmap string string) : gmap string string :=
  filter (λ kv, kv.1 ∉ allowed) q.

(** [isolateUnknown] on a new candidate: the fields outside the dialect, as JSON strings,
    are its metadata, with one warning; only metadata fields are let through. *)
Lemma isolateUnknown_exact q allowed c :
  cand_Diagnostics c = [] → cand_Metadata c = ∅ →
  let (r, c') := isolateUnknown q allowed c in
  cand_Metadata c' = (λ v, Marshal (Str v)) <$> unknown_fields allowed q ∧
  cand_Diagnostics c' = (if bool_decide (unknown_fields allowed q = ∅) then [] else [metadata_warning]) ∧
  same_but_metadata c c' ∧
  r = if forallb metadataKey (unknown_keys allowed (sorted_keys q))
      then Ok tt else Err (Share.failure Share.Unsupported "/query").
Proof.
  intros Hd Hm. unfold isolateUnknown, isolate_or_refuse.
  pose proof (isolate_exact allowed (query_text q) (sorted_keys q) c (or_introl Hd)) as H.
  destruct (isolate _ _ _ _) as [ok c']. destruct H as (-> & Hs & Hk & He).
  assert (∀ k, k ∈ unknown_keys allowed (sorted_keys q) ↔ is_Some (unknown_fields allowed q !! k)) as Hu.
  { intros k. unfold unknown_keys, unknown_fields.
    rewrite list_elem_of_filter, elem_of_sorted_keys. split.
    - intros [Hka [v Hv]]. exists v. by apply map_lookup_filter_Some.
    - intros [v [Hv Hka]%map_lookup_filter_Some]. by split; [|eexists]. }
  assert (cand_Metadata c' = (λ v, Marshal (Str v)) <$> unknown_fields allowed q) as HM.
  { apply map_eq. intros k. rewrite Hk, lookup_fmap, Hm, lookup_empty.
    destruct (bool_decide_reflect (k ∈ unknown_keys allowed (sorted_keys q))) as [Hin|Hin].
    - apply Hu in Hin as [v Hv]. rewrite Hv. unfold query_text.
      unfold unknown_fields in Hv. apply map_lookup_filter_Some in Hv as [-> _]. done.
    - destruct (unknown_fields allowed q !! k) eqn:E; [|done]. destruct Hin. apply Hu. by eexists. }
  assert (bool_decide (unknown_keys allowed (sorted_keys q) = []) =
          bool_decide (unknown_fields allowed q = ∅)) as HE.
  { apply bool_decide_ext. split; intros E.
    - apply map_eq. intros k. rewrite lookup_empty. apply eq_None_not_Some.
      rewrite <-Hu, E. apply not_elem_of_nil.
    - destruct (unknown_keys _ _) as [|k l] eqn:El; [done|]. exfalso.
      assert (is_Some (unknown_fields allowed q !! k)) as [v Hv] by (apply Hu; set_solver).
      by rewrite E, lookup_empty in Hv. }
  rewrite HE, Hd in He. destruct (forallb _ _); by split_and!.
Qed.
