(* ===== verification/ShareSafe.v ===== *)
(** Every accepted link is safe: the fields of its node, the isolated metadata, and the
    state of a candidate that is refused. *)
From S2P Require Import Prelude Diagnostics IRTypes Hashes Json IRValidate Network Base64 URLText.
From S2P Require Import ShareTypes ShareLink ShareVMess ShareParse ShareEmit ShareFacts.

(** ** What an imported node never carries *)

Definition verified (s : Security) : Prop :=
  match s with Security_TLS t => tls_VerifyCertificate t = Some true | _ => True end.

Record imported (n : Node) : Prop := {
  imported_version : n_SchemaVersion n = SchemaVersion;
  imported_features : ft_UDP (n_Features n) = None ∧ ft_Multiplex (n_Features n) = None;
  imported_origin : n_Origin n = None;
  imported_port : 1 ≤ ep_Port (n_Endpoint n) ≤ 65535;
  imported_verified : verified (n_Security n) }.

(** The candidate while it is parsed: no outcome yet, and no diagnostic but the warning. *)
Definition parsing (c : Candidate) : Prop :=
  cand_Status c = StatusInvalid ∧ cand_Node c = None ∧
  Forall (λ d, d = metadata_warning) (cand_Diagnostics c).
Definition metadata_only (c : Candidate) : Prop :=
  ∀ key, is_Some (cand_Metadata c !! key) → metadataKey key = true.

(** What holds of a parser's candidate, and of its value when it succeeds. *)
Definition ensures {A} (Q : A → Prop) (m : Parser A) : Prop :=
  ∀ c, parsing c → metadata_only c →
    parsing (m c).2 ∧ (∀ a, (m c).1 = Ok a → metadata_only (m c).2 ∧ Q a).

Lemma ensures_bind {A B} (Q : A → Prop) (R : B → Prop) (m : Parser A) (k : A → Parser B) :
  ensures Q m → (∀ a, Q a → ensures R (k a)) → ensures R (m ≫= k).
Proof.
  intros Hm Hk c H1 H2. destruct (Hm c H1 H2) as [H3 H4].
  unfold mbind, parser_bind. destruct (m c) as [[a|e] c'] eqn:E; [|done].
  destruct (H4 a eq_refl) as [H5 H6]. by apply Hk.
Qed.
Lemma ensures_lift {A} (Q : A → Prop) r : (∀ a, r = Ok a → Q a) → ensures Q (lift r).
Proof. intros H c H1 H2. split; [done|]. intros a E. auto. Qed.
Lemma ensures_any {A} r : ensures (λ _ : A, True) (lift r).
Proof. by apply ensures_lift. Qed.
Lemma ensures_name name : ensures (λ _, True) (modify (set_name name)).
Proof. intros c H1 H2. by split. Qed.
Lemma ensures_refuse b code path : ensures (λ _, True) (refuse_if b code path).
Proof. intros c H1 H2. by destruct b. Qed.

Lemma parsing_warn c : parsing c → parsing (warnMetadata c).
Proof.
  intros (H1 & H2 & H3). unfold warnMetadata. destruct (existsb _ _); [done|].
  split_and!; [done..|]. simpl. by apply Forall_app; split; [|apply Forall_singleton].
Qed.

Lemma ensures_isolate allowed text keys path :
  ensures (λ _, True) (isolate_or_refuse allowed text keys path).
Proof.
  intros c. unfold isolate_or_refuse.
  revert c. induction keys as [|key keys IH]; intros c H1 H2; simpl; [by split|].
  case_bool_decide as Ha; [by apply IH|].
  destruct (metadataKey key) eqn:Hk; simpl.
  - specialize (IH (warnMetadata (candidate_metadata key (text key) c))).
    destruct (isolate _ _ _ _) as [ok c'] eqn:E. apply IH.
    + by apply parsing_warn.
    + intros k. rewrite warnMetadata_metadata. simpl. rewrite lookup_insert_is_Some.
      intros [->|[_ Hs]]; [done|by apply H2].
  - destruct (isolate _ _ _ _) as [ok c'] eqn:E. simpl. split; [|done].
    clear IH. assert (parsing (warnMetadata (candidate_metadata key (text key) c))) as Hc
      by by apply parsing_warn.
    revert Hc E. generalize (warnMetadata (candidate_metadata key (text key) c)).
    clear. revert ok. induction keys as [|k keys IH]; intros ok c Hc; simpl.
    { by intros [= <- <-]. }
    case_bool_decide; [by apply IH|].
    destruct (isolate _ _ _ _) as [ok' c''] eqn:E. intros [= <- <-].
    eapply IH; [|exact E]. by apply parsing_warn.
Qed.

Section ShareSafe.
Context {P : Platform} {T : GoText} {L : ShareLibs}.

(** ** Ports and security *)

Lemma decimalPort_bounds raw port : decimalPort raw = Ok port → 1 ≤ port ≤ 65535.
Proof.
  unfold decimalPort. intros H. split_parser H.
  injection H as <-. apply orb_false_iff in Heqb1. lia.
Qed.

Lemma let_ok {E A B} (r : result E A) (k : A → result E B) b :
  (let? x := r in k x) = Ok b → ∃ a, r = Ok a ∧ k a = Ok b.
Proof. destruct r as [a|e]; [|done]. by exists a. Qed.

Lemma endpoint_port u p e : 0 ≤ p ≤ 65535 → endpoint u p = Ok e → 1 ≤ ep_Port e ≤ 65535.
Proof.
  intros Hp. unfold endpoint. destruct (_ && _); [done|]. intros (host & _ & H)%let_ok.
  destruct (negb (su_Port u =s "")).
  - apply let_ok in H as (port & E & [= <-]). by apply decimalPort_bounds in E.
  - destruct (HasSuffix _ _ || _) eqn:E; [done|]. injection H as <-.
    apply orb_false_iff in E as [_ E]. simpl. lia.
Qed.

Lemma parseSecurity_verified q d h s : parseSecurity q d h = Ok s → verified s.
Proof.
  unfold parseSecurity. intros H. destruct (check_insecure q); [done|].
  repeat match type of H with (if ?b then _ else _) = _ => destruct b; [try done|try done] end;
    try (by injection H as <-).
  apply let_ok in H as (name & _ & H). apply let_ok in H as (alpn & _ & H).
  repeat match type of H with (if ?b then _ else _) = _ => destruct b end;
    try done; by injection H as <-.
Qed.

(** ** The dialects *)

Lemma url_auth_features scheme u q auth :
  url_auth scheme u q = Ok auth → ft_UDP auth.2 = None ∧ ft_Multiplex auth.2 = None.
Proof. unfold url_auth. intros H. split_parser H; by injection H as <-. Qed.

Lemma url_node_imported scheme u q n : url_node scheme u q = Ok n → imported n.
Proof.
  unfold url_node. intros (e & He & H)%let_ok. apply let_ok in H as (auth & Ha & H).
  apply let_ok in H as (t & Ht & H).
  destruct (_ && _ && _); [done|]. apply let_ok in H as (s & Hs & [= <-]).
  split; simpl; [done| |done| |].
  - by eapply url_auth_features.
  - eapply endpoint_port; [|exact He]. by destruct (scheme =s "http"), (scheme =s "https").
  - by eapply parseSecurity_verified.
Qed.

Lemma ss_node_imported body n : ss_node body = Ok n → imported n.
Proof.
  unfold ss_node. destruct (negb _); [done|]. destruct (cut_or_all "@" body) as [i a].
  destruct (share_Parse _) as [u|]; [|done]. destruct (_ || _); [done|].
  intros (e & He & H)%let_ok. apply let_ok in H as ([m p] & _ & H).
  destruct (_ || _); [done|]. destruct (negb _); [done|]. injection H as <-.
  split; simpl; [done..|by eapply endpoint_port; [|exact He]|done].
Qed.

Lemma vmess_node_imported v h p n : 1 ≤ p ≤ 65535 → vmess_node v h p = Ok n → imported n.
Proof.
  intros Hp. unfold vmess_node. intros H.
  repeat first
    [ apply let_ok in H as (? & ? & H)
    | match type of H with (if ?b then _ else _) = _ => destruct b; [done|] end
    | cbv zeta in H ].
  injection H as <-. split; simpl; [done..|].
  by eapply parseSecurity_verified.
Qed.

Lemma ensures_parseURLNode raw scheme : ensures imported (parseURLNode raw scheme).
Proof.
  unfold parseURLNode, isolateUnknown.
  repeat (eapply ensures_bind; [first [apply ensures_any|apply ensures_refuse|apply ensures_name|apply ensures_isolate]|intros ? _]).
  apply ensures_lift. intros n. apply url_node_imported.
Qed.

Lemma ensures_parseSS body : ensures imported (parseSS body).
Proof.
  unfold parseSS, isolateUnknown. destruct (cut_or_all "#" body) as [b f].
  do 2 (eapply ensures_bind; [first [apply ensures_any|apply ensures_name]|intros ? _]).
  destruct (cut_or_all "?" b) as [b' q].
  do 2 (eapply ensures_bind; [first [apply ensures_any|apply ensures_isolate]|intros ? _]).
  apply ensures_lift. intros n. apply ss_node_imported.
Qed.

Lemma ensures_parseVMess body : ensures imported (parseVMess body).
Proof.
  unfold parseVMess, vmess_fields.
  do 11 (eapply ensures_bind; [first [apply ensures_any|apply ensures_refuse|apply ensures_name|apply ensures_isolate]|intros ? _]).
  eapply (ensures_bind (λ port, 1 ≤ port ≤ 65535)).
  - apply ensures_lift. intros port. apply decimalPort_bounds.
  - intros port Hp. apply ensures_lift. intros n. by apply vmess_node_imported.
Qed.

(** ** The candidate *)

(** What the checks of [ParseURI] leave: either a valid candidate with the node, or a
    refusal that keeps the warning and gives reasons. *)
Definition accepted (c : Candidate) (n : Node) : Prop :=
  cand_Status c = StatusValid ∧ cand_Node c = Some n ∧ imported n ∧
  Node_Validate n = None ∧ supportedCombination n = None ∧
  (cand_Name c = "" ∨ safeText (cand_Name c) = true) ∧ metadata_only c ∧
  Forall (λ d, d = metadata_warning) (cand_Diagnostics c).

Definition rejected (c : Candidate) : Prop :=
  cand_Node c = None ∧
  ∃ reasons, reasons ≠ [] ∧ suffix reasons (cand_Diagnostics c) ∧
    cand_Status c =
      if existsb (λ d, unsupported_code (d_Code d)) reasons then StatusUnsupported else StatusInvalid.

Lemma refused_rejected err c : err ≠ [] → parsing c → rejected (refused err c).
Proof.
  intros He (H1 & H2 & H3). unfold refused.
  destruct (existsb _ err) eqn:E; (split; [done|]); exists err; rewrite E;
    (split_and!; [done|by eexists|done]).
Qed.

Lemma check_candidate_nonempty c n err : check_candidate c n = Some err → err ≠ [].
Proof.
  unfold check_candidate. intros H.
  destruct (check_name c) eqn:E1.
  { injection H as <-. unfold check_name in E1. split_parser E1. by injection E1 as <-. }
  destruct (check_external_key c) eqn:E2.
  { injection H as <-. unfold check_external_key in E2. split_parser E2. by injection E2 as <-. }
  destruct (supportedCombination n) eqn:E3.
  { injection H as <-. unfold supportedCombination in E3. cbv zeta in E3.
    repeat match type of E3 with (if ?b then _ else _) = _ => destruct b; [by injection E3 as <-|] end.
    done. }
  intros ->. by apply (explained_Node n).
Qed.

Lemma check_candidate_ok c n :
  check_candidate c n = None →
  (cand_Name c = "" ∨ safeText (cand_Name c) = true) ∧ supportedCombination n = None ∧
  Node_Validate n = None.
Proof.
  unfold check_candidate. destruct (check_name c) eqn:E1; [done|].
  destruct (check_external_key c); [done|].
  destruct (supportedCombination n); [done|]. intros H. split_and!; [|done..].
  unfold check_name in E1.
  destruct (String.eqb_spec (cand_Name c) ""); [by left|].
  destruct (safeText (cand_Name c)); [by right|done].
Qed.

Lemma finish_candidate_cases m c :
  parser_explains m → ensures imported m → parsing c → metadata_only c →
  (∃ n, accepted (finish_candidate (m c)) n) ∨ rejected (finish_candidate (m c)).
Proof.
  intros He Hm H1 H2. specialize (He c). destruct (Hm c H1 H2) as [H3 H4].
  destruct (m c) as [[n|e] c']; simpl in *; [|right; by apply refused_rejected].
  destruct (H4 n eq_refl) as [H5 H6].
  destruct (check_candidate c' n) eqn:E.
  - right. apply refused_rejected; [by eapply check_candidate_nonempty|done].
  - left. exists n. apply check_candidate_ok in E as (E1 & E2 & E3).
    unfold accepted. simpl. destruct H3 as (_ & _ & H3). by split_and!.
Qed.

Lemma parsing_new d : parsing (set_dialect d new_candidate).
Proof. by split_and!. Qed.
Lemma metadata_only_new d : metadata_only (set_dialect d new_candidate).
Proof. intros key [v Hv]. simpl in Hv. by rewrite lookup_empty in Hv. Qed.

Lemma fail_rejected code path : rejected (candidate_fail code path new_candidate).
Proof.
  split; [done|]. exists [Share.issue code path]. split_and!; [done|by exists []|].
  simpl. by rewrite orb_false_r.
Qed.

(** Every link is accepted or rejected. *)
Lemma ParseURI_cases raw : (∃ n, accepted (ParseURI raw) n) ∨ rejected (ParseURI raw).
Proof.
  unfold ParseURI.
  repeat match goal with
    |- context [if ?b then candidate_fail _ _ _ else _] => destruct b; [right; apply fail_rejected|]
  end.
  destruct (uriScheme raw) as [[scheme body]|]; [|right; apply fail_rejected].
  destruct (scheme =s "vmess"); [|destruct (scheme =s "ss"); [|case_bool_decide]];
    try (right; apply fail_rejected);
    (apply finish_candidate_cases;
       [ first [apply explains_parseVMess|apply explains_parseSS|apply explains_parseURLNode]
       | first [apply ensures_parseVMess|apply ensures_parseSS|apply ensures_parseURLNode]
       | apply parsing_new | apply metadata_only_new ]).
Qed.

Lemma candidate_Valid_accepted raw :
  candidate_Valid (ParseURI raw) = true → ∃ n, accepted (ParseURI raw) n.
Proof.
  unfold candidate_Valid. rewrite andb_true_iff, bool_decide_eq_true.
  intros [_ H]. destruct (ParseURI_cases raw) as [?|[Hn _]]; [done|congruence].
Qed.

Lemma ParseURI_text raw : candidate_Valid (ParseURI raw) = true → safeText raw = true.
Proof.
  unfold ParseURI. destruct (MaxURIBytes <? _); [done|].
  destruct (negb (ValidString raw)); [done|]. by destruct (safeText raw).
Qed.
Lemma ParseURI_short raw :
  candidate_Valid (ParseURI raw) = true → Z.of_nat (String.length raw) ≤ MaxURIBytes.
Proof. unfold ParseURI. destruct (MaxURIBytes <? _) eqn:E; [done|]. lia. Qed.
Lemma ParseURI_scheme raw :
  candidate_Valid (ParseURI raw) = true → uriScheme raw ≠ None.
Proof.
  unfold ParseURI. destruct (MaxURIBytes <? _); [done|].
  destruct (negb (ValidString raw)); [done|]. destruct (negb (safeText raw)); [done|].
  by destruct (uriScheme raw).
Qed.

(** ** Export *)

(** What an export preserves. *)
Definition same_connection (n m : Node) : Prop :=
  n_Protocol n = n_Protocol m ∧ n_Endpoint n = n_Endpoint m ∧ n_Auth n = n_Auth m ∧
  n_Transport n = n_Transport m ∧ n_Security n = n_Security m ∧ n_Features n = n_Features m.

Lemma first_difference_None n m : first_difference n m = None ↔ same_connection n m.
Proof.
  unfold first_difference, same_connection. split.
  - intros H.
    repeat match type of H with
      (if negb (bool_decide ?P) then _ else _) = _ =>
        destruct (bool_decide_reflect P); simpl in H; [|done]
      end.
    by split_and!.
  - intros (?&?&?&?&?&?). by repeat (rewrite bool_decide_true by done; simpl).
Qed.

Lemma check_export_ok name n uri u :
  check_export name n uri = Ok u →
  u = uri ∧ candidate_Valid (ParseURI uri) = true ∧ cand_Name (ParseURI uri) = name ∧
  ∃ back, cand_Node (ParseURI uri) = Some back ∧ same_connection n back.
Proof.
  unfold check_export. cbv zeta. destruct (candidate_Valid _); [|done].
  destruct (cand_Node _) as [back|]; [|done].
  destruct (String.eqb_spec (cand_Name (ParseURI uri)) name); simpl; [|done].
  destruct (first_difference n back) eqn:E; [done|]. intros [= <-].
  split_and!; [done..|]. exists back. by apply first_difference_None in E.
Qed.

Lemma EncodeURI_ok name n uri :
  EncodeURI name n = Ok uri →
  Node_Validate n = None ∧ check_export name n uri = Ok uri ∧ encode_link name n = Some (Some uri).
Proof.
  unfold EncodeURI. destruct (Node_Validate n) eqn:E.
  { rewrite bool_decide_true by done. done. }
  rewrite (bool_decide_false (None ≠ None)) by (intros H; by apply H).
  destruct (negb _); [done|]. do 2 (destruct (bool_decide _); [done|]).
  destruct (verification_disabled _); [done|].
  destruct (encode_link name n) as [[u|]|]; [|done..]. intros H.
  pose proof (check_export_ok _ _ _ _ H) as (-> & _). done.
Qed.
End ShareSafe.
