(* ===== verification/ShareBatch.v ===== *)
(** The scan of a VMess document decides exactly two things about a well-formed document:
    its nesting, and that no object repeats a key at any depth. Lists of links: the loop
    over the envelopes ends, the limits hold, and the result is the list of the entries in
    order. *)
From S2P Require Import Prelude Diagnostics IRTypes Hashes Json IRValidate Network Base64 URLText.
From S2P Require Import ShareTypes ShareLink ShareVMess ShareParse ShareEmit ShareFacts ShareSafe.

(** A JSON document up to its scalars, and the steps in which a decoder reads it: [More]
    answers no exactly before a closing delimiter. *)
Inductive JTree :=
| TString (s : string)
| TScalar
| TArr (items : list JTree)
| TObj (fields : list (string * JTree)).

Definition open_step (t : JToken) : JStep := {| js_More := true; js_Token := t |}.
Definition close_step (c : ascii) : JStep := {| js_More := false; js_Token := JDelim c |}.

Fixpoint tree_steps (t : JTree) : list JStep :=
  match t with
  | TString s => [open_step (JString s)]
  | TScalar => [open_step JScalar]
  | TArr items => open_step (JDelim "[") :: flat_map tree_steps items ++ [close_step "]"]
  | TObj fields =>
      open_step (JDelim "{") ::
      flat_map (λ kv, open_step (JString kv.1) :: tree_steps kv.2) fields ++ [close_step "}"]
  end.

(** How deep the values of a document are nested, and whether its objects have distinct
    keys. *)
Fixpoint nesting (t : JTree) : nat :=
  match t with
  | TString _ | TScalar => 0
  | TArr items => foldr (λ x n, (S (nesting x) `max` n)%nat) 0%nat items
  | TObj fields => foldr (λ kv n, (S (nesting kv.2) `max` n)%nat) 0%nat fields
  end.
Fixpoint distinct_keys (t : JTree) : Prop :=
  match t with
  | TString _ | TScalar => True
  | TArr items => foldr (λ x P, distinct_keys x ∧ P) True items
  | TObj fields => NoDup fields.*1 ∧ foldr (λ kv P, distinct_keys kv.2 ∧ P) True fields
  end.

Lemma JTree_induction (P : JTree → Prop) :
  (∀ s, P (TString s)) → P TScalar → (∀ items, Forall P items → P (TArr items)) →
  (∀ fields, Forall (λ kv, P kv.2) fields → P (TObj fields)) → ∀ t, P t.
Proof.
  intros H1 H2 H3 H4. fix IH 1. intros [s| |items|fields]; [done|done|..].
  - apply H3. induction items; constructor; auto.
  - apply H4. induction fields; constructor; auto.
Qed.

(** The verdict of the scan at some depth, as the code decides it. *)
Fixpoint tree_ok (d : nat) (t : JTree) : bool :=
  negb (32 <? d)%nat &&
  match t with
  | TString _ | TScalar => true
  | TArr items => forallb (tree_ok (S d)) items
  | TObj fields =>
      bool_decide (NoDup fields.*1) && forallb (λ kv, tree_ok (S d) kv.2) fields
  end.

Lemma tree_ok_items d items :
  Forall (λ t, ∀ d, tree_ok d t = true ↔ (d + nesting t ≤ 32)%nat ∧ distinct_keys t) items →
  (d ≤ 32)%nat →
  forallb (tree_ok (S d)) items = true ↔
    (d + foldr (λ x n, (S (nesting x) `max` n)%nat) 0%nat items ≤ 32)%nat ∧
    foldr (λ x P, distinct_keys x ∧ P) True items.
Proof.
  intros H Hd. induction H as [|t items Ht _ IH]; simpl; [split; [split; [lia|done]|done]|].
  rewrite andb_true_iff, Ht, IH. split; intros H; split_and!; destruct_and?; (done || lia).
Qed.

Lemma tree_ok_spec t d :
  tree_ok d t = true ↔ (d + nesting t ≤ 32)%nat ∧ distinct_keys t.
Proof.
  revert d. induction t as [s| |items IH|fields IH] using JTree_induction; intros d;
    cbn [tree_ok nesting distinct_keys]; rewrite ?andb_true_iff, negb_true_iff, Nat.ltb_ge.
  - split; [intros [? _]; split; [lia|done]|intros [? _]; split; [lia|done]].
  - split; [intros [? _]; split; [lia|done]|intros [? _]; split; [lia|done]].
  - split.
    + intros [Hd H]. by apply tree_ok_items in H.
    + intros [Hd H]. split; [lia|]. apply tree_ok_items; [done|lia|done].
  - assert (Forall (λ t, ∀ d, tree_ok d t = true ↔ (d + nesting t ≤ 32)%nat ∧ distinct_keys t) fields.*2)
      as IH' by (apply Forall_fmap; exact IH).
    assert (forallb (λ kv, tree_ok (S d) kv.2) fields = forallb (tree_ok (S d)) fields.*2) as ->
      by (clear; induction fields as [|kv l IH]; csimpl; [done|by rewrite IH]).
    assert (foldr (λ (kv : string * JTree) n, (S (nesting kv.2) `max` n)%nat) 0%nat fields
            = foldr (λ x n, (S (nesting x) `max` n)%nat) 0%nat fields.*2) as ->
      by (clear; induction fields as [|kv l IH]; csimpl; [done|by rewrite IH]).
    assert (foldr (λ (kv : string * JTree) P, distinct_keys kv.2 ∧ P) True fields
            = foldr (λ x P, distinct_keys x ∧ P) True fields.*2) as ->
      by (clear; induction fields as [|kv l IH]; csimpl; [done|by rewrite IH]).
    rewrite bool_decide_eq_true. split.
    + intros [Hd [Hn H]]. apply tree_ok_items in H as [H1 H2]; [|done|done]. by split_and!.
    + intros [Hd [Hn H]]. split; [lia|]. split; [done|]. apply tree_ok_items; [done|lia|done].
Qed.

(** ** The scan *)

Definition verdict (ok : bool) (rest : list JStep) (r : option (result Diagnostics (list JStep))) : Prop :=
  if ok then r = Some (Ok rest) else ∃ e, r = Some (Err e).

Lemma tree_steps_More t rest : More (tree_steps t ++ rest) = true.
Proof. by destruct t. Qed.

Definition scans (t : JTree) : Prop := ∀ fuel d rest,
  (2 * length (tree_steps t ++ rest) + 1 < fuel)%nat →
  verdict (tree_ok d t) rest (scan fuel d (tree_steps t ++ rest)).

Lemma scan_items_verdict items : Forall scans items → ∀ fuel d rest,
  (2 * length (flat_map tree_steps items ++ close_step "]" :: rest) + 2 < fuel)%nat →
  verdict (forallb (tree_ok (S d)) items) rest
    (scan_items fuel d (flat_map tree_steps items ++ close_step "]" :: rest)).
Proof.
  induction 1 as [|t items Ht _ IH]; intros [|fuel] d rest Hf; simpl in Hf; try lia; [done|].
  cbn [flat_map]. rewrite <-app_assoc. cbn [scan_items forallb].
  rewrite tree_steps_More. rewrite <-app_assoc in Hf.
  pose proof (Ht fuel (S d) (flat_map tree_steps items ++ close_step "]" :: rest) ltac:(lia)) as H.
  destruct (tree_ok (S d) t); simpl in H |- *; [|by destruct H as [e ->]; exists e].
  rewrite H. apply IH. rewrite length_app in Hf.
  assert (length (tree_steps t) ≠ 0)%nat by by destruct t. lia.
Qed.

Lemma scan_fields_verdict fields : Forall (λ kv, scans kv.2) fields → ∀ fuel d seen rest,
  let s := flat_map (λ kv, open_step (JString kv.1) :: tree_steps kv.2) fields ++ close_step "}" :: rest in
  (2 * length s < fuel)%nat →
  verdict (bool_decide (NoDup fields.*1 ∧ Forall (λ k, k ∉ seen) fields.*1)
           && forallb (λ kv, tree_ok (S d) kv.2) fields) rest
    (scan_fields fuel d seen s).
Proof.
  induction 1 as [|[k t] fields Ht _ IH]; intros [|fuel] d seen rest s Hf; simpl in Hf; try lia.
  { rewrite bool_decide_true; [done|]. split; constructor. }
  unfold s. csimpl. simpl. rewrite <-app_assoc.
  destruct (bool_decide_reflect (k ∈ seen)) as [Hk|Hk].
  { rewrite bool_decide_false; [simpl; by eexists|]. by intros [_ [H _]%Forall_cons]. }
  pose proof (Ht fuel (S d) (flat_map (λ kv, open_step (JString kv.1) :: tree_steps kv.2) fields
    ++ close_step "}" :: rest)) as H. simpl in H. rewrite <-app_assoc in Hf.
  specialize (H ltac:(lia)).
  destruct (tree_ok (S d) t); simpl in H; [|destruct H as [e ->]; rewrite andb_false_r; by exists e].
  rewrite H. specialize (IH fuel d (k :: seen) rest). simpl in IH.
  rewrite length_app in Hf. specialize (IH ltac:(lia)). simpl.
  erewrite bool_decide_ext; [exact IH|].
  rewrite NoDup_cons, Forall_cons, !Forall_forall. set_solver.
Qed.

Lemma scan_tree t : scans t.
Proof.
  induction t as [s| |items IH|fields IH] using JTree_induction; intros [|fuel] d rest Hf; try lia;
    cbn [scan tree_ok]; destruct (32 <? d)%nat; simpl; try (by eexists); try done.
  - rewrite <-app_assoc. apply scan_items_verdict; [done|]. simpl in Hf.
    rewrite <-app_assoc in Hf. simpl in *. lia.
  - rewrite <-app_assoc. simpl in Hf. rewrite <-app_assoc in Hf.
    pose proof (scan_fields_verdict fields IH fuel d [] rest) as H. simpl in H.
    specialize (H ltac:(simpl in *; lia)).
    erewrite bool_decide_ext; [exact H|]. rewrite Forall_forall. set_solver.
Qed.

(** The scan of a document takes all of it, or refuses it. *)
Lemma scanJSONValue_tree t :
  (nesting t ≤ 32)%nat ∧ distinct_keys t ↔ scanJSONValue (tree_steps t) = Ok [].
Proof.
  rewrite <-(Nat.add_0_l (nesting t)), <-tree_ok_spec.
  pose proof (scan_tree t (scan_fuel (tree_steps t ++ [])) 0%nat []) as H.
  rewrite app_nil_r in H. unfold scan_fuel in H at 1. specialize (H ltac:(lia)).
  rewrite scanJSONValue_runs in H. unfold verdict in H. destruct (tree_ok 0 t).
  - injection H as ->. done.
  - destruct H as [e [= ->]]. done.
Qed.

Section ShareBatch.
Context {P : Platform} {T : GoText} {L : ShareLibs}.

(** ** Envelopes *)

(** The data under [n] layers of Base64, without byte order marks. *)
Fixpoint peel (n : nat) (data : string) : option string :=
  match n with
  | O => Some data
  | S n =>
      match decodeBase64 data true with
      | Ok decoded => peel n (TrimPrefix decoded byte_order_mark)
      | Err _ => None
      end
  end.

Lemma unwrap_round_layers format u more u' :
  (un_layers u ≤ MaxBase64Layers)%nat → unwrap_round format u = Ok (more, u') →
  if more then u' = u
  else un_layers u' = S (un_layers u) ∧ (un_layers u' ≤ MaxBase64Layers)%nat ∧
       ∃ decoded, decodeBase64 (un_data u) true = Ok decoded ∧
         un_data u' = TrimPrefix decoded byte_order_mark.
Proof.
  intros Hl. unfold unwrap_round. destruct (nativeDocument _); [done|].
  destruct (_ && _); [by intros [= <- <-]|].
  destruct (Nat.eqb_spec (un_layers u) MaxBase64Layers); [done|].
  destruct (decodeBase64 _ _) as [d|] eqn:E; [|done].
  destruct (check_text _); [done|]. intros [= <- <-]. simpl.
  split_and!; [done|lia|by exists d].
Qed.

Lemma unwrap_spec fuel ctx polls format u :
  (un_layers u ≤ MaxBase64Layers)%nat → (MaxBase64Layers < un_layers u + fuel)%nat →
  match unwrap fuel ctx polls format u with
  | None => False
  | Some (Err _) => True
  | Some (Ok (u', _)) =>
      (un_layers u ≤ un_layers u' ≤ MaxBase64Layers)%nat ∧
      peel (un_layers u' - un_layers u) (un_data u) = Some (un_data u')
  end.
Proof.
  revert polls u. induction fuel as [|fuel IH]; intros polls u Hl Hf; simpl; [lia|].
  destruct (ctx polls); [done|].
  destruct (unwrap_round format u) as [[more u']|] eqn:E; [|done].
  pose proof (unwrap_round_layers _ _ _ _ Hl E) as H. destruct more.
  - subst. split; [lia|]. by rewrite Nat.sub_diag.
  - destruct H as (H1 & H2 & d & Hd & Hu). specialize (IH (S polls) u' H2 ltac:(lia)).
    destruct (unwrap fuel ctx (S polls) format u') as [[[u'' p]|]|]; [|done..].
    destruct IH as [H3 H4]. split; [lia|].
    replace (un_layers u'' - un_layers u)%nat with (S (un_layers u'' - un_layers u')) by lia.
    simpl. by rewrite Hd, <-Hu.
Qed.

(** ** Entries *)

(** The lines that are not blank, trimmed, with their numbers. *)
Definition list_entries (lines : list string) : list (Z * string) :=
  filter (λ e, e.2 ≠ "") (imap (λ i line, (Z.of_nat i + 1, TrimSpace line)) lines).
Definition entry_candidates (entries : list (Z * string)) : list Candidate :=
  imap (λ i e, set_place (Z.of_nat i) e.1 (ParseURI e.2)) entries.

Definition entries_from (line : Z) (lines : list string) : list (Z * string) :=
  filter (λ e, e.2 ≠ "") (imap (λ i l, (line + Z.of_nat i + 1, TrimSpace l)) lines).

Lemma entries_from_cons line raw lines :
  entries_from line (raw :: lines) =
    if TrimSpace raw =s "" then entries_from (line + 1) lines
    else (line + 1, TrimSpace raw) :: entries_from (line + 1) lines.
Proof.
  unfold entries_from. cbn [imap].
  rewrite (imap_ext ((λ i l, (line + Z.of_nat i + 1, TrimSpace l)) ∘ S)
    (λ i l, (line + 1 + Z.of_nat i + 1, TrimSpace l))) by (intros; unfold compose; f_equal; lia).
  destruct (String.eqb_spec (TrimSpace raw) "") as [E|E].
  - by rewrite filter_cons_False by (simpl; intros H; by apply H).
  - rewrite filter_cons_True by done. by rewrite Z.add_0_r.
Qed.

Lemma list_entries_from lines : list_entries lines = entries_from 0 lines.
Proof. done. Qed.

Lemma parse_entries_spec ctx polls line out lines :
  let want := out ++ imap (λ i e, set_place (Z.of_nat (length out + i)) e.1 (ParseURI e.2))
                       (entries_from line lines) in
  (∀ r, parse_entries ctx polls line out lines = Ok r → r = want) ∧
  ((∀ k, ctx k = None) → parse_entries ctx polls line out lines = Ok want).
Proof.
  revert polls line out. induction lines as [|raw lines IH]; intros polls line out want.
  { unfold want. simpl. rewrite app_nil_r. by split; [intros r [= <-]|]. }
  unfold want. rewrite entries_from_cons. simpl.
  destruct (TrimSpace raw =s "").
  - destruct (IH (S polls) (line + 1) out) as [H1 H2]. split.
    + intros r. destruct (ctx polls); [done|]. apply H1.
    + intros Hc. rewrite Hc. by apply H2.
  - destruct (IH (S polls) (line + 1)
      (out ++ [set_place (Z.of_nat (length out)) (line + 1) (ParseURI (TrimSpace raw))])) as [H1 H2].
    rewrite <-app_assoc in H1, H2. simpl in H1, H2.
    cbn [imap fst snd]. rewrite Nat.add_0_r.
    rewrite (imap_ext _ ((λ i e, set_place (Z.of_nat (length out + i)) e.1 (ParseURI e.2)) ∘ S))
      in H1, H2 by (intros; unfold compose; rewrite length_app; simpl; do 2 f_equal; lia).
    split.
    + intros r. destruct (ctx polls); [done|]. apply H1.
    + intros Hc. rewrite Hc. by apply H2.
Qed.

Lemma count_entries_spec ctx polls maxE count line lines n p :
  count_entries ctx polls maxE count lines = Ok (n, p) →
  n = (count + length (entries_from line lines))%nat ∧
  (Z.of_nat count ≤ maxE → Z.of_nat n ≤ maxE).
Proof.
  revert polls count line. induction lines as [|raw lines IH]; intros polls count line;
    cbn [count_entries].
  { intros [= <- <-]. split; [by rewrite Nat.add_0_r|done]. }
  destruct (ctx polls); [done|]. rewrite entries_from_cons. unfold blank.
  destruct (TrimSpace raw =s ""); [apply IH|].
  destruct (maxE <? Z.of_nat (S count)) eqn:E; [done|].
  intros H. apply (IH _ _ (line + 1)) in H as [-> H]. cbn [length]. split; [lia|].
  intros _. apply H. by apply Z.ltb_ge in E.
Qed.

Lemma count_entries_live ctx polls maxE count line lines :
  (∀ k, ctx k = None) → Z.of_nat (count + length (entries_from line lines)) ≤ maxE →
  ∃ p, count_entries ctx polls maxE count lines =
    Ok ((count + length (entries_from line lines))%nat, p).
Proof.
  intros Hc. revert polls count line. induction lines as [|raw lines IH]; intros polls count line Hn.
  { exists polls. simpl. by rewrite Nat.add_0_r. }
  cbn [count_entries]. rewrite Hc. rewrite entries_from_cons in Hn |- *. unfold blank.
  destruct (TrimSpace raw =s ""); [by apply IH|]. cbn [length] in Hn.
  assert ((maxE <? Z.of_nat (S count)) = false) as -> by (apply Z.ltb_ge; lia).
  destruct (IH (S polls) (S count) (line + 1)) as [p Hp]; [lia|]. exists p. rewrite Hp.
  simpl. do 2 f_equal. lia.
Qed.

(** ** The result *)

Lemma parse_text_ok ctx polls maxD maxE u r :
  parse_text ctx polls maxD maxE u = Ok r → 0 ≤ maxE →
  let entries := list_entries (unix_lines (un_data u)) in
  ir_Candidates r = entry_candidates entries ∧
  (1 ≤ length entries)%nat ∧ Z.of_nat (length entries) ≤ maxE ∧
  Z.of_nat (un_size u) ≤ maxD ∧ ir_Base64Layers r = un_layers u ∧
  ir_Format r = (if (0 <? un_layers u)%nat then FormatBase64 else FormatText).
Proof.
  unfold parse_text. destruct (maxD <? _) eqn:Ed; [done|]. destruct (nativeDocument _); [done|].
  cbv zeta. intros H Hmax. apply let_ok in H as ([n p] & Hn & H).
  cbn [fst snd] in H. destruct (n =? 0)%nat eqn:E0; [done|].
  apply let_ok in H as (cs & Hcs & [= <-]).
  apply (count_entries_spec _ _ _ _ 0) in Hn as [-> Hle].
  apply (proj1 (parse_entries_spec _ _ _ _ _)) in Hcs as ->.
  cbn [ir_Candidates ir_Base64Layers ir_Format].
  change (list_entries (unix_lines (un_data u))) with (entries_from 0 (unix_lines (un_data u))). apply Nat.eqb_neq in E0. split_and!; [done|lia..|done|done].
Qed.

Lemma parse_text_live ctx polls maxD maxE u :
  (∀ k, ctx k = None) → Z.of_nat (un_size u) ≤ maxD → nativeDocument (un_data u) = false →
  let entries := list_entries (unix_lines (un_data u)) in
  (1 ≤ length entries)%nat → Z.of_nat (length entries) ≤ maxE →
  parse_text ctx polls maxD maxE u =
    Ok {| ir_Format := if (0 <? un_layers u)%nat then FormatBase64 else FormatText;
          ir_Base64Layers := un_layers u; ir_Candidates := entry_candidates entries |}.
Proof.
  intros Hc Hs Hn entries H1 H2. unfold parse_text.
  assert ((maxD <? Z.of_nat (un_size u)) = false) as -> by lia. rewrite Hn. cbv zeta.
  destruct (count_entries_live ctx polls maxE 0 0 (unix_lines (un_data u)) Hc) as [p ->]; [done|].
  cbn [fst snd]. assert ((0 + length (entries_from 0 (unix_lines (un_data u))) =? 0)%nat = false) as ->
    by (apply Nat.eqb_neq; unfold entries in H1; rewrite list_entries_from in H1; lia).
  by rewrite (proj2 (parse_entries_spec ctx p 0 [] (unix_lines (un_data u))) Hc).
Qed.

Lemma entry_candidates_length entries : length (entry_candidates entries) = length entries.
Proof. apply length_imap. Qed.

Lemma entry_candidates_lookup entries i c :
  entry_candidates entries !! i = Some c →
  ∃ line raw, entries !! i = Some (line, raw) ∧ c = set_place (Z.of_nat i) line (ParseURI raw).
Proof.
  unfold entry_candidates. rewrite list_lookup_imap. intros H.
  apply fmap_Some in H as ([line raw] & H & ->). by eexists _, _.
Qed.

(** Line numbers increase along the entries. *)
Lemma entries_from_bound line lines : Forall (λ e, line < e.1) (entries_from line lines).
Proof.
  revert line. induction lines as [|raw lines IH]; intros line; [constructor|].
  rewrite entries_from_cons. assert (Forall (λ e, line < e.1) (entries_from (line + 1) lines)).
  { eapply Forall_impl; [apply IH|]. simpl. lia. }
  destruct (_ =s _); [done|]. constructor; [simpl; lia|done].
Qed.
Lemma entries_from_sorted line lines :
  StronglySorted (λ a b, a.1 < b.1) (entries_from line lines).
Proof.
  revert line. induction lines as [|raw lines IH]; intros line; [constructor|].
  rewrite entries_from_cons. destruct (_ =s _); [done|]. constructor; [done|].
  apply (entries_from_bound (line + 1)).
Qed.

(** What [ParseBounded] returns: an answer always, and the list of all entries of the
    text under at most two layers. *)
Lemma ParseBounded_cases ctx format input maxD maxE :
  ∃ answer, ParseBounded ctx format input maxD maxE = Some answer ∧
    ∀ r, answer = Ok r →
      (ir_Base64Layers r ≤ MaxBase64Layers)%nat ∧
      ∃ text, peel (ir_Base64Layers r) (TrimPrefix input byte_order_mark) = Some text ∧
        ir_Candidates r = entry_candidates (list_entries (unix_lines text)) ∧
        (1 ≤ length (ir_Candidates r))%nat ∧ Z.of_nat (length (ir_Candidates r)) ≤ maxE.
Proof.
  unfold ParseBounded. cbv zeta.
  destruct (_ || _ || _ || _) eqn:El; [by eexists|].
  rewrite !orb_false_iff in El. destruct El as [[[_ _] He] _].
  destruct (ctx 0%nat); [by eexists|].
  set (f := if format =s "" then FormatAuto else format).
  set (u := {| un_data := _; un_size := _; un_layers := 0 |}).
  repeat match goal with
    |- context [if ?b then Some (Err (Refused _)) else _] => destruct b; [by eexists|]
  end.
  assert (∀ polls u', (un_layers u' ≤ MaxBase64Layers)%nat →
    peel (un_layers u') (un_data u) = Some (un_data u') →
    ∃ answer, Some (parse_text ctx polls maxD maxE u') = Some answer ∧ ∀ r, answer = Ok r →
      (ir_Base64Layers r ≤ MaxBase64Layers)%nat ∧
      ∃ text, peel (ir_Base64Layers r) (un_data u) = Some text ∧
        ir_Candidates r = entry_candidates (list_entries (unix_lines text)) ∧
        (1 ≤ length (ir_Candidates r))%nat ∧ Z.of_nat (length (ir_Candidates r)) ≤ maxE) as Hend.
  { intros polls u' Hl Hp. eexists. split; [done|]. intros r H.
    apply parse_text_ok in H as (-> & H1 & H2 & H3 & -> & _); [|lia].
    split; [done|]. exists (un_data u'). rewrite entry_candidates_length.
    by split_and!. }
  destruct (f =s FormatText); [apply Hend; [unfold MaxBase64Layers; simpl; lia|done]|].
  pose proof (unwrap_spec unwrap_fuel ctx 1 f u) as H.
  specialize (H ltac:(unfold MaxBase64Layers; simpl; lia) ltac:(unfold unwrap_fuel; simpl; lia)).
  destruct (unwrap unwrap_fuel ctx 1 f u) as [[[u' p]|e]|]; [|by eexists|done].
  destruct H as [H1 H2]. apply Hend; [lia|]. simpl in H2. by rewrite Nat.sub_0_r in H2.
Qed.
End ShareBatch.
