(* ===== verification/ShareExport.v ===== *)
(** Export and import compose: a list of links that is exported, plain or in Base64, is
    imported again as the same nodes in the same order. *)
From S2P Require Import Prelude Diagnostics IRTypes Hashes Json IRValidate Network Base64 URLText.
From S2P Require Import ShareTypes ShareLink ShareVMess ShareParse ShareEmit ShareFacts ShareSafe.
From S2P Require Import ShareBatch.

(** ** Valid UTF-8 is closed under concatenation *)

Lemma rune_tail_app c s t n :
  rune_tail c s = Some n → rune_tail c (s +:+ t) = Some n ∧ (n ≤ String.length s)%nat.
Proof.
  unfold rune_tail. destruct s as [|c1 [|c2 [|c3 s]]]; rewrite ?string_app_cons, ?string_app_empty_l;
    intros H; repeat case_match; simplify_eq/=; split; first [done|lia].
Qed.

Lemma utf8_valid_app skip s t :
  (skip ≤ String.length s)%nat → utf8_valid skip s = true →
  utf8_valid skip (s +:+ t) = utf8_valid 0 t.
Proof.
  revert skip. induction s as [|c s IH]; intros skip; simpl.
  { intros Hs. replace skip with 0%nat by lia. done. }
  intros Hs. rewrite ?string_app_cons. destruct skip as [|skip]; simpl.
  - destruct (byte_in 0 127 c); [apply IH; lia|].
    destruct (rune_tail c s) as [n|] eqn:E; [|done].
    apply (rune_tail_app c s t) in E as [-> Hn]. by apply IH.
  - apply IH. lia.
Qed.

Lemma ValidString_app s t : ValidString s = true → ValidString (s +:+ t) = ValidString t.
Proof. intros H. apply utf8_valid_app; [lia|done]. Qed.

(** ** Texts that trimming leaves alone *)

Definition graphic (c : ascii) : bool := byte_in 33 126 c.
Definition starts_graphic (s : string) : Prop := ∃ c t, s = String c t ∧ graphic c = true.
Definition ends_graphic (s : string) : Prop := ∃ t c, s = t +:+ String c "" ∧ graphic c = true.

(** [strings.TrimSpace] removes white space at the ends, and graphic ASCII is none. *)
Class TrimLaws {T : GoText} : Prop := {
  TrimSpace_graphic : ∀ s, starts_graphic s → ends_graphic s → TrimSpace s = s }.

Lemma ends_graphic_app s t : ends_graphic t → ends_graphic (s +:+ t).
Proof. intros (u & c & -> & H). exists (s +:+ u), c. by rewrite string_app_assoc. Qed.

Lemma ends_graphic_all s : s ≠ "" → all_chars graphic s = true → ends_graphic s.
Proof.
  induction s as [|c s IH]; [done|]. intros _. cbn [all_chars]. rewrite andb_true_iff.
  intros [Hc Hs]. destruct s as [|d s].
  - by exists "", c.
  - apply (ends_graphic_app (String c "")), IH; done.
Qed.

Lemma starts_graphic_all s : s ≠ "" → all_chars graphic s = true → starts_graphic s.
Proof.
  destruct s as [|c s]; [done|]. cbn [all_chars]. rewrite andb_true_iff.
  intros _ [Hc _]. by exists c, s.
Qed.

Lemma ends_graphic_port e : ends_graphic (Itoa (ep_Port e)).
Proof.
  apply ends_graphic_all; [apply Itoa_not_empty|].
  eapply all_chars_impl; [|apply Itoa_chars]. intros c.
  by destruct c as [[] [] [] [] [] [] [] []].
Qed.

Lemma ends_graphic_path s : s ≠ "" → ends_graphic (PathEscape s).
Proof.
  intros Hs. apply ends_graphic_all.
  - intros E. pose proof (PathUnescape_escape s) as H. rewrite E in H. by injection H as <-.
  - eapply all_chars_impl; [|by apply (url_escape_chars PathSegment)].
    intros c. by destruct c as [[] [] [] [] [] [] [] []].
Qed.

Lemma ends_graphic_base64 url padded s : s ≠ "" → ends_graphic (base64_encode url padded s).
Proof.
  intros Hs. apply ends_graphic_all; [by apply base64_encode_nonempty|].
  eapply all_chars_impl; [|apply base64_encode_chars].
  intros c. by destruct c as [[] [] [] [] [] [] [] []].
Qed.

Lemma ends_graphic_query m : m ≠ ∅ → ends_graphic ("?" +:+ encode_query m).
Proof.
  intros Hm. apply ends_graphic_app, ends_graphic_all; [by apply encode_query_nonempty|].
  assert (∀ l, all_chars graphic (String.concat "&" (query_part m <$> l)) = true) as H; [|apply H].
  assert (∀ s, all_chars graphic (QueryEscape s) = true) as Hq.
  { intros s. eapply all_chars_impl; [|apply QueryEscape_chars].
    intros c. by destruct c as [[] [] [] [] [] [] [] []]. }
  assert (∀ k, all_chars graphic (query_part m k) = true) as Hp.
  { intros k. unfold query_part. by rewrite !all_chars_app, !Hq. }
  induction l as [|k [|k' l] IH]; [done|apply Hp|].
  change (all_chars graphic (query_part m k +:+ "&" +:+ String.concat "&" (query_part m <$> k' :: l)) = true).
  by rewrite !all_chars_app, Hp, IH.
Qed.

Section ShareExport.
Context {P : Platform} {T : GoText} {L : ShareLibs}.

Lemma hostPort_ends e : ends_graphic (hostPort e).
Proof. unfold hostPort. by do 2 apply ends_graphic_app; apply ends_graphic_port. Qed.

(** A query and a fragment, either possibly absent, after something that ends well. *)
Lemma ends_graphic_fragment s name : ends_graphic s → ends_graphic (s +:+ encodeFragment name).
Proof.
  intros H. unfold encodeFragment. destruct (String.eqb_spec name "").
  - by rewrite string_app_empty_r.
  - by do 2 apply ends_graphic_app; apply ends_graphic_path.
Qed.

Definition link_schemes : list string := ["ss"; "vmess"; "vless"; "trojan"; "socks5"; "http"; "https"].

(** The form of every exported link. *)
Definition link_shape (uri : string) : Prop :=
  ∃ scheme rest, uri = scheme +:+ "://" +:+ rest ∧ scheme ∈ link_schemes ∧ ends_graphic uri.

Lemma encodeShadowsocks_shape name n uri : encodeShadowsocks name n = Some uri → link_shape uri.
Proof.
  unfold encodeShadowsocks. intros H. split_parser H. injection H as <-.
  exists "ss". eexists. split; [done|]. split; [set_solver|].
  rewrite <-!string_app_assoc. apply ends_graphic_fragment. rewrite !string_app_assoc.
  do 3 apply ends_graphic_app. apply hostPort_ends.
Qed.

Lemma json_nonempty v : Marshal (Obj v) ≠ "".
Proof. done. Qed.

Lemma encodeVMessURI_shape name n uri : encodeVMessURI name n = Some uri → link_shape uri.
Proof.
  unfold encodeVMessURI. destruct (n_Auth n); try done.
  destruct (shareQuery n false) as [[[network security] extra]|]; [|done].
  cbn [mbind option_bind]. intros [= <-].
  exists "vmess". eexists. split; [done|]. split; [set_solver|].
  apply (ends_graphic_app "vmess://"), ends_graphic_base64. apply json_nonempty.
Qed.

Lemma encodeShareQuery_ends s n query :
  encodeShareQuery n = Some query → ends_graphic s → ends_graphic (s +:+ query).
Proof.
  unfold encodeShareQuery. destruct (shareQuery n true) as [[[? ?] extra]|]; [|done].
  cbn [mbind option_bind].
  destruct (ft_ProtocolVariant _) as [v|]; [destruct (_ =s VLESS); [|done]|];
    cbn [mbind option_bind]; intros [= <-] Hs;
    (case_bool_decide; [by rewrite string_app_empty_r|by apply ends_graphic_app, ends_graphic_query]).
Qed.

Lemma encodeURLNode_shape name n uri :
  n_Protocol n ∈ [VLESS; Trojan; SOCKS5; HTTP] → encodeURLNode name n = Some uri → link_shape uri.
Proof.
  intros Hp. unfold encodeURLNode. destruct (urlUserinfo n) as [userinfo|]; [|done].
  cbn [mbind option_bind]. set (scheme := if n_Protocol n =s HTTP then _ else _).
  destruct (encodeShareQuery n) as [query|] eqn:Eq; [|done]. cbn [mbind option_bind].
  intros [= <-]. exists scheme. eexists. split; [done|]. split.
  - unfold scheme. rewrite !elem_of_cons, elem_of_nil in Hp.
    destruct Hp as [-> |[-> |[-> |[-> |[]]]]]; simpl; [set_solver..|].
    destruct (is_tls _); set_solver.
  - rewrite <-!string_app_assoc. apply ends_graphic_fragment.
    eapply encodeShareQuery_ends; [done|]. apply ends_graphic_app, hostPort_ends.
Qed.

Lemma encode_link_shape name n uri : encode_link name n = Some (Some uri) → link_shape uri.
Proof.
  unfold encode_link. destruct (_ =s Shadowsocks).
  { intros [= H]. by eapply encodeShadowsocks_shape. }
  destruct (_ =s VMess).
  { intros [= H]. by eapply encodeVMessURI_shape. }
  case_bool_decide; [|done]. intros [= H']. by eapply encodeURLNode_shape.
Qed.

(** ** An exported link as a line *)

Record link_line (uri : string) : Prop := {
  ll_shape : link_shape uri;
  ll_text : safeText uri = true;
  ll_scheme : uriScheme uri ≠ None }.

Lemma EncodeURI_line name n uri : EncodeURI name n = Ok uri → link_line uri.
Proof.
  intros (_ & Hc & Hl)%EncodeURI_ok. apply check_export_ok in Hc as (_ & Hv & _).
  split; [by eapply encode_link_shape|by apply ParseURI_text|by apply ParseURI_scheme].
Qed.

(** The first byte of a link is a letter of one of the schemes. *)
Lemma link_first uri :
  link_line uri → ∃ c rest, uri = String c rest ∧ c ∈ ["s"; "v"; "t"; "h"]%char.
Proof.
  intros [(scheme & rest & -> & Hs & _) _ _].
  unfold link_schemes in Hs. rewrite !elem_of_cons, elem_of_nil in Hs.
  destruct Hs as [->|[->|[->|[->|[->|[->|[->|[]]]]]]]]; rewrite string_app_cons;
    eexists _, _; (split; [done|set_solver]).
Qed.

Lemma safe_free c s : safeText s = true → byte_in 0 31 c = true → free_of c s = true.
Proof.
  unfold safeText. rewrite andb_true_iff. intros [_ H] Hc. unfold free_of.
  eapply all_chars_impl; [|exact H]. intros d Hd. apply negb_true_iff, Ascii.eqb_neq.
  intros ->. by rewrite Hc in Hd.
Qed.

Lemma link_nonempty uri : link_line uri → uri ≠ "".
Proof. by intros (c & r & -> & _)%link_first. Qed.

Lemma link_starts uri : link_line uri → starts_graphic uri.
Proof.
  intros (c & r & -> & Hc)%link_first. exists c, r. split; [done|].
  rewrite !elem_of_cons, elem_of_nil in Hc. by destruct Hc as [->|[->|[->|[->|[]]]]].
Qed.
Lemma link_ends uri : link_line uri → ends_graphic uri.
Proof. by intros [(s & r & _ & _ & H) _ _]. Qed.

(** ** The plain document *)

Definition document (uris : list string) : string := String.concat newline_text uris.

Lemma document_cons u v uris :
  document (u :: v :: uris) = u +:+ String "010" (document (v :: uris)).
Proof. done. Qed.

Lemma document_first uris :
  uris ≠ [] → Forall link_line uris →
  ∃ c rest, document uris = String c rest ∧ c ∈ ["s"; "v"; "t"; "h"]%char.
Proof.
  intros Hne H. destruct H as [|u uris Hu H]; [done|].
  apply link_first in Hu as (c & r & -> & Hc).
  destruct uris as [|v uris]; [by eexists _, _|].
  rewrite document_cons, string_app_cons. by eexists _, _.
Qed.

Lemma document_ends uris : uris ≠ [] → Forall link_line uris → ends_graphic (document uris).
Proof.
  intros Hne H. induction H as [|u uris Hu H IH]; [done|].
  destruct uris as [|v uris]; [by apply link_ends|].
  rewrite document_cons. apply ends_graphic_app, (ends_graphic_app (String "010" "")). by apply IH.
Qed.

Lemma document_starts uris : uris ≠ [] → Forall link_line uris → starts_graphic (document uris).
Proof.
  intros Hne H. destruct (document_first uris Hne H) as (c & r & -> & Hc).
  exists c, r. split; [done|]. rewrite !elem_of_cons, elem_of_nil in Hc.
  by destruct Hc as [->|[->|[->|[->|[]]]]].
Qed.

Lemma document_valid uris : Forall link_line uris → ValidString (document uris) = true.
Proof.
  induction 1 as [|u uris Hu H IH]; [done|].
  assert (ValidString u = true) as Hv.
  { pose proof (ll_text _ Hu) as Ht. unfold safeText in Ht. by apply andb_true_iff in Ht as [? _]. }
  destruct uris as [|v uris]; [done|]. rewrite document_cons, ValidString_app by done. exact IH.
Qed.

Lemma document_free c uris :
  byte_in 0 31 c = true → c ≠ "010"%char → Forall link_line uris → free_of c (document uris) = true.
Proof.
  intros Hc Hne. induction 1 as [|u uris Hu H IH]; [done|].
  pose proof (safe_free c u (ll_text _ Hu) Hc) as Hf.
  destruct uris as [|v uris]; [done|]. rewrite document_cons, free_of_app, Hf. simpl.
  unfold free_of. cbn [all_chars]. apply not_eq_sym, Ascii.eqb_neq in Hne. rewrite Hne. exact IH.
Qed.

Lemma join_crlf_free s : free_of "013" s = true → join_crlf s = s.
Proof.
  unfold free_of. induction s as [|c s IH]; [done|]. cbn [all_chars].
  rewrite andb_true_iff, negb_true_iff. intros [Hc Hs]. specialize (IH Hs).
  destruct s as [|d s]; [done|]. cbn [join_crlf] in *. rewrite Hc. cbn [andb]. by rewrite IH.
Qed.

Lemma document_lines uris :
  uris ≠ [] → Forall link_line uris → Split "010" (document uris) = uris.
Proof.
  intros Hne H. apply Split_concat; [done|]. eapply Forall_impl; [exact H|].
  intros u Hu. by apply safe_free; [apply ll_text|].
Qed.

Lemma document_unix_lines uris :
  uris ≠ [] → Forall link_line uris → unix_lines (document uris) = uris.
Proof.
  intros Hne H. unfold unix_lines. rewrite join_crlf_free by by apply document_free.
  rewrite replace_char_free by by apply document_free. by apply document_lines.
Qed.

Section Trimming.
Context {TL : TrimLaws}.

Lemma TrimSpace_link uri : link_line uri → TrimSpace uri = uri.
Proof. intros H. apply TrimSpace_graphic; [by apply link_starts|by apply link_ends]. Qed.

Lemma TrimSpace_document uris : uris ≠ [] → Forall link_line uris → TrimSpace (document uris) = document uris.
Proof. intros. apply TrimSpace_graphic; [by apply document_starts|by apply document_ends]. Qed.

(** The checks on the text of a list pass. *)
Lemma document_nonblank uris :
  uris ≠ [] → Forall link_line uris → TrimSpace (document uris) =s "" = false.
Proof.
  intros Hne H. rewrite TrimSpace_document by done. apply String.eqb_neq.
  destruct (document_first uris Hne H) as (c & r & -> & _). done.
Qed.

Lemma document_not_compressed uris :
  uris ≠ [] → Forall link_line uris → compressed (document uris) = false.
Proof.
  intros Hne H. destruct (document_first uris Hne H) as (c & r & -> & Hc).
  rewrite !elem_of_cons, elem_of_nil in Hc. by destruct Hc as [->|[->|[->|[->|[]]]]].
Qed.

Lemma document_not_native uris :
  uris ≠ [] → Forall link_line uris → nativeDocument (document uris) = false.
Proof.
  intros Hne H. unfold nativeDocument. cbv zeta. rewrite TrimSpace_document by done.
  rewrite document_lines by done. destruct (document_first uris Hne H) as (c & r & E & Hc).
  assert (native_lines uris = false) as ->.
  { destruct H as [|u uris Hu _]; [done|]. cbn [native_lines]. cbv zeta.
    rewrite TrimSpace_link by done. pose proof (ll_scheme _ Hu) as Hs.
    destruct (_ || HasPrefix u "#") eqn:Eb.
    - exfalso. apply link_first in Hu as (c' & r' & -> & Hc'). clear -Eb Hc'.
      rewrite !elem_of_cons, elem_of_nil in Hc'. by destruct Hc' as [->|[->|[->|[->|[]]]]].
    - by destruct (uriScheme u). }
  rewrite E. rewrite !elem_of_cons, elem_of_nil in Hc. by destruct Hc as [->|[->|[->|[->|[]]]]].
Qed.

Lemma document_contains uris :
  uris ≠ [] → Forall link_line uris → containsURI (document uris) = true.
Proof.
  intros Hne H. unfold containsURI. rewrite document_lines by done.
  destruct H as [|u uris Hu _]; [done|]. simpl. rewrite TrimSpace_link by done.
  rewrite bool_decide_true by apply ll_scheme, Hu. done.
Qed.

Lemma document_no_mark uris :
  uris ≠ [] → Forall link_line uris → TrimPrefix (document uris) byte_order_mark = document uris.
Proof.
  intros Hne H. destruct (document_first uris Hne H) as (c & r & E & Hc).
  unfold TrimPrefix. assert (HasPrefix (document uris) byte_order_mark = false) as ->; [|done].
  rewrite E. rewrite !elem_of_cons, elem_of_nil in Hc. by destruct Hc as [->|[->|[->|[->|[]]]]].
Qed.

Lemma document_entries uris :
  uris ≠ [] → Forall link_line uris →
  list_entries (unix_lines (document uris)) = imap (λ i u, (Z.of_nat i + 1, u)) uris.
Proof.
  intros Hne H. rewrite document_unix_lines by done. unfold list_entries. clear Hne.
  rewrite <-(imap_ext (λ i u, (Z.of_nat i + 1, u))).
  - assert (∀ f : nat → Z, filter (λ e : Z * string, e.2 ≠ "") (imap (λ i u, (f i, u)) uris)
            = imap (λ i u, (f i, u)) uris) as Hf; [|apply (Hf (λ i, Z.of_nat i + 1))].
    induction H as [|u uris Hu _ IH]; intros f; [done|]. cbn [imap].
    rewrite filter_cons_True by by apply link_nonempty. f_equal.
    exact (IH (f ∘ S)).
  - intros i u Hi. rewrite Forall_lookup in H. by rewrite TrimSpace_link by eauto.
Qed.
End Trimming.
End ShareExport.
