(* ===== verification/ShareRound.v ===== *)
(** The import of an exported document: both formats, from the envelope to the nodes.
    Shadowsocks links are complete: a node with a canonical endpoint is always exported, and
    its link is read back as the node. *)
From S2P Require Import Prelude Diagnostics IRTypes Hashes Json IRValidate Network MemberFacts.
From S2P Require Import Base64 URLText ShareTypes ShareLink ShareVMess ShareParse ShareEmit.
From S2P Require Import ShareFacts ShareSafe ShareBatch ShareExport.

(** ** Base64 documents *)

Lemma encode_groups_length url l :
  length (encode_groups url true l) = (4 * ((length l + 2) / 3))%nat.
Proof.
  induction l as [|x|x y|x y z l IH] using ind_3; [done..|].
  cbn [encode_groups length]. rewrite IH.
  replace (S (S (S (length l))) + 2)%nat with (length l + 2 + 1 * 3)%nat by lia.
  rewrite Nat.div_add by lia. lia.
Qed.

Lemma string_length_list s : String.length s = length (String.list_ascii_of_string s).
Proof. induction s as [|c s IH]; [done|]. simpl. by rewrite IH. Qed.

Lemma base64_encode_length url s :
  Z.of_nat (String.length (base64_encode url true s)) = (Z.of_nat (String.length s) + 2) / 3 * 4.
Proof.
  unfold base64_encode. rewrite string_length_list, String.list_ascii_of_string_of_list_ascii.
  rewrite encode_groups_length, <-string_length_list.
  rewrite Nat2Z.inj_mul, Nat2Z.inj_div, Nat2Z.inj_add. lia.
Qed.

Lemma EncodedLimit_ge d : 0 ≤ d → d ≤ EncodedLimit d ∧ (d + 2) / 3 * 4 ≤ EncodedLimit d.
Proof.
  intros Hd. unfold EncodedLimit. set (a := (d + 2) / 3 * 4).
  assert (d ≤ a) by (unfold a; pose proof (Z.mul_div_le (d + 2) 3); pose proof (Z.mod_pos_bound (d + 2) 3);
    pose proof (Z.div_mod (d + 2) 3); lia).
  assert (a ≤ (a + 2) / 3 * 4) by (pose proof (Z.div_mod (a + 2) 3); pose proof (Z.mod_pos_bound (a + 2) 3); lia).
  lia.
Qed.

Lemma Cut_free sep s : free_of sep s = true → Cut sep s = None.
Proof.
  unfold free_of. induction s as [|c s IH]; simpl; [done|].
  rewrite andb_true_iff, negb_true_iff. intros [-> H]. by rewrite IH.
Qed.

Lemma CutString_free c sep s : free_of c s = true → CutString (String c sep) s = None.
Proof.
  unfold free_of. induction s as [|d s IH]; [done|]. cbn [all_chars CutString String.prefix].
  rewrite andb_true_iff, negb_true_iff, Ascii.eqb_neq. intros [Hd H].
  destruct (ascii_dec c d); [by subst|]. by rewrite IH.
Qed.

Lemma base64_free c url padded s : base64_char c = false → free_of c (base64_encode url padded s) = true.
Proof.
  intros Hc. eapply all_chars_impl; [|apply base64_encode_chars].
  intros d Hd. apply negb_true_iff, Ascii.eqb_neq. intros ->. congruence.
Qed.

Lemma std_free c padded s : one_of "-_" c = true → free_of c (base64_encode false padded s) = true.
Proof.
  intros Hc. unfold free_of. apply all_chars_list. unfold base64_encode.
  rewrite String.list_ascii_of_string_of_list_ascii.
  eapply Forall_impl; [apply encode_groups_std|].
  intros d Hd. apply negb_true_iff, Ascii.eqb_neq. intros ->. unfold url_only in Hd. congruence.
Qed.

(** A text without the first byte of a prefix does not have the prefix. *)
Lemma HasPrefix_free c p s : free_of c s = true → HasPrefix s (String c p) = false.
Proof.
  intros H. apply not_true_iff_false. intros (t & ->)%prefix_app.
  rewrite string_app_cons in H. unfold free_of in H. simpl in H. by rewrite Ascii.eqb_refl in H.
Qed.

Lemma HasPrefix_free_2 c d p s : free_of d s = true → HasPrefix s (String c (String d p)) = false.
Proof.
  intros H. apply not_true_iff_false. intros (t & ->)%prefix_app.
  rewrite !string_app_cons in H. unfold free_of in H. simpl in H.
  by rewrite Ascii.eqb_refl, andb_false_r in H.
Qed.

Section ShareRound.
Context {P : Platform} {T : GoText} {L : ShareLibs} {TL : TrimLaws}.

Lemma uriScheme_no_colon s : free_of ":" s = true → uriScheme s = None.
Proof. intros H. unfold uriScheme. by rewrite CutString_free. Qed.

Section Envelope.
Context (s : string) (Hs : s ≠ "").
Abbreviation doc := (base64_encode false true s).

Lemma envelope_trim : TrimSpace doc = doc.
Proof.
  apply TrimSpace_graphic; [|by apply ends_graphic_base64].
  apply starts_graphic_all; [by apply base64_encode_nonempty|].
  eapply all_chars_impl; [|apply base64_encode_chars].
  intros c. by destruct c as [[] [] [] [] [] [] [] []].
Qed.
Lemma envelope_nonempty : doc =s "" = false.
Proof. by apply String.eqb_neq, base64_encode_nonempty. Qed.
Lemma envelope_line : Split "010" doc = [doc].
Proof. by apply Split_free, base64_free. Qed.
Lemma envelope_scheme : uriScheme doc = None.
Proof. by apply uriScheme_no_colon, base64_free. Qed.

Lemma envelope_not_native : nativeDocument doc = false.
Proof.
  unfold nativeDocument. cbv zeta. rewrite envelope_trim, envelope_nonempty, envelope_line.
  rewrite !(HasPrefix_free _ _ doc) by (first [by apply std_free|by apply base64_free]). simpl.
  rewrite envelope_trim, envelope_nonempty, envelope_scheme.
  rewrite !(HasPrefix_free _ _ doc) by (first [by apply std_free|by apply base64_free]). simpl.
  by rewrite Cut_free by by apply base64_free.
Qed.

Lemma envelope_no_uri : containsURI doc = false.
Proof.
  unfold containsURI. rewrite envelope_line. simpl. by rewrite envelope_trim, envelope_scheme.
Qed.

Lemma envelope_not_compressed : compressed doc = false.
Proof.
  unfold compressed.
  assert (HasPrefix doc ("PK" +:+ String "003" (String "004" "")) = false) as ->.
  { apply not_true_iff_false. intros (t & E)%prefix_app.
    assert (free_of "003" doc = true) as H by by apply base64_free.
    rewrite E in H. done. }
  by rewrite !(HasPrefix_free _ _ doc) by by apply base64_free.
Qed.

Lemma envelope_valid : ValidString doc = true.
Proof.
  apply ValidString_ascii. eapply all_chars_impl; [|apply base64_encode_chars].
  intros c. by destruct c as [[] [] [] [] [] [] [] []].
Qed.
Lemma envelope_no_mark : TrimPrefix doc byte_order_mark = doc.
Proof. unfold TrimPrefix, byte_order_mark. by rewrite HasPrefix_free by by apply base64_free. Qed.
End Envelope.

(** ** The two formats *)

Section Documents.
Context (uris : list string) (Hne : uris ≠ []) (Hl : Forall link_line uris).
Context (maxD maxE : Z) (ctx : Context).
Context (HmaxD : 1 ≤ maxD ≤ MaxDecodedBytes) (HmaxE : 1 ≤ maxE ≤ MaxEntries).
Context (Hsize : Z.of_nat (String.length (document uris)) ≤ maxD).
Context (Hcount : Z.of_nat (length uris) ≤ maxE) (Hctx : ∀ k, ctx k = None).

Definition restored_candidates : list Candidate :=
  imap (λ i u, set_place (Z.of_nat i) (Z.of_nat i + 1) (ParseURI u)) uris.

Lemma document_candidates :
  entry_candidates (list_entries (unix_lines (document uris))) = restored_candidates.
Proof.
  rewrite document_entries by done. unfold entry_candidates, restored_candidates.
  apply list_eq. intros i. rewrite !list_lookup_imap. by destruct (uris !! i).
Qed.

Lemma document_count : length (list_entries (unix_lines (document uris))) = length uris.
Proof. rewrite document_entries by done. apply length_imap. Qed.

Lemma parse_document polls layers :
  parse_text ctx polls maxD maxE
    {| un_data := document uris; un_size := String.length (document uris); un_layers := layers |} =
  Ok {| ir_Format := if (0 <? layers)%nat then FormatBase64 else FormatText;
        ir_Base64Layers := layers; ir_Candidates := restored_candidates |}.
Proof.
  rewrite parse_text_live; cbn [un_data un_size un_layers]; rewrite ?document_count.
  - by rewrite document_candidates.
  - done.
  - done.
  - by apply document_not_native.
  - destruct uris; [done|simpl; lia].
  - done.
Qed.

Lemma limits_ok : (maxD <? 1) || (MaxDecodedBytes <? maxD) || (maxE <? 1) || (MaxEntries <? maxE) = false.
Proof. rewrite !orb_false_iff. lia. Qed.

Lemma import_plain format :
  format ∈ [""; FormatAuto; FormatText] →
  ParseBounded ctx format (document uris) maxD maxE =
    Some (Ok {| ir_Format := FormatText; ir_Base64Layers := 0;
                ir_Candidates := restored_candidates |}).
Proof.
  intros Hf. unfold ParseBounded. rewrite limits_ok, Hctx. cbv zeta.
  set (f := if format =s "" then FormatAuto else format).
  assert (f = FormatAuto ∨ f = FormatText) as Hff.
  { rewrite !elem_of_cons, elem_of_nil in Hf. unfold f.
    destruct Hf as [-> |[-> |[-> |[]]]]; simpl; auto. }
  rewrite bool_decide_true by (destruct Hff as [-> | ->]; set_solver). cbn [negb].
  assert ((EncodedLimit maxD <? Z.of_nat (String.length (document uris))) = false) as ->.
  { apply Z.ltb_ge. destruct (EncodedLimit_ge maxD); lia. }
  rewrite document_no_mark, document_nonblank, document_not_compressed by done.
  rewrite document_valid by done. cbn [negb].
  destruct (f =s FormatText) eqn:Et; [by rewrite parse_document|].
  destruct Hff as [Ef|Ef]; rewrite Ef in *; [|done].
  unfold unwrap_fuel. cbn [unwrap]. rewrite Hctx. unfold unwrap_round. cbn [un_data un_layers].
  rewrite document_not_native, document_contains by done. simpl. by rewrite parse_document.
Qed.

Lemma import_base64 format :
  format ∈ [""; FormatAuto; FormatBase64] →
  ParseBounded ctx format (base64_encode false true (document uris)) maxD maxE =
    Some (Ok {| ir_Format := FormatBase64; ir_Base64Layers := 1;
                ir_Candidates := restored_candidates |}).
Proof.
  intros Hf. assert (document uris ≠ "") as Hd.
  { destruct (document_first uris Hne Hl) as (c & r & -> & _). done. }
  unfold ParseBounded. rewrite limits_ok, Hctx. cbv zeta.
  set (f := if format =s "" then FormatAuto else format).
  assert (f = FormatAuto ∨ f = FormatBase64) as Hff.
  { rewrite !elem_of_cons, elem_of_nil in Hf. unfold f.
    destruct Hf as [-> |[-> |[-> |[]]]]; simpl; auto. }
  rewrite bool_decide_true by (destruct Hff as [-> | ->]; set_solver). cbn [negb].
  assert ((EncodedLimit maxD <? Z.of_nat (String.length (base64_encode false true (document uris)))) = false) as ->.
  { apply Z.ltb_ge. rewrite base64_encode_length. destruct (EncodedLimit_ge maxD); [lia|].
    etrans; [|eassumption]. apply Z.mul_le_mono_nonneg_r; [lia|]. apply Z.div_le_mono; lia. }
  rewrite envelope_no_mark, envelope_trim, envelope_nonempty, envelope_not_compressed by done.
  rewrite envelope_valid by done. cbn [negb].
  destruct (f =s FormatText) eqn:Et; [by destruct Hff as [E|E]; rewrite E in Et|].
  unfold unwrap_fuel, MaxBase64Layers. cbn [unwrap]. rewrite Hctx. unfold unwrap_round at 1.
  cbn [un_data un_layers]. rewrite envelope_not_native, envelope_no_uri by done.
  rewrite andb_false_r. simpl Nat.eqb. cbv iota.
  rewrite decodeBase64_whitespace by done. cbv zeta. rewrite document_no_mark by done.
  unfold check_text. rewrite document_not_compressed, document_valid, document_nonblank by done.
  cbn [negb]. rewrite Hctx. unfold unwrap_round. cbn [un_data un_layers un_size].
  rewrite document_not_native, document_contains by done.
  rewrite orb_true_r. cbn [andb]. by rewrite parse_document.
Qed.
End Documents.

(** ** Exported nodes *)

(** The candidate is valid, and its node is the node of the resource up to local
    bookkeeping. *)
Definition restores (r : Resource) (c : Candidate) : Prop :=
  candidate_Valid c = true ∧ cand_Name c = md_Name (r_Metadata r) ∧
  ∃ node back, r_Payload r = Payload_Node node ∧ cand_Node c = Some back ∧ same_connection node back.

Lemma EncodeURI_restores r node uri i line :
  r_Payload r = Payload_Node node → EncodeURI (md_Name (r_Metadata r)) node = Ok uri →
  restores r (set_place i line (ParseURI uri)).
Proof.
  intros Hp (_ & Hc & _)%EncodeURI_ok. apply check_export_ok in Hc as (_ & Hv & Hn & back & Hb & Hs).
  split_and!; [done..|]. by exists node, back.
Qed.

Lemma export_lines_ok i nodes lines :
  export_lines i nodes = Ok lines →
  Forall2 (λ r uri, ∃ node, r_Payload r = Payload_Node node ∧
                      EncodeURI (md_Name (r_Metadata r)) node = Ok uri) nodes lines.
Proof.
  revert i lines. induction nodes as [|r nodes IH]; intros i lines; simpl.
  { by intros [= <-]. }
  destruct (r_Payload r) as [| |node| | | | | | |] eqn:Ep; try done.
  destruct (EncodeURI _ node) as [uri|] eqn:E; [|done].
  intros (lines' & H & [= <-])%let_ok. constructor; [by exists node|by eapply IH].
Qed.

Lemma export_lines_link i nodes lines : export_lines i nodes = Ok lines → Forall link_line lines.
Proof.
  intros H%export_lines_ok. apply Forall_lookup. intros k uri Hk.
  destruct (Forall2_lookup_r _ _ _ _ _ H Hk) as (r & _ & node & _ & HE).
  by eapply EncodeURI_line.
Qed.

Lemma restored_candidates_restore nodes uris :
  Forall2 (λ r uri, ∃ node, r_Payload r = Payload_Node node ∧
                      EncodeURI (md_Name (r_Metadata r)) node = Ok uri) nodes uris →
  Forall2 restores nodes (restored_candidates uris).
Proof.
  unfold restored_candidates. intros H.
  assert (∀ f : nat → Z, Forall2 restores nodes (imap (λ i u, set_place (f i) (f i + 1) (ParseURI u)) uris))
    as Hf; [|apply (Hf Z.of_nat)].
  induction H as [|r uri nodes uris (node & Hp & HE) _ IH]; intros f; [constructor|].
  cbn [imap]. constructor; [by eapply EncodeURI_restores|]. exact (IH (f ∘ S)).
Qed.
End ShareRound.

Lemma CutLast_port host port :
  all_chars is_digit port = true → CutLast ":" (host +:+ ":" +:+ port) = Some (host, port).
Proof.
  intros Hp. assert (CutLast ":" port = None) as Hn.
  { induction port as [|c port IH]; [done|]. cbn [all_chars] in Hp.
    apply andb_true_iff in Hp as [Hc Hp]. cbn [CutLast]. rewrite IH by done.
    destruct (Ascii.eqb_spec c ":") as [->|]; [done|done]. }
  induction host as [|c host IH]; [cbn [CutLast]; change ("" +:+ ":" +:+ port) with (String ":" port);
    cbn [CutLast]; by rewrite Hn|].
  rewrite string_app_cons. cbn [CutLast]. by rewrite IH.
Qed.

Lemma splitHostPort_join host port :
  all_chars is_digit port = true → HasPrefix host "[" = false →
  splitHostPort (host +:+ ":" +:+ port) = (host, port).
Proof. intros Hp Hb. unfold splitHostPort. by rewrite CutLast_port, Hp, Hb. Qed.

Lemma Count_app s t c : Count (s +:+ t) c = (Count s c + Count t c)%nat.
Proof.
  unfold Count. induction s as [|d s IH]; [done|]. rewrite string_app_cons.
  cbn [String.list_ascii_of_string]. rewrite !filter_cons. destruct (decide (d = c)); simpl; by rewrite IH.
Qed.
Lemma Count_free s c : free_of c s = true → Count s c = 0%nat.
Proof.
  unfold free_of, Count. induction s as [|d s IH]; [done|]. cbn [all_chars String.list_ascii_of_string].
  rewrite andb_true_iff, negb_true_iff, Ascii.eqb_neq. intros [Hd Hs].
  rewrite filter_cons_False by done. by apply IH.
Qed.

Lemma digits_free c s : is_digit c = false → all_chars is_digit s = true → free_of c s = true.
Proof.
  intros Hc. apply all_chars_impl. intros d Hd. apply negb_true_iff, Ascii.eqb_neq.
  intros ->. congruence.
Qed.

Lemma safeText_app s t : safeText s = true → safeText t = true → safeText (s +:+ t) = true.
Proof.
  unfold safeText. rewrite !andb_true_iff. intros [H1 H2] [H3 H4].
  by rewrite ValidString_app, all_chars_app, H2, H3, H4.
Qed.
Lemma safeText_graphic s : all_chars graphic s = true → safeText s = true.
Proof.
  intros H. unfold safeText. rewrite ValidString_ascii.
  - eapply all_chars_impl; [|exact H]. intros c. by destruct c as [[] [] [] [] [] [] [] []].
  - eapply all_chars_impl; [|exact H]. intros c. by destruct c as [[] [] [] [] [] [] [] []].
Qed.

Lemma safeText_base64 url padded s : safeText (base64_encode url padded s) = true.
Proof.
  apply safeText_graphic. eapply all_chars_impl; [|apply base64_encode_chars].
  intros c. by destruct c as [[] [] [] [] [] [] [] []].
Qed.
Lemma safeText_path s : safeText (PathEscape s) = true.
Proof.
  apply safeText_graphic. eapply all_chars_impl; [|by apply (url_escape_chars PathSegment)].
  intros c. by destruct c as [[] [] [] [] [] [] [] []].
Qed.
Lemma safeText_number n : safeText (Itoa n) = true.
Proof.
  apply safeText_graphic. eapply all_chars_impl; [|apply Itoa_chars].
  intros c. by destruct c as [[] [] [] [] [] [] [] []].
Qed.

Section Shadowsocks_links.
Context {P : Platform} {T : GoText} {L : ShareLibs}.

Lemma decimalPort_Itoa p : 1 ≤ p ≤ 65535 → decimalPort (Itoa p) = Ok p.
Proof.
  intros Hp. unfold decimalPort. rewrite (proj2 (String.eqb_neq _ _) (Itoa_not_empty p)).
  rewrite Itoa_digits by lia. simpl. rewrite Atoi_Itoa by (unfold MaxInt64; lia).
  assert ((p <? 1) || (65535 <? p) = false) as -> by lia. done.
Qed.

(** A host that a link can carry and that reads back unchanged: a name or an IPv4
    address. *)
Record plain_host (host : string) : Prop := {
  ph_safe : safeText host = true;
  ph_free : ∀ c, c ∈ [":"; "#"; "?"; "@"; "["]%char → free_of c host = true;
  ph_canonical : normalizeHost host = Ok host;
  ph_not6 : match host_ParseAddr host with Some addr => ha_Is6 addr = false | None => True end }.

Lemma hostPort_plain e : plain_host (ep_Host e) → hostPort e = ep_Host e +:+ ":" +:+ Itoa (ep_Port e).
Proof.
  intros [_ _ _ H]. unfold hostPort. destruct (host_ParseAddr _) as [addr|]; [|done]. by rewrite H.
Qed.

Lemma endpoint_plain e u :
  plain_host (ep_Host e) → 1 ≤ ep_Port e ≤ 65535 → su_Host u = hostPort e →
  endpoint u 0 = Ok e.
Proof.
  intros Hh Hp Hu. rewrite hostPort_plain in Hu by done. unfold endpoint, su_Hostname, su_Port.
  assert (all_chars is_digit (Itoa (ep_Port e)) = true) as Hd by (apply Itoa_digits; lia).
  rewrite Hu, splitHostPort_join by (first [done|apply HasPrefix_free, ph_free; [done|set_solver]]).
  rewrite !Count_app, (Count_free (ep_Host e)), (Count_free (Itoa _))
    by (first [apply ph_free; [done|set_solver]|by apply digits_free]).
  simpl andb. cbn [fst snd]. rewrite (ph_canonical _ Hh). simpl.
  rewrite (proj2 (String.eqb_neq _ _) (Itoa_not_empty (ep_Port e))). simpl.
  rewrite decimalPort_Itoa by done. by destruct e.
Qed.

(** [url.Parse] of an authority: the host is the text, and there is nothing else. *)
Definition parses_authority (address : string) : Prop :=
  ∃ u, share_Parse ("ss://" +:+ address) = Some u ∧
    su_Host u = address ∧ su_User u = None ∧ su_Path u = "".

Section Link.
Context (name : string) (e : Endpoint) (method password : string).
Context (Hname : safeText name = true) (Hmethod : method ∈ ss_methods).
Context (Hpassword : password ≠ "" ∧ ValidString password = true).
Context (Hhost : plain_host (ep_Host e)) (Hport : 1 ≤ ep_Port e ≤ 65535).
Context (Hparse : parses_authority (hostPort e)).

Definition ss_sample_node : Node :=
  make_node Shadowsocks e
    (Auth_MethodPassword
       {| mpa_Kind := AuthMethodPassword; mpa_Method := method; mpa_Password := password |})
    (Transport_TCP {| tcp_Kind := NativeTCP |}) (Security_None {| ns_Mode := SecurityNone |})
    no_features.

Abbreviation userinfo := (base64_encode true false (method +:+ ":" +:+ password)).
Abbreviation body := (userinfo +:+ "@" +:+ hostPort e).
Definition ss_link : string := "ss://" +:+ body +:+ encodeFragment name.

Lemma ss_link_encoded : encodeShadowsocks name ss_sample_node = Some ss_link.
Proof. unfold encodeShadowsocks, ss_link. simpl. by rewrite !string_app_assoc. Qed.

Lemma method_facts : method ≠ "" ∧ free_of ":" method = true ∧ ValidString method = true.
Proof.
  unfold ss_methods in Hmethod. rewrite !elem_of_cons, elem_of_nil in Hmethod.
  by destruct Hmethod as [->|[->|[->|[]]]].
Qed.

Lemma credentials_read : ss_credentials userinfo = Ok (method, password).
Proof.
  destruct method_facts as (Hm & Hf & Hv). unfold ss_credentials.
  rewrite Cut_free by by apply base64_free.
  rewrite decodeBase64_encode by by destruct method.
  rewrite ValidString_app, (ValidString_app ":" password), (proj2 Hpassword) by done. simpl.
  change (":" +:+ password) with (String ":" password). by rewrite Cut_app.
Qed.

Lemma hostPort_free c : c ∈ ["#"; "?"; "@"]%char → free_of c (hostPort e) = true.
Proof.
  intros Hc. rewrite hostPort_plain by done. rewrite !free_of_app.
  rewrite ph_free by (done || set_solver). simpl.
  rewrite !elem_of_cons, elem_of_nil in Hc.
  rewrite (digits_free c (Itoa _)); [by destruct Hc as [->|[->|[->|[]]]]| |apply Itoa_digits; lia].
  by destruct Hc as [->|[->|[->|[]]]].
Qed.

Lemma body_free c : c ∈ ["#"; "?"]%char → free_of c body = true.
Proof.
  intros Hc. rewrite !free_of_app, hostPort_free by set_solver.
  rewrite !elem_of_cons, elem_of_nil in Hc.
  by destruct Hc as [->|[->|[]]]; rewrite base64_free.
Qed.

Lemma ss_node_read : ss_node body = Ok ss_sample_node.
Proof.
  destruct method_facts as (Hm & _ & _). destruct Hpassword as [Hp _].
  unfold ss_node. rewrite !Count_app, (Count_free userinfo), (Count_free (hostPort e))
    by (first [by apply base64_free|apply hostPort_free; set_solver]).
  simpl negb. rewrite (cut_or_all_app "@") by by apply base64_free. cbv iota beta.
  destruct Hparse as (u & -> & Hh & -> & ->). rewrite bool_decide_false by (intros H; by apply H).
  assert (su_Host u =s "" = false) as ->.
  { apply String.eqb_neq. rewrite Hh, hostPort_plain by done. by destruct (ep_Host e). }
  simpl. rewrite (endpoint_plain e) by done. rewrite credentials_read.
  rewrite (proj2 (String.eqb_neq _ _) Hm), (proj2 (String.eqb_neq _ _) Hp). simpl.
  by rewrite bool_decide_true by done.
Qed.

(** The text of the link up to its fragment, and the fragment. *)
Lemma fragment_cut :
  ∃ fragment, cut_or_all "#" (body +:+ encodeFragment name) = (body, fragment) ∧
    PathUnescape fragment = Some name.
Proof.
  unfold encodeFragment. destruct (String.eqb_spec name "") as [E|Hne].
  - exists "". rewrite string_app_empty_r. unfold cut_or_all.
    rewrite Cut_free by (apply body_free; set_solver). by rewrite E.
  - exists (PathEscape name). split; [|apply PathUnescape_escape].
    apply cut_or_all_app, body_free. set_solver.
Qed.

Lemma parseSS_link c :
  parseSS (body +:+ encodeFragment name) c = (Ok ss_sample_node, set_name name c).
Proof.
  unfold parseSS. destruct fragment_cut as (fragment & -> & Hf). rewrite Hf.
  unfold mbind, parser_bind, lift, modify. simpl.
  assert (cut_or_all "?" body = (body, "")) as ->.
  { unfold cut_or_all. by rewrite Cut_free by (apply body_free; set_solver). }
  simpl. unfold isolateUnknown, isolate_or_refuse. simpl. by rewrite ss_node_read.
Qed.

Lemma ss_link_safe : safeText ss_link = true.
Proof.
  unfold ss_link. rewrite hostPort_plain by done.
  repeat apply safeText_app; try done;
    [apply safeText_base64|apply ph_safe, Hhost|apply safeText_number|].
  unfold encodeFragment. destruct (name =s ""); [done|].
  apply safeText_app; [done|apply safeText_path].
Qed.

Context (Hvalid : Node_Validate ss_sample_node = None).
Context (Hsize : Z.of_nat (String.length ss_link) ≤ MaxURIBytes).

Lemma ss_link_parsed :
  ParseURI ss_link = set_outcome StatusValid (Some ss_sample_node)
    (set_name name (set_dialect "ss-sip002" new_candidate)).
Proof.
  unfold ParseURI. assert ((MaxURIBytes <? Z.of_nat (String.length ss_link)) = false) as -> by lia.
  rewrite ss_link_safe. pose proof ss_link_safe as Hs. unfold safeText in Hs.
  apply andb_true_iff in Hs as [-> _]. cbn [negb].
  assert (uriScheme ss_link = Some ("ss", body +:+ encodeFragment name)) as ->.
  { unfold uriScheme, ss_link. change ("ss://" +:+ ?x) with ("ss" +:+ String ":" "//" +:+ x).
    rewrite CutString_app by done. simpl. by rewrite ToLower_ascii by by apply all_chars_is_ascii. }
  simpl. rewrite parseSS_link. unfold finish_candidate, check_candidate, check_name, check_external_key.
  simpl. rewrite Hname, andb_false_r. rewrite lookup_empty.
  unfold supportedCombination. simpl. by rewrite Hvalid.
Qed.

(** The node is exported, and the link is read back as the node and its name. *)
Lemma ss_link_exported : EncodeURI name ss_sample_node = Ok ss_link.
Proof.
  unfold EncodeURI. rewrite Hvalid, bool_decide_false by (intros H; by apply H).
  rewrite Hname. cbn [negb].
  assert (encode_link name ss_sample_node = Some (Some ss_link)) as ->.
  { unfold encode_link. by rewrite ss_link_encoded. }
  rewrite !bool_decide_false by (intros H; by apply H).
  change (verification_disabled (n_Security ss_sample_node)) with false. cbv iota.
  unfold check_export. rewrite ss_link_parsed. cbv zeta. simpl.
  rewrite String.eqb_refl. simpl.
  by rewrite (proj2 (first_difference_None ss_sample_node ss_sample_node)) by done.
Qed.
End Link.
End Shadowsocks_links.
