(* ===== verification/RunnerProtocol.v ===== *)
(** The values that the API and a runner exchange ([internal/runnerprotocol]): frozen
    payloads and their validation, results and their digests, safe errors, decimal
    sequence numbers. *)
From S2P Require Import Prelude Diagnostics IRTypes Hashes Json IRValidate Network Base64.

(** ** Sequence numbers *)

(** [Sequence.MarshalJSON]: a decimal string. *)
Definition Sequence_MarshalJSON (n : Z) : option string :=
  if n <? 0 then None else Some (Marshal (Str (Itoa n))).

(** [Sequence.UnmarshalJSON], from the decoded string on. *)
Definition Sequence_Parse (value : string) : option Z :=
  match Atoi value with
  | Some parsed => if (parsed <? 0) || negb (Itoa parsed =s value) then None else Some parsed
  | None => None
  end.

(** ** Safe errors *)

Record SafeError := { se_Code : string; se_Message : string }.
#[export] Instance SafeError_eq_dec : EqDecision SafeError.
Proof. solve_decision. Defined.

Definition safeMessages : list (string * string) :=
  [("BUDGET_EXCEEDED", "The test budget is exhausted.");
   ("PROXY_CONNECT_FAILED", "The proxy connection could not be established.");
   ("AUTH_FAILED", "Proxy authentication failed.");
   ("TARGET_TLS_FAILED", "The target TLS handshake failed.");
   ("HTTP_EXPECTATION_FAILED", "The target response did not match its registered expectation.");
   ("TEST_TARGET_UNAVAILABLE", "The controlled target is unavailable; the node cannot be assessed.");
   ("INSUFFICIENT_SAMPLE", "The sample is too small to report throughput.");
   ("CORE_CONFIG_INVALID", "The generated configuration was rejected by the core.");
   ("CORE_BINARY_MISMATCH", "The registered core binary did not match its build.");
   ("RUNNER_RESOURCE_LIMIT", "The runner could not reserve execution resources.");
   ("PORT_BUSY", "The reserved local port was unavailable.");
   ("CANCELED", "Cancellation was requested.");
   ("JOB_TIMEOUT", "The job exceeded its time limit.");
   ("LEASE_LOST", "The job lease is no longer valid.");
   ("INVALID_CONFIG", "The input configuration is invalid.");
   ("CAPABILITY_UNSUPPORTED", "The requested capability is unsupported.");
   ("VALIDATION_FAILED", "The merged resource is not valid.");
   ("SERVICE_UNAVAILABLE", "The operation is temporarily unavailable.");
   ("INTERNAL_ERROR", "The operation could not be completed.")].

Definition safe_message (code : string) : option string :=
  snd <$> head (filter (λ m, m.1 = code) safeMessages).

(** [Safe]: the fixed explanation of a known code; the details are always empty. *)
Definition Safe (code : string) : SafeError :=
  match safe_message code with
  | Some message => {| se_Code := code; se_Message := message |}
  | None => {| se_Code := "INTERNAL_ERROR"; se_Message := "The operation could not be completed." |}
  end.

Definition KnownError (code : string) : bool := bool_decide (safe_message code ≠ None).

Definition safe_error_json (e : SafeError) : Json :=
  Obj [("code", Str (se_Code e)); ("message", Str (se_Message e)); ("details", Arr [])].

(** ** Digests *)

Definition Digest (data : string) : string := sha256Hex data.

Definition ValidDigest (value : string) : bool :=
  match DecodeString value with
  | Some data => (length data =? 32)%nat && (EncodeToString data =s value)
  | None => false
  end.

(** ** Numbers with a fraction *)

(** The [float64] arithmetic the source uses, and the text of a number; [encoding/json]
    has none for a NaN or an infinity. *)
Class Float64 := {
  float64 : Type;
  IsNaN : float64 → bool;
  IsInf : float64 → bool;
  float_lt : float64 → float64 → bool;
  float_of_int : Z → float64;
  float_ratio : Z → Z → float64;
  float_mul : float64 → float64 → float64;
  float_div : float64 → float64 → float64;
  float_sub : float64 → float64 → float64;
  float_abs : float64 → float64;
  float_max : float64 → float64 → float64;
  float_text : float64 → option string }.

(** The parts of [net/netip] that the wire values use beyond [Network]: whether an
    address has a zone. *)
Class Zones := { has_zone : string → bool }.

(** ** Wire values *)

Record CoreIdentity := {
  co_CoreBuildID : ID; co_CoreFamily : string; co_Version : string; co_BuildSHA256 : string;
  co_Platform : string; co_Architecture : string; co_AdapterVersion : string }.
Record WireArtifact := {
  wa_ArtifactID : ID; wa_Format : string; wa_SHA256 : string; wa_ByteLength : Z;
  wa_ContentBase64 : string }.
Record Limits := { li_DurationMS : Z; li_MaxBytes : Z }.
Record ExecutionPolicy := {
  xp_Network : string; xp_AllowEnvironmentProxy : bool; xp_AllowCoreDownloads : bool;
  xp_AllowShell : bool; xp_TerminationGraceMS : Z; xp_MemoryLimitBytes : Z; xp_ProcessLimit : Z }.
Record FrozenSubject := {
  sb_Kind : ResourceKind; sb_ID : ID; sb_Revision : Z; sb_SecurityEpoch : Z }.
Record HTTPExpectation := {
  he_StatusCodes : list Z; he_BodySHA256 : string; he_MaxResponseBytes : Z;
  he_EgressIPResponse : bool }.
Record FrozenTestTarget := {
  tt_TestTargetID : ID; tt_Revision : Z; tt_URL : string; tt_ValidatedIPs : list string;
  tt_ExpectedResponse : HTTPExpectation; tt_RedirectPolicy : string; tt_VerifyCertificate : bool;
  tt_Compression : string }.
Record ApprovedEndpoint := { ae_IP : string; ae_Port : Z; ae_PrivateAuthorized : bool }.
Record FrozenPayload := {
  fp_SchemaVersion : Z; fp_Type : string; fp_Core : CoreIdentity; fp_Artifact : WireArtifact;
  fp_Subject : option FrozenSubject; fp_Limits : Limits; fp_ExecutionPolicy : ExecutionPolicy;
  fp_QuotaReservationID : ID; fp_TestTarget : option FrozenTestTarget;
  fp_ApprovedEndpoints : list ApprovedEndpoint; fp_Dependencies : list FrozenSubject;
  fp_MinimumSampleBytes : Z }.
Record NetworkObservation := {
  no_Location : string; no_ExecutionSHA256 : string; no_TruncatedBy : string;
  no_CPUThrottled : option bool }.

#[export] Instance FrozenSubject_eq_dec : EqDecision FrozenSubject.
Proof. solve_decision. Defined.

Section Values.
Context {P : Platform} {N : Network} {F : Float64} {W : Zones}.

Record Metrics := {
  me_ConfigCheckMS : option float64; me_CoreStartMS : option float64;
  me_ProxyDialMS : option float64; me_TargetTLSMS : option float64;
  me_HTTPTTFBMS : option float64; me_HTTPTotalMS : option float64; me_BodyBytes : option Z;
  me_BodyDurationMS : option float64; me_ThroughputMbps : option float64;
  me_EgressIP : option string; me_SampleCount : option Z; me_FailureCount : option Z }.

Record ResultRequest := {
  rq_JobID : ID; rq_Attempt : Z; rq_LeaseSeq : Z; rq_ResultHash : string; rq_State : string;
  rq_Verdict : string; rq_Metrics : Metrics; rq_Error : option SafeError;
  rq_Observation : option NetworkObservation }.

(** ** Validation

    Each validator answers whether it returns [ErrInvalid]. *)

Definition between (lo n hi : Z) : bool := (lo <=? n) && (n <=? hi).
Definition ContainsByte (s : string) (c : ascii) : bool := Contains s (String c "").

(** [strings.ContainsAny(s, "\r\n\x00")]. *)
Definition has_control (s : string) : bool :=
  ContainsByte s "013" || ContainsByte s "010" || ContainsByte s "000".

Definition Observation_ok (o : option NetworkObservation) : bool :=
  match o with
  | None => true
  | Some o =>
      between 1 (Z.of_nat (String.length (no_Location o))) 128 &&
      negb (has_control (no_Location o)) && ValidDigest (no_ExecutionSHA256 o) &&
      ((no_TruncatedBy o =s "none") || (no_TruncatedBy o =s "duration") || (no_TruncatedBy o =s "bytes"))
  end.

(** [netip.ParseAddrPort("127.0.0.1:" + port)] on the port of a parsed URL: digits, and
    at most 65535. *)
Definition valid_port (port : string) : bool :=
  match digits_value 0 port with Some n => n <=? 65535 | None => false end.

Definition TestURL_ok (raw : string) : bool :=
  match url_Parse raw with
  | None => false
  | Some u =>
      (Z.of_nat (String.length raw) <=? 4096) &&
      ((u_Scheme u =s "http") || (u_Scheme u =s "https")) && negb (u_Hostname u =s "") &&
      negb (u_HasUser u) && (u_Fragment u =s "") && negb (has_control raw) &&
      ((u_Port u =s "") || valid_port (u_Port u))
  end.

Definition HTTPExpectation_ok (e : HTTPExpectation) : bool :=
  between 1 (Z.of_nat (length (he_StatusCodes e))) 10 &&
  between 1 (he_MaxResponseBytes e) (2 ^ 30) &&
  ((he_BodySHA256 e =s "") || ValidDigest (he_BodySHA256 e)) &&
  forallb (λ code, between 100 code 599) (he_StatusCodes e) &&
  bool_decide (NoDup (he_StatusCodes e)).

(** The format of each core family. *)
Definition family_format (family : string) : option string :=
  if family =s Xray then Some XrayJSON
  else if family =s SingBox then Some SingBoxJSON
  else if family =s Mihomo then Some MihomoYAML
  else None.

Definition ConfigPayload_ok (p : FrozenPayload) : bool :=
  let core := fp_Core p in
  let policy := fp_ExecutionPolicy p in
  let a := fp_Artifact p in
  negb (bool_decide (is_Some (fp_TestTarget p))) && (length (fp_ApprovedEndpoints p) =? 0)%nat &&
  (length (fp_Dependencies p) =? 0)%nat && (fp_MinimumSampleBytes p =? 0) &&
  ((fp_SchemaVersion p =? 1) && (fp_Type p =s "config_validate") && valid_id (co_CoreBuildID core) &&
   ValidDigest (co_BuildSHA256 core) &&
   ((fp_QuotaReservationID p =s "") || valid_id (fp_QuotaReservationID p)) &&
   negb (co_Version core =s "") && negb (co_AdapterVersion core =s "") &&
   (co_Platform core =s "linux") &&
   ((co_Architecture core =s "amd64") || (co_Architecture core =s "arm64")) &&
   between 1 (li_DurationMS (fp_Limits p)) 300000 && (li_MaxBytes (fp_Limits p) =? 0) &&
   (xp_Network policy =s "none") && negb (xp_AllowEnvironmentProxy policy) &&
   negb (xp_AllowCoreDownloads policy) && negb (xp_AllowShell policy) &&
   between 100 (xp_TerminationGraceMS policy) 10000 &&
   between 1048576 (xp_MemoryLimitBytes policy) 2147483647 &&
   between 1 (xp_ProcessLimit policy) 32) &&
  (bool_decide (family_format (co_CoreFamily core) = Some (wa_Format a)) &&
   valid_id (wa_ArtifactID a) && between 1 (wa_ByteLength a) (10 * 2 ^ 20) &&
   (Z.of_nat (String.length (wa_ContentBase64 a)) <=? 13981016) && ValidDigest (wa_SHA256 a)) &&
  match base64_decode false true (wa_ContentBase64 a) with
  | Some plain => (Z.of_nat (String.length plain) =? wa_ByteLength a) && (Digest plain =s wa_SHA256 a)
  | None => false
  end &&
  match fp_Subject p with
  | Some s =>
      valid_id (sb_ID s) && ((sb_Kind s =s KindNode) || (sb_Kind s =s KindChain)) &&
      (1 <=? sb_Revision s) && (1 <=? sb_SecurityEpoch s)
  | None => true
  end.

(** The task that [ValidatePayload] checks as a configuration check: the network parts of
    the payload taken away. *)
Definition offline_payload (p : FrozenPayload) : FrozenPayload :=
  let policy := fp_ExecutionPolicy p in
  {| fp_SchemaVersion := fp_SchemaVersion p; fp_Type := "config_validate"; fp_Core := fp_Core p;
     fp_Artifact := fp_Artifact p; fp_Subject := fp_Subject p;
     fp_Limits := {| li_DurationMS := li_DurationMS (fp_Limits p); li_MaxBytes := 0 |};
     fp_ExecutionPolicy :=
       {| xp_Network := "none"; xp_AllowEnvironmentProxy := xp_AllowEnvironmentProxy policy;
          xp_AllowCoreDownloads := xp_AllowCoreDownloads policy; xp_AllowShell := xp_AllowShell policy;
          xp_TerminationGraceMS := xp_TerminationGraceMS policy;
          xp_MemoryLimitBytes := xp_MemoryLimitBytes policy;
          xp_ProcessLimit := Z.min (xp_ProcessLimit policy) 32 |};
     fp_QuotaReservationID := fp_QuotaReservationID p; fp_TestTarget := None;
     fp_ApprovedEndpoints := []; fp_Dependencies := []; fp_MinimumSampleBytes := 0 |}.

Definition zoneless_ip (v : string) : bool :=
  bool_decide (is_Some (ParseAddr v)) && negb (has_zone v).

Definition TestTarget_ok (t : FrozenTestTarget) : bool :=
  valid_id (tt_TestTargetID t) && (1 <=? tt_Revision t) && TestURL_ok (tt_URL t) &&
  HTTPExpectation_ok (tt_ExpectedResponse t) && (tt_RedirectPolicy t =s "deny") &&
  tt_VerifyCertificate t && (tt_Compression t =s "disabled") &&
  between 1 (Z.of_nat (length (tt_ValidatedIPs t))) 16 && forallb zoneless_ip (tt_ValidatedIPs t).

Definition endpoint_ok (v : ApprovedEndpoint) : bool :=
  zoneless_ip (ae_IP v) && between 1 (ae_Port v) 65535.

Definition dependency_ok (s : FrozenSubject) : bool :=
  valid_id (sb_ID s) && (1 <=? sb_Revision s) && (1 <=? sb_SecurityEpoch s) &&
  ((sb_Kind s =s KindNode) || (sb_Kind s =s KindChain)).

(** The subject is among the dependencies, a node comes alone and a chain with its two
    nodes. *)
Definition subject_ok (p : FrozenPayload) (subject : FrozenSubject) : bool :=
  let deps := fp_Dependencies p in
  bool_decide (NoDup (sb_ID <$> deps)) && bool_decide (sb_ID subject ∈ sb_ID <$> deps) &&
  negb ((sb_Kind subject =s KindNode) &&
        negb ((length deps =? 1)%nat && (length (fp_ApprovedEndpoints p) =? 1)%nat)) &&
  negb ((sb_Kind subject =s KindChain) &&
        negb ((length deps =? 3)%nat && (length (fp_ApprovedEndpoints p) =? 2)%nat)) &&
  forallb (λ d, if sb_ID d =s sb_ID subject then bool_decide (d = subject) else sb_Kind d =s KindNode)
    deps.

Definition NetworkPayload_ok (p : FrozenPayload) : bool :=
  match fp_Subject p, fp_TestTarget p with
  | Some subject, Some target =>
      valid_id (fp_QuotaReservationID p) &&
      (xp_Network (fp_ExecutionPolicy p) =s "controlled_target_only") &&
      between 1 (xp_ProcessLimit (fp_ExecutionPolicy p)) 128 &&
      between 1 (li_MaxBytes (fp_Limits p)) (2 ^ 30) && (li_DurationMS (fp_Limits p) <=? 60000) &&
      between 1 (fp_MinimumSampleBytes p) (2 ^ 30) &&
      between 1 (Z.of_nat (length (fp_ApprovedEndpoints p))) 2 &&
      between 1 (Z.of_nat (length (fp_Dependencies p))) 3 &&
      ConfigPayload_ok (offline_payload p) && TestTarget_ok target &&
      forallb endpoint_ok (fp_ApprovedEndpoints p) && forallb dependency_ok (fp_Dependencies p) &&
      subject_ok p subject
  | _, _ => false
  end.

(** [ValidatePayload]. *)
Definition Payload_ok (p : FrozenPayload) : bool :=
  if fp_Type p =s "config_validate" then ConfigPayload_ok p
  else if negb (fp_Type p =s "connectivity") && negb (fp_Type p =s "download_throughput") then false
  else NetworkPayload_ok p.

(** ** Metrics *)

Definition duration_ok (v : option float64) : bool :=
  match v with
  | None => true
  | Some v =>
      negb (IsNaN v) && negb (IsInf v) && negb (float_lt v (float_of_int 0)) &&
      negb (float_lt (float_of_int 300000) v)
  end.
Definition count_ok (v : option Z) (hi : Z) : bool :=
  match v with Some v => between 0 v hi | None => true end.

Definition throughput_ok (m : Metrics) : bool :=
  match me_ThroughputMbps m with
  | None => true
  | Some v =>
      negb (IsNaN v) && negb (IsInf v) && negb (float_lt v (float_of_int 0)) &&
      match me_BodyBytes m, me_BodyDurationMS m with
      | Some bytes, Some ms =>
          let expected := float_div (float_mul (float_of_int bytes) (float_of_int 8))
                            (float_mul ms (float_of_int 1000)) in
          negb (float_lt ms (float_of_int 1000)) &&
          negb (float_lt (float_max (float_ratio 1 1000000)
                            (float_mul expected (float_ratio 1 1000000)))
                  (float_abs (float_sub v expected)))
      | _, _ => false
      end
  end.

(** [ValidateMetrics]. *)
Definition Metrics_ok (m : Metrics) : bool :=
  forallb duration_ok [me_ConfigCheckMS m; me_CoreStartMS m; me_ProxyDialMS m; me_TargetTLSMS m;
                       me_HTTPTTFBMS m; me_HTTPTotalMS m; me_BodyDurationMS m] &&
  count_ok (me_BodyBytes m) (2 ^ 30) && count_ok (me_SampleCount m) 3 &&
  count_ok (me_FailureCount m) 3 && throughput_ok m &&
  match me_FailureCount m with
  | None => true
  | Some failures => match me_SampleCount m with Some n => failures <=? n | None => false end
  end &&
  match me_EgressIP m with Some ip => bool_decide (is_Some (ParseAddr ip)) | None => true end.

(** [ValidateConfigMetrics]: nothing but the duration of the check. *)
Definition ConfigMetrics_ok (m : Metrics) : bool :=
  let absent {A} (v : option A) := negb (bool_decide (is_Some v)) in
  absent (me_CoreStartMS m) && absent (me_ProxyDialMS m) && absent (me_TargetTLSMS m) &&
  absent (me_HTTPTTFBMS m) && absent (me_HTTPTotalMS m) && absent (me_BodyBytes m) &&
  absent (me_BodyDurationMS m) && absent (me_ThroughputMbps m) && absent (me_EgressIP m) &&
  absent (me_SampleCount m) && absent (me_FailureCount m) && duration_ok (me_ConfigCheckMS m).

(** ** Texts and digests *)

Definition subject_json (s : FrozenSubject) : Json :=
  Obj [("kind", Str (sb_Kind s)); ("id", Str (sb_ID s)); ("revision", Str (Itoa (sb_Revision s)));
       ("security_epoch", Str (Itoa (sb_SecurityEpoch s)))].
Definition limits_json (l : Limits) : Json :=
  Obj [("duration_ms", Int (li_DurationMS l)); ("max_bytes", Int (li_MaxBytes l))].
Definition core_json (c : CoreIdentity) : Json :=
  Obj [("core_build_id", Str (co_CoreBuildID c)); ("core_family", Str (co_CoreFamily c));
       ("version", Str (co_Version c)); ("build_sha256", Str (co_BuildSHA256 c));
       ("platform", Str (co_Platform c)); ("architecture", Str (co_Architecture c));
       ("adapter_version", Str (co_AdapterVersion c))].
Definition artifact_json (a : WireArtifact) : Json :=
  Obj [("artifact_id", Str (wa_ArtifactID a)); ("format", Str (wa_Format a));
       ("sha256", Str (wa_SHA256 a)); ("byte_length", Int (wa_ByteLength a));
       ("content_base64", Str (wa_ContentBase64 a))].
Definition policy_json (p : ExecutionPolicy) : Json :=
  Obj [("network", Str (xp_Network p)); ("allow_environment_proxy", Bool (xp_AllowEnvironmentProxy p));
       ("allow_core_downloads", Bool (xp_AllowCoreDownloads p)); ("allow_shell", Bool (xp_AllowShell p));
       ("termination_grace_ms", Int (xp_TerminationGraceMS p));
       ("memory_limit_bytes", Int (xp_MemoryLimitBytes p)); ("process_limit", Int (xp_ProcessLimit p))].
Definition expectation_json (e : HTTPExpectation) : Json :=
  Obj ([("status_codes", Arr (Int <$> he_StatusCodes e))] ++ omit_string "body_sha256" (he_BodySHA256 e) ++
       [("max_response_bytes", Int (he_MaxResponseBytes e));
        ("egress_ip_response", Bool (he_EgressIPResponse e))]).
Definition target_json (t : FrozenTestTarget) : Json :=
  Obj [("test_target_id", Str (tt_TestTargetID t)); ("revision", Str (Itoa (tt_Revision t)));
       ("url", Str (tt_URL t)); ("validated_ips", strings (tt_ValidatedIPs t));
       ("expected_response", expectation_json (tt_ExpectedResponse t));
       ("redirect_policy", Str (tt_RedirectPolicy t));
       ("verify_certificate", Bool (tt_VerifyCertificate t)); ("compression", Str (tt_Compression t))].
Definition endpoint_json (e : ApprovedEndpoint) : Json :=
  Obj ([("ip", Str (ae_IP e)); ("port", Int (ae_Port e))] ++
       if ae_PrivateAuthorized e then [("private_authorized", Bool true)] else []).
Definition omit_list {A} (key : string) (f : A → Json) (l : list A) : list (string * Json) :=
  match l with [] => [] | _ => [(key, Arr (f <$> l))] end.

Definition payload_json (p : FrozenPayload) : Json :=
  Obj ([("schema_version", Int (fp_SchemaVersion p)); ("type", Str (fp_Type p));
        ("core", core_json (fp_Core p)); ("artifact", artifact_json (fp_Artifact p))] ++
       omit_none "subject" subject_json (fp_Subject p) ++
       [("limits", limits_json (fp_Limits p)); ("execution_policy", policy_json (fp_ExecutionPolicy p))] ++
       omit_string "quota_reservation_id" (fp_QuotaReservationID p) ++
       omit_none "test_target" target_json (fp_TestTarget p) ++
       omit_list "approved_endpoints" endpoint_json (fp_ApprovedEndpoints p) ++
       omit_list "dependencies" subject_json (fp_Dependencies p) ++
       omit_int "minimum_sample_bytes" (fp_MinimumSampleBytes p)).

(** The sequence numbers of a payload: [json.Marshal] fails on a negative one. *)
Definition payload_sequences (p : FrozenPayload) : list Z :=
  let subject s := [sb_Revision s; sb_SecurityEpoch s] in
  match fp_Subject p with Some s => subject s | None => [] end ++
  match fp_TestTarget p with Some t => [tt_Revision t] | None => [] end ++
  mjoin (subject <$> fp_Dependencies p).

(** [PayloadHash]; [None] is [ErrInvalid]. *)
Definition PayloadHash (p : FrozenPayload) : option string :=
  if forallb (Z.leb 0) (payload_sequences p) then Some (Digest (Marshal (payload_json p))) else None.

(** A number that [encoding/json] cannot write makes the whole document fail. *)
Definition omit_float (key : string) (v : option float64) : option (list (string * Json)) :=
  match v with
  | None => Some []
  | Some v => (λ text, [(key, Num text)]) <$> float_text v
  end.

Definition metrics_json (m : Metrics) : option Json :=
  check ← omit_float "config_check_ms" (me_ConfigCheckMS m);
  start ← omit_float "core_start_ms" (me_CoreStartMS m);
  dial ← omit_float "proxy_dial_ms" (me_ProxyDialMS m);
  tls ← omit_float "target_tls_ms" (me_TargetTLSMS m);
  ttfb ← omit_float "http_ttfb_ms" (me_HTTPTTFBMS m);
  total ← omit_float "http_total_ms" (me_HTTPTotalMS m);
  duration ← omit_float "body_duration_ms" (me_BodyDurationMS m);
  mbps ← omit_float "throughput_mbps" (me_ThroughputMbps m);
  Some (Obj (check ++ start ++ dial ++ tls ++ ttfb ++ total ++
             omit_none "body_bytes" Int (me_BodyBytes m) ++ duration ++ mbps ++
             omit_none "egress_ip" Str (me_EgressIP m) ++
             omit_none "sample_count" Int (me_SampleCount m) ++
             omit_none "failure_count" Int (me_FailureCount m))).

Definition observation_json (o : NetworkObservation) : Json :=
  Obj ([("location", Str (no_Location o)); ("execution_sha256", Str (no_ExecutionSHA256 o));
        ("truncated_by", Str (no_TruncatedBy o))] ++ omit_none "cpu_throttled" Bool (no_CPUThrottled o)).

(** [ResultHash]: the digest of the outcome without its transport identity; [None] is
    [ErrInvalid]. *)
Definition ResultHash (r : ResultRequest) : option string :=
  let hash safe :=
    metrics ← metrics_json (rq_Metrics r);
    Some (Digest (Marshal (Obj (
      [("state", Str (rq_State r))] ++ omit_string "verdict" (rq_Verdict r) ++ [("metrics", metrics)] ++
      omit_none "error" safe_error_json safe ++
      omit_none "observation" observation_json (rq_Observation r))))) in
  match rq_Error r with
  | Some e => if KnownError (se_Code e) then hash (Some (Safe (se_Code e))) else None
  | None => hash None
  end.
End Values.

(** ** Facts *)

(** A sequence number is read back from its text, and only from that text. *)
Lemma Sequence_Parse_exact value n :
  Sequence_Parse value = Some n ↔ 0 ≤ n ≤ MaxInt64 ∧ value = Itoa n.
Proof.
  unfold Sequence_Parse. split.
  - destruct (Atoi value) as [k|] eqn:E; [|done].
    destruct (k <? 0) eqn:Hk; simpl; [done|]. destruct (String.eqb_spec (Itoa k) value) as [<-|]; [|done].
    simpl. intros [= <-]. split; [|done]. split; [lia|]. by apply Atoi_range_le in E.
  - intros [Hn ->]. rewrite Atoi_Itoa by done. rewrite String.eqb_refl.
    by replace (n <? 0) with false by lia.
Qed.
