(* ===== verification/Sources.v ===== *)
(** Remote sources ([source/source.go], [storage/source_persist.go], [storage/sources.go],
    [storage/source_reads.go]): their documents, which are revisions of resources of their
    own kind, and the transactions that create, change and delete them with their refresh
    schedule and their pending previews. The clock counts microseconds. *)
From S2P Require Import Prelude Diagnostics IRTypes IRValidate Catalog CatalogRefs Secretbox.
From S2P Require Import URLText RunnerProtocol ApiError StoreDB Store.

(** ** Documents *)

Definition SourceSchemaVersion : Z := 1.
Definition AuthNone := "none".
Definition AuthBearer := "bearer".
Definition AuthBasic := "basic".
Definition Manual := "manual".
Definition SafeUpdates := "safe_updates".
Definition Retain := "retain".
Definition DisableMissing := "disable".
Definition FormatAuto := "auto".
Definition FormatURI := "uri_list".
Definition FormatB64 := "base64_uri_list".

Record Auth := { au_Kind : string; au_Token : string; au_Username : string; au_Password : string }.
Record RefreshPolicy := {
  rp_Enabled : bool; rp_IntervalSeconds : Z; rp_CommitMode : string; rp_MissingPolicy : string }.
Record FetchLimits := {
  fl_TimeoutMS : Z; fl_MaxCompressedBytes : Z; fl_MaxDecodedBytes : Z; fl_MaxRedirects : Z }.
Record Config := {
  cfg_SchemaVersion : Z; cfg_URL : string; cfg_Format : string; cfg_Auth : Auth;
  cfg_RefreshPolicy : RefreshPolicy; cfg_FetchLimits : FetchLimits; cfg_BindingRevision : Z;
  cfg_LastSuccessAt : option Z; cfg_LastJobID : ID; cfg_LatestPreviewBatchID : ID;
  cfg_LastError : option SafeError }.
Record Document := { doc_Metadata : Metadata; doc_Source : Config }.

#[export] Instance Auth_eq_dec : EqDecision Auth.
Proof. solve_decision. Defined.

(** [net/url], the JSON codec of a document, and [len] of raw bytes. *)
Record SourceURL := { su_Opaque : string; su_Fragment : string; su_Host : string; su_Scheme : string }.
Class SourceLibs `{C : Codec} := {
  source_Parse : string → option SourceURL;
  marshalSource : Document → option Bytes;
  unmarshalSource : Bytes → option Document;
  byte_count : Bytes → Z }.

Section Documents.
Context {P : Platform} {C : Codec} {T : GoText} {L : SourceLibs}.

Definition ParseURL (raw : string) : option SourceURL :=
  if (TrimSpace raw =s "") || (4096 <? Z.of_nat (String.length raw)) then None
  else
    match source_Parse raw with
    | None => None
    | Some parsed =>
        if negb (su_Opaque parsed =s "") || negb (su_Fragment parsed =s "") || (su_Host parsed =s "") then None
        else if negb (su_Scheme parsed =s "https") && negb (su_Scheme parsed =s "http") then None
        else Some parsed
    end.

Definition auth_valid (a : Auth) : bool :=
  let token := negb (au_Token a =s "") in
  let username := negb (au_Username a =s "") in
  let password := negb (au_Password a =s "") in
  if au_Kind a =s AuthNone then negb (token || username || password)
  else if au_Kind a =s AuthBearer then negb (negb token || username || password)
  else if au_Kind a =s AuthBasic then negb (negb username || negb password || token)
  else false.

Definition between (lo hi n : Z) : bool := (lo <=? n) && (n <=? hi).

(** [Config.Validate], as whether it finds no error. *)
Definition Config_Validate (c : Config) : bool :=
  let policy := cfg_RefreshPolicy c in
  let limits := cfg_FetchLimits c in
  (cfg_SchemaVersion c =? SourceSchemaVersion)
  && bool_decide (is_Some (ParseURL (cfg_URL c)))
  && one_of [FormatAuto; FormatURI; FormatB64] (cfg_Format c)
  && auth_valid (cfg_Auth c)
  && between 60 2592000 (rp_IntervalSeconds policy)
  && one_of [Manual; SafeUpdates] (rp_CommitMode policy)
  && one_of [Retain; DisableMissing] (rp_MissingPolicy policy)
  && between 1000 60000 (fl_TimeoutMS limits)
  && between 1 10485760 (fl_MaxCompressedBytes limits)
  && between 1 10485760 (fl_MaxDecodedBytes limits)
  && between 0 5 (fl_MaxRedirects limits)
  && (1 <=? cfg_BindingRevision c).

Definition with_tags_of (m : Metadata) (tags : list string) : Metadata :=
  {| md_ResourceID := md_ResourceID m; md_ScopeID := md_ScopeID m; md_Kind := md_Kind m;
     md_Revision := md_Revision m; md_SchemaVersion := md_SchemaVersion m; md_Name := md_Name m;
     md_Tags := tags; md_Enabled := md_Enabled m; md_SecurityEpoch := md_SecurityEpoch m |}.
Definition sorted_document (d : Document) : Document :=
  {| doc_Metadata := with_tags_of (doc_Metadata d) (sort_strings (md_Tags (doc_Metadata d)));
     doc_Source := doc_Source d |}.

Definition Document_valid (d : Document) : bool :=
  (md_Kind (doc_Metadata d) =s KindSource) && bool_decide (Metadata_Validate (doc_Metadata d) = None)
  && Config_Validate (doc_Source d).
Definition source_Canonical (d : Document) : option Bytes :=
  let d := sorted_document d in
  if Document_valid d then marshalSource d else None.

Definition ParserFormat (format : string) : string :=
  if format =s FormatURI then "text" else if format =s FormatB64 then "base64" else "auto".

(** [nextSource]. *)
Definition nextSource (old : Document) (name : string) (tags : list string) (enabled : bool) (cfg : Config)
    (deleted : bool) : result catalog_error Document :=
  let m := doc_Metadata old in
  if (md_Revision m =? MaxInt64) || (md_SecurityEpoch m =? MaxInt64) then Err ErrInvalidInput
  else
    let enabled := if deleted then false else enabled in
    let epoch :=
      if (md_Enabled m && negb enabled) || negb (cfg_URL (doc_Source old) =s cfg_URL cfg)
         || negb (bool_decide (cfg_Auth (doc_Source old) = cfg_Auth cfg))
      then md_SecurityEpoch m + 1 else md_SecurityEpoch m in
    let next := {| doc_Metadata := {| md_ResourceID := md_ResourceID m; md_ScopeID := md_ScopeID m;
                     md_Kind := md_Kind m; md_Revision := md_Revision m + 1;
                     md_SchemaVersion := md_SchemaVersion m; md_Name := name; md_Tags := tags;
                     md_Enabled := enabled; md_SecurityEpoch := epoch |};
                   doc_Source := cfg |} in
    match source_Canonical next with
    | Some _ => Ok next
    | None => Err ErrInvalidInput
    end.

(** [nextBackoff]. *)
Definition nextBackoff (current interval : Z) : Z :=
  let next := current * 2 in
  let next := if next <? 60 then 60 else next in
  let next := if interval <? next then interval else next in
  if 2592000 <? next then 2592000 else next.
End Documents.

(** ** Tables beside the catalog *)

Section Tables.
Context {C : Codec} {V : Vault Bytes}.

Record ScheduleRow := {
  sc_ScopeID : ID; sc_NextRunAt : Z; sc_BackoffSeconds : Z; sc_LastJobID : option ID }.
(** An import batch, as far as the previews of a source go. *)
Record PreviewRow := { pv_ScopeID : ID; pv_SourceID : option ID; pv_State : string; pv_Revision : Z }.
Record SnapshotRow := {
  sn_ScopeID : ID; sn_SourceID : ID; sn_SourceRevision : Z; sn_Envelope : Sealed; sn_Wrapping : Wrapped;
  sn_ContentHmac : string; sn_HTTPStatus : option Z; sn_ContentType : option string;
  sn_DecodedBytes : Z; sn_State : string }.
Record SourceTables := {
  st_schedules : gmap ID ScheduleRow; st_previews : gmap ID PreviewRow; st_snapshots : gmap ID SnapshotRow }.
Abbreviation DB := (CatalogDB (Side:=SourceTables)).

Definition with_schedules (d : DB) v : DB :=
  with_side d {| st_schedules := v; st_previews := st_previews (dc_side d); st_snapshots := st_snapshots (dc_side d) |}.
Definition with_previews (d : DB) v : DB :=
  with_side d {| st_schedules := st_schedules (dc_side d); st_previews := v; st_snapshots := st_snapshots (dc_side d) |}.
Definition with_snapshots (d : DB) v : DB :=
  with_side d {| st_schedules := st_schedules (dc_side d); st_previews := st_previews (dc_side d); st_snapshots := v |}.

Definition DeleteSourceSchedule (scope id : ID) (d : DB) : result failure DB :=
  match st_schedules (dc_side d) !! id with
  | Some row => if sc_ScopeID row =s scope then Ok (with_schedules d (delete id (st_schedules (dc_side d)))) else Ok d
  | None => Ok d
  end.
Definition UpsertSourceSchedule (scope id : ID) (next backoff : Z) (job : option ID) (d : DB) : result failure DB :=
  let? _ := require (between 60 2592000 backoff) check_violation in
  let? _ := require (bool_decide (is_Some (st_schedules (dc_side d) !! id))
                     || bool_decide (is_Some (GetResourceIndex d scope id))) foreign_key_violation in
  let scope := match st_schedules (dc_side d) !! id with Some row => sc_ScopeID row | None => scope end in
  Ok (with_schedules d (<[id := {| sc_ScopeID := scope; sc_NextRunAt := next; sc_BackoffSeconds := backoff;
                                  sc_LastJobID := job |}]> (st_schedules (dc_side d)))).
Definition GetSourceScheduleBackoff (scope id : ID) (d : DB) : option Z :=
  match st_schedules (dc_side d) !! id with
  | Some row => if sc_ScopeID row =s scope then Some (sc_BackoffSeconds row) else None
  | None => None
  end.

(** The statement of [supersedeSourcePreviews]. *)
Definition ready_preview (scope id : ID) (row : PreviewRow) : bool :=
  (pv_ScopeID row =s scope) && bool_decide (pv_SourceID row = Some id) && (pv_State row =s "ready").
Definition supersede (row : PreviewRow) : PreviewRow :=
  {| pv_ScopeID := pv_ScopeID row; pv_SourceID := pv_SourceID row; pv_State := "superseded";
     pv_Revision := pv_Revision row + 1 |}.
Definition SupersedePreviews (scope id : ID) (d : DB) : result failure DB :=
  let? _ := require (bool_decide (map_Forall (λ _ row, ready_preview scope id row = true → pv_Revision row < MaxInt64)
                                    (st_previews (dc_side d)))) numeric_out_of_range in
  Ok (with_previews d ((λ row, if ready_preview scope id row then supersede row else row) <$> st_previews (dc_side d))).

Definition InsertSourceSnapshot (id : ID) (row : SnapshotRow) (d : DB) : result failure DB :=
  let? _ := require (match sn_ContentType row with Some t => text_ok t | None => true end) bad_text in
  let? _ := require ((0 <? sn_SourceRevision row) && Nat.eqb (String.length (sn_ContentHmac row)) 32
                     && match sn_HTTPStatus row with Some n => between 100 599 n | None => true end
                     && match sn_ContentType row with Some t => length_between 1 128 t | None => true end
                     && (0 <=? sn_DecodedBytes row) && one_of ["success"; "failed"] (sn_State row)) check_violation in
  let? _ := require (negb (bool_decide (is_Some (st_snapshots (dc_side d) !! id)))) unique_violation in
  let? _ := require (bool_decide (is_Some (GetResourceIndex d (sn_ScopeID row) (sn_SourceID row))))
              foreign_key_violation in
  Ok (with_snapshots d (<[id := row]> (st_snapshots (dc_side d)))).
End Tables.

(** ** Transactions *)

Record Fetched `{C : Codec} := { fr_Status : Z; fr_ContentType : string; fr_Body : Bytes }.

Section Sources.
Context {P : Platform} {C : Codec} {V : Vault Bytes} {T : GoText} {L : SourceLibs}.
Abbreviation DB := (CatalogDB (Side:=SourceTables)).
Abbreviation Tx := (CTx (Side:=SourceTables)).

(** [openSource]. *)
Definition openSource (row : RevRow) : result failure Document :=
  let crypto := Err (Sentinel ErrCrypto) in
  let aad := recordContext (rr_ScopeID row) (rr_ResourceID row) (rr_Revision row)
               (re_SchemaVersion (rr_Row row)) in
  match vault_Open aad (re_Envelope (rr_Row row)) (wa_Wrapping (rr_Wrap row)) with
  | None => crypto
  | Some plain =>
      match unmarshalSource plain with
      | None => crypto
      | Some document =>
          let m := doc_Metadata document in
          if negb ((md_ScopeID m =s cx_ScopeID aad) && (md_ResourceID m =s cx_ObjectID aad)
                   && (md_Revision m =? cx_Revision aad) && (md_SchemaVersion m =? cx_SchemaVersion aad)
                   && (md_Kind m =s KindSource) && (md_SecurityEpoch m =? re_SecurityEpoch (rr_Row row)))
          then crypto
          else
            match source_Canonical document with
            | None => crypto
            | Some canonical =>
                match vault_Digest PurposeResourceContent canonical with
                | None => crypto
                | Some digest => if digest =s re_ContentHmac (rr_Row row) then Ok document else crypto
                end
            end
      end
  end.

(** [Catalog.SourceHead]. *)
Definition SourceHead (d : DB) (scope id : ID) : result failure Document :=
  if negb (valid_id scope && valid_id id) then Err (Sentinel ErrInvalidInput)
  else
    match GetResourceIndex d scope id with
    | None => Err (Sentinel ErrNotFound)
    | Some index =>
        if bool_decide (is_Some (he_DeletedAt index)) || negb (he_Kind index =s KindSource)
        then Err (Sentinel ErrNotFound)
        else match GetResourceHead d scope id with
             | Some row => openSource row
             | None => Err (Sentinel ErrNotFound)
             end
    end.

Section Scoped.
Context (scope : ID).

(** [writeSource]. *)
Definition writeSource (document : Document) (deleted : bool) : Tx unit :=
  match source_Canonical document with
  | None => throw (Sentinel ErrInvalidInput)
  | Some plain => persistPlain scope (doc_Metadata document) plain [] deleted
  end.

(** [sourceHead], within a transaction. *)
Definition sourceHead (id : ID) (latchMissing : bool) : Tx Document := λ e s,
  let fails err : result failure Document * CSt (Side:=SourceTables) :=
    let mapped := catalogError err in
    if latchMissing || negb (missing_or_invalid mapped)
    then (Err mapped, set_latch s (cs_active s) (cs_dirty s) (Some mapped))
    else (Err mapped, s) in
  if negb (cs_active s) then (Err (Sentinel ErrTransactionClosed), s)
  else
    match cs_failed s with
    | Some f => (Err f, s)
    | None =>
        if negb (valid_id id)
        then (Err (Sentinel ErrInvalidInput),
              set_latch s (cs_active s) (cs_dirty s) (Some (Sentinel ErrInvalidInput)))
        else if cs_aborted s then fails (PgError in_failed_transaction)
        else
          match GetResourceIndex (cs_db s) scope id with
          | None => fails NoRows
          | Some index =>
              if bool_decide (is_Some (he_DeletedAt index)) || negb (he_Kind index =s KindSource)
              then fails (Sentinel ErrNotFound)
              else
                match (match GetResourceHead (cs_db s) scope id with
                       | Some row => openSource row
                       | None => Err NoRows
                       end) with
                | Ok document => (Ok document, s)
                | Err err => fails err
                end
          end
    end.

Definition CreateSource (name : string) (tags : list string) (enabled : bool) (cfg : Config) : Tx Document := mutate (
  fresh ← fresh_resource_id;
  id ← returning (match fresh with Some id => Ok id | None => Err (Sentinel ErrUnavailable) end);
  let document := {| doc_Metadata := {| md_ResourceID := id; md_ScopeID := scope; md_Kind := KindSource;
      md_Revision := 1; md_SchemaVersion := SchemaVersion; md_Name := name; md_Tags := tags;
      md_Enabled := enabled; md_SecurityEpoch := 1 |}; doc_Source := cfg |} in
  _ ← insert_resource scope (doc_Metadata document);
  _ ← lockAndCheckRefs scope [];
  _ ← writeSource document false;
  mret document).

Definition changeSource (id : ID) (expected : Z) (deleted : bool) (apply : Document → result catalog_error Document)
    : Tx Document := mutate (
  _ ← throw_if (negb (valid_id id) || (expected <? 1)) ErrInvalidInput;
  o ← query (λ d, GetResourceHead d scope id);
  row ← one o;
  _ ← throw_if (negb (rr_Revision row =? expected)) ErrRevisionConflict;
  old ← returning (openSource row);
  next ← lift_catalog (apply old);
  _ ← lockAndCheckRefs scope [];
  _ ← writeSource next deleted;
  mret next).
Definition UpdateSource (id : ID) (expected : Z) (name : string) (tags : list string) (enabled : bool) (cfg : Config)
    : Tx Document :=
  changeSource id expected false (λ old, nextSource old name tags enabled cfg false).
Definition DeleteSource (id : ID) (expected : Z) : Tx Document :=
  changeSource id expected true (λ old,
    nextSource old (md_Name (doc_Metadata old)) (md_Tags (doc_Metadata old)) false (doc_Source old) true).

(** [syncSchedule]. *)
Definition syncSchedule (document : Document) (deleted : bool) (job : ID) (success : option bool) (now : Z) : Tx unit :=
  let id := md_ResourceID (doc_Metadata document) in
  let policy := cfg_RefreshPolicy (doc_Source document) in
  if deleted || negb (rp_Enabled policy) then exec (λ _, DeleteSourceSchedule scope id)
  else
    let interval := rp_IntervalSeconds policy in
    backoff ← (match success with
               | Some false =>
                   o ← query (GetSourceScheduleBackoff scope id);
                   mret (nextBackoff (default 60 o) interval)
               | _ => mret 60
               end);
    let delay := match success with Some false => backoff | _ => interval end in
    exec (λ _, UpsertSourceSchedule scope id (now + 1000000 * delay) backoff (dbID job)).

Definition supersedeSourcePreviews (id : ID) : Tx unit := exec (λ _, SupersedePreviews scope id).

(** [sealRecord]. *)
Definition sealRecord (table : string) (id : ID) (revision : Z) (plain : Bytes) : Tx (Sealed * Wrapped * string) :=
  sw ← seal {| cx_ScopeID := scope; cx_Table := table; cx_ObjectID := id; cx_Revision := revision;
               cx_SchemaVersion := 1 |} plain;
  digest ← returning (match vault_Digest PurposeResourceContent plain with
                      | Some d => Ok d | None => Err (Sentinel ErrCrypto) end);
  mret (sw, digest).

(** [insertSnapshot], of what was fetched ([safefetch.Result]). *)
Definition insertSnapshot (document : Document) (fetched : Fetched) (success : bool) : Tx ID :=
  fresh ← fresh_resource_id;
  id ← returning (match fresh with Some id => Ok id | None => Err (Sentinel ErrUnavailable) end);
  '(envelope, wrapping, digest) ← sealRecord TableSourceSnapshots id 1 (fr_Body fetched);
  _ ← exec (λ _, InsertSourceSnapshot id {| sn_ScopeID := scope;
        sn_SourceID := md_ResourceID (doc_Metadata document);
        sn_SourceRevision := md_Revision (doc_Metadata document); sn_Envelope := envelope;
        sn_Wrapping := wrapping; sn_ContentHmac := digest;
        sn_HTTPStatus := if between 100 599 (fr_Status fetched) then Some (fr_Status fetched) else None;
        sn_ContentType := if fr_ContentType fetched =s "" then None else Some (fr_ContentType fetched);
        sn_DecodedBytes := byte_count (fr_Body fetched);
        sn_State := if success then "success" else "failed" |});
  mret id.
End Scoped.

(** ** [Sources.Create], [Update] and [Delete] *)

Record SourceMutation := {
  sm_ScopeID : ID; sm_PrincipalID : ID; sm_ResourceID : ID; sm_RequestID : string; sm_Name : string;
  sm_Tags : list string; sm_Enabled : bool; sm_Config : Config; sm_ExpectedRevision : Z }.

Definition source_audit (input : SourceMutation) (document : Document) (action : string) : MutationAudit :=
  {| ma_PrincipalID := sm_PrincipalID input; ma_ObjectID := md_ResourceID (doc_Metadata document);
     ma_Revision := md_Revision (doc_Metadata document); ma_RequestID := sm_RequestID input;
     ma_Action := action |}.

Definition create_source (input : SourceMutation) : Tx Document := λ e,
  (document ← CreateSource (sm_ScopeID input) (sm_Name input) (sm_Tags input) (sm_Enabled input) (sm_Config input);
   _ ← TxAudit (sm_ScopeID input) (source_audit input document "source.create");
   _ ← syncSchedule (sm_ScopeID input) document false "" None (ce_now e);
   mret document) e.
Definition update_source (input : SourceMutation) : Tx Document := λ e,
  (document ← UpdateSource (sm_ScopeID input) (sm_ResourceID input) (sm_ExpectedRevision input)
                (sm_Name input) (sm_Tags input) (sm_Enabled input) (sm_Config input);
   _ ← supersedeSourcePreviews (sm_ScopeID input) (sm_ResourceID input);
   _ ← TxAudit (sm_ScopeID input) (source_audit input document "source.update");
   _ ← syncSchedule (sm_ScopeID input) document false "" None (ce_now e);
   mret document) e.
Definition delete_source (input : SourceMutation) : Tx Document := λ e,
  (document ← DeleteSource (sm_ScopeID input) (sm_ResourceID input) (sm_ExpectedRevision input);
   _ ← supersedeSourcePreviews (sm_ScopeID input) (sm_ResourceID input);
   _ ← TxAudit (sm_ScopeID input) (source_audit input document "source.delete");
   _ ← syncSchedule (sm_ScopeID input) document true "" None (ce_now e);
   mret document) e.

Definition Sources_Create (input : SourceMutation) (e : CEnv) (d : DB) : result failure Document * DB :=
  if negb (valid_id (sm_ScopeID input) && valid_id (sm_PrincipalID input)) || negb (Config_Validate (sm_Config input))
  then (Err (Sentinel ErrInvalidInput), d)
  else transactRaw (sm_ScopeID input) (create_source input) e d.
Definition Sources_Update (input : SourceMutation) (e : CEnv) (d : DB) : result failure Document * DB :=
  if negb (valid_id (sm_ScopeID input) && valid_id (sm_PrincipalID input) && valid_id (sm_ResourceID input))
     || (sm_ExpectedRevision input <? 1) || negb (Config_Validate (sm_Config input))
  then (Err (Sentinel ErrInvalidInput), d)
  else transactRaw (sm_ScopeID input) (update_source input) e d.
Definition Sources_Delete (input : SourceMutation) (e : CEnv) (d : DB) : result failure Document * DB :=
  if negb (valid_id (sm_ScopeID input) && valid_id (sm_PrincipalID input) && valid_id (sm_ResourceID input))
     || (sm_ExpectedRevision input <? 1)
  then (Err (Sentinel ErrInvalidInput), d)
  else transactRaw (sm_ScopeID input) (delete_source input) e d.

(** ** Failed refreshes *)

Definition with_failure (c : Config) (job : ID) (err : SafeError) : Config :=
  {| cfg_SchemaVersion := cfg_SchemaVersion c; cfg_URL := cfg_URL c; cfg_Format := cfg_Format c;
     cfg_Auth := cfg_Auth c; cfg_RefreshPolicy := cfg_RefreshPolicy c; cfg_FetchLimits := cfg_FetchLimits c;
     cfg_BindingRevision := cfg_BindingRevision c; cfg_LastSuccessAt := cfg_LastSuccessAt c;
     cfg_LastJobID := job; cfg_LatestPreviewBatchID := cfg_LatestPreviewBatchID c; cfg_LastError := Some err |}.

Definition sourcePreviewLimit := "SOURCE_PREVIEW_LIMIT".
Definition sourceInvalidEntries := "SOURCE_INVALID_ENTRIES".
Definition sourceRefreshError (code : string) : SafeError :=
  if code =s sourcePreviewLimit
  then {| se_Code := se_Code (Safe "VALIDATION_FAILED");
          se_Message := "The source preview exceeds the 5000-candidate limit, including missing items. No changes were applied." |}
  else if code =s sourceInvalidEntries
  then {| se_Code := se_Code (Safe "VALIDATION_FAILED");
          se_Message := "The source contains invalid or unsupported entries. Previous successful data was retained." |}
  else Safe code.

(** A job that refreshes revision [rj_Revision] of a source. *)
Record RefreshJob := { rj_ID : ID; rj_ScopeID : ID; rj_SourceID : ID; rj_Revision : Z }.

(** The end of [commitRefresh]: [t.dirty] and [t.failed]. *)
Definition advance_if_dirty (scope : ID) : Tx unit := λ e s,
  if cs_dirty s then exec (λ e, AdvanceCatalog (ce_tx e) scope) e s
  else (match cs_failed s with Some f => Err f | None => Ok () end, s).

(** [commitRefresh] with [success] false: a document that moved on since is left alone. *)
Definition commit_failed (job : RefreshJob) (fetched : Fetched) (code : string) (now : Z) : Tx unit :=
  let scope := rj_ScopeID job in
  o ← query (λ d : DB, dc_scopes d !! scope);
  _ ← one o;
  _ ← lockAndCheckRefs scope [];
  current ← sourceHead scope (rj_SourceID job) true;
  let m := doc_Metadata current in
  if negb (md_Revision m =? rj_Revision job) then mret ()
  else
    _ ← insertSnapshot scope current fetched false;
    let cfg := with_failure (doc_Source current) (rj_ID job) (sourceRefreshError code) in
    next ← UpdateSource scope (md_ResourceID m) (md_Revision m) (md_Name m) (md_Tags m) (md_Enabled m) cfg;
    _ ← syncSchedule scope next false (rj_ID job) (Some false) now;
    advance_if_dirty scope.

(** The completion of the job that runs it in its transaction ([Jobs.CompleteTx]). *)
Definition complete_failed (job : RefreshJob) (fetched : Fetched) (code : string) (now : Z) (e : CEnv) (d : DB)
    : result failure DB :=
  match commit_failed job fetched code now e (begin_tx d) with
  | (Ok _, s) => commit e s
  | (Err err, _) => Err err
  end.

(** ** Committing a preview *)

Definition with_status_of (c f : Config) : Config :=
  {| cfg_SchemaVersion := cfg_SchemaVersion c; cfg_URL := cfg_URL c; cfg_Format := cfg_Format c;
     cfg_Auth := cfg_Auth c; cfg_RefreshPolicy := cfg_RefreshPolicy c; cfg_FetchLimits := cfg_FetchLimits c;
     cfg_BindingRevision := cfg_BindingRevision c; cfg_LastSuccessAt := cfg_LastSuccessAt f;
     cfg_LastJobID := cfg_LastJobID f; cfg_LatestPreviewBatchID := cfg_LatestPreviewBatchID c;
     cfg_LastError := cfg_LastError f |}.
Definition with_revision_of (m : Metadata) (revision : Z) : Metadata :=
  {| md_ResourceID := md_ResourceID m; md_ScopeID := md_ScopeID m; md_Kind := md_Kind m;
     md_Revision := revision; md_SchemaVersion := md_SchemaVersion m; md_Name := md_Name m;
     md_Tags := md_Tags m; md_Enabled := md_Enabled m; md_SecurityEpoch := md_SecurityEpoch m |}.

(** The document as it was at [frozen], apart from what failed attempts change. *)
Definition as_frozen (current frozen : Document) : Document :=
  {| doc_Metadata := with_revision_of (doc_Metadata current) (md_Revision (doc_Metadata frozen));
     doc_Source := with_status_of (doc_Source current) (doc_Source frozen) |}.

(** [validateSourcePreview]: [nil], or the error of the imports that it returns. *)
Inductive preview_verdict := PreviewCurrent | PreviewRevisionConflict | PreviewStateConflict.
Definition validateSourcePreview `{!EqDecision Bytes} (scope batch : ID) (source_revision : Z) (sourceID : ID)
    (revision : Z) : Tx preview_verdict :=
  if negb (source_revision =? revision) then mret PreviewRevisionConflict
  else
    current ← sourceHead scope sourceID false;
    if negb (cfg_LatestPreviewBatchID (doc_Source current) =s batch) then mret PreviewStateConflict
    else
      o ← query (λ d, GetResourceRevision d scope sourceID revision);
      row ← one o;
      frozen ← returning (openSource row);
      a ← returning (match source_Canonical (as_frozen current frozen) with
                     | Some a => Ok a | None => Err OtherError end);
      b ← returning (match source_Canonical frozen with Some b => Ok b | None => Err OtherError end);
      mret (if bool_decide (a = b) then PreviewCurrent else PreviewRevisionConflict).
End Sources.
