(* ===== verification/Jobs.v ===== *)
(** Durable jobs ([internal/jobs]): executors, types, states, leases, results, quotas. *)
From S2P Require Import Prelude Diagnostics IRTypes IRValidate Network RunnerProtocol.

Definition LeaseDuration : Z := 30 * 1000000.
Definition MaxPayloadBytes : Z := 15 * 2 ^ 20.

Definition APIWorker : string := "api_worker".
Definition Runner : string := "runner".
Definition ImportParse : string := "import_parse".
Definition ConfigValidate : string := "config_validate".
Definition SourceRefresh : string := "source_refresh".
Definition CompileJob : string := "compile".
Definition Connectivity : string := "connectivity".
Definition DownloadThroughput : string := "download_throughput".
Definition Queued : string := "queued".
Definition Leased : string := "leased".
Definition Running : string := "running".
Definition Succeeded : string := "succeeded".
Definition Failed : string := "failed".
Definition Canceled : string := "canceled".
Definition TimedOut : string := "timed_out".
Definition Pass : string := "pass".
Definition Fail : string := "fail".
Definition Inconclusive : string := "inconclusive".

Inductive JobsError :=
| ErrInvalidInput | ErrUnavailable | ErrNotFound | ErrLeaseLost | ErrConflict
| ErrRevisionConflict | ErrCanceled | ErrBudgetExceeded.
#[export] Instance JobsError_eq_dec : EqDecision JobsError.
Proof. solve_decision. Defined.

Definition Terminal (s : string) : bool :=
  (s =s Succeeded) || (s =s Failed) || (s =s Canceled) || (s =s TimedOut).
Definition State_Valid (s : string) : bool :=
  (s =s Queued) || (s =s Leased) || (s =s Running) || Terminal s.

(** [Type.Network]. *)
Definition is_network (kind : string) : bool := (kind =s Connectivity) || (kind =s DownloadThroughput).

Definition ValidType (executor kind : string) : bool :=
  ((executor =s APIWorker) &&
   ((kind =s ImportParse) || (kind =s SourceRefresh) || (kind =s CompileJob))) ||
  ((executor =s Runner) && ((kind =s ConfigValidate) || is_network kind)).

(** ** Quotas *)

Record Quota := {
  qu_DailyDownloadBytes : Z; qu_ConnectivityConcurrency : Z; qu_ThroughputConcurrency : Z;
  qu_MaxTestDurationMS : Z; qu_MaxTestBytes : Z; qu_MinimumThroughputSampleBytes : Z }.

Definition DefaultQuota : Quota :=
  {| qu_DailyDownloadBytes := 2 ^ 30; qu_ConnectivityConcurrency := 4; qu_ThroughputConcurrency := 1;
     qu_MaxTestDurationMS := 60000; qu_MaxTestBytes := 20 * 2 ^ 20;
     qu_MinimumThroughputSampleBytes := 2 ^ 20 |}.

Definition Quota_Valid (q : Quota) : bool :=
  (0 <? qu_DailyDownloadBytes q) && (qu_DailyDownloadBytes q <=? 9007199254740991) &&
  between 1 (qu_ConnectivityConcurrency q) 64 && between 1 (qu_ThroughputConcurrency q) 16 &&
  between 1000 (qu_MaxTestDurationMS q) 60000 && between 1 (qu_MaxTestBytes q) (2 ^ 30) &&
  between 1 (qu_MinimumThroughputSampleBytes q) (qu_MaxTestBytes q).

(** ** Requests *)

Record EnqueueInput := {
  en_ID : ID; en_ScopeID : ID; en_BatchID : ID; en_Executor : string; en_Type : string;
  en_Payload : string; en_CoreBuildID : ID }.
Record Slots := { sl_ConfigValidate : Z; sl_Connectivity : Z; sl_DownloadThroughput : Z }.
#[export] Instance Slots_eq_dec : EqDecision Slots.
Proof. solve_decision. Defined.
Definition no_slots : Slots :=
  {| sl_ConfigValidate := 0; sl_Connectivity := 0; sl_DownloadThroughput := 0 |}.
Record ClaimInput := {
  cl_Executor : string; cl_WorkerID : ID; cl_Types : list string; cl_CoreBuildIDs : list ID;
  cl_AvailableSlots : Slots; cl_MaximumSlots : Slots }.
Record LeaseIdentity := { id_JobID : ID; id_WorkerID : ID; id_Attempt : Z; id_LeaseSeq : Z }.
#[export] Instance LeaseIdentity_eq_dec : EqDecision LeaseIdentity.
Proof. solve_decision. Defined.
Record EventInput := {
  ei_EventID : ID; ei_Phase : string; ei_Completed : Z; ei_Total : Z; ei_Verdict : string;
  ei_Error : option SafeError }.
Record Event := {
  ev_JobID : ID; ev_Seq : Z; ev_Phase : string; ev_Completed : Z; ev_Total : Z; ev_Verdict : string;
  ev_Error : option SafeError }.
Record EventReceipt := {
  er_JobID : ID; er_Attempt : Z; er_LeaseSeq : Z; er_EventID : ID; er_Seq : Z; er_Replayed : bool }.
Record ResultReceipt := {
  rr_JobID : ID; rr_Attempt : Z; rr_LeaseSeq : Z; rr_ResultID : ID; rr_ResultHash : string;
  rr_Replayed : bool; rr_SettledBytes : Z }.
Record Heartbeat := { hb_ExpiresAt : Z; hb_CancelRequested : bool }.

Section Requests.
Context {P : Platform} {F : Float64}.

Record Result := {
  rs_State : string; rs_Verdict : string; rs_Metrics : Metrics; rs_Error : option SafeError;
  rs_Hash : string; rs_Observation : option NetworkObservation }.

(** [LeaseIdentity.Valid]. *)
Definition Identity_Valid (id : LeaseIdentity) : bool :=
  valid_id (id_JobID id) && valid_id (id_WorkerID id) && (0 <? id_Attempt id) &&
  (id_Attempt id <=? 100) && (0 <? id_LeaseSeq id).
End Requests.
