(* ===== verification/Queue.v ===== *)
(** The job queue in the database ([internal/storage/jobs.go], [jobs_results.go],
    [jobs_quota.go], [jobs_reads.go]): tables as finite maps and lists, transactions that
    read the clock and either commit or change nothing. *)
From S2P Require Import Prelude Diagnostics IRTypes IRValidate Hashes Json Network.
From S2P Require Import RunnerProtocol Jobs.

(** ** Tables *)

(** The columns of a job that no statement updates, and those the queue controls. *)
Record JobHead := {
  jh_ID : ID; jh_ScopeID : ID; jh_BatchID : ID; jh_Executor : string; jh_Type : string;
  jh_CoreBuildID : ID; jh_CreatedAt : Z }.
Record JobRow := {
  jr_Head : JobHead; jr_State : string; jr_Revision : Z; jr_Attempt : Z; jr_LeaseSeq : Z;
  jr_WorkerID : option ID; jr_LeaseUntil : option Z; jr_CancelAt : option Z; jr_Verdict : string;
  jr_Error : option SafeError; jr_EventSeq : Z; jr_StartedAt : option Z; jr_FinishedAt : option Z }.
#[export] Instance JobHead_eq_dec : EqDecision JobHead.
Proof. solve_decision. Defined.
#[export] Instance JobRow_eq_dec : EqDecision JobRow.
Proof. solve_decision. Defined.
Record EventRow := {
  ew_JobID : ID; ew_Seq : Z; ew_Attempt : Z; ew_LeaseSeq : Z; ew_EventID : ID; ew_Hash : string;
  ew_Event : Event; ew_CreatedAt : Z }.
Record Bucket := { bu_Reserved : Z; bu_Settled : Z }.
Record Reservation := {
  qr_ID : ID; qr_ScopeID : ID; qr_Day : Z; qr_Reserved : Z; qr_Settled : option Z }.
Record BatchRow := {
  bt_ScopeID : ID; bt_Revision : Z; bt_Limits : Limits; bt_CancelAt : option Z; bt_CreatedAt : Z }.

Record AuditRow := {
  au_ScopeID : ID; au_ActorID : option ID; au_ObjectID : ID; au_Action : string; au_RequestID : string }.

(** [box.Seal] and [box.Open] of a payload, bound to the scope and the job, and the
    decoder of frozen payloads ([DecodeStrict]). *)
Class Payloads := {
  Seal : ID → ID → string → option string;
  Open : ID → ID → string → option string;
  DecodeStrict : string → option FrozenPayload }.

Section Queue.
Context {P : Platform} {N : Network} {F : Float64} {W : Zones} {L : Payloads}.

(** What the rest of the program keeps in the same database; a commit callback may
    change it. *)
Context {Business : Type}.

Record ResultRow := {
  rw_ResultID : ID; rw_JobID : ID; rw_WorkerID : ID; rw_Attempt : Z; rw_LeaseSeq : Z;
  rw_Hash : string; rw_Result : Result; rw_SettledBytes : Z }.

Record DB := {
  db_jobs : gmap ID JobRow; db_payloads : gmap ID string; db_events : list EventRow;
  db_results : list ResultRow; db_settings : gmap ID (option Quota);
  db_buckets : gmap (ID * Z) Bucket; db_reservations : gmap (ID * Z) Reservation;
  db_batches : gmap ID BatchRow; db_audit : list AuditRow; db_business : Business }.

Definition with_jobs (db : DB) (v : gmap ID JobRow) : DB :=
  {| db_jobs := v; db_payloads := db_payloads db; db_events := db_events db;
     db_results := db_results db; db_settings := db_settings db; db_buckets := db_buckets db;
     db_reservations := db_reservations db; db_batches := db_batches db;
     db_audit := db_audit db; db_business := db_business db |}.
Definition with_payloads (db : DB) (v : gmap ID string) : DB :=
  {| db_jobs := db_jobs db; db_payloads := v; db_events := db_events db;
     db_results := db_results db; db_settings := db_settings db; db_buckets := db_buckets db;
     db_reservations := db_reservations db; db_batches := db_batches db;
     db_audit := db_audit db; db_business := db_business db |}.
Definition with_events (db : DB) (v : list EventRow) : DB :=
  {| db_jobs := db_jobs db; db_payloads := db_payloads db; db_events := v;
     db_results := db_results db; db_settings := db_settings db; db_buckets := db_buckets db;
     db_reservations := db_reservations db; db_batches := db_batches db;
     db_audit := db_audit db; db_business := db_business db |}.
Definition with_results (db : DB) (v : list ResultRow) : DB :=
  {| db_jobs := db_jobs db; db_payloads := db_payloads db; db_events := db_events db;
     db_results := v; db_settings := db_settings db; db_buckets := db_buckets db;
     db_reservations := db_reservations db; db_batches := db_batches db;
     db_audit := db_audit db; db_business := db_business db |}.
Definition with_buckets (db : DB) (v : gmap (ID * Z) Bucket) : DB :=
  {| db_jobs := db_jobs db; db_payloads := db_payloads db; db_events := db_events db;
     db_results := db_results db; db_settings := db_settings db; db_buckets := v;
     db_reservations := db_reservations db; db_batches := db_batches db;
     db_audit := db_audit db; db_business := db_business db |}.
Definition with_reservations (db : DB) (v : gmap (ID * Z) Reservation) : DB :=
  {| db_jobs := db_jobs db; db_payloads := db_payloads db; db_events := db_events db;
     db_results := db_results db; db_settings := db_settings db; db_buckets := db_buckets db;
     db_reservations := v; db_batches := db_batches db; db_audit := db_audit db;
     db_business := db_business db |}.
Definition with_batches (db : DB) (v : gmap ID BatchRow) : DB :=
  {| db_jobs := db_jobs db; db_payloads := db_payloads db; db_events := db_events db;
     db_results := db_results db; db_settings := db_settings db; db_buckets := db_buckets db;
     db_reservations := db_reservations db; db_batches := v; db_audit := db_audit db;
     db_business := db_business db |}.
Definition with_audit (db : DB) (v : list AuditRow) : DB :=
  {| db_jobs := db_jobs db; db_payloads := db_payloads db; db_events := db_events db;
     db_results := db_results db; db_settings := db_settings db; db_buckets := db_buckets db;
     db_reservations := db_reservations db; db_batches := db_batches db; db_audit := v;
     db_business := db_business db |}.

(** ** Transactions

    A transaction reads the server's clock as often as its statements call
    [clock_timestamp()], draws random identifiers, and sees what other tables decide
    ([testRevokedSQL]), which rows another transaction has locked ([SKIP LOCKED]) and
    which scopes exist. An error rolls everything back. *)
Record Env := {
  clock : nat → Z; random_id : nat → ID; revoked : ID → bool; locked : ID → bool;
  scope_exists : ID → bool }.
Record St := { st_db : DB; st_reads : nat; st_ids : nat }.

Definition Tx (A : Type) : Type := Env → St → result JobsError (A * St).

#[global] Instance Tx_ret : MRet Tx := λ A a e s, Ok (a, s).
#[global] Instance Tx_bind : MBind Tx := λ A B k m e s,
  match m e s with Ok (a, s) => k a e s | Err err => Err err end.

Definition throw {A} (err : JobsError) : Tx A := λ _ _, Err err.
Definition throw_if (b : bool) (err : JobsError) : Tx unit := if b then throw err else mret ().
Definition ask : Tx Env := λ e s, Ok (e, s).
Definition query {A} (f : DB → A) : Tx A := λ e s, Ok (f (st_db s), s).
Definition exec (f : DB → DB) : Tx unit := λ e s,
  Ok ((), {| st_db := f (st_db s); st_reads := st_reads s; st_ids := st_ids s |}).
Definition clock_timestamp : Tx Z := λ e s,
  Ok (clock e (st_reads s),
      {| st_db := st_db s; st_reads := S (st_reads s); st_ids := st_ids s |}).
Definition newJobID : Tx ID := λ e s,
  Ok (random_id e (st_ids s),
      {| st_db := st_db s; st_reads := st_reads s; st_ids := S (st_ids s) |}).
(** A row, or the error of a missing one. *)
Definition row {A} (o : option A) (missing : JobsError) : Tx A :=
  match o with Some a => mret a | None => throw missing end.

(** [tx.Commit] or [tx.Rollback]. *)
Definition run {A} (m : Tx A) (e : Env) (db : DB) : result JobsError (A * DB) :=
  match m e {| st_db := db; st_reads := 0; st_ids := 0 |} with
  | Ok (a, s) => Ok (a, st_db s)
  | Err err => Err err
  end.

(** ** Rows *)

Definition j_ID (r : JobRow) : ID := jh_ID (jr_Head r).
Definition j_ScopeID (r : JobRow) : ID := jh_ScopeID (jr_Head r).
Definition j_Executor (r : JobRow) : string := jh_Executor (jr_Head r).
Definition j_Type (r : JobRow) : string := jh_Type (jr_Head r).
Definition CancelRequested (r : JobRow) : bool := bool_decide (is_Some (jr_CancelAt r)).

(** [state IN ('leased','running')]. *)
Definition live_state (s : string) : bool := (s =s Leased) || (s =s Running).

(** The CHECK constraints of [public.jobs]. *)
Definition job_checks (r : JobRow) : bool :=
  let s := jr_State r in
  State_Valid s && (0 <? jr_Revision r) && between 0 (jr_Attempt r) 2 && (0 <=? jr_LeaseSeq r) &&
  ((jr_Verdict r =s "") || (jr_Verdict r =s Pass) || (jr_Verdict r =s Fail) ||
   (jr_Verdict r =s Inconclusive)) && (0 <=? jr_EventSeq r) &&
  Bool.eqb (live_state s) (bool_decide (is_Some (jr_LeaseUntil r))) &&
  (negb (live_state s) ||
   ((0 <? jr_Attempt r) && (0 <? jr_LeaseSeq r) && bool_decide (is_Some (jr_WorkerID r)))) &&
  Bool.eqb (Terminal s) (bool_decide (is_Some (jr_FinishedAt r))) &&
  (negb (s =s Succeeded) || negb (jr_Verdict r =s "")) &&
  ValidType (j_Executor r) (j_Type r) &&
  Bool.eqb (j_Executor r =s APIWorker) (jh_CoreBuildID (jr_Head r) =s "").

(** [UPDATE public.jobs ... WHERE id = r.ID]. *)
Definition update_job (r : JobRow) : Tx unit :=
  throw_if (negb (job_checks r)) ErrInvalidInput;;
  exec (λ db, with_jobs db (<[j_ID r := r]> (db_jobs db))).

(** ** Events ([jobs_results.go]) *)

Definition jobPhases : list string :=
  ["queued"; "leased"; "fetching"; "parsing"; "compiling"; "preparing"; "validating"; "starting";
   "running"; "probing"; "downloading"; "collecting"; "settling"; "canceling"; "completed"].

Definition validVerdict (v : string) : bool := (v =s Pass) || (v =s Fail) || (v =s Inconclusive).

Definition cleanEvent (input : EventInput) : result JobsError EventInput :=
  if negb (valid_id (ei_EventID input)) || negb (bool_decide (ei_Phase input ∈ jobPhases)) ||
     (ei_Completed input <? 0) || (ei_Total input <? 0) || (ei_Total input <? ei_Completed input) ||
     (negb (ei_Verdict input =s "") && negb (validVerdict (ei_Verdict input)))
  then Err ErrInvalidInput
  else
    match ei_Error input with
    | None => Ok input
    | Some err =>
        if negb (KnownError (se_Code err)) then Err ErrInvalidInput
        else Ok {| ei_EventID := ei_EventID input; ei_Phase := ei_Phase input;
                   ei_Completed := ei_Completed input; ei_Total := ei_Total input;
                   ei_Verdict := ei_Verdict input; ei_Error := Some (Safe (se_Code err)) |}
    end.

Definition lift_tx {A} (r : result JobsError A) : Tx A :=
  match r with Ok a => mret a | Err err => throw err end.

Definition event_input_json (e : EventInput) : Json :=
  Obj [("EventID", Str (ei_EventID e)); ("Phase", Str (ei_Phase e)); ("Completed", Int (ei_Completed e));
       ("Total", Int (ei_Total e)); ("Verdict", Str (ei_Verdict e));
       ("Error", match ei_Error e with Some err => safe_error_json err | None => Null end)].
Definition event_hash (e : EventInput) : string := Digest (Marshal (event_input_json e)).

Definition with_event_seq (r : JobRow) (v : Z) : JobRow :=
  {| jr_Head := jr_Head r; jr_State := jr_State r; jr_Revision := jr_Revision r;
     jr_Attempt := jr_Attempt r; jr_LeaseSeq := jr_LeaseSeq r; jr_WorkerID := jr_WorkerID r;
     jr_LeaseUntil := jr_LeaseUntil r; jr_CancelAt := jr_CancelAt r; jr_Verdict := jr_Verdict r;
     jr_Error := jr_Error r; jr_EventSeq := v; jr_StartedAt := jr_StartedAt r;
     jr_FinishedAt := jr_FinishedAt r |}.

(** The UNIQUE key of [public.job_events]. *)
Definition same_event (job : ID) (attempt lease : Z) (event : ID) (w : EventRow) : bool :=
  (ew_JobID w =s job) && (ew_Attempt w =? attempt) && (ew_LeaseSeq w =? lease) &&
  (ew_EventID w =s event).

(** [appendJobEvent] of a [job] as it was read before: its attempt and lease. *)
Definition appendJobEvent (job : JobRow) (input : EventInput) : Tx EventReceipt :=
  input ← lift_tx (cleanEvent input);
  found ← query (λ db, db_jobs db !! j_ID job);
  current ← row found ErrNotFound;
  let seq := jr_EventSeq current + 1 in
  update_job (with_event_seq current seq);;
  taken ← query (λ db, existsb (same_event (j_ID job) (jr_Attempt job) (jr_LeaseSeq job)
                                  (ei_EventID input)) (db_events db));
  throw_if taken ErrConflict;;
  at_time ← clock_timestamp;
  let event := {| ev_JobID := j_ID job; ev_Seq := seq; ev_Phase := ei_Phase input;
                  ev_Completed := ei_Completed input; ev_Total := ei_Total input;
                  ev_Verdict := ei_Verdict input; ev_Error := ei_Error input |} in
  exec (λ db, with_events db (db_events db ++
    [{| ew_JobID := j_ID job; ew_Seq := seq; ew_Attempt := jr_Attempt job;
        ew_LeaseSeq := jr_LeaseSeq job; ew_EventID := ei_EventID input;
        ew_Hash := event_hash input; ew_Event := event; ew_CreatedAt := at_time |}]));;
  mret {| er_JobID := j_ID job; er_Attempt := jr_Attempt job; er_LeaseSeq := jr_LeaseSeq job;
          er_EventID := ei_EventID input; er_Seq := seq; er_Replayed := false |}.

(** An event of the queue itself. *)
Definition queue_event (phase : string) (completed : Z) (verdict : string) (err : option SafeError)
    (job : JobRow) : Tx EventReceipt :=
  id ← newJobID;
  appendJobEvent job {| ei_EventID := id; ei_Phase := phase; ei_Completed := completed;
                        ei_Total := 1; ei_Verdict := verdict; ei_Error := err |}.

(** ** Quota ([jobs_quota.go]) *)

(** [readQuota]: the default where the scope has no settings; stored settings that do
    not decode or are invalid are unavailable. *)
Definition readQuota (scope : ID) : Tx Quota :=
  found ← query (λ db, db_settings db !! scope);
  match found with
  | None => mret DefaultQuota
  | Some (Some q) => throw_if (negb (Quota_Valid q)) ErrUnavailable;; mret q
  | Some None => throw ErrUnavailable
  end.

Definition microseconds_per_day : Z := 86400 * 1000000.

(** The UPDATE of [quota_buckets] that admits a reservation. *)
Definition bucket_admits (b : Bucket) (maximum limit : Z) : bool :=
  (bu_Settled b <=? limit) && (bu_Reserved b <=? limit - bu_Settled b) &&
  (maximum <=? limit - bu_Settled b - bu_Reserved b).

(** [INSERT INTO public.quota_buckets ... ON CONFLICT DO NOTHING]. *)
Definition open_bucket (key : ID * Z) (db : DB) : DB :=
  match db_buckets db !! key with
  | None => with_buckets db (<[key := {| bu_Reserved := 0; bu_Settled := 0 |}]> (db_buckets db))
  | Some _ => db
  end.

(** [reserveAttempt]; [None] is [ErrBudgetExceeded], after which a caller can go on. *)
Definition reserveAttempt (job : JobRow) (attempt maximum : Z) : Tx (option ID) :=
  throw_if (negb (is_network (j_Type job)) || (attempt <? 1) || (2 <? attempt) || (maximum <? 1) ||
            (2 ^ 30 <? maximum)) ErrInvalidInput;;
  existing ← query (λ db, db_reservations db !! (j_ID job, attempt));
  match existing with
  | Some r => throw_if (negb (qr_Reserved r =? maximum)) ErrConflict;; mret (Some (qr_ID r))
  | None =>
      quota ← readQuota (j_ScopeID job);
      if qu_MaxTestBytes quota <? maximum then mret None
      else
        t ← clock_timestamp;
        let day := t / microseconds_per_day in
        let key := (j_ScopeID job, day) in
        exec (open_bucket key);;
        found ← query (λ db, db_buckets db !! key);
        bucket ← row found ErrUnavailable;
        if negb (bucket_admits bucket maximum (qu_DailyDownloadBytes quota)) then mret None
        else
          exec (λ db, with_buckets db (<[key :=
            {| bu_Reserved := bu_Reserved bucket + maximum; bu_Settled := bu_Settled bucket |}]>
            (db_buckets db)));;
          id ← newJobID;
          exec (λ db, with_reservations db (<[(j_ID job, attempt) :=
            {| qr_ID := id; qr_ScopeID := j_ScopeID job; qr_Day := day; qr_Reserved := maximum;
               qr_Settled := None |}]> (db_reservations db)));;
          mret (Some id)
  end.

(** [reserveRetry]: the same amount for the next attempt; whether the budget allows it. *)
Definition reserveRetry (job : JobRow) : Tx bool :=
  found ← query (λ db, db_reservations db !! (j_ID job, jr_Attempt job));
  r ← row found ErrNotFound;
  id ← reserveAttempt job (jr_Attempt job + 1) (qr_Reserved r);
  mret (bool_decide (is_Some id)).

(** [settleAttempt]: unknown usage settles the whole reservation. *)
Definition settleAttempt (job : JobRow) (attempt : Z) (usage : option Z) : Tx Z :=
  if negb (is_network (j_Type job)) then mret 0
  else
    found ← query (λ db, db_reservations db !! (j_ID job, attempt));
    r ← row found ErrNotFound;
    match qr_Settled r with
    | Some settled => mret settled
    | None =>
        throw_if (match usage with Some u => (u <? 0) || (qr_Reserved r <? u) | None => false end)
          ErrInvalidInput;;
        let actual := default (qr_Reserved r) usage in
        let key := (qr_ScopeID r, qr_Day r) in
        found ← query (λ db, db_buckets db !! key);
        match found with
        | Some b =>
            throw_if (bu_Reserved b - qr_Reserved r <? 0) ErrInvalidInput;;
            exec (λ db, with_buckets db (<[key :=
              {| bu_Reserved := bu_Reserved b - qr_Reserved r; bu_Settled := bu_Settled b + actual |}]>
              (db_buckets db)))
        | None => mret ()
        end;;
        exec (λ db, with_reservations db (<[(j_ID job, attempt) :=
          {| qr_ID := qr_ID r; qr_ScopeID := qr_ScopeID r; qr_Day := qr_Day r;
             qr_Reserved := qr_Reserved r; qr_Settled := Some actual |}]> (db_reservations db)));;
        mret actual
    end.

(** ** Enqueue ([jobs.go]) *)

Definition active_state (s : string) : bool := (s =s Queued) || live_state s.

(** The unique index [jobs_source_refresh_active]. *)
Definition refresh_active (scope batch : ID) (db : DB) : bool :=
  existsb (λ kr, (j_Type kr.2 =s SourceRefresh) && (j_ScopeID kr.2 =s scope) &&
                 (jh_BatchID (jr_Head kr.2) =s batch) && negb (batch =s "") &&
                 active_state (jr_State kr.2)) (map_to_list (db_jobs db)).

Definition new_job (head : JobHead) : JobRow :=
  {| jr_Head := head; jr_State := Queued; jr_Revision := 1; jr_Attempt := 0; jr_LeaseSeq := 0;
     jr_WorkerID := None; jr_LeaseUntil := None; jr_CancelAt := None; jr_Verdict := "";
     jr_Error := None; jr_EventSeq := 0; jr_StartedAt := None; jr_FinishedAt := None |}.

(** [INSERT INTO public.jobs]. *)
Definition insert_job (input : EnqueueInput) (id : ID) : Tx JobRow :=
  at_time ← clock_timestamp;
  env ← ask;
  let job := new_job {| jh_ID := id; jh_ScopeID := en_ScopeID input; jh_BatchID := en_BatchID input;
                        jh_Executor := en_Executor input; jh_Type := en_Type input;
                        jh_CoreBuildID := en_CoreBuildID input; jh_CreatedAt := at_time |} in
  throw_if (negb (scope_exists env (en_ScopeID input))) ErrInvalidInput;;
  existing ← query (λ db, db_jobs db !! id);
  throw_if (bool_decide (is_Some existing)) ErrConflict;;
  refreshing ← query (refresh_active (en_ScopeID input) (en_BatchID input));
  throw_if ((en_Type input =s SourceRefresh) && refreshing) ErrConflict;;
  update_job job;;
  mret job.

(** [json.Marshal] of a payload. *)
Definition marshal_payload (p : FrozenPayload) : option string :=
  if forallb (Z.leb 0) (payload_sequences p) then Some (Marshal (payload_json p)) else None.

Definition DecodeFrozenPayload (data : string) : option FrozenPayload :=
  match DecodeStrict data with
  | Some p => if Payload_ok p then Some p else None
  | None => None
  end.

Definition with_reservation_id (p : FrozenPayload) (id : ID) : FrozenPayload :=
  {| fp_SchemaVersion := fp_SchemaVersion p; fp_Type := fp_Type p; fp_Core := fp_Core p;
     fp_Artifact := fp_Artifact p; fp_Subject := fp_Subject p; fp_Limits := fp_Limits p;
     fp_ExecutionPolicy := fp_ExecutionPolicy p; fp_QuotaReservationID := id;
     fp_TestTarget := fp_TestTarget p; fp_ApprovedEndpoints := fp_ApprovedEndpoints p;
     fp_Dependencies := fp_Dependencies p; fp_MinimumSampleBytes := fp_MinimumSampleBytes p |}.

Definition optional_id (id : ID) : bool := (id =s "") || valid_id id.

(** The payload is a runner's exactly when the executor is. *)
Definition check_payload (input : EnqueueInput) : Tx unit :=
  if en_Executor input =s Runner then
    frozen ← row (DecodeFrozenPayload (en_Payload input)) ErrInvalidInput;
    throw_if (negb (en_CoreBuildID input =s co_CoreBuildID (fp_Core frozen)) ||
              negb (en_Type input =s fp_Type frozen)) ErrInvalidInput
  else throw_if (negb (en_CoreBuildID input =s "")) ErrInvalidInput.

(** A network job reserves its first attempt and its payload names the reservation. *)
Definition reserved_payload (job : JobRow) (plain : string) : Tx string :=
  if is_network (j_Type job) then
    frozen ← row (DecodeFrozenPayload plain) ErrInvalidInput;
    reserved ← reserveAttempt job 1 (li_MaxBytes (fp_Limits frozen));
    id ← row reserved ErrBudgetExceeded;
    row (marshal_payload (with_reservation_id frozen id)) ErrInvalidInput
  else mret plain.

Definition EnqueueTx (input : EnqueueInput) : Tx JobRow :=
  throw_if (negb (valid_id (en_ScopeID input)) || negb (ValidType (en_Executor input) (en_Type input)) ||
            (en_Payload input =s "") ||
            (MaxPayloadBytes <? Z.of_nat (String.length (en_Payload input))) ||
            negb (optional_id (en_ID input)) || negb (optional_id (en_BatchID input))) ErrInvalidInput;;
  check_payload input;;
  id ← (if en_ID input =s "" then newJobID else mret (en_ID input));
  job ← insert_job input id;
  plain ← reserved_payload job (en_Payload input);
  sealed ← row (Seal (en_ScopeID input) id plain) ErrUnavailable;
  exec (λ db, with_payloads db (<[id := sealed]> (db_payloads db)));;
  queue_event "queued" 0 "" None job;;
  mret job.

(** ** Cancellation ([jobs_reads.go]) *)

Definition canceled_job (r : JobRow) (at_time finished : Z) : JobRow :=
  let queued := jr_State r =s Queued in
  {| jr_Head := jr_Head r; jr_State := if queued then Canceled else jr_State r;
     jr_Revision := jr_Revision r + 1; jr_Attempt := jr_Attempt r; jr_LeaseSeq := jr_LeaseSeq r;
     jr_WorkerID := jr_WorkerID r; jr_LeaseUntil := jr_LeaseUntil r; jr_CancelAt := Some at_time;
     jr_Verdict := jr_Verdict r; jr_Error := jr_Error r; jr_EventSeq := jr_EventSeq r;
     jr_StartedAt := jr_StartedAt r;
     jr_FinishedAt := if queued then Some finished else jr_FinishedAt r |}.

(** [cancelChild] of a job read before. *)
Definition cancelChild (job : JobRow) : Tx unit :=
  if Terminal (jr_State job) || CancelRequested job then mret ()
  else
    t ← clock_timestamp;
    finished ← clock_timestamp;
    found ← query (λ db, db_jobs db !! j_ID job);
    match found with Some current => update_job (canceled_job current t finished) | None => mret () end;;
    (if jr_State job =s Queued
     then settleAttempt job (jr_Attempt job + 1) (Some 0);; mret ()
     else mret ());;
    (if jr_State job =s Queued
     then queue_event "completed" 1 "" (Some (Safe "CANCELED")) job
     else queue_event "canceling" 0 "" (Some (Safe "CANCELED")) job);;
    mret ().

(** ** Claim *)

(** [ORDER BY created_at, id]. *)
Definition older (a b : JobRow) : bool :=
  let ta := jh_CreatedAt (jr_Head a) in
  let tb := jh_CreatedAt (jr_Head b) in
  if ta =? tb then j_ID a <s j_ID b else ta <? tb.

(** The oldest queued job that [wanted] selects and no other transaction holds. *)
Definition queue_head (wanted : JobRow → bool) : Tx (option JobRow) :=
  env ← ask;
  rows ← query (λ db, (λ kr, kr.2) <$> map_to_list (db_jobs db));
  mret (head (SliceStable older (filter (λ r,
    (jr_State r =s Queued) && negb (CancelRequested r) && wanted r && negb (locked env (j_ID r))) rows))).

Definition runner_wants (kind : string) (cores : list ID) (r : JobRow) : bool :=
  (j_Executor r =s Runner) && (j_Type r =s kind) &&
  bool_decide (jh_CoreBuildID (jr_Head r) ∈ cores).

(** One head per type. *)
Fixpoint runner_candidates (kinds : list string) (cores : list ID) : Tx (list JobRow) :=
  match kinds with
  | [] => mret []
  | kind :: kinds =>
      found ← queue_head (runner_wants kind cores);
      rest ← runner_candidates kinds cores;
      mret (option_list found ++ rest)
  end.

(** [(local limit, global limit, available slots)] of a type for one runner. *)
Definition slot_limits (input : ClaimInput) (q : Quota) (kind : string) : Z * Z * Z :=
  let maximum :=
    if bool_decide (cl_MaximumSlots input = no_slots)
    then {| sl_ConfigValidate := 1; sl_Connectivity := 4; sl_DownloadThroughput := 1 |}
    else cl_MaximumSlots input in
  let slots := cl_AvailableSlots input in
  if kind =s Connectivity then
    (Z.min (qu_ConnectivityConcurrency q) (sl_Connectivity maximum), qu_ConnectivityConcurrency q,
     sl_Connectivity slots)
  else if kind =s DownloadThroughput then
    (Z.min (qu_ThroughputConcurrency q) (sl_DownloadThroughput maximum), qu_ThroughputConcurrency q,
     sl_DownloadThroughput slots)
  else (1, 2147483647, if bool_decide (slots = no_slots) then 1 else sl_ConfigValidate slots).

(** [state IN ('leased','running') AND lease_until > now], of a runner's job. *)
Definition running_at (now : Z) (r : JobRow) : bool :=
  (j_Executor r =s Runner) && live_state (jr_State r) &&
  match jr_LeaseUntil r with Some until => now <? until | None => false end.
Definition held_by (worker : ID) (r : JobRow) : bool := bool_decide (jr_WorkerID r = Some worker).

Definition count_jobs (f : JobRow → bool) (db : DB) : Z :=
  Z.of_nat (length (filter (λ kr, f kr.2) (map_to_list (db_jobs db)))).

(** Whether a candidate fits: a slot of the runner is free, configuration checks do not
    mix with network tests, and the limits of the type leave room. *)
Definition admits (input : ClaimInput) (q : Quota) (job : JobRow) : Tx bool :=
  let kind := j_Type job in
  let worker := cl_WorkerID input in
  let '(local_limit, global_limit, available) := slot_limits input q kind in
  if available <? 1 then mret false
  else
    t ← clock_timestamp;
    offline ← query (count_jobs (λ r, running_at t r && held_by worker r && (j_Type r =s ConfigValidate)));
    online ← query (count_jobs (λ r, running_at t r && held_by worker r && is_network (j_Type r)));
    if (is_network kind && (0 <? offline)) || ((kind =s ConfigValidate) && (0 <? online))
    then mret false
    else
      t ← clock_timestamp;
      global ← query (count_jobs (λ r, running_at t r && (j_Type r =s kind)));
      local ← query (count_jobs (λ r, running_at t r && (j_Type r =s kind) && held_by worker r));
      mret ((global <? global_limit) && (local <? local_limit)).

Fixpoint first_admitted (input : ClaimInput) (candidates : list JobRow) : Tx (option JobRow) :=
  match candidates with
  | [] => mret None
  | job :: candidates =>
      env ← ask;
      if revoked env (j_ID job) then cancelChild job;; first_admitted input candidates
      else
        q ← readQuota (j_ScopeID job);
        admitted ← admits input q job;
        if (admitted : bool) then mret (Some job) else first_admitted input candidates
  end.

Definition claimCandidate (input : ClaimInput) : Tx (option JobRow) :=
  if cl_Executor input =s APIWorker then
    queue_head (λ r, (j_Executor r =s APIWorker) && bool_decide (j_Type r ∈ cl_Types input))
  else
    candidates ← runner_candidates (cl_Types input) (cl_CoreBuildIDs input);
    first_admitted input (SliceStable older candidates).

Record Lease := {
  le_Job : JobRow; le_Identity : LeaseIdentity; le_Payload : string; le_ExpiresAt : Z }.

Definition leased_job (r : JobRow) (worker : ID) (until started : Z) : JobRow :=
  {| jr_Head := jr_Head r; jr_State := Leased; jr_Revision := jr_Revision r + 1;
     jr_Attempt := jr_Attempt r + 1; jr_LeaseSeq := jr_LeaseSeq r + 1; jr_WorkerID := Some worker;
     jr_LeaseUntil := Some until; jr_CancelAt := jr_CancelAt r; jr_Verdict := jr_Verdict r;
     jr_Error := None; jr_EventSeq := jr_EventSeq r;
     jr_StartedAt := Some (default started (jr_StartedAt r)); jr_FinishedAt := jr_FinishedAt r |}.

(** The UPDATE that leases a queued job. *)
Definition lease_job (job : JobRow) (worker : ID) : Tx JobRow :=
  now ← clock_timestamp;
  started ← clock_timestamp;
  found ← query (λ db, db_jobs db !! j_ID job);
  current ← row found ErrNotFound;
  throw_if (negb (jr_State current =s Queued) || CancelRequested current) ErrNotFound;;
  let leased := leased_job current worker (now + LeaseDuration) started in
  update_job leased;;
  mret leased.

(** The payload of a lease: a network payload names the reservation of its attempt. *)
Definition lease_payload (job : JobRow) : Tx string :=
  sealed ← query (λ db, db_payloads db !! j_ID job);
  sealed ← row sealed ErrUnavailable;
  plain ← row (Open (j_ScopeID job) (j_ID job) sealed) ErrUnavailable;
  if is_network (j_Type job) then
    frozen ← row (DecodeFrozenPayload plain) ErrInvalidInput;
    found ← query (λ db, db_reservations db !! (j_ID job, jr_Attempt job));
    r ← row found ErrNotFound;
    throw_if (bool_decide (is_Some (qr_Settled r)) ||
              negb (qr_Reserved r =? li_MaxBytes (fp_Limits frozen))) ErrNotFound;;
    row (marshal_payload (with_reservation_id frozen (qr_ID r))) ErrUnavailable
  else mret plain.

Definition claim_tx (input : ClaimInput) : Tx (option Lease) :=
  found ← claimCandidate input;
  match found with
  | None => mret None
  | Some job =>
      leased ← lease_job job (cl_WorkerID input);
      plain ← lease_payload leased;
      queue_event "leased" 0 "" None leased;;
      mret (Some {| le_Job := leased;
                    le_Identity := {| id_JobID := j_ID leased; id_WorkerID := cl_WorkerID input;
                                      id_Attempt := jr_Attempt leased;
                                      id_LeaseSeq := jr_LeaseSeq leased |};
                    le_Payload := plain; le_ExpiresAt := default 0 (jr_LeaseUntil leased) |})
  end.

(** The checks of [Claim] before any transaction. *)
Definition claim_valid (input : ClaimInput) : bool :=
  valid_id (cl_WorkerID input) && between 1 (Z.of_nat (length (cl_Types input))) 3 &&
  forallb (ValidType (cl_Executor input)) (cl_Types input) && forallb valid_id (cl_CoreBuildIDs input) &&
  negb ((cl_Executor input =s Runner) &&
        negb (between 1 (Z.of_nat (length (cl_CoreBuildIDs input))) 100)).

(** ** Recovery *)

Definition expired_at (now : Z) (r : JobRow) : bool :=
  live_state (jr_State r) && match jr_LeaseUntil r with Some until => until <=? now | None => false end.

(** [ORDER BY lease_until, id]. *)
Definition expires_first (a b : JobRow) : bool :=
  let ta := default 0 (jr_LeaseUntil a) in
  let tb := default 0 (jr_LeaseUntil b) in
  if ta =? tb then j_ID a <s j_ID b else ta <? tb.

Definition expired_jobs : Tx (list JobRow) :=
  env ← ask;
  now ← clock_timestamp;
  rows ← query (λ db, (λ kr, kr.2) <$> map_to_list (db_jobs db));
  mret (take 100 (SliceStable expires_first
    (filter (λ r, expired_at now r && negb (locked env (j_ID r))) rows))).

(** The state of a job whose lease expired, and why. *)
Definition recovery (job : JobRow) : string * SafeError :=
  if CancelRequested job then (Canceled, Safe "CANCELED")
  else if (2 <=? jr_Attempt job) || (j_Type job =s DownloadThroughput) then (Failed, Safe "LEASE_LOST")
  else (Queued, Safe "LEASE_LOST").

(** An attempt that ended: the lease is gone. *)
Definition ended_job (r : JobRow) (state verdict : string) (err : option SafeError) (finished : Z)
    : JobRow :=
  {| jr_Head := jr_Head r; jr_State := state; jr_Revision := jr_Revision r + 1;
     jr_Attempt := jr_Attempt r; jr_LeaseSeq := jr_LeaseSeq r; jr_WorkerID := jr_WorkerID r;
     jr_LeaseUntil := None; jr_CancelAt := jr_CancelAt r; jr_Verdict := verdict; jr_Error := err;
     jr_EventSeq := jr_EventSeq r; jr_StartedAt := jr_StartedAt r;
     jr_FinishedAt := if state =s Queued then None else Some finished |}.

(** A retry needs a new reservation; without budget the job fails. *)
Definition retry_state (job : JobRow) (state : string) (err : SafeError) : Tx (string * SafeError) :=
  if (state =s Queued) && is_network (j_Type job) then
    reserved ← reserveRetry job;
    mret (if (reserved : bool) then (state, err) else (Failed, Safe "BUDGET_EXCEEDED"))
  else mret (state, err).

Definition reap_job (job : JobRow) : Tx unit :=
  let '(state, failure) := recovery job in
  settleAttempt job (jr_Attempt job) None;;
  after ← retry_state job state failure;
  let '(state, failure) := (after : string * SafeError) in
  now ← clock_timestamp;
  finished ← clock_timestamp;
  found ← query (λ db, db_jobs db !! j_ID job);
  match found with
  | Some current =>
      if expired_at now current
      then update_job (ended_job current state (jr_Verdict current) (Some failure) finished)
      else mret ()
  | None => mret ()
  end;;
  (if Terminal state then queue_event "completed" 1 "" (Some failure) job
   else queue_event "queued" 0 "" (Some failure) job);;
  mret ().

Fixpoint each {A} (f : A → Tx unit) (l : list A) : Tx unit :=
  match l with [] => mret () | x :: l => f x;; each f l end.

Definition ReapExpired : Tx Z :=
  expired ← expired_jobs;
  each reap_job expired;;
  mret (Z.of_nat (length expired)).

(** [Claim]: recovery commits on its own before the claim. *)
Definition Claim (input : ClaimInput) (recovering claiming : Env) (db : DB)
    : result JobsError (option Lease) * DB :=
  if negb (claim_valid input) then (Err ErrInvalidInput, db)
  else
    match run ReapExpired recovering db with
    | Err err => (Err err, db)
    | Ok (_, db) =>
        match run (claim_tx input) claiming db with
        | Err err => (Err err, db)
        | Ok (lease, db) => (Ok lease, db)
        end
    end.

(** ** Leases *)

Definition holds (id : LeaseIdentity) (r : JobRow) : bool :=
  bool_decide (jr_WorkerID r = Some (id_WorkerID id)) && (jr_Attempt r =? id_Attempt id) &&
  (jr_LeaseSeq r =? id_LeaseSeq id).

Definition lockLease (id : LeaseIdentity) : Tx JobRow :=
  throw_if (negb (Identity_Valid id)) ErrInvalidInput;;
  found ← query (λ db, db_jobs db !! id_JobID id);
  r ← row found ErrLeaseLost;
  throw_if (negb (holds id r)) ErrLeaseLost;;
  mret r.

Definition unexpired (now : Z) (r : JobRow) : bool :=
  live_state (jr_State r) && match jr_LeaseUntil r with Some until => now <? until | None => false end.

(** [validLease] with [allowCancel], as every caller has it. *)
Definition validLease (id : LeaseIdentity) : Tx unit :=
  now ← clock_timestamp;
  found ← query (λ db, db_jobs db !! id_JobID id);
  r ← row found ErrLeaseLost;
  throw_if (negb (holds id r && unexpired now r)) ErrLeaseLost.

Definition beaten_job (r : JobRow) (until : Z) (is_revoked : bool) (now : Z) : JobRow :=
  {| jr_Head := jr_Head r; jr_State := jr_State r;
     jr_Revision := jr_Revision r + (if is_revoked && negb (CancelRequested r) then 1 else 0);
     jr_Attempt := jr_Attempt r; jr_LeaseSeq := jr_LeaseSeq r; jr_WorkerID := jr_WorkerID r;
     jr_LeaseUntil := Some until;
     jr_CancelAt := if is_revoked then Some (default now (jr_CancelAt r)) else jr_CancelAt r;
     jr_Verdict := jr_Verdict r; jr_Error := jr_Error r; jr_EventSeq := jr_EventSeq r;
     jr_StartedAt := jr_StartedAt r; jr_FinishedAt := jr_FinishedAt r |}.

(** [Heartbeat]: one UPDATE. *)
Definition beat (id : LeaseIdentity) : Tx Heartbeat :=
  throw_if (negb (Identity_Valid id)) ErrInvalidInput;;
  env ← ask;
  now ← clock_timestamp;
  renewed ← clock_timestamp;
  canceled ← clock_timestamp;
  found ← query (λ db, db_jobs db !! id_JobID id);
  r ← row found ErrLeaseLost;
  throw_if (negb (holds id r && unexpired now r)) ErrLeaseLost;;
  let r := beaten_job r (renewed + LeaseDuration) (revoked env (id_JobID id)) canceled in
  update_job r;;
  mret {| hb_ExpiresAt := renewed + LeaseDuration; hb_CancelRequested := CancelRequested r |}.

Definition running_job (r : JobRow) : JobRow :=
  {| jr_Head := jr_Head r; jr_State := Running;
     jr_Revision := jr_Revision r + (if jr_State r =s Leased then 1 else 0);
     jr_Attempt := jr_Attempt r; jr_LeaseSeq := jr_LeaseSeq r; jr_WorkerID := jr_WorkerID r;
     jr_LeaseUntil := jr_LeaseUntil r; jr_CancelAt := jr_CancelAt r; jr_Verdict := jr_Verdict r;
     jr_Error := jr_Error r; jr_EventSeq := jr_EventSeq r; jr_StartedAt := jr_StartedAt r;
     jr_FinishedAt := jr_FinishedAt r |}.

(** [Event]: an event that was recorded before is answered from its record. *)
Definition record_event (id : LeaseIdentity) (input : EventInput) : Tx EventReceipt :=
  input ← lift_tx (cleanEvent input);
  job ← lockLease id;
  validLease id;;
  throw_if ((j_Executor job =s Runner) &&
            bool_decide (ei_Phase input ∈ ["queued"; "fetching"; "parsing"; "compiling"])) ErrInvalidInput;;
  previous ← query (λ db, head (filter (λ w, Is_true
    (same_event (id_JobID id) (id_Attempt id) (id_LeaseSeq id) (ei_EventID input) w)) (db_events db)));
  match previous with
  | Some w =>
      throw_if (negb (ew_Hash w =s event_hash input)) ErrConflict;;
      mret {| er_JobID := id_JobID id; er_Attempt := id_Attempt id; er_LeaseSeq := id_LeaseSeq id;
              er_EventID := ei_EventID input; er_Seq := ew_Seq w; er_Replayed := true |}
  | None =>
      (if ei_Phase input =s "leased" then mret () else update_job (running_job job));;
      receipt ← appendJobEvent job input;
      validLease id;;
      mret receipt
  end.

(** ** Results *)

Definition result_request (id : LeaseIdentity) (r : Result) (hash : string) : ResultRequest :=
  {| rq_JobID := id_JobID id; rq_Attempt := id_Attempt id; rq_LeaseSeq := id_LeaseSeq id;
     rq_ResultHash := hash; rq_State := rs_State r; rq_Verdict := rs_Verdict r;
     rq_Metrics := rs_Metrics r; rq_Error := rs_Error r; rq_Observation := rs_Observation r |}.

Definition with_error_hash (r : Result) (err : option SafeError) (hash : string) : Result :=
  {| rs_State := rs_State r; rs_Verdict := rs_Verdict r; rs_Metrics := rs_Metrics r; rs_Error := err;
     rs_Hash := hash; rs_Observation := rs_Observation r |}.

Definition no_lease : LeaseIdentity :=
  {| id_JobID := ""; id_WorkerID := ""; id_Attempt := 0; id_LeaseSeq := 0 |}.

(** [canonicalResult]: the result with its safe error and its hash. *)
Definition canonicalResult (input : Result) : result JobsError (Result * string) :=
  if negb (Observation_ok (rs_Observation input)) then Err ErrInvalidInput
  else if negb (Terminal (rs_State input)) ||
          (negb (rs_Verdict input =s "") && negb (validVerdict (rs_Verdict input))) ||
          ((rs_State input =s Succeeded) && (rs_Verdict input =s "")) ||
          negb (Metrics_ok (rs_Metrics input)) then Err ErrInvalidInput
  else
    let? err :=
      match rs_Error input with
      | None => Ok None
      | Some e => if KnownError (se_Code e) then Ok (Some (Safe (se_Code e))) else Err ErrInvalidInput
      end in
    match ResultHash (result_request no_lease (with_error_hash input err "") "") with
    | None => Err ErrInvalidInput
    | Some hash =>
        if negb (rs_Hash input =s "") && negb (rs_Hash input =s hash) then Err ErrConflict
        else Ok (with_error_hash input err hash, hash)
    end.

Definition infrastructureRetry (job : JobRow) (r : Result) : bool :=
  negb ((j_Type job =s DownloadThroughput) || (2 <=? jr_Attempt job) || negb (rs_State r =s Failed) ||
        CancelRequested job) &&
  match rs_Error r with
  | Some e => bool_decide (se_Code e ∈ ["CORE_BINARY_MISMATCH"; "RUNNER_RESOURCE_LIMIT"; "PORT_BUSY";
                                        "SERVICE_UNAVAILABLE"])
  | None => false
  end.

Definition same_lease (id : LeaseIdentity) (w : ResultRow) : bool :=
  (rw_JobID w =s id_JobID id) && (rw_Attempt w =? id_Attempt id) && (rw_LeaseSeq w =? id_LeaseSeq id).

(** [INSERT INTO public.job_results]: one result per lease. *)
Definition insert_result (w : ResultRow) : Tx unit :=
  taken ← query (λ db, existsb (same_lease {| id_JobID := rw_JobID w; id_WorkerID := rw_WorkerID w;
    id_Attempt := rw_Attempt w; id_LeaseSeq := rw_LeaseSeq w |}) (db_results db));
  throw_if taken ErrConflict;;
  throw_if (negb (between 1 (rw_Attempt w) 2) || (rw_LeaseSeq w <? 1) || (rw_SettledBytes w <? 0))
    ErrInvalidInput;;
  exec (λ db, with_results db (db_results db ++ [w])).

(** Where an attempt with this result leaves the job. *)
Definition outcome_of (job : JobRow) (input : Result) : Tx (string * string * option SafeError) :=
  let retry := infrastructureRetry job input in
  let state := if retry then Queued else rs_State input in
  let verdict := if retry then "" else rs_Verdict input in
  if (state =s Queued) && is_network (j_Type job) then
    reserved ← reserveRetry job;
    mret (if (reserved : bool) then (state, verdict, rs_Error input)
          else (Failed, Inconclusive, Some (Safe "BUDGET_EXCEEDED")))
  else mret (state, verdict, rs_Error input).

(** The UPDATE that ends an attempt, still fenced by the lease. *)
Definition end_attempt (id : LeaseIdentity) (state verdict : string) (err : option SafeError) : Tx unit :=
  now ← clock_timestamp;
  finished ← clock_timestamp;
  found ← query (λ db, db_jobs db !! id_JobID id);
  current ← row found ErrLeaseLost;
  throw_if (negb (holds id current && unexpired now current)) ErrLeaseLost;;
  update_job (ended_job current state verdict err finished).

(** A result that was not recorded before. *)
Definition accept_result (id : LeaseIdentity) (job : JobRow) (input : Result) (hash : string)
    (callback : option (Tx unit)) : Tx ResultReceipt :=
  validLease id;;
  throw_if (CancelRequested job && negb (rs_State input =s Canceled)) ErrCanceled;;
  match callback with
  | Some commit => throw_if (CancelRequested job) ErrCanceled;; commit
  | None => mret ()
  end;;
  validLease id;;
  result_id ← newJobID;
  settled ← settleAttempt job (jr_Attempt job) (me_BodyBytes (rs_Metrics input));
  insert_result {| rw_ResultID := result_id; rw_JobID := id_JobID id; rw_WorkerID := id_WorkerID id;
                   rw_Attempt := id_Attempt id; rw_LeaseSeq := id_LeaseSeq id; rw_Hash := hash;
                   rw_Result := input; rw_SettledBytes := settled |};;
  after ← outcome_of job input;
  let '(state, verdict, err) := (after : string * string * option SafeError) in
  end_attempt id state verdict err;;
  (if state =s Queued then queue_event "queued" 0 verdict err job
   else queue_event "completed" 1 verdict err job);;
  mret {| rr_JobID := id_JobID id; rr_Attempt := id_Attempt id; rr_LeaseSeq := id_LeaseSeq id;
          rr_ResultID := result_id; rr_ResultHash := hash; rr_Replayed := false;
          rr_SettledBytes := settled |}.

(** [CompleteTx]: the callback and the outcome of the attempt in one commit; a result that
    was accepted before is answered from its record. *)
Definition CompleteTx (id : LeaseIdentity) (input : Result) (callback : option (Tx unit))
    : Tx ResultReceipt :=
  canonical ← lift_tx (canonicalResult input);
  let '(input, hash) := (canonical : Result * string) in
  job ← lockLease id;
  throw_if (negb (is_network (j_Type job)) &&
            (negb (ConfigMetrics_ok (rs_Metrics input)) ||
             bool_decide (is_Some (rs_Observation input)))) ErrInvalidInput;;
  recorded ← query (λ db, head (filter (λ w, Is_true
    (same_lease id w && (rw_WorkerID w =s id_WorkerID id))) (db_results db)));
  match recorded with
  | Some w =>
      throw_if (negb (rw_Hash w =s hash)) ErrConflict;;
      mret {| rr_JobID := id_JobID id; rr_Attempt := id_Attempt id; rr_LeaseSeq := id_LeaseSeq id;
              rr_ResultID := rw_ResultID w; rr_ResultHash := rw_Hash w; rr_Replayed := true;
              rr_SettledBytes := rw_SettledBytes w |}
  | None => accept_result id job input hash callback
  end.

(** ** Batches ([jobs_reads.go]) *)

Record Batch := {
  ba_ID : ID; ba_ScopeID : ID; ba_Revision : Z; ba_State : string; ba_Verdict : string;
  ba_Children : list JobRow; ba_Completed : Z; ba_CancelRequested : bool; ba_EffectiveLimits : Limits;
  ba_CreatedAt : Z }.

(** What [aggregateBatch] accumulates over the children. *)
Record batch_sum := {
  bs_Revision : Z; bs_State : string; bs_Completed : Z; bs_Failed : bool; bs_TimedOut : bool;
  bs_Canceled : bool; bs_AllPass : bool; bs_AnyFail : bool }.

Definition add_child (s : batch_sum) (job : JobRow) : batch_sum :=
  {| bs_Revision := bs_Revision s + (jr_Revision job - 1);
     bs_State := if jr_State job =s Queued then bs_State s else Running;
     bs_Completed := if Terminal (jr_State job) then bs_Completed s + 1 else bs_Completed s;
     bs_Failed := bs_Failed s || (jr_State job =s Failed);
     bs_TimedOut := bs_TimedOut s || (jr_State job =s TimedOut);
     bs_Canceled := bs_Canceled s || (jr_State job =s Canceled);
     bs_AllPass := bs_AllPass s && (jr_Verdict job =s Pass);
     bs_AnyFail := bs_AnyFail s || (jr_Verdict job =s Fail) |}.

Definition aggregateBatch (b : Batch) : Batch :=
  let s := fold_left add_child (ba_Children b)
    {| bs_Revision := ba_Revision b; bs_State := Queued; bs_Completed := ba_Completed b;
       bs_Failed := false; bs_TimedOut := false; bs_Canceled := false; bs_AllPass := true;
       bs_AnyFail := false |} in
  let done := bs_Completed s =? Z.of_nat (length (ba_Children b)) in
  {| ba_ID := ba_ID b; ba_ScopeID := ba_ScopeID b; ba_Revision := bs_Revision s;
     ba_State :=
       if negb done then bs_State s
       else if bs_Failed s then Failed
       else if bs_TimedOut s then TimedOut
       else if bs_Canceled s then Canceled else Succeeded;
     ba_Verdict :=
       if negb done then ba_Verdict b
       else if bs_AnyFail s then Fail else if bs_AllPass s then Pass else Inconclusive;
     ba_Children := ba_Children b; ba_Completed := bs_Completed s;
     ba_CancelRequested := ba_CancelRequested b; ba_EffectiveLimits := ba_EffectiveLimits b;
     ba_CreatedAt := ba_CreatedAt b |}.

Definition readBatch (scope id : ID) : Tx Batch :=
  found ← query (λ db, db_batches db !! id);
  b ← row found ErrNotFound;
  throw_if (negb (bt_ScopeID b =s scope)) ErrNotFound;;
  rows ← query (λ db, (λ kr, kr.2) <$> map_to_list (db_jobs db));
  let children := SliceStable older (filter (λ r,
    Is_true ((j_ScopeID r =s scope) && (jh_BatchID (jr_Head r) =s id))) rows) in
  throw_if (negb (between 1 (Z.of_nat (length children)) 200)) ErrUnavailable;;
  mret (aggregateBatch
    {| ba_ID := id; ba_ScopeID := scope; ba_Revision := bt_Revision b; ba_State := "";
       ba_Verdict := ""; ba_Children := children; ba_Completed := 0;
       ba_CancelRequested := bool_decide (is_Some (bt_CancelAt b));
       ba_EffectiveLimits := bt_Limits b; ba_CreatedAt := bt_CreatedAt b |}).

Record BatchInput := {
  bi_ID : ID; bi_ScopeID : ID; bi_EffectiveLimits : Limits; bi_Children : list EnqueueInput }.

Definition batch_child (input : BatchInput) (id : ID) (child : EnqueueInput) : Tx unit :=
  throw_if ((negb (en_ScopeID child =s "") && negb (en_ScopeID child =s bi_ScopeID input)) ||
            (negb (en_BatchID child =s "") && negb (en_BatchID child =s id))) ErrInvalidInput;;
  EnqueueTx {| en_ID := en_ID child; en_ScopeID := bi_ScopeID input; en_BatchID := id;
               en_Executor := en_Executor child; en_Type := en_Type child;
               en_Payload := en_Payload child; en_CoreBuildID := en_CoreBuildID child |};;
  mret ().

Definition CreateBatchTx (input : BatchInput) : Tx Batch :=
  let limits := bi_EffectiveLimits input in
  throw_if (negb (valid_id (bi_ScopeID input)) ||
            negb (between 1 (Z.of_nat (length (bi_Children input))) 100) ||
            negb (optional_id (bi_ID input)) || negb (between 0 (li_MaxBytes limits) (2 ^ 30)) ||
            negb (between 1 (li_DurationMS limits) 300000)) ErrInvalidInput;;
  id ← (if bi_ID input =s "" then newJobID else mret (bi_ID input));
  env ← ask;
  throw_if (negb (scope_exists env (bi_ScopeID input))) ErrInvalidInput;;
  existing ← query (λ db, db_batches db !! id);
  throw_if (bool_decide (is_Some existing)) ErrConflict;;
  created ← clock_timestamp;
  exec (λ db, with_batches db (<[id :=
    {| bt_ScopeID := bi_ScopeID input; bt_Revision := 1; bt_Limits := limits; bt_CancelAt := None;
       bt_CreatedAt := created |}]> (db_batches db)));;
  each (batch_child input id) (bi_Children input);;
  readBatch (bi_ScopeID input) id.

(** The job or batch that [Cancel] answers with. *)
Inductive Snapshot :=
| Snapshot_Job (r : JobRow)
| Snapshot_Batch (b : Batch).

(** [Snapshot]: the job with this identifier, or else the batch. *)
Definition read_snapshot (scope id : ID) : Tx Snapshot :=
  throw_if (negb (valid_id scope) || negb (valid_id id)) ErrInvalidInput;;
  found ← query (λ db, db_jobs db !! id);
  match found with
  | Some job =>
      if j_ScopeID job =s scope then mret (Snapshot_Job job)
      else batch ← readBatch scope id; mret (Snapshot_Batch batch)
  | None => batch ← readBatch scope id; mret (Snapshot_Batch batch)
  end.

Definition cancel_batch_row (id : ID) : Tx unit :=
  t ← clock_timestamp;
  exec (λ db, with_batches db (alter (λ b,
    {| bt_ScopeID := bt_ScopeID b; bt_Revision := bt_Revision b + 1; bt_Limits := bt_Limits b;
       bt_CancelAt := Some t; bt_CreatedAt := bt_CreatedAt b |}) id (db_batches db))).

(** The audit event of a cancellation that changed something ([jobs/audit.go]). *)
Record AuditActor := { aa_ID : ID; aa_RequestID : string }.

Definition audit_cancel (scope id : ID) (actor : AuditActor) : Tx unit :=
  throw_if (negb (optional_id (aa_ID actor))) ErrInvalidInput;;
  exec (λ db, with_audit db (db_audit db ++
    [{| au_ScopeID := scope; au_ActorID := if aa_ID actor =s "" then None else Some (aa_ID actor);
        au_ObjectID := id; au_Action := "job_cancel";
        au_RequestID := if aa_RequestID actor =s "" then "system" else aa_RequestID actor |}])).

Definition cancel_job (id : ID) (job : JobRow) (expectedRevision : Z) : Tx (bool * Snapshot) :=
  throw_if (negb (jr_Revision job =? expectedRevision)) ErrRevisionConflict;;
  cancelChild job;;
  found ← query (λ db, db_jobs db !! id);
  after ← row found ErrNotFound;
  mret (negb (Terminal (jr_State job)) && negb (CancelRequested job), Snapshot_Job after).

Definition cancel_batch (scope id : ID) (expectedRevision : Z) : Tx (bool * Snapshot) :=
  batch ← readBatch scope id;
  throw_if (negb (ba_Revision batch =? expectedRevision)) ErrRevisionConflict;;
  let changed := negb (Terminal (ba_State batch)) && negb (ba_CancelRequested batch) in
  (if changed then cancel_batch_row id else mret ());;
  each cancelChild (ba_Children batch);;
  after ← readBatch scope id;
  mret (changed, Snapshot_Batch after).

(** [Cancel] of a job, or else of a batch with all its children. *)
Definition cancel (scope id : ID) (expectedRevision : Z) (actor : AuditActor) : Tx Snapshot :=
  throw_if (negb (valid_id scope) || negb (valid_id id) || (expectedRevision <? 1)) ErrInvalidInput;;
  found ← query (λ db, db_jobs db !! id);
  done ← match found with
         | Some job =>
             if j_ScopeID job =s scope then cancel_job id job expectedRevision
             else cancel_batch scope id expectedRevision
         | None => cancel_batch scope id expectedRevision
         end;
  let '(changed, snapshot) := (done : bool * Snapshot) in
  (if changed then audit_cancel scope id actor else mret ());;
  mret snapshot.
End Queue.
