(* ===== verification/Publication.v ===== *)
(** The last check before publication, and the redacted display
    ([internal/compiler/publication.go]), over decoded native documents; the evidence match
    ([publication_evidence.go]). What an accepted publication contains, and what a redacted
    document no longer does. *)
From S2P Require Import Prelude Diagnostics IRTypes IRValidate Capability Labels Adapter Compiler.

(** A decoded document. [JInt] is what the YAML decoder makes of an integer, [JFloat]
    a [float64] as a fraction; an object is its key-value pairs. *)
Inductive JValue :=
| JNull
| JBool (b : bool)
| JInt (n : Z)
| JFloat (num : Z) (den : positive)
| JString (s : string)
| JArray (items : list JValue)
| JObject (fields : list (string * JValue)).

Abbreviation JDoc := (list (string * JValue)).

(** [doc[key]]: [nil] where the key is absent. *)
Definition jget (doc : JDoc) (key : string) : JValue :=
  match list_find (λ kv, kv.1 = key) doc with Some (_, (_, v)) => v | None => JNull end.
Definition jhas (doc : JDoc) (key : string) : bool := bool_decide (key ∈ doc.*1).

(** [v == "..."] and [v == true] on an [any]. *)
Definition jis (v : JValue) (s : string) : bool :=
  match v with JString t => t =s s | _ => false end.
Definition jisb (v : JValue) (b : bool) : bool :=
  match v with JBool c => Bool.eqb c b | _ => false end.
Definition jarray (v : JValue) : option (list JValue) :=
  match v with JArray l => Some l | _ => None end.
Definition jobject (v : JValue) : option JDoc :=
  match v with JObject d => Some d | _ => None end.

(** [nativeInt]: a [float64] is truncated. *)
Definition nativeInt (v : JValue) : Z :=
  match v with
  | JFloat num den => Z.quot num (Zpos den)
  | JInt n => n
  | _ => -1
  end.

(** ** Key policy *)

Definition forbidden_keys : list string :=
  ["tun"; "script"; "scripts"; "plugin"; "plugins"; "external-ui"; "external-ui-url";
   "external-ui-name"; "cache-file"; "certificate-path"; "key-path"; "certificatepath";
   "keypath"; "rule-set-path"; "auto-route"; "auto-detect-interface"; "interface-name";
   "bind-interface"; "download-detour"; "geoip"; "geosite"].
Definition insecure_keys : list string :=
  ["insecure"; "allowinsecure"; "skip-cert-verify"; "access-control-allow-private-network"].

Definition allowed_fields (family : string) : list string :=
  if family =s Xray then ["log"; "inbounds"; "outbounds"; "routing"; "dns"; "observatory"]
  else if family =s SingBox then ["log"; "inbounds"; "outbounds"; "route"; "dns"; "experimental"]
  else if family =s Mihomo then
    ["socks-port"; "bind-address"; "allow-lan"; "mode"; "log-level"; "external-controller";
     "external-controller-cors"; "ipv6"; "geodata-mode"; "geo-auto-update"; "find-process-mode";
     "proxies"; "rules"; "proxy-groups"; "dns"; "rule-providers"]
  else [].

Section Publication.
Context {P : Platform} {T : GoText}.
(** The JSON and YAML decoders, from the format. *)
Context (decode : string → string → option JDoc).

Definition normal_key (key : string) : string := ToLower (replace_byte "_" "-" key).

(** The [switch] of [walk]: a field is acceptable at its path. *)
Definition field_ok (path key : string) (value : JValue) : bool :=
  let k := normal_key key in
  if bool_decide (k ∈ forbidden_keys) then false
  else if bool_decide (k ∈ insecure_keys) then jisb value false
  else if k =s "path" then
    Contains path "/transport" || Contains path "/wsSettings" || Contains path "/ws-opts"
  else if (k =s "output") || (k =s "access") || (k =s "error") then
    negb (HasPrefix path "/artifact/log")
  else if k =s "type" then
    negb (Contains path "rule-providers" || Contains path "rule_set") || jis value "inline"
  else if k =s "listen" then jis value "127.0.0.1"
  else true.

(** [walk]: [Some path] is the first rejected field. Fields are visited in the order
    of their keys. *)
Fixpoint walk (value : JValue) (path : string) : option string :=
  match value with
  | JObject fields =>
      (fix each (l : list (string * option string)) : option string :=
         match l with
         | [] => None
         | (_, Some p) :: _ => Some p
         | (_, None) :: l => each l
         end)
        (isort (key_leb fst)
           ((fix visit (l : list (string * JValue)) : list (string * option string) :=
               match l with
               | [] => []
               | (key, v) :: l =>
                   let child := path +:+ "/" +:+ key in
                   (key, if field_ok path key v then walk v child else Some child) :: visit l
               end) fields))
  | JArray items =>
      (fix each (i : nat) (l : list JValue) : option string :=
         match l with
         | [] => None
         | v :: l =>
             match walk v (path +:+ "/" +:+ index_string i) with
             | Some p => Some p
             | None => each (S i) l
             end
         end) 0%nat items
  | _ => None
  end.

(** ** Reserved names *)

Definition name_key (family : string) : string := if family =s Mihomo then "name" else "tag".
Definition kind_key (family : string) : string := if family =s Xray then "protocol" else "type".

(** A reserved tag keeps its built-in meaning. *)
Definition builtin_entry (family field name : string) (entry : JDoc) : bool :=
  let kind := jget entry (kind_key family) in
  (field =s "outbounds") &&
  (((family =s Xray) && (((name =s "block") && jis kind "blackhole")
                         || ((name =s "direct") && jis kind "freedom")))
   || ((family =s SingBox) && (name =s "direct") && jis kind "direct")).

Definition entry_name (family : string) (entry : JDoc) : string :=
  match jget entry (name_key family) with JString s => s | _ => "" end.

(** The entries of one field, with the names already seen. *)
Fixpoint check_entries (family field : string) (i : nat) (seen : list string)
    (items : list JValue) : option string :=
  match items with
  | [] => None
  | item :: items =>
      match jobject item with
      | None => Some ("/artifact/" +:+ field)
      | Some entry =>
          let name := entry_name family entry in
          let path := "/artifact/" +:+ field +:+ "/" +:+ index_string i +:+ "/" +:+ name_key family in
          if (name =s "") || bool_decide (name ∈ seen) then Some path
          else if IsReservedTag name && negb (builtin_entry family field name entry) then Some path
          else check_entries family field (S i) (seen ++ [name]) items
      end
  end.

Definition check_names (family : string) (doc : JDoc) : option string :=
  range_err (λ _ field,
    check_entries family field 0 [] (default [] (jarray (jget doc field))))
    ["outbounds"; "proxies"; "proxy-groups"].

(** ** Listeners *)

Definition control_address (preset : ClientPreset) : string :=
  "127.0.0.1:" +:+ Itoa (ca_Port (cp_ControlAPI preset)).

Definition check_mihomo (doc : JDoc) (preset : ClientPreset) : option string :=
  if negb (jis (jget doc "bind-address") "127.0.0.1") || negb (jisb (jget doc "allow-lan") false)
     || negb (nativeInt (jget doc "socks-port") =? ll_Port (cp_LocalListener preset))
     || negb (jisb (jget doc "geo-auto-update") false)
     || negb (jis (jget doc "find-process-mode") "off")
  then Some "/artifact/listener"
  else
    let want := if ca_Enabled (cp_ControlAPI preset) then control_address preset else "" in
    if jis (jget doc "external-controller") want then None
    else Some "/artifact/external-controller".

Definition check_experimental (doc : JDoc) (preset : ClientPreset) : option string :=
  let bad := Some "/artifact/experimental" in
  if negb (Bool.eqb (jhas doc "experimental") (ca_Enabled (cp_ControlAPI preset))) then bad
  else if jhas doc "experimental" then
    match jobject (jget doc "experimental") with
    | Some ([_] as ex) =>
        match jobject (jget ex "clash_api") with
        | Some ca =>
            if jis (jget ca "external_controller") (control_address preset) then None
            else Some "/artifact/experimental/clash_api"
        | None => Some "/artifact/experimental/clash_api"
        end
    | _ => bad
    end
  else None.

Definition check_inbound (family : string) (doc : JDoc) (preset : ClientPreset) : option string :=
  match jarray (jget doc "inbounds") with
  | Some [inbound] =>
      match jobject inbound with
      | Some entry =>
          if negb (jis (jget entry "listen") "127.0.0.1") || negb (jis (jget entry "tag") InboundTag)
          then Some "/artifact/inbounds/0/listen"
          else
            let portKey := if family =s SingBox then "listen_port" else "port" in
            let kindKey := if family =s SingBox then "type" else "protocol" in
            if negb (nativeInt (jget entry portKey) =? ll_Port (cp_LocalListener preset))
               || negb (jis (jget entry kindKey) "socks")
            then Some "/artifact/inbounds/0"
            else if family =s SingBox then check_experimental doc preset
            else None
      | None => Some "/artifact/inbounds/0/listen"
      end
  | _ => Some "/artifact/inbounds"
  end.

(** [CheckPublication]; the path of the first failure. *)
Definition publication_path (data : string) (target : Target) (preset : ClientPreset)
    : option string :=
  if (String.length data =? 0)%nat || (MaxArtifactBytes <? Z.of_nat (String.length data))
     || bool_decide (ClientPreset_Validate preset ≠ None)
  then Some "/artifact"
  else
    match decode (t_Format target) data with
    | None => Some "/artifact"
    | Some doc =>
        let family := t_CoreFamily target in
        check? range_err (λ _ kv, if bool_decide (kv.1 ∈ allowed_fields family) then None
                                  else Some ("/artifact/" +:+ kv.1)) doc in
        check? check_names family doc in
        check? (if family =s Mihomo then check_mihomo doc preset
                else check_inbound family doc preset) in
        walk (JObject doc) "/artifact"
    end.

Definition CheckPublication (data : string) (target : Target) (preset : ClientPreset) : error :=
  match publication_path data target preset with
  | Some path => Some [compileIssue CompileUnmappedField path (t_Key target) (t_ClientPresetID target)]
  | None => None
  end.

(** ** Redaction *)

Definition secret_keys : list string :=
  ["password"; "passwd"; "uuid"; "id"; "username"; "user"; "secret"; "token"; "publickey";
   "privatekey"; "shortid"; "path"; "headers"].

(** [strings.NewReplacer("_", "", "-", "")]. *)
Definition redact_key (key : string) : string :=
  ToLower (replace_byte "-" "" (replace_byte "_" "" key)).
Definition is_secret (key : string) : bool := bool_decide (redact_key key ∈ secret_keys).

(** The [walk] of [RedactedNative]. *)
Fixpoint redact (v : JValue) : JValue :=
  match v with
  | JObject fields =>
      JObject ((fix each (l : list (string * JValue)) : list (string * JValue) :=
                  match l with
                  | [] => []
                  | (key, child) :: l =>
                      (key, if is_secret key then JString "[REDACTED]" else redact child) :: each l
                  end) fields)
  | JArray items => JArray (map redact items)
  | v => v
  end.

(** The two encoders. *)
Context (encode : string → JValue → option string).

Definition RedactedNative (data format : string) : option string :=
  match decode format data with
  | None => None
  | Some doc => encode format (redact (JObject doc))
  end.
End Publication.

(** * publication_evidence.go *)

Record EvidenceBuild := { eb_ID : ID; eb_SHA : string; eb_Fixtures : list string }.
Record Evidence := {
  evd_VMessCiphers : list string; evd_AdapterVersion : string; evd_Builds : list EvidenceBuild }.

Section Evidence.
(** The embedded evidence, decoded; [None] where it does not decode. *)
Context (evidence : option Evidence).

(** The fixtures of the build; the last entry wins. *)
Definition evidence_fixtures (e : Evidence) (target : Target) : list string :=
  foldl (λ fixtures b,
    if (eb_ID b =s t_CoreBuildID target) && (eb_SHA b =s t_CoreBuildSHA256 target)
    then eb_Fixtures b else fixtures) [] (evd_Builds e).

Definition covered (fixtures : list string) (prefix : string) : bool :=
  existsb (λ name, HasPrefix name prefix) fixtures.

Definition evidence_prefix (n : Node) (family : string) : string :=
  let transport := match n_Transport n with
                   | Transport_WS _ => "websocket"
                   | Transport_typed_nil v => if v =s WebSocket then "websocket" else "native_tcp"
                   | _ => "native_tcp"
                   end in
  let security := match n_Security n with
                  | Security_TLS _ => "tls"
                  | Security_Reality _ => "reality"
                  | Security_typed_nil v =>
                      if v =s TLS then "tls" else if v =s Reality then "reality" else "none"
                  | _ => "none"
                  end in
  "protocol-" +:+ n_Protocol n +:+ "-" +:+ transport +:+ "-" +:+ security +:+ "-" +:+ family +:+ ".".

(** [check] of one node; a payload that is not a node panics. *)
Definition check_evidence (e : Evidence) (target : Target) (fixtures : list string) (r : Resource)
    : outcome Diagnostics unit :=
  let fail path := Fails [compileIssue CapabilityUnverified path (t_Key target) (rid r)] in
  match r_Payload r with
  | Payload_Node n =>
      if negb (covered fixtures (evidence_prefix n (t_CoreFamily target)))
      then fail "/payload/protocol"
      else
        match n_Auth n with
        | Auth_MethodPassword a =>
            if negb (mpa_Method a =s AES128GCM)
               && negb (covered fixtures ("protocol-shadowsocks-" +:+ mpa_Method a +:+ "-"
                                          +:+ t_CoreFamily target +:+ "."))
            then fail "/payload/auth/method" else Ret ()
        | Auth_VMess a =>
            if bool_decide (vma_Cipher a ∈ evd_VMessCiphers e) then Ret ()
            else fail "/payload/auth/cipher"
        (* The nil pointer is dereferenced. *)
        | Auth_typed_nil v =>
            if (v =s AuthMethodPassword) || (v =s AuthVMessAEAD) then Panics else Ret ()
        | _ => Ret ()
        end
  | _ => Panics
  end.

Definition trojan_tls (r : Resource) : outcome Diagnostics bool :=
  match r_Payload r with
  | Payload_Node n =>
      Ret ((n_Protocol n =s Trojan) &&
           match n_Transport n with
           | Transport_TCP _ => true | Transport_typed_nil v => v =s NativeTCP | _ => false
           end &&
           match n_Security n with
           | Security_TLS _ => true | Security_typed_nil v => v =s TLS | _ => false
           end)
  | _ => Panics
  end.

Definition check_hop (target : Target) (r : Resource) : outcome Diagnostics unit :=
  let! ok := trojan_tls r in
  if ok then Ret ()
  else Fails [compileIssue CapabilityUnverified "/payload/chain_position" (t_Key target) (rid r)].

Definition matchPublicationEvidence (graph : Graph) : outcome Diagnostics unit :=
  let target := g_Target graph in
  let fail id path := Fails [compileIssue CapabilityUnverified path (t_Key target) id] in
  match evidence with
  | None => fail (t_ClientPresetID target) "/adapter_version"
  | Some e =>
      if negb (evd_AdapterVersion e =s t_AdapterVersion target)
      then fail (t_ClientPresetID target) "/adapter_version"
      else
        let fixtures := evidence_fixtures e target in
        if bool_decide (fixtures = []) then fail (t_ClientPresetID target) "/core_build_id"
        else
          let check := check_evidence e target fixtures in
          let! _ := range_fold (λ _ o _, check (io_Resource o)) (g_Independents graph) () in
          let! _ := range_fold (λ _ c _,
            let! _ := check_hop target (ci_Hop1 c) in
            let! _ := check_hop target (ci_Hop2 c) in
            let! _ := check (ci_Hop1 c) in check (ci_Hop2 c)) (g_Chains graph) () in
          let ext := if t_CoreFamily target =s Mihomo then ".yaml" else ".json" in
          if bool_decide (("orchestration-" +:+ t_CoreFamily target +:+ ext) ∈ fixtures) then Ret ()
          else fail (t_ClientPresetID target) "/client_preset_id"
  end.
End Evidence.

(** [PublicationEvidence]. *)
Definition PublicationEvidence `{P : Platform} `{T : GoText} (digest : string → string)
    (catalog : CapabilityCatalog) (evidence : option Evidence) (input : Frozen.FrozenInput)
    (target : Target) : outcome Diagnostics unit :=
  let! prepared := Prepare digest catalog input target in
  let graph := prepared.1 in
  if negb (b_Arch (g_Build graph) =s "amd64") || negb (b_OS (g_Build graph) =s "linux")
     || bool_decide (g_Preset graph = None) || bool_decide (g_Routing graph = None)
     || bool_decide (g_DNS graph = None)
  then Fails [compileIssue CapabilityUnverified "/target" (t_Key target) (t_ClientPresetID target)]
  else matchPublicationEvidence evidence graph.

(** ** Induction over documents *)

Section Ind.
Context (Q : JValue → Prop).
Context (Hnull : Q JNull) (Hbool : ∀ b, Q (JBool b)) (Hint : ∀ n, Q (JInt n))
  (Hfloat : ∀ n d, Q (JFloat n d)) (Hstring : ∀ s, Q (JString s))
  (Harray : ∀ l, Forall Q l → Q (JArray l))
  (Hobject : ∀ l, Forall (λ kv : string * JValue, Q kv.2) l → Q (JObject l)).

Fixpoint JValue_nested_ind (v : JValue) : Q v :=
  match v with
  | JNull => Hnull
  | JBool b => Hbool b
  | JInt n => Hint n
  | JFloat n d => Hfloat n d
  | JString s => Hstring s
  | JArray l =>
      Harray l ((fix each (l : list JValue) : Forall Q l :=
                   match l with
                   | [] => Forall_nil_2 _
                   | x :: l => Forall_cons_2 _ _ _ (JValue_nested_ind x) (each l)
                   end) l)
  | JObject l =>
      Hobject l ((fix each (l : list (string * JValue)) : Forall (λ kv, Q kv.2) l :=
                    match l with
                    | [] => Forall_nil_2 _
                    | x :: l => Forall_cons_2 _ _ _ (JValue_nested_ind x.2) (each l)
                    end) l)
  end.
End Ind.

(** [occurs v base path key value]: below [v], which is at [base], the object at [path]
    has a field. *)
Inductive occurs : JValue → string → string → string → JValue → Prop :=
| occurs_here fields base key v :
    (key, v) ∈ fields → occurs (JObject fields) base base key v
| occurs_field fields base k c path key v :
    (k, c) ∈ fields → occurs c (base +:+ "/" +:+ k) path key v →
    occurs (JObject fields) base path key v
| occurs_item items base i c path key v :
    items !! i = Some c → occurs c (base +:+ "/" +:+ index_string i) path key v →
    occurs (JArray items) base path key v.

Section Facts.
Context {P : Platform} {T : GoText}.

Lemma first_failure_None (l : list (string * option string)) :
  (fix each (l : list (string * option string)) : option string :=
     match l with
     | [] => None
     | (_, Some p) :: _ => Some p
     | (_, None) :: l => each l
     end) l = None ↔ Forall (λ kv, kv.2 = None) l.
Proof.
  induction l as [|[k [p|]] l IH]; [done| |].
  - split; [done|]. by intros [? _]%Forall_cons.
  - rewrite IH, Forall_cons. simpl. naive_solver.
Qed.

Lemma walk_object fields path :
  walk (JObject fields) path = None ↔
  ∀ key v, (key, v) ∈ fields →
    field_ok path key v = true ∧ walk v (path +:+ "/" +:+ key) = None.
Proof.
  cbn [walk]. rewrite first_failure_None.
  match goal with |- context [isort _ (?vis fields)] => set (visit := vis) end.
  rewrite isort_perm, Forall_forall.
  assert (Hv : ∀ l x, x ∈ visit l ↔ ∃ key v, (key, v) ∈ l ∧
            x = (key, if field_ok path key v then walk v (path +:+ "/" +:+ key)
                      else Some (path +:+ "/" +:+ key))).
  { induction l as [|[k c] l IH]; intros x.
    - simpl. rewrite elem_of_nil. split; [done|]. by intros (? & ? & ?%elem_of_nil & _).
    - change (visit ((k, c) :: l)) with
        ((k, if field_ok path k c then walk c (path +:+ "/" +:+ k)
             else Some (path +:+ "/" +:+ k)) :: visit l).
      rewrite elem_of_cons, IH. setoid_rewrite elem_of_cons. naive_solver. }
  split.
  - intros H key v Hin. specialize (H _ (proj2 (Hv fields _) (ex_intro _ key (ex_intro _ v (conj Hin eq_refl))))).
    simpl in H. by destruct (field_ok path key v).
  - intros H x (key & v & Hin & ->)%Hv. simpl. destruct (H _ _ Hin) as [-> ->]. done.
Qed.

Lemma walk_array items path :
  walk (JArray items) path = None ↔
  ∀ i v, items !! i = Some v → walk v (path +:+ "/" +:+ index_string i) = None.
Proof.
  cbn [walk]. match goal with |- ?each 0%nat items = None ↔ _ => set (go := each) end.
  assert (Hgo : ∀ l k, go k l = None ↔
            ∀ i v, l !! i = Some v → walk v (path +:+ "/" +:+ index_string (k + i)) = None).
  { induction l as [|x l IH]; intros k; [by split; [intros _ i v|]|].
    change (go k (x :: l)) with
      (match walk x (path +:+ "/" +:+ index_string k) with Some p => Some p | None => go (S k) l end).
    destruct (walk x (path +:+ "/" +:+ index_string k)) eqn:E.
    - split; [done|]. intros H. specialize (H O x eq_refl). rewrite Nat.add_0_r in H. congruence.
    - rewrite IH. split.
      + intros H [|i] v; simpl; [intros [= <-]; by rewrite Nat.add_0_r|].
        intros Hv. rewrite <-Nat.add_succ_comm. by apply H.
      + intros H i v Hv. rewrite Nat.add_succ_comm. by apply H. }
  apply (Hgo items 0%nat).
Qed.

(** The walk accepts exactly the documents whose every field is acceptable. *)
Lemma walk_None v path :
  walk v path = None ↔
  ∀ p key w, occurs v path p key w → field_ok p key w = true.
Proof.
  revert path. induction v as [| | | | |items IH|fields IH] using JValue_nested_ind; intros path;
    try (split; [intros _ p key w H; inversion H|done]).
  - rewrite walk_array, Forall_lookup in *. split.
    + intros H p key w Ho. inversion Ho as [| |? ? i c ? ? ? Hi Hc]; subst.
      by apply (IH _ _ Hi) with (path := path +:+ "/" +:+ index_string i) (p := p) (key := key) (w := w) in H as H'.
    + intros H i c Hi. apply (IH _ _ Hi). intros p key w Ho. eapply H. by econstructor.
  - rewrite walk_object, Forall_forall in *. split.
    + intros H p key w Ho. inversion Ho as [? ? ? ? Hin|? ? k c ? ? ? Hin Hc|]; subst.
      * by apply (H _ _ Hin).
      * destruct (H _ _ Hin) as [_ Hw]. eapply (IH _ Hin); eauto.
    + intros H key v Hin. split; [apply H; by constructor|].
      apply (IH _ Hin). intros p k w Ho. eapply H. by eapply occurs_field.
Qed.

(** ** Redaction *)

Lemma redact_object fields :
  redact (JObject fields) =
  JObject ((λ kv, (kv.1, if is_secret kv.1 then JString "[REDACTED]" else redact kv.2)) <$> fields).
Proof.
  cbn [redact]. f_equal. induction fields as [|[k v] fields IH]; [done|]. rewrite fmap_cons, <-IH. done.
Qed.

Lemma redact_array items : redact (JArray items) = JArray (redact <$> items).
Proof. done. Qed.

Lemma redact_hides v base p key w :
  occurs (redact v) base p key w → is_secret key = true → w = JString "[REDACTED]".
Proof.
  revert base. induction v as [| | | | |items IH|fields IH] using JValue_nested_ind;
    intros base; try (intros H; by inversion H).
  - rewrite redact_array, Forall_lookup in *. intros Ho Hs.
    inversion Ho as [| |? ? i c ? ? ? Hi Hc]; subst.
    rewrite list_lookup_fmap in Hi. apply fmap_Some in Hi as (x & Hx & ->). by eapply IH.
  - rewrite redact_object, Forall_forall in *. intros Ho Hs.
    inversion Ho as [? ? ? ? Hin|? ? k c ? ? ? Hin Hc|]; subst;
      apply list_elem_of_fmap in Hin as ([k' x] & [= -> ->] & Hx); simpl in *.
    + by rewrite Hs.
    + destruct (is_secret k'); [by inversion Hc|]. by eapply (IH _ Hx).
Qed.

Lemma redact_idem v : redact (redact v) = redact v.
Proof.
  induction v as [| | | | |items IH|fields IH] using JValue_nested_ind; try done.
  - rewrite !redact_array. f_equal. rewrite <-list_fmap_compose.
    apply list_fmap_ext. intros i x Hx. rewrite Forall_lookup in IH. by eapply IH.
  - rewrite !redact_object. f_equal. rewrite <-list_fmap_compose.
    apply list_fmap_ext. intros i [k x] Hx. unfold compose. simpl. f_equal.
    rewrite Forall_lookup in IH. specialize (IH _ _ Hx). simpl in IH. by destruct (is_secret k).
Qed.

(** ** What an accepted publication is *)

Context (decode : string → string → option JDoc).

Definition LocalOnly (target : Target) (preset : ClientPreset) (doc : JDoc) : Prop :=
  if t_CoreFamily target =s Mihomo then
    jget doc "bind-address" = JString "127.0.0.1" ∧ jget doc "allow-lan" = JBool false ∧
    nativeInt (jget doc "socks-port") = ll_Port (cp_LocalListener preset) ∧
    jget doc "external-controller" =
      JString (if ca_Enabled (cp_ControlAPI preset) then control_address preset else "")
  else
    ∃ entry, jget doc "inbounds" = JArray [JObject entry] ∧
      jget entry "listen" = JString "127.0.0.1" ∧ jget entry "tag" = JString InboundTag.

Lemma jis_true v s : jis v s = true → v = JString s.
Proof. destruct v; try done. by intros ->%String.eqb_eq. Qed.
Lemma jisb_true v b : jisb v b = true → v = JBool b.
Proof. destruct v; try done. by intros ->%Bool.eqb_prop. Qed.

Lemma check_mihomo_inv doc preset :
  check_mihomo doc preset = None →
  jget doc "bind-address" = JString "127.0.0.1" ∧ jget doc "allow-lan" = JBool false ∧
  nativeInt (jget doc "socks-port") = ll_Port (cp_LocalListener preset) ∧
  jget doc "external-controller" =
    JString (if ca_Enabled (cp_ControlAPI preset) then control_address preset else "").
Proof.
  unfold check_mihomo. cbv zeta.
  match goal with |- context [if ?b then _ else _] => destruct b eqn:Eb; [done|] end.
  rewrite !orb_false_iff, !negb_false_iff, Z.eqb_eq in Eb.
  destruct Eb as ((((H1 & H2) & H3) & _) & _).
  match goal with |- context [jis ?v ?s] => destruct (jis v s) eqn:Ec; [|done] end.
  intros _. split_and!; try done; by (apply jis_true || apply jisb_true).
Qed.

Lemma check_inbound_inv family doc preset :
  check_inbound family doc preset = None →
  ∃ entry, jget doc "inbounds" = JArray [JObject entry] ∧
    jget entry "listen" = JString "127.0.0.1" ∧ jget entry "tag" = JString InboundTag.
Proof.
  unfold check_inbound. destruct (jget doc "inbounds"); try done.
  destruct items as [|x [|]]; try done. simpl. destruct x; try done. simpl.
  destruct (jis (jget fields "listen") _) eqn:E1; [|done].
  destruct (jis (jget fields "tag") _) eqn:E2; [|done]. intros _.
  exists fields. split_and!; [done| |]; by apply jis_true.
Qed.

Lemma publication_inv data target preset :
  CheckPublication decode data target preset = None →
  ∃ doc, decode (t_Format target) data = Some doc ∧ ClientPreset_Validate preset = None ∧
    Z.of_nat (String.length data) ≤ MaxArtifactBytes ∧
    (∀ key, key ∈ doc.*1 → key ∈ allowed_fields (t_CoreFamily target)) ∧
    check_names (t_CoreFamily target) doc = None ∧ LocalOnly target preset doc ∧
    ∀ p key w, occurs (JObject doc) "/artifact" p key w → field_ok p key w = true.
Proof.
  unfold CheckPublication. destruct (publication_path _ _ _ _) eqn:E; [done|]. intros _. revert E.
  unfold publication_path.
  match goal with |- context [if ?b then _ else _] => destruct b eqn:Eb; [done|] end.
  rewrite !orb_false_iff, Z.ltb_ge, bool_decide_eq_false in Eb. destruct Eb as [[_ Hlen] Hpre].
  destruct (decode _ data) as [doc|]; [|done]. cbv zeta.
  destruct (range_err _ doc) eqn:Er; [done|]. destruct (check_names _ doc) eqn:En; [done|].
  match goal with |- context [match ?m with None => walk _ _ | Some e => _ end] =>
    destruct m eqn:Em; [done|] end.
  intros Hw. exists doc. split_and!; try done.
  - destruct (ClientPreset_Validate preset); [|done]. by destruct Hpre.
  - intros key (kv & -> & Hkv)%list_elem_of_fmap. apply list_elem_of_lookup in Hkv as [i Hi].
    rewrite range_err_None in Er. specialize (Er _ _ Hi). simpl in Er. by case_bool_decide.
  - unfold LocalOnly. destruct (_ =s Mihomo); [by apply check_mihomo_inv|by eapply check_inbound_inv].
  - by apply walk_None.
Qed.
End Facts.
