(* ===== verification/QueueFacts.v ===== *)
(** The job queue: what a transaction does to one job and leaves of all others, and the
    invariant of the tables. The states a job moves through, and that the invariant of its
    reservations, results and events moves with it. *)
From S2P Require Import Prelude Diagnostics IRTypes Hashes Json IRValidate Network RunnerProtocol.
From S2P Require Import Jobs Queue.

Section Facts.
Context {P : Platform} {N : Network} {F : Float64} {W : Zones} {L : Payloads} {Business : Type}.
Abbreviation DB := (@DB F Business).
Abbreviation St := (@St F Business).
Abbreviation Tx := (@Tx F Business).

(** ** Weakest preconditions

    [wp e m Q s]: the transaction rolls back, or it ends in a value and a state that
    satisfy [Q]. *)
Definition wp {A} (e : Env) (m : Tx A) (Q : A → St → Prop) (s : St) : Prop :=
  match m e s with Ok (a, s') => Q a s' | Err _ => True end.

Lemma wp_mono {A} e (m : Tx A) (Q R : A → St → Prop) s :
  wp e m Q s → (∀ a s', Q a s' → R a s') → wp e m R s.
Proof. unfold wp. destruct (m e s) as [[]|]; auto. Qed.

Lemma wp_bind {A B} e (m : Tx A) (k : A → Tx B) Q s :
  wp e m (λ a, wp e (k a) Q) s → wp e (m ≫= k) Q s.
Proof. unfold wp, mbind, Tx_bind. by destruct (m e s) as [[]|]. Qed.

Lemma wp_ret {A} e (a : A) (Q : A → St → Prop) s : Q a s → wp e (mret a) Q s.
Proof. done. Qed.
Lemma wp_throw {A} e err (Q : A → St → Prop) s : wp e (throw err) Q s.
Proof. done. Qed.
Lemma wp_throw_if e b err Q s : (b = false → Q () s) → wp e (throw_if b err) Q s.
Proof. destruct b; [done|]. intros H. by apply H. Qed.
Lemma wp_ask e Q s : Q e s → wp e ask Q s.
Proof. done. Qed.
Lemma wp_query {A} e (f : DB → A) (Q : A → St → Prop) s : Q (f (st_db s)) s → wp e (query f) Q s.
Proof. done. Qed.
Lemma wp_row {A} e (o : option A) err (Q : A → St → Prop) s :
  (∀ a, o = Some a → Q a s) → wp e (row o err) Q s.
Proof. destruct o; [|done]. intros H. by apply H. Qed.
Lemma wp_lift {A} e (r : result JobsError A) (Q : A → St → Prop) s :
  (∀ a, r = Ok a → Q a s) → wp e (lift_tx r) Q s.
Proof. destruct r; [|done]. intros H. by apply H. Qed.

(** Reading the clock and drawing an identifier leave the tables alone. *)
Lemma wp_clock e (Q : Z → St → Prop) s :
  (∀ s', st_db s' = st_db s → st_reads s' = S (st_reads s) → Q (clock e (st_reads s)) s') →
  wp e clock_timestamp Q s.
Proof. intros H. by apply H. Qed.
Lemma wp_id e (Q : ID → St → Prop) s :
  (∀ i s', st_db s' = st_db s → st_reads s' = st_reads s → Q i s') → wp e newJobID Q s.
Proof. intros H. by apply H. Qed.
Lemma wp_exec e (f : DB → DB) (Q : unit → St → Prop) s :
  (∀ s', st_db s' = f (st_db s) → st_reads s' = st_reads s → Q () s') → wp e (exec f) Q s.
Proof. intros H. by apply H. Qed.

Lemma wp_if {A} e (b : bool) (m1 m2 : Tx A) Q s :
  (b = true → wp e m1 Q s) → (b = false → wp e m2 Q s) → wp e (if b then m1 else m2) Q s.
Proof. destruct b; auto. Qed.

Lemma run_wp {A} (m : Tx A) e db (Q : A → DB → Prop) :
  (∀ s, st_db s = db → wp e m (λ a s', Q a (st_db s')) s) →
  ∀ a db', run m e db = Ok (a, db') → Q a db'.
Proof.
  intros H a db'. unfold run. specialize (H {| st_db := db; st_reads := 0; st_ids := 0 |} eq_refl).
  unfold wp in H. destruct (m e _) as [[b s']|]; [|done]. intros [= <- <-]. done.
Qed.

(** ** Sums over reservations *)

(** What a reservation adds to the column of the bucket [key]. *)
Definition contrib (g : Reservation → Z) (key : ID * Z) (r : Reservation) : Z :=
  if decide ((qr_ScopeID r, qr_Day r) = key) then g r else 0.
Definition total (g : Reservation → Z) (key : ID * Z) (m : gmap (ID * Z) Reservation) : Z :=
  map_fold (λ _ r acc, contrib g key r + acc) 0 m.

Definition pending_bytes (r : Reservation) : Z :=
  match qr_Settled r with None => qr_Reserved r | Some _ => 0 end.
Definition settled_bytes (r : Reservation) : Z := default 0 (qr_Settled r).

Lemma total_insert g key k r m :
  m !! k = None → total g key (<[k := r]> m) = contrib g key r + total g key m.
Proof.
  intros Hk. unfold total.
  rewrite (map_fold_insert_L (λ _ r acc, contrib g key r + acc) 0 k r m); [done| |done].
  intros. lia.
Qed.

Lemma total_update g key k r0 r m :
  m !! k = Some r0 →
  total g key (<[k := r]> m) = total g key m - contrib g key r0 + contrib g key r.
Proof.
  intros Hk. rewrite <-insert_delete_eq, total_insert by apply lookup_delete_eq.
  rewrite <-(insert_delete_id m k r0 Hk) at 2.
  rewrite total_insert by apply lookup_delete_eq. lia.
Qed.

(** ** The invariant *)

(** The attempt whose reservation is not settled yet: the next one of a queued job, the
    current one of a leased or running job. *)
Definition pending_attempt (r : JobRow) : option Z :=
  if jr_State r =s Queued then Some (jr_Attempt r + 1)
  else if live_state (jr_State r) then Some (jr_Attempt r) else None.

(** A row: the constraints of the table; as many leases as attempts; a queued job is not
    canceled and has an attempt left, of which a download has only one. *)
Record RowInv (id : ID) (r : JobRow) : Prop := {
  ri_id : j_ID r = id;
  ri_checks : job_checks r = true;
  ri_lease : jr_LeaseSeq r = jr_Attempt r;
  ri_queued : jr_State r = Queued →
    jr_CancelAt r = None ∧ jr_Attempt r ≤ 1 ∧
    (j_Type r = DownloadThroughput → jr_Attempt r = 0) }.

(** The reservations of a job: one for each attempt of a network job, unsettled exactly
    where the attempt is pending. *)
Record ResvInv (r : JobRow) (f : Z → option Reservation) : Prop := {
  rv_network : is_network (j_Type r) = false → ∀ a, f a = None;
  rv_some : ∀ a x, f a = Some x →
    1 ≤ a ≤ 2 ∧ qr_ScopeID x = j_ScopeID r ∧
    (qr_Settled x = None ↔ pending_attempt r = Some a) ∧
    (a ≤ jr_Attempt r ∨ pending_attempt r = Some a ∨ Terminal (jr_State r) = true);
  rv_have : is_network (j_Type r) = true →
    ∀ a, 1 ≤ a ≤ jr_Attempt r ∨ pending_attempt r = Some a → is_Some (f a) }.

(** The results of a job: at most one per attempt, of the holder of the lease, none for an
    attempt under way; a job has succeeded exactly when its last attempt says so. *)
Record ResultsInv (r : JobRow) (rs : list ResultRow) : Prop := {
  rl_once : NoDup (rw_Attempt <$> rs);
  rl_range : ∀ w, w ∈ rs → 1 ≤ rw_Attempt w ≤ jr_Attempt r ∧ rw_LeaseSeq w = rw_Attempt w;
  rl_ended : ∀ w, w ∈ rs → rw_Attempt w = jr_Attempt r →
    live_state (jr_State r) = false ∧ jr_WorkerID r = Some (rw_WorkerID w);
  rl_succeeded : jr_State r = Succeeded ↔
    ∃ w, w ∈ rs ∧ rw_Attempt w = jr_Attempt r ∧ rs_State (rw_Result w) = Succeeded;
  rl_success : ∀ w, w ∈ rs → rs_State (rw_Result w) = Succeeded → rw_Attempt w = jr_Attempt r }.

(** The events of a job are numbered without gaps, and none is recorded twice. *)
Record EventsInv (r : JobRow) (es : list EventRow) : Prop := {
  ei_seq : ew_Seq <$> es = seqZ 1 (jr_EventSeq r);
  ei_keys : NoDup ((λ w, (ew_Attempt w, ew_LeaseSeq w, ew_EventID w)) <$> es) }.

Definition JobInv (id : ID) (row : option JobRow) (f : Z → option Reservation)
    (rs : list ResultRow) (es : list EventRow) : Prop :=
  match row with
  | None => (∀ a, f a = None) ∧ rs = [] ∧ es = []
  | Some r => RowInv id r ∧ ResvInv r f ∧ ResultsInv r rs ∧ EventsInv r es
  end.

Definition results_of (id : ID) (db : DB) : list ResultRow :=
  filter (λ w, rw_JobID w = id) (db_results db).
Definition events_of (id : ID) (db : DB) : list EventRow :=
  filter (λ w, ew_JobID w = id) (db_events db).

Definition quota_of (db : DB) (scope : ID) : Quota :=
  match db_settings db !! scope with Some (Some q) => q | _ => DefaultQuota end.

(** The quota accounts, while no daily limit exceeds [limit]: the columns of a bucket are
    the sums over its reservations, and a day's bytes stay within the limit. *)
Context (limit : ID → Z).
Record Accounts (db : DB) : Prop := {
  ac_limit : ∀ scope, qu_DailyDownloadBytes (quota_of db scope) ≤ limit scope;
  ac_sums : ∀ key b, db_buckets db !! key = Some b →
    bu_Reserved b = total pending_bytes key (db_reservations db) ∧
    bu_Settled b = total settled_bytes key (db_reservations db) ∧
    bu_Reserved b + bu_Settled b ≤ limit key.1;
  ac_bucket : ∀ k x, db_reservations db !! k = Some x →
    is_Some (db_buckets db !! (qr_ScopeID x, qr_Day x));
  ac_amount : ∀ k x, db_reservations db !! k = Some x →
    0 < qr_Reserved x ∧ match qr_Settled x with Some s => 0 ≤ s ≤ qr_Reserved x | None => True end }.

Record Inv (db : DB) : Prop := {
  in_accounts : Accounts db;
  in_jobs : ∀ id, JobInv id (db_jobs db !! id) (λ a, db_reservations db !! (id, a))
                    (results_of id db) (events_of id db) }.

(** [At db0 id row f rs es db]: in [db] the job [id] has this row, these reservations,
    results and events; every other job is as in [db0]; the accounts agree. *)
Record At (db0 : DB) (id : ID) (row : option JobRow) (f : Z → option Reservation)
    (rs : list ResultRow) (es : list EventRow) (db : DB) : Prop := {
  at_row : db_jobs db !! id = row;
  at_resv : ∀ a, db_reservations db !! (id, a) = f a;
  at_results : results_of id db = rs;
  at_events : events_of id db = es;
  at_other_row : ∀ id', id' ≠ id → db_jobs db !! id' = db_jobs db0 !! id';
  at_other_resv : ∀ id' a, id' ≠ id → db_reservations db !! (id', a) = db_reservations db0 !! (id', a);
  at_other_results : ∀ id', id' ≠ id → results_of id' db = results_of id' db0;
  at_other_events : ∀ id', id' ≠ id → events_of id' db = events_of id' db0;
  at_settings : db_settings db = db_settings db0;
  at_accounts : Accounts db }.

Lemma ResvInv_ext r f g : (∀ a, f a = g a) → ResvInv r f → ResvInv r g.
Proof. intros E [H1 H2 H3]. split; intros; rewrite <-?E in *; eauto. Qed.

Lemma JobInv_ext id row f g rs es : (∀ a, f a = g a) → JobInv id row f rs es → JobInv id row g rs es.
Proof.
  intros E. destruct row; simpl; [|by setoid_rewrite E]. intros (?&?&?).
  split_and!; [done|by eapply ResvInv_ext|naive_solver..].
Qed.

Lemma At_Inv db0 id row f rs es db :
  Inv db0 → At db0 id row f rs es db → JobInv id row f rs es → Inv db.
Proof.
  intros [_ Hjobs] [H1 H2 H3 H4 H5 H6 H7 H8 H9 H10] HJ. split; [done|]. intros id'.
  destruct (decide (id' = id)) as [->|Hne].
  - rewrite H1, H3, H4. eapply JobInv_ext; [|exact HJ]. done.
  - rewrite H5, H7, H8 by done. eapply JobInv_ext; [|apply Hjobs]. intros a. symmetry. auto.
Qed.

Lemma Inv_At db id :
  Inv db → At db id (db_jobs db !! id) (λ a, db_reservations db !! (id, a)) (results_of id db)
             (events_of id db) db.
Proof. intros H. split; try done. apply H. Qed.

Lemma Inv_At_Some db id r :
  Inv db → db_jobs db !! id = Some r →
  At db id (Some r) (λ a, db_reservations db !! (id, a)) (results_of id db) (events_of id db) db.
Proof. intros H <-. by apply Inv_At. Qed.

Lemma Inv_job db id r :
  Inv db → db_jobs db !! id = Some r →
  RowInv id r ∧ ResvInv r (λ a, db_reservations db !! (id, a)) ∧ ResultsInv r (results_of id db) ∧
  EventsInv r (events_of id db).
Proof. intros H E. pose proof (in_jobs _ H id) as HJ. by rewrite E in HJ. Qed.

(** ** Steps of a transaction on one job *)

Lemma Accounts_ext db db' :
  db_settings db' = db_settings db → db_buckets db' = db_buckets db →
  db_reservations db' = db_reservations db → Accounts db → Accounts db'.
Proof.
  destruct db, db'; simpl. intros -> -> -> [H1 H2 H3 H4]. split; [exact H1|exact H2|exact H3|exact H4].
Qed.

(** ** The accounts under the two quota operations *)

Definition settle (x : Reservation) (n : Z) : Reservation :=
  {| qr_ID := qr_ID x; qr_ScopeID := qr_ScopeID x; qr_Day := qr_Day x; qr_Reserved := qr_Reserved x;
     qr_Settled := Some n |}.
Definition bucket_key (x : Reservation) : ID * Z := (qr_ScopeID x, qr_Day x).

Lemma contrib_key g x : contrib g (bucket_key x) x = g x.
Proof. unfold contrib, bucket_key. by rewrite decide_True. Qed.
Lemma contrib_settle g x n : contrib g (bucket_key x) (settle x n) = g (settle x n).
Proof. exact (contrib_key g (settle x n)). Qed.
Lemma contrib_other g key x : key ≠ bucket_key x → contrib g key x = 0.
Proof. intros H. unfold contrib. rewrite decide_False; [done|]. intros E. by apply H. Qed.

Lemma Accounts_settle db k x b n :
  Accounts db → db_reservations db !! k = Some x → qr_Settled x = None →
  db_buckets db !! bucket_key x = Some b → 0 ≤ n ≤ qr_Reserved x →
  Accounts (with_reservations
    (with_buckets db (<[bucket_key x :=
       {| bu_Reserved := bu_Reserved b - qr_Reserved x; bu_Settled := bu_Settled b + n |}]> (db_buckets db)))
    (<[k := settle x n]> (db_reservations db))).
Proof.
  intros [H1 H2 H3 H4] Hk Hx Hb Hn. split; simpl; [exact H1|..].
  - intros key b' Hb'. rewrite !(total_update _ _ _ _ _ _ Hk).
    destruct (decide (key = bucket_key x)) as [->|Hne].
    + rewrite lookup_insert_eq in Hb'. injection Hb' as <-. simpl.
      destruct (H2 _ _ Hb) as (E1 & E2 & E3).
      rewrite (contrib_key _ x), (contrib_key settled_bytes x).
      rewrite !contrib_settle. unfold pending_bytes at 2 3, settled_bytes at 2 3. rewrite Hx.
      simpl in *. lia.
    + rewrite lookup_insert_ne in Hb' by done.
      rewrite !(contrib_other _ key x) by done. rewrite !(contrib_other _ key (settle x n)) by done.
      destruct (H2 _ _ Hb') as (E1 & E2 & E3). lia.
  - intros k' y Hy. assert (is_Some (db_buckets db !! bucket_key y)) as [b' Hb'].
    { destruct (decide (k' = k)) as [->|Hne].
      - rewrite lookup_insert_eq in Hy. injection Hy as <-. by eexists.
      - rewrite lookup_insert_ne in Hy by done. by eapply H3. }
    unfold bucket_key in Hb'. rewrite lookup_insert. case_decide; by eexists.
  - intros k' y Hy. destruct (decide (k' = k)) as [->|Hne].
    + rewrite lookup_insert_eq in Hy. injection Hy as <-. simpl. destruct (H4 _ _ Hk). lia.
    + rewrite lookup_insert_ne in Hy by done. by eapply H4.
Qed.

Lemma Accounts_reserve db k x b :
  Accounts db → db_reservations db !! k = None → qr_Settled x = None → 0 < qr_Reserved x →
  db_buckets db !! bucket_key x = Some b →
  bu_Reserved b + qr_Reserved x + bu_Settled b ≤ limit (qr_ScopeID x) →
  Accounts (with_reservations
    (with_buckets db (<[bucket_key x :=
       {| bu_Reserved := bu_Reserved b + qr_Reserved x; bu_Settled := bu_Settled b |}]> (db_buckets db)))
    (<[k := x]> (db_reservations db))).
Proof.
  intros [H1 H2 H3 H4] Hk Hx Hpos Hb Hlim. split; simpl; [exact H1|..].
  - intros key b' Hb'. rewrite !(total_insert _ _ _ _ _ Hk).
    destruct (decide (key = bucket_key x)) as [->|Hne].
    + rewrite lookup_insert_eq in Hb'. injection Hb' as <-. simpl.
      destruct (H2 _ _ Hb) as (E1 & E2 & E3).
      rewrite !contrib_key. unfold pending_bytes at 1, settled_bytes at 1. rewrite Hx. simpl in *. lia.
    + rewrite lookup_insert_ne in Hb' by done.
      rewrite !(contrib_other _ key x) by done. destruct (H2 _ _ Hb') as (E1 & E2 & E3). lia.
  - intros k' y Hy. rewrite lookup_insert. case_decide; [by eexists|].
    destruct (decide (k' = k)) as [->|Hne].
    + rewrite lookup_insert_eq in Hy. injection Hy as <-. done.
    + rewrite lookup_insert_ne in Hy by done. by eapply H3.
  - intros k' y Hy. destruct (decide (k' = k)) as [->|Hne].
    + rewrite lookup_insert_eq in Hy. injection Hy as <-. by rewrite Hx.
    + rewrite lookup_insert_ne in Hy by done. by eapply H4.
Qed.

(** A bucket that no reservation is in holds nothing. *)
Lemma total_absent g key m :
  (∀ k x, m !! k = Some x → bucket_key x ≠ key) → total g key m = 0.
Proof.
  induction m as [|k x m Hk IH] using map_ind; intros H; [done|].
  rewrite total_insert by done. rewrite IH.
  - rewrite contrib_other; [done|]. intros ->. by eapply (H k); [apply lookup_insert_eq|].
  - intros k' y Hy. apply (H k'). rewrite lookup_insert_ne; [done|]. congruence.
Qed.

Lemma Accounts_open db key :
  Accounts db → 0 ≤ limit key.1 → Accounts (open_bucket key db).
Proof.
  intros HA Hlim. unfold open_bucket. destruct (db_buckets db !! key) eqn:E; [done|].
  destruct HA as [H1 H2 H3 H4]. split; simpl; [exact H1| |..|exact H4].
  - intros key' b Hb. destruct (decide (key' = key)) as [->|Hne].
    + rewrite lookup_insert_eq in Hb. injection Hb as <-. simpl.
      rewrite !total_absent; [split_and!; [done..|lia]|..];
        intros k x Hx <-; destruct (H3 _ _ Hx); unfold bucket_key in *; congruence.
    + rewrite lookup_insert_ne in Hb by done. by apply H2.
  - intros k x Hx. rewrite lookup_insert. case_decide; [by eexists|]. by eapply H3.
Qed.

Section Steps.
Context (db0 : DB) (e : Env).
Notation at_job := (At db0).

Lemma wp_update_job r id row f rs es (Q : unit → St → Prop) s :
  at_job id row f rs es (st_db s) → j_ID r = id →
  (job_checks r = true → ∀ s', st_reads s' = st_reads s →
     at_job id (Some r) f rs es (st_db s') → Q () s') →
  wp e (update_job r) Q s.
Proof.
  intros HA Hid HQ. unfold update_job. apply wp_bind, wp_throw_if. rewrite negb_false_iff. intros Hc.
  apply wp_exec. intros s' Hs' Hr. apply HQ; [done..|]. rewrite Hs', Hid.
  destruct HA as [H1 H2 H3 H4 H5 H6 H7 H8 H9 H10].
  split; try done; simpl.
  - by rewrite lookup_insert_eq.
  - intros id' Hne. rewrite lookup_insert_ne by done. auto.
  - by eapply Accounts_ext; [..|exact H10].
Qed.

(** Whether the event was recorded for this attempt and lease. *)
Definition recorded (job : JobRow) (event : ID) (es : list EventRow) : bool :=
  existsb (same_event (j_ID job) (jr_Attempt job) (jr_LeaseSeq job) event) es.

(** [appendJobEvent] advances the sequence of the job and records the event under it. *)
Lemma wp_append job input id r f rs es (Q : EventReceipt → St → Prop) s :
  at_job id (Some r) f rs es (st_db s) → j_ID job = id → j_ID r = id →
  (∀ receipt w s', (st_reads s ≤ st_reads s')%nat →
     ew_JobID w = id → ew_Seq w = jr_EventSeq r + 1 → ew_Attempt w = jr_Attempt job →
     ew_LeaseSeq w = jr_LeaseSeq job → recorded job (ew_EventID w) es = false →
     job_checks (with_event_seq r (jr_EventSeq r + 1)) = true →
     at_job id (Some (with_event_seq r (jr_EventSeq r + 1))) f rs (es ++ [w]) (st_db s') →
     Q receipt s') →
  wp e (appendJobEvent job input) Q s.
Proof.
  intros HA Hid Hr HQ. unfold appendJobEvent. apply wp_bind, wp_lift. intros clean _.
  apply wp_bind, wp_query, wp_bind, wp_row. intros current Hcur. rewrite Hid in *.
  rewrite (at_row _ _ _ _ _ _ _ HA) in Hcur. injection Hcur as <-.
  apply wp_bind. eapply wp_update_job; [exact HA|exact Hr|]. intros Hchecks s1 Hs1 HA1.
  apply wp_bind, wp_query, wp_bind, wp_throw_if. intros Hnew.
  apply wp_bind, wp_clock. intros s2 Hs2 Hr2. apply wp_bind, wp_exec. intros s3 Hs3 Hr3.
  apply wp_ret. rewrite Hs2 in Hs3.
  assert (∀ w, ew_JobID w = id → at_job id (Some (with_event_seq r (jr_EventSeq r + 1))) f rs (es ++ [w])
    (with_events (st_db s1) (db_events (st_db s1) ++ [w]))) as HA3.
  { intros w Hw. destruct HA1 as [H1 H2 H3 H4 H5 H6 H7 H8 H9 H10]. split; try done.
    - unfold events_of in *. simpl. by rewrite filter_app, H4, filter_cons_True.
    - intros id' Hne. unfold events_of in *. simpl.
      rewrite filter_app, filter_cons_False, app_nil_r by (simpl; congruence). auto.
    - by eapply Accounts_ext; [..|exact H10]. }
  eapply HQ; [lia| |..]; last (rewrite Hs3; apply HA3; done); try done.
  unfold recorded. simpl. rewrite Hid. apply not_true_iff_false. intros Hin.
  apply not_true_iff_false in Hnew. apply Hnew, existsb_exists.
  apply existsb_exists in Hin as (w & Hin & Hw). exists w. split; [|exact Hw].
  rewrite <-(at_events _ _ _ _ _ _ _ HA1) in Hin. apply list_elem_of_In.
  by apply list_elem_of_In, list_elem_of_filter in Hin as [_ Hin].
Qed.

Lemma EventsInv_append r job es w :
  EventsInv r es → 0 ≤ jr_EventSeq r →
  ew_Seq w = jr_EventSeq r + 1 → ew_JobID w = j_ID job → ew_Attempt w = jr_Attempt job →
  ew_LeaseSeq w = jr_LeaseSeq job → (∀ x, x ∈ es → ew_JobID x = j_ID job) →
  recorded job (ew_EventID w) es = false → EventsInv (with_event_seq r (jr_EventSeq r + 1)) (es ++ [w]).
Proof.
  intros [H1 H2] Hn Hseq Hid Ha Hl Hes Hnew. split; simpl.
  - rewrite fmap_app, H1. simpl. rewrite Hseq.
    rewrite seqZ_app by lia. f_equal. unfold seqZ. simpl. f_equal. lia.
  - rewrite fmap_app. apply NoDup_app. split_and!; [done| |apply NoDup_singleton].
    intros k (x & -> & Hx)%list_elem_of_fmap [=E1 E2 E3]%list_elem_of_singleton.
    apply not_true_iff_false in Hnew. apply Hnew, existsb_exists. exists x.
    rewrite <-list_elem_of_In. split; [done|]. unfold same_event.
    by rewrite Hes, E1, E2, E3, Ha, Hl, !Z.eqb_refl, !String.eqb_refl by done.
Qed.

(** ** Quota operations of a transaction *)

Definition upd (f : Z → option Reservation) (a : Z) (x : Reservation) : Z → option Reservation :=
  λ b, if decide (b = a) then Some x else f b.

(** What [settleAttempt] does to the reservations of a job. *)
Definition settles (network : bool) (f : Z → option Reservation) (a : Z)
    (f' : Z → option Reservation) : Prop :=
  if network then
    ∃ x, f a = Some x ∧
    match qr_Settled x with
    | Some _ => f' = f
    | None => ∃ n, 0 ≤ n ≤ qr_Reserved x ∧ f' = upd f a (settle x n)
    end
  else f' = f.

Lemma wp_settle job a usage id row f rs es (Q : Z → St → Prop) s :
  at_job id row f rs es (st_db s) → j_ID job = id →
  (∀ n f' s', st_reads s' = st_reads s → settles (is_network (j_Type job)) f a f' → 0 ≤ n →
     at_job id row f' rs es (st_db s') → Q n s') →
  wp e (settleAttempt job a usage) Q s.
Proof.
  intros HA Hid HQ. unfold settleAttempt. apply wp_if; intros Hnet.
  { rewrite negb_true_iff in Hnet. apply wp_ret. eapply HQ; [done| |done|exact HA]. by rewrite Hnet. }
  rewrite negb_false_iff in Hnet. apply wp_bind, wp_query, wp_bind, wp_row. intros x Hx.
  rewrite Hid in *. pose proof (at_accounts _ _ _ _ _ _ _ HA) as HAc.
  destruct (ac_amount _ HAc _ _ Hx) as [Hpos Hs]. rewrite (at_resv _ _ _ _ _ _ _ HA) in Hx.
  destruct (qr_Settled x) as [n|] eqn:Ex.
  { apply wp_ret. eapply HQ; [done| |lia|exact HA]. rewrite Hnet. exists x. by rewrite Ex. }
  apply wp_bind, wp_throw_if. intros Hu.
  set (n := default (qr_Reserved x) usage).
  assert (0 ≤ n ≤ qr_Reserved x) as Hn by (unfold n; destruct usage; simpl in *; lia).
  apply wp_bind, wp_query.
  assert (db_reservations (st_db s) !! (id, a) = Some x) as Hx'.
  { by rewrite (at_resv _ _ _ _ _ _ _ HA). }
  destruct (ac_bucket _ HAc _ _ Hx') as [b Hb]. rewrite Hb.
  apply wp_bind, wp_bind, wp_throw_if. intros _. apply wp_exec. intros s1 Hs1 Hr1.
  apply wp_bind, wp_exec. intros s2 Hs2 Hr2. apply wp_ret. rewrite Hs1 in Hs2. simpl in Hs2.
  eapply (HQ n (upd f a (settle x n))); [congruence| |lia|].
  { rewrite Hnet. exists x. rewrite Ex. eauto. }
  rewrite Hs2. pose proof (Accounts_settle _ _ _ _ n HAc Hx' Ex Hb Hn) as HAc'.
  destruct HA as [H1 H2 H3 H4 H5 H6 H7 H8 H9 H10]. split; try done; simpl.
  - intros a'. unfold upd. rewrite lookup_insert.
    destruct (decide (a' = a)) as [->|]; [by rewrite decide_True|].
    rewrite decide_False; [apply H2|congruence].
  - intros id' a' Hne. rewrite lookup_insert_ne by congruence. auto.
Qed.

(** What [reserveAttempt] does: an old reservation of the same amount, or a new one. *)
Definition reserves (scope : ID) (f : Z → option Reservation) (a maximum : Z)
    (f' : Z → option Reservation) : Prop :=
  (∃ x, f a = Some x ∧ qr_Reserved x = maximum ∧ f' = f) ∨
  (f a = None ∧ 1 ≤ a ≤ 2 ∧ ∃ x, qr_ScopeID x = scope ∧ qr_Settled x = None ∧
     qr_Reserved x = maximum ∧ f' = upd f a x).

Lemma Quota_Valid_daily q : Quota_Valid q = true → 0 < qu_DailyDownloadBytes q.
Proof. unfold Quota_Valid. rewrite !andb_true_iff. intros. lia. Qed.

Lemma wp_quota scope (Q : Quota → St → Prop) s :
  (0 < qu_DailyDownloadBytes (quota_of (st_db s) scope) → Q (quota_of (st_db s) scope) s) →
  wp e (readQuota scope) Q s.
Proof.
  intros HQ. unfold readQuota. apply wp_bind, wp_query. unfold quota_of in HQ.
  destruct (db_settings (st_db s) !! scope) as [[q|]|]; [| |by apply HQ].
  - apply wp_bind, wp_throw_if. rewrite negb_false_iff. intros Hv. by apply HQ, Quota_Valid_daily.
  - apply wp_throw.
Qed.

Lemma wp_reserve job a maximum id row f rs es (Q : option ID → St → Prop) s :
  at_job id row f rs es (st_db s) → j_ID job = id →
  (is_network (j_Type job) = true → ∀ s', (st_reads s ≤ st_reads s')%nat →
     at_job id row f rs es (st_db s') → Q None s') →
  (is_network (j_Type job) = true → ∀ i f' s', (st_reads s ≤ st_reads s')%nat →
     reserves (j_ScopeID job) f a maximum f' → at_job id row f' rs es (st_db s') → Q (Some i) s') →
  wp e (reserveAttempt job a maximum) Q s.
Proof.
  intros HA Hid HNone HSome. unfold reserveAttempt. apply wp_bind, wp_throw_if. intros Hg.
  rewrite !orb_false_iff, negb_false_iff in Hg. destruct Hg as [[[[Hnet Ha1] Ha2] Hm1] _].
  specialize (HNone Hnet). specialize (HSome Hnet). rewrite Hid in *.
  apply wp_bind, wp_query. rewrite (at_resv _ _ _ _ _ _ _ HA).
  destruct (f a) as [x|] eqn:Hx.
  { apply wp_bind, wp_throw_if. rewrite negb_false_iff. intros Hr. apply wp_ret.
    eapply HSome; [done| |exact HA]. left. exists x. split_and!; [done|lia|done]. }
  apply wp_bind, wp_quota. intros Hdaily. apply wp_if; intros Hmax.
  { apply wp_ret. by apply HNone. }
  pose proof (at_accounts _ _ _ _ _ _ _ HA) as HAc.
  apply wp_bind, wp_clock. intros s1 Hs1 Hr1. set (day := _ / microseconds_per_day).
  pose proof (ac_limit _ HAc (j_ScopeID job)) as Hlim.
  apply wp_bind, wp_exec. intros s2 Hs2 Hr2. rewrite Hs1 in Hs2.
  assert (Accounts (st_db s2)) as HAc2.
  { rewrite Hs2. apply Accounts_open; [done|]. simpl. lia. }
  assert (at_job id row f rs es (st_db s2)) as HA2.
  { rewrite Hs2 in *. destruct HA as [H1 H2 H3 H4 H5 H6 H7 H8 H9 H10]. unfold open_bucket in *.
    by split; destruct (db_buckets _ !! _). }
  apply wp_bind, wp_query, wp_bind, wp_row. intros b Hb. apply wp_if; intros Hadm.
  { apply wp_ret, HNone; [lia|done]. }
  rewrite negb_false_iff in Hadm. unfold bucket_admits in Hadm. rewrite !andb_true_iff in Hadm.
  apply wp_bind, wp_exec. intros s3 Hs3 Hr3. apply wp_bind, wp_id. intros i s4 Hs4 Hr4.
  apply wp_bind, wp_exec. intros s5 Hs5 Hr5. apply wp_ret. rewrite Hs4, Hs3 in Hs5. simpl in Hs5.
  set (x := {| qr_ID := i; qr_ScopeID := _; qr_Day := _; qr_Reserved := _; qr_Settled := _ |}) in Hs5.
  eapply (HSome i (upd f a x)); [lia| |].
  { right. split_and!; [done|lia|lia|]. by exists x. }
  assert (db_reservations (st_db s2) !! (id, a) = None) as Hfresh
    by by rewrite (at_resv _ _ _ _ _ _ _ HA2).
  assert (quota_of (st_db s2) (j_ScopeID job) = quota_of (st_db s) (j_ScopeID job)) as Eq.
  { unfold quota_of. rewrite (at_settings _ _ _ _ _ _ _ HA2), (at_settings _ _ _ _ _ _ _ HA). done. }
  assert (HAc5 := Accounts_reserve (st_db s2) (id, a) x b HAc2 Hfresh eq_refl ltac:(simpl; lia) Hb
                    ltac:(simpl; lia)).
  rewrite Hs5. destruct HA2 as [H1 H2 H3 H4 H5 H6 H7 H8 H9 H10]. split; try done; simpl.
  - intros a'. unfold upd. rewrite lookup_insert.
    destruct (decide (a' = a)) as [->|]; [by rewrite decide_True|].
    rewrite decide_False; [apply H2|congruence].
  - intros id' a' Hne. rewrite lookup_insert_ne by congruence. auto.
Qed.

Lemma wp_retry job id row f rs es (Q : bool → St → Prop) s :
  at_job id row f rs es (st_db s) → j_ID job = id →
  (∀ s', (st_reads s ≤ st_reads s')%nat → at_job id row f rs es (st_db s') → Q false s') →
  (∀ maximum f' s', (st_reads s ≤ st_reads s')%nat →
     reserves (j_ScopeID job) f (jr_Attempt job + 1) maximum f' →
     at_job id row f' rs es (st_db s') → Q true s') →
  wp e (reserveRetry job) Q s.
Proof.
  intros HA Hid HF HT. unfold reserveRetry. apply wp_bind, wp_query, wp_bind, wp_row. intros x Hx.
  apply wp_bind. eapply wp_reserve; [exact HA|done|..].
  - intros _ s' Hr HA'. apply wp_ret. rewrite bool_decide_false by (intros [? [=]]). by apply HF.
  - intros _ i f' s' Hr Hres HA'. apply wp_ret. rewrite bool_decide_true by done. by eapply HT.
Qed.
End Steps.
End Facts.

(** ** The automaton of a job

    Its states are the state and the attempt of the row. *)
Definition phase (r : JobRow) : string * Z := (jr_State r, jr_Attempt r).

Inductive moves : string * Z → string * Z → Prop :=
| move_stay p : moves p p
| move_lease n : moves (Queued, n) (Leased, n + 1)
| move_run n : moves (Leased, n) (Running, n)
| move_cancel n : moves (Queued, n) (Canceled, n)
| move_end s t n : live_state s = true → Terminal t = true → moves (s, n) (t, n)
| move_retry s n : live_state s = true → n ≤ 1 → moves (s, n) (Queued, n).

(** What a transaction may do to a row: its head stays, its phase moves, a request for
    cancellation stays, and a row in a terminal state stays as it is. *)
Record advance (r r' : JobRow) : Prop := {
  av_head : jr_Head r' = jr_Head r;
  av_moves : moves (phase r) (phase r');
  av_final : Terminal (jr_State r) = true → r' = r;
  av_cancel : is_Some (jr_CancelAt r) → is_Some (jr_CancelAt r') }.

Lemma advance_refl r : advance r r.
Proof. by split; [|constructor|..]. Qed.

Lemma live_not_terminal s : live_state s = true → Terminal s = false.
Proof. unfold live_state. rewrite orb_true_iff, !String.eqb_eq. by intros [->| ->]. Qed.
Lemma terminal_not_live s : Terminal s = true → live_state s = false ∧ (s =s Queued) = false.
Proof.
  unfold Terminal. rewrite !orb_true_iff, !String.eqb_eq. by intros [[[->| ->]| ->]| ->].
Qed.
Lemma live_not_queued s : live_state s = true → (s =s Queued) = false.
Proof. unfold live_state. rewrite orb_true_iff, !String.eqb_eq. by intros [->| ->]. Qed.

Section Moves.
Context {P : Platform} {N : Network} {F : Float64} {W : Zones} {L : Payloads} {Business : Type}.

Lemma pending_live r : live_state (jr_State r) = true → pending_attempt r = Some (jr_Attempt r).
Proof. intros H. unfold pending_attempt. by rewrite (live_not_queued _ H), H. Qed.
Lemma pending_queued r : jr_State r = Queued → pending_attempt r = Some (jr_Attempt r + 1).
Proof. intros H. unfold pending_attempt. by rewrite H. Qed.
Lemma pending_terminal r : Terminal (jr_State r) = true → pending_attempt r = None.
Proof.
  intros H. unfold pending_attempt. by destruct (terminal_not_live _ H) as [-> ->].
Qed.
Lemma pending_not_terminal r a : pending_attempt r = Some a → Terminal (jr_State r) = false.
Proof.
  intros H. destruct (Terminal (jr_State r)) eqn:E; [|done]. by rewrite (pending_terminal _ E) in H.
Qed.

(** ** Reservations *)

(** A move that leaves the pending attempt alone. *)
Lemma ResvInv_same r r' f :
  ResvInv r f → jr_Head r' = jr_Head r → pending_attempt r' = pending_attempt r →
  jr_Attempt r ≤ jr_Attempt r' → (jr_Attempt r < jr_Attempt r' → pending_attempt r' = Some (jr_Attempt r')) →
  jr_Attempt r' ≤ jr_Attempt r + 1 →
  Terminal (jr_State r') = Terminal (jr_State r) → ResvInv r' f.
Proof.
  intros [H1 H2 H3] Eh Ep Ea Ea' Ea'' Et. unfold j_Type, j_ScopeID in *. split; unfold j_Type, j_ScopeID.
  - by rewrite Eh.
  - intros a x Hx. rewrite Eh, Ep, Et. destruct (H2 _ _ Hx) as (?&?&?&[?|?]);
      (split_and!; [lia..|done|done|]); [left; lia|by right].
  - rewrite Eh, Ep. intros Hn a [Ha|Ha]; [|by apply H3; [|right]].
    destruct (decide (a = jr_Attempt r')) as [->|].
    + destruct (decide (jr_Attempt r < jr_Attempt r')) as [Hlt|].
      * apply H3; [done|]. right. rewrite <-Ep. auto.
      * apply H3; [done|left; lia].
    + apply H3; [done|left; lia].
Qed.

(** An attempt that ends settles what is pending. *)
Lemma ResvInv_end r r' f f' a :
  ResvInv r f → pending_attempt r = Some a → settles (is_network (j_Type r)) f a f' →
  jr_Head r' = jr_Head r → jr_Attempt r' = jr_Attempt r → Terminal (jr_State r') = true →
  ResvInv r' f'.
Proof.
  intros HR Hp Hs Eh Ea Ht. pose proof (pending_terminal _ Ht) as Ep. unfold settles in Hs.
  destruct HR as [H1 H2 H3]. unfold j_Type, j_ScopeID in *.
  destruct (is_network (jh_Type (jr_Head r))) eqn:Hnet.
  - destruct Hs as (x & Hx & Hs). destruct (H2 _ _ Hx) as (Hr & Hsc & Hset & _).
    destruct (qr_Settled x) as [v|]; [naive_solver|]. destruct Hs as (n & Hn & ->).
    split; unfold j_Type, j_ScopeID, upd; rewrite ?Eh, ?Ep, ?Ht; [congruence|..].
    + intros b y. destruct (decide (b = a)) as [->|Hne].
      * intros [= <-]. split_and!; [lia..|done| |by right; right]. by split.
      * intros Hy. destruct (H2 _ _ Hy) as (?&?&Hy'&_). split_and!; [lia..|done| |by right; right].
        rewrite Hy', Hp. split; congruence.
    + intros _ b [Hb|]; [|done]. destruct (decide (b = a)); [by eexists|]. apply H3; [done|left; lia].
  - subst f'. split; unfold j_Type, j_ScopeID; rewrite ?Eh; [auto| |congruence].
    intros b y. by rewrite H1.
Qed.

(** A retry settles the attempt that ended and reserves for the next one. *)
Lemma ResvInv_retry r r' f f1 f2 maximum :
  ResvInv r f → live_state (jr_State r) = true → jr_State r' = Queued →
  settles (is_network (j_Type r)) f (jr_Attempt r) f1 →
  (if is_network (j_Type r)
   then reserves (j_ScopeID r) f1 (jr_Attempt r + 1) maximum f2 else f2 = f1) →
  jr_Head r' = jr_Head r → jr_Attempt r' = jr_Attempt r → ResvInv r' f2.
Proof.
  intros HR Hl Hq Hs Hr Eh Ea. pose proof (pending_queued _ Hq) as Ep. rewrite Ea in Ep.
  pose proof (pending_live _ Hl) as Ep0. unfold settles in Hs.
  destruct HR as [H1 H2 H3]. unfold j_Type, j_ScopeID in *.
  destruct (is_network (jh_Type (jr_Head r))) eqn:Hnet.
  - destruct Hs as (x & Hx & Hs). destruct (H2 _ _ Hx) as (Hb & Hsc & Hset & _).
    destruct (qr_Settled x) as [v|]; [naive_solver|]. destruct Hs as (n & Hn & ->).
    assert (f (jr_Attempt r + 1) = None) as Hfresh.
    { destruct (f (jr_Attempt r + 1)) as [y|] eqn:Hy; [|done].
      destruct (H2 _ _ Hy) as (_ & _ & _ & Hc). rewrite Ep0, (live_not_terminal _ Hl) in Hc.
      destruct Hc as [?|[[=]|?]]; [lia|lia|done]. }
    destruct Hr as [(y & Hy & _)|(_ & Hrange & y & Hysc & Hyset & _ & ->)].
    { unfold upd in Hy. rewrite decide_False in Hy by lia. congruence. }
    split; unfold j_Type, j_ScopeID, upd; rewrite ?Eh, ?Ea, ?Ep; [congruence|..].
    + intros b z. destruct (decide (b = jr_Attempt r + 1)) as [->|Hne].
      * intros [= <-]. split_and!; [lia..|done|done|by right; left].
      * destruct (decide (b = jr_Attempt r)) as [->|Hne'].
        -- intros [= <-]. simpl. split_and!; [lia..|done| |left; lia]. split; [done|]. intros [=]. lia.
        -- intros Hz. destruct (H2 _ _ Hz) as (Hr & Hzs & Hz' & Hc).
           rewrite Ep0, (live_not_terminal _ Hl) in *. split_and!; [lia..|done| |].
           ++ rewrite Hz'. split; intros [=]; lia.
           ++ destruct Hc as [?|[[=]|?]]; [left; lia|lia|done].
    + intros _ b Hb'. destruct (decide (b = jr_Attempt r + 1)); [by eexists|].
      destruct (decide (b = jr_Attempt r)); [by eexists|]. apply H3; [done|].
      destruct Hb' as [?|[=]]; [left; lia|lia].
  - subst f2 f1. split; unfold j_Type, j_ScopeID; rewrite ?Eh; [auto| |congruence].
    intros b y. by rewrite H1.
Qed.

(** ** Results *)

(** A move within an attempt that adds no result. *)
Lemma ResultsInv_same r r' rs :
  ResultsInv r rs → jr_Attempt r' = jr_Attempt r → jr_WorkerID r' = jr_WorkerID r →
  (live_state (jr_State r') = true → live_state (jr_State r) = true) →
  (jr_State r' = Succeeded ↔ jr_State r = Succeeded) → ResultsInv r' rs.
Proof.
  intros [H1 H2 H3 H4 H5] Ea Ew Hl Hs. split; rewrite ?Ea, ?Ew; [done|done| |by rewrite Hs|done].
  intros w Hw E. destruct (H3 w Hw E) as [Hlive ?]. split; [|done].
  destruct (live_state (jr_State r')) eqn:E'; [|done]. by rewrite Hl in Hlive.
Qed.

(** A lease starts an attempt without results. *)
Lemma ResultsInv_lease r r' rs :
  ResultsInv r rs → jr_State r = Queued → jr_State r' = Leased →
  jr_Attempt r' = jr_Attempt r + 1 → ResultsInv r' rs.
Proof.
  intros [H1 H2 H3 H4 H5] Eq El Ea.
  assert (∀ w, w ∈ rs → rs_State (rw_Result w) ≠ Succeeded) as Hnone.
  { intros w Hw Hs. rewrite Eq in H4. destruct H4 as [_ H4].
    assert (Queued = Succeeded) by (apply H4; exists w; eauto). done. }
  split; rewrite ?Ea, ?El; [done|..].
  - intros w Hw. destruct (H2 w Hw). lia.
  - intros w Hw E. destruct (H2 w Hw). lia.
  - split; [done|]. intros (w & Hw & _ & Hs). by destruct (Hnone w Hw).
  - intros w Hw Hs. by destruct (Hnone w Hw).
Qed.

(** A result of the lease's holder ends the attempt. *)
Lemma ResultsInv_add r r' rs w :
  ResultsInv r rs → live_state (jr_State r) = true → live_state (jr_State r') = false →
  jr_Attempt r' = jr_Attempt r → jr_WorkerID r' = jr_WorkerID r → 1 ≤ jr_Attempt r →
  rw_Attempt w = jr_Attempt r → rw_LeaseSeq w = jr_Attempt r → jr_WorkerID r = Some (rw_WorkerID w) →
  (jr_State r' = Succeeded ↔ rs_State (rw_Result w) = Succeeded) → ResultsInv r' (rs ++ [w]).
Proof.
  intros [H1 H2 H3 H4 H5] Hl Hl' Ea Ew Hpos Hwa Hwl Hww Hs.
  assert (∀ v, v ∈ rs → rw_Attempt v < jr_Attempt r) as Hold.
  { intros v Hv. destruct (H2 v Hv) as [Hr _].
    destruct (decide (rw_Attempt v = jr_Attempt r)) as [E|]; [|lia].
    destruct (H3 v Hv E). congruence. }
  assert (∀ v, v ∈ rs → rs_State (rw_Result v) ≠ Succeeded) as Hnone.
  { intros v Hv Hsv. pose proof (H5 v Hv Hsv). specialize (Hold v Hv). lia. }
  split; rewrite ?Ea, ?Ew.
  - rewrite fmap_app. apply NoDup_app. split_and!; [done| |apply NoDup_singleton].
    intros a (v & -> & Hv)%list_elem_of_fmap E%list_elem_of_singleton.
    specialize (Hold v Hv). lia.
  - intros v [Hv| ->%list_elem_of_singleton]%elem_of_app; [auto|]. lia.
  - intros v [Hv| ->%list_elem_of_singleton]%elem_of_app E; [|done]. specialize (Hold v Hv). lia.
  - rewrite Hs. split.
    + intros Hsw. exists w. split; [set_solver|done].
    + intros (v & [Hv| ->%list_elem_of_singleton]%elem_of_app & _ & Hsv); [|done].
      by destruct (Hnone v Hv).
  - intros v [Hv| ->%list_elem_of_singleton]%elem_of_app Hsv; [|done]. by destruct (Hnone v Hv).
Qed.

(** ** Whole tables

    [Touched X db db']: every job outside [X] is as it was, those in [X] advance, no
    result or event is lost, and the invariant holds. *)
Context (limit : ID → Z).
Abbreviation DB := (@DB F Business).

Record Touched (X : ID → Prop) (db db' : DB) : Prop := {
  tc_inv : Inv limit db';
  tc_row : ∀ id, ¬ X id → db_jobs db' !! id = db_jobs db !! id;
  tc_resv : ∀ id a, ¬ X id → db_reservations db' !! (id, a) = db_reservations db !! (id, a);
  tc_advance : ∀ id r, db_jobs db !! id = Some r → ∃ r', db_jobs db' !! id = Some r' ∧ advance r r';
  tc_results : ∀ id, results_of id db `prefix_of` results_of id db';
  tc_results_same : ∀ id, ¬ X id → results_of id db' = results_of id db;
  tc_events : ∀ id, events_of id db `prefix_of` events_of id db';
  tc_events_same : ∀ id, ¬ X id → events_of id db' = events_of id db;
  tc_settings : db_settings db' = db_settings db }.

Lemma Touched_refl X db : Inv limit db → Touched X db db.
Proof. intros H. split; try done. intros id r E. exists r. split; [done|apply advance_refl]. Qed.

(** Tables that hold nothing of a job. *)
Lemma Touched_other X db db' :
  Inv limit db → db_jobs db' = db_jobs db → db_reservations db' = db_reservations db →
  db_results db' = db_results db → db_events db' = db_events db → db_settings db' = db_settings db →
  db_buckets db' = db_buckets db → Touched X db db'.
Proof.
  intros [HA HJ] E1 E2 E3 E4 E5 E6. unfold results_of, events_of in *.
  split; unfold results_of, events_of; rewrite ?E1, ?E2, ?E3, ?E4; try done.
  - split; [by eapply Accounts_ext|]. intros id. unfold results_of, events_of.
    rewrite E1, E3, E4. eapply JobInv_ext; [|apply HJ]. intros a. simpl. by rewrite E2.
  - intros id r E. exists r. split; [done|apply advance_refl].
Qed.

Lemma Touched_mono (X Y : ID → Prop) db db' :
  (∀ id, X id → Y id) → Touched X db db' → Touched Y db db'.
Proof. intros HXY [H1 H2 H3 H4 H5 H6 H7 H8 H9]. split; try done; intros; eauto. Qed.

(** Two transactions that change no job both; they may both leave a job absent. *)
Lemma Touched_trans_new (X Y : ID → Prop) db db1 db2 :
  Touched X db db1 → Touched Y db1 db2 → (∀ id, X id → Y id → db_jobs db !! id = None) →
  Touched (λ id, X id ∨ Y id) db db2.
Proof.
  intros [H1 H2 H3 H4 H5 H6 H7 H8 H9] [K1 K2 K3 K4 K5 K6 K7 K8 K9] HXY. split.
  - done.
  - intros id Hn. rewrite K2, H2 by tauto. done.
  - intros id a Hn. rewrite K3, H3 by tauto. done.
  - intros id r E. destruct (H4 id r E) as (r1 & E1 & A1). destruct (K4 id r1 E1) as (r2 & E2 & A2).
    exists r2. split; [done|].
    destruct (decide (db_jobs db1 !! id = db_jobs db !! id)) as [Es|Ed].
    + rewrite E, E1 in Es. by injection Es as ->.
    + assert (db_jobs db2 !! id = db_jobs db1 !! id) as Es.
      { apply K2. intros HY. apply Ed, H2. intros HX. specialize (HXY id HX HY). congruence. }
      rewrite E1, E2 in Es. by injection Es as ->.
  - intros id. etransitivity; [apply H5|apply K5].
  - intros id Hn. rewrite K6, H6 by tauto. done.
  - intros id. etransitivity; [apply H7|apply K7].
  - intros id Hn. rewrite K8, H8 by tauto. done.
  - congruence.
Qed.

Lemma Touched_trans (X Y : ID → Prop) db db1 db2 :
  Touched X db db1 → Touched Y db1 db2 → (∀ id, X id → Y id → False) →
  Touched (λ id, X id ∨ Y id) db db2.
Proof. intros H1 H2 HXY. eapply Touched_trans_new; [done..|]. intros id ??. by destruct (HXY id). Qed.

(** A transaction that only adds jobs. *)
Definition absent (db : DB) (id : ID) : Prop := db_jobs db !! id = None.

Lemma absent_touched X db db1 id : Touched X db db1 → absent db1 id → absent db id.
Proof.
  unfold absent. intros HT E. destruct (db_jobs db !! id) as [r|] eqn:E'; [|done].
  destruct (tc_advance _ _ _ HT id r E') as (r' & Hr & _). congruence.
Qed.

Lemma Touched_adds db db1 db2 :
  Touched (absent db) db db1 → Touched (absent db1) db1 db2 → Touched (absent db) db db2.
Proof.
  intros H1 H2. eapply Touched_mono; [|eapply Touched_trans_new; [exact H1|exact H2|by auto]].
  intros id [?|?]; [done|]. by eapply absent_touched.
Qed.

Lemma Touched_At db db' id row r' f rs es :
  Inv limit db → At limit db id (Some r') f rs es db' → JobInv id (Some r') f rs es →
  db_jobs db !! id = row → (∀ r, row = Some r → advance r r') →
  results_of id db `prefix_of` rs → events_of id db `prefix_of` es →
  Touched (λ i, i = id) db db'.
Proof.
  intros Hinv HA HJ Hrow Hadv Hrs Hes. split.
  - by eapply At_Inv.
  - intros i Hi. by apply HA.
  - intros i a Hi. by apply HA.
  - intros i r Hr. destruct (decide (i = id)) as [->|Hne].
    + exists r'. split; [apply HA|]. apply Hadv. congruence.
    + exists r. split; [|apply advance_refl]. rewrite <-Hr. by apply HA.
  - intros i. destruct (decide (i = id)) as [->|Hne].
    + by rewrite (at_results _ _ _ _ _ _ _ _ HA).
    + by rewrite (at_other_results _ _ _ _ _ _ _ _ HA i Hne).
  - intros i Hi. by apply HA.
  - intros i. destruct (decide (i = id)) as [->|Hne].
    + by rewrite (at_events _ _ _ _ _ _ _ _ HA).
    + by rewrite (at_other_events _ _ _ _ _ _ _ _ HA i Hne).
  - intros i Hi. by apply HA.
  - apply HA.
Qed.
End Moves.
