(* ===== verification/QueueSteps.v ===== *)
(** The operations of the queue, one by one: each changes the jobs it is for, along the
    automaton, and keeps the invariant of the tables. *)
From S2P Require Import Prelude Diagnostics IRTypes Hashes Json IRValidate Network RunnerProtocol.
From S2P Require Import Jobs Queue QueueFacts.

(** Clock readings do not go backwards. *)
Definition clock_mono (e : Env) : Prop := ∀ i j, (i ≤ j)%nat → clock e i ≤ clock e j.

Section Steps.
Context {P : Platform} {N : Network} {F : Float64} {W : Zones} {L : Payloads} {Business : Type}.
Context (limit : ID → Z) (e : Env).
Abbreviation DB := (@DB F Business).
Abbreviation St := (@St F Business).
Abbreviation Tx := (@Tx F Business).
Abbreviation only id := (λ i : ID, i = id).

Lemma Inv_row (db : DB) id r : Inv limit db → db_jobs db !! id = Some r → RowInv id r.
Proof. intros H E. by apply (Inv_job _ _ _ _ H E). Qed.

Lemma events_of_job id (db : DB) w : w ∈ events_of id db → ew_JobID w = id.
Proof. intros H. by apply list_elem_of_filter in H as [? _]. Qed.

Lemma checks_seq r : job_checks r = true → 0 ≤ jr_EventSeq r.
Proof. unfold job_checks. rewrite !andb_true_iff. intros. lia. Qed.

(** The last statement of most operations: the event of the move [r] to [r1]. *)
Lemma wp_finish (db : DB) id r r1 f rs job input (Q : EventReceipt → St → Prop) s :
  Inv limit db → db_jobs db !! id = Some r →
  At limit db id (Some r1) f rs (events_of id db) (st_db s) → j_ID job = id →
  Terminal (jr_State r) = false → jr_Head r1 = jr_Head r → jr_EventSeq r1 = jr_EventSeq r →
  moves (phase r) (phase r1) → (is_Some (jr_CancelAt r) → is_Some (jr_CancelAt r1)) →
  jr_LeaseSeq r1 = jr_Attempt r1 →
  (jr_State r1 = Queued → jr_CancelAt r1 = None ∧ jr_Attempt r1 ≤ 1 ∧
     (j_Type r1 = DownloadThroughput → jr_Attempt r1 = 0)) →
  ResvInv r1 f → ResultsInv r1 rs → results_of id db `prefix_of` rs →
  (∀ receipt s', (st_reads s ≤ st_reads s')%nat → Touched limit (only id) db (st_db s') →
     db_jobs (st_db s') !! id = Some (with_event_seq r1 (jr_EventSeq r1 + 1)) →
     results_of id (st_db s') = rs → Q receipt s') →
  wp e (appendJobEvent job input) Q s.
Proof.
  intros Hinv Hr HA Hid Ht Eh Es Hm Hc Hl Hq Hresv Hres Hpre HQ.
  destruct (Inv_job _ _ _ _ Hinv Hr) as (Hrow & _ & _ & Hev).
  assert (j_ID r1 = id) as Hid1 by (unfold j_ID; rewrite Eh; apply Hrow).
  eapply wp_append; [exact HA|done|done|].
  intros receipt w s' Hreads Hw Hseq Hwa Hwl Hnew Hchecks HA'.
  apply (HQ receipt s' Hreads); [|by apply HA'|by apply HA'].
  eapply Touched_At; [done|exact HA'| |exact Hr| |done|by apply prefix_app_r].
  - split_and!.
    + by split.
    + destruct Hresv. by split.
    + destruct Hres. by split.
    + rewrite Es in Hseq |- *. eapply EventsInv_append with (job := job) in Hev; try done.
      * destruct Hev as [E1 E2]. by split.
      * by eapply checks_seq, Hrow.
      * by rewrite Hid.
      * rewrite Hid. intros x. apply events_of_job.
  - intros ? [= <-]. split; [done|exact Hm| |exact Hc]. by rewrite Ht.
Qed.

Lemma wp_queue_event phase completed verdict err job (Q : EventReceipt → St → Prop) s :
  (∀ input s', st_db s' = st_db s → st_reads s' = st_reads s → wp e (appendJobEvent job input) Q s') →
  wp e (queue_event phase completed verdict err job) Q s.
Proof. intros H. apply wp_bind, wp_id. intros i s' E1 E2. by apply H. Qed.

(** A row as it was read is the row of the table, with the invariant of its job. *)
Lemma wp_update_row (db : DB) id job r f rs es (Q : unit → St → Prop) s :
  At limit db id (Some r) f rs es (st_db s) → j_ID job = id →
  (∀ s', st_reads s' = st_reads s → At limit db id (Some job) f rs es (st_db s') → Q () s') →
  wp e (update_job job) Q s.
Proof. intros HA Hid HQ. eapply wp_update_job; [exact HA|done|]. intros _. exact HQ. Qed.

(** ** Cancellation *)

Definition stopping (r : JobRow) : Prop := Terminal (jr_State r) = true ∨ CancelRequested r = true.

Lemma wp_cancelChild id job (Q : unit → St → Prop) s :
  Inv limit (st_db s) → db_jobs (st_db s) !! id = Some job →
  (∀ r' s', (st_reads s ≤ st_reads s')%nat → Touched limit (only id) (st_db s) (st_db s') →
     db_jobs (st_db s') !! id = Some r' → stopping r' → Q () s') →
  wp e (cancelChild job) Q s.
Proof.
  intros Hinv Hjob HQ. destruct (Inv_job _ _ _ _ Hinv Hjob) as (Hrow & Hresv & Hres & Hev).
  pose proof (ri_id _ _ Hrow) as Hid. unfold cancelChild. apply wp_if; intros Hstop.
  { rewrite orb_true_iff in Hstop. apply wp_ret. by eapply HQ; [done|apply Touched_refl|..]. }
  rewrite orb_false_iff in Hstop. destruct Hstop as [Ht Hc].
  apply wp_bind, wp_clock. intros s1 Hs1 Hr1. apply wp_bind, wp_clock. intros s2 Hs2 Hr2.
  apply wp_bind, wp_query. rewrite Hid, Hs2, Hs1, Hjob.
  set (r1 := canceled_job job _ _).
  apply wp_bind. eapply wp_update_row; [rewrite Hs2, Hs1; by apply Inv_At_Some|exact Hid|].
  intros s3 Hr3 HA3. apply wp_bind.
  destruct (jr_State job =s Queued) eqn:Hq.
  - apply String.eqb_eq in Hq. apply wp_bind. eapply wp_settle; [exact HA3|done|].
    intros n f' s4 Hr4 Hset _ HA4. apply wp_ret. apply wp_bind, wp_queue_event.
    intros input s5 Hs5 Hr5. rewrite <-Hs5 in HA4.
    assert (jr_State r1 = Canceled) as E1 by (unfold r1, canceled_job; simpl; by rewrite Hq).
    eapply (wp_finish _ id job r1); [exact Hinv|exact Hjob|exact HA4|..]; try done.
    + unfold phase. rewrite E1, Hq. simpl. constructor.
    + apply Hrow.
    + by rewrite E1.
    + eapply ResvInv_end; [exact Hresv|by apply pending_queued|exact Hset|done|done|by rewrite E1].
    + eapply ResultsInv_same; [exact Hres|done|done|by rewrite E1|by rewrite E1, Hq].
    + intros receipt s6 Hr6 HT Hrow6 _. apply wp_ret.
      eapply HQ; [lia|exact HT|exact Hrow6|]. left. simpl. rewrite Hq. done.
  - apply wp_ret. apply wp_bind, wp_queue_event. intros input s5 Hs5 Hr5. rewrite <-Hs5 in HA3.
    assert (jr_State r1 = jr_State job) as E1 by (unfold r1, canceled_job; simpl; by rewrite Hq).
    eapply (wp_finish _ id job r1); [exact Hinv|exact Hjob|exact HA3|..]; try done.
    + unfold phase. rewrite E1. simpl. constructor.
    + apply Hrow.
    + rewrite E1. intros E. by rewrite E in Hq.
    + eapply ResvInv_same; [exact Hresv|done|..]; unfold pending_attempt; rewrite ?E1; simpl; try done; lia.
    + eapply ResultsInv_same; [exact Hres|done|done|by rewrite E1|by rewrite E1].
    + intros receipt s6 Hr6 HT Hrow6 _. apply wp_ret.
      eapply HQ; [lia|exact HT|exact Hrow6|]. right. done.
Qed.

(** ** Several jobs *)

Definition rows (db : DB) : list JobRow := (λ kr, kr.2) <$> map_to_list (db_jobs db).

Lemma elem_of_rows db r : Inv limit db → r ∈ rows db → db_jobs db !! j_ID r = Some r.
Proof.
  intros Hinv ([id r'] & -> & Hin)%list_elem_of_fmap. apply elem_of_map_to_list in Hin.
  pose proof (Inv_row _ _ _ Hinv Hin) as Hrow. simpl. by rewrite (ri_id _ _ Hrow).
Qed.

Lemma NoDup_rows db : Inv limit db → NoDup (j_ID <$> rows db).
Proof.
  intros Hinv. unfold rows. rewrite <-list_fmap_compose.
  rewrite (list_fmap_ext _ fst); [apply NoDup_fst_map_to_list|].
  intros i [id r] Hx. apply list_elem_of_lookup_2, elem_of_map_to_list in Hx.
  apply (Inv_row _ _ _ Hinv Hx).
Qed.


(** Jobs of the table are told apart by their identifiers. *)
Lemma NoDup_jobs db l : Inv limit db → NoDup l → (∀ x, x ∈ l → x ∈ rows db) → NoDup (j_ID <$> l).
Proof.
  intros Hinv Hl Hin. apply NoDup_fmap_2_strong; [|done]. intros x y Hx Hy E.
  pose proof (elem_of_rows _ _ Hinv (Hin x Hx)) as H1. pose proof (elem_of_rows _ _ Hinv (Hin y Hy)) as H2.
  rewrite E in H1. congruence.
Qed.

(** A loop over distinct jobs, each of which changes its own and leaves it as [R] says. *)
Definition left_as (R : JobRow → Prop) (db : DB) (x : JobRow) : Prop :=
  ∃ r, db_jobs db !! j_ID x = Some r ∧ R r.

Lemma wp_each (R : JobRow → Prop) (f : JobRow → Tx unit) (k : nat) l (Q : unit → St → Prop) s :
  (∀ x s Q, x ∈ l → (k ≤ st_reads s)%nat → Inv limit (st_db s) → db_jobs (st_db s) !! j_ID x = Some x →
     (∀ s', (st_reads s ≤ st_reads s')%nat → Touched limit (only (j_ID x)) (st_db s) (st_db s') →
        left_as R (st_db s') x → Q () s') → wp e (f x) Q s) →
  (k ≤ st_reads s)%nat → Inv limit (st_db s) → NoDup (j_ID <$> l) →
  (∀ x, x ∈ l → db_jobs (st_db s) !! j_ID x = Some x) →
  (∀ s', (st_reads s ≤ st_reads s')%nat →
     Touched limit (λ id, id ∈ j_ID <$> l) (st_db s) (st_db s') →
     (∀ x, x ∈ l → left_as R (st_db s') x) → Q () s') →
  wp e (each f l) Q s.
Proof.
  revert s Q. induction l as [|x l IH]; intros s Q Hf Hk Hinv Hnd Hrows HQ; simpl.
  { apply wp_ret, HQ; [done|by apply Touched_refl|set_solver]. }
  apply NoDup_cons in Hnd as [Hx Hnd]. apply wp_bind, Hf; [set_solver|done|done|apply Hrows; set_solver|].
  intros s1 Hr1 HT1 HR1. apply IH; [intros; eapply Hf; eauto; set_solver|lia|apply HT1|done|..].
  - intros y Hy. rewrite (tc_row _ _ _ _ HT1); [apply Hrows; set_solver|].
    intros E. apply Hx. rewrite <-E. by apply list_elem_of_fmap_2.
  - intros s2 Hr2 HT2 HR2. apply HQ; [lia| |].
    + eapply Touched_mono; [|eapply Touched_trans; [exact HT1|exact HT2|]].
      * intros id [->|Hin]; set_solver.
      * intros id -> Hin. done.
    + intros y [->|Hy]%elem_of_cons; [|by apply HR2]. destruct HR1 as (r & Hr & HR). exists r.
      split; [|done]. rewrite <-Hr. by apply (tc_row _ _ _ _ HT2).
Qed.

Lemma wp_cancel_each l (Q : unit → St → Prop) s :
  Inv limit (st_db s) → NoDup (j_ID <$> l) → (∀ x, x ∈ l → db_jobs (st_db s) !! j_ID x = Some x) →
  (∀ s', (st_reads s ≤ st_reads s')%nat →
     Touched limit (λ id, id ∈ j_ID <$> l) (st_db s) (st_db s') →
     (∀ x, x ∈ l → left_as stopping (st_db s') x) → Q () s') →
  wp e (each cancelChild l) Q s.
Proof.
  intros Hinv Hnd Hrows HQ. eapply (wp_each stopping _ 0); [|lia|done..].
  intros x s1 Q1 _ _ Hinv1 Hrow HQ1. eapply wp_cancelChild; [done|exact Hrow|].
  intros r' s2 Hr2 HT Hr' Hstop. apply HQ1; [done|done|]. by exists r'.
Qed.

(** ** Claim *)

#[local] Instance older_strict : StrictWeak older.
Proof. apply (number_then_strict (λ r, jh_CreatedAt (jr_Head r)) (λ a b, j_ID a <s j_ID b)), _. Qed.

Definition eligible (wanted : JobRow → bool) (r : JobRow) : bool :=
  (jr_State r =s Queued) && negb (CancelRequested r) && wanted r && negb (locked e (j_ID r)).

(** What [queue_head] finds: an eligible job older than every other, or that there is none. *)
Definition heads (wanted : JobRow → bool) (db : DB) (o : option JobRow) : Prop :=
  match o with
  | None => ∀ r, r ∈ rows db → eligible wanted r = false
  | Some r => r ∈ rows db ∧ eligible wanted r = true ∧
              ∀ r', r' ∈ rows db → eligible wanted r' = true → older r' r = false
  end.

Lemma wp_queue_head wanted (Q : option JobRow → St → Prop) s :
  (∀ o, heads wanted (st_db s) o → Q o s) → wp e (queue_head wanted) Q s.
Proof.
  intros HQ. unfold queue_head. apply wp_bind, wp_ask, wp_bind, wp_query, wp_ret, HQ.
  fold (rows (st_db s)).
  set (l := filter (λ r, Is_true (eligible wanted r)) (rows (st_db s))).
  assert (∀ r, r ∈ l ↔ r ∈ rows (st_db s) ∧ eligible wanted r = true) as Hl.
  { intros r. unfold l. rewrite list_elem_of_filter, Is_true_true. tauto. }
  change (heads wanted (st_db s) (head (SliceStable older l))). unfold SliceStable.
  pose proof (isort_strongly_sorted (λ a b, negb (older b a)) l) as Hs.
  assert (∀ r, r ∈ isort (λ a b, negb (older b a)) l ↔ r ∈ l) as Hin by (intros; apply elem_of_isort).
  destruct (isort _ l) as [|r k]; simpl.
  - intros r Hr. apply not_true_iff_false. intros He.
    assert (r ∈ []) as Hn by (apply Hin, Hl; done). by apply elem_of_nil in Hn.
  - assert (r ∈ l) as [Hr He]%Hl by (apply Hin; set_solver). split_and!; [done..|].
    intros r' Hr' He'. assert (r' ∈ r :: k) as [->|Hk]%elem_of_cons by (by apply Hin, Hl).
    + destruct (older r r) eqn:E; [|done]. pose proof (sw_asymm _ _ E). congruence.
    + inversion_clear Hs as [|? ? _ Hall]. rewrite Forall_forall in Hall.
      specialize (Hall r' Hk). by rewrite negb_true_iff in Hall.
Qed.

Lemma heads_row wanted db r : Inv limit db → heads wanted db (Some r) →
  db_jobs db !! j_ID r = Some r ∧ jr_State r = Queued ∧ CancelRequested r = false ∧ wanted r = true.
Proof.
  intros Hinv (Hr & He & _). unfold eligible in He. rewrite !andb_true_iff, String.eqb_eq, !negb_true_iff in He.
  split_and!; [by apply elem_of_rows|tauto..].
Qed.

Lemma heads_oldest wanted db r r' :
  heads wanted db (Some r) → r' ∈ rows db → eligible wanted r' = true →
  jh_CreatedAt (jr_Head r) ≤ jh_CreatedAt (jr_Head r').
Proof.
  intros (_ & _ & H) Hr' He. specialize (H r' Hr' He). unfold older in H.
  destruct (jh_CreatedAt (jr_Head r') =? jh_CreatedAt (jr_Head r)) eqn:E; lia.
Qed.

(** The candidates of a runner: the head of each of its types. *)
Definition candidate_of (input : ClaimInput) (db : DB) (r : JobRow) : Prop :=
  j_Type r ∈ cl_Types input ∧
  heads (runner_wants (j_Type r) (cl_CoreBuildIDs input)) db (Some r).

Lemma wp_candidates cores kinds (Q : list JobRow → St → Prop) s :
  (∀ l, (∀ r, r ∈ l → j_Type r ∈ kinds ∧ heads (runner_wants (j_Type r) cores) (st_db s) (Some r)) →
     (NoDup kinds → NoDup (j_Type <$> l)) → 
     (∀ kind, kind ∈ kinds → (∀ r, r ∈ l → j_Type r ≠ kind) →
        heads (runner_wants kind cores) (st_db s) None) → Q l s) →
  wp e (runner_candidates kinds cores) Q s.
Proof.
  revert Q. induction kinds as [|kind kinds IH]; intros Q HQ; simpl.
  { apply wp_ret, HQ; [set_solver|intros; constructor|set_solver]. }
  apply wp_bind, wp_queue_head. intros o Ho. apply wp_bind, IH. intros l H1 H2 H3. apply wp_ret.
  assert (∀ r, o = Some r → j_Type r = kind) as Hkind.
  { intros r ->. destruct Ho as (_ & He & _). unfold eligible, runner_wants in He.
    rewrite !andb_true_iff, !String.eqb_eq in He. tauto. }
  apply HQ.
  - intros r [Hr|Hr]%elem_of_app.
    + destruct o as [r'|]; simpl in Hr; [|by apply elem_of_nil in Hr].
      apply list_elem_of_singleton in Hr as ->. rewrite (Hkind r') by done. split; [set_solver|done].
    + destruct (H1 r Hr). split; [set_solver|done].
  - intros [Hk Hnd]%NoDup_cons. rewrite fmap_app. destruct o as [r|]; simpl; [|auto].
    apply NoDup_cons. split; [|auto]. rewrite (Hkind r) by done.
    intros (r' & E & Hr')%list_elem_of_fmap. apply Hk. rewrite E. by apply H1.
  - intros kind' [->|Hk]%elem_of_cons Hnone; [|apply H3; [done|]; intros r Hr; apply Hnone; set_solver].
    destruct o as [r|]; [|done]. destruct (Hnone r); [simpl; set_solver|by apply Hkind].
Qed.

(** Counting jobs, when one row changes. *)
Lemma count_lookup f (db : DB) id r :
  db_jobs db !! id = Some r →
  count_jobs f db = (if f r then 1 else 0) +
    Z.of_nat (length (filter (λ kr, Is_true (f kr.2)) (map_to_list (delete id (db_jobs db))))).
Proof.
  intros Hr. unfold count_jobs. rewrite <-(insert_delete_id _ _ _ Hr) at 1.
  rewrite map_to_list_insert by apply lookup_delete_eq. rewrite filter_cons. simpl.
  destruct (f r); [rewrite decide_True by done|rewrite decide_False by auto]; simpl; lia.
Qed.

Lemma count_change f (db db' : DB) id r r' :
  db_jobs db !! id = Some r → db_jobs db' !! id = Some r' →
  (∀ id', id' ≠ id → db_jobs db' !! id' = db_jobs db !! id') →
  count_jobs f db' = count_jobs f db - (if f r then 1 else 0) + (if f r' then 1 else 0).
Proof.
  intros Hr Hr' Ho. rewrite (count_lookup _ _ _ _ Hr), (count_lookup _ _ _ _ Hr').
  replace (delete id (db_jobs db')) with (delete id (db_jobs db)); [lia|].
  apply map_eq. intros i. destruct (decide (i = id)) as [->|Hne].
  - by rewrite !lookup_delete_eq.
  - rewrite !lookup_delete_ne by done. by rewrite Ho.
Qed.

(** The limits that hold for a job the queue admits: counted at some reading of the
    clock, its type has fewer jobs under way than allowed, everywhere and at this runner. *)
Definition same_type (now : Z) (kind : string) (r : JobRow) : bool := running_at now r && (j_Type r =s kind).
Definition same_runner (now : Z) (kind : string) (worker : ID) (r : JobRow) : bool :=
  running_at now r && (j_Type r =s kind) && held_by worker r.
Definition other_kind (now : Z) (kind : string) (worker : ID) (r : JobRow) : bool :=
  running_at now r && held_by worker r &&
  (if is_network kind then j_Type r =s ConfigValidate
   else (kind =s ConfigValidate) && is_network (j_Type r)).

Record Admission (input : ClaimInput) (db : DB) (job : JobRow) (k : nat) : Prop := {
  am_global : count_jobs (same_type (clock e k) (j_Type job)) db <
              (slot_limits input (quota_of db (j_ScopeID job)) (j_Type job)).1.2;
  am_local : count_jobs (same_runner (clock e k) (j_Type job) (cl_WorkerID input)) db <
             (slot_limits input (quota_of db (j_ScopeID job)) (j_Type job)).1.1;
  am_slot : 1 ≤ (slot_limits input (quota_of db (j_ScopeID job)) (j_Type job)).2 }.

Lemma wp_admits input job (Q : bool → St → Prop) s :
  (∀ s', (st_reads s ≤ st_reads s')%nat → st_db s' = st_db s → Q false s') →
  (∀ k s', (k < st_reads s')%nat → (st_reads s ≤ st_reads s')%nat → st_db s' = st_db s →
     Admission input (st_db s) job k → Q true s') →
  wp e (admits input (quota_of (st_db s) (j_ScopeID job)) job) Q s.
Proof.
  intros HF HT. unfold admits.
  destruct (slot_limits _ _ _) as [[local global] available] eqn:Es.
  apply wp_if; intros Hav; [by apply wp_ret, HF|].
  apply wp_bind, wp_clock. intros s1 Hs1 Hr1. apply wp_bind, wp_query, wp_bind, wp_query.
  apply wp_if; intros Hmix; [apply wp_ret, HF; [lia|done]|].
  apply wp_bind, wp_clock. intros s2 Hs2 Hr2. apply wp_bind, wp_query, wp_bind, wp_query, wp_ret.
  rewrite Hs1 in Hs2. rewrite Hs2.
  destruct ((_ <? global) && (_ <? local)) eqn:Hadm; [|apply HF; [lia|congruence]].
  apply andb_true_iff in Hadm. eapply (HT (st_reads s1)); [lia|lia|done|].
  split; rewrite Es; simpl; unfold same_type, same_runner; lia.
Qed.

Lemma wp_first_admitted input l (Q : option JobRow → St → Prop) s :
  Inv limit (st_db s) → NoDup (j_ID <$> l) → (∀ x, x ∈ l → db_jobs (st_db s) !! j_ID x = Some x) →
  (∀ s', (st_reads s ≤ st_reads s')%nat →
     Touched limit (λ id, id ∈ j_ID <$> l) (st_db s) (st_db s') → Q None s') →
  (∀ job X k s', job ∈ l → (k < st_reads s')%nat → (st_reads s ≤ st_reads s')%nat → ¬ X (j_ID job) →
     (∀ id, X id → id ∈ j_ID <$> l) →
     Touched limit X (st_db s) (st_db s') → Admission input (st_db s') job k → Q (Some job) s') →
  wp e (first_admitted input l) Q s.
Proof.
  revert Q s. induction l as [|job l IH]; intros Q s Hinv Hnd Hrows HN HS; simpl.
  { apply wp_ret, HN; [done|]. by apply Touched_refl. }
  apply NoDup_cons in Hnd as [Hjob Hnd]. apply wp_bind, wp_ask, wp_if; intros Hrev.
  - apply wp_bind. eapply wp_cancelChild; [done|apply Hrows; set_solver|].
    intros r' s1 Hr1 HT1 _ _. apply IH; [apply HT1|done|..].
    + intros x Hx. rewrite (tc_row _ _ _ _ HT1); [apply Hrows; set_solver|].
      intros E. apply Hjob. rewrite <-E. by apply list_elem_of_fmap_2.
    + intros s2 Hr2 HT2. apply HN; [lia|]. eapply Touched_mono; [|eapply Touched_trans; [exact HT1|exact HT2|]].
      * intros id [->|?]; set_solver.
      * intros id -> ?. done.
    + intros job' X k s2 Hin Hk Hr2 HX HXl HT2 Hadm.
      eapply (HS job' (λ id, id = j_ID job ∨ X id)); [set_solver|exact Hk|lia|..].
      * intros [E|?]; [|done]. apply Hjob. rewrite <-E. by apply list_elem_of_fmap_2.
      * intros id [->|?%HXl]; set_solver.
      * eapply Touched_trans; [exact HT1|exact HT2|]. intros id -> ?%HXl. done.
      * exact Hadm.
  - apply wp_bind, wp_quota. intros _. apply wp_bind, wp_admits.
    + intros s1 Hr1 Hs1. rewrite <-Hs1 in HN, HS, Hrows, Hinv. apply IH; [done|done|intros; apply Hrows; set_solver|..].
      * intros s2 Hr2 HT2. apply HN; [lia|]. eapply Touched_mono; [|exact HT2]. intros id Hid. set_solver.
      * intros job' X k s2 Hin Hk Hr2 HX HXl HT2 Hadm. eapply (HS job' X); [set_solver|exact Hk|lia|done| |done..].
        intros id ?%HXl. set_solver.
    + intros k s1 Hk Hr1 Hs1 Hadm. apply wp_ret. rewrite <-Hs1 in Hadm, HS, Hinv.
      eapply (HS job (λ _, False)); [set_solver|exact Hk|done|tauto|tauto|by apply Touched_refl|done].
Qed.

Definition wants (input : ClaimInput) (job : JobRow) : JobRow → bool :=
  if cl_Executor input =s APIWorker
  then λ r, (j_Executor r =s APIWorker) && bool_decide (j_Type r ∈ cl_Types input)
  else runner_wants (j_Type job) (cl_CoreBuildIDs input).

(** What a claim that leases a job has done: the job was queued, of a wanted type, not
    canceled, and the oldest of those it competes with; it is leased to the worker for
    its next attempt, until thirty seconds after a reading of the clock; a runner's job
    leaves the limits of its type respected. *)
Record Claimed (input : ClaimInput) (db db' : DB) (lease : Lease) (job r' : JobRow) : Prop := {
  cd_before : db_jobs db !! j_ID job = Some job;
  cd_head : heads (wants input job) db (Some job);
  cd_oldest : ∀ r, r ∈ rows db → eligible (wants input job) r = true →
    jh_CreatedAt (jr_Head job) ≤ jh_CreatedAt (jr_Head r);
  cd_type : j_Type job ∈ cl_Types input;
  cd_after : db_jobs db' !! j_ID job = Some r';
  cd_state : jr_State r' = Leased;
  cd_attempt : jr_Attempt r' = jr_Attempt job + 1;
  cd_job : id_JobID (le_Identity lease) = j_ID job ∧ id_WorkerID (le_Identity lease) = cl_WorkerID input;
  cd_holds : holds (le_Identity lease) r' = true;
  cd_until : jr_LeaseUntil r' = Some (le_ExpiresAt lease);
  cd_expiry : ∃ k, le_ExpiresAt lease = clock e k + LeaseDuration;
  cd_limits : cl_Executor input ≠ APIWorker → ∃ k,
    let limits := slot_limits input (quota_of db' (j_ScopeID job)) (j_Type job) in
    count_jobs (same_type (clock e k) (j_Type job)) db' ≤ limits.1.2 ∧
    count_jobs (same_runner (clock e k) (j_Type job) (cl_WorkerID input)) db' ≤ limits.1.1 }.

Lemma NoDup_types_ids l (db : DB) :
  (∀ x, x ∈ l → db_jobs db !! j_ID x = Some x) → NoDup (j_Type <$> l) → NoDup (j_ID <$> l).
Proof.
  intros Hrows. induction l as [|x l IH]; simpl; [done|]. intros [Hx Hnd]%NoDup_cons.
  apply NoDup_cons. split; [|apply IH; [set_solver|done]].
  intros (y & E & Hy)%list_elem_of_fmap. apply Hx.
  assert (x = y) as ->; [|by apply list_elem_of_fmap_2].
  pose proof (Hrows x ltac:(set_solver)) as H1. pose proof (Hrows y ltac:(set_solver)) as H2.
  rewrite E in H1. congruence.
Qed.

Lemma wp_claimCandidate input (Q : option JobRow → St → Prop) s :
  Inv limit (st_db s) → NoDup (cl_Types input) →
  (∀ X s', (st_reads s ≤ st_reads s')%nat → Touched limit X (st_db s) (st_db s') → Q None s') →
  (∀ job X k s', (st_reads s ≤ st_reads s')%nat → ¬ X (j_ID job) →
     Touched limit X (st_db s) (st_db s') → heads (wants input job) (st_db s) (Some job) →
     j_Type job ∈ cl_Types input →
     (cl_Executor input ≠ APIWorker → Admission input (st_db s') job k) → Q (Some job) s') →
  wp e (claimCandidate input) Q s.
Proof.
  intros Hinv Hnd HN HS. unfold claimCandidate. apply wp_if; intros Hex.
  - apply wp_queue_head. intros o Ho. destruct o as [job|].
    + eapply (HS job (λ _, False) 0%nat); [done|tauto|by apply Touched_refl| | |].
      * unfold wants. by rewrite Hex.
      * destruct (heads_row _ _ _ Hinv Ho) as (_ & _ & _ & Hw).
        rewrite andb_true_iff, bool_decide_eq_true in Hw. tauto.
      * apply String.eqb_eq in Hex. done.
    + eapply (HN (λ _, False)); [done|]. by apply Touched_refl.
  - apply wp_bind, wp_candidates. intros l H1 H2 _.
    assert (∀ x, x ∈ l → db_jobs (st_db s) !! j_ID x = Some x) as Hrows.
    { intros x Hx. destruct (H1 x Hx) as [_ Hh]. by eapply heads_row. }
    assert (∀ x, x ∈ SliceStable older l ↔ x ∈ l) as Hperm by (intros; apply elem_of_isort).
    assert (j_ID <$> SliceStable older l ≡ₚ j_ID <$> l) as Hp by (apply fmap_Permutation, isort_perm).
    apply wp_first_admitted; [done| | | |].
    + rewrite Hp. eapply NoDup_types_ids; [exact Hrows|auto].
    + intros x Hx. by apply Hrows, Hperm.
    + intros s' Hr HT. by eapply HN.
    + intros job X k s' Hin _ Hr HX _ HT Hadm. apply Hperm in Hin. destruct (H1 job Hin) as [Hk Hh].
      eapply (HS job X k); [done|done|done| |done|done]. unfold wants. by rewrite Hex.
Qed.

Lemma wp_lease_payload job (Q : string → St → Prop) s :
  (∀ plain, Q plain s) → wp e (lease_payload job) Q s.
Proof.
  intros HQ. unfold lease_payload. apply wp_bind, wp_query, wp_bind, wp_row. intros sealed _.
  apply wp_bind, wp_row. intros plain _. apply wp_if; intros _; [|by apply wp_ret].
  apply wp_bind, wp_row. intros frozen _. apply wp_bind, wp_query, wp_bind, wp_row. intros x _.
  apply wp_bind, wp_throw_if. intros _. apply wp_row. intros text _. apply HQ.
Qed.

Lemma wp_claim input (Q : option Lease → St → Prop) s :
  Inv limit (st_db s) → NoDup (cl_Types input) →
  (∀ X s', (st_reads s ≤ st_reads s')%nat → Touched limit X (st_db s) (st_db s') → Q None s') →
  (∀ X lease job r' s', (st_reads s ≤ st_reads s')%nat → Touched limit X (st_db s) (st_db s') →
     Claimed input (st_db s) (st_db s') lease job r' → Q (Some lease) s') →
  wp e (claim_tx input) Q s.
Proof.
  intros Hinv Hnd HN HS. unfold claim_tx. apply wp_bind, wp_claimCandidate; [done|done|..].
  { intros X s1 Hr1 HT1. apply wp_ret. by eapply HN. }
  intros job X k s1 Hr1 HX HT1 Hhead Htype Hadm.
  destruct (heads_row _ _ _ Hinv Hhead) as (Hjob & Hq & Hcancel & _).
  pose proof (tc_inv _ _ _ _ HT1) as Hinv1.
  assert (db_jobs (st_db s1) !! j_ID job = Some job) as Hjob1 by by rewrite (tc_row _ _ _ _ HT1).
  destruct (Inv_job _ _ _ _ Hinv1 Hjob1) as (Hrow & Hresv & Hres & _).
  apply wp_bind. unfold lease_job. apply wp_bind, wp_clock. intros s2 Hs2 Hr2.
  apply wp_bind, wp_clock. intros s3 Hs3 Hr3. apply wp_bind, wp_query. rewrite Hs3, Hs2, Hjob1.
  apply wp_bind, wp_row. intros ? [= <-]. apply wp_bind, wp_throw_if. intros _.
  set (r1 := leased_job job _ _ _).
  apply wp_bind. eapply wp_update_row; [rewrite Hs3, Hs2; by apply Inv_At_Some|done|].
  intros s4 Hr4 HA4. apply wp_ret. apply wp_bind, wp_lease_payload. intros plain.
  apply wp_bind, wp_queue_event. intros ev s5 Hs5 Hr5. rewrite <-Hs5 in HA4.
  destruct (ri_queued _ _ Hrow Hq) as (_ & Hatt & _).
  eapply (wp_finish _ (j_ID job) job r1); [exact Hinv1|exact Hjob1|exact HA4|..]; try done.
  - by rewrite Hq.
  - unfold phase, r1. simpl. rewrite Hq. constructor.
  - simpl. by rewrite (ri_lease _ _ Hrow).
  - eapply ResvInv_same; [exact Hresv|done|..]; simpl; try lia.
    + by rewrite (pending_queued _ Hq).
    + by rewrite pending_live.
    + by rewrite Hq.
  - eapply ResultsInv_lease; [exact Hres|done..].
  - intros receipt s6 Hr6 HT6 Hrow6 _. apply wp_ret.
    eapply (HS (λ id, X id ∨ id = j_ID job) _ job); [lia| |].
    + eapply Touched_trans; [exact HT1|exact HT6|]. by intros id HXid ->.
    + split; simpl.
      * done.
      * done.
      * intros r Hr He. by eapply heads_oldest.
      * done.
      * exact Hrow6.
      * done.
      * done.
      * done.
      * unfold holds. simpl. by rewrite bool_decide_true, !Z.eqb_refl.
      * done.
      * by eexists.
      * intros Hex. specialize (Hadm Hex). exists k.
        assert (∀ i, i ≠ j_ID job → db_jobs (st_db s6) !! i = db_jobs (st_db s1) !! i) as Hother.
        { intros i Hi. by apply HT6. }
        unfold quota_of. rewrite (tc_settings _ _ _ _ HT6). fold (quota_of (st_db s1) (j_ScopeID job)).
        rewrite !(count_change _ _ _ _ _ _ Hjob1 Hrow6 Hother).
        assert (running_at (clock e k) job = false) as Hoff.
        { unfold running_at. by rewrite Hq, andb_false_r. }
        destruct Hadm as [G1 G2 _]. unfold same_type, same_runner in *. rewrite !Hoff in *. simpl in *.
        split; repeat case_match; lia.
Qed.

(** ** The end of an attempt *)

(** Where an attempt may leave its job and the reservations: in a terminal state with the
    attempt settled, or queued for a second attempt with a new reservation. *)
Definition end_case (r : JobRow) (state : string) (f f' : Z → option Reservation) : Prop :=
  let network := is_network (j_Type r) in
  (Terminal state = true ∧ settles network f (jr_Attempt r) f') ∨
  (state = Queued ∧ jr_CancelAt r = None ∧ jr_Attempt r ≤ 1 ∧ j_Type r ≠ DownloadThroughput ∧
   ∃ f1 maximum, settles network f (jr_Attempt r) f1 ∧
     if network then reserves (j_ScopeID r) f1 (jr_Attempt r + 1) maximum f' else f' = f1).

Lemma wp_ended (db : DB) id r state verdict err finished f' rs input (Q : EventReceipt → St → Prop) s :
  Inv limit db → db_jobs db !! id = Some r → live_state (jr_State r) = true →
  let r1 := ended_job r state verdict err finished in
  At limit db id (Some r1) f' rs (events_of id db) (st_db s) →
  end_case r state (λ a, db_reservations db !! (id, a)) f' →
  ResultsInv r1 rs → results_of id db `prefix_of` rs →
  (∀ receipt s', (st_reads s ≤ st_reads s')%nat → Touched limit (only id) db (st_db s') →
     db_jobs (st_db s') !! id = Some (with_event_seq r1 (jr_EventSeq r + 1)) →
     results_of id (st_db s') = rs → Q receipt s') →
  wp e (appendJobEvent r input) Q s.
Proof.
  intros Hinv Hr Hl r1 HA Hcase Hres Hpre HQ.
  destruct (Inv_job _ _ _ _ Hinv Hr) as (Hrow & Hresv & _ & _).
  eapply (wp_finish db id r r1 f' rs); try done.
  - apply Hrow.
  - by apply live_not_terminal.
  - unfold phase, r1. simpl. destruct Hcase as [[Ht _]|(-> & _ & Ha & _)]; by constructor.
  - simpl. apply Hrow.
  - simpl. intros ->. destruct Hcase as [[Ht _]|(_ & Hc & Ha & Htype & _)]; [done|].
    split_and!; [done|done|]. intros E. done.
  - destruct Hcase as [[Ht Hs]|(-> & _ & _ & _ & f1 & m & Hs & Hf)].
    + eapply ResvInv_end; [exact Hresv|by apply pending_live|exact Hs|done|done|done].
    + eapply ResvInv_retry; [exact Hresv|done|done|exact Hs|exact Hf|done|done].
Qed.

(** A retry that the budget refuses fails. *)
Lemma wp_retry_state job id row f rs es state err (Q : string * SafeError → St → Prop) (db : DB) s :
  At limit db id row f rs es (st_db s) → j_ID job = id →
  (∀ state' err' f' s', (st_reads s ≤ st_reads s')%nat → At limit db id row f' rs es (st_db s') →
     (state' = state ∧ (if (state =s Queued) && is_network (j_Type job)
                        then ∃ m, reserves (j_ScopeID job) f (jr_Attempt job + 1) m f' else f' = f) ∨
      state = Queued ∧ state' = Failed ∧ f' = f) →
     Q (state', err') s') →
  wp e (retry_state job state err) Q s.
Proof.
  intros HA Hid HQ. unfold retry_state. apply wp_if; intros Hc.
  - apply wp_bind. eapply wp_retry; [exact HA|done|..].
    + intros s' Hr HA'. apply wp_ret. eapply HQ; [done|exact HA'|]. right.
      apply andb_true_iff in Hc as [Hq%String.eqb_eq _]. done.
    + intros m f' s' Hr Hres HA'. apply wp_ret. eapply HQ; [done|exact HA'|]. left. rewrite Hc. eauto.
  - apply wp_ret. eapply HQ; [done|exact HA|]. left. by rewrite Hc.
Qed.

Lemma recovery_case job :
  (Terminal (recovery job).1 = true ∨
   (recovery job).1 = Queued ∧ jr_CancelAt job = None ∧ jr_Attempt job ≤ 1 ∧
   j_Type job ≠ DownloadThroughput) ∧ (recovery job).1 ≠ Succeeded.
Proof.
  unfold recovery, CancelRequested. case_bool_decide as Hc; simpl; [split; [by left|done]|].
  destruct ((2 <=? jr_Attempt job) || (j_Type job =s DownloadThroughput)) eqn:E; simpl; [split; [by left|done]|].
  apply orb_false_iff in E as [E1 E2]. split; [right|done]. split_and!; [done| |lia|].
  - destruct (jr_CancelAt job); [|done]. destruct Hc. by eexists.
  - intros E. by rewrite E in E2.
Qed.

Lemma wp_reap_job (k : nat) job (Q : unit → St → Prop) s :
  clock_mono e → (k ≤ st_reads s)%nat → expired_at (clock e k) job = true →
  Inv limit (st_db s) → db_jobs (st_db s) !! j_ID job = Some job →
  (∀ r' s', (st_reads s ≤ st_reads s')%nat → Touched limit (only (j_ID job)) (st_db s) (st_db s') →
     db_jobs (st_db s') !! j_ID job = Some r' → live_state (jr_State r') = false → Q () s') →
  wp e (reap_job job) Q s.
Proof.
  intros Hmono Hk Hexp Hinv Hjob HQ. destruct (Inv_job _ _ _ _ Hinv Hjob) as (Hrow & Hresv & Hres & _).
  assert (live_state (jr_State job) = true) as Hlive by (by apply andb_true_iff in Hexp as [? _]).
  unfold reap_job. destruct (recovery_case job) as [Hrec Hns].
  destruct (recovery job) as [state failure] eqn:Er. simpl in Hrec, Hns.
  apply wp_bind. eapply wp_settle; [by apply Inv_At_Some|done|]. intros n f1 s1 Hr1 Hset _ HA1.
  apply wp_bind. eapply wp_retry_state; [exact HA1|done|]. intros state' err' f2 s2 Hr2 HA2 Hcase.
  apply wp_bind, wp_clock. intros s3 Hs3 Hr3. apply wp_bind, wp_clock. intros s4 Hs4 Hr4.
  rewrite Hs3 in Hs4. rewrite <-Hs4 in HA2.
  apply wp_bind, wp_query. rewrite (at_row _ _ _ _ _ _ _ _ HA2).
  assert (expired_at (clock e (st_reads s2)) job = true) as ->.
  { unfold expired_at in *. rewrite !andb_true_iff in *. destruct Hexp as [? Ht]. split; [done|].
    destruct (jr_LeaseUntil job); [|done]. pose proof (Hmono k (st_reads s2)). lia. }
  apply wp_bind. eapply wp_update_row; [exact HA2|done|]. intros s5 Hr5 HA5.
  set (r1 := ended_job job state' (jr_Verdict job) (Some err') (clock e (st_reads s3))) in HA5.
  assert (end_case job state' (λ a, db_reservations (st_db s) !! (j_ID job, a)) f2 ∧
          state' ≠ Succeeded ∧ live_state state' = false) as (Hend & Hns' & Hl').
  { destruct Hcase as [[-> Hf]|(-> & -> & ->)].
    - destruct Hrec as [Ht|(-> & Hc & Ha & Hty)].
      + destruct (terminal_not_live _ Ht) as [Hl Hq]. rewrite Hq in Hf. simpl in Hf. subst f2.
        split_and!; [by left|done|done].
      + split_and!; [|done|done]. right. split_and!; [done..|]. simpl in Hf.
        destruct (is_network (j_Type job)) eqn:Hnet; [destruct Hf as [m Hf]; by exists f1, m|].
        by exists f1, 0.
    - split_and!; [by left|done|done]. }
  assert (ResultsInv r1 (results_of (j_ID job) (st_db s))) as Hres1.
  { eapply ResultsInv_same; [exact Hres|done|done|simpl; congruence|]. simpl.
    split; [done|]. intros E. by rewrite E in Hlive. }
  assert (∀ phase completed, wp e (queue_event phase completed "" (Some err') job)
                                (λ _, wp e (mret ()) Q) s5) as Hev.
  { intros ph c. apply wp_queue_event. intros input s6 Hs6 Hr6. rewrite <-Hs6 in HA5.
    eapply (wp_ended _ (j_ID job) job state'); [exact Hinv|exact Hjob|done|exact HA5|exact Hend|exact Hres1|done|].
    intros receipt s7 Hr7 HT Hrow7 _. apply wp_ret. eapply HQ; [lia|exact HT|exact Hrow7|done]. }
  apply wp_bind. destruct (Terminal state'); apply Hev.
Qed.

(** [ReapExpired] takes every expired lease, up to a hundred, that no other transaction
    has locked. *)
Lemma wp_ReapExpired (Q : Z → St → Prop) s :
  clock_mono e → Inv limit (st_db s) →
  (∀ n X s', (st_reads s ≤ st_reads s')%nat → Touched limit X (st_db s) (st_db s') →
     (n < 100 → ∀ id r, db_jobs (st_db s') !! id = Some r →
        expired_at (clock e (st_reads s)) r = true → locked e id = true) →
     Q n s') →
  wp e ReapExpired Q s.
Proof.
  intros Hmono Hinv HQ. unfold ReapExpired, expired_jobs.
  apply wp_bind, wp_bind, wp_ask, wp_bind, wp_clock. intros s1 Hs1 Hr1.
  apply wp_bind, wp_query. fold (rows (st_db s1)). apply wp_ret. rewrite Hs1.
  set (now := clock e (st_reads s)).
  set (l0 := filter (λ r, Is_true (expired_at now r && negb (locked e (j_ID r)))) (rows (st_db s))).
  set (l1 := SliceStable expires_first l0).
  assert (∀ r, r ∈ l1 ↔ r ∈ rows (st_db s) ∧ expired_at now r = true ∧ locked e (j_ID r) = false) as Hl1.
  { intros r. unfold l1, SliceStable. rewrite elem_of_isort. unfold l0.
    rewrite list_elem_of_filter, Is_true_true, andb_true_iff, negb_true_iff. tauto. }
  assert (∀ r, r ∈ take 100 l1 → r ∈ rows (st_db s) ∧ expired_at now r = true) as Htake.
  { intros r Hr%subseteq_take. apply Hl1 in Hr. tauto. }
  assert (NoDup (j_ID <$> take 100 l1)) as Hnd.
  { eapply NoDup_jobs; [exact Hinv| |intros; by apply Htake].
    assert (NoDup l1) as Hl.
    { unfold l1, SliceStable. rewrite isort_perm. eapply NoDup_filter, NoDup_fmap_1, NoDup_rows, Hinv. }
    rewrite <-(take_drop 100 l1) in Hl. by apply NoDup_app in Hl as [? _]. }
  apply wp_bind. rewrite <-Hs1 in *.
  eapply (wp_each (λ r, live_state (jr_State r) = false) _ (st_reads s)); [|lia|done|exact Hnd|..].
  - intros x s2 Q2 Hx Hk Hinv2 Hrow HQ2. eapply (wp_reap_job (st_reads s)); [done|done| |done|done|].
    + by apply Htake.
    + intros r' s3 Hr3 HT Hr' Hl. apply HQ2; [done|done|]. by exists r'.
  - intros x Hx. by apply elem_of_rows, Htake.
  - intros s2 Hr2 HT Hleft. apply wp_ret. eapply HQ; [lia|exact HT|].
    intros Hn id r Hr Hexp. apply not_false_iff_true. intros Hlock.
    assert (take 100 l1 = l1) as Eall.
    { apply take_ge. rewrite length_take in Hn. lia. }
    rewrite Eall in *. destruct (decide (id ∈ j_ID <$> l1)) as [Hin|Hout].
    + apply list_elem_of_fmap in Hin as (x & -> & Hx). destruct (Hleft x Hx) as (r' & Hr' & Hl).
      rewrite Hr in Hr'. injection Hr' as <-. unfold expired_at in Hexp. by rewrite Hl in Hexp.
    + apply Hout. rewrite (tc_row _ _ _ _ HT) in Hr by done.
      assert (j_ID r = id) as Hid by apply (Inv_row _ _ _ Hinv Hr).
      apply list_elem_of_fmap. exists r. split; [done|]. apply Hl1. split_and!; [|done|by rewrite Hid].
      apply list_elem_of_fmap. exists (id, r). split; [done|]. by apply elem_of_map_to_list.
Qed.
End Steps.
