(* ===== verification/QueueEnds.v ===== *)
(** The operations of a lease's holder: heartbeat, event and result. Each needs a lease that
    is held and has not expired, and ends at most one attempt. *)
From S2P Require Import Prelude Diagnostics IRTypes Hashes Json IRValidate Network RunnerProtocol.
From S2P Require Import Jobs Queue QueueFacts QueueSteps.

Section Ends.
Context {P : Platform} {N : Network} {F : Float64} {W : Zones} {L : Payloads} {Business : Type}.
Context (limit : ID → Z) (e : Env).
Abbreviation DB := (@DB F Business).
Abbreviation St := (@St F Business).
Abbreviation Tx := (@Tx F Business).
Abbreviation only id := (λ i : ID, i = id).

(** The job's row is the lease's, and at some reading of the clock it had not expired. *)
Definition fenced (id : LeaseIdentity) (db : DB) (r : JobRow) : Prop :=
  db_jobs db !! id_JobID id = Some r ∧ holds id r = true ∧ ∃ k, unexpired (clock e k) r = true.

Lemma unexpired_live now r : unexpired now r = true → live_state (jr_State r) = true.
Proof. unfold unexpired. rewrite andb_true_iff. tauto. Qed.

Lemma fenced_live id db r : fenced id db r → live_state (jr_State r) = true.
Proof. intros (_ & _ & k & H). by eapply unexpired_live. Qed.

Lemma wp_lockLease id (Q : JobRow → St → Prop) s :
  (∀ r, db_jobs (st_db s) !! id_JobID id = Some r → holds id r = true → Q r s) →
  wp e (lockLease id) Q s.
Proof.
  intros HQ. unfold lockLease. apply wp_bind, wp_throw_if. intros _. apply wp_bind, wp_query, wp_bind, wp_row.
  intros r Hr. apply wp_bind, wp_throw_if. rewrite negb_false_iff. intros Hh. by apply wp_ret, HQ.
Qed.

Lemma wp_validLease id (Q : unit → St → Prop) s :
  (∀ r s', fenced id (st_db s) r → st_db s' = st_db s → (st_reads s ≤ st_reads s')%nat → Q () s') →
  wp e (validLease id) Q s.
Proof.
  intros HQ. unfold validLease. apply wp_bind, wp_clock. intros s1 Hs1 Hr1.
  apply wp_bind, wp_query, wp_bind, wp_row. intros r Hr. apply wp_throw_if.
  rewrite negb_false_iff, andb_true_iff. intros [Hh Hu]. rewrite Hs1 in Hr.
  eapply HQ; [|done|lia]. split_and!; [exact Hr|done|by eexists].
Qed.

(** ** Heartbeat *)

Lemma Touched_row (db db' : DB) id r r1 :
  Inv limit db → db_jobs db !! id = Some r →
  At limit db id (Some r1) (λ a, db_reservations db !! (id, a)) (results_of id db) (events_of id db) db' →
  Terminal (jr_State r) = false → job_checks r1 = true →
  jr_Head r1 = jr_Head r → jr_State r1 = jr_State r → jr_Attempt r1 = jr_Attempt r →
  jr_LeaseSeq r1 = jr_LeaseSeq r → jr_WorkerID r1 = jr_WorkerID r → jr_EventSeq r1 = jr_EventSeq r →
  (jr_State r = Queued → jr_CancelAt r1 = None) → (is_Some (jr_CancelAt r) → is_Some (jr_CancelAt r1)) →
  Touched limit (only id) db db'.
Proof.
  intros Hinv Hr HA Ht Hc Eh Es Ea El Ew Ee Hq Hcancel.
  destruct (Inv_job _ _ _ _ Hinv Hr) as ([R1 R2 R3 R4] & Hresv & Hres & [V1 V2]).
  eapply Touched_At; [done|exact HA| |exact Hr| |done|done].
  - split_and!.
    + split; [by unfold j_ID; rewrite Eh|done|congruence|]. unfold j_Type. rewrite Es, Ea, Eh. intros E.
      destruct (R4 E) as (_ & ? & ?). by split_and!; [apply Hq|..].
    + eapply ResvInv_same; [exact Hresv|done|..]; unfold pending_attempt; rewrite ?Es, ?Ea; try done; lia.
    + eapply ResultsInv_same; [exact Hres|done|done|by rewrite Es..].
    + by split; rewrite ?Ee.
  - intros ? [= <-]. split; [done| | |done].
    + unfold phase. rewrite Es, Ea. constructor.
    + by rewrite Ht.
Qed.

(** What a heartbeat has done: the lease runs thirty seconds from a reading of the clock, and
    a revoked job is asked to stop. *)
Definition Beaten (id : LeaseIdentity) (db db' : DB) (hb : Heartbeat) : Prop :=
  ∃ r r', fenced id db r ∧ db_jobs db' !! id_JobID id = Some r' ∧ holds id r' = true ∧
    jr_State r' = jr_State r ∧ jr_LeaseUntil r' = Some (hb_ExpiresAt hb) ∧
    (∃ k, hb_ExpiresAt hb = clock e k + LeaseDuration) ∧
    hb_CancelRequested hb = CancelRequested r || revoked e (id_JobID id) ∧
    CancelRequested r' = hb_CancelRequested hb.

Lemma wp_beat id (Q : Heartbeat → St → Prop) s :
  Inv limit (st_db s) →
  (∀ hb s', Touched limit (only (id_JobID id)) (st_db s) (st_db s') → Beaten id (st_db s) (st_db s') hb →
     Q hb s') →
  wp e (beat id) Q s.
Proof.
  intros Hinv HQ. unfold beat. apply wp_bind, wp_throw_if. intros _. apply wp_bind, wp_ask.
  apply wp_bind, wp_clock. intros s1 Hs1 Hr1. apply wp_bind, wp_clock. intros s2 Hs2 Hr2.
  apply wp_bind, wp_clock. intros s3 Hs3 Hr3. rewrite Hs2, Hs1 in Hs3.
  apply wp_bind, wp_query, wp_bind, wp_row. rewrite Hs3. intros r Hr.
  apply wp_bind, wp_throw_if. rewrite negb_false_iff, andb_true_iff. intros [Hh Hu].
  pose proof (unexpired_live _ _ Hu) as Hlive.
  pose proof (ri_id _ _ (Inv_row _ _ _ _ Hinv Hr)) as Hid.
  set (r1 := beaten_job r _ _ _). apply wp_bind.
  eapply wp_update_job; [rewrite Hs3; by apply Inv_At_Some|done|]. intros Hchecks s4 Hr4 HA4.
  apply wp_ret. apply HQ.
  - eapply Touched_row; [done|exact Hr|exact HA4|..]; try done.
    + by apply live_not_terminal.
    + simpl. intros E. by rewrite E in Hlive.
    + simpl. intros ?. by destruct (revoked _ _).
  - exists r, r1. split_and!; try done.
    + split_and!; [done..|by eexists].
    + apply HA4.
    + by eexists.
    + simpl. unfold CancelRequested, r1. simpl.
      destruct (revoked _ _); rewrite ?orb_true_r, ?orb_false_r; [|done]. by rewrite bool_decide_true.
Qed.

(** ** Events *)

Lemma head_filter_Some {A} (p : A → bool) l w :
  head (filter (λ w, Is_true (p w)) l) = Some w → w ∈ l ∧ p w = true.
Proof.
  destruct (filter _ l) as [|x k] eqn:E; [done|]. intros [= <-].
  assert (x ∈ filter (λ w, Is_true (p w)) l) as [Hp Hin]%list_elem_of_filter by (rewrite E; set_solver).
  split; [done|]. by apply Is_true_true.
Qed.
Lemma head_filter_None {A} (p : A → bool) l w :
  head (filter (λ w, Is_true (p w)) l) = None → w ∈ l → p w = false.
Proof.
  intros H Hin. destruct (p w) eqn:Hp; [|done].
  assert (w ∈ filter (λ w, Is_true (p w)) l) as Hw by (apply list_elem_of_filter; by rewrite Hp).
  destruct (filter _ l); [by apply elem_of_nil in Hw|done].
Qed.

(** An event is answered from its record, or it is the next of its job; a job runs from
    its first event that is not about the lease. *)
Definition Recorded (id : LeaseIdentity) (input : EventInput) (db db' : DB) (receipt : EventReceipt) : Prop :=
  ∃ r, fenced id db r ∧
  if er_Replayed receipt
  then db' = db ∧ ∃ w, w ∈ db_events db ∧
       same_event (id_JobID id) (id_Attempt id) (id_LeaseSeq id) (er_EventID receipt) w = true ∧
       er_Seq receipt = ew_Seq w
  else er_Seq receipt = jr_EventSeq r + 1 ∧
       ∃ r', db_jobs db' !! id_JobID id = Some r' ∧ jr_EventSeq r' = jr_EventSeq r + 1 ∧
         jr_State r' = if ei_Phase input =s "leased" then jr_State r else Running.

Lemma wp_append_receipt job input (Q : EventReceipt → St → Prop) (r : JobRow) s :
  db_jobs (st_db s) !! j_ID job = Some r →
  wp e (appendJobEvent job input) Q s →
  wp e (appendJobEvent job input)
    (λ receipt s', er_Seq receipt = jr_EventSeq r + 1 ∧ er_Replayed receipt = false ∧ Q receipt s') s.
Proof.
  intros Hr. unfold wp. destruct (appendJobEvent job input e s) as [[receipt s']|] eqn:E; [|done].
  intros HQ. revert E. unfold appendJobEvent, mbind, Tx_bind.
  destruct (lift_tx _ e s) as [[clean s1]|] eqn:E1; [|done].
  assert (s1 = s) as ->.
  { unfold lift_tx in E1. destruct (cleanEvent input); [|done]. by injection E1. }
  unfold query at 1. rewrite Hr. simpl.
  destruct (update_job _ e s) as [[[] s2]|]; [|done]. unfold query. simpl.
  destruct (throw_if _ _ e s2) as [[[] s3]|]; [|done]. simpl. intros [= <- _]. done.
Qed.

Lemma clean_keeps input clean :
  cleanEvent input = Ok clean → ei_Phase clean = ei_Phase input ∧ ei_EventID clean = ei_EventID input.
Proof.
  unfold cleanEvent. destruct (_ || _); [done|]. destruct (ei_Error input) as [err|].
  - destruct (negb _); [done|]. by intros [= <-].
  - by intros [= <-].
Qed.

(** The rest of [record_event] for a new event. *)
Lemma wp_event_append (db : DB) id r r1 input (Q : EventReceipt → St → Prop) s :
  Inv limit db → db_jobs db !! id_JobID id = Some r → live_state (jr_State r) = true →
  At limit db (id_JobID id) (Some r1) (λ a, db_reservations db !! (id_JobID id, a))
    (results_of (id_JobID id) db) (events_of (id_JobID id) db) (st_db s) →
  r1 = r ∨ r1 = running_job r →
  (∀ receipt s', Touched limit (only (id_JobID id)) db (st_db s') → er_Seq receipt = jr_EventSeq r + 1 →
     er_Replayed receipt = false →
     db_jobs (st_db s') !! id_JobID id = Some (with_event_seq r1 (jr_EventSeq r + 1)) → Q receipt s') →
  wp e (receipt ← appendJobEvent r input; validLease id;; mret receipt) Q s.
Proof.
  intros Hinv Hr Hlive HA Hr1 HQ. destruct (Inv_job _ _ _ _ Hinv Hr) as (Hrow & Hresv & Hres & Hev).
  pose proof (ri_id _ _ Hrow) as Hid.
  assert (jr_Attempt r1 = jr_Attempt r ∧ jr_Head r1 = jr_Head r ∧ jr_EventSeq r1 = jr_EventSeq r ∧
          jr_CancelAt r1 = jr_CancelAt r ∧ jr_LeaseSeq r1 = jr_LeaseSeq r ∧ jr_WorkerID r1 = jr_WorkerID r ∧
          live_state (jr_State r1) = true ∧ moves (phase r) (phase r1)) as (E1&E2&E3&E4&E5&E6&E7&E8).
  { destruct Hr1 as [->| ->]; [split_and!; done || constructor|]. split_and!; [done..|].
    unfold phase. simpl. unfold live_state in Hlive.
    apply orb_true_iff in Hlive as [->%String.eqb_eq| ->%String.eqb_eq]; constructor. }
  apply wp_bind. eapply wp_mono; [apply (wp_append_receipt _ _ (λ _ s3,
    Touched limit (only (id_JobID id)) db (st_db s3) ∧
    db_jobs (st_db s3) !! id_JobID id = Some (with_event_seq r1 (jr_EventSeq r1 + 1))) r1)|].
  - rewrite Hid. apply HA.
  - eapply (wp_finish limit e db (id_JobID id) r r1);
      [exact Hinv|exact Hr|exact HA|exact Hid|by apply live_not_terminal|..]; try done.
    + by rewrite E4.
    + rewrite E5, E1. apply Hrow.
    + intros E. by rewrite E in E7.
    + eapply ResvInv_same; [exact Hresv|done|..]; rewrite ?E1; try lia.
      * by rewrite !pending_live, E1.
      * by rewrite (live_not_terminal _ E7), (live_not_terminal _ Hlive).
    + eapply ResultsInv_same; [exact Hres|done|done|done|].
      split; intros E; [by rewrite E in E7|by rewrite E in Hlive].
  - simpl. intros receipt s3 (Eseq & Erep & HT & Hr3). apply wp_bind, wp_validLease.
    intros r3 s4 _ Hs4 _. apply wp_ret. rewrite <-Hs4 in HT, Hr3. rewrite E3 in *. by apply HQ.
Qed.

Lemma wp_event id input (Q : EventReceipt → St → Prop) s :
  Inv limit (st_db s) →
  (∀ receipt s', Touched limit (only (id_JobID id)) (st_db s) (st_db s') →
     Recorded id input (st_db s) (st_db s') receipt → Q receipt s') →
  wp e (record_event id input) Q s.
Proof.
  intros Hinv HQ. unfold record_event. apply wp_bind, wp_lift. intros clean Hclean.
  destruct (clean_keeps _ _ Hclean) as [Eph Eid].
  apply wp_bind, wp_lockLease. intros r Hr Hh. apply wp_bind, wp_validLease.
  intros r' s1 Hf Hs1 _. assert (r' = r) as -> by (destruct Hf; congruence).
  pose proof (fenced_live _ _ _ Hf) as Hlive.
  apply wp_bind, wp_throw_if. intros _. apply wp_bind, wp_query. rewrite Hs1.
  destruct (head _) as [w|] eqn:Ew.
  { apply wp_bind, wp_throw_if. intros _. apply wp_ret, HQ; rewrite Hs1; [by apply Touched_refl|].
    exists r. split; [done|]. split; [done|]. exists w.
    destruct (head_filter_Some _ _ _ Ew). by rewrite Eid in *. }
  apply wp_bind. rewrite <-Hs1 in *. pose proof (ri_id _ _ (Inv_row _ _ _ _ Hinv Hr)) as Hid.
  rewrite Eph. destruct (ei_Phase input =s "leased") eqn:Ep.
  - apply wp_ret. eapply wp_event_append; [done|exact Hr|done|by apply Inv_At_Some|by left|].
    intros receipt s2 HT E1 E2 Hr2. apply HQ; [done|]. exists r. split; [done|]. rewrite E2.
    split; [done|]. eexists. split; [exact Hr2|]. by rewrite Ep.
  - eapply wp_update_row; [by apply Inv_At_Some|exact Hid|]. intros s2 Hr2 HA2.
    eapply wp_event_append; [done|exact Hr|done|exact HA2|by right|].
    intros receipt s3 HT E1 E2 Hr3. apply HQ; [done|]. exists r. split; [done|]. rewrite E2.
    split; [done|]. eexists. split; [exact Hr3|]. by rewrite Ep.
Qed.

(** ** Results *)

(** What a commit callback may do: anything, to other tables and to new jobs, but nothing
    to the jobs there are. *)
Definition commits (m : Tx unit) : Prop := ∀ s (Q : unit → St → Prop),
  Inv limit (st_db s) →
  (∀ s', Touched limit (absent (st_db s)) (st_db s) (st_db s') → Q () s') → wp e m Q s.

Lemma canonical_terminal input clean hash :
  canonicalResult input = Ok (clean, hash) →
  Terminal (rs_State clean) = true ∧ rs_State clean = rs_State input.
Proof.
  unfold canonicalResult. destruct (negb (Observation_ok _)); [done|].
  destruct (negb (Terminal (rs_State input)) || _ || _ || _) eqn:E; [done|].
  rewrite !orb_false_iff, negb_false_iff in E. destruct E as [[[Ht _] _] _].
  destruct (match rs_Error input with Some _ => _ | None => _ end) as [err|]; [|done]. simpl.
  destruct (ResultHash _) as [h|]; [|done]. destruct (_ && _); [done|]. by intros [= <- _].
Qed.

Lemma wp_outcome job input id row f rs es (db : DB) (Q : string * string * option SafeError → St → Prop) s :
  At limit db id row f rs es (st_db s) → j_ID job = id → Terminal (rs_State input) = true →
  (∀ state verdict err f' s', At limit db id row f' rs es (st_db s') →
     (state = rs_State input ∧ f' = f ∨
      rs_State input = Failed ∧
      (state = Failed ∧ f' = f ∨
       infrastructureRetry job input = true ∧ state = Queued ∧
       if is_network (j_Type job) then ∃ m, reserves (j_ScopeID job) f (jr_Attempt job + 1) m f' else f' = f)) →
     Q (state, verdict, err) s') →
  wp e (outcome_of job input) Q s.
Proof.
  intros HA Hid Ht HQ. unfold outcome_of.
  destruct (terminal_not_live _ Ht) as [_ Hnq].
  destruct (infrastructureRetry job input) eqn:Hretry; simpl.
  - assert (rs_State input = Failed) as Hf.
    { unfold infrastructureRetry in Hretry. rewrite andb_true_iff, negb_true_iff, !orb_false_iff in Hretry.
      destruct Hretry as [[[_ H%negb_false_iff] _] _]. by apply String.eqb_eq. }
    destruct (is_network (j_Type job)) eqn:Hnet; simpl.
    + apply wp_bind. eapply wp_retry; [exact HA|done|..].
      * intros s' _ HA'. apply wp_ret. eapply HQ; [exact HA'|]. right. split; [done|]. by left.
      * intros m f' s' _ Hres HA'. apply wp_ret. eapply HQ; [exact HA'|]. right. split; [done|].
        right. eauto.
    + apply wp_ret. eapply HQ; [exact HA|]. right. split; [done|]. by right.
  - rewrite Hnq. simpl. apply wp_ret. eapply HQ; [exact HA|]. by left.
Qed.

Lemma retry_allowed job input :
  infrastructureRetry job input = true →
  jr_CancelAt job = None ∧ jr_Attempt job ≤ 1 ∧ j_Type job ≠ DownloadThroughput.
Proof.
  unfold infrastructureRetry, CancelRequested. rewrite andb_true_iff, negb_true_iff, !orb_false_iff.
  intros [[[[Ht Ha] _] Hc] _]. apply bool_decide_eq_false in Hc. split_and!; [|lia|].
  - destruct (jr_CancelAt job); [|done]. destruct Hc. by eexists.
  - intros E. by rewrite E in Ht.
Qed.

(** [insert_result] appends; the key of the row is new. *)
Lemma wp_insert_result (db : DB) w id row f rs es (Q : unit → St → Prop) s :
  At limit db id row f rs es (st_db s) → rw_JobID w = id →
  (∀ s', 1 ≤ rw_Attempt w ≤ 2 → At limit db id row f (rs ++ [w]) es (st_db s') → Q () s') →
  wp e (insert_result w) Q s.
Proof.
  intros HA Hid HQ. unfold insert_result. apply wp_bind, wp_query, wp_bind, wp_throw_if. intros _.
  apply wp_bind, wp_throw_if. unfold between. rewrite !orb_false_iff, negb_false_iff, andb_true_iff. intros Hr.
  apply wp_exec. intros s' Hs' _. apply HQ; [lia|]. rewrite Hs'.
  destruct HA as [H1 H2 H3 H4 H5 H6 H7 H8 H9 H10]. split; try done; simpl.
  - unfold results_of in *. simpl. by rewrite filter_app, H3, filter_cons_True.
  - intros id' Hne. unfold results_of in *. simpl.
    rewrite filter_app, filter_cons_False, app_nil_r by congruence. auto.
  - by eapply Accounts_ext; [..|exact H10].
Qed.

Lemma wp_end_attempt (db : DB) lease id state verdict err job f rs es (Q : unit → St → Prop) s :
  At limit db id (Some job) f rs es (st_db s) → id_JobID lease = id → j_ID job = id →
  (∀ finished s', fenced lease (st_db s) job →
     At limit db id (Some (ended_job job state verdict err finished)) f rs es (st_db s') → Q () s') →
  wp e (end_attempt lease state verdict err) Q s.
Proof.
  intros HA Hl Hid HQ. unfold end_attempt. apply wp_bind, wp_clock. intros s1 Hs1 Hr1.
  apply wp_bind, wp_clock. intros s2 Hs2 Hr2. rewrite Hs1 in Hs2. rewrite <-Hs2 in HA.
  apply wp_bind, wp_query, wp_bind, wp_row. rewrite Hl, (at_row _ _ _ _ _ _ _ _ HA). intros ? [= <-].
  apply wp_bind, wp_throw_if. rewrite negb_false_iff, andb_true_iff. intros [Hh Hu].
  eapply wp_update_row; [exact HA|done|]. intros s3 Hr3 HA3. eapply HQ; [|exact HA3].
  rewrite <-Hs2. split_and!; [rewrite Hl; apply HA|done|by eexists].
Qed.

(** What an accepted result has done: the lease was held and had not expired; the result
    is recorded once, the attempt is over, and the job ends as the result says or is
    queued for its second attempt. *)
Record Accepted (id : LeaseIdentity) (input : Result) (hash : string) (db db' : DB)
    (receipt : ResultReceipt) : Prop := {
  ap_fenced : ∃ r, fenced id db r ∧ (CancelRequested r = true → rs_State input = Canceled);
  ap_recorded : ∃ w, results_of (id_JobID id) db' = results_of (id_JobID id) db ++ [w] ∧
    same_lease id w = true ∧ rw_WorkerID w = id_WorkerID id ∧ rw_Hash w = hash ∧
    rw_Result w = input ∧ rw_ResultID w = rr_ResultID receipt ∧ rw_SettledBytes w = rr_SettledBytes receipt;
  ap_after : ∃ r', db_jobs db' !! id_JobID id = Some r' ∧ live_state (jr_State r') = false ∧
    (jr_State r' = rs_State input ∨
     rs_State input = Failed ∧ (jr_State r' = Failed ∨ jr_State r' = Queued)) }.

(** The callback of a result, if it has one. *)
Lemma wp_callback callback (canceled : bool) (Q : unit → St → Prop) s :
  Inv limit (st_db s) → (∀ m, callback = Some m → commits m) →
  (∀ s', Touched limit (absent (st_db s)) (st_db s) (st_db s') → Q () s') →
  wp e match callback with
       | Some commit => throw_if canceled ErrCanceled;; commit
       | None => mret ()
       end Q s.
Proof.
  intros Hinv Hcb HQ. destruct callback as [m|].
  - apply wp_bind, wp_throw_if. intros _. by apply (Hcb m).
  - apply wp_ret, HQ. by apply Touched_refl.
Qed.

(** The statements of [accept_result] after the callback, on the job as it is then. *)
Lemma wp_end_with (db : DB) id job input hash (Q : ResultReceipt → St → Prop) s :
  Inv limit db → db_jobs db !! id_JobID id = Some job → st_db s = db → holds id job = true →
  live_state (jr_State job) = true → Terminal (rs_State input) = true →
  (∀ receipt w r' s', Touched limit (only (id_JobID id)) db (st_db s') →
     db_jobs (st_db s') !! id_JobID id = Some r' → live_state (jr_State r') = false →
     (jr_State r' = rs_State input ∨
      rs_State input = Failed ∧ (jr_State r' = Failed ∨ jr_State r' = Queued)) →
     results_of (id_JobID id) (st_db s') = results_of (id_JobID id) db ++ [w] →
     w = {| rw_ResultID := rr_ResultID receipt; rw_JobID := id_JobID id; rw_WorkerID := id_WorkerID id;
            rw_Attempt := id_Attempt id; rw_LeaseSeq := id_LeaseSeq id; rw_Hash := hash;
            rw_Result := input; rw_SettledBytes := rr_SettledBytes receipt |} →
     rr_Replayed receipt = false → Q receipt s') →
  wp e (result_id ← newJobID;
        settled ← settleAttempt job (jr_Attempt job) (me_BodyBytes (rs_Metrics input));
        insert_result {| rw_ResultID := result_id; rw_JobID := id_JobID id; rw_WorkerID := id_WorkerID id;
                         rw_Attempt := id_Attempt id; rw_LeaseSeq := id_LeaseSeq id; rw_Hash := hash;
                         rw_Result := input; rw_SettledBytes := settled |};;
        after ← outcome_of job input;
        let '(state, verdict, err) := (after : string * string * option SafeError) in
        end_attempt id state verdict err;;
        (if state =s Queued then queue_event "queued" 0 verdict err job
         else queue_event "completed" 1 verdict err job);;
        mret {| rr_JobID := id_JobID id; rr_Attempt := id_Attempt id; rr_LeaseSeq := id_LeaseSeq id;
                rr_ResultID := result_id; rr_ResultHash := hash; rr_Replayed := false;
                rr_SettledBytes := settled |}) Q s.
Proof.
  intros Hinv Hjob Hs Hh Hlive Ht HQ. destruct (Inv_job _ _ _ _ Hinv Hjob) as (Hrow & Hresv & Hres & _).
  pose proof (ri_id _ _ Hrow) as Hid.
  apply wp_bind, wp_id. intros i s1 Hs1 Hr1. rewrite Hs in Hs1.
  apply wp_bind. eapply wp_settle; [rewrite Hs1; by apply Inv_At_Some|done|]. intros n f1 s2 _ Hset _ HA2.
  apply wp_bind. eapply wp_insert_result; [exact HA2|done|]. intros s3 Hatt HA3. simpl in Hatt.
  apply wp_bind. eapply wp_outcome; [exact HA3|done|done|]. intros state verdict err f2 s4 HA4 Hcase.
  apply wp_bind. eapply wp_end_attempt; [exact HA4|done|done|]. intros finished s5 _ HA5.
  set (w := {| rw_ResultID := i |}) in *.
  unfold holds in Hh. rewrite !andb_true_iff, bool_decide_eq_true, !Z.eqb_eq in Hh.
  destruct Hh as [[Hw Ha] Hl].
  assert (end_case job state (λ a, db_reservations db !! (id_JobID id, a)) f2 ∧ live_state state = false ∧
          (state = Succeeded ↔ rs_State input = Succeeded) ∧
          (state = rs_State input ∨ rs_State input = Failed ∧ (state = Failed ∨ state = Queued)))
    as (Hend & Hnl & Hsucc & Hstate).
  { destruct Hcase as [[-> ->]|(Ef & [[-> ->]|(Hretry & -> & Hf)])].
    - destruct (terminal_not_live _ Ht) as [? _]. split_and!; [by left|done|done|by left].
    - rewrite Ef. split_and!; [by left|done|done|by left].
    - destruct (retry_allowed _ _ Hretry) as (Hc & Hatt' & Hty). rewrite Ef.
      split_and!; [|done|done|by right; split; [|right]]. right. split_and!; [done..|].
      destruct (is_network (j_Type job)); [destruct Hf as [m Hf]; by exists f1, m|by exists f1, 0]. }
  assert (∀ ph c, wp e (queue_event ph c verdict err job) (λ _, wp e (mret
            {| rr_JobID := id_JobID id; rr_Attempt := id_Attempt id; rr_LeaseSeq := id_LeaseSeq id;
               rr_ResultID := i; rr_ResultHash := hash; rr_Replayed := false;
               rr_SettledBytes := n |}) Q) s5) as Hev.
  { intros ph c. apply wp_queue_event. intros ev s6 Hs6 Hr6. rewrite <-Hs6 in HA5.
    eapply (wp_ended limit e db _ job); [exact Hinv|exact Hjob|done|exact HA5|exact Hend| |by apply prefix_app_r|].
    - eapply ResultsInv_add; [exact Hres|..]; try done.
      + lia.
      + simpl. pose proof (ri_lease _ _ Hrow). lia.
    - intros receipt s7 _ HT Hrow7 Hres7. apply wp_ret.
      eapply HQ; [exact HT|exact Hrow7|done|done|exact Hres7|done|done]. }
  apply wp_bind. destruct (state =s Queued); apply Hev.
Qed.

(** The jobs an accepted result touches: its own, and those its callback adds. *)
Definition own_or_new (db : DB) (id : ID) : ID → Prop := λ i, absent db i ∨ i = id.

Lemma wp_accept id job input hash callback (Q : ResultReceipt → St → Prop) s :
  Inv limit (st_db s) → (∀ m, callback = Some m → commits m) →
  db_jobs (st_db s) !! id_JobID id = Some job → Terminal (rs_State input) = true →
  (∀ receipt s', Touched limit (own_or_new (st_db s) (id_JobID id)) (st_db s) (st_db s') →
     Accepted id input hash (st_db s) (st_db s') receipt → rr_Replayed receipt = false → Q receipt s') →
  wp e (accept_result id job input hash callback) Q s.
Proof.
  intros Hinv Hcb Hjob Ht HQ. unfold accept_result.
  apply wp_bind, wp_validLease. intros r s1 Hf Hs1 _.
  assert (r = job) as -> by (destruct Hf; congruence). rewrite <-Hs1 in Hinv, Hjob, Hf.
  pose proof (fenced_live _ _ _ Hf) as Hlive. destruct Hf as (_ & Hh & Hu).
  apply wp_bind, wp_throw_if. intros Hcancel.
  apply wp_bind, wp_callback; [done|done|]. intros s2 HT2.
  assert (db_jobs (st_db s2) !! id_JobID id = Some job) as Hjob2.
  { rewrite (tc_row _ _ _ _ HT2); [done|]. unfold absent. congruence. }
  apply wp_bind, wp_validLease. intros r s3 _ Hs3 _. rewrite <-Hs3 in HT2, Hjob2.
  eapply wp_end_with; [apply HT2|exact Hjob2|done|done|done|done|].
  intros receipt w r' s4 HT4 Hr' Hnl Hstate Hres Hw Hrep. rewrite Hs1 in *. apply HQ; [| |done].
  - eapply Touched_trans; [exact HT2|exact HT4|]. unfold absent. intros i Hi ->. congruence.
  - split.
    + exists job. split; [done|]. intros Ec. rewrite Ec in Hcancel. simpl in Hcancel.
      apply negb_false_iff in Hcancel. by apply String.eqb_eq.
    + exists w. rewrite <-(tc_results_same _ _ _ _ HT2); [|unfold absent; congruence].
      split; [done|]. rewrite Hw. unfold same_lease. simpl. by rewrite String.eqb_refl, !Z.eqb_refl.
    + by exists r'.
Qed.

(** [CompleteTx]: a result that was accepted before is answered from its record, which
    changes nothing; otherwise it is accepted. *)
Lemma wp_complete id input callback (Q : ResultReceipt → St → Prop) s :
  Inv limit (st_db s) → (∀ m, callback = Some m → commits m) →
  (∀ w clean hash receipt, canonicalResult input = Ok (clean, hash) → w ∈ db_results (st_db s) →
     same_lease id w = true → rw_WorkerID w = id_WorkerID id → rw_Hash w = hash →
     rr_ResultID receipt = rw_ResultID w → rr_SettledBytes receipt = rw_SettledBytes w →
     rr_Replayed receipt = true → Q receipt s) →
  (∀ clean hash receipt s', canonicalResult input = Ok (clean, hash) →
     (∀ w, w ∈ db_results (st_db s) → same_lease id w && (rw_WorkerID w =s id_WorkerID id) = false) →
     Touched limit (own_or_new (st_db s) (id_JobID id)) (st_db s) (st_db s') →
     Accepted id clean hash (st_db s) (st_db s') receipt → rr_Replayed receipt = false → Q receipt s') →
  wp e (CompleteTx id input callback) Q s.
Proof.
  intros Hinv Hcb HR HQ. unfold CompleteTx. apply wp_bind, wp_lift. intros [clean hash] Hclean.
  destruct (canonical_terminal _ _ _ Hclean) as [Ht _].
  apply wp_bind, wp_lockLease. intros job Hjob Hh. apply wp_bind, wp_throw_if. intros _.
  apply wp_bind, wp_query. destruct (head _) as [w|] eqn:Ew.
  - apply head_filter_Some in Ew as [Hw Hs]. apply andb_true_iff in Hs as [Hs Hworker%String.eqb_eq].
    apply wp_bind, wp_throw_if. rewrite negb_false_iff, String.eqb_eq. intros Eh.
    apply wp_ret. by eapply HR.
  - eapply wp_accept; [done|done|exact Hjob|done|]. intros receipt s' HT Hacc Hrep.
    eapply HQ; [done| |done|done|done]. intros w Hw. by eapply head_filter_None in Ew.
Qed.
End Ends.
