(* ===== verification/QueueLaws.v ===== *)
(** Jobs and batches enter the queue, and are canceled. Histories of the queue: its
    transactions, and the writes of the rest of the program to the same database, as a step
    relation. What the theorems rest on beyond the steps: refusals, replays,
    quota columns, batch sums and canonical results. *)
From S2P Require Import Prelude Diagnostics IRTypes Hashes Json IRValidate Network RunnerProtocol.
From S2P Require Import Jobs Queue QueueFacts QueueSteps QueueEnds.

Section Intake.
Context {P : Platform} {N : Network} {F : Float64} {W : Zones} {L : Payloads} {Business : Type}.
Context (limit : ID → Z) (e : Env).
Abbreviation DB := (@DB F Business).
Abbreviation St := (@St F Business).
Abbreviation Tx := (@Tx F Business).
Abbreviation only id := (λ i : ID, i = id).

(** ** Enqueue *)

Lemma wp_check_payload input (Q : unit → St → Prop) s : Q () s → wp e (check_payload input) Q s.
Proof.
  intros HQ. unfold check_payload. apply wp_if; intros _; [|by apply wp_throw_if].
  apply wp_bind, wp_row. intros frozen _. by apply wp_throw_if.
Qed.

(** A new job is queued, at revision one, with no attempt behind it. *)
Definition enqueued (input : EnqueueInput) (id : ID) (job : JobRow) : Prop :=
  j_ID job = id ∧ j_ScopeID job = en_ScopeID input ∧ jh_BatchID (jr_Head job) = en_BatchID input ∧
  j_Executor job = en_Executor input ∧ j_Type job = en_Type input ∧ job = new_job (jr_Head job).

Lemma wp_insert_job input id (Q : JobRow → St → Prop) s :
  Inv limit (st_db s) →
  (∀ job s', db_jobs (st_db s) !! id = None → enqueued input id job → job_checks job = true →
     At limit (st_db s) id (Some job) (λ a, db_reservations (st_db s) !! (id, a))
       (results_of id (st_db s)) (events_of id (st_db s)) (st_db s') → Q job s') →
  wp e (insert_job input id) Q s.
Proof.
  intros Hinv HQ. unfold insert_job. apply wp_bind, wp_clock. intros s1 Hs1 _. apply wp_bind, wp_ask.
  set (job := new_job _). apply wp_bind, wp_throw_if. intros _.
  apply wp_bind, wp_query, wp_bind, wp_throw_if. rewrite bool_decide_eq_false. intros Hn.
  assert (db_jobs (st_db s) !! id = None) as Hnew.
  { rewrite Hs1 in Hn. destruct (db_jobs (st_db s) !! id) eqn:E; [|done]. destruct Hn. by eexists. }
  apply wp_bind, wp_query, wp_bind, wp_throw_if. intros _.
  apply wp_bind. eapply wp_update_job; [rewrite Hs1; by apply Inv_At|done|]. intros Hc s2 _ HA2.
  apply wp_ret, HQ; [done| |done|done]. by split_and!.
Qed.

Lemma wp_reserved_payload (db : DB) job plain id row f rs es (Q : string → St → Prop) s :
  At limit db id row f rs es (st_db s) → j_ID job = id →
  (∀ text f' s', At limit db id row f' rs es (st_db s') →
     (if is_network (j_Type job) then ∃ m, reserves (j_ScopeID job) f 1 m f' else f' = f) → Q text s') →
  wp e (reserved_payload job plain) Q s.
Proof.
  intros HA Hid HQ. unfold reserved_payload. apply wp_if; intros Hnet.
  - apply wp_bind, wp_row. intros frozen _. apply wp_bind. eapply wp_reserve; [exact HA|done|..].
    + intros _ s' _ _. apply wp_bind. exact I.
    + intros _ i f' s' _ Hres HA'. apply wp_bind, wp_row. intros i' _. apply wp_row. intros text _.
      eapply HQ; [exact HA'|]. rewrite Hnet. by eexists.
  - apply wp_ret. eapply HQ; [exact HA|]. by rewrite Hnet.
Qed.

(** The first reservation of a new job. *)
Lemma ResvInv_new r f f' :
  r = new_job (jr_Head r) → (∀ a, f a = None) →
  (if is_network (j_Type r) then ∃ m, reserves (j_ScopeID r) f 1 m f' else f' = f) → ResvInv r f'.
Proof.
  intros Er Hf Hres.
  assert (pending_attempt r = Some 1 ∧ jr_Attempt r = 0) as [Ep Ea] by (rewrite Er; done).
  destruct (is_network (j_Type r)) eqn:Hnet.
  - destruct Hres as (m & [(x & Hx & _)|(_ & _ & x & Hs & Hx & _ & ->)]); [by rewrite Hf in Hx|].
    split; unfold upd; [congruence|..]; rewrite ?Ep, ?Ea.
    + intros a y. destruct (decide (a = 1)) as [->|]; [|by rewrite Hf].
      intros [= <-]. split_and!; [lia..|done|done|by right; left].
    + intros _ a [Ha|[= <-]]; [lia|]. by rewrite decide_True.
  - subst f'. split; [auto| |congruence]. intros a y. by rewrite Hf.
Qed.

Lemma JobInv_new id job f f' w :
  j_ID job = id → job = new_job (jr_Head job) → job_checks (with_event_seq job 1) = true →
  (∀ a, f a = None) →
  (if is_network (j_Type job) then ∃ m, reserves (j_ScopeID job) f 1 m f' else f' = f) →
  ew_Seq w = 1 → JobInv id (Some (with_event_seq job 1)) f' [] [w].
Proof.
  intros Hid Enew Hc Hf Hf' Hw.
  assert (ResvInv job f') as [V1 V2 V3] by by eapply ResvInv_new.
  assert (jr_State job = Queued) as Eq by by rewrite Enew.
  unfold JobInv. split_and!.
  - split; [done|done|by rewrite Enew|]. intros _. by rewrite Enew.
  - by split.
  - split; simpl; rewrite ?Eq; [constructor|set_solver|set_solver| |set_solver].
    split; [done|]. intros (x & Hx & _). by apply elem_of_nil in Hx.
  - split; simpl; [by rewrite Hw|apply NoDup_singleton].
Qed.

(** [EnqueueTx] once the identifier is chosen. *)
Lemma wp_enqueue_as input id (Q : JobRow → St → Prop) s :
  Inv limit (st_db s) →
  (∀ job s', absent (st_db s) id → Touched limit (only id) (st_db s) (st_db s') →
     db_jobs (st_db s') !! id = Some (with_event_seq job 1) → enqueued input id job → Q job s') →
  wp e (job ← insert_job input id; plain ← reserved_payload job (en_Payload input);
        sealed ← row (Seal (en_ScopeID input) id plain) ErrUnavailable;
        exec (λ db, with_payloads db (<[id := sealed]> (db_payloads db)));;
        queue_event "queued" 0 "" None job;; mret job) Q s.
Proof.
  intros Hinv HQ. apply wp_bind, wp_insert_job; [done|].
  intros job s1 Hnew Hjob Hc HA1. pose proof Hjob as (Hid & _ & _ & _ & _ & Enew).
  apply wp_bind. eapply wp_reserved_payload; [exact HA1|done|]. intros text f' s2 HA2 Hf'.
  apply wp_bind, wp_row. intros sealed _. apply wp_bind, wp_exec. intros s3 Hs3 _.
  pose proof (in_jobs _ _ Hinv id) as HJ. rewrite Hnew in HJ. destruct HJ as (Hf0 & Hr0 & He0).
  assert (At limit (st_db s) id (Some job) f' [] [] (st_db s3)) as HA3.
  { rewrite Hs3. rewrite Hr0, He0 in HA2. destruct HA2 as [H1 H2 H3 H4 H5 H6 H7 H8 H9 H10].
    split; try done. by eapply Accounts_ext; [..|exact H10]. }
  apply wp_bind, wp_queue_event. intros ev s4 Hs4 _. rewrite <-Hs4 in HA3.
  eapply wp_append; [exact HA3|done|done|]. intros receipt w s5 _ Hw Hseq _ _ _ Hchecks HA5.
  assert (jr_EventSeq job = 0) as Ese by (rewrite Enew; done). rewrite Ese in *. apply wp_ret.
  eapply (HQ job); [exact Hnew| |apply (at_row _ _ _ _ _ _ _ _ HA5)|exact Hjob].
  eapply Touched_At; [exact Hinv|exact HA5| |exact Hnew|done|by rewrite Hr0|by rewrite He0; apply prefix_nil].
  exact (JobInv_new _ _ _ _ _ Hid Enew Hchecks Hf0 Hf' Hseq).
Qed.

Lemma wp_enqueue input (Q : JobRow → St → Prop) s :
  Inv limit (st_db s) →
  (∀ id job s', absent (st_db s) id → Touched limit (only id) (st_db s) (st_db s') →
     db_jobs (st_db s') !! id = Some (with_event_seq job 1) → enqueued input id job →
     (en_ID input ≠ "" → id = en_ID input) → Q job s') →
  wp e (EnqueueTx input) Q s.
Proof.
  intros Hinv HQ. unfold EnqueueTx. apply wp_bind, wp_throw_if. intros _.
  apply wp_bind, wp_check_payload, wp_bind. destruct (en_ID input =s "") eqn:Ee.
  - apply String.eqb_eq in Ee. apply wp_id. intros i s1 Hs1 _. rewrite <-Hs1 in *.
    apply wp_enqueue_as; [done|]. intros job s2 ????. by eapply HQ.
  - apply wp_ret, wp_enqueue_as; [done|]. intros job s2 ????. by eapply HQ.
Qed.

(** Putting a job in the queue is something a callback may do. *)
Lemma enqueue_commits input : commits limit e (EnqueueTx input;; mret () : Tx unit).
Proof.
  intros s Q Hinv HQ. apply wp_bind, wp_enqueue; [done|].
  intros id job s' Habs HT _ _ _. apply wp_ret, HQ. eapply Touched_mono; [|exact HT].
  intros i ->. exact Habs.
Qed.

(** ** Batches *)

(** Reading a batch changes nothing; its children are jobs of its scope and its batch. *)
Lemma wp_readBatch scope id (Q : Batch → St → Prop) s :
  (∀ b row, db_batches (st_db s) !! id = Some row → bt_ScopeID row = scope →
     (∀ r, r ∈ ba_Children b ↔ r ∈ rows (st_db s) ∧ j_ScopeID r = scope ∧ jh_BatchID (jr_Head r) = id) →
     (NoDup (rows (st_db s)) → NoDup (ba_Children b)) →
     b = aggregateBatch {| ba_ID := id; ba_ScopeID := scope; ba_Revision := bt_Revision row; ba_State := "";
           ba_Verdict := ""; ba_Children := ba_Children b; ba_Completed := 0;
           ba_CancelRequested := bool_decide (is_Some (bt_CancelAt row));
           ba_EffectiveLimits := bt_Limits row; ba_CreatedAt := bt_CreatedAt row |} → Q b s) →
  wp e (readBatch scope id) Q s.
Proof.
  intros HQ. unfold readBatch. apply wp_bind, wp_query, wp_bind, wp_row. intros b Hb.
  apply wp_bind, wp_throw_if. rewrite negb_false_iff, String.eqb_eq. intros Hs.
  apply wp_bind, wp_query. fold (rows (st_db s)). apply wp_bind, wp_throw_if. intros _. apply wp_ret.
  eapply (HQ _ b); [done|done| | |].
  - intros r. simpl. unfold SliceStable. rewrite elem_of_isort, list_elem_of_filter.
    rewrite Is_true_true, andb_true_iff, !String.eqb_eq. tauto.
  - intros Hnd. simpl. unfold SliceStable. rewrite isort_perm. by apply NoDup_filter.
  - done.
Qed.

Lemma wp_batch_child input id child (Q : unit → St → Prop) s :
  Inv limit (st_db s) →
  (∀ s', Touched limit (absent (st_db s)) (st_db s) (st_db s') → Q () s') →
  wp e (batch_child input id child) Q s.
Proof.
  intros Hinv HQ. unfold batch_child. apply wp_bind, wp_throw_if. intros _.
  by apply (enqueue_commits).
Qed.

Lemma wp_each_adds {A} (f : A → Tx unit) l (Q : unit → St → Prop) s :
  (∀ x, x ∈ l → commits limit e (f x)) → Inv limit (st_db s) →
  (∀ s', Touched limit (absent (st_db s)) (st_db s) (st_db s') → Q () s') → wp e (each f l) Q s.
Proof.
  revert s Q. induction l as [|x l IH]; intros s Q Hf Hinv HQ; simpl.
  { apply wp_ret, HQ. by apply Touched_refl. }
  apply wp_bind, Hf; [set_solver|done|]. intros s1 HT1.
  apply IH; [intros; apply Hf; set_solver|apply HT1|]. intros s2 HT2.
  apply HQ. by eapply Touched_adds.
Qed.

Lemma wp_create_batch input (Q : Batch → St → Prop) s :
  Inv limit (st_db s) →
  (∀ b s', Touched limit (absent (st_db s)) (st_db s) (st_db s') → Q b s') →
  wp e (CreateBatchTx input) Q s.
Proof.
  intros Hinv HQ. unfold CreateBatchTx. apply wp_bind, wp_throw_if. intros _. apply wp_bind.
  assert (∀ id s1, st_db s1 = st_db s → wp e (env ← ask;
    throw_if (negb (scope_exists env (bi_ScopeID input))) ErrInvalidInput;;
    existing ← query (λ db, db_batches db !! id);
    throw_if (bool_decide (is_Some existing)) ErrConflict;;
    created ← clock_timestamp;
    exec (λ db, with_batches db (<[id :=
      {| bt_ScopeID := bi_ScopeID input; bt_Revision := 1; bt_Limits := bi_EffectiveLimits input;
         bt_CancelAt := None; bt_CreatedAt := created |}]> (db_batches db)));;
    each (batch_child input id) (bi_Children input);;
    readBatch (bi_ScopeID input) id) Q s1) as Hgo.
  { intros id s1 Hs1. apply wp_bind, wp_ask, wp_bind, wp_throw_if. intros _.
    apply wp_bind, wp_query, wp_bind, wp_throw_if. intros _. apply wp_bind, wp_clock. intros s2 Hs2 _.
    apply wp_bind, wp_exec. intros s3 Hs3 _. rewrite Hs2, Hs1 in Hs3.
    assert (Touched limit (absent (st_db s)) (st_db s) (st_db s3)) as HT3.
    { rewrite Hs3. by apply Touched_other. }
    apply wp_bind, wp_each_adds; [|apply HT3|].
    - intros child _ s4 Q4 Hinv4 HQ4. by apply wp_batch_child.
    - intros s4 HT4. apply wp_readBatch. intros b ? _ _ _ _ _. apply HQ. by eapply Touched_adds. }
  apply wp_if; intros _; [apply wp_id|apply wp_ret]; auto.
Qed.
(** ** Cancellation *)

(** What a cancellation has done: the job it answers with, or every child of the batch, has
    ended or is asked to stop. *)
Definition Canceling (scope id : ID) (revision : Z) (db db' : DB) (snapshot : Snapshot) : Prop :=
  match snapshot with
  | Snapshot_Job r' => ∃ r, db_jobs db !! id = Some r ∧ j_ScopeID r = scope ∧ jr_Revision r = revision ∧
      db_jobs db' !! id = Some r' ∧ stopping r'
  | Snapshot_Batch b => ∀ r, r ∈ rows db' → j_ScopeID r = scope → jh_BatchID (jr_Head r) = id →
      r ∈ ba_Children b ∧ stopping r
  end.

Lemma rows_elem (db : DB) id r : db_jobs db !! id = Some r → r ∈ rows db.
Proof.
  intros H. unfold rows. apply list_elem_of_fmap. exists (id, r). split; [done|].
  by apply elem_of_map_to_list.
Qed.

Lemma wp_cancel_job id (job : JobRow) revision (Q : bool * Snapshot → St → Prop) s :
  Inv limit (st_db s) → db_jobs (st_db s) !! id = Some job →
  (∀ changed r' s', Touched limit (only id) (st_db s) (st_db s') → jr_Revision job = revision →
     db_jobs (st_db s') !! id = Some r' → stopping r' → Q (changed, Snapshot_Job r') s') →
  wp e (cancel_job id job revision) Q s.
Proof.
  intros Hinv Hjob HQ. unfold cancel_job. apply wp_bind, wp_throw_if.
  rewrite negb_false_iff, Z.eqb_eq. intros Hrev. apply wp_bind.
  eapply wp_cancelChild; [done|exact Hjob|]. intros r' s1 _ HT Hr' Hstop.
  apply wp_bind, wp_query, wp_bind, wp_row. rewrite Hr'. intros ? [= <-]. apply wp_ret. by apply HQ.
Qed.

Lemma wp_cancel_batch_row id X (Q : unit → St → Prop) s :
  Inv limit (st_db s) → (∀ s', Touched limit X (st_db s) (st_db s') →
    db_jobs (st_db s') = db_jobs (st_db s) → Q () s') → wp e (cancel_batch_row id) Q s.
Proof.
  intros Hinv HQ. unfold cancel_batch_row. apply wp_bind, wp_clock. intros s1 Hs1 _.
  apply wp_exec. intros s2 Hs2 _. rewrite Hs1 in Hs2. apply HQ; rewrite Hs2; [|done].
  by apply Touched_other.
Qed.

Lemma wp_cancel_batch scope id revision (Q : bool * Snapshot → St → Prop) s :
  Inv limit (st_db s) →
  (∀ X changed b s', Touched limit X (st_db s) (st_db s') →
     Canceling scope id revision (st_db s) (st_db s') (Snapshot_Batch b) → Q (changed, Snapshot_Batch b) s') →
  wp e (cancel_batch scope id revision) Q s.
Proof.
  intros Hinv HQ. unfold cancel_batch. apply wp_bind, wp_readBatch.
  intros b _ _ _ Hch Hnd _. apply wp_bind, wp_throw_if. intros _.
  set (changed := negb (Terminal (ba_State b)) && negb (ba_CancelRequested b)).
  assert (NoDup (rows (st_db s))) as Hrows by (eapply NoDup_fmap_1; by apply (NoDup_rows limit)).
  apply wp_bind.
  assert (∀ s1, Touched limit (λ _, False) (st_db s) (st_db s1) → db_jobs (st_db s1) = db_jobs (st_db s) →
    wp e (each cancelChild (ba_Children b);; after ← readBatch scope id; mret (changed, Snapshot_Batch after)) Q s1)
    as Hgo.
  { intros s1 HT1 Ej. assert (rows (st_db s1) = rows (st_db s)) as Er by (unfold rows; by rewrite Ej).
    pose proof (tc_inv _ _ _ _ HT1) as Hinv1.
    apply wp_bind, (wp_cancel_each limit); [done| | |].
    - eapply (NoDup_jobs limit); [exact Hinv1|by apply Hnd|]. intros x Hx. rewrite Er. by apply Hch.
    - intros x Hx. apply (elem_of_rows limit); [done|]. rewrite Er. by apply Hch.
    - intros s2 _ HT2 Hstop. apply wp_bind, wp_readBatch. intros b' _ _ _ Hch' _ _. apply wp_ret.
      eapply HQ; [eapply Touched_trans; [exact HT1|exact HT2|done]|].
      intros r Hr Hs Hb. split; [by apply Hch'|].
      pose proof (elem_of_rows limit _ _ (tc_inv _ _ _ _ HT2) Hr) as Hrow.
      destruct (decide (j_ID r ∈ j_ID <$> ba_Children b)) as [(x & E & Hx)%list_elem_of_fmap|Hout].
      + destruct (Hstop x Hx) as (r' & Hr' & Hst). rewrite <-E, Hrow in Hr'. by injection Hr' as <-.
      + exfalso. apply Hout. apply list_elem_of_fmap. exists r. split; [done|]. apply Hch.
        rewrite (tc_row _ _ _ _ HT2), Ej in Hrow by done. split_and!; [by eapply rows_elem|done..]. }
  apply wp_if; intros _.
  - by apply (wp_cancel_batch_row id (λ _, False)).
  - apply wp_ret, Hgo; [|done]. by apply Touched_refl.
Qed.

Lemma wp_cancel scope id revision actor (Q : Snapshot → St → Prop) s :
  Inv limit (st_db s) →
  (∀ X snapshot s', Touched limit X (st_db s) (st_db s') →
     Canceling scope id revision (st_db s) (st_db s') snapshot → Q snapshot s') →
  wp e (cancel scope id revision actor) Q s.
Proof.
  intros Hinv HQ. unfold cancel. apply wp_bind, wp_throw_if. intros _. apply wp_bind, wp_query, wp_bind.
  assert (∀ X changed snapshot s1, Touched limit X (st_db s) (st_db s1) →
    Canceling scope id revision (st_db s) (st_db s1) snapshot →
    wp e (let '(changed, snapshot) := (changed, snapshot) in
          (if changed : bool then audit_cancel scope id actor else mret ());; mret snapshot) Q s1) as Hend.
  { intros X changed snapshot s1 HT HC. apply wp_bind, wp_if; intros _; [|apply wp_ret, wp_ret; by eapply HQ].
    apply wp_bind, wp_throw_if. intros _. apply wp_exec. intros s2 Hs2 _. apply wp_ret.
    eapply (HQ (λ i, X i ∨ False)).
    - eapply Touched_trans; [exact HT|rewrite Hs2; apply Touched_other; try done; apply HT|tauto].
    - destruct snapshot; simpl in *; [|unfold rows in *]; by rewrite Hs2. }
  assert (wp e (cancel_batch scope id revision) (λ a, wp e (let '(changed, snapshot) := (a : bool * Snapshot) in
    (if changed then audit_cancel scope id actor else mret ());; mret snapshot) Q) s) as Hbatch.
  { apply wp_cancel_batch; [done|]. intros. by eapply Hend. }
  destruct (db_jobs (st_db s) !! id) as [job|] eqn:Hjob; [|exact Hbatch].
  apply wp_if; intros Hs; [|exact Hbatch]. apply String.eqb_eq in Hs.
  apply wp_cancel_job; [done|done|]. intros changed r' s1 HT Hrev Hr' Hstop.
  eapply Hend; [exact HT|]. by exists job.
Qed.
End Intake.

Section Runs.
Context {P : Platform} {N : Network} {F : Float64} {W : Zones} {L : Payloads} {Business : Type}.
Abbreviation DB := (@DB F Business).
Abbreviation Tx := (@Tx F Business).

(** Writes outside the queue: the quota settings of scopes, and everything else. *)
Definition with_outside (db : DB) (settings : gmap ID (option Quota)) (b : Business) : DB :=
  {| db_jobs := db_jobs db; db_payloads := db_payloads db; db_events := db_events db;
     db_results := db_results db; db_settings := settings; db_buckets := db_buckets db;
     db_reservations := db_reservations db; db_batches := db_batches db; db_audit := db_audit db;
     db_business := b |}.

Definition empty_db (settings : gmap ID (option Quota)) (b : Business) : DB :=
  {| db_jobs := ∅; db_payloads := ∅; db_events := []; db_results := []; db_settings := settings;
     db_buckets := ∅; db_reservations := ∅; db_batches := ∅; db_audit := []; db_business := b |}.

(** No scope's daily limit exceeds the [limit] of the history. *)
Context (limit : ID → Z).
Definition within (db : DB) : Prop := ∀ scope, qu_DailyDownloadBytes (quota_of db scope) ≤ limit scope.

Definition commits_of {A} (m : Tx A) (e : Env) (db db' : DB) : Prop := ∃ a, run m e db = Ok (a, db').

Inductive step (db db' : DB) : Prop :=
| step_Enqueue e input : commits_of (EnqueueTx input) e db db' → step db db'
| step_CreateBatch e input : commits_of (CreateBatchTx input) e db db' → step db db'
| step_Claim e input :
    NoDup (cl_Types input) → commits_of (claim_tx input) e db db' → step db db'
| step_Heartbeat e id : commits_of (beat id) e db db' → step db db'
| step_Event e id input : commits_of (record_event id input) e db db' → step db db'
| step_Complete e id input callback :
    (∀ m, callback = Some m → commits limit e m) →
    commits_of (CompleteTx id input callback) e db db' → step db db'
| step_Reap e : clock_mono e → commits_of ReapExpired e db db' → step db db'
| step_Cancel e scope id revision actor :
    commits_of (cancel scope id revision actor) e db db' → step db db'
| step_outside settings b : db' = with_outside db settings b → within db' → step db db'.

Inductive started (db : DB) : Prop :=
| started_empty settings b : db = empty_db settings b → within db → started db.
Definition reachable (db : DB) : Prop := ∃ db0, started db0 ∧ rtc step db0 db.

(** What no step takes away. *)
Record kept (db db' : DB) : Prop := {
  kp_row : ∀ id r, db_jobs db !! id = Some r → ∃ r', db_jobs db' !! id = Some r' ∧ advance r r';
  kp_results : ∀ id, results_of id db `prefix_of` results_of id db';
  kp_events : ∀ id, events_of id db `prefix_of` events_of id db' }.

Lemma Touched_kept X db db' : Touched limit X db db' → Inv limit db' ∧ kept db db'.
Proof. intros [H1 _ _ H4 H5 _ H7 _ _]. by split; [|split]. Qed.

Lemma commits_of_wp {A} (m : Tx A) e db db' (Q : DB → Prop) :
  (∀ s, st_db s = db → wp e m (λ _ s', Q (st_db s')) s) → commits_of m e db db' → Q db'.
Proof. intros H [a Hr]. by eapply (run_wp m e db (λ _ db', Q db')) in Hr. Qed.

Lemma commits_kept {A} (m : Tx A) e db db' :
  (∀ s, st_db s = db → wp e m (λ _ s', Inv limit (st_db s') ∧ kept (st_db s) (st_db s')) s) →
  commits_of m e db db' → Inv limit db' ∧ kept db db'.
Proof.
  intros H. apply (commits_of_wp _ _ _ _ (λ db', Inv limit db' ∧ kept db db')).
  intros s E. rewrite <-E. by apply H.
Qed.

Lemma step_kept db db' : Inv limit db → step db db' → Inv limit db' ∧ kept db db'.
Proof.
  intros Hinv Hstep.
  destruct Hstep as [e i H|e i H|e i Hnd H|e i H|e l i H|e l i cb Hcb H|e Hm H|e sc i r a H|settings b -> Hw].
  - revert H. apply commits_kept. intros s <-. apply (wp_enqueue limit); [done|]. intros. by eapply Touched_kept.
  - revert H. apply commits_kept. intros s <-. apply (wp_create_batch limit); [done|]. intros. by eapply Touched_kept.
  - revert H. apply commits_kept. intros s <-.
    apply (wp_claim limit); [done|done|..]; intros; by eapply Touched_kept.
  - revert H. apply commits_kept. intros s <-. apply (wp_beat limit); [done|]. intros. by eapply Touched_kept.
  - revert H. apply commits_kept. intros s <-. apply (wp_event limit); [done|]. intros. by eapply Touched_kept.
  - revert H. apply commits_kept. intros s <-. apply (wp_complete limit); [done|done|..].
    + intros. by eapply Touched_kept, (Touched_refl limit (λ _, False)).
    + intros. by eapply Touched_kept.
  - revert H. apply commits_kept. intros s <-. apply (wp_ReapExpired limit); [done|done|]. intros. by eapply Touched_kept.
  - revert H. apply commits_kept. intros s <-. apply (wp_cancel limit); [done|]. intros. by eapply Touched_kept.
  - destruct Hinv as [[H1 H2 H3 H4] HJ]. split; [by split; [split|]|].
    split; [|done..]. intros id r Hr. exists r. split; [done|apply advance_refl].
Qed.

Lemma started_inv db : started db → Inv limit db.
Proof.
  intros [settings b -> Hw]. split; [split|].
  - exact Hw.
  - intros key x Hx. by destruct (lookup_empty_Some _ _ Hx).
  - intros k x Hx. by destruct (lookup_empty_Some _ _ Hx).
  - intros k x Hx. by destruct (lookup_empty_Some _ _ Hx).
  - intros id. unfold JobInv. simpl. rewrite lookup_empty. split; [|done]. intros a. apply lookup_empty.
Qed.

Lemma steps_inv db db' : Inv limit db → rtc step db db' → Inv limit db'.
Proof. intros H Hs. induction Hs as [|db db1 db2 H1 _ IH]; [done|]. by apply IH, (step_kept db). Qed.

Lemma reachable_inv db : reachable db → Inv limit db.
Proof. intros (db0 & H0 & Hs). by eapply steps_inv; [apply started_inv|]. Qed.

Lemma reachable_steps db db' : reachable db → rtc step db db' → reachable db'.
Proof. intros (db0 & H0 & Hs) Hs'. exists db0. split; [done|]. by etransitivity. Qed.

(** Along a history a job's head stays, its phase follows the automaton and a terminal
    row stays as it is. *)
Record progress (r r' : JobRow) : Prop := {
  pg_head : jr_Head r' = jr_Head r;
  pg_moves : rtc moves (phase r) (phase r');
  pg_final : Terminal (jr_State r) = true → r' = r;
  pg_cancel : is_Some (jr_CancelAt r) → is_Some (jr_CancelAt r') }.

Lemma steps_progress db db' id r :
  Inv limit db → rtc step db db' → db_jobs db !! id = Some r →
  ∃ r', db_jobs db' !! id = Some r' ∧ progress r r'.
Proof.
  intros Hinv Hs. revert r. induction Hs as [db|db db1 db2 H1 _ IH]; intros r Hr.
  { exists r. split; [done|]. by split; [|apply rtc_refl|..]. }
  destruct (step_kept _ _ Hinv H1) as [Hinv1 [Hk _ _]].
  destruct (Hk id r Hr) as (r1 & Hr1 & [A1 A2 A3 A4]).
  destruct (IH Hinv1 r1 Hr1) as (r2 & Hr2 & [B1 B2 B3 B4]). exists r2. split; [done|]. split.
  - congruence.
  - eapply rtc_l; [exact A2|exact B2].
  - intros Ht. assert (r1 = r) as -> by auto. by rewrite B3.
  - auto.
Qed.

Lemma steps_kept db db' id :
  Inv limit db → rtc step db db' →
  results_of id db `prefix_of` results_of id db' ∧ events_of id db `prefix_of` events_of id db'.
Proof.
  intros Hinv Hs. induction Hs as [db|db db1 db2 H1 _ IH]; [done|].
  destruct (step_kept _ _ Hinv H1) as [Hinv1 [_ K1 K2]]. destruct (IH Hinv1) as [I1 I2].
  split; etransitivity; eauto.
Qed.
End Runs.

(** ** The measure of a job

    Every move but staying costs one of its remaining phases. *)
Definition rank (p : string * Z) : Z :=
  let '(s, n) := p in
  if Terminal s then 0
  else if s =s Queued then 3 * (2 - n) + 1
  else if s =s Leased then 3 * (2 - n) + 3
  else 3 * (2 - n) + 2.

Lemma moves_rank p q : moves p q → 0 ≤ p.2 ≤ 2 → p = q ∨ rank q < rank p.
Proof.
  intros Hm Hn. destruct Hm as [p|n|n|n|s t n Hl Ht|s n Hl Hle]; simpl in *.
  - by left.
  - right. lia.
  - right. lia.
  - right. lia.
  - right. rewrite Ht, (live_not_terminal _ Hl), (live_not_queued _ Hl).
    destruct (s =s Leased); lia.
  - right. rewrite (live_not_terminal _ Hl), (live_not_queued _ Hl). simpl.
    destruct (s =s Leased); lia.
Qed.

(** ** Laws *)

Section Laws.
Context {P : Platform} {N : Network} {F : Float64} {W : Zones} {L : Payloads} {Business : Type}.
Abbreviation DB := (@DB F Business).
Abbreviation St := (@St F Business).
Abbreviation Tx := (@Tx F Business).

(** ** Transactions from their start *)

Definition begin (db : DB) : St := {| st_db := db; st_reads := 0; st_ids := 0 |}.

Lemma run_from {A} (m : Tx A) e db a db' (Q : A → St → Prop) :
  run m e db = Ok (a, db') → wp e m Q (begin db) → ∃ s', st_db s' = db' ∧ Q a s'.
Proof.
  unfold run, wp, begin. destruct (m e _) as [[b s']|]; [|done]. intros [= <- <-] H. by exists s'.
Qed.

Lemma wp_any {A B} e (m : Tx A) (k : A → Tx B) Q s :
  (∀ a s', wp e (k a) Q s') → wp e (m ≫= k) Q s.
Proof. intros H. apply wp_bind. unfold wp at 1. by destruct (m e s) as [[]|]. Qed.

(** ** Refusals *)

Definition refuses {A} (m : Tx A) (e : Env) (db : DB) : Prop := ∀ x, run m e db ≠ Ok x.

Lemma wp_refuses {A} (m : Tx A) e db : wp e m (λ _ _, False) (begin db) → refuses m e db.
Proof. intros H [a db'] E. by destruct (run_from _ _ _ _ _ _ E H) as (? & _ & ?). Qed.

(** The lease is not the job's. *)
Definition lost (id : LeaseIdentity) (db : DB) : Prop :=
  ∀ r, db_jobs db !! id_JobID id = Some r → holds id r = false.
(** The lease is not in force, whenever the clock is read. *)
Definition lapsed (e : Env) (id : LeaseIdentity) (db : DB) : Prop :=
  ∀ r k, db_jobs db !! id_JobID id = Some r → holds id r && unexpired (clock e k) r = false.

Lemma lost_lapsed e id db : lost id db → lapsed e id db.
Proof. intros H r k Hr. by rewrite (H r Hr). Qed.

Lemma lapsed_beat e id db : lapsed e id db → refuses (beat id) e db.
Proof.
  intros H. apply wp_refuses. unfold beat. apply wp_bind, wp_throw_if. intros _. apply wp_bind, wp_ask.
  apply wp_bind, wp_clock. intros s1 Hs1 Hr1. apply wp_bind, wp_clock. intros s2 Hs2 Hr2.
  apply wp_bind, wp_clock. intros s3 Hs3 Hr3. apply wp_bind, wp_query, wp_bind, wp_row. intros r Hr.
  rewrite Hs3, Hs2, Hs1 in Hr. apply wp_bind, wp_throw_if. simpl in Hr. by rewrite (H r _ Hr).
Qed.

Lemma lapsed_validLease {A} e id (k : Tx A) Q s : lapsed e id (st_db s) → wp e (validLease id;; k) Q s.
Proof.
  intros H. apply wp_bind, wp_validLease. intros r s' (Hr & Hh & n & Hu) _ _.
  specialize (H r n Hr). by rewrite Hh, Hu in H.
Qed.

Lemma lapsed_event e id input db : lapsed e id db → refuses (record_event id input) e db.
Proof.
  intros H. apply wp_refuses. unfold record_event. apply wp_bind, wp_lift. intros clean _.
  apply wp_bind, wp_lockLease. intros r _ _. by apply lapsed_validLease.
Qed.

Lemma lost_complete e id input callback db : lost id db → refuses (CompleteTx id input callback) e db.
Proof.
  intros H. apply wp_refuses. unfold CompleteTx. apply wp_bind, wp_lift. intros [clean hash] _.
  apply wp_bind, wp_lockLease. intros r Hr Hh. by rewrite (H r Hr) in Hh.
Qed.

Lemma lapsed_complete e id input callback db receipt db' :
  lapsed e id db → run (CompleteTx id input callback) e db = Ok (receipt, db') →
  db' = db ∧ rr_Replayed receipt = true.
Proof.
  intros H Hrun. eapply (run_from _ _ _ _ _ (λ receipt s', st_db s' = db ∧ rr_Replayed receipt = true)) in Hrun.
  - by destruct Hrun as (s' & <- & Hs & ?).
  - unfold CompleteTx. apply wp_bind, wp_lift. intros [clean hash] _. apply wp_bind, wp_lockLease. intros r _ _.
    apply wp_bind, wp_throw_if. intros _. apply wp_bind, wp_query. destruct (head _) as [w|].
    + apply wp_bind, wp_throw_if. intros _. by apply wp_ret.
    + by apply lapsed_validLease.
Qed.

(** ** Attempts only grow *)

Lemma moves_attempt p q : moves p q → p.2 ≤ q.2.
Proof. by destruct 1; simpl; lia || done. Qed.

Lemma progress_attempt r r' : progress r r' → jr_Attempt r ≤ jr_Attempt r'.
Proof.
  intros [_ Hm _ _]. change ((phase r).2 ≤ (phase r').2).
  induction Hm as [|p q t H1 _ IH]; [done|]. apply moves_attempt in H1. lia.
Qed.

(** ** Replays *)

Definition config_only (job : JobRow) (r : Result) : bool :=
  negb (is_network (j_Type job)) &&
  (negb (ConfigMetrics_ok (rs_Metrics r)) || bool_decide (is_Some (rs_Observation r))).

Definition answer (id : LeaseIdentity) (w : ResultRow) : ResultReceipt :=
  {| rr_JobID := id_JobID id; rr_Attempt := id_Attempt id; rr_LeaseSeq := id_LeaseSeq id;
     rr_ResultID := rw_ResultID w; rr_ResultHash := rw_Hash w; rr_Replayed := true;
     rr_SettledBytes := rw_SettledBytes w |}.

Lemma complete_answers e id input callback (db : DB) clean hash job w :
  Identity_Valid id = true → canonicalResult input = Ok (clean, hash) →
  db_jobs db !! id_JobID id = Some job → holds id job = true → config_only job clean = false →
  head (filter (λ w, Is_true (same_lease id w && (rw_WorkerID w =s id_WorkerID id))) (db_results db)) = Some w →
  rw_Hash w = hash → run (CompleteTx id input callback) e db = Ok (answer id w, db).
Proof.
  intros Hv Hc Hjob Hh Hcfg Hw Eh. unfold run, CompleteTx, lockLease, throw_if, lift_tx, query, row, mbind, Tx_bind.
  unfold config_only in Hcfg. rewrite Hc. simpl. rewrite Hv. simpl. rewrite Hjob. simpl. rewrite Hh. simpl.
  rewrite Hcfg. simpl. rewrite Hw, Eh, String.eqb_refl. simpl. unfold answer. by rewrite Eh.
Qed.

(** What a run of [CompleteTx] that commits has checked, and its receipt. *)
Lemma wp_complete_checks e id input callback (s : St) :
  wp e (CompleteTx id input callback) (λ receipt _, ∃ clean hash job,
    Identity_Valid id = true ∧ canonicalResult input = Ok (clean, hash) ∧
    db_jobs (st_db s) !! id_JobID id = Some job ∧ config_only job clean = false ∧
    rr_JobID receipt = id_JobID id ∧ rr_Attempt receipt = id_Attempt id ∧
    rr_LeaseSeq receipt = id_LeaseSeq id ∧ rr_ResultHash receipt = hash) s.
Proof.
  unfold CompleteTx. apply wp_bind, wp_lift. intros [clean hash] Hc. apply wp_bind.
  unfold lockLease. apply wp_bind, wp_throw_if. rewrite negb_false_iff. intros Hv.
  apply wp_bind, wp_query, wp_bind, wp_row. intros job Hjob. apply wp_bind, wp_throw_if. intros _. apply wp_ret.
  apply wp_bind, wp_throw_if. intros Hcfg. apply wp_bind, wp_query. destruct (head _) as [w|] eqn:Ew.
  - apply wp_bind, wp_throw_if. rewrite negb_false_iff, String.eqb_eq. intros Eh. apply wp_ret.
    by exists clean, hash, job.
  - unfold accept_result. apply wp_any. intros _ s1. apply wp_any. intros _ s2. apply wp_any. intros _ s3.
    apply wp_any. intros _ s4. apply wp_any. intros i s5. apply wp_any. intros n s6. apply wp_any. intros _ s7.
    apply wp_any. intros [[state verdict] err] s8. apply wp_any. intros _ s9. apply wp_any. intros _ s10.
    apply wp_ret. by exists clean, hash, job.
Qed.

(** The record that answers a lease's result is found again as long as it is there. *)
Lemma recorded_found (limit : ID → Z) (db : DB) id job w :
  Inv limit db → db_jobs db !! id_JobID id = Some job → w ∈ results_of (id_JobID id) db →
  same_lease id w = true → rw_WorkerID w = id_WorkerID id →
  head (filter (λ w, Is_true (same_lease id w && (rw_WorkerID w =s id_WorkerID id))) (db_results db)) = Some w.
Proof.
  intros Hinv Hjob Hw Hs Hworker. destruct (Inv_job _ _ _ _ Hinv Hjob) as (_ & _ & [Hnd _ _ _ _] & _).
  assert (same_lease id w && (rw_WorkerID w =s id_WorkerID id) = true) as Hp
    by (by rewrite Hs, Hworker, String.eqb_refl).
  pose proof Hw as [_ Hin]%list_elem_of_filter.
  destruct (head _) as [v|] eqn:Ev; [|by rewrite (head_filter_None _ _ _ Ev Hin) in Hp].
  apply head_filter_Some in Ev as [Hv Hq]. f_equal.
  assert (rw_JobID v = id_JobID id ∧ rw_Attempt v = rw_Attempt w) as [Ej Ea].
  { unfold same_lease in *. rewrite !andb_true_iff, !String.eqb_eq, !Z.eqb_eq in *. split; [tauto|]. lia. }
  assert (v ∈ results_of (id_JobID id) db) as Hv' by (by apply list_elem_of_filter).
  by eapply (NoDup_key_inj rw_Attempt).
Qed.

(** A run that commits leaves the record of the result it answers with. *)
Lemma complete_records limit e id input callback (db : DB) receipt db' :
  Inv limit db → (∀ m, callback = Some m → commits limit e m) →
  run (CompleteTx id input callback) e db = Ok (receipt, db') →
  ∃ w, w ∈ results_of (id_JobID id) db' ∧ same_lease id w = true ∧ rw_WorkerID w = id_WorkerID id ∧
    rw_Hash w = rr_ResultHash receipt ∧ rw_ResultID w = rr_ResultID receipt ∧
    rw_SettledBytes w = rr_SettledBytes receipt.
Proof.
  intros Hinv Hcb Hrun.
  pose proof (run_from _ _ _ _ _ _ Hrun (wp_complete_checks e id input callback (begin db))) as
    (_ & _ & clean & hash & job & _ & Hclean & _ & _ & _ & _ & _ & Eh).
  eapply (run_from _ _ _ _ _ (λ receipt s', ∃ w, w ∈ results_of (id_JobID id) (st_db s') ∧
    same_lease id w = true ∧ rw_WorkerID w = id_WorkerID id ∧ rw_Hash w = hash ∧
    rw_ResultID w = rr_ResultID receipt ∧ rw_SettledBytes w = rr_SettledBytes receipt)) in Hrun.
  - destruct Hrun as (s' & <- & w & H). exists w. by rewrite Eh.
  - apply (wp_complete limit); [done|done|..].
    + intros w clean' hash' rc Hclean' Hw Hs Hworker Ehash Ei Es _. rewrite Hclean in Hclean'.
      injection Hclean' as <- <-. exists w. split_and!; try done. apply list_elem_of_filter.
      unfold same_lease in Hs. rewrite !andb_true_iff, String.eqb_eq in Hs. tauto.
    + intros clean' hash' rc s' Hclean' _ _ [_ (w & Er & Hs & Hworker & Ehash & _ & Ei & Es) _] _.
      rewrite Hclean in Hclean'. injection Hclean' as <- <-. exists w. rewrite Er. split_and!; try done.
      set_solver.
Qed.

(** ** Quota columns *)

Lemma total_zero_key (g : Reservation → Z) (key : ID * Z) (m : gmap (ID * Z) Reservation) :
  (∀ k x, m !! k = Some x → bucket_key x = key → g x = 0) → total g key m = 0.
Proof.
  induction m as [|k x m Hk IH] using map_ind; intros H; [done|].
  rewrite total_insert by done. rewrite IH.
  - unfold contrib. case_decide as E; [|done]. by rewrite (H k x) by (done || apply lookup_insert_eq).
  - intros k' y Hy. apply (H k'). rewrite lookup_insert_ne; [done|]. congruence.
Qed.

Lemma total_nonneg (g : Reservation → Z) (key : ID * Z) (m : gmap (ID * Z) Reservation) :
  (∀ k x, m !! k = Some x → 0 ≤ g x) → 0 ≤ total g key m.
Proof.
  induction m as [|k x m Hk IH] using map_ind; intros H; [done|].
  rewrite total_insert by done. apply Z.add_nonneg_nonneg.
  - unfold contrib. case_decide; [|done]. apply (H k), lookup_insert_eq.
  - apply IH. intros k' y Hy. apply (H k'). rewrite lookup_insert_ne; [done|]. congruence.
Qed.

Lemma reservation_job limit (db : DB) id a x :
  Inv limit db → db_reservations db !! (id, a) = Some x →
  ∃ r, db_jobs db !! id = Some r ∧ qr_ScopeID x = j_ScopeID r ∧
       (qr_Settled x = None ↔ pending_attempt r = Some a).
Proof.
  intros Hinv Hx. pose proof (in_jobs _ _ Hinv id) as HJ. unfold JobInv in HJ.
  destruct (db_jobs db !! id) as [r|].
  - destruct HJ as (_ & [_ Hs _] & _). exists r. split; [done|]. by destruct (Hs a x Hx) as (_ & ? & ? & _).
  - destruct HJ as [Hn _]. by rewrite Hn in Hx.
Qed.

(** ** Batches *)

Definition child_revisions (l : list JobRow) : Z := foldr (λ j n, jr_Revision j - 1 + n) 0 l.
Definition ended_children (l : list JobRow) : Z :=
  Z.of_nat (length (filter (λ j, Is_true (Terminal (jr_State j))) l)).

Lemma fold_children l s :
  fold_left add_child l s =
  {| bs_Revision := bs_Revision s + child_revisions l;
     bs_State := if forallb (λ j, jr_State j =s Queued) l then bs_State s else Running;
     bs_Completed := bs_Completed s + ended_children l;
     bs_Failed := bs_Failed s || existsb (λ j, jr_State j =s Failed) l;
     bs_TimedOut := bs_TimedOut s || existsb (λ j, jr_State j =s TimedOut) l;
     bs_Canceled := bs_Canceled s || existsb (λ j, jr_State j =s Canceled) l;
     bs_AllPass := bs_AllPass s && forallb (λ j, jr_Verdict j =s Pass) l;
     bs_AnyFail := bs_AnyFail s || existsb (λ j, jr_Verdict j =s Fail) l |}.
Proof.
  revert s. induction l as [|j l IH]; intros s; simpl.
  - destruct s. simpl. by rewrite !Z.add_0_r, !orb_false_r, andb_true_r.
  - rewrite IH. unfold ended_children. rewrite filter_cons. simpl.
    rewrite <-!orb_assoc, <-!andb_assoc. f_equal; [lia| |].
    + by destruct (jr_State j =s Queued), (forallb _ l).
    + destruct (Terminal (jr_State j)); simpl; lia.
Qed.

Lemma ended_all l :
  (ended_children l =? Z.of_nat (length l)) = forallb (λ j, Terminal (jr_State j)) l.
Proof.
  unfold ended_children. induction l as [|j l IH]; [done|]. rewrite filter_cons.
  pose proof (length_filter (λ j, Is_true (Terminal (jr_State j))) l) as Hle. cbn [forallb].
  destruct (Terminal (jr_State j)); cbn [andb].
  - rewrite decide_True by done. rewrite <-IH. apply Bool.eq_iff_eq_true. rewrite !Z.eqb_eq, !length_cons. lia.
  - rewrite decide_False by (by intros []). rewrite length_cons. apply Z.eqb_neq. lia.
Qed.

Lemma terminal_cases j :
  Terminal (jr_State j) = true → jr_State j = Succeeded ∨ jr_State j = Failed ∨ jr_State j = Canceled ∨ jr_State j = TimedOut.
Proof. unfold Terminal. rewrite !orb_true_iff, !String.eqb_eq. tauto. Qed.

Lemma forallb_is {A} (f : A → string) c (l : list A) :
  forallb (λ x, f x =s c) l = true ↔ Forall (λ x, f x = c) l.
Proof. apply Forall_forallb_iff. intros x. apply String.eqb_eq. Qed.
Lemma existsb_is {A} (f : A → string) c (l : list A) :
  existsb (λ x, f x =s c) l = true ↔ Exists (λ x, f x = c) l.
Proof.
  induction l as [|x l IH]; simpl; [by rewrite Exists_nil|].
  by rewrite orb_true_iff, String.eqb_eq, IH, Exists_cons.
Qed.
Lemma existsb_isnt {A} (f : A → string) c (l : list A) :
  existsb (λ x, f x =s c) l = false ↔ Forall (λ x, f x ≠ c) l.
Proof.
  rewrite <-not_true_iff_false, existsb_is. rewrite <-(Forall_Exists_neg (λ x, f x = c)). done.
Qed.
Lemma all_some {A} (f g : A → Prop) l : Forall f l → Exists g l → (∀ x, f x → g x → False) → False.
Proof.
  intros Hall (x & Hx & Hg)%Exists_exists Hfg. rewrite Forall_forall in Hall. eauto.
Qed.

(** The state of a batch, from what [fold_children] finds. *)
Definition batch_state (l : list JobRow) : string :=
  if negb (forallb (λ j, Terminal (jr_State j)) l)
  then if forallb (λ j, jr_State j =s Queued) l then Queued else Running
  else if existsb (λ j, jr_State j =s Failed) l then Failed
  else if existsb (λ j, jr_State j =s TimedOut) l then TimedOut
  else if existsb (λ j, jr_State j =s Canceled) l then Canceled else Succeeded.

Lemma batch_ended l :
  forallb (λ j, Terminal (jr_State j)) l = true ↔ Forall (λ j, Terminal (jr_State j) = true) l.
Proof. by apply Forall_forallb_iff. Qed.

Lemma batch_state_terminal l :
  Terminal (batch_state l) = true ↔ Forall (λ j, Terminal (jr_State j) = true) l.
Proof.
  rewrite <-batch_ended. unfold batch_state. destruct (forallb (λ j, Terminal _) l); simpl.
  - by repeat destruct (existsb _ l).
  - by destruct (forallb _ l).
Qed.

Lemma batch_state_succeeded l : batch_state l = Succeeded ↔ Forall (λ j, jr_State j = Succeeded) l.
Proof.
  split.
  - intros E. assert (forallb (λ j, Terminal (jr_State j)) l = true) as Ht.
    { apply batch_ended, batch_state_terminal. by rewrite E. }
    unfold batch_state in E. rewrite Ht in E. simpl in E. apply batch_ended in Ht.
    destruct (existsb (λ j, jr_State j =s Failed) l) eqn:E1; [done|].
    destruct (existsb (λ j, jr_State j =s TimedOut) l) eqn:E2; [done|].
    destruct (existsb (λ j, jr_State j =s Canceled) l) eqn:E3; [done|].
    apply existsb_isnt in E1, E2, E3. rewrite Forall_forall in *. intros j Hj.
    destruct (terminal_cases j (Ht j Hj)) as [?|[?|[?|?]]]; [done|..]; exfalso; naive_solver.
  - intros H. assert (forallb (λ j, Terminal (jr_State j)) l = true) as Ht.
    { apply batch_ended. eapply Forall_impl; [exact H|]. by intros j ->. }
    assert (∀ c, c ≠ Succeeded → existsb (λ j, jr_State j =s c) l = false) as Hno.
    { intros c Hc. apply existsb_isnt. eapply Forall_impl; [exact H|]. by intros j ->. }
    unfold batch_state. by rewrite Ht, !Hno.
Qed.

Lemma batch_state_queued l :
  batch_state l = Queued ↔ l ≠ [] ∧ Forall (λ j, jr_State j = Queued) l.
Proof.
  rewrite <-forallb_is. unfold batch_state. destruct (forallb (λ j, Terminal _) l) eqn:Ht; simpl.
  - split.
    + by repeat destruct (existsb _ l).
    + intros [Hl Hq]. apply batch_ended in Ht. apply forallb_is in Hq. destruct l as [|j l]; [done|].
      inversion_clear Ht as [|? ? Hj]. inversion Hq as [|? ? E]. by rewrite E in Hj.
  - destruct (forallb (λ j, jr_State j =s Queued) l); [|split; [done|by intros []]].
    split; [|done]. intros _. split; [|done]. by intros ->.
Qed.

(** The verdict of a batch. *)
Definition batch_verdict (l : list JobRow) : string :=
  if negb (forallb (λ j, Terminal (jr_State j)) l) then ""
  else if existsb (λ j, jr_Verdict j =s Fail) l then Fail
  else if forallb (λ j, jr_Verdict j =s Pass) l then Pass else Inconclusive.

Lemma batch_verdict_exact l :
  (batch_verdict l = Pass ↔ Forall (λ j, Terminal (jr_State j) = true ∧ jr_Verdict j = Pass) l) ∧
  (batch_verdict l = Fail ↔ Forall (λ j, Terminal (jr_State j) = true) l ∧ Exists (λ j, jr_Verdict j = Fail) l).
Proof.
  rewrite Forall_and, <-batch_ended, <-forallb_is, <-existsb_is. unfold batch_verdict.
  destruct (forallb (λ j, Terminal _) l); simpl; [|naive_solver].
  destruct (existsb _ l) eqn:Ef, (forallb (λ j, jr_Verdict j =s Pass) l) eqn:Ep; try naive_solver.
  exfalso. apply forallb_is in Ep. apply existsb_is in Ef. eapply all_some; [exact Ep|exact Ef|].
  simpl. by intros j ->.
Qed.

Lemma aggregate_sum (b : Batch) :
  ba_Completed b = 0 → ba_Verdict b = "" →
  aggregateBatch b =
  {| ba_ID := ba_ID b; ba_ScopeID := ba_ScopeID b;
     ba_Revision := ba_Revision b + child_revisions (ba_Children b);
     ba_State := batch_state (ba_Children b); ba_Verdict := batch_verdict (ba_Children b);
     ba_Children := ba_Children b; ba_Completed := ended_children (ba_Children b);
     ba_CancelRequested := ba_CancelRequested b; ba_EffectiveLimits := ba_EffectiveLimits b;
     ba_CreatedAt := ba_CreatedAt b |}.
Proof.
  intros Hc Hv. unfold aggregateBatch. rewrite fold_children, Hc, Hv.
  cbn [bs_Revision bs_State bs_Completed bs_Failed bs_TimedOut bs_Canceled bs_AllPass bs_AnyFail].
  rewrite Z.add_0_l, ended_all.
  unfold batch_state, batch_verdict. done.
Qed.
End Laws.

(** ** Canonical results *)

Lemma Safe_known code : KnownError code = true → KnownError (se_Code (Safe code)) = true.
Proof.
  unfold KnownError, Safe. rewrite !bool_decide_eq_true. destruct (safe_message code) eqn:E; [|done].
  simpl. by rewrite E.
Qed.
Lemma Safe_Safe code : KnownError code = true → Safe (se_Code (Safe code)) = Safe code.
Proof.
  unfold KnownError. rewrite bool_decide_eq_true. intros H. f_equal. unfold Safe.
  by destruct (safe_message code).
Qed.

Lemma canonicalResult_clean {P : Platform} {N : Network} {F : Float64} {W : Zones} input clean hash :
  canonicalResult input = Ok (clean, hash) →
  canonicalResult clean = Ok (clean, hash) ∧ rs_Hash clean = hash ∧ rs_State clean = rs_State input.
Proof.
  unfold canonicalResult at 1. destruct (Observation_ok (rs_Observation input)) eqn:Hobs; [|done].
  destruct (negb (Terminal (rs_State input)) || _ || _ || _) eqn:E; [done|].
  destruct (match rs_Error input with Some _ => _ | None => _ end) as [err|] eqn:Eerr; [|done]. simpl.
  assert (match err with
          | None => Ok None
          | Some e => if KnownError (se_Code e) then Ok (Some (Safe (se_Code e))) else Err ErrInvalidInput
          end = Ok err) as Eerr'.
  { destruct (rs_Error input) as [e0|]; [|by injection Eerr as <-].
    destruct (KnownError (se_Code e0)) eqn:Hk; [|done]. injection Eerr as <-.
    by rewrite Safe_known, Safe_Safe by done. }
  destruct (ResultHash _) as [h|] eqn:Eh; [|done]. destruct (negb (rs_Hash input =s "") && negb (rs_Hash input =s h)); [done|]. intros [= <- <-].
  split_and!; [|done|done]. unfold canonicalResult. cbn [rs_Observation rs_State rs_Verdict rs_Metrics rs_Error rs_Hash with_error_hash].
  rewrite Hobs, E. cbn [negb]. rewrite Eerr'. simpl.
  change (with_error_hash (with_error_hash input err h) err "") with (with_error_hash input err "").
  rewrite Eh, String.eqb_refl, andb_false_r. done.
Qed.

Lemma canonical_error {P : Platform} {N : Network} {F : Float64} {W : Zones} input clean hash :
  canonicalResult input = Ok (clean, hash) →
  ∀ err, rs_Error clean = Some err → err = Safe (se_Code err) ∧ KnownError (se_Code err) = true.
Proof.
  unfold canonicalResult. destruct (negb (Observation_ok _)); [done|].
  destruct (negb (Terminal (rs_State input)) || _ || _ || _); [done|].
  destruct (match rs_Error input with Some _ => _ | None => _ end) as [err|] eqn:Eerr; [|done]. simpl.
  destruct (ResultHash _) as [h|]; [|done].
  destruct (negb (rs_Hash input =s "") && negb (rs_Hash input =s h)); [done|]. intros [= <- _] err0 E.
  simpl in E. subst err. destruct (rs_Error input) as [e0|]; [|done].
  destruct (KnownError (se_Code e0)) eqn:Hk; [|done]. injection Eerr as <-.
  by rewrite Safe_Safe, Safe_known.
Qed.
