(* ===== verification/QueueTheorems.v ===== *)
(** A small history of the queue, for the witnesses of its theorems. What holds of the job
    queue along every history. *)
From S2P Require Import Prelude Diagnostics IRTypes Hashes Json IRValidate Network RunnerProtocol.
From S2P Require Import Jobs Queue QueueFacts QueueSteps QueueEnds QueueLaws.

#[export] Instance queue_platform : Platform.
Proof.
  refine {| validateValue := λ _ _, None;
            url_Parse := λ _, Some {| u_Scheme := "https"; u_Host := "target"; u_Hostname := "target";
                                      u_Port := ""; u_HasUser := false; u_Fragment := "" |};
            Prefix := string; ParsePrefix := Some; Masked := id; Prefix_String := id |}.
  done.
Defined.
#[export] Instance queue_network : Network :=
  {| ParseAddr := λ _, Some {| a_is6 := false; a_bits := [] |}; ParseNetPrefix := λ _, None;
     ParseURL := λ _, None |}.
#[export] Instance queue_zones : Zones := {| has_zone := λ _, false |}.

(** Whole numbers stand for the fractions. *)
#[export] Instance queue_floats : Float64 :=
  {| float64 := Z; IsNaN := λ _, false; IsInf := λ _, false; float_lt := Z.ltb; float_of_int := id;
     float_ratio := Z.div; float_mul := Z.mul; float_div := Z.div; float_sub := Z.sub;
     float_abs := Z.abs; float_max := Z.max; float_text := λ n, Some (Itoa n) |}.

Definition queue_core : CoreIdentity :=
  {| co_CoreBuildID := "build"; co_CoreFamily := Xray; co_Version := "1"; co_BuildSHA256 := Digest "core";
     co_Platform := "linux"; co_Architecture := "amd64"; co_AdapterVersion := "1" |}.
Definition queue_subject : FrozenSubject :=
  {| sb_Kind := KindNode; sb_ID := "node"; sb_Revision := 1; sb_SecurityEpoch := 1 |}.
Definition queue_payload : FrozenPayload :=
  {| fp_SchemaVersion := 1; fp_Type := Connectivity; fp_Core := queue_core;
     fp_Artifact := {| wa_ArtifactID := "artifact"; wa_Format := XrayJSON; wa_SHA256 := Digest "{}";
                       wa_ByteLength := 2; wa_ContentBase64 := "e30=" |};
     fp_Subject := Some queue_subject;
     fp_Limits := {| li_DurationMS := 10000; li_MaxBytes := 1000 |};
     fp_ExecutionPolicy :=
       {| xp_Network := "controlled_target_only"; xp_AllowEnvironmentProxy := false;
          xp_AllowCoreDownloads := false; xp_AllowShell := false; xp_TerminationGraceMS := 1000;
          xp_MemoryLimitBytes := 2 ^ 28; xp_ProcessLimit := 16 |};
     fp_QuotaReservationID := "none";
     fp_TestTarget := Some
       {| tt_TestTargetID := "target"; tt_Revision := 1; tt_URL := "https://target"; tt_ValidatedIPs := ["ip"];
          tt_ExpectedResponse := {| he_StatusCodes := [204]; he_BodySHA256 := ""; he_MaxResponseBytes := 1000;
                                    he_EgressIPResponse := false |};
          tt_RedirectPolicy := "deny"; tt_VerifyCertificate := true; tt_Compression := "disabled" |};
     fp_ApprovedEndpoints := [{| ae_IP := "ip"; ae_Port := 443; ae_PrivateAuthorized := false |}];
     fp_Dependencies := [queue_subject]; fp_MinimumSampleBytes := 1 |}.

(** Payloads are kept in the clear and are all the same. *)
#[export] Instance queue_payloads : Payloads :=
  {| Seal := λ _ _, Some; Open := λ _ _, Some; DecodeStrict := λ _, Some queue_payload |}.

Abbreviation SampleDB := (@DB queue_floats unit).

(** The clock starts at [t] seconds and the identifiers are numbered after [tag]. *)
Definition queue_env (tag : string) (t : Z) : Env :=
  {| clock := λ k, t * 1000000 + Z.of_nat k; random_id := λ k, tag +:+ Itoa (Z.of_nat k);
     revoked := λ _, false; locked := λ _, false; scope_exists := λ _, true |}.
Lemma queue_env_mono tag t : clock_mono (queue_env tag t).
Proof. intros i j Hij. simpl. lia. Qed.

Definition queue_limit : ID → Z := λ _, 2 ^ 30.
Definition queue_start : SampleDB := empty_db ∅ ().

(** A transaction's commit, or nothing. *)
Definition after {A} (m : @Tx queue_floats unit A) (e : Env) (db : SampleDB) : SampleDB :=
  match run m e db with Ok (_, db') => db' | Err _ => db end.
Definition succeeds {A} (m : @Tx queue_floats unit A) (e : Env) (db : SampleDB) : bool :=
  match run m e db with Ok _ => true | Err _ => false end.

Lemma succeeds_run {A} (m : @Tx queue_floats unit A) e db :
  succeeds m e db = true → ∃ a, run m e db = Ok (a, after m e db).
Proof. unfold succeeds, after. destruct (run m e db) as [[a db']|]; [eauto|done]. Qed.

Definition queue_input (id : ID) : EnqueueInput :=
  {| en_ID := id; en_ScopeID := "scope"; en_BatchID := ""; en_Executor := Runner; en_Type := Connectivity;
     en_Payload := "payload"; en_CoreBuildID := "build" |}.
Definition queue_claim : ClaimInput :=
  {| cl_Executor := Runner; cl_WorkerID := "runner"; cl_Types := [Connectivity]; cl_CoreBuildIDs := ["build"];
     cl_AvailableSlots := {| sl_ConfigValidate := 0; sl_Connectivity := 1; sl_DownloadThroughput := 0 |};
     cl_MaximumSlots := no_slots |}.
Definition queue_lease (attempt : Z) : LeaseIdentity :=
  {| id_JobID := "job"; id_WorkerID := "runner"; id_Attempt := attempt; id_LeaseSeq := attempt |}.
Definition queue_event_input (id : ID) : EventInput :=
  {| ei_EventID := id; ei_Phase := "probing"; ei_Completed := 0; ei_Total := 1; ei_Verdict := "";
     ei_Error := None |}.
Definition no_metrics : Metrics :=
  {| me_ConfigCheckMS := None; me_CoreStartMS := None; me_ProxyDialMS := None; me_TargetTLSMS := None;
     me_HTTPTTFBMS := None; me_HTTPTotalMS := Some 12; me_BodyBytes := Some 300; me_BodyDurationMS := None;
     me_ThroughputMbps := None; me_EgressIP := None; me_SampleCount := Some 1; me_FailureCount := Some 0 |}.
Definition queue_result (state verdict : string) (err : option SafeError) : Result :=
  {| rs_State := state; rs_Verdict := verdict; rs_Metrics := no_metrics; rs_Error := err; rs_Hash := "";
     rs_Observation := None |}.

(** Two jobs; the first is leased, fails for the runner's sake, is leased again, reports an
    event and succeeds; the lease of the second expires. *)
Definition queue_1 : SampleDB := after (EnqueueTx (queue_input "job")) (queue_env "a" 0) queue_start.
Definition queue_2 : SampleDB := after (EnqueueTx (queue_input "late")) (queue_env "b" 1) queue_1.
Definition queue_3 : SampleDB := after (claim_tx queue_claim) (queue_env "c" 2) queue_2.
Definition queue_4 : SampleDB :=
  after (CompleteTx (queue_lease 1) (queue_result Failed Inconclusive (Some (Safe "PORT_BUSY"))) None)
    (queue_env "d" 3) queue_3.
Definition queue_5 : SampleDB := after (claim_tx queue_claim) (queue_env "e" 4) queue_4.
Definition queue_6 : SampleDB := after (claim_tx queue_claim) (queue_env "f" 5) queue_5.
Definition queue_7 : SampleDB :=
  after (record_event (queue_lease 2) (queue_event_input "event")) (queue_env "g" 6) queue_6.
Definition queue_8 : SampleDB := after (beat (queue_lease 2)) (queue_env "h" 7) queue_7.
Definition queue_9 : SampleDB :=
  after (CompleteTx (queue_lease 2) (queue_result Succeeded Pass None) None) (queue_env "i" 8) queue_8.
Definition queue_10 : SampleDB := after ReapExpired (queue_env "j" 60) queue_9.

(** ** The history is one *)

Lemma succeeds_commits {A} (m : @Tx queue_floats unit A) e db :
  succeeds m e db = true → commits_of m e db (after m e db).
Proof. apply succeeds_run. Qed.

Lemma queue_start_within : within queue_limit queue_start.
Proof. intros scope. unfold quota_of, queue_limit. simpl. rewrite lookup_empty. vm_compute. discriminate. Qed.

Lemma queue_reach_0 : reachable queue_limit queue_start.
Proof. exists queue_start. split; [|done]. eapply started_empty; [done|apply queue_start_within]. Qed.

Lemma queue_then (db db' : SampleDB) : reachable queue_limit db → step queue_limit db db' → reachable queue_limit db'.
Proof. intros H Hs. eapply reachable_steps; [exact H|by apply rtc_once]. Qed.

Lemma queue_step_3 : step queue_limit queue_2 queue_3.
Proof. eapply step_Claim; [|apply succeeds_commits; vm_compute; reflexivity]. apply NoDup_singleton. Qed.
Lemma queue_step_4 : step queue_limit queue_3 queue_4.
Proof. eapply step_Complete; [|apply succeeds_commits; vm_compute; reflexivity]. done. Qed.
Lemma queue_step_5 : step queue_limit queue_4 queue_5.
Proof. eapply step_Claim; [|apply succeeds_commits; vm_compute; reflexivity]. apply NoDup_singleton. Qed.
Lemma queue_step_6 : step queue_limit queue_5 queue_6.
Proof. eapply step_Claim; [|apply succeeds_commits; vm_compute; reflexivity]. apply NoDup_singleton. Qed.
Lemma queue_step_7 : step queue_limit queue_6 queue_7.
Proof. eapply step_Event. apply succeeds_commits. vm_compute. reflexivity. Qed.
Lemma queue_step_8 : step queue_limit queue_7 queue_8.
Proof. eapply step_Heartbeat. apply succeeds_commits. vm_compute. reflexivity. Qed.
Lemma queue_step_9 : step queue_limit queue_8 queue_9.
Proof. eapply step_Complete; [|apply succeeds_commits; vm_compute; reflexivity]. done. Qed.
Lemma queue_step_10 : step queue_limit queue_9 queue_10.
Proof. eapply step_Reap; [apply queue_env_mono|]. apply succeeds_commits. vm_compute. reflexivity. Qed.

Lemma queue_reach_2 : reachable queue_limit queue_2.
Proof.
  eapply queue_then; [eapply queue_then; [apply queue_reach_0|]|];
    (eapply step_Enqueue, succeeds_commits; vm_compute; reflexivity).
Qed.
Lemma queue_reach_3 : reachable queue_limit queue_3.
Proof. exact (queue_then _ _ queue_reach_2 queue_step_3). Qed.
Lemma queue_reach_6 : reachable queue_limit queue_6.
Proof.
  exact (queue_then _ _ (queue_then _ _ (queue_then _ _ queue_reach_3 queue_step_4) queue_step_5) queue_step_6).
Qed.
Lemma queue_reach_8 : reachable queue_limit queue_8.
Proof. exact (queue_then _ _ (queue_then _ _ queue_reach_6 queue_step_7) queue_step_8). Qed.
Lemma queue_reach_9 : reachable queue_limit queue_9.
Proof. exact (queue_then _ _ queue_reach_8 queue_step_9). Qed.
Lemma queue_reach_10 : reachable queue_limit queue_10.
Proof. exact (queue_then _ _ queue_reach_9 queue_step_10). Qed.
Lemma queue_steps_9 : rtc (step queue_limit) queue_8 queue_9.
Proof. apply rtc_once, queue_step_9. Qed.

(** The row of a job in a state of the history. *)
Definition job_in (db : SampleDB) (id : ID) : JobRow :=
  default (new_job {| jh_ID := id; jh_ScopeID := ""; jh_BatchID := ""; jh_Executor := ""; jh_Type := "";
                      jh_CoreBuildID := ""; jh_CreatedAt := 0 |}) (db_jobs db !! id).
Definition has_job (db : SampleDB) (id : ID) : bool := bool_decide (is_Some (db_jobs db !! id)).
Lemma has_job_in db id : has_job db id = true → db_jobs db !! id = Some (job_in db id).
Proof. unfold has_job, job_in. rewrite bool_decide_eq_true. by intros [r ->]. Qed.
Lemma job_in_unique db id r : db_jobs db !! id = Some r → r = job_in db id.
Proof. unfold job_in. by intros ->. Qed.

Lemma queue_3_run : ∃ lease, run (claim_tx queue_claim) (queue_env "c" 2) queue_2 = Ok (lease, queue_3).
Proof. unfold queue_3. apply succeeds_run. vm_compute. reflexivity. Qed.
Lemma queue_9_run : ∃ receipt,
  run (CompleteTx (queue_lease 2) (queue_result Succeeded Pass None) None) (queue_env "i" 8) queue_8
  = Ok (receipt, queue_9).
Proof. unfold queue_9. apply succeeds_run. vm_compute. reflexivity. Qed.
Lemma queue_10_run : ∃ n, run ReapExpired (queue_env "j" 60) queue_9 = Ok (n, queue_10).
Proof. unfold queue_10. apply succeeds_run. vm_compute. reflexivity. Qed.

(** At last the second job is canceled. *)
Definition no_actor : AuditActor := {| aa_ID := ""; aa_RequestID := "" |}.
Definition queue_cancel : @Tx queue_floats unit Snapshot :=
  cancel "scope" "late" (jr_Revision (job_in queue_10 "late")) no_actor.
Definition queue_11 : SampleDB := after queue_cancel (queue_env "z" 70) queue_10.
Lemma queue_11_run : ∃ snapshot, run queue_cancel (queue_env "z" 70) queue_10 = Ok (snapshot, queue_11).
Proof. unfold queue_11. apply succeeds_run. vm_compute. reflexivity. Qed.
Lemma queue_reach_11 : reachable queue_limit queue_11.
Proof. exact (queue_then _ _ queue_reach_10 (step_Cancel _ _ _ _ _ _ _ _ queue_11_run)). Qed.

Definition all_ended (db : SampleDB) : bool :=
  forallb (λ kr, Terminal (jr_State kr.2)) (map_to_list (db_jobs db)).
Lemma all_ended_jobs db id r :
  all_ended db = true → db_jobs db !! id = Some r → Terminal (jr_State r) = true.
Proof.
  unfold all_ended. rewrite forallb_forall. intros E Hr.
  by apply (E (id, r)), list_elem_of_In, elem_of_map_to_list.
Qed.

Section Theorems.
Context {P : Platform} {N : Network} {F : Float64} {W : Zones} {L : Payloads} {Business : Type}.
Abbreviation DB := (@DB F Business).



(** Every change of a job's state costs a phase, of which a new job has seven: a job
    changes state at most that often. *)
Theorem queue_job_terminates (limit : ID → Z) (db db' : DB) id r :
  reachable limit db → step limit db db' → db_jobs db !! id = Some r →
  0 ≤ rank (phase r) ≤ 7 ∧
  ∃ r', db_jobs db' !! id = Some r' ∧ (phase r' = phase r ∨ rank (phase r') < rank (phase r)).
Proof.
  intros Hreach Hs Hr. pose proof (reachable_inv limit db Hreach) as Hinv.
  assert (0 ≤ jr_Attempt r ≤ 2 ∧ (live_state (jr_State r) = true → 0 < jr_Attempt r) ∧
          State_Valid (jr_State r) = true) as (Ha & Hl & Hv).
  { pose proof (ri_checks _ _ (Inv_row _ _ _ _ Hinv Hr)) as Hc. unfold job_checks, between in Hc.
    rewrite !andb_true_iff, !orb_true_iff, !negb_true_iff in Hc. split_and!; [lia..| |tauto].
    intros Hl. destruct Hc as [[[[[_ [Hc|Hc]] _] _] _] _]; [congruence|lia]. }
  split.
  - unfold rank, phase. destruct (Terminal (jr_State r)) eqn:Ht; [lia|].
    destruct (jr_State r =s Queued) eqn:Hq; [lia|].
    unfold State_Valid in Hv. rewrite Ht, Hq, orb_false_r in Hv. specialize (Hl Hv).
    destruct (jr_State r =s Leased); lia.
  - destruct (step_kept limit _ _ Hinv Hs) as [_ [Hk _ _]]. destruct (Hk id r Hr) as (r' & Hr' & [_ Hm _ _]).
    exists r'. split; [done|]. destruct (moves_rank _ _ Hm Ha) as [E|?]; [left; done|by right].
Qed.


(** Budget does not leak: once the jobs of a scope have ended, none of its buckets
    holds anything in reserve. *)
Theorem quota_released (limit : ID → Z) (db : DB) scope day b :
  reachable limit db → db_buckets db !! (scope, day) = Some b →
  (∀ id r, db_jobs db !! id = Some r → j_ScopeID r = scope → Terminal (jr_State r) = true) →
  bu_Reserved b = 0.
Proof.
  intros Hreach Hb Hend. pose proof (reachable_inv limit db Hreach) as Hinv.
  destruct (ac_sums _ _ (in_accounts _ _ Hinv) _ _ Hb) as (-> & _ & _).
  apply total_zero_key. intros [id a] x Hx Ekey.
  destruct (reservation_job limit db id a x Hinv Hx) as (r & Hr & Hsc & Hset).
  unfold pending_bytes. destruct (qr_Settled x); [done|]. destruct Hset as [Hp _].
  rewrite (pending_terminal r) in Hp; [by specialize (Hp eq_refl)|].
  eapply Hend; [exact Hr|]. injection Ekey as <- _. congruence.
Qed.

(** (C9) Fencing: once a job has been leased again, the holder of an earlier lease can
    never again renew it, report an event or deliver a result, whatever happens in between. *)
Theorem superseded_lease_refused (limit : ID → Z) (db db' : DB) id r e input result callback :
  reachable limit db → db_jobs db !! id_JobID id = Some r → id_Attempt id < jr_Attempt r →
  rtc (step limit) db db' →
  refuses (beat id) e db' ∧ refuses (record_event id input) e db' ∧
  refuses (CompleteTx id result callback) e db'.
Proof.
  intros Hreach Hr Ha Hs.
  destruct (steps_progress limit db db' _ r (reachable_inv limit db Hreach) Hs Hr) as (r' & Hr' & Hp).
  apply progress_attempt in Hp.
  assert (lost id db') as Hlost.
  { intros x Hx. rewrite Hr' in Hx. injection Hx as <-. unfold holds.
    replace (jr_Attempt r' =? id_Attempt id) with false by (symmetry; apply Z.eqb_neq; lia).
    by rewrite andb_false_r. }
  pose proof (lost_lapsed e _ _ Hlost) as Hlapsed. split_and!.
  - by apply lapsed_beat.
  - by apply lapsed_event.
  - by apply lost_complete.
Qed.

(** A lease that has expired renews nothing and reports nothing; delivering a result
    under it changes nothing, and succeeds only for a result that is on record. *)
Theorem expired_lease_inert (db : DB) id e input result callback :
  (∀ r k, db_jobs db !! id_JobID id = Some r → unexpired (clock e k) r = false) →
  refuses (beat id) e db ∧ refuses (record_event id input) e db ∧
  ∀ receipt db', run (CompleteTx id result callback) e db = Ok (receipt, db') →
    db' = db ∧ rr_Replayed receipt = true.
Proof.
  intros H. assert (lapsed e id db) as Hlapsed.
  { intros r k Hr. by rewrite (H r k Hr), andb_false_r. }
  split_and!; [by apply lapsed_beat|by apply lapsed_event|].
  intros receipt db'. by apply lapsed_complete.
Qed.

(** (C10) A result is accepted once: while the lease is the job's last one, delivering the
    same result again, at any time and with any callback, is answered with the same
    result identifier, digest and settled bytes, and changes nothing. *)
Theorem complete_is_idempotent (limit : ID → Z) (db db1 db2 : DB) id input callback receipt e r2 :
  reachable limit db → (∀ m, callback = Some m → commits limit e m) →
  run (CompleteTx id input callback) e db = Ok (receipt, db1) →
  rtc (step limit) db1 db2 → db_jobs db2 !! id_JobID id = Some r2 → holds id r2 = true →
  ∀ e' callback', ∃ again, run (CompleteTx id input callback') e' db2 = Ok (again, db2) ∧
    rr_ResultID again = rr_ResultID receipt ∧ rr_ResultHash again = rr_ResultHash receipt ∧
    rr_SettledBytes again = rr_SettledBytes receipt ∧ rr_Replayed again = true.
Proof.
  intros Hreach Hcb Hrun Hs Hr2 Hh e' callback'. pose proof (reachable_inv limit db Hreach) as Hinv.
  pose proof (run_from _ _ _ _ _ _ Hrun (wp_complete_checks e id input callback (begin db))) as
    (_ & _ & clean & hash & job & Hv & Hc & Hjob & Hcfg & _ & _ & _ & Eh).
  destruct (complete_records limit e id input callback db receipt db1 Hinv Hcb Hrun)
    as (w & Hw & Hsame & Hworker & Ehash & Ei & Es).
  assert (step limit db db1) as Hstep by (eapply step_Complete; [exact Hcb|by eexists]).
  destruct (step_kept limit _ _ Hinv Hstep) as [Hinv1 _].
  pose proof (steps_inv limit _ _ Hinv1 Hs) as Hinv2.
  destruct (steps_kept limit _ _ (id_JobID id) Hinv1 Hs) as [Hpre _].
  assert (w ∈ results_of (id_JobID id) db2) as Hw2.
  { destruct Hpre as [l ->]. apply elem_of_app. by left. }
  pose proof (recorded_found limit db2 id r2 w Hinv2 Hr2 Hw2 Hsame Hworker) as Hfound.
  destruct (steps_progress limit db db2 (id_JobID id) job) as (r' & Hr' & [Ehead _ _ _]);
    [done|by eapply rtc_l|exact Hjob|]. rewrite Hr2 in Hr'. injection Hr' as <-.
  exists (answer id w). split; [|by rewrite <-Ei, <-Es, <-Ehash].
  apply (complete_answers e' id input callback' db2 clean hash r2 w); try done.
  - unfold config_only, j_Type in *. by rewrite Ehead.
  - congruence.
Qed.

(** A result that is accepted, rather than answered from the record, comes from the
    holder of a lease in force; it is recorded under that lease, ends the attempt, and leaves
    the job in the state it names, or after a failure of the infrastructure back in the queue. *)
Theorem complete_ends_attempt (limit : ID → Z) (db db' : DB) id input callback receipt e :
  reachable limit db → (∀ m, callback = Some m → commits limit e m) →
  run (CompleteTx id input callback) e db = Ok (receipt, db') → rr_Replayed receipt = false →
  ∃ clean hash, canonicalResult input = Ok (clean, hash) ∧ Accepted e id clean hash db db' receipt.
Proof.
  intros Hreach Hcb Hrun Hrep. pose proof (reachable_inv limit db Hreach) as Hinv.
  eapply (run_from _ _ _ _ _ (λ receipt s', rr_Replayed receipt = false →
    ∃ clean hash, canonicalResult input = Ok (clean, hash) ∧ Accepted e id clean hash db (st_db s') receipt)) in Hrun.
  - destruct Hrun as (s' & <- & H). auto.
  - apply (wp_complete limit); [done|done|congruence|].
    intros clean hash rc s' Hc _ _ Hacc _ _. by exists clean, hash.
Qed.

(** A claim leases the oldest queued job it may take, for its next attempt and for
    thirty seconds, and never more jobs of a type than the limits of the scope and of the
    runner allow. *)
Theorem claim_takes_oldest (limit : ID → Z) (db db' : DB) input lease e :
  reachable limit db → NoDup (cl_Types input) →
  run (claim_tx input) e db = Ok (Some lease, db') →
  ∃ job r', Claimed e input db db' lease job r'.
Proof.
  intros Hreach Hnd Hrun. pose proof (reachable_inv limit db Hreach) as Hinv.
  eapply (run_from _ _ _ _ _ (λ o s', ∀ lease, o = Some lease →
    ∃ job r', Claimed e input db (st_db s') lease job r')) in Hrun.
  - destruct Hrun as (s' & <- & H). auto.
  - apply (wp_claim limit); [done|done|done|]. intros X ls job r' s' _ _ Hcl ? [= <-]. by exists job, r'.
Qed.

(** (C12) Recovery is complete: unless a hundred leases were waiting, after a run of the
    reaper no job holds an expired lease except those another transaction has locked. *)
Theorem reaper_recovers (limit : ID → Z) (db db' : DB) n e :
  reachable limit db → clock_mono e → run ReapExpired e db = Ok (n, db') → n < 100 →
  ∀ id r, db_jobs db' !! id = Some r → expired_at (clock e 0) r = true → locked e id = true.
Proof.
  intros Hreach Hmono Hrun Hn. pose proof (reachable_inv limit db Hreach) as Hinv.
  eapply (run_from _ _ _ _ _ (λ n s', n < 100 → ∀ id r, db_jobs (st_db s') !! id = Some r →
    expired_at (clock e 0) r = true → locked e id = true)) in Hrun.
  - destruct Hrun as (s' & <- & H). exact (H Hn).
  - apply (wp_ReapExpired limit); [done|done|]. intros m X s' _ _ H. exact H.
Qed.

(** The events of a job are an append-only log: numbered from one without a gap up to
    the job's sequence, never lost and never rewritten. *)
Theorem events_append_only (limit : ID → Z) (db db' : DB) id r :
  reachable limit db → rtc (step limit) db db' → db_jobs db' !! id = Some r →
  ew_Seq <$> events_of id db' = seqZ 1 (jr_EventSeq r) ∧ events_of id db `prefix_of` events_of id db'.
Proof.
  intros Hreach Hs Hr. pose proof (reachable_inv limit db Hreach) as Hinv.
  split; [|by apply (steps_kept limit)].
  by destruct (Inv_job limit db' id r (steps_inv limit db db' Hinv Hs) Hr) as (_ & _ & _ & [? _]).
Qed.

(** A job has succeeded exactly when the result of its last attempt says so, and that
    result is the only one that does. *)
Theorem success_has_one_result (limit : ID → Z) (db : DB) id r :
  reachable limit db → db_jobs db !! id = Some r →
  (jr_State r = Succeeded ↔
   ∃ w, w ∈ db_results db ∧ rw_JobID w = id ∧ rw_Attempt w = jr_Attempt r ∧
        rs_State (rw_Result w) = Succeeded) ∧
  ∀ w w', w ∈ db_results db → w' ∈ db_results db → rw_JobID w = id → rw_JobID w' = id →
    rs_State (rw_Result w) = Succeeded → rs_State (rw_Result w') = Succeeded → w = w'.
Proof.
  intros Hreach Hr. destruct (Inv_job limit db id r (reachable_inv limit db Hreach) Hr) as (_ & _ & [H1 _ _ H4 H5] & _).
  split.
  - rewrite H4. unfold results_of. setoid_rewrite list_elem_of_filter. naive_solver.
  - intros w w' Hw Hw' Ej Ej' Hs Hs'.
    assert (w ∈ results_of id db) as Hin by (by apply list_elem_of_filter).
    assert (w' ∈ results_of id db) as Hin' by (by apply list_elem_of_filter).
    pose proof (H5 w Hin Hs). pose proof (H5 w' Hin' Hs'). eapply NoDup_key_inj; [exact H1|done|done|congruence].
Qed.

(** The batch is the sum of its children: its revision advances with each of theirs, it
    has ended when all have, it has succeeded when all have, and passes when all pass. *)
Theorem aggregateBatch_exact (b : Batch) :
  ba_Completed b = 0 → ba_Verdict b = "" →
  let l := ba_Children b in
  let s := aggregateBatch b in
  ba_Children s = l ∧ ba_Revision s = ba_Revision b + child_revisions l ∧
  ba_Completed s = ended_children l ∧
  (Terminal (ba_State s) = true ↔ Forall (λ j, Terminal (jr_State j) = true) l) ∧
  (ba_State s = Succeeded ↔ Forall (λ j, jr_State j = Succeeded) l) ∧
  (ba_State s = Queued ↔ l ≠ [] ∧ Forall (λ j, jr_State j = Queued) l) ∧
  (ba_Verdict s = Pass ↔ Forall (λ j, Terminal (jr_State j) = true ∧ jr_Verdict j = Pass) l) ∧
  (ba_Verdict s = Fail ↔ Forall (λ j, Terminal (jr_State j) = true) l ∧ Exists (λ j, jr_Verdict j = Fail) l).
Proof.
  intros Hc Hv l s. unfold s. rewrite aggregate_sum by done. cbn.
  pose proof (batch_verdict_exact (ba_Children b)) as [H1 H2]. split_and!; try done.
  - apply batch_state_terminal.
  - apply batch_state_succeeded.
  - apply batch_state_queued.
Qed.

(** Cancellation reaches everything it names: the job, or every child of the batch, has
    ended or is asked to stop, and a job is canceled only at the revision the caller saw. *)
Theorem cancel_reaches_all (limit : ID → Z) (db db' : DB) scope id revision actor snapshot e :
  reachable limit db → run (cancel scope id revision actor) e db = Ok (snapshot, db') →
  Canceling scope id revision db db' snapshot.
Proof.
  intros Hreach Hrun. pose proof (reachable_inv limit db Hreach) as Hinv.
  eapply (run_from _ _ _ _ _ (λ snapshot s', Canceling scope id revision db (st_db s') snapshot)) in Hrun.
  - by destruct Hrun as (s' & <- & H).
  - apply (wp_cancel limit); [done|]. intros X sn s' _ H. exact H.
Qed.

(** Canonical results are stable: a result that was made canonical is accepted as it
    is, with the same digest, and only safe explanations of known codes are kept. *)
Theorem canonicalResult_idempotent input clean hash :
  canonicalResult input = Ok (clean, hash) →
  canonicalResult clean = Ok (clean, hash) ∧ rs_Hash clean = hash ∧
  (∀ err, rs_Error clean = Some err → err = Safe (se_Code err) ∧ KnownError (se_Code err) = true).
Proof.
  intros H. destruct (canonicalResult_clean _ _ _ H) as (H1 & H2 & _). split_and!; [done|done|].
  by eapply canonical_error.
Qed.
End Theorems.

(** A sequence number is read from exactly the decimal text that is written for it. *)
Theorem sequence_roundtrip value n :
  Sequence_Parse value = Some n ↔
  0 ≤ n ≤ MaxInt64 ∧ value = Itoa n ∧ Sequence_MarshalJSON n = Some (Marshal (Str value)).
Proof.
  rewrite Sequence_Parse_exact. unfold Sequence_MarshalJSON. split.
  - intros [Hn ->]. split_and!; [lia..|done|]. by replace (n <? 0) with false by lia.
  - intros (Hn & -> & _). done.
Qed.

(** ** Witnesses *)



Lemma queue_job_terminates_witness :
  has_job queue_8 "job" = true ∧ 0 ≤ rank (phase (job_in queue_8 "job")) ≤ 7.
Proof.
  assert (has_job queue_8 "job" = true) as H by (vm_compute; reflexivity). split; [exact H|].
  exact (proj1 (queue_job_terminates queue_limit queue_8 queue_9 "job" _ queue_reach_8 queue_step_9
                  (has_job_in _ _ H))).
Defined.



Lemma superseded_lease_refused_witness :
  id_Attempt (queue_lease 1) < jr_Attempt (job_in queue_8 "job") ∧
  refuses (beat (queue_lease 1)) (queue_env "x" 9) queue_9.
Proof.
  assert (has_job queue_8 "job" = true) as H by (vm_compute; reflexivity).
  assert (id_Attempt (queue_lease 1) < jr_Attempt (job_in queue_8 "job")) as Ha by (vm_compute; reflexivity).
  split; [exact Ha|].
  exact (proj1 (superseded_lease_refused queue_limit queue_8 queue_9 (queue_lease 1) _ (queue_env "x" 9)
                  (queue_event_input "e") (queue_result Succeeded Pass None) None queue_reach_8
                  (has_job_in _ _ H) Ha queue_steps_9)).
Defined.

Lemma expired_lease_inert_witness :
  (∀ r k, db_jobs queue_9 !! "job" = Some r → unexpired (clock (queue_env "x" 9) k) r = false) ∧
  refuses (beat (queue_lease 2)) (queue_env "x" 9) queue_9.
Proof.
  assert (∀ r k, db_jobs queue_9 !! "job" = Some r → unexpired (clock (queue_env "x" 9) k) r = false) as H.
  { assert (live_state (jr_State (job_in queue_9 "job")) = false) as E by (vm_compute; reflexivity).
    intros r k Hr. rewrite (job_in_unique _ _ _ Hr). unfold unexpired. rewrite E. reflexivity. }
  split; [exact H|].
  exact (proj1 (expired_lease_inert queue_9 (queue_lease 2) (queue_env "x" 9) (queue_event_input "e")
                  (queue_result Succeeded Pass None) None H)).
Defined.

Lemma no_callback e (m : @Tx queue_floats unit unit) : None = Some m → commits queue_limit e m.
Proof. discriminate. Qed.

Lemma complete_is_idempotent_witness :
  ∃ receipt again, run (CompleteTx (queue_lease 2) (queue_result Succeeded Pass None) None) (queue_env "i" 8) queue_8
                   = Ok (receipt, queue_9) ∧
  run (CompleteTx (queue_lease 2) (queue_result Succeeded Pass None) None) (queue_env "x" 9) queue_9
    = Ok (again, queue_9) ∧ rr_ResultID again = rr_ResultID receipt.
Proof.
  destruct queue_9_run as [receipt Hrun].
  assert (has_job queue_9 "job" = true) as Hj by (vm_compute; reflexivity).
  assert (holds (queue_lease 2) (job_in queue_9 "job") = true) as Hh by (vm_compute; reflexivity).
  destruct (complete_is_idempotent queue_limit queue_8 queue_9 queue_9 (queue_lease 2) _ None receipt
              (queue_env "i" 8) _ queue_reach_8 (no_callback _) Hrun (rtc_refl _ _) (has_job_in _ _ Hj) Hh
              (queue_env "x" 9) None) as (again & H1 & H2 & _).
  exists receipt, again. exact (conj Hrun (conj H1 H2)).
Defined.

Lemma complete_ends_attempt_witness :
  ∃ receipt clean hash, rr_Replayed receipt = false ∧
  Accepted (queue_env "i" 8) (queue_lease 2) clean hash queue_8 queue_9 receipt.
Proof.
  destruct queue_9_run as [receipt Hrun].
  assert (rr_Replayed receipt = false) as Hr.
  { assert (match run (CompleteTx (queue_lease 2) (queue_result Succeeded Pass None) None) (queue_env "i" 8) queue_8
            with Ok (x, _) => rr_Replayed x | Err _ => true end = false) as E by (vm_compute; reflexivity).
    rewrite Hrun in E. exact E. }
  destruct (complete_ends_attempt queue_limit queue_8 queue_9 (queue_lease 2) _ None receipt (queue_env "i" 8)
              queue_reach_8 (no_callback _) Hrun Hr) as (clean & hash & _ & H).
  exists receipt, clean, hash. exact (conj Hr H).
Defined.

Lemma claim_takes_oldest_witness :
  ∃ lease job r', run (claim_tx queue_claim) (queue_env "c" 2) queue_2 = Ok (Some lease, queue_3) ∧
  Claimed (queue_env "c" 2) queue_claim queue_2 queue_3 lease job r'.
Proof.
  destruct queue_3_run as [[lease|] Hrun].
  - destruct (claim_takes_oldest queue_limit queue_2 queue_3 queue_claim lease (queue_env "c" 2) queue_reach_2
                (NoDup_singleton _) Hrun) as (job & r' & H).
    exists lease, job, r'. exact (conj Hrun H).
  - exfalso. assert (match run (claim_tx queue_claim) (queue_env "c" 2) queue_2 with
                     | Ok (Some _, _) => true | _ => false end = true) as E by (vm_compute; reflexivity).
    rewrite Hrun in E. discriminate E.
Defined.

Lemma reaper_recovers_witness :
  ∃ n, run ReapExpired (queue_env "j" 60) queue_9 = Ok (n, queue_10) ∧ n < 100 ∧
  ∀ id r, db_jobs queue_10 !! id = Some r → expired_at 60000000 r = true → False.
Proof.
  destruct queue_10_run as [n Hrun]. exists n. split; [exact Hrun|].
  assert (n < 100) as Hn.
  { assert (match run ReapExpired (queue_env "j" 60) queue_9 with Ok (x, _) => x <? 100 | Err _ => false end = true)
      as E by (vm_compute; reflexivity). rewrite Hrun in E. apply Z.ltb_lt, E. }
  split; [exact Hn|]. intros id r Hr He.
  discriminate (reaper_recovers queue_limit queue_9 queue_10 n (queue_env "j" 60) queue_reach_9
                  (queue_env_mono _ _) Hrun Hn id r Hr He).
Defined.

Lemma events_append_only_witness :
  has_job queue_9 "job" = true ∧
  ew_Seq <$> events_of "job" queue_9 = seqZ 1 (jr_EventSeq (job_in queue_9 "job")).
Proof.
  assert (has_job queue_9 "job" = true) as H by (vm_compute; reflexivity). split; [exact H|].
  exact (proj1 (events_append_only queue_limit queue_8 queue_9 "job" _ queue_reach_8 queue_steps_9
                  (has_job_in _ _ H))).
Defined.

Lemma success_has_one_result_witness :
  jr_State (job_in queue_9 "job") = Succeeded ∧
  ∃ w, w ∈ db_results queue_9 ∧ rs_State (rw_Result w) = Succeeded.
Proof.
  assert (has_job queue_9 "job" = true) as H by (vm_compute; reflexivity).
  assert (jr_State (job_in queue_9 "job") = Succeeded) as E by (vm_compute; reflexivity).
  split; [exact E|].
  destruct (success_has_one_result queue_limit queue_9 "job" _ queue_reach_9 (has_job_in _ _ H)) as [[Hw _] _].
  destruct (Hw E) as (w & H1 & _ & _ & H2). exists w. exact (conj H1 H2).
Defined.

Definition sample_batch : Batch :=
  {| ba_ID := "batch"; ba_ScopeID := "scope"; ba_Revision := 1; ba_State := ""; ba_Verdict := "";
     ba_Children := [job_in queue_9 "job"; job_in queue_9 "late"]; ba_Completed := 0;
     ba_CancelRequested := false; ba_EffectiveLimits := {| li_DurationMS := 1; li_MaxBytes := 0 |};
     ba_CreatedAt := 0 |}.
Lemma aggregateBatch_exact_witness :
  ba_Completed sample_batch = 0 ∧ ba_Verdict sample_batch = "" ∧ ba_State (aggregateBatch sample_batch) = Running ∧
  ba_Completed (aggregateBatch sample_batch) = ended_children (ba_Children sample_batch).
Proof.
  split; [reflexivity|]. split; [reflexivity|]. split; [vm_compute; reflexivity|].
  destruct (aggregateBatch_exact sample_batch eq_refl eq_refl) as (_ & _ & H & _). exact H.
Defined.

Lemma cancel_reaches_all_witness :
  ∃ snapshot, run queue_cancel (queue_env "z" 70) queue_10 = Ok (snapshot, queue_11) ∧
  Canceling "scope" "late" (jr_Revision (job_in queue_10 "late")) queue_10 queue_11 snapshot.
Proof.
  destruct queue_11_run as [snapshot Hrun]. exists snapshot. split; [exact Hrun|].
  exact (cancel_reaches_all queue_limit queue_10 queue_11 _ _ _ _ _ _ queue_reach_10 Hrun).
Defined.

Definition last_bucket : Bucket :=
  default {| bu_Reserved := 7; bu_Settled := 0 |} (db_buckets queue_11 !! ("scope", 0)).
Lemma quota_released_witness :
  db_buckets queue_11 !! ("scope", 0) = Some last_bucket ∧ bu_Reserved last_bucket = 0 ∧ 0 < bu_Settled last_bucket.
Proof.
  assert (db_buckets queue_11 !! ("scope", 0) = Some last_bucket) as Hb by (vm_compute; reflexivity).
  split; [exact Hb|]. split; [|vm_compute; reflexivity].
  apply (quota_released queue_limit queue_11 "scope" 0 last_bucket queue_reach_11 Hb).
  assert (all_ended queue_11 = true) as E by (vm_compute; reflexivity).
  intros id r Hr _. exact (all_ended_jobs queue_11 id r E Hr).
Defined.

Lemma canonicalResult_idempotent_witness :
  ∃ clean hash, canonicalResult (queue_result Failed Fail (Some (Safe "PORT_BUSY"))) = Ok (clean, hash) ∧
  canonicalResult clean = Ok (clean, hash).
Proof.
  destruct (canonicalResult (queue_result Failed Fail (Some (Safe "PORT_BUSY")))) as [[clean hash]|err] eqn:E.
  - exists clean, hash. split; [reflexivity|]. exact (proj1 (canonicalResult_idempotent _ clean hash E)).
  - exfalso. assert (match canonicalResult (queue_result Failed Fail (Some (Safe "PORT_BUSY"))) with
                     | Ok _ => true | Err _ => false end = true) as Ho by (vm_compute; reflexivity).
    rewrite E in Ho. discriminate Ho.
Defined.
