(* ===== verification/Sample.v ===== *)
(** A concrete platform and a small snapshot: two nodes, a chain, a policy group, routing,
    DNS, a rule set and a preset. The theorems' witnesses run on them. The two lock files
    the program embeds ([compat/cores.lock.yaml] and [compat/p0-combinations.yaml]),
    decoded, and the catalog they parse to. *)
From S2P Require Import Prelude Diagnostics IRTypes Hashes IRValidate ValidateFacts Frozen.
From S2P Require Import FrozenFacts Catalog CatalogFacts Capability Labels Adapter Network Mihomo.
From S2P Require Import Compiler RouteFacts ExpandFacts ConditionFacts EmitFacts.

(** ** A schema validator that checks the constraints the compiler relies on *)

Definition typed_ref (ref : TargetRef) : bool :=
  (tr_Type ref =s ResourceRef) || (tr_Type ref =s BuiltinRef).

Definition ref_of_kind (kind : string) (ref : option FrozenRef) : bool :=
  match ref with Some ref => fr_Kind ref =s kind | None => true end.

Definition plain_valueb (v : string) : bool := all_chars value_char v.
Definition match_accepted (m : RouteMatch) : bool :=
  forallb plain_valueb (rm_DomainExact m ++ rm_DomainSuffix m ++ rm_IPCIDRs m ++ rm_Network m) &&
  forallb (λ n, (n =s "tcp") || (n =s "udp")) (rm_Network m) &&
  negb ((length (rm_DomainExact m) + length (rm_DomainSuffix m) + length (rm_RuleSetIDs m) +
         length (rm_IPCIDRs m) + length (rm_DestinationPorts m) + length (rm_Network m) =? 0)%nat).

Definition node_accepted (n : Node) : bool :=
  match n_Auth n with Auth_typed_nil _ => false | _ => true end &&
  match n_Transport n with Transport_typed_nil _ => false | _ => true end &&
  match n_Security n with
  | Security_typed_nil _ => false
  | Security_TLS t => bool_decide (tls_VerifyCertificate t ≠ None)
  | _ => true
  end &&
  bool_decide (n_Protocol n ∈ [Shadowsocks; VMess; VLESS; Trojan; SOCKS5; HTTP]).

Definition accepts (v : SchemaValue) : bool :=
  match v with
  | SV_Resource r =>
      (md_SchemaVersion (r_Metadata r) =? 1) &&
      match r_Payload r with
      | Payload_Chain c => (length (ch_Hops c) =? 2)%nat
      | _ => true
      end
  | SV_PolicyGroup g =>
      forallb (λ m, (tr_Kind m =s KindNode) || (tr_Kind m =s KindChain)) (pg_Members g)
  | SV_RoutingProfile p => forallb typed_ref (rp_Final p :: (rr_Action <$> rp_Rules p))
  | SV_DNSProfile d =>
      forallb typed_ref (omap dr_Outbound (dp_Resolvers d)) &&
      forallb (λ r, match_accepted (dns_route_match (dru_Match r))) (dp_Rules d)
  | SV_FrozenInput v =>
      ref_of_kind KindRoutingProfile (fs_RoutingProfile v) &&
      ref_of_kind KindDNSProfile (fs_DNSProfile v)
  | SV_RouteMatch m => match_accepted m
  | SV_PortRange p => (1 <=? pr_From p) && (pr_From p <=? 65535) && (1 <=? pr_To p) && (pr_To p <=? 65535)
  | SV_RuleSetEntry e => (rse_Kind e =s RuleSetDomain) || (rse_Kind e =s RuleSetCIDR)
  | SV_RuleSetWrite w =>
      negb (length (rsw_Entries w) =? 0)%nat && forallb (plain_valueb ∘ entry_value) (rsw_Entries w)
  | SV_Node n => node_accepted n
  | SV_PolicyHealthCheck h =>
      negb (hc_Enabled h) || match hc_IntervalMS h with Some ms => 1000 <=? ms | None => false end
  | _ => true
  end.

(** The prefixes the samples know. *)
Definition known_prefix (v : string) : option NetPrefix :=
  if v =s "10.0.0.0/8" then
    Some {| np_Addr := {| a_is6 := false; a_bits := [false; false; false; false; true; false; true; false] |};
            np_Bits := 8 |}
  else None.

#[export] Instance sample_platform : Platform.
Proof.
  refine {| validateValue := λ _ v, if accepts v then None else Some [issue InvalidValue ""];
            url_Parse := λ _, None; Prefix := string;
            ParsePrefix := λ v, if known_prefix v then Some v else None; Masked := id;
            Prefix_String := id |}.
  intros _ v. by destruct (accepts v).
Defined.

#[export] Instance sample_network : Network :=
  {| ParseAddr := λ v, if v =s PresetLoopbackAddress
                       then Some {| a_is6 := false; a_bits := [] |} else None;
     ParseNetPrefix := known_prefix; ParseURL := λ _, None |}.

#[export] Instance sample_upper : Upper.
Proof. refine {| ToUpper := ascii_upper |}. done. Defined.

#[export] Instance sample_yaml : Mihomo.YAML :=
  {| Mihomo.marshalYAML := λ doc, Some (String.concat "," (Mihomo.doc_Rules doc)) |}.

(** [strings.TrimSpace] on ASCII text. *)
Definition ascii_space (c : ascii) : bool :=
  existsb (Ascii.eqb c) [" "; "009"; "010"; "011"; "012"; "013"]%char.
Fixpoint trim_left (s : string) : string :=
  match s with
  | String c s' => if ascii_space c then trim_left s' else s
  | EmptyString => ""
  end.
Fixpoint trim_right (s : string) : string :=
  match s with
  | String c s' =>
      let r := trim_right s' in if ascii_space c && (r =s "") then "" else String c r
  | EmptyString => ""
  end.
Definition ascii_trim (s : string) : string := trim_right (trim_left s).

#[export] Instance sample_text : GoText.
Proof. refine {| ToLower := ascii_lower; TrimSpace := ascii_trim |}. done. Defined.

#[export] Instance sample_codec : Codec :=
  {| Bytes := Resource; marshalResource := Some; DecodeResource := Some |}.

Lemma sample_codec_roundtrip : CodecRoundTrip.
Proof. intros r _. by exists r. Qed.

Lemma accepts_of d v : validateValue d v = None → accepts v = true.
Proof. simpl. by destruct (accepts v). Qed.

Lemma sample_schema : SchemaContract sample_platform.
Proof.
  split.
  - intros r c [_ H]%accepts_of%andb_true_iff Hc. rewrite Hc in H. by apply Nat.eqb_eq in H.
  - intros g H%accepts_of. unfold accepts in H. eapply Forall_forallb_iff; [|exact H].
    intros m. by rewrite orb_true_iff, !String.eqb_eq.
  - intros p H%accepts_of. unfold accepts in H. eapply Forall_forallb_iff; [|exact H].
    intros m. unfold typed_ref. by rewrite orb_true_iff, !String.eqb_eq.
  - intros p [H _]%accepts_of%andb_true_iff. eapply Forall_forallb_iff; [|exact H].
    intros m. unfold typed_ref. by rewrite orb_true_iff, !String.eqb_eq.
  - intros v ref H%accepts_of Hr. unfold accepts, ref_of_kind in H.
    rewrite Hr, andb_true_iff, ?String.eqb_eq in H. by destruct H.
  - intros v ref H%accepts_of Hr. unfold accepts, ref_of_kind in H.
    rewrite Hr, andb_true_iff, ?String.eqb_eq in H. by destruct H.
Qed.

Lemma match_accepted_ok m :
  match_accepted m = true → MatchPrintable m ∧ Forall is_network (rm_Network m).
Proof.
  unfold match_accepted. rewrite !andb_true_iff, negb_true_iff, Nat.eqb_neq. intros [[H1 H2] H3].
  split; [split|].
  - by eapply Forall_forallb_iff; [|exact H1].
  - destruct (rm_DomainExact m), (rm_DomainSuffix m), (rm_RuleSetIDs m), (rm_IPCIDRs m),
      (rm_DestinationPorts m), (rm_Network m); naive_solver.
  - eapply Forall_forallb_iff; [|exact H2]. intros n. unfold is_network.
    by rewrite orb_true_iff, !String.eqb_eq.
Qed.

(** The contracts of the emitters hold of the sample platform. *)
Lemma sample_emit : EmitContract.
Proof.
  split.
  - intros m H%accepts_of. by apply match_accepted_ok.
  - intros p H%accepts_of. simpl in H. lia.
  - intros e H%accepts_of. simpl in H. by rewrite orb_true_iff, !String.eqb_eq in H.
  - intros n H%accepts_of. simpl in H. unfold node_accepted in H.
    rewrite !andb_true_iff, bool_decide_eq_true in H. destruct H as [[[H1 H2] H3] H4]. unfold NodeSolid.
    split_and!; [| | | |done].
    + by destruct (n_Auth n).
    + by destruct (n_Transport n).
    + by destruct (n_Security n).
    + intros tls E. rewrite E, bool_decide_eq_true in H3. destruct (tls_VerifyCertificate tls); [done|].
      by destruct H3.
  - intros h H%accepts_of He. simpl in H. rewrite He in H. simpl in H.
    destruct (hc_IntervalMS h) as [ms|]; [|done]. exists ms. split; [done|lia].
  - intros v p. simpl. unfold Prefixed. simpl. destruct (known_prefix v); [by eexists|done].
Qed.

Lemma sample_texts : TextContract.
Proof.
  split.
  - intros m H%accepts_of. by apply match_accepted_ok.
  - intros p [_ H]%accepts_of%andb_true_iff. eapply Forall_impl.
    + by apply (Forall_forallb_iff _ (λ r, match_accepted (dns_route_match (dru_Match r)) = true)) in H.
    + intros r Hr. by apply match_accepted_ok.
  - intros w H%accepts_of. simpl in H. apply andb_true_iff in H as [H1 H2]. split.
    + by destruct (rsw_Entries w).
    + by eapply Forall_forallb_iff; [|exact H2].
Qed.

Lemma sample_order_blind : OrderBlind.
Proof.
  split.
  - intros r H%accepts_of. simpl in *. by rewrite H.
  - intros v H%accepts_of. simpl in *. by rewrite H.
Qed.

(** ** A snapshot *)

Definition sample_metadata (id kind : string) : Metadata :=
  {| md_ResourceID := id; md_ScopeID := "scope"; md_Kind := kind; md_Revision := 1;
     md_SchemaVersion := 1; md_Name := id; md_Tags := ["b"; "a"]; md_Enabled := true;
     md_SecurityEpoch := 1 |}.
Definition sample_resource (id kind : string) (p : ResourcePayload) : Resource :=
  {| r_Metadata := sample_metadata id kind; r_Payload := p |}.

Definition sample_node (host password : string) : Node :=
  {| n_SchemaVersion := 1; n_Protocol := Trojan;
     n_Endpoint := {| ep_Host := host; ep_Port := 443 |};
     n_Auth := Auth_Password {| pa_Kind := AuthPassword; pa_Password := password |};
     n_Transport := Transport_TCP {| tcp_Kind := NativeTCP |};
     n_Security := Security_TLS {| tls_Mode := TLS; tls_ServerName := host;
       tls_VerifyCertificate := Some true; tls_ALPN := []; tls_ClientFingerprint := None |};
     n_Features := {| ft_UDP := None; ft_Multiplex := None; ft_ProtocolVariant := None |};
     n_Origin := None |}.

Definition resource_ref (kind id : string) : TargetRef :=
  {| tr_Type := ResourceRef; tr_Kind := kind; tr_ResourceID := id; tr_Builtin := "" |}.
Definition builtin_ref (name : string) : TargetRef :=
  {| tr_Type := BuiltinRef; tr_Kind := ""; tr_ResourceID := ""; tr_Builtin := name |}.

Definition no_health : PolicyHealthCheck :=
  {| hc_Enabled := false; hc_URL := ""; hc_IntervalMS := None; hc_TimeoutMS := None;
     hc_ToleranceMS := None |}.

Definition sample_group : PolicyGroup :=
  {| pg_SchemaVersion := 1; pg_Strategy := PolicyManualSelect;
     pg_Members := [resource_ref KindNode "n1"; resource_ref KindChain "c1"];
     pg_DefaultMember := resource_ref KindNode "n1"; pg_HealthCheck := no_health;
     pg_OnUnavailable := FailClosed |}.

Definition sample_entries : list RuleSetEntry :=
  [{| rse_Kind := RuleSetDomain; rse_Domain := "example.com"; rse_Match := DomainSuffix; rse_CIDR := "" |};
   {| rse_Kind := RuleSetCIDR; rse_Domain := ""; rse_Match := ""; rse_CIDR := "10.0.0.0/8" |}].
Definition sample_write : RuleSetWrite :=
  {| rsw_SchemaVersion := 1; rsw_Format := DomainCIDRText; rsw_Entries := sample_entries |}.
Definition sample_rule_set : RuleSet :=
  {| rset_SchemaVersion := 1; rset_Format := DomainCIDRText; rset_Entries := sample_entries;
     rset_ContentHash := contentHash sample_write |}.

Definition match_any : RouteMatch :=
  {| rm_DomainExact := []; rm_DomainSuffix := []; rm_RuleSetIDs := []; rm_IPCIDRs := [];
     rm_DestinationPorts := []; rm_Network := [] |}.
Definition match_set : RouteMatch :=
  {| rm_DomainExact := []; rm_DomainSuffix := []; rm_RuleSetIDs := ["s1"]; rm_IPCIDRs := [];
     rm_DestinationPorts := [{| pr_From := 80; pr_To := 443 |}]; rm_Network := ["tcp"] |}.
Definition match_domain : RouteMatch :=
  {| rm_DomainExact := ["intra.example"]; rm_DomainSuffix := []; rm_RuleSetIDs := [];
     rm_IPCIDRs := []; rm_DestinationPorts := []; rm_Network := [] |}.

Definition sample_routing : RoutingProfile :=
  {| rp_SchemaVersion := 1;
     rp_Rules :=
       [{| rr_Match := match_set; rr_Action := resource_ref KindPolicyGroup "g1"; rr_Enabled := true;
           rr_Comment := "" |};
        {| rr_Match := match_domain; rr_Action := builtin_ref Reject; rr_Enabled := false;
           rr_Comment := "" |};
        {| rr_Match := match_domain; rr_Action := builtin_ref Direct; rr_Enabled := true;
           rr_Comment := "" |}];
     rp_Final := resource_ref KindChain "c1"; rp_DomainResolutionMode := PreserveDomain |}.

Definition sample_dns : DNSProfile :=
  {| dp_SchemaVersion := 1;
     dp_Bootstrap := [{| br_ResolverID := "boot"; br_Kind := DNSLocal; br_Address := ""; br_Port := 0 |}];
     dp_Resolvers := [{| dr_ResolverID := "local"; dr_Kind := DNSLocal; dr_Address := ""; dr_Port := 0;
        dr_URL := ""; dr_BootstrapResolverID := ""; dr_Outbound := Some (builtin_ref Direct) |}];
     dp_Rules := []; dp_FinalResolver := "local" |}.

Definition sample_preset : ClientPreset :=
  {| cp_SchemaVersion := 1; cp_CoreFamily := Mihomo; cp_Platform := "linux"; cp_Format := MihomoYAML;
     cp_LocalListener := {| ll_Protocol := "socks5"; ll_Listen := PresetLoopbackAddress; ll_Port := 1080 |};
     cp_DNSMode := "profile";
     cp_ControlAPI := {| ca_Enabled := true; ca_Listen := PresetLoopbackAddress; ca_Port := MihomoControlPort |};
     cp_ImportMethod := "file"; cp_ReviewStatus := "approved"; cp_ReviewedAt := "" |}.

Definition pin (id kind : string) : FrozenRef :=
  {| fr_ResourceID := id; fr_Kind := kind; fr_Revision := 1; fr_SecurityEpoch := 1 |}.

Definition sample_target : Target :=
  {| t_Key := "mihomo"; t_CoreFamily := Mihomo; t_CoreBuildID := "build"; t_CoreBuildSHA256 := "abcd";
     t_AdapterVersion := AdapterVersion; t_ClientPresetID := "p1"; t_ClientPresetRevision := 1;
     t_Format := MihomoYAML;
     t_PolicyOverrides := {[ "g1" := {| po_PolicyGroupID := "g1"; po_Strategy := None;
       po_DefaultMember := Some (resource_ref KindChain "c1"); po_HealthCheck := None |} ]} |}.

Definition sample_resources : list Resource :=
  [sample_resource "n2" KindNode (Payload_Node (sample_node "two.example" "pw2"));
   sample_resource "n1" KindNode (Payload_Node (sample_node "one.example" "pw1"));
   sample_resource "c1" KindChain (Payload_Chain
     {| ch_SchemaVersion := 1; ch_Hops := [{| nr_NodeID := "n1" |}; {| nr_NodeID := "n2" |}];
        ch_FailurePolicy := FailClosed |});
   sample_resource "g1" KindPolicyGroup (Payload_PolicyGroup sample_group);
   sample_resource "s1" KindRuleSet (Payload_RuleSet sample_rule_set);
   sample_resource "r1" KindRoutingProfile (Payload_RoutingProfile sample_routing);
   sample_resource "d1" KindDNSProfile (Payload_DNSProfile sample_dns);
   sample_resource "p1" KindClientPreset (Payload_ClientPreset sample_preset)].

Definition sample_spec : FrozenInputSpec :=
  {| fs_SchemaVersion := 1; fs_SnapshotID := "snap"; fs_ScopeID := "scope"; fs_CatalogRevision := 1;
     fs_SecurityEpoch := 1; fs_Resources := sample_resources;
     fs_Members := [pin "n1" KindNode; pin "c1" KindChain]; fs_Targets := [sample_target];
     fs_RoutingProfile := Some (pin "r1" KindRoutingProfile);
     fs_DNSProfile := Some (pin "d1" KindDNSProfile) |}.

Definition reordered_spec : FrozenInputSpec :=
  {| fs_SchemaVersion := 1; fs_SnapshotID := "snap"; fs_ScopeID := "scope"; fs_CatalogRevision := 1;
     fs_SecurityEpoch := 1; fs_Resources := reverse sample_resources;
     fs_Members := [pin "c1" KindChain; pin "n1" KindNode]; fs_Targets := [sample_target];
     fs_RoutingProfile := Some (pin "r1" KindRoutingProfile);
     fs_DNSProfile := Some (pin "d1" KindDNSProfile) |}.

Definition sample_input : FrozenInput := {| fi_spec := Some (normalize_spec sample_spec) |}.

Lemma sample_new : NewFrozenInput sample_spec = Ok sample_input.
Proof. vm_compute. reflexivity. Qed.

(** ** A catalog *)

Definition sample_record (key : string) (state : State) : CapabilityRecord :=
  {| rec_Key := key; rec_State := state; rec_Reason := ""; rec_FixtureIDs := [];
     rec_Evidence := {| ev_Suite := ""; ev_BuildID := "build"; ev_State := state; ev_Report := "";
                        ev_FixtureIDs := [] |} |}.

Definition sample_build : Build :=
  {| b_ID := "build"; b_Family := Mihomo; b_Version := "1"; b_GitTag := "v1"; b_GitCommit := "c";
     b_OS := "linux"; b_Arch := "amd64"; b_AssetName := "a"; b_AssetURL := "u";
     b_AssetSHA256 := ""; b_BinaryName := "m"; b_BinarySHA256 := "ABCD"; b_CGO := false;
     b_FeatureNotes := ""; b_License := "l"; b_Source := "s"; b_AdapterVersion := AdapterVersion;
     b_FixtureSet := FixtureSet;
     b_Capabilities := [sample_record "trojan.tls" Unverified; sample_record ChainTwoHop Unverified;
       sample_record "policy.manual_select" Verified; sample_record "routing.ordered" Unverified;
       sample_record "dns.profile" Unverified; sample_record "client_preset" Unverified;
       sample_record "rule_set.inline" Unverified] |}.

Definition sample_catalog : CapabilityCatalog :=
  {| cat_SchemaVersion := 1; cat_AdapterVersion := AdapterVersion; cat_FixtureSet := FixtureSet;
     cat_IDNamespace := IDNamespace; cat_PinnedAt := ""; cat_ClientValidation := Unverified;
     cat_Combinations := [{| co_ID := "c"; co_CapabilityKey := "trojan.tls"; co_Protocol := Trojan;
       co_Transport := NativeTCP; co_Security := "tls_or_none"; co_State := Unverified |}];
     cat_builds := [sample_build]; cat_byID := {[ "build" := 0%nat ]} |}.

(** ** The sample compiles *)

Lemma sample_prepared :
  ∃ out, Prepare sha256Hex sample_catalog sample_input sample_target = Ret out.
Proof. eexists. vm_compute. reflexivity. Qed.

(** ** A snapshot for the three families *)

Definition native_target (key family format preset : string) (strategy : option string) : Target :=
  {| t_Key := key; t_CoreFamily := family; t_CoreBuildID := key; t_CoreBuildSHA256 := "abcd";
     t_AdapterVersion := AdapterVersion; t_ClientPresetID := preset; t_ClientPresetRevision := 1;
     t_Format := format;
     t_PolicyOverrides := {[ "g1" := {| po_PolicyGroupID := "g1"; po_Strategy := strategy;
       po_DefaultMember := Some (resource_ref KindChain "c1"); po_HealthCheck := None |} ]} |}.

Definition native_preset (family format : string) (port : Z) : ClientPreset :=
  {| cp_SchemaVersion := 1; cp_CoreFamily := family; cp_Platform := "linux"; cp_Format := format;
     cp_LocalListener := {| ll_Protocol := "socks5"; ll_Listen := PresetLoopbackAddress; ll_Port := 1080 |};
     cp_DNSMode := "profile";
     cp_ControlAPI := {| ca_Enabled := negb (port =? 0); ca_Listen := PresetLoopbackAddress; ca_Port := port |};
     cp_ImportMethod := "file"; cp_ReviewStatus := "approved"; cp_ReviewedAt := "" |}.

Definition local_resolver (id : string) : DNSResolver :=
  {| dr_ResolverID := id; dr_Kind := DNSLocal; dr_Address := ""; dr_Port := 0; dr_URL := "";
     dr_BootstrapResolverID := ""; dr_Outbound := Some (builtin_ref Direct) |}.

Definition native_dns_profile : DNSProfile :=
  {| dp_SchemaVersion := 1; dp_Bootstrap := dp_Bootstrap sample_dns;
     dp_Resolvers := [local_resolver "local"; local_resolver "lan"];
     dp_Rules := [{| dru_Match := {| dm_DomainExact := []; dm_DomainSuffix := ["lan"]; dm_RuleSetIDs := ["s2"] |};
                     dru_ResolverID := "lan"; dru_Enabled := true; dru_Comment := "" |}];
     dp_FinalResolver := "local" |}.

Definition lan_entries : list RuleSetEntry :=
  [{| rse_Kind := RuleSetDomain; rse_Domain := "printer.lan"; rse_Match := DomainExact; rse_CIDR := "" |}].
Definition lan_write : RuleSetWrite :=
  {| rsw_SchemaVersion := 1; rsw_Format := DomainCIDRText; rsw_Entries := lan_entries |}.

Definition native_spec : FrozenInputSpec :=
  {| fs_SchemaVersion := 1; fs_SnapshotID := "snap"; fs_ScopeID := "scope"; fs_CatalogRevision := 1;
     fs_SecurityEpoch := 1;
     fs_Resources := take 6 sample_resources ++
       [sample_resource "d2" KindDNSProfile (Payload_DNSProfile native_dns_profile);
        sample_resource "s2" KindRuleSet (Payload_RuleSet
          {| rset_SchemaVersion := 1; rset_Format := DomainCIDRText; rset_Entries := lan_entries;
             rset_ContentHash := contentHash lan_write |});
        sample_resource "pm" KindClientPreset (Payload_ClientPreset (native_preset IRTypes.Mihomo MihomoYAML MihomoControlPort));
        sample_resource "ps" KindClientPreset (Payload_ClientPreset (native_preset SingBox SingBoxJSON SingBoxControlPort));
        sample_resource "px" KindClientPreset (Payload_ClientPreset (native_preset Xray XrayJSON 0))];
     fs_Members := [pin "n1" KindNode; pin "c1" KindChain];
     fs_Targets := [native_target "xray" Xray XrayJSON "px" (Some PolicyFixed);
                    native_target "singbox" SingBox SingBoxJSON "ps" None;
                    native_target "mihomo" IRTypes.Mihomo MihomoYAML "pm" None];
     fs_RoutingProfile := Some (pin "r1" KindRoutingProfile);
     fs_DNSProfile := Some (pin "d2" KindDNSProfile) |}.

Definition native_input : FrozenInput := {| fi_spec := Some (normalize_spec native_spec) |}.

Lemma native_new : NewFrozenInput native_spec = Ok native_input.
Proof. vm_compute. reflexivity. Qed.

Definition xray_target : Target := native_target "xray" Xray XrayJSON "px" (Some PolicyFixed).
Definition singbox_target : Target := native_target "singbox" SingBox SingBoxJSON "ps" None.
Definition mihomo_target : Target := native_target "mihomo" IRTypes.Mihomo MihomoYAML "pm" None.

Definition native_build (id family : string) : Build :=
  {| b_ID := id; b_Family := family; b_Version := "1"; b_GitTag := "v1"; b_GitCommit := "c";
     b_OS := "linux"; b_Arch := "amd64"; b_AssetName := "a"; b_AssetURL := "u";
     b_AssetSHA256 := ""; b_BinaryName := "m"; b_BinarySHA256 := "ABCD"; b_CGO := false;
     b_FeatureNotes := ""; b_License := "l"; b_Source := "s"; b_AdapterVersion := AdapterVersion;
     b_FixtureSet := FixtureSet;
     b_Capabilities := sample_record "policy.fixed" Unverified :: b_Capabilities sample_build |}.

Definition native_catalog : CapabilityCatalog :=
  {| cat_SchemaVersion := 1; cat_AdapterVersion := AdapterVersion; cat_FixtureSet := FixtureSet;
     cat_IDNamespace := IDNamespace; cat_PinnedAt := ""; cat_ClientValidation := Unverified;
     cat_Combinations := cat_Combinations sample_catalog;
     cat_builds := [native_build "xray" Xray; native_build "singbox" SingBox;
                    native_build "mihomo" IRTypes.Mihomo];
     cat_byID := {[ "xray" := 0%nat; "singbox" := 1%nat; "mihomo" := 2%nat ]} |}.

Definition locked_builds : list lockBuild :=
  [{| lb_ID := "42f06ab1-ac85-524b-87e5-6bc1e9a82409";
      lb_Family := "xray";
      lb_Version := "26.3.27";
      lb_GitTag := "v26.3.27";
      lb_GitCommit := "d2758a023cd7f4174a5a5fa4ff66e487d4342ba0";
      lb_OS := "linux";
      lb_Arch := "amd64";
      lb_AssetName := "Xray-linux-64.zip";
      lb_AssetURL := "https://github.com/XTLS/Xray-core/releases/download/v26.3.27/Xray-linux-64.zip";
      lb_AssetSHA256 := "23cd9af937744d97776ee35ecad4972cf4b2109d1e0fe6be9930467608f7c8ae";
      lb_BinaryName := "xray";
      lb_BinarySHA256 := "8255dd939c34cf966cc91517b6324dd3c8d0bcf49ffac8beca049a38c46845ed";
      lb_CGO := false;
      lb_FeatureNotes := "official GitHub release zip; amd64 version smoke printed 26.3.27 d2758a0 go1.26.1 linux/amd64; feature inventory unverified";
      lb_License := "MPL-2.0";
      lb_Source := "https://github.com/XTLS/Xray-core" |};
   {| lb_ID := "ff431867-11af-51b5-8f60-6d076121ad1f";
      lb_Family := "xray";
      lb_Version := "26.3.27";
      lb_GitTag := "v26.3.27";
      lb_GitCommit := "d2758a023cd7f4174a5a5fa4ff66e487d4342ba0";
      lb_OS := "linux";
      lb_Arch := "arm64";
      lb_AssetName := "Xray-linux-arm64-v8a.zip";
      lb_AssetURL := "https://github.com/XTLS/Xray-core/releases/download/v26.3.27/Xray-linux-arm64-v8a.zip";
      lb_AssetSHA256 := "4d30283ae614e3057f730f67cd088a42be6fdf91f8639d82cb69e48cde80413c";
      lb_BinaryName := "xray";
      lb_BinarySHA256 := "c2d20a7045250497083afea0d79db0672f6c89a25aaaf37c92de034d6b764b04";
      lb_CGO := false;
      lb_FeatureNotes := "official GitHub release zip; arm64 hash pinned, execution smoke not run; feature inventory unverified";
      lb_License := "MPL-2.0";
      lb_Source := "https://github.com/XTLS/Xray-core" |};
   {| lb_ID := "ebdd7efd-a425-5eb7-a63b-88667909c4b0";
      lb_Family := "sing-box";
      lb_Version := "1.14.0";
      lb_GitTag := "v1.14.0";
      lb_GitCommit := "0b8995879f29a9b98ee027bc17b75e101445b238";
      lb_OS := "linux";
      lb_Arch := "amd64";
      lb_AssetName := "sing-box-1.14.0-linux-amd64.tar.gz";
      lb_AssetURL := "https://github.com/SagerNet/sing-box/releases/download/v1.14.0/sing-box-1.14.0-linux-amd64.tar.gz";
      lb_AssetSHA256 := "2375de6999f4f56ab46b4fc5ddf26a6aba1d3e61a0f4e7ddec2f4690457d5f63";
      lb_BinaryName := "sing-box";
      lb_BinarySHA256 := "57b3da14e264b6e05e8f46aee027c02d7dd7f1594d19aa39e2f4d2b9459bbd04";
      lb_CGO := false;
      lb_FeatureNotes := "official GitHub release tarball without glibc/musl suffix; amd64 version smoke printed 1.14.0 revision 0b8995879f29a9b98ee027bc17b75e101445b238 CGO disabled tags with_gvisor,with_quic,with_dhcp,with_wireguard,with_utls,with_acme,with_clash_api,with_tailscale,with_ccm,with_ocm,with_cloudflared,with_naive_outbound,with_usbip,with_openvpn,with_openconnect,badlinkname,tfogo_checklinkname0,with_purego; feature inventory unverified";
      lb_License := "GPL-3.0-or-later";
      lb_Source := "https://github.com/SagerNet/sing-box" |};
   {| lb_ID := "46605aa0-5670-557e-9d98-f0cab347516f";
      lb_Family := "sing-box";
      lb_Version := "1.14.0";
      lb_GitTag := "v1.14.0";
      lb_GitCommit := "0b8995879f29a9b98ee027bc17b75e101445b238";
      lb_OS := "linux";
      lb_Arch := "arm64";
      lb_AssetName := "sing-box-1.14.0-linux-arm64.tar.gz";
      lb_AssetURL := "https://github.com/SagerNet/sing-box/releases/download/v1.14.0/sing-box-1.14.0-linux-arm64.tar.gz";
      lb_AssetSHA256 := "04d9b40bc98dc55b6f509ce3292145c65478f65866bea64826ebb2f382385088";
      lb_BinaryName := "sing-box";
      lb_BinarySHA256 := "4393306b90bb05502fce3b8f1754280f531c0f3ff47df9b1997b7831e3e543d0";
      lb_CGO := false;
      lb_FeatureNotes := "official GitHub release tarball without glibc/musl suffix; arm64 hash pinned, execution smoke not run; feature inventory unverified";
      lb_License := "GPL-3.0-or-later";
      lb_Source := "https://github.com/SagerNet/sing-box" |};
   {| lb_ID := "81407b9e-61c5-5473-b359-29fa2730567e";
      lb_Family := "mihomo";
      lb_Version := "1.19.30";
      lb_GitTag := "v1.19.30";
      lb_GitCommit := "ac017cdd246ce8bd547653d927e7bf77d7ee73d5";
      lb_OS := "linux";
      lb_Arch := "amd64";
      lb_AssetName := "mihomo-linux-amd64-v1.19.30.gz";
      lb_AssetURL := "https://github.com/MetaCubeX/mihomo/releases/download/v1.19.30/mihomo-linux-amd64-v1.19.30.gz";
      lb_AssetSHA256 := "cf06ce2c7d1421bdbda14ee4a5b6046672dc35ebf8eecd8e77504ec3c0ed9a84";
      lb_BinaryName := "mihomo";
      lb_BinarySHA256 := "3e92df24f5e80e86b9cf9183ceb7bb575f0bd132a9dc4081dae42e80f21076ae";
      lb_CGO := false;
      lb_FeatureNotes := "official GitHub gzip binary without goamd64 v1/v2/v3 suffix; amd64 version smoke printed Mihomo Meta v1.19.30 linux amd64 go1.26.6 tags with_gvisor; feature inventory unverified";
      lb_License := "GPL-3.0";
      lb_Source := "https://github.com/MetaCubeX/mihomo" |};
   {| lb_ID := "4d9381af-9850-5de0-a049-c716ae3c81c4";
      lb_Family := "mihomo";
      lb_Version := "1.19.30";
      lb_GitTag := "v1.19.30";
      lb_GitCommit := "ac017cdd246ce8bd547653d927e7bf77d7ee73d5";
      lb_OS := "linux";
      lb_Arch := "arm64";
      lb_AssetName := "mihomo-linux-arm64-v1.19.30.gz";
      lb_AssetURL := "https://github.com/MetaCubeX/mihomo/releases/download/v1.19.30/mihomo-linux-arm64-v1.19.30.gz";
      lb_AssetSHA256 := "58896873736d28628f66de3677c8654fa0f180662523148e136cff4f6e890069";
      lb_BinaryName := "mihomo";
      lb_BinarySHA256 := "b9456718a8955364b9a77c80f74dca49ded10f071c1c6b4513a0ea68a3d87a50";
      lb_CGO := false;
      lb_FeatureNotes := "official GitHub gzip binary; arm64 hash pinned, execution smoke not run; feature inventory unverified";
      lb_License := "GPL-3.0";
      lb_Source := "https://github.com/MetaCubeX/mihomo" |}].

Definition cores_lock : lockFile :=
  {| lf_SchemaVersion := 1; lf_AdapterVersion := "0.2.0-m1-orchestration"; lf_FixtureSet := "isolation-v1";
     lf_IDNamespace := "8c3f0e2a-4b91-41d6-a2c1-9f0e6b7d4a10"; lf_PinnedAt := "2026-09-07T00:00:00Z";
     lf_ClientValidation := "unverified"; lf_Builds := locked_builds;
     lf_Unsupported := [{| lu_Family := "sing-box"; lu_Key := "policy.round_robin"; lu_State := "unsupported";
                          lu_Reason := "no_native_adapter_in_this_baseline" |}] |}.

Definition p0_combinations : combinationsFile :=
  {| cf_SchemaVersion := 1; cf_State := "unverified";
     cf_Combinations :=
       [{| co_ID := "P0-SS-TCP"; co_CapabilityKey := "protocol.shadowsocks.native_tcp.none";
           co_Protocol := "shadowsocks"; co_Transport := "native_tcp"; co_Security := "none";
           co_State := "unverified" |};
        {| co_ID := "P0-VMESS-TCP"; co_CapabilityKey := "protocol.vmess.native_tcp.tls_or_none";
           co_Protocol := "vmess"; co_Transport := "native_tcp"; co_Security := "tls_or_none";
           co_State := "unverified" |};
        {| co_ID := "P0-VMESS-WS"; co_CapabilityKey := "protocol.vmess.websocket.tls_or_none";
           co_Protocol := "vmess"; co_Transport := "websocket"; co_Security := "tls_or_none";
           co_State := "unverified" |};
        {| co_ID := "P0-VLESS-TCP"; co_CapabilityKey := "protocol.vless.native_tcp.tls_or_none";
           co_Protocol := "vless"; co_Transport := "native_tcp"; co_Security := "tls_or_none";
           co_State := "unverified" |};
        {| co_ID := "P0-VLESS-WS"; co_CapabilityKey := "protocol.vless.websocket.tls_or_none";
           co_Protocol := "vless"; co_Transport := "websocket"; co_Security := "tls_or_none";
           co_State := "unverified" |};
        {| co_ID := "P0-VLESS-REALITY"; co_CapabilityKey := "protocol.vless.native_tcp.reality";
           co_Protocol := "vless"; co_Transport := "native_tcp"; co_Security := "reality";
           co_State := "unverified" |};
        {| co_ID := "P0-TROJAN-TCP"; co_CapabilityKey := "protocol.trojan.native_tcp.tls";
           co_Protocol := "trojan"; co_Transport := "native_tcp"; co_Security := "tls";
           co_State := "unverified" |};
        {| co_ID := "P0-TROJAN-WS"; co_CapabilityKey := "protocol.trojan.websocket.tls";
           co_Protocol := "trojan"; co_Transport := "websocket"; co_Security := "tls";
           co_State := "unverified" |};
        {| co_ID := "P0-SOCKS5-TCP"; co_CapabilityKey := "protocol.socks5.native_tcp.none";
           co_Protocol := "socks5"; co_Transport := "native_tcp"; co_Security := "none";
           co_State := "unverified" |};
        {| co_ID := "P0-HTTP-TCP"; co_CapabilityKey := "protocol.http.native_tcp.tls_or_none";
           co_Protocol := "http"; co_Transport := "native_tcp"; co_Security := "tls_or_none";
           co_State := "unverified" |}];
     cf_SharedCapabilities :=
       [{| lr_Key := "routing.ordered"; lr_State := "unverified"; lr_Reason := "";
           lr_FixtureIDs := [] |};
        {| lr_Key := "rule_set.inline"; lr_State := "unverified"; lr_Reason := "";
           lr_FixtureIDs := [] |};
        {| lr_Key := "dns.profile"; lr_State := "unverified"; lr_Reason := "";
           lr_FixtureIDs := [] |};
        {| lr_Key := "policy.fixed"; lr_State := "unverified"; lr_Reason := "";
           lr_FixtureIDs := [] |};
        {| lr_Key := "policy.manual_select"; lr_State := "unverified"; lr_Reason := "";
           lr_FixtureIDs := [] |};
        {| lr_Key := "policy.latency_best"; lr_State := "unverified"; lr_Reason := "";
           lr_FixtureIDs := [] |};
        {| lr_Key := "policy.round_robin"; lr_State := "unverified"; lr_Reason := "";
           lr_FixtureIDs := [] |};
        {| lr_Key := "chain.two_hop.tcp"; lr_State := "unverified"; lr_Reason := "";
           lr_FixtureIDs := ["chain-a-to-b"; "chain-a-down-no-direct"] |};
        {| lr_Key := "client_preset"; lr_State := "unverified"; lr_Reason := "client import is recorded separately from kernel checks";
           lr_FixtureIDs := [] |}] |}.

Definition locked_catalog : CapabilityCatalog :=
  match parse false cores_lock p0_combinations with
  | Ok catalog => catalog
  | Err _ =>
      {| cat_SchemaVersion := 0; cat_AdapterVersion := ""; cat_FixtureSet := "";
         cat_IDNamespace := ""; cat_PinnedAt := ""; cat_ClientValidation := "";
         cat_Combinations := []; cat_builds := []; cat_byID := ∅ |}
  end.

(** The embedded lock parses: in particular every build identifier is the [NameUUID]
    of its name, SHA-1 included. *)
Lemma locked_parses : parse false cores_lock p0_combinations = Ok locked_catalog.
Proof. vm_compute. reflexivity. Qed.
