(* ===== verification/StoreTheorems.v ===== *)
(** Theorems of the catalog transactions and of the encryption under them: atomicity
    with the failure latch, the invariant of the tables, optimistic concurrency,
    idempotent replay, and key rotation. *)
From stdpp Require Import relations.
From S2P Require Import Prelude Diagnostics IRTypes Hashes IRValidate Frozen FrozenFacts Catalog CatalogFacts CatalogRefs.
From S2P Require Import Secretbox URLText ApiError StoreDB Store StoreFacts Sample.

#[export] Instance HeadRow_eq_dec : EqDecision HeadRow.
Proof. solve_decision. Defined.

Section Commit.
Context {P : Platform} {C : Codec} {V : Vault Bytes} {Side : Type}.
Context {VL : VaultLaws Bytes} (Hcodec : CodecRoundTrip) (Hschema : SchemaVersionFixed).
Abbreviation DB := (CatalogDB (Side:=Side)).
Implicit Types (e : CEnv) (d : DB).

(** ** The commit *)

Lemma CatalogWf_scopes new d sc :
  (∀ id, is_Some (dc_scopes d !! id) → is_Some (sc !! id)) → CatalogWf new d → CatalogWf new (with_scopes d sc).
Proof. intros Hs [W1 W2 W3 W4 W5]. split; try done. simpl. eauto. Qed.

(** Complete tables pass the deferred constraints. *)
Lemma commit_check_ok tx touched d :
  CatalogWf None d →
  (∀ id, id ∈ touched → ∃ h s, dc_heads d !! id = Some h ∧ dc_scopes d !! he_ScopeID h = Some s ∧
    so_LastTransaction s = tx) →
  commit_check tx touched [] d = true.
Proof.
  intros W Ht. unfold commit_check. rewrite !andb_true_iff. split_and!; [| |done].
  - apply forallb_forall. intros id Hid%list_elem_of_In. destruct (Ht _ Hid) as (h & s & Hh & Hs & Htx).
    unfold resource_complete. rewrite Hh, Hs, Htx, Z.eqb_refl, andb_true_r.
    assert (Hw := cw_head _ _ W _ _ Hh). destruct (he_Revision h) as [n|]; [|done].
    destruct Hw as (row & -> & He & _). by apply Z.eqb_eq.
  - apply bool_decide_eq_true_2. intros [id n] rv Hrv _.
    destruct (cw_rev _ _ W id n) as (h & k & row & Hh & Hk & Hb & Hrow & _); [by eexists|].
    apply GetResourceRevision_Some in Hrow as (rv' & w & Hrv' & Hw & Hs & Hs' & _).
    assert (rv' = rv) as -> by congruence. unfold revision_complete. cbn [fst snd].
    rewrite Hs, Hw, Hs', String.eqb_refl, andb_true_r.
    rewrite (proj2 (GetResourceIndex_Some d (he_ScopeID h) id h)), Hk by done. apply Z.leb_le. lia.
Qed.

Section Scoped.
Context (scope : ID).

(** What a committed transaction changed: history was added to, heads of the scope moved
    forward, and the catalog revision of the scope advanced once if one did. *)
Record Committed d d' : Prop := {
  cm_wf : CatalogWf None d';
  cm_history : history_kept d d' ∧ dc_refs d ⊆ dc_refs d';
  cm_heads : ∀ id h, dc_heads d !! id = Some h → ∃ h', dc_heads d' !! id = Some h' ∧ HeadLater h h' ∧
    (he_ScopeID h ≠ scope → h' = h);
  cm_new : ∀ id h', dc_heads d' !! id = Some h' → dc_heads d !! id = None → he_ScopeID h' = scope;
  cm_scopes : ∀ id, id ≠ scope → dc_scopes d' !! id = dc_scopes d !! id;
  cm_catalog : ∃ so so', dc_scopes d !! scope = Some so ∧ dc_scopes d' !! scope = Some so' ∧
    so_Name so' = so_Name so ∧ so_AuthEpoch so' = so_AuthEpoch so ∧
    ((dc_heads d' = dc_heads d ∧ so_CatalogRevision so' = so_CatalogRevision so) ∨
     (dc_heads d' ≠ dc_heads d ∧ so_CatalogRevision so' = so_CatalogRevision so + 1));
  cm_others : dc_receipts d' = dc_receipts d ∧ dc_users d' = dc_users d ∧ dc_settings d' = dc_settings d ∧
    dc_side d' = dc_side d }.

Lemma catalogError_twice f : catalogError (catalogError f) = catalogError f.
Proof.
  destruct f as [| | |code| | | | |]; try done. cbn [catalogError].
  destruct (code =s foreign_key_violation); [done|]. destruct (one_of [unique_violation; _; _] code); [done|].
  by destruct (one_of _ code).
Qed.

Lemma transact_commits {A} (fn : CTx (Side:=Side) A) e d so a s :
  valid_id scope = true → dc_scopes d !! scope = Some so →
  so_LastTransaction so ≠ ce_tx e → so_CatalogRevision so < MaxInt64 →
  fn e (begin_tx d) = (Ok a, s) → cs_failed s = None → TxInv scope [] d s →
  ∃ d', transact scope fn e d = (Ok a, d') ∧ Committed d d' ∧
    dc_heads d' = dc_heads (cs_db s) ∧ dc_revisions d' = dc_revisions (cs_db s) ∧
    dc_wrappings d' = dc_wrappings (cs_db s) ∧ dc_audit d' = dc_audit (cs_db s).
Proof.
  intros Hv Hso Htx Hrev Hfn Hf [T1 T2 T3 T4 T5 T6 T7 T8].
  unfold transact, transactRaw. rewrite Hv, Hso. cbv [negb]. cbv iota. rewrite Hfn, Hf.
  destruct T2 as [S K R L N O (ev & A1)]. destruct (cs_dirty s) eqn:Ed.
  - unfold exec, statement. rewrite T4. unfold AdvanceCatalog. rewrite S, Hso.
    unfold require. rewrite (proj2 (Z.ltb_lt _ _) Hrev), (proj2 (Z.eqb_neq _ _) Htx). cbv [negb]. cbv iota beta.
    set (so' := {| so_Name := _ |}). unfold commit. simpl. rewrite T4, T5.
    assert (W' : CatalogWf None (with_scopes (cs_db s) (<[scope := so']> (dc_scopes (cs_db s))))).
    { apply CatalogWf_scopes; [|done]. intros id Hid. rewrite lookup_insert. case_decide; [by eexists|done]. }
    rewrite <-S. rewrite commit_check_ok; [|exact W'|].
    2:{ intros id (h & Hh & Hs)%T6. exists h, so'. simpl. rewrite Hs, lookup_insert_eq. done. }
    eexists. split; [done|]. split; [|done]. split; simpl; try done.
    + intros id Hne. rewrite lookup_insert_ne by done. by rewrite S.
    + exists so, so'. rewrite lookup_insert_eq. split_and!; try done. right. split; [|done]. by apply T7.
  - unfold commit. rewrite T4, T5.
    assert (Hq : dc_heads (cs_db s) = dc_heads d).
    { destruct (decide (dc_heads (cs_db s) = dc_heads d)) as [|Hne]; [done|]. apply T7 in Hne. congruence. }
    destruct (T8 eq_refl) as (-> & Q1 & Q2 & Q3 & Q4). rewrite commit_check_ok; [|done|].
    2:{ intros id Hid. by apply elem_of_nil in Hid. }
    eexists. split; [done|]. split; [|done]. split; simpl; try done.
    + intros id _. by rewrite S.
    + exists so, so. rewrite S. split_and!; try done. by left.
Qed.

(** Failure leaves the tables as they were. *)
Lemma transact_fails {A} (fn : CTx (Side:=Side) A) e d :
  valid_id scope = true → is_Some (dc_scopes d !! scope) →
  (∀ a s, fn e (begin_tx d) = (Ok a, s) → cs_failed s ≠ None) →
  ∃ err, transact scope fn e d = (Err err, d).
Proof.
  intros Hv [so Hso] H. unfold transact, transactRaw. rewrite Hv, Hso. cbv [negb]. cbv iota.
  destruct (fn e (begin_tx d)) as [[a|err] s] eqn:E; [|by eexists].
  destruct (cs_failed s) eqn:Ef; [by eexists|]. by destruct (H a s eq_refl).
Qed.

(** Only a call that nothing failed in can have committed. *)
Lemma transact_Ok_inv {A} (fn : CTx (Side:=Side) A) e d a d' :
  transact scope fn e d = (Ok a, d') →
  valid_id scope = true ∧ ∃ so s, dc_scopes d !! scope = Some so ∧ fn e (begin_tx d) = (Ok a, s) ∧
    cs_failed s = None.
Proof.
  unfold transact, transactRaw. destruct (valid_id scope); [|done]. cbv [negb]. cbv iota.
  destruct (dc_scopes d !! scope) as [so|]; [|done].
  destruct (fn e (begin_tx d)) as [[a'|err] s] eqn:E; [|done].
  destruct (cs_failed s) eqn:Ef; [done|]. destruct (cs_dirty s).
  - destruct (exec _ e s) as [[[]|] u]; [|done]. destruct (commit e u); [|done]. intros [= -> _]. eauto 10.
  - destruct (commit e s); [|done]. intros [= -> _]. eauto 10.
Qed.

Lemma transact_Err {A} (fn : CTx (Side:=Side) A) e d err d' : transact scope fn e d = (Err err, d') → d' = d.
Proof.
  unfold transact, transactRaw. intros H.
  repeat first [ progress case_match | progress simplify_eq/= ]; done.
Qed.

(** ** What a successful transaction returns *)

Lemma transact_wf {A} (fn : CTx (Side:=Side) A) e d a d' :
  (∀ s, fn e (begin_tx d) = (Ok a, s) → cs_failed s = None → CatalogWf None (cs_db s)) →
  transact scope fn e d = (Ok a, d') → CatalogWf None d'.
Proof.
  intros Hfn. unfold transact, transactRaw. destruct (valid_id scope); [|done]. cbv [negb]. cbv iota.
  destruct (dc_scopes d !! scope) as [so|]; [|done].
  destruct (fn e (begin_tx d)) as [[a'|err] s] eqn:E; [|done].
  destruct (cs_failed s) eqn:Ef; [done|].
  assert (Hc : ∀ (u : CSt (Side:=Side)) (x : DB), commit e u = Ok x → x = cs_db u).
  { intros u x. unfold commit. destruct (cs_aborted u); [done|]. destruct (commit_check _ _ _ _); [|done]. by intros [= ->]. }
  destruct (cs_dirty s).
  - destruct (exec _ e s) as [[[]|] u] eqn:Ex; [|done]. destruct (commit e u) as [x|] eqn:Ec; [|done].
    intros [= -> <-]. apply Hc in Ec as ->. apply exec_Ok in Ex as (d1 & Ex & -> & _). simpl.
    unfold AdvanceCatalog in Ex. destruct (dc_scopes (cs_db s) !! scope) as [so'|] eqn:Es; [|injection Ex as <-; by apply Hfn].
    destruct (require _ numeric_out_of_range); [|done]. destruct (require _ check_violation); [|done].
    injection Ex as <-. apply CatalogWf_scopes; [|by apply Hfn]. intros id Hid. rewrite lookup_insert. by case_decide; [eexists|].
  - destruct (commit e s) as [x|] eqn:Ec; [|done]. intros [= -> <-]. apply Hc in Ec as ->. by apply Hfn.
Qed.

Lemma run_callback_begin {A} (cb : callback A) e d a s :
  CatalogWf None d → run_callback scope cb e (begin_tx d) = (Ok a, s) → cs_failed s = None →
  TxInv scope [] d s ∧ some_failed scope cb e (begin_tx d) = false.
Proof. intros W H Hf. by eapply (run_callback_inv Hcodec Hschema); [apply TxInv_start|exact H|]. Qed.

(** ** Reads *)

Lemma Head_of_revision d id h n r :
  valid_id scope = true → valid_id id = true →
  dc_heads d !! id = Some h → he_ScopeID h = scope → he_Revision h = Some n → he_DeletedAt h = None →
  typedCatalogKind (he_Kind h) = true → revision_of d scope id n r → Head d scope id = Ok r.
Proof.
  intros Hv Hi Hh Hs Hn Hd Hk (row & Hrow & Ho). unfold Head. rewrite Hv, Hi. simpl.
  rewrite (proj2 (GetResourceIndex_Some d scope id h)) by done. rewrite Hd, Hk. simpl.
  unfold opened. by rewrite (proj2 (GetResourceHead_Some scope d id row)) by (exists h, n; done).
Qed.

Lemma Revision_of_revision d id n r :
  valid_id scope = true → valid_id id = true → 1 ≤ n → revision_of d scope id n r →
  Revision d scope id n = Ok r.
Proof.
  intros Hv Hi Hn (row & Hrow & Ho). unfold Revision. rewrite Hv, Hi. simpl.
  destruct (Z.ltb_spec n 1); [lia|]. unfold opened. by rewrite Hrow.
Qed.

(** Heads of other resources read as before. *)
Lemma Head_unchanged d d' id :
  CatalogWf None d → history_kept d d' → dc_heads d' !! id = dc_heads d !! id → Head d' scope id = Head d scope id.
Proof.
  intros W K E. unfold Head. destruct (negb _); [done|].
  unfold GetResourceHead, GetResourceIndex. rewrite E.
  destruct (dc_heads d !! id) as [h|] eqn:Eh; [|done].
  destruct (String.eqb_spec (he_ScopeID h) scope) as [Hs|]; [|done].
  destruct (_ || _); [done|]. assert (Hw := cw_head _ _ W _ _ Eh).
  destruct (he_Revision h) as [n|]; [|done]. destruct (he_DeletedAt h); [done|].
  destruct Hw as (row & Hrow & _). rewrite Hs in Hrow. rewrite Hrow.
  by rewrite (GetResourceRevision_kept _ _ _ _ _ _ K Hrow).
Qed.
End Scoped.

(** ** Reachable tables *)

Definition empty_tables (scopes : gmap ID ScopeRow) (users : gset (ID * ID))
    (settings : gmap ID (option CatalogLimits)) (side : Side) : DB :=
  {| dc_scopes := scopes; dc_heads := ∅; dc_revisions := ∅; dc_wrappings := ∅; dc_refs := ∅; dc_tags := ∅;
     dc_audit := []; dc_receipts := ∅; dc_users := users; dc_settings := settings; dc_side := side |}.

(** Everything that the catalog repository does to its tables, and then anything that
    others do to theirs. *)
Inductive catalog_own : DB → DB → Prop :=
| step_ensure scope name d d' : EnsureScope scope name d = Ok d' → catalog_own d d'
| step_transact {A} scope (cb : callback A) e d r d' :
    transact scope (run_callback scope cb) e d = (r, d') → catalog_own d d'
| step_idempotent q (cb : callback Receipt) e d r d' :
    ExecuteIdempotent q (run_callback (iq_ScopeID q) cb) e d = (r, d') → catalog_own d d'
| step_rewrap draw scope id n version d d' :
    RewrapRevision draw scope id n version d d = Ok d' → catalog_own d d'.
Inductive catalog_step : DB → DB → Prop :=
| step_own d d' : catalog_own d d' → catalog_step d d'
| step_side d side : catalog_step d (with_side d side).

Lemma CatalogWf_empty scopes users settings side : CatalogWf None (empty_tables scopes users settings side).
Proof.
  split; simpl; intros *; try (rewrite lookup_empty; first [done|by intros [? ?]]).
Qed.

Lemma CatalogWf_side new d side : CatalogWf new d → CatalogWf new (with_side d side).
Proof. intros [W1 W2 W3 W4 W5]. by split. Qed.

Lemma CatalogWf_receipts new d receipts : CatalogWf new d → CatalogWf new (with_receipts d receipts).
Proof. intros [W1 W2 W3 W4 W5]. by split. Qed.

Lemma transact_step_wf {A} scope (cb : callback A) e d r d' :
  CatalogWf None d → transact scope (run_callback scope cb) e d = (r, d') → CatalogWf None d'.
Proof.
  intros W H. destruct r as [a|err].
  - eapply transact_wf; [|exact H]. intros s E Ef. by destruct (run_callback_begin scope cb e d a s W E Ef) as [[? _ _ _ _ _ _ _] _].
  - by apply transact_Err in H as ->.
Qed.

(** *** Rewrapping *)

(** Two rows of one revision whose envelopes open to the same. *)
Definition same_content (row row' : RevRow) : Prop :=
  rr_ScopeID row' = rr_ScopeID row ∧ rr_ResourceID row' = rr_ResourceID row ∧ rr_Revision row' = rr_Revision row ∧
  rr_Row row' = rr_Row row ∧
  let ctx := recordContext (rr_ScopeID row) (rr_ResourceID row) (rr_Revision row) (re_SchemaVersion (rr_Row row)) in
  vault_Open ctx (re_Envelope (rr_Row row)) (wa_Wrapping (rr_Wrap row')) =
  vault_Open ctx (re_Envelope (rr_Row row)) (wa_Wrapping (rr_Wrap row)).

Lemma same_content_opens row row' : same_content row row' → open_row row' = open_row row.
Proof. intros (E1 & E2 & E3 & E4 & E). unfold open_row. cbv zeta in *. by rewrite E1, E2, E3, E4, E. Qed.

(** Replacing one wrapping by another that opens to the same. *)
Lemma rewrapped_row d scope id n w' row scope0 id0 n0 row0 :
  GetResourceRevision d scope id n = Some row → wa_ScopeID w' = scope →
  vault_Open (recordContext scope id n (re_SchemaVersion (rr_Row row))) (re_Envelope (rr_Row row)) (wa_Wrapping w') =
  vault_Open (recordContext scope id n (re_SchemaVersion (rr_Row row))) (re_Envelope (rr_Row row)) (wa_Wrapping (rr_Wrap row)) →
  GetResourceRevision d scope0 id0 n0 = Some row0 →
  ∃ row1, GetResourceRevision (with_wrappings d (<[(id, n) := w']> (dc_wrappings d))) scope0 id0 n0 = Some row1 ∧
    same_content row0 row1.
Proof.
  intros (rv & w & Hrv & Hw & Hs & Hs' & ->)%GetResourceRevision_Some Hsw Ho
    (rv0 & w0 & Hrv0 & Hw0 & Hs0 & Hs0' & ->)%GetResourceRevision_Some. simpl in Ho.
  destruct (decide ((id, n) = (id0, n0))) as [[= <- <-]|Hne].
  - assert (rv0 = rv) as -> by congruence. assert (w0 = w) as -> by congruence.
    assert (scope0 = scope) as -> by congruence. eexists. split.
    { apply GetResourceRevision_Some. exists rv, w'. simpl. rewrite lookup_insert_eq. by split_and!. }
    unfold same_content. cbn [rr_ScopeID rr_ResourceID rr_Revision rr_Row rr_Wrap]. by split_and!.
  - eexists. split; [|by split_and!]. apply GetResourceRevision_Some. exists rv0, w0. simpl.
    rewrite lookup_insert_ne by done. by split_and!.
Qed.

Lemma RewrapRevision_Ok draw scope id n version read d d' :
  RewrapRevision draw scope id n version read d = Ok d' →
  ∃ row w w', GetResourceRevision read scope id n = Some row ∧ wa_Version (rr_Wrap row) = version ∧
    dc_wrappings d !! (id, n) = Some w ∧ wa_ScopeID w = scope ∧ wa_Version w = version ∧
    vault_Rewrap draw (recordContext scope id n (re_SchemaVersion (rr_Row row))) (re_Envelope (rr_Row row))
      (wa_Wrapping (rr_Wrap row)) = Some w' ∧
    d' = with_wrappings d (<[(id, n) := {| wa_ScopeID := scope; wa_Version := version + 1; wa_Wrapping := w' |}]>
           (dc_wrappings d)).
Proof.
  unfold RewrapRevision. destruct (_ || _); [done|].
  destruct (GetResourceRevision read scope id n) as [row|]; [|done].
  destruct (Z.eqb_spec (wa_Version (rr_Wrap row)) version) as [Hv|]; [|done]. cbv [negb]. cbv iota.
  destruct (vault_Rewrap _ _ _ _) as [w'|] eqn:Er; [|done].
  unfold CompareAndSwapWrapping. destruct (dc_wrappings d !! (id, n)) as [w|] eqn:Ew; [|done].
  destruct (String.eqb_spec (wa_ScopeID w) scope) as [Hs|]; [|done].
  destruct (Z.eqb_spec (wa_Version w) version) as [Hv'|]; [|done]. simpl.
  destruct (require _ numeric_out_of_range); [|done]. destruct (require _ check_violation); [|done].
  simpl. intros [= <-]. exists row, w, w'. by split_and!.
Qed.

Lemma Rewrap_wf draw scope id n version d d' :
  CatalogWf None d → RewrapRevision draw scope id n version d d = Ok d' → CatalogWf None d'.
Proof.
  intros [W1 W2 W3 W4 W5] (row & w & w' & Hrow & _ & _ & _ & _ & Hr & ->)%RewrapRevision_Ok.
  apply Open_Rewrap in Hr as [_ Ho].
  set (nw := {| wa_ScopeID := scope; wa_Version := version + 1; wa_Wrapping := w' |}) in *.
  pose proof (rewrapped_row d scope id n nw row) as HR. split; try done.
  - intros i h Hh. specialize (W2 i h Hh). destruct (he_Revision h) as [k|]; [|done].
    destruct W2 as (row0 & Hrow0 & He & Hi). destruct (HR _ _ _ _ Hrow eq_refl Ho Hrow0) as (row1 & -> & E).
    exists row1. rewrite (same_content_opens _ _ E). destruct E as (_ & _ & _ & -> & _). by split_and!.
  - intros i k Hk. destruct (W3 i k Hk) as (h & k' & row0 & Hh & Hk' & Hb & Hrow0 & Hopen).
    destruct (HR _ _ _ _ Hrow eq_refl Ho Hrow0) as (row1 & Hrow1 & E).
    exists h, k', row1. split_and!; try done; try lia. unfold row_opens. by rewrite (same_content_opens _ _ E).
Qed.

(** *** Idempotent transactions *)

Lemma ClaimIdempotencyKey_Ok key scope hmac d n d' :
  ClaimIdempotencyKey key scope hmac d = Ok (n, d') →
  (n = 0 ∧ d' = d ∧ is_Some (dc_receipts d !! key)) ∨
  (n = 1 ∧ dc_receipts d !! key = None ∧ d' = with_receipts d (<[key := {| rc_ScopeID := scope; rc_Hmac := hmac;
     rc_HTTPStatus := None; rc_ResourceID := None; rc_Revision := None; rc_OperationID := None;
     rc_Status := None |}]> (dc_receipts d))).
Proof.
  unfold ClaimIdempotencyKey. destruct (dc_receipts d !! key); [intros [= <- <-]; left; by split_and!|].
  destruct (require _ _); [|done]. destruct (require _ _); [|done]. intros [= <- <-]. by right.
Qed.

(** A request that was replayed, or whose callback ran and whose receipt was stored. *)
Lemma run_idempotent_Ok q digest (cb : callback Receipt) e d res s :
  let key := (iq_PrincipalID q, iq_RouteKey q, iq_Key q) in
  CatalogWf None d →
  run_idempotent q digest (run_callback (iq_ScopeID q) cb) e (begin_tx d) = (Ok res, s) → cs_failed s = None →
  CatalogWf None (cs_db s) ∧ dc_scopes (cs_db s) = dc_scopes d ∧
  ((ir_Replayed res = true ∧ s = begin_tx d) ∨
   (ir_Replayed res = false ∧ dc_receipts d !! key = None ∧ Receipt_Validate (ir_Receipt res) = true ∧
    (∃ s0 u rc rc', cs_db s0 = with_receipts d rc ∧ TxInv (iq_ScopeID q) [key] (cs_db s0) s0 ∧
      run_callback (iq_ScopeID q) cb e s0 = (Ok (ir_Receipt res), u) ∧ cs_failed u = None ∧
      cs_db s = with_receipts (cs_db u) rc') ∧
    ∃ row, dc_receipts (cs_db s) = <[key := row]> (dc_receipts d) ∧ rc_ScopeID row = iq_ScopeID q ∧
      rc_Hmac row = digest ∧
      row = {| rc_ScopeID := iq_ScopeID q; rc_Hmac := digest;
               rc_HTTPStatus := Some (int32 (rcp_HTTPStatus (ir_Receipt res)));
               rc_ResourceID := dbID (rcp_ResourceID (ir_Receipt res));
               rc_Revision := if rcp_ResourceID (ir_Receipt res) =s "" then None
                              else Some (rcp_Revision (ir_Receipt res));
               rc_OperationID := dbID (rcp_OperationID (ir_Receipt res));
               rc_Status := Some (rcp_Status (ir_Receipt res)) |})).
Proof.
  intros key W H Hf. unfold run_idempotent in H. fold key in H.
  apply bind_Ok in H as (n & s1 & Hc & H). unfold claim_key in Hc.
  apply bind_Ok in Hc as (n' & s2 & (d2 & Hc & -> & _)%statement_Ok & Hp).
  apply ClaimIdempotencyKey_Ok in Hc as [(-> & -> & _)|(-> & Hnone & ->)].
  - cbn [Z.eqb] in Hp. apply bind_Ok in Hp as ([] & s3 & [_ ->]%ret_Ok & [-> ->]%ret_Ok).
    rewrite set_db_same in H. cbn [Z.eqb] in H.
    apply bind_Ok in H as (o & s4 & [-> ->]%query_Ok & H). apply bind_Ok in H as (row & s5 & [_ ->]%one_Ok & H).
    apply bind_Ok in H as ([] & s6 & [_ ->]%throw_if_Ok & H). apply bind_Ok in H as ([] & s7 & [_ ->]%throw_if_Ok & H).
    apply ret_Ok in H as [-> ->]. split_and!; [done|done|by left].
  - cbn [Z.eqb] in Hp. apply bind_Ok in Hp as ([] & s3 & [= <-] & [-> ->]%ret_Ok). cbn [Z.eqb] in H.
    set (s3 := set_pending _ _ _) in H.
    destruct (run_callback (iq_ScopeID q) cb e s3) as [r u] eqn:Ecb.
    destruct r as [receipt|err]; [|done]. cbn [cs_failed set_latch] in H.
    destruct (cs_failed u) eqn:Eu; [done|].
    assert (T3 : TxInv (iq_ScopeID q) [key] (cs_db s3) s3).
    { split; simpl; try done; [by apply CatalogWf_receipts|apply Later_refl|intros id Hid; by apply elem_of_nil in Hid]. }
    destruct (run_callback_inv Hcodec Hschema _ _ _ _ _ _ _ _ T3 Ecb Eu) as [[Wu Lu _ _ _ _ _ _] _].
    apply bind_Ok in H as ([] & s4 & [Hval%negb_false_iff ->]%throw_if_Ok & H).
    apply bind_Ok in H as ([] & s5 & (d5 & Hfin & -> & _)%exec_Ok & [-> ->]%ret_Ok). simpl in Hfin. simpl.
    unfold FinalizeIdempotencyReceipt in Hfin. rewrite (proj1 (lt_others _ _ _ Lu)) in Hfin. simpl in Hfin.
    rewrite lookup_insert_eq in Hfin. destruct (require _ check_violation); [|done].
    destruct (require (receipt_check _ _ _ _ _) _); [|done]. destruct (require _ foreign_key_violation); [|done].
    injection Hfin as <-. split_and!; [by apply CatalogWf_receipts|exact (lt_scopes _ _ _ Lu)|]. right. split_and!; try done.
    { exists s3, u. do 2 eexists. by split_and!. }
    eexists. split_and!; [| | |reflexivity]; simpl; [|done..].
    by rewrite insert_insert_eq.
Qed.

Lemma idempotent_wf q (cb : callback Receipt) e d r d' :
  CatalogWf None d → ExecuteIdempotent q (run_callback (iq_ScopeID q) cb) e d = (r, d') → CatalogWf None d'.
Proof.
  intros W. unfold ExecuteIdempotent. destruct (_ || _); [by intros [= _ <-]|].
  destruct (vault_Mac _ _) as [digest|]; [|by intros [= _ <-]]. destruct r as [res|err]; intros H.
  - eapply transact_wf; [|exact H]. intros s E Ef. by destruct (run_idempotent_Ok _ _ _ _ _ _ _ W E Ef) as [? _].
  - by apply transact_Err in H as ->.
Qed.

Lemma catalog_step_wf d d' : CatalogWf None d → catalog_step d d' → CatalogWf None d'.
Proof.
  intros W H. destruct H as [y y' [scope name d d' H|A scope cb e d r d' H|q cb e d r d' H|draw scope id n version d d' H]|d side].
  - unfold EnsureScope in H. destruct (_ || _); [done|]. destruct (InsertScope scope name d) as [x|] eqn:E; [|done].
    injection H as <-. unfold InsertScope in E. destruct (require _ bad_text); [|done].
    destruct (dc_scopes d !! scope) eqn:Es; [by injection E as <-|]. destruct (require _ check_violation); [|done].
    injection E as <-. apply CatalogWf_scopes; [|done]. intros id Hid. rewrite lookup_insert. by case_decide; [eexists|].
  - by eapply transact_step_wf.
  - by eapply idempotent_wf.
  - by eapply Rewrap_wf.
  - by apply CatalogWf_side.
Qed.

Lemma catalog_reachable_wf scopes users settings side d :
  rtc catalog_step (empty_tables scopes users settings side) d → CatalogWf None d.
Proof.
  intros H. assert (W := CatalogWf_empty scopes users settings side).
  induction H as [|x y z Hs H IH]; [done|]. apply IH. by eapply catalog_step_wf.
Qed.

(** ** Reading what is stored *)


(** A transaction that commits stores what its callback left, with the scope advanced. *)
Lemma transact_db_scopes {A} scope (fn : CTx (Side:=Side) A) e d a d' s :
  fn e (begin_tx d) = (Ok a, s) → transact scope fn e d = (Ok a, d') →
  ∃ sc, d' = with_scopes (cs_db s) sc ∧ ∀ id, is_Some (dc_scopes (cs_db s) !! id) → is_Some (sc !! id).
Proof.
  intros E. unfold transact, transactRaw. destruct (valid_id scope); [|done]. cbv [negb]. cbv iota.
  destruct (dc_scopes d !! scope) as [so|]; [|done]. rewrite E. destruct (cs_failed s); [done|].
  assert (Hc : ∀ (u : CSt (Side:=Side)) (x : DB), commit e u = Ok x → x = cs_db u).
  { intros u x. unfold commit. destruct (cs_aborted u); [done|]. destruct (commit_check _ _ _ _); [|done]. by intros [= ->]. }
  assert (Hsame : ∀ x : DB, x = with_scopes x (dc_scopes x)) by by intros [].
  destruct (cs_dirty s).
  - destruct (exec _ e s) as [[[]|] u] eqn:Ex; [|done]. destruct (commit e u) as [x|] eqn:Ec; [|done].
    intros [= <-]. apply Hc in Ec as ->. apply exec_Ok in Ex as (d1 & Ex & -> & _). simpl.
    unfold AdvanceCatalog in Ex. destruct (dc_scopes (cs_db s) !! scope) as [so'|] eqn:Es; [|injection Ex as <-; eauto].
    destruct (require _ numeric_out_of_range); [|done]. destruct (require _ check_violation); [|done].
    injection Ex as <-. eexists. split; [done|].
    intros id Hid. rewrite lookup_insert. by case_decide; [eexists|].
  - destruct (commit e s) as [x|] eqn:Ec; [|done]. intros [= <-]. apply Hc in Ec as ->. eauto.
Qed.

Lemma transact_db {A} scope (fn : CTx (Side:=Side) A) e d a d' s :
  fn e (begin_tx d) = (Ok a, s) → transact scope fn e d = (Ok a, d') →
  dc_heads d' = dc_heads (cs_db s) ∧ dc_revisions d' = dc_revisions (cs_db s) ∧
  dc_wrappings d' = dc_wrappings (cs_db s) ∧ dc_receipts d' = dc_receipts (cs_db s) ∧
  (∀ id, is_Some (dc_scopes (cs_db s) !! id) → is_Some (dc_scopes d' !! id)).
Proof. intros E H. by destruct (transact_db_scopes _ _ _ _ _ _ _ E H) as (sc & -> & ?). Qed.

Lemma bind_step {A B} (m : CTx (Side:=Side) A) (k : A → CTx B) e s a s' :
  m e s = (Ok a, s') → (m ≫= k) e s = k a e s'.
Proof. intros E. unfold mbind, CTx_bind. by rewrite E. Qed.

(** The guard of [change]: another revision is current. *)
Lemma change_conflict scope id n deleted apply e (s : CSt (Side:=Side)) row :
  valid_id id = true → 1 ≤ n → cs_active s = true → cs_failed s = None → cs_aborted s = false →
  GetResourceHead (cs_db s) scope id = Some row → rr_Revision row ≠ n →
  change scope id n deleted apply e s =
    (Err (Sentinel ErrRevisionConflict), set_latch s true (cs_dirty s) (Some (Sentinel ErrRevisionConflict))).
Proof.
  intros Hid Hn Ha Hf Hb Hg Hne. unfold change, mutate. rewrite Ha, Hf. cbn [negb].
  rewrite (bind_step (throw_if (negb (valid_id id) || (n <? 1)) ErrInvalidInput) _ e s () s);
    [|unfold throw_if; by rewrite Hid, (proj2 (Z.ltb_ge n 1))].
  rewrite (bind_step (query (λ d, GetResourceHead d scope id)) _ e s (Some row) s);
    [|unfold query, statement; rewrite Hb, Hg; by destruct s].
  rewrite (bind_step (one (Some row)) _ e s row s); [|done].
  rewrite (proj2 (Z.eqb_neq _ _) Hne). destruct s; simplify_eq/=. reflexivity.
Qed.

Lemma Update_conflict scope id n k input e d h :
  valid_id scope = true → is_Some (dc_scopes d !! scope) → valid_id id = true → 1 ≤ n → k ≠ n →
  CatalogWf None d → dc_heads d !! id = Some h → he_ScopeID h = scope → he_Revision h = Some k →
  he_DeletedAt h = None →
  transact scope (Update scope id n input) e d = (Err (Sentinel ErrRevisionConflict), d).
Proof.
  intros Hv [so Hso] Hid Hn Hne W Hh Hs Hk Hd. unfold transact, transactRaw. rewrite Hv, Hso. cbv [negb]. cbv iota.
  pose proof (cw_head _ _ W _ _ Hh) as Hw. rewrite Hk in Hw. destruct Hw as (row & Hrow & _). rewrite Hs in Hrow.
  assert (Hg : GetResourceHead d scope id = Some row).
  { apply GetResourceHead_Some. exists h, k. by split_and!. }
  assert (Hrev : rr_Revision row = k).
  { by apply GetResourceRevision_Some in Hrow as (? & ? & _ & _ & _ & _ & ->). }
  unfold Update. rewrite (change_conflict scope id n false _ e (begin_tx d) row Hid Hn eq_refl eq_refl eq_refl Hg); [done|].
  congruence.
Qed.

Lemma Update_transacted scope id n input e d r d' :
  CatalogWf None d → transact scope (Update scope id n input) e d = (Ok r, d') →
  (∃ old, Head d scope id = Ok old ∧ md_Revision (r_Metadata old) = n ∧ Apply old input = Ok r ∧
    Head d' scope id = Ok r ∧ Revision d' scope id n = Ok old) ∧
  (∀ other, other ≠ id → Head d' scope other = Head d scope other) ∧
  (∀ input2 e2, transact scope (Update scope id n input2) e2 d' = (Err (Sentinel ErrRevisionConflict), d')).
Proof.
  intros W HT. destruct (transact_Ok_inv _ _ _ _ _ _ HT) as (Hv & so & s & Hso & E & Hf).
  pose proof E as HU. unfold Update in HU.
  apply (change_Ok Hcodec Hschema _ _ _ _ _ (λ old _, bumps old input)) in HU
    as (HW & Hrid & Hrev & old & h & Hh & Hhs & Hhn & Hhd & Hold & u & Happ);
    [|done|apply (λ old, reads_update scope old input)|].
  2:{ intros old e' s' next t' A%Update_step. by constructor. }
  apply Update_step in Happ. simpl in *.
  destruct (transact_db _ _ _ _ _ _ _ E HT) as (D1 & D2 & D3 & _ & D5).
  destruct HW as [Wwf [Lsc Lk Lr Lh _ _ _] Wr (h' & Hh' & Hs' & Hn' & Hd') Wo _ _ _]. simpl in *.
  assert (Kd : history_kept (cs_db s) d') by (split; by rewrite ?D2, ?D3).
  assert (K : history_kept d d') by (destruct Lk; split; by rewrite ?D2, ?D3).
  assert (W' : CatalogWf None d').
  { eapply transact_wf; [|exact HT]. intros s' E' _. rewrite E in E'. by injection E' as <-. }
  (* the guard of [change] *)
  assert (Hguard : valid_id id = true ∧ 1 ≤ n).
  { unfold Update, change, mutate in E. simpl in E. unfold throw_if, mbind, CTx_bind in E.
    destruct (valid_id id); [|done]. destruct (Z.ltb_spec n 1); [done|]. by split. }
  destruct Hguard as [Hid Hn1].
  assert (Hkind : typedCatalogKind (he_Kind h) = true).
  { destruct (cw_rev _ _ W id n) as (h2 & k2 & row2 & Hh2 & _ & _ & Hrow2 & Ho2).
    { destruct Hold as (row & (rv & w & Hrv & _)%GetResourceRevision_Some & _). by eexists. }
    assert (h2 = h) as -> by congruence. destruct Hold as (row & Hrow & Hopen). rewrite Hhs in Hrow2.
    assert (row2 = row) as -> by congruence. unfold row_opens in Ho2.
    destruct (typedCatalogKind (he_Kind h)); [done|]. by destruct (Ho2 old). }
  destruct (Lh _ _ Hh) as (h2 & Hh2 & [(_ & Hkk & _) _ _ _ _] & _). rewrite Hrid in Hh'.
  assert (h2 = h') as -> by congruence.
  split_and!.
  - exists old. split_and!.
    + by eapply Head_of_revision.
    + by destruct (revision_of_metadata _ _ _ _ _ Hold) as (_ & _ & ? & _).
    + done.
    + eapply (Head_of_revision scope d' id h' (n + 1)); try done; try congruence.
      rewrite <-Hrev. rewrite Hrid in Wr. by apply (revision_of_kept _ _ _ _ _ _ Kd).
    + apply Revision_of_revision; try done. by apply (revision_of_kept _ _ _ _ _ _ K).
  - intros other Hne. apply Head_unchanged; [done|done|]. rewrite D1. apply Wo. congruence.
  - intros input2 e2. eapply (Update_conflict scope id n (n + 1) _ _ _ h'); try done; try lia.
    + apply D5. rewrite Lsc. by eexists.
    + by rewrite D1.
    + congruence.
Qed.

(** ** References of what is saved *)









(** ** Receipts *)












End Commit.

(** ** A sample store *)

Section SampleStore.

(** A vault that keeps the text beside the record it was sealed for. *)
Definition sample_digest (text : string) : string :=
  String.string_of_list_ascii (ascii_of_N <$> Sum256 (bytes_of_string text)).
#[local] Instance Context_eq_dec : EqDecision Context_.
Proof. solve_decision. Defined.
#[export] Instance sample_vault : Vault (Bytes (Codec:=sample_codec)) := {|
  Sealed := Context_ * Resource; Wrapped := nat * Context_;
  sealed_size := λ _, 1; wrapped_size := λ _, 1;
  vault_Seal n c p := Some ((c, p), (n, c));
  vault_Open c s w := if bool_decide (s.1 = c ∧ w.2 = c) then Some s.2 else None;
  vault_Rewrap n c s w := if bool_decide (s.1 = c ∧ w.2 = c) then Some (n, c) else None;
  vault_Digest purpose r := Some (sample_digest (purpose +:+ md_Name (r_Metadata r)));
  vault_Mac purpose text := Some (sample_digest (purpose +:+ text)) |}.

Lemma sample_vault_laws : VaultLaws (Bytes (Codec:=sample_codec)).
Proof.
  split; simpl.
  - intros n c p s w [= <- <-]. simpl. by rewrite bool_decide_eq_true_2.
  - intros n c s w w'. destruct (bool_decide_reflect (s.1 = c ∧ w.2 = c)) as [[-> <-]|]; [|done].
    intros [= <-]. simpl. rewrite bool_decide_eq_true_2 by done. by split.
Qed.

Lemma sample_schema_fixed : SchemaVersionFixed.
Proof.
  intros r H. assert (E : validateValue "resource" (SV_Resource r) = None).
  { unfold Resource_Validate in H. destruct (r_Payload r); try done; cbv zeta in H;
      (destruct (negb _); [done|]); try (by case_match); done. }
  apply accepts_of in E. apply andb_true_iff in E as [E _]. by apply Z.eqb_eq in E.
Qed.

Definition sample_cenv (tx : Z) : CEnv :=
  {| ce_tx := tx; ce_now := 1000 * tx; ce_resource_id := λ i, Some ("r" +:+ Itoa tx +:+ "-" +:+ Itoa (Z.of_nat i));
     ce_audit_id := λ i, Some ("a" +:+ Itoa tx +:+ "-" +:+ Itoa (Z.of_nat i)); ce_draw := id;
     ce_cores := Some (λ _, None) |}.
Definition node_input (name host : string) : CreateInput :=
  {| ci_Name := name; ci_Tags := ["t"]; ci_Enabled := true; ci_Payload := Payload_Node (sample_node host "pw") |}.
Definition node_change (name host : string) : UpdateInput :=
  {| ui_Name := name; ui_Tags := ["u"]; ui_Enabled := true; ui_Payload := Payload_Node (sample_node host "pw") |}.
Definition sample_tables : CatalogDB (Side:=unit) :=
  empty_tables {["scope" := {| so_Name := "s"; so_CatalogRevision := 0; so_AuthEpoch := 1; so_LastTransaction := 0 |}]}
    ∅ ∅ ().
Definition create_node : callback (option Resource) := Then (Op_Create (node_input "n" "a.example")) Finish.
Definition with_node := (transact "scope" (run_callback "scope" create_node) (sample_cenv 1) sample_tables).2.

Lemma sample_tables_wf : CatalogWf None sample_tables.
Proof. apply CatalogWf_empty. Qed.
Lemma with_node_reachable : rtc catalog_step sample_tables with_node.
Proof. apply rtc_once, step_own. eapply (step_transact "scope" create_node (sample_cenv 1)), surjective_pairing. Qed.
Lemma with_node_wf : CatalogWf None with_node.
Proof. apply (@catalog_reachable_wf _ _ _ _ sample_vault_laws sample_codec_roundtrip sample_schema_fixed _ _ _ _ _ with_node_reachable). Qed.

(** A callback that ignores the failure of its second call. *)
Definition careless : callback unit :=
  Then (Op_Create (node_input "n" "a.example")) (λ _,
  Then (Op_Update "missing" 1 (node_change "n" "b.example")) (λ _, Finish (Ok ()))).


(** A cipher that appends a tag of the key, the nonce and the additional data. *)
Definition sample_tag (key nonce aad : list N) : list N := take 16 (reverse aad ++ nonce ++ key ++ replicate 16 0%N).
#[local] Instance sample_primitives : Primitives := {|
  gcm_Seal key nonce plain aad := plain ++ sample_tag key nonce aad;
  gcm_Open key nonce ct aad :=
    let n := (length ct - 16)%nat in
    if bool_decide (drop n ct = sample_tag key nonce aad) then Some (take n ct) else None;
  random call i n := Some (replicate n (N.of_nat (call + i))) |}.

Lemma sample_tag_length key nonce aad : length (sample_tag key nonce aad) = 16%nat.
Proof. unfold sample_tag. rewrite length_take, !length_app, length_replicate. lia. Qed.
Lemma sample_primitives_laws : PrimitivesLaws.
Proof.
  split; simpl.
  - intros key nonce ct plain aad. case_bool_decide as E; split.
    + intros [= <-]. by rewrite <-E, take_drop.
    + intros ->. rewrite length_app, sample_tag_length, Nat.add_sub. by rewrite take_app_length.
    + done.
    + intros ->. destruct E. rewrite length_app, sample_tag_length, Nat.add_sub. by rewrite drop_app_length.
  - intros key nonce plain aad. by rewrite length_app, sample_tag_length.
  - intros call i n x [= <-]. apply length_replicate.
Qed.

Definition sample_keys : gmap string (list N) := {["old" := replicate 32 1%N; "new" := replicate 32 2%N]}.
Definition sample_box (active : string) : Box :=
  {| box_activeKeyID := active; box_keys := sample_keys; box_contentKey := replicate 32 3%N |}.
Lemma sample_box_ok active : is_Some (sample_keys !! active) → BoxOk (sample_box active).
Proof.
  intros H. split; [by apply bool_decide_eq_true_2|]. simpl. intros id key.
  unfold sample_keys. rewrite lookup_insert. case_decide as E; [subst; by intros [= <-]|].
  rewrite lookup_singleton. case_decide; [subst; by intros [= <-]|done].
Qed.
Definition sample_context : Context_ :=
  {| cx_ScopeID := "00000000-0000-4000-8000-000000000001"; cx_Table := TableResourceRevisions;
     cx_ObjectID := "00000000-0000-4000-8000-000000000002"; cx_Revision := 1; cx_SchemaVersion := 1 |}.
Definition sample_sealed : Payload * Wrapping :=
  match Seal 1 (sample_box "old") sample_context [104; 105]%N with Ok pw => pw | Err _ => (Build_Payload 0 [] [], Build_Wrapping 0 "" [] []) end.
Definition sample_rewrapped : Wrapping :=
  match Rewrap 2 (sample_box "new") sample_context sample_sealed.1 sample_sealed.2 with
  | Ok w => w | Err _ => sample_sealed.2 end.

End SampleStore.

(** ** Properties *)

Section Properties.
Context {P : Platform} {C : Codec} {V : Vault Bytes} {Side : Type}.
Context {VL : VaultLaws Bytes} (Hcodec : CodecRoundTrip) (Hschema : SchemaVersionFixed).
Abbreviation DB := (CatalogDB (Side:=Side)).
Implicit Types (e : CEnv) (d : DB).


(** The latch: when any call of a callback fails, other than a probe, the
    transaction fails and the tables are as before, whatever the callback does next and
    whatever it returns. *)
Theorem failed_call_aborts {A} scope (cb : callback A) e d so :
  CatalogWf None d → valid_id scope = true → dc_scopes d !! scope = Some so →
  some_failed scope cb e (begin_tx d) = true →
  ∃ err, transact scope (run_callback scope cb) e d = (Err err, d).
Proof.
  intros W Hv Hso Hsf. apply transact_fails; [done|by eexists|]. intros a s E Hf.
  destruct (run_callback_begin Hcodec Hschema scope cb e d a s W E Hf) as [_ H]. congruence.
Qed.

(** (C14) A transaction commits exactly when the callback succeeds and nothing is
    latched, in a new database transaction with room in the counter: then history is
    only added to, heads of the scope only move forward, and the catalog revision
    advances by one if some head moved and by nothing otherwise. *)
Theorem transaction_exact {A} scope (cb : callback A) e d so :
  CatalogWf None d → valid_id scope = true → dc_scopes d !! scope = Some so →
  so_LastTransaction so ≠ ce_tx e → so_CatalogRevision so < MaxInt64 →
  match run_callback scope cb e (begin_tx d) with
  | (Ok a, s) =>
      match cs_failed s with
      | None => ∃ d', transact scope (run_callback scope cb) e d = (Ok a, d') ∧ Committed scope d d' ∧
          dc_heads d' = dc_heads (cs_db s) ∧ dc_revisions d' = dc_revisions (cs_db s)
      | Some _ => ∃ err, transact scope (run_callback scope cb) e d = (Err err, d)
      end
  | (Err _, _) => ∃ err, transact scope (run_callback scope cb) e d = (Err err, d)
  end.
Proof.
  intros W Hv Hso Htx Hrev. destruct (run_callback scope cb e (begin_tx d)) as [[a|err] s] eqn:E.
  - destruct (cs_failed s) eqn:Ef.
    + apply transact_fails; [done|by eexists|]. intros a' s' E'. congruence.
    + destruct (run_callback_begin Hcodec Hschema scope cb e d a s W E Ef) as [T _].
      destruct (transact_commits scope _ _ _ _ _ _ Hv Hso Htx Hrev E Ef T) as (d' & H1 & H2 & H3 & H4 & _).
      exists d'. by split_and!.
  - apply transact_fails; [done|by eexists|]. intros a' s' E'. congruence.
Qed.

(** (C15) Updates are optimistic: one that commits replaced exactly the revision its
    caller saw by the updated resource, keeps the replaced revision readable and every
    other resource as it was, and a second update that saw the same revision is
    refused with a conflict and changes nothing. *)
Theorem no_lost_update scope id n input e d r d' :
  CatalogWf None d → transact scope (Update scope id n input) e d = (Ok r, d') →
  (∃ old, Head d scope id = Ok old ∧ md_Revision (r_Metadata old) = n ∧ Apply old input = Ok r ∧
    Head d' scope id = Ok r ∧ Revision d' scope id n = Ok old) ∧
  (∀ other, other ≠ id → Head d' scope other = Head d scope other) ∧
  (∀ input2 e2, transact scope (Update scope id n input2) e2 d' = (Err (Sentinel ErrRevisionConflict), d')).
Proof. apply (Update_transacted Hcodec Hschema). Qed.


End Properties.

Section Resolution.
Context {P : Platform}.

(** Resolving references is exact: it never panics, what it returns is everything
    the references reach, each once, usable and of the expected kind, and it returns
    whenever all of that is usable and fits the budget of frozen resources. *)
Theorem references_exact scope resolve refs :
  ResolveTargetReferences scope resolve refs ≠ Panics ∧
  (∀ rs, ResolveTargetReferences scope resolve refs = Ret rs →
    NoDup (rid <$> rs) ∧
    (∀ id kind, Reaches resolve refs id kind →
      ∃ r, r ∈ rs ∧ usable scope resolve id r ∧ md_Kind (r_Metadata r) = kind) ∧
    (∀ r, r ∈ rs → ∃ kind, Reaches resolve refs (rid r) kind ∧ usable scope resolve (rid r) r)) ∧
  (∀ L, valid_id scope = true → Z.of_nat (length L) ≤ MaxFrozenResources →
    (∀ id kind, Reaches resolve refs id kind →
      id ∈ L ∧ ∃ r, usable scope resolve id r ∧ md_Kind (r_Metadata r) = kind) →
    ∃ rs, ResolveTargetReferences scope resolve refs = Ret rs).
Proof.
  split_and!; [apply ResolveTargetReferences_total|apply ResolveTargetReferences_sound|apply ResolveTargetReferences_ok].
Qed.
End Resolution.

Section Encryption.
Context {P : Platform} {G : Primitives} {GL : PrimitivesLaws}.

(** (C18) Key rotation: a record sealed in one box and rewrapped in a second one that
    still holds the first key opens, with the new wrapping, in every box that holds the
    second key, to the text that was sealed; the payload is not touched. *)
Theorem rotation_keeps_text call call' b b' b'' ctx plain p w w' :
  BoxOk b → BoxOk b' → BoxOk b'' →
  box_keys b' !! box_activeKeyID b = box_keys b !! box_activeKeyID b →
  box_keys b'' !! box_activeKeyID b' = box_keys b' !! box_activeKeyID b' →
  Seal call b ctx plain = Ok (p, w) → Rewrap call' b' ctx p w = Ok w' →
  Open b' ctx p w = Ok plain ∧ Open b'' ctx p w' = Ok plain ∧ wp_KeyID w' = box_activeKeyID b'.
Proof.
  intros Hb Hb' Hb'' Hk Hk' HS HR. assert (Ho := Open_Seal_box _ _ _ _ _ _ _ Hb Hb' Hk HS).
  destruct (Rewrap_Ok _ _ _ _ _ _ _ Hb' Hb'' Hk' HR) as (Hid & plain' & Ho' & Ho'').
  split_and!; [done|congruence|done].
Qed.

(** (C19) A record opens in its own place only: if what was sealed opens for another
    record or with another payload, the cipher authenticated one text under two
    additional data, or two payloads have one hash. *)
Theorem record_bound_to_place call b ctx ctx' plain plain' p p' w :
  BoxOk b → cx_Revision ctx < 9223372036854775808 → cx_Revision ctx' < 9223372036854775808 →
  Seal call b ctx plain = Ok (p, w) → Open b ctx' p' w = Ok plain' →
  (ctx' = ctx ∧ p' = p ∧ plain' = plain) ∨
  (∃ key, box_keys b !! wp_KeyID w = Some key ∧
     wrappingAAD ctx' p' (wp_Version w) (wp_KeyID w) ≠ wrappingAAD ctx p (wp_Version w) (wp_KeyID w) ∧
     is_Some (gcm_Open key (wp_Nonce w) (wp_Ciphertext w) (wrappingAAD ctx p (wp_Version w) (wp_KeyID w))) ∧
     is_Some (gcm_Open key (wp_Nonce w) (wp_Ciphertext w) (wrappingAAD ctx' p' (wp_Version w) (wp_KeyID w)))) ∨
  (hash_input p' ≠ hash_input p ∧ Sum256 (hash_input p') = Sum256 (hash_input p)).
Proof. apply Open_binds_box. Qed.
End Encryption.

(** ** Witnesses *)

Section Witnesses.
#[local] Existing Instance sample_vault_laws.
#[local] Existing Instance sample_primitives.
#[local] Existing Instance sample_primitives_laws.


Lemma failed_call_aborts_witness :
  ∃ err, transact "scope" (run_callback "scope" careless) (sample_cenv 1) sample_tables = (Err err, sample_tables).
Proof.
  eapply (failed_call_aborts sample_codec_roundtrip sample_schema_fixed);
    [apply sample_tables_wf|vm_compute; reflexivity..].
Defined.

Lemma transaction_exact_witness :
  is_ok (transact "scope" (run_callback "scope" create_node) (sample_cenv 1) sample_tables).1 = true ∧
  match run_callback "scope" create_node (sample_cenv 1) (begin_tx sample_tables) with
  | (Ok a, s) =>
      match cs_failed s with
      | None => ∃ d', transact "scope" (run_callback "scope" create_node) (sample_cenv 1) sample_tables = (Ok a, d') ∧
          Committed "scope" sample_tables d' ∧
          dc_heads d' = dc_heads (cs_db s) ∧ dc_revisions d' = dc_revisions (cs_db s)
      | Some _ => ∃ err, transact "scope" (run_callback "scope" create_node) (sample_cenv 1) sample_tables = (Err err, sample_tables)
      end
  | (Err _, _) => ∃ err, transact "scope" (run_callback "scope" create_node) (sample_cenv 1) sample_tables = (Err err, sample_tables)
  end.
Proof.
  split; [vm_compute; reflexivity|].
  eapply (transaction_exact sample_codec_roundtrip sample_schema_fixed);
    [apply sample_tables_wf|vm_compute; reflexivity..| |]; vm_compute; [discriminate|reflexivity].
Defined.

Lemma no_lost_update_witness :
  ∃ r d', transact "scope" (Update "scope" "r1-0" 1 (node_change "m" "b.example")) (sample_cenv 2) with_node = (Ok r, d') ∧
    Head d' "scope" "r1-0" = Ok r ∧
    transact "scope" (Update "scope" "r1-0" 1 (node_change "k" "c.example")) (sample_cenv 3) d' =
      (Err (Sentinel ErrRevisionConflict), d').
Proof.
  assert (Hok : is_ok (transact "scope" (Update "scope" "r1-0" 1 (node_change "m" "b.example")) (sample_cenv 2) with_node).1 = true)
    by (vm_compute; reflexivity).
  destruct (transact "scope" (Update "scope" "r1-0" 1 (node_change "m" "b.example")) (sample_cenv 2) with_node)
    as [[r|err] d'] eqn:E; [|discriminate Hok]. exists r, d'. split; [reflexivity|].
  pose proof (no_lost_update sample_codec_roundtrip sample_schema_fixed "scope" "r1-0" 1 (node_change "m" "b.example")
    (sample_cenv 2) with_node r d' with_node_wf E) as H. clear E.
  split; [destruct H as ((old & _ & _ & _ & H & _) & _); exact H|apply H].
Defined.



Lemma rotation_keeps_text_witness :
  Open (sample_box "new") sample_context sample_sealed.1 sample_rewrapped = Ok [104; 105]%N.
Proof.
  refine (proj1 (proj2 (rotation_keeps_text 1 2 (sample_box "old") (sample_box "new") (sample_box "new") sample_context
    [104; 105]%N sample_sealed.1 sample_sealed.2 sample_rewrapped _ _ _ _ _ _ _)));
    [apply sample_box_ok; by eexists..|vm_compute; reflexivity|vm_compute; reflexivity|vm_compute; reflexivity|vm_compute; reflexivity].
Defined.

Lemma record_bound_to_place_witness :
  ∃ plain', Open (sample_box "old") sample_context sample_sealed.1 sample_sealed.2 = Ok plain' ∧ plain' = [104; 105]%N.
Proof.
  eexists. split; [vm_compute; reflexivity|].
  destruct (record_bound_to_place 1 (sample_box "old") sample_context sample_context [104; 105]%N [104; 105]%N
    sample_sealed.1 sample_sealed.1 sample_sealed.2) as [(_ & _ & H)|[(key & _ & H & _)|[H _]]];
    [| | | | |exact H|by destruct H|by destruct H].
  - apply sample_box_ok. by eexists.
  - reflexivity.
  - reflexivity.
  - vm_compute. reflexivity.
  - vm_compute. reflexivity.
Defined.
End Witnesses.
