(* ===== verification/SourceTheorems.v ===== *)
(** Theorems of the remote sources: what their transactions write, the invariant that
    ties schedules to live documents, the backoff of failed refreshes, and what a failed
    refresh leaves of a pending preview. *)
From stdpp Require Import relations.
From S2P Require Import Prelude Diagnostics IRTypes IRValidate Catalog CatalogFacts CatalogRefs Secretbox URLText RunnerProtocol ApiError StoreDB Store StoreFacts StoreTheorems ShareEmit Sources Sample.

(** ** Hypotheses *)

(** The free texts of a document. *)
Definition config_texts (c : Config) : list string :=
  [cfg_URL c; au_Token (cfg_Auth c); au_Username (cfg_Auth c); au_Password (cfg_Auth c);
   cfg_LastJobID c; cfg_LatestPreviewBatchID c]
  ++ match cfg_LastError c with Some err => [se_Code err; se_Message err] | None => [] end.
Definition document_texts (d : Document) : list string :=
  md_Name (doc_Metadata d) :: md_Tags (doc_Metadata d) ++ config_texts (doc_Source d).
Definition texts_valid (l : list string) : bool := forallb ValidString l.

(** [encoding/json]: a valid document of UTF-8 texts is read back as it was written; and
    [DecodeResource], which reads the same metadata, knows no resource of kind source. *)
Class SourceLaws `{P : Platform, C : Codec, !GoText, !SourceLibs} : Prop := {
  source_roundtrip d p : Document_valid d = true → texts_valid (document_texts d) = true →
    marshalSource d = Some p → unmarshalSource p = Some d;
  source_apart d p : unmarshalSource p = Some d → md_Kind (doc_Metadata d) = KindSource → DecodeResource p = None }.

Lemma texts_valid_app l k : texts_valid (l ++ k) = texts_valid l && texts_valid k.
Proof. apply forallb_app. Qed.
Lemma texts_valid_sorted d : texts_valid (document_texts (sorted_document d)) = texts_valid (document_texts d).
Proof.
  unfold texts_valid, document_texts. simpl. f_equal. rewrite !forallb_app. f_equal.
  apply eq_true_iff_eq. rewrite !forallb_forall. setoid_rewrite <-list_elem_of_In.
  unfold sort_strings. by setoid_rewrite elem_of_isort.
Qed.
Lemma sorted_document_twice d : sorted_document (sorted_document d) = sorted_document d.
Proof.
  unfold sorted_document, with_tags_of. simpl. do 2 f_equal. apply isort_id, isort_sorted. apply go_leb_order.
Qed.

Lemma safe_error_texts code :
  texts_valid [se_Code (sourceRefreshError code); se_Message (sourceRefreshError code)] = true.
Proof.
  unfold sourceRefreshError. destruct (code =s sourcePreviewLimit); [by vm_compute|].
  destruct (code =s sourceInvalidEntries); [by vm_compute|].
  unfold Safe. destruct (safe_message code) as [m|] eqn:E; [|by vm_compute]. unfold safe_message in E.
  assert (Hin : (code, m) ∈ safeMessages).
  { destruct (filter _ safeMessages) as [|[c m'] l] eqn:Ef; [done|]. injection E as <-.
    assert ((c, m') ∈ filter (λ x : string * string, x.1 = code) safeMessages) as [Hc Hin]%list_elem_of_filter
      by (rewrite Ef; by left). simpl in Hc. by subst. }
  assert (Hall : forallb (λ x : string * string, texts_valid [x.1; x.2]) safeMessages = true) by by vm_compute.
  rewrite forallb_forall in Hall. exact (Hall _ (proj1 (list_elem_of_In _ _) Hin)).
Qed.

Section Facts.
Context {P : Platform} {C : Codec} {V : Vault Bytes} {T : GoText} {L : SourceLibs}.
Context {VL : VaultLaws Bytes} {SL : SourceLaws} (Hcodec : CodecRoundTrip) (Hschema : SchemaVersionFixed).
Abbreviation DB := (CatalogDB (Side:=SourceTables)).
Abbreviation St := (CSt (Side:=SourceTables)).
Implicit Types (e : CEnv) (s t : St) (d : DB).

(** ** Stored documents *)

Lemma source_Canonical_Ok doc p : source_Canonical doc = Some p →
  Document_valid (sorted_document doc) = true ∧ marshalSource (sorted_document doc) = Some p.
Proof. unfold source_Canonical. by destruct (Document_valid (sorted_document doc)). Qed.

Lemma Document_valid_kind doc : Document_valid doc = true → md_Kind (doc_Metadata doc) = KindSource.
Proof. unfold Document_valid. rewrite !andb_true_iff. intros [[H _] _]. by apply String.eqb_eq. Qed.
Lemma Document_valid_config doc : Document_valid doc = true → Config_Validate (doc_Source doc) = true.
Proof. unfold Document_valid. rewrite !andb_true_iff. by intros [_ H]. Qed.

Definition source_rev d (scope id : ID) (n : Z) (doc : Document) : Prop :=
  ∃ row, GetResourceRevision d scope id n = Some row ∧ openSource row = Ok doc.

Lemma openSource_Ok row doc : openSource row = Ok doc →
  md_ScopeID (doc_Metadata doc) = rr_ScopeID row ∧ md_ResourceID (doc_Metadata doc) = rr_ResourceID row ∧
  md_Revision (doc_Metadata doc) = rr_Revision row ∧
  md_SchemaVersion (doc_Metadata doc) = re_SchemaVersion (rr_Row row) ∧
  md_SecurityEpoch (doc_Metadata doc) = re_SecurityEpoch (rr_Row row) ∧
  md_Kind (doc_Metadata doc) = KindSource ∧ Document_valid (sorted_document doc) = true.
Proof.
  unfold openSource. cbv zeta. destruct (vault_Open _ _ _) as [plain|]; [|done].
  destruct (unmarshalSource plain) as [doc'|]; [|done]. destruct (negb _) eqn:E; [done|].
  apply negb_false_iff in E. rewrite !andb_true_iff, !String.eqb_eq, !Z.eqb_eq in E.
  destruct (source_Canonical doc') as [c|] eqn:Ec; [|done]. apply source_Canonical_Ok in Ec as [Hv _].
  destruct (vault_Digest _ _); [|done]. destruct (_ =s _); [|done]. intros [= <-]. simpl in E. naive_solver.
Qed.

(** No row opens both as a source and as a resource of the catalog. *)
Lemma openSource_apart row doc r : openSource row = Ok doc → open_row row ≠ Ok r.
Proof.
  intros H. pose proof H as (_ & _ & _ & _ & _ & Hk & _)%openSource_Ok. unfold openSource in H. unfold open_row. cbv zeta in *.
  destruct (vault_Open _ _ _) as [plain|]; [|done]. destruct (unmarshalSource plain) as [doc'|] eqn:Eu; [|done].
  destruct (negb _); [done|]. destruct (source_Canonical doc'); [|done]. destruct (vault_Digest _ _) as [x|] in H; [|done].
  destruct (x =s _) in H; [|done]. injection H as ->. destruct (vault_Digest _ plain); [|done]. destruct (negb _); [done|].
  by rewrite (source_apart doc plain Eu Hk).
Qed.

Lemma source_rev_metadata d scope id n doc : source_rev d scope id n doc →
  md_ScopeID (doc_Metadata doc) = scope ∧ md_ResourceID (doc_Metadata doc) = id ∧
  md_Revision (doc_Metadata doc) = n ∧ md_Kind (doc_Metadata doc) = KindSource ∧
  Config_Validate (doc_Source doc) = true.
Proof.
  intros (row & (rv & w & _ & _ & _ & _ & ->)%GetResourceRevision_Some & (? & ? & ? & _ & _ & ? & Hv)%openSource_Ok).
  apply Document_valid_config in Hv. by split_and!.
Qed.

Lemma source_rev_det d scope id n doc doc' : source_rev d scope id n doc → source_rev d scope id n doc' → doc = doc'.
Proof. intros (row & H1 & H2) (row' & H1' & H2'). congruence. Qed.

Lemma source_rev_kept d d' scope id n doc :
  history_kept d d' → source_rev d scope id n doc → source_rev d' scope id n doc.
Proof. intros H (row & Hr & Ho). exists row. split; [by eapply GetResourceRevision_kept|done]. Qed.

Lemma source_rev_same d d' scope id n doc :
  dc_revisions d' = dc_revisions d → dc_wrappings d' = dc_wrappings d →
  source_rev d' scope id n doc ↔ source_rev d scope id n doc.
Proof. intros H1 H2. unfold source_rev, GetResourceRevision. by rewrite H1, H2. Qed.

(** *** What a write leaves *)

Lemma writeSource_Ok scope doc deleted e s u t :
  writeSource scope doc deleted e s = (Ok u, t) →
  ∃ plain, source_Canonical doc = Some plain ∧
    Stored scope e (doc_Metadata doc) plain [] deleted (cs_db s) (cs_db t) ∧
    cs_aborted t = cs_aborted s ∧ cs_touched t = md_ResourceID (doc_Metadata doc) :: cs_touched s ∧
    cs_claims t = cs_claims s ∧ cs_active t = cs_active s ∧ cs_dirty t = cs_dirty s ∧ cs_failed t = cs_failed s.
Proof.
  unfold writeSource. destruct (source_Canonical doc) as [plain|]; [|done].
  intros (H & Hr)%persistPlain_Ok. by exists plain.
Qed.

Section Write.
Context (scope : ID) (e : CEnv) (doc : Document) (plain : Bytes) (deleted : bool) (d d' : DB).
Context (Hplain : source_Canonical doc = Some plain) (Htexts : texts_valid (document_texts doc) = true).
Context (Hscope : md_ScopeID (doc_Metadata doc) = scope) (Hversion : md_SchemaVersion (doc_Metadata doc) = 1).
Context (HS : Stored scope e (doc_Metadata doc) plain [] deleted d d').

Lemma written_opens : source_rev d' scope (md_ResourceID (doc_Metadata doc)) (md_Revision (doc_Metadata doc)) (sorted_document doc).
Proof.
  destruct HS as [_ _ _ (draw & env & w & dg & Hseal & Hdg & Hi & _ & _ & _ & Er & Ew) _ _].
  pose proof Hplain as (Hv & Hm)%source_Canonical_Ok.
  assert (Hu : unmarshalSource plain = Some (sorted_document doc))
    by (apply source_roundtrip; [done|by rewrite texts_valid_sorted|done]).
  assert (Hc : source_Canonical (sorted_document doc) = Some plain)
    by (unfold source_Canonical; by rewrite sorted_document_twice, Hv).
  assert (Hk : md_Kind (doc_Metadata doc) = KindSource) by by apply Document_valid_kind in Hv.
  eexists. split.
  { apply GetResourceRevision_Some. rewrite Er, Ew. do 2 eexists. split_and!; try apply lookup_insert_eq; done. }
  unfold openSource. cbn [rr_ScopeID rr_ResourceID rr_Revision rr_Row rr_Wrap re_SchemaVersion re_Envelope
    wa_Wrapping re_ContentHmac re_SecurityEpoch recordContext cx_ScopeID cx_ObjectID cx_Revision cx_SchemaVersion].
  rewrite Hi. rewrite Hversion in Hseal. apply Open_Seal in Hseal. rewrite Hseal, Hu, Hc, Hdg, String.eqb_refl.
  simpl. by rewrite Hscope, Hversion, Hk, !String.eqb_refl, !Z.eqb_refl.
Qed.

Lemma written_wf new :
  CatalogWf new d → new = None ∨ new = Some (md_ResourceID (doc_Metadata doc)) →
  (∀ h, dc_heads d !! md_ResourceID (doc_Metadata doc) = Some h → he_Kind h = KindSource) → CatalogWf None d'.
Proof.
  intros W Hnew Hkind. pose proof Hplain as (Hv & Hm)%source_Canonical_Ok.
  assert (Hk : md_Kind (doc_Metadata doc) = KindSource) by by apply Document_valid_kind in Hv.
  apply (Stored_wf_row scope new e (doc_Metadata doc) plain [] deleted d d' W Hnew); [by intros h ->%Hkind| |done].
  intros h row Hrow Hh. destruct written_opens as (row' & Hrow' & Ho). assert (row' = row) as -> by congruence.
  split; [|by intros r Hr%(openSource_apart _ _ _ Ho)].
  unfold row_opens. rewrite Hh, Hk. intros r. by apply (openSource_apart _ _ _ Ho).
Qed.
End Write.

(** *** Creating and changing a source *)

(** The state after the current document of a source was stored. *)
Record SourceWritten (scope : ID) e (doc : Document) (deleted : bool) s t : Prop := {
  wt_wf : CatalogWf None (cs_db t);
  wt_later : Later scope (cs_db s) (cs_db t);
  wt_readable : source_rev (cs_db t) scope (md_ResourceID (doc_Metadata doc)) (md_Revision (doc_Metadata doc))
    (sorted_document doc);
  wt_head : ∃ h, dc_heads (cs_db t) !! md_ResourceID (doc_Metadata doc) = Some h ∧ he_ScopeID h = scope ∧
    he_Kind h = KindSource ∧ he_Revision h = Some (md_Revision (doc_Metadata doc)) ∧
    he_Name h = md_Name (doc_Metadata doc) ∧ he_Enabled h = md_Enabled (doc_Metadata doc) ∧
    he_SecurityEpoch h = md_SecurityEpoch (doc_Metadata doc) ∧
    he_DeletedAt h = (if deleted then Some (ce_now e) else None);
  wt_before : md_Revision (doc_Metadata doc) =
      default 0 (dc_heads (cs_db s) !! md_ResourceID (doc_Metadata doc) ≫= he_Revision) + 1 ∧
    ∀ h, dc_heads (cs_db s) !! md_ResourceID (doc_Metadata doc) = Some h → he_Kind h = KindSource ∧ he_ScopeID h = scope;
  wt_others : ∀ id, id ≠ md_ResourceID (doc_Metadata doc) → dc_heads (cs_db t) !! id = dc_heads (cs_db s) !! id;
  wt_valid : Config_Validate (doc_Source doc) = true ∧ md_SchemaVersion (doc_Metadata doc) = 1 ∧
    md_ScopeID (doc_Metadata doc) = scope;
  wt_latch : cs_failed t = None ∧ cs_active t = true ∧ cs_dirty t = true ∧ cs_aborted t = cs_aborted s }.

Lemma source_head_after scope e doc plain deleted d d' :
  Stored scope e (doc_Metadata doc) plain [] deleted d d' →
  (∀ h, dc_heads d !! md_ResourceID (doc_Metadata doc) = Some h → he_Kind h = KindSource) →
  ∃ h, dc_heads d' !! md_ResourceID (doc_Metadata doc) = Some h ∧ he_ScopeID h = scope ∧
    he_Kind h = KindSource ∧ he_Revision h = Some (md_Revision (doc_Metadata doc)) ∧
    he_Name h = md_Name (doc_Metadata doc) ∧ he_Enabled h = md_Enabled (doc_Metadata doc) ∧
    he_SecurityEpoch h = md_SecurityEpoch (doc_Metadata doc) ∧
    he_DeletedAt h = (if deleted then Some (ce_now e) else None).
Proof.
  intros [_ _ (h & (Hh & Hs)%GetResourceIndex_Some & _ & _ & _ & _ & _ & Eh) _ _ _] Hk.
  eexists. rewrite Eh, lookup_insert_eq. split; [done|]. simpl. split_and!; try done. by apply Hk.
Qed.

Lemma CreateSource_Ok scope name tags enabled cfg e s doc t :
  CatalogWf None (cs_db s) → texts_valid (name :: tags ++ config_texts cfg) = true →
  CreateSource scope name tags enabled cfg e s = (Ok doc, t) →
  SourceWritten scope e doc false s t ∧ dc_heads (cs_db s) !! md_ResourceID (doc_Metadata doc) = None ∧
  doc_Source doc = cfg ∧ md_Name (doc_Metadata doc) = name ∧ md_Tags (doc_Metadata doc) = tags ∧
  md_Enabled (doc_Metadata doc) = enabled ∧ md_Revision (doc_Metadata doc) = 1 ∧
  md_SecurityEpoch (doc_Metadata doc) = 1.
Proof.
  intros W Ht (Ha & Hf & u & H & ->)%mutate_Ok.
  apply bind_Ok in H as (fresh & s1 & [= <- <-] & H).
  apply bind_Ok in H as (id & s2 & [_ ->]%returning_Ok & H). cbv zeta in H.
  set (doc' := {| doc_Metadata := _; doc_Source := cfg |}) in H.
  apply bind_Ok in H as ([] & s3 & H3 & H).
  unfold insert_resource in H3. apply bind_Ok in H3 as ([] & s4 & (d1 & E1 & -> & _)%exec_Ok & [= <-]).
  pose proof E1 as (Hfree & _ & Ed1)%InsertResource_Ok. simpl in Hfree.
  apply (InsertResource_wf _ _ _ _ _ _ _ _ W) in E1 as (W1 & L1 & K1).
  apply bind_Ok in H as ([] & s5 & [= <-] & H).
  apply bind_Ok in H as ([] & s6 & H6 & [-> ->]%ret_Ok).
  apply writeSource_Ok in H6 as (plain & Hp & HS & F1 & F2 & F3 & F4 & F5 & F6). simpl in *.
  assert (Htx : texts_valid (document_texts doc') = true) by exact Ht.
  split; [|by split_and!].
  assert (Hv : Config_Validate cfg = true) by (apply source_Canonical_Ok in Hp as [Hv _]; by apply Document_valid_config in Hv).
  assert (Hin : ∀ i, i ≠ id → dc_heads d1 !! i = dc_heads (cs_db s) !! i)
    by (intros i Hi; rewrite Ed1; simpl; by rewrite lookup_insert_ne).
  split; simpl; [| | | | | | |split_and!; congruence].
  - eapply (written_wf scope e doc' plain false d1); try done. by right.
  - eapply Later_trans; [exact L1|by eapply Stored_later].
  - by eapply (written_opens scope e doc' plain false d1).
  - exact (source_head_after scope e doc' plain false d1 _ HS K1).
  - rewrite Hfree. by split.
  - intros i Hi. rewrite <-Hin by done. destruct (stored_head _ _ _ _ _ _ _ _ HS) as [_ Ho]. by apply Ho.
  - by split_and!.
Qed.

(** Every head is of a kind of the catalog or a source. *)
Definition kinds_known d : Prop := ∀ id h, dc_heads d !! id = Some h → typedCatalogKind (he_Kind h) = true ∨ he_Kind h = KindSource.

Lemma source_rev_kind d id h n doc :
  CatalogWf None d → kinds_known d → dc_heads d !! id = Some h → source_rev d (he_ScopeID h) id n doc → he_Kind h = KindSource.
Proof.
  intros W K Hh (row & Hrow & Ho). destruct (K _ _ Hh) as [Hk|]; [|done].
  pose proof Hrow as (rv & w & Hrv & _)%GetResourceRevision_Some.
  destruct (cw_rev _ _ W id n) as (h' & k' & row' & Hh' & _ & _ & Hrow' & Hopen); [by eexists|].
  assert (h' = h) as -> by congruence. assert (row' = row) as -> by congruence. unfold row_opens in Hopen.
  rewrite Hk in Hopen. destruct Hopen as [r Hr]. by destruct (openSource_apart _ _ r Ho).
Qed.

(** [nextSource]: the identity stays, the revision moves on by one. *)
Definition advances (old next : Document) : Prop :=
  md_ResourceID (doc_Metadata next) = md_ResourceID (doc_Metadata old) ∧
  md_ScopeID (doc_Metadata next) = md_ScopeID (doc_Metadata old) ∧
  md_SchemaVersion (doc_Metadata next) = md_SchemaVersion (doc_Metadata old) ∧
  md_Revision (doc_Metadata next) = md_Revision (doc_Metadata old) + 1.

Lemma nextSource_Ok old name tags enabled cfg deleted next :
  nextSource old name tags enabled cfg deleted = Ok next →
  advances old next ∧ doc_Source next = cfg ∧ md_Name (doc_Metadata next) = name ∧
  md_Tags (doc_Metadata next) = tags ∧ md_Enabled (doc_Metadata next) = (if deleted then false else enabled) ∧
  md_SecurityEpoch (doc_Metadata next) = md_SecurityEpoch (doc_Metadata old) +
    (if (md_Enabled (doc_Metadata old) && negb (if deleted then false else enabled))
        || negb (cfg_URL (doc_Source old) =s cfg_URL cfg)
        || negb (bool_decide (cfg_Auth (doc_Source old) = cfg_Auth cfg)) then 1 else 0).
Proof.
  unfold nextSource. destruct (_ || _); [done|]. cbv zeta. destruct (source_Canonical _); [|done].
  intros [= <-]. simpl. split_and!; try done. destruct (_ || _); lia.
Qed.

Lemma changeSource_Ok scope id n deleted apply e s next t :
  CatalogWf None (cs_db s) → kinds_known (cs_db s) →
  (∀ old next, apply old = Ok next → advances old next) →
  (∀ old, source_rev (cs_db s) scope id n old → md_SchemaVersion (doc_Metadata old) = 1 ∧
     ∀ next, apply old = Ok next → texts_valid (document_texts next) = true) →
  changeSource scope id n deleted apply e s = (Ok next, t) →
  SourceWritten scope e next deleted s t ∧ md_ResourceID (doc_Metadata next) = id ∧
  md_Revision (doc_Metadata next) = n + 1 ∧ cs_active s = true ∧
  ∃ old h, dc_heads (cs_db s) !! id = Some h ∧ he_ScopeID h = scope ∧ he_Revision h = Some n ∧
    he_DeletedAt h = None ∧ he_Kind h = KindSource ∧ source_rev (cs_db s) scope id n old ∧ apply old = Ok next ∧
    resource_advance h (md_Revision (doc_Metadata next)) (md_SecurityEpoch (doc_Metadata next))
      (md_Enabled (doc_Metadata next)) (if deleted then Some (ce_now e) else None) = true.
Proof.
  intros W K Hadv Htexts (Ha & Hf & u & H & ->)%mutate_Ok.
  apply bind_Ok in H as ([] & s1 & [_ ->]%throw_if_Ok & H).
  apply bind_Ok in H as (o & s2 & [-> ->]%query_Ok & H). apply bind_Ok in H as (row & s3 & [Hrow ->]%one_Ok & H).
  apply bind_Ok in H as ([] & s4 & [Hn%negb_false_iff%Z.eqb_eq ->]%throw_if_Ok & H).
  apply bind_Ok in H as (old & s5 & [Hopen ->]%returning_Ok & H).
  apply bind_Ok in H as (next' & s6 & [Happ ->]%lift_catalog_Ok & H).
  apply bind_Ok in H as ([] & s7 & [= <-] & H).
  apply bind_Ok in H as ([] & s8 & H8 & [-> ->]%ret_Ok).
  apply writeSource_Ok in H8 as (plain & Hp & HS & F1 & F2 & F3 & F4 & F5 & F6).
  apply GetResourceHead_Some in Hrow as (h & k & Hh & Hhs & Hhn & Hhd & Hrow).
  pose proof Hrow as (rv & w & Hrv & _ & _ & _ & Erow)%GetResourceRevision_Some.
  assert (k = n) as -> by (rewrite Erow in Hn; exact Hn).
  assert (Hold : source_rev (cs_db s) scope id n old) by by exists row.
  destruct (source_rev_metadata _ _ _ _ _ Hold) as (M1 & M2 & M3 & M4 & M5).
  destruct (Htexts _ Hold) as [Hver Htx]. specialize (Htx _ Happ).
  destruct (Hadv _ _ Happ) as (A1 & A2 & A3 & A4).
  assert (Hid : md_ResourceID (doc_Metadata next') = id) by congruence.
  assert (Hkind : he_Kind h = KindSource).
  { apply (source_rev_kind _ _ _ n old W K Hh). by rewrite Hhs. }
  assert (Hk' : ∀ h', dc_heads (cs_db s) !! md_ResourceID (doc_Metadata next') = Some h' → he_Kind h' = KindSource)
    by (intros h'; rewrite Hid, Hh; by intros [= <-]).
  assert (Hcfg : Config_Validate (doc_Source next') = true)
    by (apply source_Canonical_Ok in Hp as [Hv _]; by apply Document_valid_config in Hv).
  split; [|split_and!; [done|lia|done|]].
  - split; simpl; [| | | | | | |split_and!; congruence].
    + eapply (written_wf scope e next' plain deleted (cs_db s)); try done; [congruence..|by left].
    + by eapply Stored_later.
    + eapply (written_opens scope e next' plain deleted (cs_db s)); try done; congruence.
    + exact (source_head_after scope e next' plain deleted (cs_db s) _ HS Hk').
    + rewrite Hid, Hh. simpl. rewrite Hhn. simpl. split; [lia|]. by intros h' [= <-].
    + by destruct (stored_head _ _ _ _ _ _ _ _ HS) as [_ Ho].
    + split_and!; [done|congruence..].
  - exists old, h. split_and!; try done.
    destruct HS as [_ _ (h' & (Hh' & _)%GetResourceIndex_Some & _ & _ & Hra & _) _ _ _].
    rewrite Hid in Hh'. by assert (h' = h) as -> by congruence.
Qed.

(** ** Schedules *)

(** What [syncSchedule] makes of the schedules. *)
Definition scheduled (scope : ID) (doc : Document) (deleted : bool) (job : ID) (success : option bool) (now : Z)
    (before : gmap ID ScheduleRow) : gmap ID ScheduleRow :=
  let id := md_ResourceID (doc_Metadata doc) in
  let policy := cfg_RefreshPolicy (doc_Source doc) in
  if deleted || negb (rp_Enabled policy) then delete id before
  else
    let interval := rp_IntervalSeconds policy in
    let failing := match success with Some false => true | _ => false end in
    let backoff := if failing then nextBackoff (from_option sc_BackoffSeconds 60 (before !! id)) interval else 60 in
    <[id := {| sc_ScopeID := scope; sc_NextRunAt := now + 1000000 * (if failing then backoff else interval);
               sc_BackoffSeconds := backoff; sc_LastJobID := dbID job |}]> before.

Lemma with_schedules_same d : with_schedules d (st_schedules (dc_side d)) = d.
Proof. by destruct d as [? ? ? ? ? ? ? ? ? ? []]. Qed.

Lemma syncSchedule_Ok scope doc deleted job success now e s u t :
  (∀ row, st_schedules (dc_side (cs_db s)) !! md_ResourceID (doc_Metadata doc) = Some row → sc_ScopeID row = scope) →
  syncSchedule scope doc deleted job success now e s = (Ok u, t) →
  t = set_db s (with_schedules (cs_db s)
        (scheduled scope doc deleted job success now (st_schedules (dc_side (cs_db s))))).
Proof.
  intros Hrow H. unfold syncSchedule in H. unfold scheduled. cbv zeta in *.
  set (id := md_ResourceID (doc_Metadata doc)) in *. set (policy := cfg_RefreshPolicy (doc_Source doc)) in *.
  destruct (deleted || negb (rp_Enabled policy)).
  - apply exec_Ok in H as (d1 & H & -> & _). f_equal. unfold DeleteSourceSchedule in H.
    destruct (st_schedules (dc_side (cs_db s)) !! id) as [row|] eqn:E.
    + rewrite (Hrow row eq_refl), String.eqb_refl in H. by injection H as <-.
    + injection H as <-. rewrite delete_id by done. by rewrite with_schedules_same.
  - apply bind_Ok in H as (backoff & s1 & Hb & H).
    assert (s1 = s ∧ backoff = if match success with Some false => true | _ => false end
      then nextBackoff (from_option sc_BackoffSeconds 60 (st_schedules (dc_side (cs_db s)) !! id)) (rp_IntervalSeconds policy)
      else 60) as [-> Eb].
    { destruct success as [[]|]; [by apply ret_Ok in Hb as [-> ->]| |by apply ret_Ok in Hb as [-> ->]].
      apply bind_Ok in Hb as (o & s2 & [-> ->]%query_Ok & [-> ->]%ret_Ok). split; [done|].
      unfold GetSourceScheduleBackoff. destruct (st_schedules (dc_side (cs_db s)) !! id) as [row|]; [|done].
      by rewrite (Hrow row eq_refl), String.eqb_refl. }
    apply exec_Ok in H as (d1 & H & -> & _). f_equal. unfold UpsertSourceSchedule in H.
    destruct (require _ check_violation); [|done]. destruct (require _ foreign_key_violation); [|done].
    injection H as <-. f_equal. rewrite <-Eb.
    assert (Esc : match st_schedules (dc_side (cs_db s)) !! id with Some row => sc_ScopeID row | None => scope end = scope)
      by (destruct (_ !! id) as [row|]; [by apply Hrow|done]).
    rewrite Esc. by destruct success as [[]|].
Qed.

Lemma nextBackoff_bounds current interval :
  60 ≤ interval ≤ 2592000 → 60 ≤ current → 60 ≤ nextBackoff current interval ≤ interval.
Proof.
  intros Hi Hc. unfold nextBackoff. cbv zeta.
  rewrite (proj2 (Z.ltb_ge _ 60)) by lia.
  destruct (Z.ltb_spec interval (current * 2)); rewrite (proj2 (Z.ltb_ge _ _)) by lia; lia.
Qed.

(** [k] times in a row. *)
Lemma nextBackoff_iter k interval : 60 ≤ interval ≤ 2592000 →
  nextBackoff (Z.min (60 * 2 ^ Z.of_nat k) interval) interval = Z.min (60 * 2 ^ Z.of_nat (S k)) interval.
Proof.
  intros Hi. rewrite Nat2Z.inj_succ, Z.pow_succ_r by lia.
  assert (0 < 2 ^ Z.of_nat k) by (apply Z.pow_pos_nonneg; lia).
  unfold nextBackoff. cbv zeta. set (p := 2 ^ Z.of_nat k) in *.
  rewrite (proj2 (Z.ltb_ge _ 60)) by lia.
  destruct (Z.ltb_spec interval (Z.min (60 * p) interval * 2)); rewrite (proj2 (Z.ltb_ge _ _)) by lia; lia.
Qed.

Lemma Config_Validate_interval cfg : Config_Validate cfg = true → 60 ≤ rp_IntervalSeconds (cfg_RefreshPolicy cfg) ≤ 2592000.
Proof. unfold Config_Validate, between. cbv zeta. rewrite !andb_true_iff, !Z.leb_le. lia. Qed.

(** ** The invariant *)

Definition source_indexed (h : HeadRow) (doc : Document) : Prop :=
  he_Name h = md_Name (doc_Metadata doc) ∧ he_Enabled h = md_Enabled (doc_Metadata doc) ∧
  he_SecurityEpoch h = md_SecurityEpoch (doc_Metadata doc).
(** [doc] is the current document of a source that was not deleted. *)
Definition live_source d (id : ID) (h : HeadRow) (doc : Document) : Prop :=
  dc_heads d !! id = Some h ∧ he_Kind h = KindSource ∧ he_DeletedAt h = None ∧
  ∃ n, he_Revision h = Some n ∧ source_rev d (he_ScopeID h) id n doc.
Definition refreshed (doc : Document) : Prop := rp_Enabled (cfg_RefreshPolicy (doc_Source doc)) = true.

Record SourceWf d : Prop := {
  sw_catalog : CatalogWf None d;
  sw_kinds : kinds_known d;
  sw_opens : ∀ id h n, dc_heads d !! id = Some h → he_Kind h = KindSource → is_Some (dc_revisions d !! (id, n)) →
    ∃ doc, source_rev d (he_ScopeID h) id n doc ∧ md_SchemaVersion (doc_Metadata doc) = 1 ∧
      texts_valid (document_texts doc) = true ∧ (he_Revision h = Some n → source_indexed h doc);
  sw_sound : ∀ id row, st_schedules (dc_side d) !! id = Some row → ∃ h doc, live_source d id h doc ∧ refreshed doc ∧
    sc_ScopeID row = he_ScopeID h ∧
    60 ≤ sc_BackoffSeconds row ≤ rp_IntervalSeconds (cfg_RefreshPolicy (doc_Source doc));
  sw_complete : ∀ id h doc, live_source d id h doc → refreshed doc → is_Some (st_schedules (dc_side d) !! id) }.

(** Tables that agree on heads, revisions and wrappings. *)
Definition same_history d d' : Prop :=
  dc_heads d' = dc_heads d ∧ dc_revisions d' = dc_revisions d ∧ dc_wrappings d' = dc_wrappings d.
Lemma live_source_same d d' id h doc : same_history d d' → live_source d' id h doc ↔ live_source d id h doc.
Proof. intros (E1 & E2 & E3). unfold live_source. rewrite E1. by setoid_rewrite (source_rev_same d d' _ _ _ _ E2 E3). Qed.

(** A revision of a resource that a write leaves alone. *)
Lemma live_source_other d d' id h doc :
  CatalogWf None d → history_kept d d' → dc_heads d' !! id = dc_heads d !! id →
  live_source d' id h doc ↔ live_source d id h doc.
Proof.
  intros W K Eh. unfold live_source. rewrite Eh. split; intros (Hh & Hk & Hd & n & Hn & Hr); (split_and!; [done..|]);
    exists n; (split; [done|]); [|by eapply source_rev_kept].
  assert (Hw := cw_head _ _ W _ _ Hh). rewrite Hn in Hw. destruct Hw as (row & Hrow & _).
  destruct Hr as (row' & Hrow' & Ho). rewrite (GetResourceRevision_kept _ _ _ _ _ _ K Hrow) in Hrow'.
  injection Hrow' as <-. by exists row.
Qed.

(** One source was written and its schedule follows. *)
Lemma SourceWf_written scope e doc deleted s t d' before :
  SourceWf (cs_db s) → SourceWritten scope e doc deleted s t → texts_valid (document_texts doc) = true →
  CatalogWf None d' → same_history (cs_db t) d' →
  (∃ job success now, st_schedules (dc_side d') = scheduled scope doc deleted job success now before) →
  (∀ id, id ≠ md_ResourceID (doc_Metadata doc) → before !! id = st_schedules (dc_side (cs_db s)) !! id) →
  (∀ row, before !! md_ResourceID (doc_Metadata doc) = Some row → 60 ≤ sc_BackoffSeconds row) →
  SourceWf d'.
Proof.
  intros [W1 W2 W3 W4 W5] [T1 T2 T3 (h0 & Hh0 & Hs0 & Hk0 & Hn0 & Hname & Hen & Hep & Hd0) [T4 T4'] T5 (T6 & T7 & T8) T9] Htx Wd'
    (E1 & E2 & E3) (job & success & now & Esc) Hbefore Hback.
  set (id0 := md_ResourceID (doc_Metadata doc)) in *.
  pose proof (lt_history _ _ _ T2) as K.
  assert (Ks : history_kept (cs_db s) d') by (destruct K; split; by rewrite ?E2, ?E3).
  assert (Hother : ∀ id, id ≠ id0 → dc_heads d' !! id = dc_heads (cs_db s) !! id) by (intros i Hi; rewrite E1; by apply T5).
  assert (Hlive : ∀ id h x, id ≠ id0 → live_source d' id h x ↔ live_source (cs_db s) id h x).
  { intros i h x Hi. apply live_source_other; [done|done|by apply Hother]. }
  assert (Hself : ∀ h x, live_source d' id0 h x ↔ h = h0 ∧ x = sorted_document doc ∧ deleted = false).
  { intros h x. rewrite (live_source_same (cs_db t) d') by by split_and!. split.
    - intros (Hh & _ & Hd & n & Hn & Hr). assert (h = h0) as -> by congruence. split; [done|].
      assert (n = md_Revision (doc_Metadata doc)) as -> by congruence. rewrite Hs0 in Hr.
      split; [by apply (source_rev_det _ _ _ _ _ _ Hr)|]. rewrite Hd0 in Hd. by destruct deleted.
    - intros (-> & -> & Hdel). rewrite Hdel in Hd0. split_and!; try done. eexists. split; [done|]. by rewrite Hs0. }
  assert (Hsched : ∀ id, id ≠ id0 → st_schedules (dc_side d') !! id = st_schedules (dc_side (cs_db s)) !! id).
  { intros i Hi. rewrite Esc. unfold scheduled. cbv zeta.
    destruct (_ || _); [rewrite lookup_delete_ne by done|rewrite lookup_insert_ne by done]; by apply Hbefore. }
  (* a revision that is stored now of a head that was there was stored before *)
  assert (Hold : ∀ id h n, dc_heads (cs_db s) !! id = Some h → is_Some (dc_revisions d' !! (id, n)) →
    n ≤ default 0 (he_Revision h) → is_Some (dc_revisions (cs_db s) !! (id, n))).
  { intros i h n Hh Hr Hle. destruct (cw_rev _ _ Wd' i n Hr) as (h' & k & row & _ & _ & Hb & _).
    destruct (he_Revision h) as [j|] eqn:Ej; [|simpl in Hle; lia]. eapply (cw_contiguous _ _ W1); [done..|simpl in Hle; lia]. }
  pose proof (Config_Validate_interval _ T6) as Hint. split; [done| | | |].
  - intros i h. rewrite E1. destruct (decide (i = id0)) as [-> |Hi]; [rewrite Hh0; intros [= <-]; by right|].
    rewrite T5 by done. apply W2.
  - intros i h n Hh Hk Hr. assert (Hkeep : ∀ h1, dc_heads (cs_db s) !! i = Some h1 → he_ScopeID h1 = he_ScopeID h →
      he_Kind h1 = KindSource → n ≤ default 0 (he_Revision h1) → (he_Revision h = Some n → h = h1) →
      ∃ doc, source_rev d' (he_ScopeID h) i n doc ∧ md_SchemaVersion (doc_Metadata doc) = 1 ∧
        texts_valid (document_texts doc) = true ∧ (he_Revision h = Some n → source_indexed h doc)).
    { intros h1 Hh1 Hsc Hk1 Hle Hcur. destruct (W3 _ _ n Hh1 Hk1 (Hold _ _ _ Hh1 Hr Hle)) as (x & H1 & H2 & H3 & H4).
      exists x. rewrite <-Hsc. split_and!; [by eapply source_rev_kept|done..|].
      intros Hn. rewrite (Hcur Hn) in Hn |- *. by apply H4. }
    destruct (cw_rev _ _ Wd' i n Hr) as (h' & k & _ & Hh' & Hk' & Hb & _). assert (h' = h) as -> by congruence.
    destruct (decide (i = id0)) as [-> |Hi].
    + rewrite E1, Hh0 in Hh. injection Hh as <-. destruct (decide (n = md_Revision (doc_Metadata doc))) as [-> |Hne].
      * exists (sorted_document doc). rewrite Hs0.
        split_and!; [by apply (source_rev_same (cs_db t) d')|done|by rewrite texts_valid_sorted|done].
      * assert (k = md_Revision (doc_Metadata doc)) as -> by congruence.
        destruct (dc_heads (cs_db s) !! id0) as [h1|] eqn:Eh1; [|simpl in T4; lia].
        destruct (T4' _ eq_refl) as [Hk1 Hs1]. apply (Hkeep h1); [done|congruence|done|simpl in T4; lia|congruence].
    + rewrite Hother in Hh by done. apply (Hkeep h); try done. rewrite Hk'. simpl. lia.
  - intros i row Hrow. destruct (decide (i = id0)) as [-> |Hi].
    + rewrite Esc in Hrow. unfold scheduled in Hrow. cbv zeta in Hrow. fold id0 in Hrow.
      destruct (deleted || _) eqn:Eb; [by rewrite lookup_delete_eq in Hrow|].
      apply orb_false_iff in Eb as [Hdel Href%negb_false_iff]. rewrite lookup_insert_eq in Hrow. injection Hrow as <-.
      exists h0, (sorted_document doc). split_and!; [by apply Hself|done|done|..]; simpl; destruct success as [[]|]; try lia;
        (eapply nextBackoff_bounds; [done|]); destruct (before !! id0) as [r0|] eqn:Er0; simpl; [|lia|..|lia]; by apply Hback.
    + rewrite Hsched in Hrow by done. destruct (W4 _ _ Hrow) as (h & x & Hl & Hr). exists h, x. by rewrite Hlive.
  - intros i h x Hl Hx. destruct (decide (i = id0)) as [-> |Hi].
    + apply Hself in Hl as (-> & -> & ->). rewrite Esc. unfold scheduled. cbv zeta.
      assert (rp_Enabled (cfg_RefreshPolicy (doc_Source doc)) = true) as -> by exact Hx. simpl.
      rewrite lookup_insert_eq. by eexists.
    + rewrite Hsched by done. rewrite Hlive in Hl by done. by eapply W5.
Qed.

(** ** The catalog leaves sources alone *)

Definition sources_same d d' : Prop :=
  dc_side d' = dc_side d ∧ (kinds_known d → kinds_known d') ∧
  ∀ id h, he_Kind h = KindSource → dc_heads d' !! id = Some h ↔ dc_heads d !! id = Some h.
Lemma sources_same_trans d1 d2 d3 : sources_same d1 d2 → sources_same d2 d3 → sources_same d1 d3.
Proof.
  intros (A1 & A2 & A3) (B1 & B2 & B3). split_and!; [congruence|auto|]. intros id h Hk. by rewrite B3, A3.
Qed.

Lemma SourceWf_same d d' :
  SourceWf d → CatalogWf None d' → sources_same d d' →
  (∀ scope id n doc, source_rev d scope id n doc → source_rev d' scope id n doc) → SourceWf d'.
Proof.
  intros [W1 W2 W3 W4 W5] Wd' (Es & Hkinds & Hh) Hkeep.
  assert (Hopen : ∀ id h n, dc_heads d !! id = Some h → he_Kind h = KindSource → is_Some (dc_revisions d' !! (id, n)) →
    ∃ doc, source_rev d (he_ScopeID h) id n doc ∧ md_SchemaVersion (doc_Metadata doc) = 1 ∧
      texts_valid (document_texts doc) = true ∧ (he_Revision h = Some n → source_indexed h doc)).
  { intros i h n Hi Hk Hr. destruct (cw_rev _ _ Wd' i n Hr) as (h' & k & _ & Hh' & Hk' & Hb & _).
    assert (h' = h) as -> by (apply Hh in Hi; [congruence|done]).
    apply W3; [done..|]. by eapply (cw_contiguous _ _ W1). }
  assert (Hlive : ∀ id h x, live_source d' id h x ↔ live_source d id h x).
  { intros i h x. split; intros (Hi & Hk & Hd & n & Hn & Hr).
    - apply Hh in Hi; [|done]. split_and!; try done. exists n. split; [done|].
      destruct (Hopen i h n) as (x' & Hx' & _); [done..| |].
      { destruct Hr as (row & (rv & w & Hrv & _)%GetResourceRevision_Some & _). by eexists. }
      by rewrite (source_rev_det _ _ _ _ _ _ Hr (Hkeep _ _ _ _ Hx')).
    - split_and!; [by apply Hh|done..|]. exists n. auto. }
  split; [done|auto| | |]; rewrite ?Es.
  - intros i h n Hi Hk Hr. apply Hh in Hi; [|done]. destruct (Hopen _ _ _ Hi Hk Hr) as (x & H1 & H2 & H3 & H4).
    exists x. split_and!; auto.
  - intros i row Hrow. destruct (W4 _ _ Hrow) as (h & x & Hl & Hr). exists h, x. by rewrite Hlive.
  - intros i h x Hl. apply Hlive in Hl. by eapply W5.
Qed.

(** An operation of the catalog writes one resource of a kind that it opens. *)
Lemma Written_sources scope e r deleted s t :
  CatalogWf None (cs_db s) → Written scope e r deleted s t → sources_same (cs_db s) (cs_db t).
Proof.
  intros W [T1 T2 (row & Hrow & Ho) (h & Hh & Hs & Hn & _) T5 _ _ _].
  assert (Hkind : typedCatalogKind (he_Kind h) = true).
  { pose proof Hrow as (rv & w & Hrv & _)%GetResourceRevision_Some.
    destruct (cw_rev _ _ T1 (rid r) (md_Revision (r_Metadata r))) as (h' & k & row' & Hh' & _ & _ & Hrow' & Hopen); [by eexists|].
    assert (h' = h) as -> by congruence. rewrite Hs in Hrow'. assert (row' = row) as -> by congruence.
    unfold row_opens in Hopen. destruct (typedCatalogKind (he_Kind h)); [done|]. by destruct (Hopen r). }
  assert (Hne : he_Kind h ≠ KindSource) by (intros E; by rewrite E in Hkind).
  split_and!; [apply T2| |].
  - intros K i h' Hi. destruct (decide (i = rid r)) as [-> |Hr]; [left; congruence|]. rewrite T5 in Hi by done. by eapply K.
  - intros i h' Hk. destruct (decide (i = rid r)) as [-> |Hr]; [|by rewrite T5].
    split; intros Hi; [by destruct Hne; congruence|].
    destruct (lt_heads _ _ _ T2 _ _ Hi) as (h2 & Hh2 & [(_ & E & _) _ _ _ _] & _). destruct Hne. congruence.
Qed.

Lemma run_op_sources c0 d0 scope o e s r t :
  TxInv scope c0 d0 s → run_op scope o e s = (r, t) → cs_failed t = None → sources_same (cs_db s) (cs_db t).
Proof.
  intros I H Hf. pose proof (ti_active _ _ _ _ I) as Ha. pose proof (ti_wf _ _ _ _ I) as W.
  assert (Hrefl : sources_same (cs_db s) (cs_db s)) by by split_and!.
  destruct o as [input|id n input|id n|id n|id|id|a]; apply bind_some in H as (r' & H & _).
  - destruct r' as [res|err]; [|by apply mutate_latches in H].
    apply (Create_Ok Hcodec Hschema) in H as (HW & _); [by eapply Written_sources|done].
  - destruct r' as [res|err]; [|by apply mutate_latches in H]. unfold Update in H.
    apply (change_Ok Hcodec Hschema _ _ _ _ _ (λ old _, bumps old input)) in H as (HW & _);
      [by eapply Written_sources|done|apply (λ old, reads_update scope old input)|].
    intros old e' s' next t' E%Update_step. by constructor.
  - destruct r' as [res|err]; [|by apply mutate_latches in H].
    apply (change_Ok Hcodec Hschema _ _ _ _ _ (λ _ _, true)) in H as (HW & _);
      [by eapply Written_sources|done|intros; apply reads_lift_catalog|].
    intros old e' s' next t' [E _]%lift_catalog_Ok. by apply step_delete.
  - destruct r' as [res|err]; [|by apply mutate_latches in H].
    apply (change_Ok Hcodec Hschema _ _ _ _ _ (λ _ _, true)) in H as (HW & _);
      [by eapply Written_sources|done|intros; apply reads_lift_catalog|].
    intros old e' s' next t' [E _]%lift_catalog_Ok. by apply step_revoke.
  - by apply readHead_outcome in H as [-> _].
  - by apply readHead_outcome in H as [-> _].
  - apply TxAudit_outcome in H as (_ & _ & _ & _ & _ & _ & _ & event & ->); done.
Qed.

Lemma run_callback_sources {A} c0 d0 scope (cb : callback A) e s r t :
  TxInv scope c0 d0 s → run_callback scope cb e s = (r, t) → cs_failed t = None → sources_same (cs_db s) (cs_db t).
Proof.
  revert s. induction cb as [r'|o k IH]; intros s I; simpl; [by intros [= _ <-] _|].
  destruct (run_op scope o e s) as [r' u] eqn:E. intros H Hf.
  assert (Hu : cs_failed u = None).
  { destruct (cs_failed u) eqn:Eu; [|done]. by eapply run_callback_sticky in H; [|exact Eu]; congruence. }
  eapply sources_same_trans; [by eapply run_op_sources|]. eapply IH; [|exact H|done].
  by eapply (run_op_inv Hcodec Hschema).
Qed.

Lemma same_content_source row row' : same_content row row' → openSource row' = openSource row.
Proof. intros (E1 & E2 & E3 & E4 & E). unfold openSource. cbv zeta in *. by rewrite E1, E2, E3, E4, E. Qed.

Lemma catalog_own_sources d d' : SourceWf d → catalog_own d d' → SourceWf d'.
Proof.
  intros W H. pose proof (sw_catalog _ W) as Wc.
  assert (Wd' : CatalogWf None d') by by apply (catalog_step_wf Hcodec Hschema d), step_own.
  destruct H as [scope name d d' H|A scope cb e d r d' H|q cb e d r d' H|draw scope id n version d d' H].
  - unfold EnsureScope in H. destruct (_ || _); [done|]. destruct (InsertScope scope name d) as [x|] eqn:E; [|done].
    injection H as <-. unfold InsertScope in E. destruct (require _ bad_text); [|done].
    assert (Heq : ∃ sc, x = with_scopes d sc).
    { destruct (dc_scopes d !! scope); [injection E as <-; exists (dc_scopes d); by destruct d|].
      destruct (require _ check_violation); [|done]. injection E as <-. by eexists. }
    destruct Heq as [sc ->]. by apply (SourceWf_same d).
  - destruct r as [a|err]; [|by apply transact_Err in H as ->].
    destruct (transact_Ok_inv _ _ _ _ _ _ H) as (_ & so & s & Hso & E & Ef).
    destruct (run_callback_begin Hcodec Hschema scope cb e d a s Wc E Ef) as [I _].
    destruct (transact_db_scopes _ _ _ _ _ _ _ E H) as (sc & -> & _).
    apply (SourceWf_same d); [done..| |].
    + exact (run_callback_sources _ _ _ _ _ _ _ _ (TxInv_start scope d Wc) E Ef).
    + intros scope' i n doc Hr. eapply (source_rev_kept d); [|exact Hr]. apply (ti_later _ _ _ _ I).
  - unfold ExecuteIdempotent in H. destruct (_ || _); [by injection H as _ <-|].
    destruct (vault_Mac _ _) as [digest|]; [|by injection H as _ <-].
    destruct r as [res|err]; [|by apply transact_Err in H as ->].
    destruct (transact_Ok_inv _ _ _ _ _ _ H) as (_ & so & s & Hso & E & Ef).
    destruct (transact_db_scopes _ _ _ _ _ _ _ E H) as (sc & -> & _).
    destruct (run_idempotent_Ok Hcodec Hschema _ _ _ _ _ _ _ Wc E Ef)
      as (_ & _ & [(_ & ->)|(_ & _ & _ & (s0 & u & rc & rc' & E0 & I & Ecb & Eu & Es) & _)]); [by apply (SourceWf_same d)|].
    pose proof (run_callback_sources _ _ _ _ _ _ _ _ I Ecb Eu) as Hsame.
    destruct (run_callback_inv Hcodec Hschema _ _ _ _ _ _ _ _ I Ecb Eu) as [I' _].
    apply (SourceWf_same d); [done..| |].
    + rewrite Es. rewrite E0 in Hsame. exact Hsame.
    + intros scope' i n doc Hr. rewrite Es. eapply (source_rev_kept d); [|exact Hr].
      pose proof (lt_history _ _ _ (ti_later _ _ _ _ I')) as K. by rewrite E0 in K.
  - apply RewrapRevision_Ok in H as (row & w & w' & Hrow & _ & _ & _ & _ & Hr & ->).
    apply Open_Rewrap in Hr as [_ Ho]. apply (SourceWf_same d); [done..|].
    intros scope' i n0 doc (row0 & Hrow0 & Hopen).
    destruct (rewrapped_row d scope id n {| wa_ScopeID := scope; wa_Version := version + 1; wa_Wrapping := w' |} row
      scope' i n0 row0 Hrow eq_refl Ho Hrow0) as (row1 & Hrow1 & E).
    exists row1. split; [done|]. by rewrite (same_content_source _ _ E).
Qed.

(** ** The transactions *)

Lemma transactRaw_Ok {A} scope (fn : CTx (Side:=SourceTables) A) e d a d' :
  transactRaw scope fn e d = (Ok a, d') → transact scope fn e d = (Ok a, d').
Proof. unfold transact. by intros ->. Qed.
Lemma transactRaw_Err {A} scope (fn : CTx (Side:=SourceTables) A) e d err d' :
  transactRaw scope fn e d = (Err err, d') → d' = d.
Proof. intros H. apply (transact_Err scope fn e d (catalogError err)). unfold transact. by rewrite H. Qed.

Lemma TxAudit_Ok scope a e s u t : TxAudit scope a e s = (Ok u, t) →
  cs_active t = cs_active s ∧ cs_dirty t = cs_dirty s ∧ cs_aborted t = cs_aborted s ∧ cs_failed t = None ∧
  ∃ event, cs_db t = with_audit (cs_db s) (event :: dc_audit (cs_db s)).
Proof.
  intros H. destruct (cs_active s) eqn:Ha; [|unfold TxAudit in H; by rewrite Ha in H].
  assert (Hf : cs_failed t = None).
  { unfold TxAudit in H. rewrite Ha in H. simpl in H. destruct (cs_failed s) eqn:Ef; [done|].
    destruct (negb _); [done|]. destruct (ce_audit_id e (cs_ids s)); [|done].
    destruct (exec _ e _) as [[[]|err] v] eqn:E; [|done]. apply exec_Ok in E as (d' & _ & -> & _). by injection H as _ <-. }
  destruct (TxAudit_outcome _ _ _ _ _ _ Ha H Hf) as (_ & _ & A1 & A2 & A3 & _ & _ & event & ->).
  split_and!; try done. by exists event.
Qed.

Lemma sw_stored d scope id n doc : SourceWf d → source_rev d scope id n doc →
  md_SchemaVersion (doc_Metadata doc) = 1 ∧ texts_valid (document_texts doc) = true ∧
  ∃ h, dc_heads d !! id = Some h ∧ he_ScopeID h = scope ∧ he_Kind h = KindSource ∧
    (he_Revision h = Some n → source_indexed h doc).
Proof.
  intros W Hr. pose proof Hr as (row & (rv & w & Hrv & _ & Hs & _)%GetResourceRevision_Some & _).
  destruct (cw_rev _ _ (sw_catalog _ W) id n) as (h & k & row' & Hh & _ & _ & Hrow' & _); [by eexists|].
  apply GetResourceRevision_Some in Hrow' as (rv' & w' & Hrv' & _ & Hs' & _).
  assert (Hsc : he_ScopeID h = scope) by congruence.
  assert (Hk : he_Kind h = KindSource).
  { apply (source_rev_kind d id h n doc (sw_catalog _ W) (sw_kinds _ W) Hh). by rewrite Hsc. }
  destruct (sw_opens _ W id h n Hh Hk) as (x & Hx & H1 & H2 & H3); [by eexists|].
  rewrite Hsc in Hx. assert (x = doc) as -> by exact (source_rev_det _ _ _ _ _ _ Hx Hr). split_and!; try done.
  by exists h.
Qed.

Definition superseded (scope id : ID) (previews : gmap ID PreviewRow) : gmap ID PreviewRow :=
  (λ row, if ready_preview scope id row then supersede row else row) <$> previews.

Lemma supersede_Ok scope id e s u t : supersedeSourcePreviews scope id e s = (Ok u, t) →
  t = set_db s (with_previews (cs_db s) (superseded scope id (st_previews (dc_side (cs_db s))))).
Proof.
  intros (d1 & H & -> & _)%exec_Ok. unfold SupersedePreviews in H. destruct (require _ _); [|done]. by injection H as <-.
Qed.

(** What is left when a source was written, its previews superseded, the change audited
    and the schedule brought in line. *)
Lemma source_tail scope doc deleted a now e s t u v w :
  SourceWf (cs_db s) → SourceWritten scope e doc deleted s t →
  (u = t ∨ supersedeSourcePreviews scope (md_ResourceID (doc_Metadata doc)) e t = (Ok (), u)) →
  TxAudit scope a e u = (Ok (), v) → syncSchedule scope doc deleted "" None now e v = (Ok (), w) →
  cs_failed w = None ∧
  ∃ events side, cs_db w = with_side (with_audit (cs_db t) events) side ∧
    st_schedules side = scheduled scope doc deleted "" None now (st_schedules (dc_side (cs_db s))) ∧
    st_previews side = st_previews (dc_side (cs_db u)).
Proof.
  intros W HW Hu (A1 & A2 & A3 & A4 & event & Ea)%TxAudit_Ok Hw.
  pose proof HW as [_ Hl _ (h & Hh & Hs & _) [_ Hb] _ _ _].
  destruct (lt_others _ _ _ Hl) as (_ & _ & _ & Hside).
  assert (Eu : cs_db u = t.(cs_db) ∨ cs_db u = with_previews (cs_db t) (superseded scope (md_ResourceID (doc_Metadata doc)) (st_previews (dc_side (cs_db t))))).
  { destruct Hu as [-> |Hu]; [by left|]. apply supersede_Ok in Hu as ->. by right. }
  assert (Esc : st_schedules (dc_side (cs_db v)) = st_schedules (dc_side (cs_db s))).
  { rewrite Ea. simpl. rewrite <-Hside. by destruct Eu as [-> | ->]. }
  apply syncSchedule_Ok in Hw as ->.
  - simpl. rewrite Esc, Ea. split; [done|]. destruct Eu as [E|E]; rewrite E; by do 2 eexists.
  - rewrite Esc. intros row Hrow. destruct (sw_sound _ W _ _ Hrow) as (h' & x & (Hh' & _) & _ & -> & _).
    by apply Hb in Hh' as [_ ?].
Qed.

Lemma SourceHead_live d scope id doc : valid_id scope = true → valid_id id = true →
  SourceHead d scope id = Ok doc ↔ ∃ h, he_ScopeID h = scope ∧ live_source d id h doc.
Proof.
  intros Hs Hi. unfold SourceHead. rewrite Hs, Hi. simpl. split.
  - destruct (GetResourceIndex d scope id) as [h|] eqn:E; [|done]. apply GetResourceIndex_Some in E as [Hh Hsc].
    destruct (bool_decide_reflect (is_Some (he_DeletedAt h))) as [|Hd]; [done|].
    destruct (String.eqb_spec (he_Kind h) KindSource) as [Hk|]; [|done]. simpl.
    destruct (GetResourceHead d scope id) as [row|] eqn:Er; [|done]. intros Ho.
    apply GetResourceHead_Some in Er as (h' & n & Hh' & _ & Hn & Hd' & Hrow). assert (h' = h) as -> by congruence.
    exists h. split; [done|]. split_and!; try done. exists n. rewrite Hsc. split; [done|]. by exists row.
  - intros (h & Hsc & Hh & Hk & Hd & n & Hn & row & Hrow & Ho).
    rewrite (proj2 (GetResourceIndex_Some d scope id h)) by done. rewrite Hk, Hd, String.eqb_refl. simpl.
    rewrite (proj2 (GetResourceHead_Some scope d id row)); [done|]. exists h, n. rewrite <-Hsc. by split_and!.
Qed.

(** The transaction of an update or a deletion, once its callback returned. *)
Record SourceChanged (scope id : ID) (n : Z) (deleted : bool) (apply : Document → result catalog_error Document)
    e d (doc : Document) d' : Prop := {
  sg_wf : SourceWf d';
  sg_change : ∃ old h, source_rev d scope id n old ∧ apply old = Ok doc ∧
    dc_heads d !! id = Some h ∧ he_ScopeID h = scope ∧ he_Kind h = KindSource ∧ he_Revision h = Some n ∧ he_DeletedAt h = None ∧
    resource_advance h (md_Revision (doc_Metadata doc)) (md_SecurityEpoch (doc_Metadata doc))
      (md_Enabled (doc_Metadata doc)) (if deleted then Some (ce_now e) else None) = true;
  sg_id : md_ResourceID (doc_Metadata doc) = id ∧ md_Revision (doc_Metadata doc) = n + 1;
  sg_head : ∃ h', dc_heads d' !! id = Some h' ∧ he_ScopeID h' = scope ∧ he_Kind h' = KindSource ∧
    he_Revision h' = Some (n + 1) ∧ he_DeletedAt h' = (if deleted then Some (ce_now e) else None) ∧
    source_rev d' scope id (n + 1) (sorted_document doc);
  sg_others : ∀ other, other ≠ id → dc_heads d' !! other = dc_heads d !! other;
  sg_history : history_kept d d' ∧ ∀ i, is_Some (dc_scopes d !! i) → is_Some (dc_scopes d' !! i);
  sg_schedules : st_schedules (dc_side d') =
    scheduled scope doc deleted "" None (ce_now e) (st_schedules (dc_side d));
  sg_previews : st_previews (dc_side d') = superseded scope id (st_previews (dc_side d)) }.

Definition change_source (scope id : ID) (n : Z) (deleted : bool) (apply : Document → result catalog_error Document)
    (audit : Document → MutationAudit) : CTx (Side:=SourceTables) Document := λ e,
  (document ← changeSource scope id n deleted apply;
   _ ← supersedeSourcePreviews scope id;
   _ ← TxAudit scope (audit document);
   _ ← syncSchedule scope document deleted "" None (ce_now e);
   mret document) e.

Lemma change_source_Ok scope id n deleted apply audit e d doc d' :
  SourceWf d →
  (∀ old next, apply old = Ok next → advances old next) →
  (∀ old next, texts_valid (document_texts old) = true → apply old = Ok next → texts_valid (document_texts next) = true) →
  transactRaw scope (change_source scope id n deleted apply audit) e d = (Ok doc, d') →
  SourceChanged scope id n deleted apply e d doc d'.
Proof.
  intros W Hadv Htx HT%transactRaw_Ok. destruct (transact_Ok_inv _ _ _ _ _ _ HT) as (_ & so & w & Hso & E & Ef).
  destruct (transact_db_scopes _ _ _ _ _ _ _ E HT) as (sc & -> & Hsc). unfold change_source in E.
  apply bind_Ok in E as (doc' & t & Hc & E). apply bind_Ok in E as ([] & u & Hu & E).
  apply bind_Ok in E as ([] & v & Hv & E). apply bind_Ok in E as ([] & w' & Hw & [-> ->]%ret_Ok).
  pose proof (sw_catalog _ W) as Wc.
  apply changeSource_Ok in Hc as (HW & Hid & Hrev & _ & old & h & Hh & Hhs & Hhn & Hhd & Hhk & Hold & Happ & Hra);
    [|done|apply W|done|].
  2:{ intros old Hold. destruct (sw_stored _ _ _ _ _ W Hold) as (H1 & H2 & _). split; [done|]. intros next. by apply Htx. }
  cbn [cs_db begin_tx] in *. destruct (sw_stored _ _ _ _ _ W Hold) as (Hver & Htold & _).
  assert (Hu' : u = t ∨ supersedeSourcePreviews scope (md_ResourceID (doc_Metadata doc')) e t = (Ok (), u))
    by (right; by rewrite Hid).
  destruct (source_tail scope doc' deleted (audit doc') (ce_now e) e (begin_tx d) t u v w' W HW Hu' Hv Hw)
    as (_ & events & side & Edb & Hschedules & Hpreviews). rewrite Edb in *. clear Edb Hw.
  pose proof HW as [T1 T2 T3 (h' & Hh' & Hs' & Hk' & Hn' & _ & _ & _ & Hd') _ T5 _ _]. rewrite Hid, Hrev in *.
  cbn [cs_db begin_tx] in *.
  assert (Wd' : CatalogWf None (with_scopes (with_side (with_audit (cs_db t) events) side) sc))
    by (apply CatalogWf_scopes; [exact Hsc|by apply CatalogWf_side, CatalogWf_audit]).
  split; simpl; try done.
  - eapply (SourceWf_written scope e doc' deleted (begin_tx d) t _ (st_schedules (dc_side d))); try done.
    + by eapply Htx.
    + exists "", None, (ce_now e). exact Hschedules.
    + intros row Hrow. destruct (sw_sound _ W _ _ Hrow) as (? & ? & _ & _ & _ & Hb & _). exact Hb.
  - exists old, h. rewrite ?Hrev. by split_and!.
  - exists h'. by split_and!.
  - split; [apply T2|]. intros i Hi. apply Hsc. simpl. by rewrite (lt_scopes _ _ _ T2).
  - rewrite Hpreviews. apply supersede_Ok in Hu as ->. simpl. by destruct (lt_others _ _ _ T2) as (_ & _ & _ & ->).
Qed.

(** *** Creation *)

Lemma create_source_Ok input e d doc d' :
  SourceWf d → texts_valid (sm_Name input :: sm_Tags input ++ config_texts (sm_Config input)) = true →
  transactRaw (sm_ScopeID input) (create_source input) e d = (Ok doc, d') →
  SourceWf d' ∧ doc_Source doc = sm_Config input ∧ md_Name (doc_Metadata doc) = sm_Name input ∧
  md_Revision (doc_Metadata doc) = 1 ∧ dc_heads d !! md_ResourceID (doc_Metadata doc) = None ∧
  (∃ h, he_ScopeID h = sm_ScopeID input ∧ live_source d' (md_ResourceID (doc_Metadata doc)) h (sorted_document doc)) ∧
  st_schedules (dc_side d') =
    scheduled (sm_ScopeID input) doc false "" None (ce_now e) (st_schedules (dc_side d)).
Proof.
  intros W Htx HT%transactRaw_Ok. destruct (transact_Ok_inv _ _ _ _ _ _ HT) as (_ & so & w & Hso & E & Ef).
  destruct (transact_db_scopes _ _ _ _ _ _ _ E HT) as (sc & -> & Hsc). unfold create_source in E.
  apply bind_Ok in E as (doc' & t & Hc & E).
  apply bind_Ok in E as ([] & v & Hv & E). apply bind_Ok in E as ([] & w' & Hw & [-> ->]%ret_Ok).
  apply CreateSource_Ok in Hc as (HW & Hnone & Hcfg & Hname & Htags & _ & Hrev & _); [|apply W|done].
  destruct (source_tail (sm_ScopeID input) doc' false (source_audit input doc' "source.create") (ce_now e) e (begin_tx d)
    t t v w' W HW (or_introl eq_refl) Hv Hw) as (_ & events & side & Edb & Hschedules & _).
  rewrite Edb in *. clear Edb Hw.
  pose proof HW as [T1 T2 T3 (h' & Hh' & Hs' & Hk' & Hn' & _ & _ & _ & Hd') _ _ _ _]. cbn [cs_db begin_tx] in *.
  assert (Wd' : CatalogWf None (with_scopes (with_side (with_audit (cs_db t) events) side) sc))
    by (apply CatalogWf_scopes; [exact Hsc|by apply CatalogWf_side, CatalogWf_audit]).
  split; [|split_and!; try done].
  - eapply (SourceWf_written (sm_ScopeID input) e doc' false (begin_tx d) t _ (st_schedules (dc_side d))); try done.
    + unfold document_texts. by rewrite Hcfg, Hname, Htags.
    + exists "", None, (ce_now e). exact Hschedules.
    + intros row Hrow. destruct (sw_sound _ W _ _ Hrow) as (? & ? & _ & _ & _ & Hb & _). exact Hb.
  - exists h'. split; [done|]. split_and!; try done. exists (md_Revision (doc_Metadata doc')). rewrite Hs'. by split.
Qed.

(** *** Failed refreshes *)

Lemma sourceHead_Ok scope id b e s doc t : sourceHead scope id b e s = (Ok doc, t) →
  t = s ∧ ∃ h, he_ScopeID h = scope ∧ live_source (cs_db s) id h doc.
Proof.
  unfold sourceHead. cbv zeta. destruct (cs_active s); [|done]. cbn [negb]. destruct (cs_failed s); [done|].
  destruct (negb (valid_id id)); [done|].
  assert (Hno : ∀ (err : failure) (x : result failure Document * St),
    (if b || negb (missing_or_invalid (catalogError err))
     then (Err (catalogError err), set_latch s true (cs_dirty s) (Some (catalogError err)))
     else (Err (catalogError err), s)) = x → x ≠ (Ok doc, t)) by (intros err x <-; by destruct (b || _)).
  destruct (cs_aborted s); [intros H; by destruct (Hno (PgError in_failed_transaction) _ H)|].
  destruct (GetResourceIndex (cs_db s) scope id) as [h|] eqn:E; [|intros H; by destruct (Hno (NoRows) _ H)].
  apply GetResourceIndex_Some in E as [Hh Hsc].
  destruct (bool_decide_reflect (is_Some (he_DeletedAt h))) as [|Hd]; [intros H; by destruct (Hno ((Sentinel ErrNotFound)) _ H)|].
  destruct (String.eqb_spec (he_Kind h) KindSource) as [Hk|]; [|intros H; by destruct (Hno ((Sentinel ErrNotFound)) _ H)]. simpl.
  destruct (GetResourceHead (cs_db s) scope id) as [row|] eqn:Er; [|intros H; by destruct (Hno (NoRows) _ H)].
  destruct (openSource row) as [x|err] eqn:Ho; [|intros H; by destruct (Hno (err) _ H)]. intros [= -> <-].
  apply GetResourceHead_Some in Er as (h' & n & Hh' & _ & Hn & Hd' & Hrow). assert (h' = h) as -> by congruence.
  split; [done|]. exists h. split; [done|]. split_and!; try done. exists n. rewrite Hsc. split; [done|]. by exists row.
Qed.

Lemma insertSnapshot_Ok scope doc fetched b e s id t : insertSnapshot scope doc fetched b e s = (Ok id, t) →
  (∃ side, cs_db t = with_side (cs_db s) side ∧ st_schedules side = st_schedules (dc_side (cs_db s)) ∧
    st_previews side = st_previews (dc_side (cs_db s))) ∧
  cs_active t = cs_active s ∧ cs_dirty t = cs_dirty s ∧ cs_failed t = cs_failed s ∧ cs_aborted t = cs_aborted s.
Proof.
  unfold insertSnapshot, sealRecord. intros H.
  apply bind_Ok in H as (fresh & s1 & [= <- <-] & H). apply bind_Ok in H as (i & s2 & [_ ->]%returning_Ok & H).
  apply bind_Ok in H as ([[env w] dg] & s3 & H3 & H).
  apply bind_Ok in H3 as (sw & s4 & H4 & H3). unfold seal in H4. injection H4 as _ <-.
  apply bind_Ok in H3 as (digest & s5 & [_ ->]%returning_Ok & [_ ->]%ret_Ok).
  apply bind_Ok in H as ([] & s6 & (d1 & E & -> & _)%exec_Ok & [-> ->]%ret_Ok). simpl in E |- *.
  unfold InsertSourceSnapshot in E. repeat (destruct (require _ _); [|done]). injection E as <-.
  split; [|done]. eexists. by split_and!.
Qed.

Lemma advance_Ok scope e s u t : advance_if_dirty scope e s = (Ok u, t) →
  ∃ sc, cs_db t = with_scopes (cs_db s) sc ∧ ∀ id, is_Some (dc_scopes (cs_db s) !! id) → is_Some (sc !! id).
Proof.
  assert (Hsame : ∀ x : DB, x = with_scopes x (dc_scopes x)) by by intros [].
  unfold advance_if_dirty. destruct (cs_dirty s); [|destruct (cs_failed s); [done|intros [= _ <-]; eauto]].
  intros (d1 & H & -> & _)%exec_Ok. simpl. unfold AdvanceCatalog in H.
  destruct (dc_scopes (cs_db s) !! scope) as [so|] eqn:Es; [|injection H as <-; eauto].
  destruct (require _ numeric_out_of_range); [|done]. destruct (require _ check_violation); [|done].
  injection H as <-. eexists. split; [done|]. intros id Hid. rewrite lookup_insert. by case_decide; [eexists|].
Qed.

Lemma SourceWf_side d side : SourceWf d → st_schedules side = st_schedules (dc_side d) → SourceWf (with_side d side).
Proof. intros [W1 W2 W3 W4 W5] E. split; simpl; rewrite ?E; try done. by apply CatalogWf_side. Qed.

(** The failure of a refresh: nothing when the document moved on, and otherwise a new
    revision with the error, and the schedule backs off. *)
Record RefreshFailed (job : RefreshJob) (code : string) (now : Z) d d' (doc next : Document) : Prop := {
  rd_wf : SourceWf d';
  rd_before : ∃ h, he_ScopeID h = rj_ScopeID job ∧ live_source d (rj_SourceID job) h doc;
  rd_next : nextSource doc (md_Name (doc_Metadata doc)) (md_Tags (doc_Metadata doc)) (md_Enabled (doc_Metadata doc))
    (with_failure (doc_Source doc) (rj_ID job) (sourceRefreshError code)) false = Ok next;
  rd_after : ∃ h, he_ScopeID h = rj_ScopeID job ∧ live_source d' (rj_SourceID job) h (sorted_document next);
  rd_history : history_kept d d';
  rd_others : ∀ other, other ≠ rj_SourceID job → dc_heads d' !! other = dc_heads d !! other;
  rd_schedules : st_schedules (dc_side d') =
    scheduled (rj_ScopeID job) next false (rj_ID job) (Some false) now (st_schedules (dc_side d));
  rd_previews : st_previews (dc_side d') = st_previews (dc_side d) }.

Lemma failure_texts doc job code next : ValidString job = true → texts_valid (document_texts doc) = true →
  nextSource doc (md_Name (doc_Metadata doc)) (md_Tags (doc_Metadata doc)) (md_Enabled (doc_Metadata doc))
    (with_failure (doc_Source doc) job (sourceRefreshError code)) false = Ok next →
  texts_valid (document_texts next) = true.
Proof.
  intros Hjob H2 (_ & N1 & N2 & N3 & _)%nextSource_Ok. unfold document_texts in *. rewrite N1, N2, N3.
  revert H2. change (texts_valid (md_Name (doc_Metadata doc) :: ?l)) with (ValidString (md_Name (doc_Metadata doc)) && texts_valid l).
  rewrite !texts_valid_app. unfold config_texts. rewrite !texts_valid_app.
  rewrite !andb_true_iff. intros (G1 & G2 & G3 & _). unfold with_failure. simpl. simpl in G3.
  rewrite !andb_true_iff in G3. pose proof (safe_error_texts code) as G4. simpl in G4. rewrite !andb_true_iff in G4.
  rewrite !andb_true_iff. naive_solver.
Qed.

Lemma complete_failed_Ok job fetched code now e d d' :
  SourceWf d → ValidString (rj_ID job) = true → complete_failed job fetched code now e d = Ok d' →
  ∃ doc h, he_ScopeID h = rj_ScopeID job ∧ live_source d (rj_SourceID job) h doc ∧
    if md_Revision (doc_Metadata doc) =? rj_Revision job
    then ∃ next, RefreshFailed job code now d d' doc next
    else d' = d.
Proof.
  intros W Hjob H. unfold complete_failed in H. destruct (commit_failed job fetched code now e (begin_tx d)) as [[[]|] w] eqn:E; [|done].
  assert (d' = cs_db w) as ->.
  { unfold commit in H. destruct (cs_aborted w); [done|]. destruct (commit_check _ _ _ _); [|done]. by injection H as <-. }
  clear H. unfold commit_failed in E. cbv zeta in E.
  apply bind_Ok in E as (o & s1 & [-> ->]%query_Ok & E). apply bind_Ok in E as (so & s2 & [Hso ->]%one_Ok & E).
  apply bind_Ok in E as ([] & s3 & [= <-] & E). apply bind_Ok in E as (doc & s4 & Hd & E).
  apply sourceHead_Ok in Hd as (-> & h & Hsc & Hlive). cbn [cs_db begin_tx] in Hlive. exists doc, h.
  split; [done|]. split; [done|].
  destruct (md_Revision (doc_Metadata doc) =? rj_Revision job) eqn:Erev; simpl in E; [|by apply ret_Ok in E as [_ ->]].
  apply bind_Ok in E as (snap & s5 & Hsnap & E). apply bind_Ok in E as (next & t & Hup & E).
  apply bind_Ok in E as ([] & v & Hv & E). exists next.
  apply insertSnapshot_Ok in Hsnap as ((side & Es5 & Hside1 & Hside2) & A1 & A2 & A3 & A4). cbn [cs_db begin_tx] in *.
  pose proof (SourceWf_side d side W Hside1) as W5. rewrite <-Es5 in W5.
  pose proof Hlive as (Hh & Hk & Hdel & n & Hn & Hr). destruct (source_rev_metadata _ _ _ _ _ Hr) as (_ & M2 & M3 & _ & _).
  rewrite M2, M3 in Hup.
  assert (Hr5 : source_rev (cs_db s5) (rj_ScopeID job) (rj_SourceID job) n doc) by (rewrite Es5, <-Hsc; exact Hr).
  assert (Htexts : ∀ nx, texts_valid (document_texts doc) = true →
    nextSource doc (md_Name (doc_Metadata doc)) (md_Tags (doc_Metadata doc)) (md_Enabled (doc_Metadata doc))
      (with_failure (doc_Source doc) (rj_ID job) (sourceRefreshError code)) false = Ok nx →
    texts_valid (document_texts nx) = true) by (intros nx; by apply failure_texts).
  unfold UpdateSource in Hup. apply changeSource_Ok in Hup
    as (HW & Hid & Hnext & _ & old & h1 & Hh1 & Hs1 & Hn1 & Hd1 & Hk1 & Hold & Happ & Hra); [|apply W5|apply W5|..].
  2:{ intros old nx (Ha & _)%nextSource_Ok. exact Ha. }
  2:{ intros old Hold. assert (old = doc) as -> by exact (source_rev_det _ _ _ _ _ _ Hold Hr5).
      destruct (sw_stored _ _ _ _ _ W5 Hold) as (H1 & H2 & _). split; [done|]. intros nx. by apply Htexts. }
  assert (old = doc) as -> by exact (source_rev_det _ _ _ _ _ _ Hold Hr5).
  assert (h1 = h) as -> by (rewrite Es5 in Hh1; simpl in Hh1; congruence).
  pose proof HW as [T1 T2 T3 (h' & Hh' & Hs' & Hk' & Hn' & _ & _ & _ & Hd') [_ T4] T5 (_ & _ & T6) (_ & _ & T7 & _)].
  rewrite Hid in *.
  destruct (lt_others _ _ _ T2) as (_ & _ & _ & Eside).
  assert (Esc : dc_side (cs_db t) = side) by (rewrite Eside, Es5; done).
  apply syncSchedule_Ok in Hv as ->.
  2:{ rewrite Hid, Esc, Hside1. intros row Hrow. destruct (sw_sound _ W _ _ Hrow) as (h2 & x & (Hh2 & _) & _ & -> & _). congruence. }
  apply advance_Ok in E as (sc & -> & Hsc'). cbn [cs_db set_db] in *.
  assert (Wd' : CatalogWf None (with_scopes (with_schedules (cs_db t) (scheduled (rj_ScopeID job) next false (rj_ID job)
    (Some false) now (st_schedules (dc_side (cs_db t))))) sc)) by (apply CatalogWf_scopes; [exact Hsc'|by apply CatalogWf_side]).
  rewrite Esc, Hside1 in *.
  assert (Hr' : source_rev (cs_db t) (rj_ScopeID job) (rj_SourceID job) (n + 1) (sorted_document next)) by (by rewrite <-Hnext).
  split; simpl; try done.
  - eapply (SourceWf_written (rj_ScopeID job) e next false s5 t _ (st_schedules (dc_side d))); try done.
    + destruct (sw_stored _ _ _ _ _ W5 Hold) as (_ & H2 & _).
      eapply Htexts; done.
    + exists (rj_ID job), (Some false), now. done.
    + intros i _. rewrite Es5. simpl. by rewrite Hside1.
    + rewrite Hid. intros row Hrow. destruct (sw_sound _ W _ _ Hrow) as (? & ? & _ & _ & _ & Hb & _). exact Hb.
  - by exists h.
  - exists h'. split; [done|]. split_and!; try done. exists (n + 1). rewrite Hs'. split; [congruence|done].
  - pose proof (lt_history _ _ _ T2) as K. by rewrite Es5 in K.
  - intros other Hne. rewrite T5 by done. by rewrite Es5.
  - by rewrite Esc.
Qed.

(** ** Histories *)

Definition mutation_texts (input : SourceMutation) : bool :=
  texts_valid (sm_Name input :: sm_Tags input ++ config_texts (sm_Config input)).

(** What the catalog does, and what is done to sources: texts come from decoded JSON. *)
Inductive source_step : DB → DB → Prop :=
| src_catalog d d' : catalog_own d d' → source_step d d'
| src_create input e d r d' : mutation_texts input = true → Sources_Create input e d = (r, d') → source_step d d'
| src_update input e d r d' : mutation_texts input = true → Sources_Update input e d = (r, d') → source_step d d'
| src_delete input e d r d' : Sources_Delete input e d = (r, d') → source_step d d'
| src_failed job fetched code now e d d' : ValidString (rj_ID job) = true →
    complete_failed job fetched code now e d = Ok d' → source_step d d'.

Definition update_apply (input : SourceMutation) (old : Document) : result catalog_error Document :=
  nextSource old (sm_Name input) (sm_Tags input) (sm_Enabled input) (sm_Config input) false.
Definition delete_apply (old : Document) : result catalog_error Document :=
  nextSource old (md_Name (doc_Metadata old)) (md_Tags (doc_Metadata old)) false (doc_Source old) true.

Lemma Sources_Update_Ok input e d doc d' :
  SourceWf d → mutation_texts input = true → Sources_Update input e d = (Ok doc, d') →
  valid_id (sm_ScopeID input) = true ∧ valid_id (sm_ResourceID input) = true ∧ 1 ≤ sm_ExpectedRevision input ∧
  SourceChanged (sm_ScopeID input) (sm_ResourceID input) (sm_ExpectedRevision input) false (update_apply input) e d doc d'.
Proof.
  intros W Ht H. unfold Sources_Update in H.
  destruct (negb _ || (_ <? 1) || _) eqn:G; [done|]. rewrite !orb_false_iff, negb_false_iff, !andb_true_iff, Z.ltb_ge in G.
  destruct G as [[[[G1 G2] G3] G4] _]. split_and!; [done|done|lia|].
  apply (change_source_Ok (sm_ScopeID input) (sm_ResourceID input) (sm_ExpectedRevision input) false (update_apply input)
    (λ document, source_audit input document "source.update")); [done| | |exact H].
  - by intros old next (Ha & _)%nextSource_Ok.
  - intros old next _ (_ & N1 & N2 & N3 & _)%nextSource_Ok. unfold document_texts. by rewrite N1, N2, N3.
Qed.

Lemma Sources_Delete_Ok input e d doc d' :
  SourceWf d → Sources_Delete input e d = (Ok doc, d') →
  valid_id (sm_ScopeID input) = true ∧ valid_id (sm_ResourceID input) = true ∧ 1 ≤ sm_ExpectedRevision input ∧
  SourceChanged (sm_ScopeID input) (sm_ResourceID input) (sm_ExpectedRevision input) true delete_apply e d doc d'.
Proof.
  intros W H. unfold Sources_Delete in H.
  destruct (negb _ || (_ <? 1)) eqn:G; [done|]. rewrite !orb_false_iff, negb_false_iff, !andb_true_iff, Z.ltb_ge in G.
  destruct G as [[[G1 G2] G3] G4]. split_and!; [done|done|lia|].
  apply (change_source_Ok (sm_ScopeID input) (sm_ResourceID input) (sm_ExpectedRevision input) true delete_apply
    (λ document, source_audit input document "source.delete")); [done| | |exact H].
  - by intros old next (Ha & _)%nextSource_Ok.
  - intros old next Ho (_ & N1 & N2 & N3 & _)%nextSource_Ok. unfold document_texts in *. by rewrite N1, N2, N3.
Qed.

Lemma source_step_wf d d' : SourceWf d → source_step d d' → SourceWf d'.
Proof.
  intros W Hs. destruct Hs as [d0 d0' H|input e d0 r d0' Ht H|input e d0 r d0' Ht H|input e d0 r d0' H|job fetched code now e d0 d0' Hj H].
  - by apply (catalog_own_sources d0).
  - unfold Sources_Create in H. destruct (_ || _); [by injection H as _ <-|].
    destruct r as [doc|err]; [by apply create_source_Ok in H as (? & _)|by apply transactRaw_Err in H as ->].
  - destruct r as [doc|err]; [by apply Sources_Update_Ok in H as (_ & _ & _ & [? _ _ _ _ _ _ _])|].
    unfold Sources_Update in H. destruct (_ || _); [by injection H as _ <-|by apply transactRaw_Err in H as ->].
  - destruct r as [doc|err]; [by apply Sources_Delete_Ok in H as (_ & _ & _ & [? _ _ _ _ _ _ _])|].
    unfold Sources_Delete in H. destruct (_ || _); [by injection H as _ <-|by apply transactRaw_Err in H as ->].
  - apply complete_failed_Ok in H as (doc & h & _ & _ & H); [|done..].
    destruct (_ =? _); [by destruct H as [next []]|by subst].
Qed.

Definition no_sources : SourceTables := {| st_schedules := ∅; st_previews := ∅; st_snapshots := ∅ |}.
Lemma SourceWf_empty scopes users settings : SourceWf (empty_tables scopes users settings no_sources).
Proof.
  split; [apply CatalogWf_empty|..]; unfold kinds_known, live_source; simpl; intros *; rewrite ?lookup_empty; try done; by intros [? _].
Qed.

Lemma source_reachable_wf scopes users settings d :
  rtc source_step (empty_tables scopes users settings no_sources) d → SourceWf d.
Proof.
  intros H. assert (W := SourceWf_empty scopes users settings).
  induction H as [|x y z Hs H IH]; [done|]. apply IH. by eapply source_step_wf.
Qed.

(** ** Conflicts *)



(** ** Failures in a row *)

Inductive failures (scope id : ID) : nat → Z → DB → DB → Prop :=
| failures_0 now d : failures scope id 0 now d d
| failures_S k now0 now d d1 d' job fetched code e h doc :
    failures scope id k now0 d d1 → rj_ScopeID job = scope → rj_SourceID job = id → ValidString (rj_ID job) = true →
    live_source d1 id h doc → md_Revision (doc_Metadata doc) = rj_Revision job →
    complete_failed job fetched code now e d1 = Ok d' → failures scope id (S k) now d d'.

(** Documents that differ in their revision and in what failed attempts record. *)
Definition alike (doc doc' : Document) : Prop := sorted_document (as_frozen doc' doc) = sorted_document doc.
Lemma alike_fields doc doc' : alike doc doc' ↔
  md_ResourceID (doc_Metadata doc') = md_ResourceID (doc_Metadata doc) ∧
  md_ScopeID (doc_Metadata doc') = md_ScopeID (doc_Metadata doc) ∧
  md_Kind (doc_Metadata doc') = md_Kind (doc_Metadata doc) ∧
  md_SchemaVersion (doc_Metadata doc') = md_SchemaVersion (doc_Metadata doc) ∧
  md_Name (doc_Metadata doc') = md_Name (doc_Metadata doc) ∧
  sort_strings (md_Tags (doc_Metadata doc')) = sort_strings (md_Tags (doc_Metadata doc)) ∧
  md_Enabled (doc_Metadata doc') = md_Enabled (doc_Metadata doc) ∧
  md_SecurityEpoch (doc_Metadata doc') = md_SecurityEpoch (doc_Metadata doc) ∧
  with_status_of (doc_Source doc') (doc_Source doc) = doc_Source doc.
Proof.
  destruct doc as [[] c], doc' as [[] c']. unfold alike, as_frozen, sorted_document, with_tags_of, with_revision_of. simpl.
  split; [by intros [= -> -> -> -> -> -> -> -> ->]|by intros (-> & -> & -> & -> & -> & -> & -> & -> & ->)].
Qed.

Lemma alike_refl doc : alike doc doc.
Proof. apply alike_fields. split_and!; try done. by destruct doc as [m []]. Qed.

Lemma alike_failed doc doc' job err next :
  alike doc doc' →
  nextSource doc' (md_Name (doc_Metadata doc')) (md_Tags (doc_Metadata doc')) (md_Enabled (doc_Metadata doc'))
    (with_failure (doc_Source doc') job err) false = Ok next →
  alike doc (sorted_document next) ∧ md_Revision (doc_Metadata next) = md_Revision (doc_Metadata doc') + 1.
Proof.
  rewrite !alike_fields. intros (A1 & A2 & A3 & A4 & A5 & A6 & A7 & A8 & A9) H.
  unfold nextSource in H. destruct (_ || _) in H; [done|]. cbv zeta in H. destruct (source_Canonical _) in H; [|done].
  injection H as <-. split; [|done]. simpl. rewrite String.eqb_refl, bool_decide_eq_true_2 by done.
  assert (md_Enabled (doc_Metadata doc') && negb (md_Enabled (doc_Metadata doc')) = false) as -> by (by destruct (md_Enabled _)).
  simpl. split_and!; try done. rewrite <-A6. unfold sort_strings. apply isort_id, isort_sorted. apply go_leb_order.
Qed.

Lemma failures_Ok scope id k now d d' h doc row :
  SourceWf d → he_ScopeID h = scope → live_source d id h doc → st_schedules (dc_side d) !! id = Some row →
  sc_BackoffSeconds row = 60 → failures scope id k now d d' →
  SourceWf d' ∧ history_kept d d' ∧ st_previews (dc_side d') = st_previews (dc_side d) ∧
  ∃ h' doc' row', he_ScopeID h' = scope ∧ live_source d' id h' doc' ∧ alike doc doc' ∧
    md_Revision (doc_Metadata doc') = md_Revision (doc_Metadata doc) + Z.of_nat k ∧
    st_schedules (dc_side d') !! id = Some row' ∧ sc_ScopeID row' = scope ∧
    sc_BackoffSeconds row' = Z.min (60 * 2 ^ Z.of_nat k) (rp_IntervalSeconds (cfg_RefreshPolicy (doc_Source doc))) ∧
    (k ≠ 0%nat → sc_NextRunAt row' = now + 1000000 * sc_BackoffSeconds row').
Proof.
  intros W Hs Hl Hrow H60 H.
  assert (Hint : 60 ≤ rp_IntervalSeconds (cfg_RefreshPolicy (doc_Source doc)) ≤ 2592000).
  { destruct Hl as (_ & _ & _ & n & _ & Hr). apply Config_Validate_interval. apply (source_rev_metadata _ _ _ _ _ Hr). }
  assert (Hsc : sc_ScopeID row = scope).
  { destruct (sw_sound _ W _ _ Hrow) as (h0 & x & (Hh0 & _) & _ & -> & _). destruct Hl as [Hh _]. congruence. }
  induction H as [now d|k now0 now d d1 d' job fetched code e h1 doc1 H IH Hj1 Hj2 Hj3 Hl1 Hrev Hc].
  - split_and!; [done|done|done|]. exists h, doc, row. split_and!; try done; [apply alike_refl|lia|rewrite H60; change (2 ^ Z.of_nat 0) with 1; lia].
  - destruct (IH W Hl Hrow) as (W1 & K1 & P1 & h2 & doc2 & row2 & Hs2 & Hl2 & Ha & Hr2 & Hrow2 & _ & Hb & _).
    assert (h2 = h1 ∧ doc2 = doc1) as [-> ->].
    { destruct Hl1 as (Hh1 & _ & _ & n1 & Hn1 & Hr1), Hl2 as (Hh2 & _ & _ & n2 & Hn2 & Hr2'). assert (h2 = h1) as -> by congruence.
      split; [done|]. assert (n2 = n1) as -> by congruence. by eapply source_rev_det. }
    apply complete_failed_Ok in Hc as (doc3 & h3 & Hs3 & Hl3 & Hc); [|done..]. rewrite Hj2 in Hl3.
    assert (doc3 = doc1) as ->.
    { destruct Hl1 as (Hh1 & _ & _ & n1 & Hn1 & Hr1), Hl3 as (Hh3 & _ & _ & n3 & Hn3 & Hr3). assert (h3 = h1) as -> by congruence.
      assert (n3 = n1) as -> by congruence. by eapply source_rev_det. }
    rewrite Hrev, Z.eqb_refl in Hc. destruct Hc as (next & [Wd' _ Hnext (h4 & Hs4 & Hl4) K _ Hsched Hp]). rewrite Hj2 in Hl4.
    destruct (alike_failed _ _ _ _ _ Ha Hnext) as [Ha' Hrn].
    assert (Hpol : cfg_RefreshPolicy (doc_Source next) = cfg_RefreshPolicy (doc_Source doc)).
    { apply nextSource_Ok in Hnext as (_ & -> & _). simpl. apply alike_fields in Ha as (_ & _ & _ & _ & _ & _ & _ & _ & <-). done. }
    assert (Href : rp_Enabled (cfg_RefreshPolicy (doc_Source doc)) = true).
    { destruct (sw_sound _ W _ _ Hrow) as (h0 & x & (Hh0 & _ & _ & n0 & Hn0 & Hr0) & Hx & _).
      destruct Hl as (Hh & _ & _ & n & Hn & Hr). assert (h0 = h) as -> by congruence. assert (n0 = n) as -> by congruence.
      by rewrite (source_rev_det _ _ _ _ _ _ Hr Hr0). }
    assert (Hid : md_ResourceID (doc_Metadata next) = id).
    { destruct Hl4 as (_ & _ & _ & n & _ & Hr). apply source_rev_metadata in Hr as (_ & Hr & _). exact Hr. }
    split_and!; [done|destruct K, K1; split; by etrans|congruence|].
    exists h4, (sorted_document next). eexists. split_and!; [congruence|done|done|simpl; lia|..].
    { rewrite Hsched. unfold scheduled. rewrite Hid, Hpol, Href. cbn [orb negb]. by rewrite lookup_insert_eq. }
    + simpl. done.
    + simpl. rewrite Hrow2. simpl. rewrite Hb. by apply nextBackoff_iter.
    + done.
Qed.

(** ** Previews *)




End Facts.

(** ** A sample store of sources *)

Section SampleSources.

(** Documents of both repositories, side by side. *)
Definition source_codec : Codec :=
  {| Bytes := Resource + Document; marshalResource r := Some (inl r);
     DecodeResource p := match p with inl r => Some r | inr _ => None end |}.
#[local] Existing Instance source_codec.
Lemma source_codec_roundtrip : CodecRoundTrip.
Proof. intros r _. by exists (inl r). Qed.

#[local] Instance sample_source_libs : SourceLibs := {|
  source_Parse _ := Some {| su_Opaque := ""; su_Fragment := ""; su_Host := "sub.example"; su_Scheme := "https" |};
  marshalSource d := Some (inr d); unmarshalSource p := match p with inr d => Some d | inl _ => None end;
  byte_count _ := 0 |}.
Lemma sample_source_laws : SourceLaws.
Proof. split; [by intros d p _ _ [= <-]|]. intros d [r|x]; [done|]. by intros [= ->]. Qed.

Definition content_name (p : Bytes) : string :=
  match p with inl r => md_Name (r_Metadata r) | inr d => md_Name (doc_Metadata d) end.
#[local] Instance Context_eq_dec : EqDecision Context_.
Proof. solve_decision. Defined.
#[local] Instance source_vault : Vault (Bytes (Codec:=source_codec)) := {|
  Sealed := Context_ * (Resource + Document); Wrapped := nat * Context_;
  sealed_size := λ _, 1; wrapped_size := λ _, 1;
  vault_Seal n c p := Some ((c, p), (n, c));
  vault_Open c s w := if bool_decide (s.1 = c ∧ w.2 = c) then Some s.2 else None;
  vault_Rewrap n c s w := if bool_decide (s.1 = c ∧ w.2 = c) then Some (n, c) else None;
  vault_Digest purpose p := Some (sample_digest (purpose +:+ content_name p));
  vault_Mac purpose text := Some (sample_digest (purpose +:+ text)) |}.
Lemma source_vault_laws : VaultLaws (Bytes (Codec:=source_codec)).
Proof.
  split; simpl.
  - intros n c p s w [= <- <-]. simpl. by rewrite bool_decide_eq_true_2.
  - intros n c s w w'. destruct (bool_decide_reflect (s.1 = c ∧ w.2 = c)) as [[-> <-]|]; [|done].
    intros [= <-]. simpl. rewrite bool_decide_eq_true_2 by done. by split.
Qed.

Definition source_config (url : string) : Config :=
  {| cfg_SchemaVersion := 1; cfg_URL := url; cfg_Format := Sources.FormatAuto;
     cfg_Auth := {| au_Kind := AuthBearer; au_Token := "token"; au_Username := ""; au_Password := "" |};
     cfg_RefreshPolicy := {| rp_Enabled := true; rp_IntervalSeconds := 3600; rp_CommitMode := Manual; rp_MissingPolicy := Retain |};
     cfg_FetchLimits := {| fl_TimeoutMS := 15000; fl_MaxCompressedBytes := 1024; fl_MaxDecodedBytes := 1024; fl_MaxRedirects := 3 |};
     cfg_BindingRevision := 1; cfg_LastSuccessAt := None; cfg_LastJobID := ""; cfg_LatestPreviewBatchID := "batch";
     cfg_LastError := None |}.
Definition source_mutation (id : ID) (enabled : bool) (url : string) (expected : Z) : SourceMutation :=
  {| sm_ScopeID := "scope"; sm_PrincipalID := "user"; sm_ResourceID := id; sm_RequestID := "req-1"; sm_Name := "feed";
     sm_Tags := ["b"; "a"]; sm_Enabled := enabled; sm_Config := source_config url; sm_ExpectedRevision := expected |}.
Definition source_tables : CatalogDB (Side:=SourceTables) :=
  empty_tables {["scope" := {| so_Name := "s"; so_CatalogRevision := 0; so_AuthEpoch := 1; so_LastTransaction := 0 |}]}
    {[("scope", "user")]} ∅ no_sources.
Definition with_source := (Sources_Create (source_mutation "" true "https://sub.example/a" 0) (sample_cenv 1) source_tables).2.
Definition refresh_job (id : ID) (revision : Z) : RefreshJob :=
  {| rj_ID := id; rj_ScopeID := "scope"; rj_SourceID := "r1-0"; rj_Revision := revision |}.
Definition timed_out : Fetched := {| fr_Status := 0; fr_ContentType := ""; fr_Body := inl (kind_only "" "" "") |}.
Definition failed_once := complete_failed (refresh_job "j1" 1) timed_out "JOB_TIMEOUT" 5000 (sample_cenv 2) with_source.

Lemma source_tables_wf : SourceWf source_tables.
Proof. apply SourceWf_empty. Qed.
Lemma with_source_reachable : rtc source_step source_tables with_source.
Proof. apply rtc_once. eapply (src_create (source_mutation "" true "https://sub.example/a" 0)); [by vm_compute|apply surjective_pairing]. Qed.
Lemma with_source_wf : SourceWf with_source.
Proof.
  exact (@source_reachable_wf _ _ _ _ _ source_vault_laws sample_source_laws source_codec_roundtrip sample_schema_fixed
    _ _ _ _ with_source_reachable).
Qed.

(** A disabled source cannot be deleted: the row's trigger asks for an epoch that the
    code does not advance. *)
Definition with_disabled :=
  (Sources_Update (source_mutation "r1-0" false "https://sub.example/a" 1) (sample_cenv 2) with_source).2.
Example disabled_source_stays :
  (Sources_Delete (source_mutation "r1-0" false "" 2) (sample_cenv 3) with_disabled).1 = Err (Sentinel ErrInvalidInput).
Proof. vm_compute. reflexivity. Qed.
End SampleSources.

(** ** Properties *)

Section Properties.
Context {P : Platform} {C : Codec} {V : Vault Bytes} {T : GoText} {L : SourceLibs}.
Context {VL : VaultLaws Bytes} {SL : SourceLaws} (Hcodec : CodecRoundTrip) (Hschema : SchemaVersionFixed).
Abbreviation DB := (CatalogDB (Side:=SourceTables)).
Implicit Types (e : CEnv) (d : DB).



(** (C22) A deletion that commits takes the source the caller saw out of reach, with its
    schedule and its pending previews, and it was of an enabled source: one that is
    disabled cannot be deleted, whatever revision is named. *)
Theorem deleted_source_was_enabled input e d doc d' :
  SourceWf d → Sources_Delete input e d = (Ok doc, d') →
  let scope := sm_ScopeID input in let id := sm_ResourceID input in
  SourceHead d' scope id = Err (Sentinel ErrNotFound) ∧ st_schedules (dc_side d') !! id = None ∧
  (∀ batch row, st_previews (dc_side d') !! batch = Some row → ready_preview scope id row = false) ∧
  ∃ old, SourceHead d scope id = Ok old ∧ md_Revision (doc_Metadata old) = sm_ExpectedRevision input ∧
    md_Enabled (doc_Metadata old) = true.
Proof.
  intros W H scope id. destruct (Sources_Delete_Ok _ _ _ _ _ W H) as (Hs & Hi & Hn & HC).
  pose proof HC as [W' (old & h & Hold & Happ & Hh & Hsc & Hk & Hrev & Hd & Hra) (Hid & _)
    (h' & Hh' & Hs' & Hk' & Hn' & Hd' & Hr') Ho [K _] Hsched Hprev].
  fold scope id in Hs, Hi, Hold, Hh, Hsc, Hid, Hh', Hs', Hr', Ho, Hsched, Hprev. split_and!.
  - unfold SourceHead. rewrite Hs, Hi. cbn [negb andb]. rewrite (proj2 (GetResourceIndex_Some d' scope id h')) by done.
    by rewrite Hd', bool_decide_eq_true_2 by by eexists.
  - rewrite Hsched. unfold scheduled. cbv zeta. rewrite Hid. cbn [orb]. by rewrite lookup_delete_eq.
  - intros batch row. rewrite Hprev. unfold superseded. rewrite lookup_fmap.
    destruct (st_previews (dc_side d) !! batch) as [row0|]; [|done]. simpl. intros [= <-].
    destruct (ready_preview scope id row0) eqn:E; [|done]. unfold ready_preview, supersede. simpl. by rewrite !andb_false_r.
  - exists old. split_and!; [|by apply source_rev_metadata in Hold as (_ & _ & ? & _)|].
    { apply SourceHead_live; [done..|]. exists h. split; [done|]. split_and!; try done. eexists. rewrite Hsc. by split. }
    destruct (sw_stored _ _ _ _ _ W Hold) as (_ & _ & h0 & Hh0 & _ & _ & Hidx).
    assert (h0 = h) as -> by congruence. destruct (Hidx Hrev) as (_ & _ & Hep).
    unfold delete_apply in Happ. apply nextSource_Ok in Happ as (_ & _ & _ & _ & Hen & Hepoch).
    rewrite String.eqb_refl, bool_decide_eq_true_2 in Hepoch by done. cbn [negb orb] in Hepoch. rewrite orb_false_r, andb_true_r in Hepoch.
    unfold resource_advance in Hra. rewrite !andb_true_iff in Hra. destruct Hra as [_ Hra].
    rewrite (bool_decide_eq_true_2 (is_Some (Some (ce_now e)))), orb_true_r, negb_true_iff in Hra by by eexists. cbn [andb] in Hra.
    apply negb_false_iff, Z.eqb_eq in Hra. destruct (md_Enabled (doc_Metadata old)); [done|simpl in Hepoch; lia].
Qed.

(** (C23) Failed refreshes back off: after [k] of them in a row on a source that was
    scheduled afresh, it is still scheduled, the backoff is a minute doubled [k] times up
    to the interval of its policy, and the next run is that long after the last failure. *)
Theorem failed_refreshes_back_off scope id k now d d' h doc row :
  SourceWf d → he_ScopeID h = scope → live_source d id h doc → st_schedules (dc_side d) !! id = Some row →
  sc_BackoffSeconds row = 60 → failures scope id k now d d' →
  ∃ row', st_schedules (dc_side d') !! id = Some row' ∧ sc_ScopeID row' = scope ∧
    sc_BackoffSeconds row' = Z.min (60 * 2 ^ Z.of_nat k) (rp_IntervalSeconds (cfg_RefreshPolicy (doc_Source doc))) ∧
    (k ≠ 0%nat → sc_NextRunAt row' = now + 1000000 * sc_BackoffSeconds row').
Proof.
  intros W Hs Hl Hrow H60 HF.
  destruct (failures_Ok scope id k now d d' h doc row W Hs Hl Hrow H60 HF) as (_ & _ & _ & h' & doc' & row' & H1 & H2 & H3 & H4 & H5 & H6 & H7 & H8).
  by exists row'.
Qed.

End Properties.

(** ** Witnesses *)

Section Witnesses.
#[local] Existing Instance source_codec.
#[local] Existing Instance sample_source_libs.
#[local] Existing Instance source_vault.
#[local] Existing Instance source_vault_laws.
#[local] Existing Instance sample_source_laws.

(** Equality of stored texts. *)
#[local] Instance Origin_eq : EqDecision Origin. Proof. solve_decision. Defined.
#[local] Instance Node_eq : EqDecision Node. Proof. solve_decision. Defined.
#[local] Instance Metadata_eq : EqDecision Metadata. Proof. solve_decision. Defined.
#[local] Instance NodeRef_eq : EqDecision NodeRef. Proof. solve_decision. Defined.
#[local] Instance Chain_eq : EqDecision Chain. Proof. solve_decision. Defined.
#[local] Instance PolicyGroup_eq : EqDecision PolicyGroup. Proof. solve_decision. Defined.
#[local] Instance DomainMatch_eq : EqDecision DomainMatch. Proof. solve_decision. Defined.
#[local] Instance RouteMatch_eq : EqDecision RouteMatch. Proof. solve_decision. Defined.
#[local] Instance RoutingRule_eq : EqDecision RoutingRule. Proof. solve_decision. Defined.
#[local] Instance RoutingProfile_eq : EqDecision RoutingProfile. Proof. solve_decision. Defined.
#[local] Instance RuleSetWrite_eq : EqDecision RuleSetWrite. Proof. solve_decision. Defined.
#[local] Instance RuleSet_eq : EqDecision RuleSet. Proof. solve_decision. Defined.
#[local] Instance BootstrapResolver_eq : EqDecision BootstrapResolver. Proof. solve_decision. Defined.
#[local] Instance DNSResolver_eq : EqDecision DNSResolver. Proof. solve_decision. Defined.
#[local] Instance DNSRule_eq : EqDecision DNSRule. Proof. solve_decision. Defined.
#[local] Instance DNSProfile_eq : EqDecision DNSProfile. Proof. solve_decision. Defined.
#[local] Instance LocalListener_eq : EqDecision LocalListener. Proof. solve_decision. Defined.
#[local] Instance ControlAPIPreset_eq : EqDecision ControlAPIPreset. Proof. solve_decision. Defined.
#[local] Instance ClientPreset_eq : EqDecision ClientPreset. Proof. solve_decision. Defined.
#[local] Instance TagSelector_eq : EqDecision TagSelector. Proof. solve_decision. Defined.
#[local] Instance SubscriptionMembers_eq : EqDecision SubscriptionMembers. Proof. solve_decision. Defined.
#[local] Instance ClientParameters_eq : EqDecision ClientParameters. Proof. solve_decision. Defined.
#[local] Instance SubscriptionTarget_eq : EqDecision SubscriptionTarget. Proof. solve_decision. Defined.
#[local] Instance SubscriptionProfile_eq : EqDecision SubscriptionProfile. Proof. solve_decision. Defined.
#[local] Instance ResourcePayload_eq : EqDecision ResourcePayload. Proof. solve_decision. Defined.
#[local] Instance Resource_eq : EqDecision Resource. Proof. solve_decision. Defined.
#[local] Instance RefreshPolicy_eq : EqDecision RefreshPolicy. Proof. solve_decision. Defined.
#[local] Instance FetchLimits_eq : EqDecision FetchLimits. Proof. solve_decision. Defined.
#[local] Instance Config_eq : EqDecision Config. Proof. solve_decision. Defined.
#[local] Instance Document_eq : EqDecision Document. Proof. solve_decision. Defined.
#[local] Instance source_bytes_eq : EqDecision (Bytes (Codec:=source_codec)). Proof. exact (@sum_eq_dec Resource Resource_eq Document Document_eq). Defined.

(** The sample source with its schedule. *)
Lemma sample_source_live : ∃ h doc row, he_ScopeID h = "scope" ∧ live_source with_source "r1-0" h doc ∧
  md_Revision (doc_Metadata doc) = 1 ∧ cfg_LatestPreviewBatchID (doc_Source doc) = "batch" ∧
  rp_IntervalSeconds (cfg_RefreshPolicy (doc_Source doc)) = 3600 ∧
  st_schedules (dc_side with_source) !! "r1-0" = Some row ∧ sc_BackoffSeconds row = 60.
Proof.
  assert (Hok : match SourceHead with_source "scope" "r1-0", st_schedules (dc_side with_source) !! "r1-0" with
    | Ok doc, Some row => (md_Revision (doc_Metadata doc) =? 1) && (cfg_LatestPreviewBatchID (doc_Source doc) =s "batch")
        && (rp_IntervalSeconds (cfg_RefreshPolicy (doc_Source doc)) =? 3600) && (sc_BackoffSeconds row =? 60)
    | _, _ => false end = true) by (vm_compute; reflexivity).
  destruct (SourceHead with_source "scope" "r1-0") as [doc|err] eqn:E1; [|discriminate Hok].
  destruct (st_schedules (dc_side with_source) !! "r1-0") as [row|] eqn:E2; [|discriminate Hok].
  rewrite !andb_true_iff, !Z.eqb_eq, String.eqb_eq in Hok. destruct Hok as [[[H1 H2] H3] H4].
  apply SourceHead_live in E1 as (h & Hs & Hl); [|vm_compute; reflexivity..]. exists h, doc, row. by split_and!.
Qed.



Lemma deleted_source_was_enabled_witness :
  ∃ doc d', Sources_Delete (source_mutation "r1-0" true "" 1) (sample_cenv 2) with_source = (Ok doc, d') ∧
    SourceHead d' "scope" "r1-0" = Err (Sentinel ErrNotFound).
Proof.
  assert (Hok : is_ok (Sources_Delete (source_mutation "r1-0" true "" 1) (sample_cenv 2) with_source).1 = true)
    by (vm_compute; reflexivity).
  destruct (Sources_Delete (source_mutation "r1-0" true "" 1) (sample_cenv 2) with_source) as [[doc|err] d'] eqn:E; [|discriminate Hok].
  exists doc, d'. split; [reflexivity|].
  destruct (deleted_source_was_enabled _ _ _ _ _ with_source_wf E) as [H _]. exact H.
Defined.

(** One failure of the sample source. *)
Lemma sample_failure : ∃ d', failures "scope" "r1-0" 1 5000 with_source d'.
Proof.
  destruct sample_source_live as (h & doc & row & Hs & Hl & Hn & _).
  assert (Hok : is_ok failed_once = true) by (vm_compute; reflexivity).
  destruct failed_once as [d'|err] eqn:E; [|discriminate Hok]. exists d'.
  apply (failures_S "scope" "r1-0" 0 0 5000 with_source with_source d' (refresh_job "j1" 1) timed_out "JOB_TIMEOUT" (sample_cenv 2) h doc);
    [constructor|reflexivity|reflexivity|vm_compute; reflexivity|exact Hl|exact Hn|exact E].
Qed.

Lemma failed_refreshes_back_off_witness :
  ∃ d' row', failures "scope" "r1-0" 1 5000 with_source d' ∧ st_schedules (dc_side d') !! "r1-0" = Some row' ∧
    sc_BackoffSeconds row' = 120 ∧ sc_NextRunAt row' = 120005000.
Proof.
  destruct sample_failure as [d' HF]. destruct sample_source_live as (h & doc & row & Hs & Hl & _ & _ & Hi & Hrow & H60).
  destruct (failed_refreshes_back_off "scope" "r1-0" 1 5000 with_source d' h doc row with_source_wf Hs Hl Hrow H60 HF)
    as (row' & H1 & _ & H2 & H3).
  exists d', row'. rewrite Hi in H2. split; [exact HF|]. split; [exact H1|]. split; [rewrite H2; reflexivity|].
  rewrite (H3 ltac:(discriminate)), H2. reflexivity.
Defined.

End Witnesses.
