(* ===== verification/FetchTheorems.v ===== *)
(** Guarded fetching: the blocked addresses are the documented ranges, and what a fetch
    dials, sends, follows and returns, over a network that answers as it likes. *)
From stdpp Require Import list strings.
From S2P Require Import Prelude Diagnostics Network URLText SafeFetch Sample.

(** ** What the documentation lists *)

(** The prefixes of the blocked ranges, of 32 bits and of 128. *)
Definition quad (a b c d : Z) : Z := ((a * 256 + b) * 256 + c) * 256 + d.
Definition blocked4 : list (Z * Z) :=
  [(quad 0 0 0 0, 8); (quad 10 0 0 0, 8); (quad 100 64 0 0, 10); (quad 127 0 0 0, 8);
   (quad 169 254 0 0, 16); (quad 172 16 0 0, 12); (quad 192 0 0 0, 24); (quad 192 168 0 0, 16);
   (quad 224 0 0 0, 4); (quad 240 0 0 0, 4)].
Definition doc6 : Z := words [0x2001; 0xdb8; 0; 0; 0; 0; 0; 0].
Definition blocked6 : list (Z * Z) :=
  [(0, 128); (1, 128); (words [0xfc00; 0; 0; 0; 0; 0; 0; 0], 7); (words [0xfe80; 0; 0; 0; 0; 0; 0; 0], 10);
   (words [0xff00; 0; 0; 0; 0; 0; 0; 0], 8); (doc6, 32); (words [0xfd00; 0xec2; 0; 0; 0; 0; 0; 0x254], 128)].
Definition covers (width a : Z) (p : Z * Z) : bool :=
  a / 2 ^ (width - p.2) =? p.1 / 2 ^ (width - p.2).

(** The addresses that the documentation says are never dialed. *)
Definition protected (ip : IP) : bool :=
  match Unmap ip with
  | NoIP => true
  | V4 a => existsb (covers 32 a) blocked4
  | V6 a _ => existsb (covers 128 a) blocked6
  end.
(** The two kinds of address whose zone hides them. *)
Definition hidden_by_zone (ip : IP) : bool :=
  match Unmap ip with
  | V6 a zone => negb (zone =s "") && ((a =? 0) || covers 128 a (doc6, 32))
  | _ => false
  end.
Definition ip_wf (ip : IP) : Prop :=
  match ip with NoIP => True | V4 a => 0 ≤ a < 2 ^ 32 | V6 a _ => 0 ≤ a < 2 ^ 128 end.

Lemma low_byte n : Z.land n 255 = n mod 256.
Proof. apply (Z.land_ones n 8). lia. Qed.
Lemma low_word n : Z.land n 65535 = n mod 65536.
Proof. apply (Z.land_ones n 16). lia. Qed.

Lemma below_all (f : Z → bool) m n : forallb f (seqZ 0 m) = true → 0 ≤ n < m → f n = true.
Proof. rewrite forallb_forall. intros H Hn. apply H, list_elem_of_In, elem_of_seqZ. lia. Qed.

Ltac div_lia := Z.to_euclidean_division_equations; lia.
(** Equality of booleans as equivalence, with comparisons as such. *)
Ltac bool_lia :=
  apply eq_true_iff_eq; rewrite ?orb_true_iff, ?andb_true_iff, ?orb_true_iff, ?andb_true_iff,
    ?Z.eqb_eq, ?Z.leb_le; div_lia.

Lemma quad_split a : 0 ≤ a < 2 ^ 32 → ∃ o0 o1 o2 o3, a = quad o0 o1 o2 o3 ∧
  0 ≤ o0 < 256 ∧ 0 ≤ o1 < 256 ∧ 0 ≤ o2 < 256 ∧ 0 ≤ o3 < 256.
Proof.
  change (2 ^ 32) with 4294967296. intros Ha. exists (a / 256 / 256 / 256), (a / 256 / 256 mod 256), (a / 256 mod 256), (a mod 256).
  unfold quad. split_and!; div_lia.
Qed.

Section Quad.
Context (o0 o1 o2 o3 : Z) (H0 : 0 ≤ o0 < 256) (H1 : 0 ≤ o1 < 256) (H2 : 0 ≤ o2 < 256) (H3 : 0 ≤ o3 < 256).

Lemma quad_octets : octet4 0 (quad o0 o1 o2 o3) = o0 ∧ octet4 1 (quad o0 o1 o2 o3) = o1 ∧ octet4 2 (quad o0 o1 o2 o3) = o2.
Proof. unfold octet4, quad. rewrite !low_byte, !Z.shiftr_div_pow2 by lia. split_and!; div_lia. Qed.

(** A prefix of one, two or three bytes, and one that ends within a byte. *)
Lemma covers_8 c0 c1 c2 c3 : 0 ≤ c1 < 256 → 0 ≤ c2 < 256 → 0 ≤ c3 < 256 →
  covers 32 (quad o0 o1 o2 o3) (quad c0 c1 c2 c3, 8) = (o0 =? c0).
Proof. intros. unfold covers, quad. cbn [fst snd]. change (2 ^ (32 - 8)) with 16777216. bool_lia. Qed.
Lemma covers_4 c0 : covers 32 (quad o0 o1 o2 o3) (quad c0 0 0 0, 4) = (o0 / 16 =? c0 / 16).
Proof. intros. unfold covers, quad. cbn [fst snd]. change (2 ^ (32 - 4)) with 268435456. bool_lia. Qed.
Lemma covers_16 c0 c1 : 0 ≤ c1 < 256 →
  covers 32 (quad o0 o1 o2 o3) (quad c0 c1 0 0, 16) = (o0 =? c0) && (o1 =? c1).
Proof. intros. unfold covers, quad. cbn [fst snd]. change (2 ^ (32 - 16)) with 65536. bool_lia. Qed.
Lemma covers_24 c0 c1 c2 : 0 ≤ c1 < 256 → 0 ≤ c2 < 256 →
  covers 32 (quad o0 o1 o2 o3) (quad c0 c1 c2 0, 24) = (o0 =? c0) && (o1 =? c1) && (o2 =? c2).
Proof. intros. unfold covers, quad. cbn [fst snd]. change (2 ^ (32 - 24)) with 256. bool_lia. Qed.
Lemma covers_10 c0 c1 : 0 ≤ c1 < 256 →
  covers 32 (quad o0 o1 o2 o3) (quad c0 c1 0 0, 10) = (o0 =? c0) && (o1 / 64 =? c1 / 64).
Proof. intros. unfold covers, quad. cbn [fst snd]. change (2 ^ (32 - 10)) with 4194304. bool_lia. Qed.
Lemma covers_12 c0 c1 : 0 ≤ c1 < 256 →
  covers 32 (quad o0 o1 o2 o3) (quad c0 c1 0 0, 12) = (o0 =? c0) && (o1 / 16 =? c1 / 16).
Proof. intros. unfold covers, quad. cbn [fst snd]. change (2 ^ (32 - 12)) with 1048576. bool_lia. Qed.
End Quad.

Lemma high_nibble o c : 0 ≤ o < 256 → c mod 16 = 0 → (Z.land o 240 =? c) = (o / 16 =? c / 16).
Proof.
  intros Ho Hc. assert (E : Z.land o 240 = 16 * (o / 16)); [|rewrite E; bool_lia].
  apply Z.eqb_eq. revert Ho. apply (below_all (λ o, Z.land o 240 =? 16 * (o / 16))). vm_compute. reflexivity.
Qed.

Lemma high_five o : 0 ≤ o < 256 → (240 <=? o) = (o / 16 =? 240 / 16).
Proof. intros. bool_lia. Qed.
Lemma second_quarter b o : 0 ≤ o < 256 → b && (64 <=? o) && (o <=? 127) = b && (o / 64 =? 64 / 64).
Proof. intros. rewrite <-andb_assoc. f_equal. bool_lia. Qed.

Lemma blocked_v4 a : 0 ≤ a < 2 ^ 32 → blocked (V4 a) = existsb (covers 32 a) blocked4.
Proof.
  intros (o0 & o1 & o2 & o3 & -> & H0 & H1 & H2 & H3)%quad_split.
  destruct (quad_octets o0 o1 o2 o3 H0 H1 H2 H3) as (E0 & E1 & E2).
  unfold blocked, IsValid, IsUnspecified, IsLoopback, IsPrivate, IsMulticast, IsLinkLocalUnicast,
    IsLinkLocalMulticast, IsInterfaceLocalMulticast. cbn [Unmap]. rewrite E0, E1, E2.
  unfold blocked4. cbn [existsb]. rewrite !covers_8, !covers_4, !covers_16, covers_24, covers_10, covers_12 by lia.
  rewrite !high_nibble by done.
  assert (Hz : bool_decide (V4 (quad o0 o1 o2 o3) = V4 0) = (o0 =? 0) && (o1 =? 0) && (o2 =? 0) && (o3 =? 0)).
  { apply eq_true_iff_eq. rewrite bool_decide_eq_true, !andb_true_iff, !Z.eqb_eq. unfold quad.
    split; [intros [= E]; lia|intros [[[-> ->] ->] ->]; done]. }
  rewrite Hz, (bool_decide_eq_false_2 (V4 _ = V6 0 "")), (bool_decide_eq_false_2 (V4 _ = NoIP)) by done.
  cbn [negb orb].
  match goal with |- (if ?b then true else ?c) = _ => transitivity (b || c); [by destruct b|] end.
  rewrite (high_five o0), (second_quarter _ o1) by done. apply eq_true_iff_eq.
  rewrite !orb_true_iff, !andb_true_iff, !Z.eqb_eq.
  split; intros H; repeat match goal with H : _ ∨ _ |- _ => destruct H | H : _ ∧ _ |- _ => destruct H end; subst;
    try discriminate; tauto.
Qed.

(** The first word of an address of 128 bits, and prefixes that end in it. *)
Definition high (a : Z) : Z := a / 2 ^ 112.
Lemma high_range a : 0 ≤ a < 2 ^ 128 → 0 ≤ high a < 65536.
Proof. unfold high. change (2 ^ 128) with (2 ^ 112 * 65536). intros []. split; [apply Z.div_pos; lia|by apply Z.div_lt_upper_bound]. Qed.
Lemma word6_high a : 0 ≤ a < 2 ^ 128 → word6 0 a = high a.
Proof.
  intros Ha%high_range. unfold word6. rewrite low_word, Z.shiftr_div_pow2 by lia. change (112 - 16 * 0) with 112.
  fold (high a). by rewrite Z.mod_small.
Qed.
Lemma octet6_high a : 0 ≤ a < 2 ^ 128 → octet6 0 a = high a / 256.
Proof.
  intros Ha%high_range. unfold octet6. rewrite low_byte, Z.shiftr_div_pow2 by lia.
  change (2 ^ (120 - 8 * 0)) with (2 ^ 112 * 256). rewrite <-Z.div_div by lia. fold (high a).
  rewrite Z.mod_small; [done|div_lia].
Qed.
Lemma covers_high a c n : 0 ≤ n ≤ 16 →
  covers 128 a (c * 2 ^ 112, n) = (high a / 2 ^ (16 - n) =? c / 2 ^ (16 - n)).
Proof.
  intros Hn. unfold covers. cbn [fst snd]. replace (128 - n) with (112 + (16 - n)) by lia.
  by rewrite Z.pow_add_r, <-!Z.div_div, Z.div_mul by lia.
Qed.
Lemma covers_128 a c : covers 128 a (c, 128) = (a =? c).
Proof. unfold covers. cbn [fst snd]. change (128 - 128) with 0. by rewrite !Z.div_1_r. Qed.

Lemma below_65536 (f : Z → bool) h :
  forallb (λ x, forallb (λ y, f (256 * x + y)) (seqZ 0 256)) (seqZ 0 256) = true → 0 ≤ h < 65536 → f h = true.
Proof.
  intros H Hh. rewrite (Z.div_mod h 256) by done.
  apply (below_all (λ y, f (256 * (h / 256) + y)) 256); [|by apply Z.mod_pos_bound].
  apply (below_all (λ x, forallb (λ y, f (256 * x + y)) (seqZ 0 256)) 256); [done|div_lia].
Qed.
Lemma link_local6 h : 0 ≤ h < 65536 → (Z.land h 65472 =? 65152) = (h / 64 =? 1018).
Proof.
  intros Hh. apply Bool.eqb_prop. revert Hh.
  apply (below_65536 (λ h, Bool.eqb (Z.land h 65472 =? 65152) (h / 64 =? 1018))). vm_compute. reflexivity.
Qed.
Lemma unique_local6 h : 0 ≤ h < 65536 → (Z.land (h / 256) 254 =? 252) = (h / 512 =? 126).
Proof.
  intros Hh. apply Bool.eqb_prop. revert Hh.
  apply (below_65536 (λ h, Bool.eqb (Z.land (h / 256) 254 =? 252) (h / 512 =? 126))). vm_compute. reflexivity.
Qed.
(** The two multicast scopes are within [ff00::/8]. *)
Lemma multicast6 h : 0 ≤ h < 65536 →
  (h / 256 =? 255) || (Z.land h 65295 =? 65282) || (Z.land h 65295 =? 65281) = (h / 256 =? 255).
Proof.
  intros Hh. apply Bool.eqb_prop. revert Hh.
  apply (below_65536 (λ h, Bool.eqb ((h / 256 =? 255) || (Z.land h 65295 =? 65282) || (Z.land h 65295 =? 65281)) (h / 256 =? 255))).
  vm_compute. reflexivity.
Qed.

Lemma Prefix_Contains_covers a b n zone : 0 ≤ n ≤ 128 →
  Prefix_Contains {| ipp_Addr := V6 b ""; ipp_Bits := n |} (V6 a zone) = (zone =s "") && covers 128 a (b, n).
Proof.
  intros Hn. unfold Prefix_Contains, covers. cbn [ipp_Addr ipp_Bits fst snd]. f_equal.
  rewrite Z.shiftr_lxor, !Z.shiftr_div_pow2 by lia. apply eq_true_iff_eq. rewrite !Z.eqb_eq. apply Z.lxor_eq_0_iff.
Qed.

(** Neither the unspecified address nor a documentation address is in another range. *)
Lemma low_or_documentation a : (a =? 0) || covers 128 a (doc6, 32) = false ∨
  (a =? 1) = false ∧ (high a / 512 =? 126) = false ∧ (high a / 256 =? 255) = false ∧ (high a / 64 =? 1018) = false.
Proof.
  destruct (Z.eqb_spec a 0) as [->|_]; [right; by vm_compute|]. destruct (covers 128 a (doc6, 32)) eqn:E; [|by left]. right.
  assert (E1 : (a =? 1) = false) by (destruct (Z.eqb_spec a 1) as [->|]; [by vm_compute in E|done]).
  unfold covers in E. cbn [fst snd] in E. apply Z.eqb_eq in E. change (doc6 / 2 ^ (128 - 32)) with (8193 * 65536 + 3512) in E.
  assert (Eh : high a = 8193).
  { unfold high. change (2 ^ 112) with (2 ^ (128 - 32) * 65536). rewrite <-Z.div_div, E by done. reflexivity. }
  by rewrite Eh.
Qed.

Lemma blocked_v6 a zone : 0 ≤ a < 2 ^ 128 → Is4In6 a = false →
  blocked (V6 a zone) = existsb (covers 128 a) blocked6 && negb (hidden_by_zone (V6 a zone)).
Proof.
  intros Ha Hm. assert (Hh := high_range a Ha).
  unfold blocked, hidden_by_zone, IsValid, IsUnspecified, IsLoopback, IsPrivate, IsMulticast, IsLinkLocalUnicast,
    IsLinkLocalMulticast, IsInterfaceLocalMulticast. cbn [Unmap]. rewrite !Hm. cbn [Unmap]. rewrite !Hm.
  rewrite octet6_high, word6_high, link_local6, unique_local6 by done.
  unfold documentation6. change (words [0x2001; 0xdb8; 0; 0; 0; 0; 0; 0]) with doc6.
  rewrite Prefix_Contains_covers by lia. unfold blocked6. cbn [existsb]. change (words [0xfd00; 0xec2; 0; 0; 0; 0; 0; 0x254]) with aws6.
  change (words [0xfc00; 0; 0; 0; 0; 0; 0; 0]) with (64512 * 2 ^ 112).
  change (words [0xfe80; 0; 0; 0; 0; 0; 0; 0]) with (65152 * 2 ^ 112).
  change (words [0xff00; 0; 0; 0; 0; 0; 0; 0]) with (65280 * 2 ^ 112).
  rewrite !covers_128, !covers_high by lia.
  change (64512 / 2 ^ (16 - 7)) with 126. change (2 ^ (16 - 7)) with 512.
  change (65152 / 2 ^ (16 - 10)) with 1018. change (2 ^ (16 - 10)) with 64.
  change (65280 / 2 ^ (16 - 8)) with 255. change (2 ^ (16 - 8)) with 256.
  rewrite (bool_decide_eq_false_2 (V6 a zone = NoIP)), (bool_decide_eq_false_2 (V6 a zone = V4 0)) by done.
  assert (Hmult := multicast6 (high a) Hh).
  assert (Haws : (a =? aws6) = true → (high a / 512 =? 126) = true)
    by (intros ->%Z.eqb_eq; reflexivity).
  assert (Hz : bool_decide (V6 a zone = V6 0 "") = (a =? 0) && (zone =s "")).
  { apply eq_true_iff_eq. rewrite bool_decide_eq_true, andb_true_iff, Z.eqb_eq, String.eqb_eq. naive_solver. }
  assert (Hb : bool_decide (V6 a zone = awsMetadata6) = true → (a =? aws6) = true).
  { rewrite bool_decide_eq_true. intros [= -> _]. reflexivity. }
  destruct (low_or_documentation a) as [E|(E1 & E2 & E3 & E4)]; rewrite Hz.
  - rewrite E. apply orb_false_iff in E as [E1 E2]. rewrite E1, E2, !andb_false_r.
    destruct (a =? 1), (high a / 512 =? 126), (high a / 256 =? 255), (high a / 64 =? 1018),
      (Z.land (high a) 65295 =? 65282), (Z.land (high a) 65295 =? 65281), (bool_decide (V6 a zone = awsMetadata6)),
      (a =? aws6); naive_solver.
  - rewrite E1, E2, E3, E4 in *. destruct (a =? 0), (covers 128 a (doc6, 32)), (zone =s ""),
      (Z.land (high a) 65295 =? 65282), (Z.land (high a) 65295 =? 65281), (bool_decide (V6 a zone = awsMetadata6)),
      (a =? aws6); naive_solver.
Qed.

(** An address is blocked exactly when it is in a documented range and no zone hides it. *)
Lemma blocked_protected ip : ip_wf ip → blocked ip = protected ip && negb (hidden_by_zone ip).
Proof.
  intros Hw. destruct ip as [|a|a zone]; [done| |].
  - unfold protected, hidden_by_zone. cbn [Unmap]. by rewrite blocked_v4, andb_true_r.
  - destruct (Is4In6 a) eqn:E; [|by unfold protected; cbn [Unmap]; rewrite E; apply blocked_v6].
    unfold blocked, protected, hidden_by_zone. cbn [Unmap]. rewrite E, andb_true_r.
    rewrite <-blocked_v4; [done|]. change 4294967295 with (Z.ones 32). rewrite Z.land_ones by lia. by apply Z.mod_pos_bound.
Qed.

(** ** Runs *)

Section Facts.
Context {L : FetchLibs} {W : World} {T : GoText}.

Lemma net_bind_inv {A B} (m : Net A) (k : A → Net B) tr r tr' : (m ≫= k) tr = (r, tr') →
  (∃ a tr1, m tr = (Some (Ok a), tr1) ∧ k a tr1 = (r, tr')) ∨
  (∃ err, m tr = (Some (Err err), tr') ∧ r = Some (Err err)) ∨ (m tr = (None, tr') ∧ r = None).
Proof. unfold mbind, Net_bind. destruct (m tr) as [[[a|err]|] tr1]; naive_solver. Qed.

(** *** Which connections a run makes *)

(** The answer for a host at some moment, and the step that asked for it. *)
Definition resolved (tr : list Event) (host : string) (ips : list IP) (looked : list Event) : Prop :=
  (∃ ip, ParseIP host = Some ip ∧ ips = [ip] ∧ looked = []) ∨
  (ParseIP host = None ∧ LookupNetIP tr host = Ok ips ∧ looked = [Looked host]).
(** A dial is to an unmapped address that is permitted. A request goes over the last
    connection made, to an address that its own host resolved to just before. *)
Definition event_ok (c : Client) (tr : list Event) (ev : Event) : Prop :=
  match ev with
  | Looked _ => True
  | Dialed ip _ => Unmap ip = ip ∧ permitted (Some c) ip = true
  | Sent ip hop => ∃ h looked dials host port ips, tr = h ++ looked ++ dials ++ [Dialed ip port] ∧
      SplitHostPort (canonicalAddr (hp_URL hop)) = Some (host, port) ∧ resolved h host ips looked ∧
      ip ∈ Unmap <$> ips ∧ Connects (h ++ looked ++ dials) ip port = true
  end.
Definition guarded (c : Client) (tr new : list Event) : Prop :=
  ∀ pre ev post, new = pre ++ ev :: post → event_ok c (tr ++ pre) ev.

Lemma guarded_nil c tr : guarded c tr [].
Proof. by intros [|??] ?? ?. Qed.
Lemma guarded_one c tr ev : event_ok c tr ev → guarded c tr [ev].
Proof. intros H [|x pre] ev' post [= ? E]; subst; [by rewrite app_nil_r|by destruct pre]. Qed.
Lemma guarded_app c tr a b : guarded c tr a → guarded c (tr ++ a) b → guarded c tr (a ++ b).
Proof.
  intros Ha Hb pre ev post E. apply app_eq_app in E as [l [[-> Hl]|[-> Hl]]].
  - destruct l as [|x l]; simplify_list_eq.
    + rewrite <-(app_nil_r (tr ++ pre)). by apply (Hb [] _ post).
    + by apply (Ha pre _ l).
  - rewrite app_assoc. by apply (Hb l ev post).
Qed.

(** The requests of a run. *)
Definition sent (tr : list Event) : list Hop := omap (λ ev, match ev with Sent _ hop => Some hop | _ => None end) tr.
Lemma sent_app a b : sent (a ++ b) = sent a ++ sent b.
Proof. apply omap_app. Qed.
Lemma sent_dials dials port (ips : list IP) : (∀ ev, ev ∈ dials → ∃ ip, ev = Dialed ip port ∧ ip ∈ ips) → sent dials = [].
Proof.
  induction dials as [|ev dials IH]; intros H; [done|]. destruct (H ev) as (ip & -> & _); [constructor|].
  apply IH. intros ev' Hev. apply H. by constructor.
Qed.
Lemma sent_looked tr host ips looked : resolved tr host ips looked → sent looked = [].
Proof. by intros [(ip & _ & _ & ->)|(_ & _ & ->)]. Qed.

Lemma Unmap_idemp ip : Unmap (Unmap ip) = Unmap ip.
Proof. destruct ip as [| |a zone]; [reflexivity..|]. unfold Unmap. destruct (Is4In6 a) eqn:E; [|rewrite E]; reflexivity. Qed.
Lemma permitted_Unmap c ip : permitted c (Unmap ip) = permitted c ip.
Proof. unfold permitted. cbv zeta. by rewrite Unmap_idemp. Qed.

Lemma Client_lookup_run host tr r tr' : Client_lookup host tr = (r, tr') →
  match r with
  | Some (Ok ips) => ∃ looked, tr' = tr ++ looked ∧ resolved tr host ips looked
  | Some (Err _) => tr' = tr ++ [Looked host]
  | None => False
  end.
Proof.
  unfold Client_lookup. destruct (ParseIP host) as [ip|] eqn:E.
  - intros [= <- <-]. exists []. rewrite app_nil_r. split; [done|]. left. by exists ip.
  - unfold mbind, Net_bind, step. destruct (LookupNetIP tr host) as [[|ip ips]|err] eqn:El; intros [= <- <-]; [done| |done].
    exists [Looked host]. split; [done|by right].
Qed.
Lemma dial_run ips port tr r tr' : dial ips port tr = (r, tr') →
  ∃ dials, tr' = tr ++ dials ∧ (∀ ev, ev ∈ dials → ∃ ip, ev = Dialed ip port ∧ ip ∈ ips) ∧
  match r with
  | Some (Ok ip) => ∃ before, dials = before ++ [Dialed ip port] ∧ ip ∈ ips ∧ Connects (tr ++ before) ip port = true
  | Some (Err _) => True
  | None => False
  end.
Proof.
  revert tr. induction ips as [|ip ips IH]; intros tr; simpl.
  - intros [= <- <-]. exists []. rewrite app_nil_r. split_and!; [done|by intros ? ?%elem_of_nil|done].
  - unfold mbind, Net_bind, step. destruct (Connects tr ip port) eqn:E; intros H.
    + injection H as <- <-. exists [Dialed ip port]. split_and!; [done| |].
      * intros ev ->%list_elem_of_singleton. exists ip. split; [done|constructor].
      * exists []. rewrite app_nil_r. split_and!; [done|constructor|done].
    + apply IH in H as (dials & -> & Hd & Hr). exists (Dialed ip port :: dials). split_and!.
      * by rewrite <-app_assoc.
      * intros ev [->|Hev]%elem_of_cons; [by exists ip; repeat constructor|].
        destruct (Hd _ Hev) as (ip' & -> & Hin). exists ip'. split; [done|by constructor].
      * destruct r as [[ip'|]|]; [|done..]. destruct Hr as (before & -> & Hin & HC).
        exists (Dialed ip port :: before). rewrite <-app_assoc in HC. split_and!; [done|by constructor|done].
Qed.

Lemma dialContext_run c address tr r tr' : dialContext (Some c) address tr = (r, tr') →
  ∃ new, tr' = tr ++ new ∧ guarded c tr new ∧ sent new = [] ∧
  match r with
  | Some (Ok ip) => ∃ looked dials host port ips, new = looked ++ dials ++ [Dialed ip port] ∧
      SplitHostPort address = Some (host, port) ∧ resolved tr host ips looked ∧ ip ∈ Unmap <$> ips ∧
      Connects (tr ++ looked ++ dials) ip port = true
  | Some (Err _) => True
  | None => False
  end.
Proof.
  unfold dialContext. intros H.
  assert (Hnil : ∀ err, (Some (Err err : result FetchError IP), tr) = (r, tr') →
    ∃ new, tr' = tr ++ new ∧ guarded c tr new ∧ sent new = [] ∧ r = Some (Err err)).
  { intros err [= <- <-]. exists []. rewrite app_nil_r. split_and!; [done|apply guarded_nil|done..]. }
  destruct (SplitHostPort address) as [[host port]|] eqn:Es;
    [|destruct (Hnil _ H) as (new & ? & ? & ? & ->); by exists new].
  destruct ((host =s "") || (port =s "")); [destruct (Hnil _ H) as (new & ? & ? & ? & ->); by exists new|].
  apply net_bind_inv in H as [(ips & tr1 & H1%Client_lookup_run & H2)|[(err & H1%Client_lookup_run & ->)|[H1%Client_lookup_run _]]]; [| |done].
  - destruct H1 as (looked & -> & Hres).
    assert (Hl : guarded c tr looked).
    { destruct Hres as [(ip & _ & _ & ->)|(_ & _ & ->)]; [apply guarded_nil|by apply guarded_one]. }
    assert (Hs := sent_looked _ _ _ _ Hres). cbv zeta in H2. destruct (bool_decide _) eqn:Ea in H2.
    + injection H2 as <- <-. by exists looked.
    + apply dial_run in H2 as (dials & -> & Hd & Hr). exists (looked ++ dials).
      rewrite app_assoc, sent_app, Hs, (sent_dials _ _ _ Hd). split_and!; [done| |done|].
      * apply guarded_app; [done|]. intros pre ev post Hx.
        assert (Hev : ev ∈ dials) by (rewrite Hx; apply elem_of_app; right; left).
        destruct (Hd _ Hev) as (ip & -> & (ip0 & -> & Hin%list_elem_of_In)%list_elem_of_fmap).
        apply filter_In in Hin as [_ Hp]. split; [apply Unmap_idemp|by rewrite permitted_Unmap].
      * destruct r as [[ip|]|]; [|done..]. destruct Hr as (before & -> & Hin & HC).
        exists looked, before, host, port, ips. rewrite <-app_assoc in HC. split_and!; try done.
        apply list_elem_of_fmap in Hin as (ip0 & -> & Hin%list_elem_of_In). apply filter_In in Hin as [Hin _].
        by apply list_elem_of_fmap_2, list_elem_of_In.
  - exists [Looked host]. split_and!; [done|by apply guarded_one|done..].
Qed.

Lemma roundTrip_run c hop tr r tr' : roundTrip c hop tr = (r, tr') →
  r ≠ None ∧ ∃ new, tr' = tr ++ new ∧ guarded c tr new ∧
  (sent new = [with_basic_auth hop] ∨ sent new = [] ∧ ∃ err, r = Some (Err err)).
Proof.
  unfold roundTrip. cbv zeta. set (hop' := with_basic_auth hop). intros H.
  assert (Hnil : ∀ err, (Some (Err err : result FetchError Response), tr) = (r, tr') → r ≠ None ∧ ∃ new, tr' = tr ++ new ∧ guarded c tr new ∧
    (sent new = [hop'] ∨ sent new = [] ∧ ∃ err, r = Some (Err err))).
  { intros err [= <- <-]. split; [done|]. exists []. rewrite app_nil_r. split_and!; [done|apply guarded_nil|right; split; [done|by eexists]]. }
  destruct (negb (forallb _ _)); [by eapply Hnil|]. destruct (_ && _); [by eapply Hnil|]. destruct (fu_Host _ =s ""); [by eapply Hnil|].
  clear Hnil. apply net_bind_inv in H as [(ip & tr1 & H1%dialContext_run & H2)|[(err & H1%dialContext_run & ->)|[H1%dialContext_run _]]].
  - destruct H1 as (new & -> & Hg & Hs & looked & dials & host & port & ips & -> & Hd).
    assert (Hx : r ≠ None ∧ tr' = (tr ++ looked ++ dials ++ [Dialed ip port]) ++ [Sent ip hop']).
    { unfold mbind, Net_bind, step in H2. destruct (RoundTrip _ ip hop') in H2; by injection H2 as <- <-. }
    destruct Hx as [Hr ->]. split; [done|]. exists ((looked ++ dials ++ [Dialed ip port]) ++ [Sent ip hop']).
    rewrite sent_app, Hs. split; [by rewrite <-!app_assoc|]. split; [|by left]. apply guarded_app; [done|]. apply guarded_one.
    exists tr, looked, dials, host, port, ips. by destruct Hd as (? & ? & ? & ?).
  - destruct H1 as (new & -> & Hg & Hs & _). split; [discriminate|]. exists new. split; [reflexivity|]. split; [exact Hg|]. right. split; [exact Hs|by eexists].
  - by destruct H1 as (? & ? & ? & ? & ?).
Qed.

(** *** The headers of redirects *)

Definition auth_of (hop : Hop) : string := header_get "Authorization" (hp_Header hop).
(** A request [next] that follows [prev], and what follows it; [strip] holds once a
    request has left the domain of the first. *)
Inductive follows (first : Hop) : bool → FetchURL → list Hop → Prop :=
| follows_nil strip prev : follows first strip prev []
| follows_cons strip prev next rest strip' :
    strip' = strip || negb (shouldCopyHeaderOnRedirect (hp_URL first) (hp_URL next)) →
    auth_of next = (if negb strip' && sameOrigin prev (hp_URL next) then auth_of first else "") →
    (let explicit := header_get "Referer" (hp_Header first) in
     let ref := refererForURL prev (hp_URL next) explicit in
     header_get "Referer" (hp_Header next) = if ref =s "" then explicit else ref) →
    follows first strip' (hp_URL next) rest → follows first strip prev (next :: rest).

Lemma find_filter_keep {A} (f g : A → bool) l : (∀ x, f x = true → g x = true) → find f (List.filter g l) = find f l.
Proof.
  intros H. induction l as [|x l IH]; [done|]. simpl. destruct (g x) eqn:Eg; simpl; [by rewrite IH|].
  destruct (f x) eqn:Ef; [|done]. by rewrite H in Eg.
Qed.
Lemma find_filter_drop {A} (f g : A → bool) l : (∀ x, f x = true → g x = false) → find f (List.filter g l) = None.
Proof.
  intros H. induction l as [|x l IH]; [done|]. simpl. destruct (g x) eqn:Eg; simpl; [|done].
  destruct (f x) eqn:Ef; [|done]. by rewrite H in Eg.
Qed.
Lemma header_get_del key key' h : header_get key (header_del key' h) = if key =s key' then "" else header_get key h.
Proof.
  unfold header_get, header_del. destruct (String.eqb_spec key key') as [->|Hne].
  - rewrite find_filter_drop; [done|]. intros x ->. done.
  - rewrite find_filter_keep; [done|]. intros x Hx%String.eqb_eq. apply negb_true_iff, String.eqb_neq. congruence.
Qed.
Lemma header_get_set key key' v h : header_get key (header_set key' v h) = if key =s key' then v else header_get key h.
Proof.
  assert (Happ : ∀ h kv, header_get key (h ++ [kv]) =
    match find (λ kv, kv.1 =s key) h with Some kv => kv.2 | None => if kv.1 =s key then kv.2 else "" end).
  { intros h0 kv. unfold header_get. induction h0 as [|x h0 IH]; simpl; [by destruct (kv.1 =s key)|]. by destruct (x.1 =s key). }
  unfold header_set. rewrite Happ. cbn [fst snd]. rewrite (String.eqb_sym key' key).
  assert (Hd := header_get_del key key' h). unfold header_get in Hd at 1. destruct (String.eqb_spec key key') as [->|Hne].
  - unfold header_del. by rewrite find_filter_drop by (intros x ->; done).
  - by destruct (find _ (header_del key' h)).
Qed.
Lemma header_get_copy key strip body h : key ∉ body_headers →
  header_get key (copyHeaders strip body h) = if strip && bool_decide (key ∈ sensitive_headers) then "" else header_get key h.
Proof.
  intros Hb. unfold header_get, copyHeaders. destruct (strip && _) eqn:E.
  - rewrite find_filter_drop; [done|]. intros x ->%String.eqb_eq. by rewrite E.
  - rewrite find_filter_keep; [done|]. intros x ->%String.eqb_eq. rewrite E, (bool_decide_eq_false_2 _ Hb). by rewrite andb_false_r.
Qed.

Lemma isDomain_refl u : shouldCopyHeaderOnRedirect u u = true.
Proof. unfold shouldCopyHeaderOnRedirect, isDomainOrSubdomain. by rewrite String.eqb_refl. Qed.
Lemma strips_eq first u strip : strips first u strip = strip || negb (shouldCopyHeaderOnRedirect first u).
Proof.
  unfold strips. destruct (String.eqb_spec (fu_Host first) (fu_Host u)) as [E|E]; [|done].
  assert (H : shouldCopyHeaderOnRedirect first u = true); [|by rewrite H].
  unfold shouldCopyHeaderOnRedirect, isDomainOrSubdomain, Hostname. by rewrite E, String.eqb_refl.
Qed.

Lemma next_hop_headers first prev status strip u via request hop :
  CheckRedirect request (via ++ [prev]) (next_hop first prev status strip u) = Ok hop →
  hp_URL hop = u ∧ auth_of hop = (if negb strip && sameOrigin prev u then auth_of first else "") ∧
  (let explicit := header_get "Referer" (hp_Header first) in
   let ref := refererForURL prev u explicit in
   header_get "Referer" (hp_Header hop) = if ref =s "" then explicit else ref) ∧
  Z.of_nat (length (via ++ [prev])) ≤ rq_MaxRedirects request ∧
  is_ok (parseFetchURL (fetch_String u) (rq_AllowHTTP request)) = true.
Proof.
  unfold CheckRedirect. destruct (Z.ltb_spec (rq_MaxRedirects request) (Z.of_nat (length (via ++ [prev])))) as [|Hlen]; [done|].
  cbn [hp_URL next_hop]. destruct (parseFetchURL (fetch_String u) (rq_AllowHTTP request)) as [v|[]]; try done.
  rewrite last_snoc. intros H.
  set (h := copyHeaders strip (negb (include_body status)) (hp_Header first)).
  assert (Ha : header_get "Authorization" h = if strip then "" else auth_of first).
  { unfold h. rewrite header_get_copy by (by apply (bool_decide_unpack (_ ∉ _))). rewrite (bool_decide_eq_true_2 (_ ∈ _)) by (by apply (bool_decide_unpack (_ ∈ _))).
    by rewrite andb_true_r. }
  assert (Hr : header_get "Referer" h = header_get "Referer" (hp_Header first)).
  { unfold h. rewrite header_get_copy by (by apply (bool_decide_unpack (_ ∉ _))). rewrite (bool_decide_eq_false_2 (_ ∈ _)) by (by apply (bool_decide_unpack (_ ∉ _))).
    by rewrite andb_false_r. }
  unfold next_hop in H. cbv zeta in H. fold h in H. rewrite Hr in H. cbn [hp_URL hp_Header] in H.
  set (ref := refererForURL prev u (header_get "Referer" (hp_Header first))) in *.
  destruct (sameOrigin prev u); cbn [negb] in H; injection H as <-; cbn [hp_URL hp_Header]; split_and!; try done.
  all: unfold auth_of; cbn [hp_Header]; rewrite ?header_get_del; destruct (ref =s ""); rewrite ?header_get_set, ?Ha, ?Hr; try done; by destruct strip.
Qed.

(** *** The loop *)

Lemma net_wrap_run {A} f (m : Net A) tr r tr' : net_wrap f m tr = (r, tr') → ∃ r0, m tr = (r0, tr') ∧
  r = match r0 with Some (Err err) => Some (Err (f tr' err)) | _ => r0 end.
Proof. unfold net_wrap. destruct (m tr) as [[[a|err]|] tr1]; intros [= <- <-]; by eexists. Qed.

Lemma send_run c hop tr r tr' : send c hop tr = (r, tr') →
  r ≠ None ∧ ∃ new, tr' = tr ++ new ∧ guarded c tr new ∧
  (sent new = [with_basic_auth hop] ∨ sent new = [] ∧ ∃ err, r = Some (Err err)).
Proof.
  intros (r0 & H%roundTrip_run & ->)%net_wrap_run. destruct H as (H0 & new & -> & Hg & Hs). split; [by destruct r0 as [[]|]|].
  exists new. split; [done|]. split; [done|]. destruct Hs as [Hs|(Hs & err & ->)]; [by left|right; split; [done|by eexists]].
Qed.

Lemma with_basic_auth_none hop : fu_User (hp_URL hop) = None → with_basic_auth hop = hop.
Proof. unfold with_basic_auth. by intros ->. Qed.

(** A parsed URL keeps its user when it is printed and parsed again, and so does a
    resolved reference. *)
Class FetchLaws : Prop := {
  parse_user raw u v : fetch_Parse raw = Some u → fetch_Parse (fetch_String u) = Some v → fu_User v = fu_User u;
  resolve_user base ref u v : fetch_Resolve base ref = Some u → fetch_Parse (fetch_String u) = Some v → fu_User v = fu_User u }.

Lemma parseFetchURL_Ok raw allow u : parseFetchURL raw allow = Ok u →
  fetch_Parse raw = Some u ∧ fu_User u = None ∧ (fu_Scheme u = "https" ∨ fu_Scheme u = "http" ∧ allow = true).
Proof.
  unfold parseFetchURL. destruct (_ || _); [done|]. destruct (fetch_Parse raw) as [v|]; [|done].
  destruct (_ || _) eqn:E; [done|]. rewrite !orb_false_iff in E. destruct E as [[[_ E] _] _].
  assert (Hu : fu_User v = None) by (destruct (fu_User v); [|done]; by rewrite bool_decide_eq_true_2 in E by by eexists).
  cbv zeta.
  destruct (String.eqb_spec (fu_Scheme v) "https") as [Hs|_]; [|destruct (String.eqb_spec (fu_Scheme v) "http") as [Hs|_]; [destruct allow|]];
    [| |done..]; destruct (Hostname v =s ""); try done; destruct (LookupPort _); try done; intros [= <-]; auto.
Qed.

Lemma do_loop_run `{FL : !FetchLaws} fuel c request first via strip hop tr r tr' :
  fu_User (hp_URL hop) = None → Z.of_nat (length via) ≤ rq_MaxRedirects request →
  (Z.to_nat (rq_MaxRedirects request) < fuel + length via)%nat →
  do_loop fuel c request first via strip hop tr = (r, tr') →
  r ≠ None ∧ ∃ new, tr' = tr ++ new ∧ guarded c tr new ∧
  Z.of_nat (length (sent new) + length via) ≤ rq_MaxRedirects request + 1 ∧
  (sent new = [] ∧ (∃ err, r = Some (Err err)) ∨ ∃ rest, sent new = hop :: rest ∧ follows first strip (hp_URL hop) rest).
Proof.
  revert via strip hop tr r tr'. induction fuel as [|fuel IH]; intros via strip hop tr r tr' Hu Hvia Hfuel; [lia|].
  cbn [do_loop]. intros H.
  apply net_bind_inv in H as [(response & tr1 & H1 & H2)|[(err & H1 & ->)|[H1 ->]]];
    apply net_wrap_run in H1 as (r0 & (Hr0 & new & -> & Hg & Hs)%send_run & Er).
  - destruct Hs as [Hs|(Hs & err & ->)]; [|done]. rewrite with_basic_auth_none in Hs by done.
    assert (Hstop : ∀ x, (Some x, tr ++ new) = (r, tr') → r ≠ None ∧ ∃ new, tr' = tr ++ new ∧ guarded c tr new ∧
      Z.of_nat (length (sent new) + length via) ≤ rq_MaxRedirects request + 1 ∧
      (sent new = [] ∧ (∃ err, r = Some (Err err)) ∨ ∃ rest, sent new = hop :: rest ∧ follows first strip (hp_URL hop) rest)).
    { intros x [= <- <-]. split; [done|]. exists new. rewrite Hs. split_and!; [done..|simpl; lia|].
      right. exists []. split; [done|constructor]. }
    destruct (negb (should_redirect _)); [by eapply Hstop|]. destruct (rs_Location response =s ""); [by eapply Hstop|].
    destruct (fetch_Resolve (hp_URL hop) (rs_Location response)) as [u|] eqn:Eu; [|by eapply Hstop]. cbv zeta in H2.
    destruct (CheckRedirect _ _ _) as [next|err] eqn:Ec in H2; [|by eapply Hstop]. clear Hstop.
    apply next_hop_headers in Ec as (<- & Ha & Href & Hlen & Hok). rewrite length_app in Hlen. simpl in Hlen.
    assert (Hn : fu_User (hp_URL next) = None).
    { destruct (parseFetchURL _ _) as [v|] eqn:Ev in Hok; [|done]. apply parseFetchURL_Ok in Ev as (Ev & Hv & _).
      rewrite <-Hv. symmetry. by eapply resolve_user. }
    apply IH in H2 as (Hr & new2 & -> & Hg2 & Hl2 & Hs2); [|done|rewrite length_app; simpl; lia..].
    split; [done|]. exists (new ++ new2). rewrite sent_app, Hs, length_app. rewrite length_app in Hl2. simpl in Hl2 |- *.
    split; [by rewrite app_assoc|]. split; [by apply guarded_app|]. split; [lia|]. right.
    exists (sent new2). split; [done|]. destruct Hs2 as [[-> _]|(rest & -> & Hf)]; [constructor|].
    econstructor; [reflexivity|by rewrite <-strips_eq|done|by rewrite <-strips_eq].
  - split; [done|]. exists new. split; [done|]. split; [done|].
    destruct Hs as [Hs|(Hs & _)]; rewrite Hs; (split; [simpl; lia|]); [right|left; split; [done|by eexists]].
    rewrite with_basic_auth_none by done. exists []. split; [done|constructor].
  - destruct r0 as [[]|]; [discriminate..|by destruct Hr0].
Qed.

(** *** Errors and bodies *)

Lemma classify_code done err : is_code (classify done err) = true.
Proof.
  induction err; try reflexivity; simpl; destruct done; try reflexivity.
  - destruct (is_code err) eqn:E; [exact E|reflexivity].
  - destruct (is_code err) eqn:E; [exact E|]. destruct (is_deadline err); [reflexivity|exact IHerr].
Qed.
Lemma parseFetchURL_code raw allow err : parseFetchURL raw allow = Err err → err = ErrInvalidURL ∨ err = ErrHTTPDisabled.
Proof.
  unfold parseFetchURL. cbv zeta. destruct (_ || _); [naive_solver|]. destruct (fetch_Parse raw); [|naive_solver].
  destruct (_ || _); [naive_solver|].
  repeat match goal with |- context [if ?b then _ else _] => destruct b end; naive_solver.
Qed.
Lemma decode_body_limits request response compressed :
  match decode_body request response compressed with
  | Ok body => body = compressed ∨ Z.of_nat (String.length body) ≤ rq_MaxDecodedBytes request
  | Err err => err = ErrFetch ∨ err = ErrTooLarge
  end.
Proof.
  unfold decode_body. cbv zeta. destruct (_ =s "gzip").
  - destruct (gunzip compressed) as [[data complete]|]; [|by left]. destruct (read_limited _ _ _) as [decoded|]; [|by left].
    destruct (Z.ltb_spec (rq_MaxDecodedBytes request) (Z.of_nat (String.length decoded))); by right.
  - destruct (_ && _); by left.
Qed.
End Facts.

Section Properties.
Context {L : FetchLibs} {W : World} {T : GoText} {FL : FetchLaws}.

Lemma follows_lookup first strip prev rest k p q :
  follows first strip prev rest → (prev :: (hp_URL <$> rest)) !! k = Some p → rest !! k = Some q →
  auth_of q = (if negb strip && forallb (λ hop, shouldCopyHeaderOnRedirect (hp_URL first) (hp_URL hop)) (take (S k) rest)
                  && sameOrigin p (hp_URL q) then auth_of first else "") ∧
  (let explicit := header_get "Referer" (hp_Header first) in
   let ref := refererForURL p (hp_URL q) explicit in
   header_get "Referer" (hp_Header q) = if ref =s "" then explicit else ref).
Proof.
  intros H. revert k. induction H as [|strip prev next rest strip' -> Ha Hr H IH]; intros k Hp Hq; [done|].
  destruct k as [|k]; simpl in Hp, Hq.
  - injection Hp as <-. injection Hq as <-. split; [|done]. rewrite Ha. simpl. by rewrite negb_orb, negb_involutive, andb_true_r.
  - destruct (IH k Hp Hq) as [IHa IHr]. split; [|done]. rewrite IHa. cbn [take forallb].
    by rewrite negb_orb, negb_involutive, !andb_assoc.
Qed.

(** What a run of a fetch does from its history [tr] on: the connections it makes, how
    many requests, their headers, its errors, and [Q] of its result. *)
Definition limit_of (request : Request) : Z := Z.max 0 (Z.min MaxRedirects (rq_MaxRedirects (with_defaults request))) + 1.
Record Ran {A} (c : Client) (request : Request) (Q : A → Prop) tr (r : option (result FetchError A)) tr' : Prop := {
  ran_ends : r ≠ None;
  ran_new : ∃ new, tr' = tr ++ new ∧ guarded c tr new ∧ Z.of_nat (length (sent new)) ≤ limit_of request ∧
    (sent new = [] ∧ (∃ err, r = Some (Err err)) ∨ ∃ first rest, sent new = first :: rest ∧
      hp_Header first = rq_Header request ∧ follows first false (hp_URL first) rest);
  ran_code err : r = Some (Err err) → is_code err = true;
  ran_ok a : r = Some (Ok a) → Q a }.

Lemma Ran_fail {A} c request (Q : A → Prop) tr err : is_code err = true → Ran c request Q tr (Some (Err err)) tr.
Proof.
  intros He. split; [done| |naive_solver|done]. exists []. rewrite app_nil_r. unfold limit_of.
  split_and!; [done|apply guarded_nil|simpl; lia|left; split; [done|by eexists]].
Qed.
(** Local work after the network. *)
Lemma Ran_then {A B} c request (Q : A → Prop) (Q' : B → Prop) tr a r tr' :
  Ran c request Q tr (Some (Ok a)) tr' → r ≠ None → (∀ err, r = Some (Err err) → is_code err = true) →
  (∀ b, r = Some (Ok b) → Q' b) → Ran c request Q' tr r tr'.
Proof.
  intros [_ (new & Hn & Hg & Hl & Hs) _ _] Hr He Hok. split; [done| |done|done]. exists new. split_and!; try done. right.
  by destruct Hs as [(_ & err & ?)|?].
Qed.
Lemma Ran_err {A B} c request (Q : A → Prop) (Q' : B → Prop) tr err tr' :
  Ran c request Q tr (Some (Err err)) tr' → Ran c request Q' tr (Some (Err err)) tr'.
Proof.
  intros [_ (new & Hn & Hg & Hl & Hs) Hc _]. split; [done| |intros err' [= <-]; by apply Hc|done]. exists new.
  split_and!; try done. destruct Hs as [(Hs & _)|Hs]; [left; split; [done|by eexists]|by right].
Qed.
Lemma Ran_loop c request hop tr r tr' :
  0 ≤ rq_MaxRedirects (with_defaults request) ≤ MaxRedirects → fu_User (hp_URL hop) = None →
  hp_Header hop = rq_Header request →
  net_wrap (λ tr, classify (ctx_done tr)) (do_loop (fetch_fuel (with_defaults request)) c (with_defaults request) hop [] false hop) tr
    = (r, tr') → Ran c request (λ _, True) tr r tr'.
Proof.
  intros Hm Hu Hh (r0 & H & ->)%net_wrap_run. apply do_loop_run in H as (Hr & new & -> & Hg & Hl & Hs);
    [|done|cbn [length]; lia|unfold fetch_fuel; cbn [length]; lia].
  split; [by destruct r0 as [[]|]| | |done].
  - exists new. unfold limit_of. cbn [length] in Hl. rewrite Nat.add_0_r in Hl. split_and!; [done|done|lia|].
    destruct Hs as [(Hs & err & ->)|(rest & Hs & Hf)]; [left; split; [done|by eexists]|right; by exists hop, rest].
  - intros err. destruct r0 as [[]|]; [done| |done]. intros [= <-]. apply classify_code.
Qed.

Definition body_limit (request : Request) (res : FetchResult) : Prop :=
  Z.of_nat (String.length (ft_Body res)) ≤
    Z.max (rq_MaxCompressedBytes (with_defaults request)) (rq_MaxDecodedBytes (with_defaults request)) ≤ 10485760.

Lemma Fetch_run c raw request tr r tr' : Fetch c raw request tr = (r, tr') → Ran c request (body_limit request) tr r tr'.
Proof.
  unfold Fetch. cbv zeta. intros H. destruct (outside 0 MaxRedirects _) eqn:E1; [injection H as <- <-; by apply Ran_fail|].
  destruct (outside 1 DefaultMaxCompressedBytes _ || _) eqn:E2; [injection H as <- <-; by apply Ran_fail|].
  unfold outside in E1, E2. rewrite !orb_false_iff, !Z.ltb_ge in E1. rewrite !orb_false_iff, !Z.ltb_ge in E2.
  apply net_bind_inv in H as [(parsed & ? & [= Ep <-] & H)|[(err & [= Ep <-] & ->)|[[=] _]]].
  2:{ apply Ran_fail. by apply parseFetchURL_code in Ep as [->| ->]. }
  destruct (fetch_Parse (fetch_String parsed)) as [u|] eqn:Eu; [|injection H as <- <-; by apply Ran_fail].
  apply parseFetchURL_Ok in Ep as (Ep & Hnone & _). assert (Hu := parse_user _ _ _ Ep Eu). rewrite Hnone in Hu.
  apply net_bind_inv in H as [([response final] & tr1 & H1 & H2)|[(err & H1 & ->)|[H1 ->]]]; apply Ran_loop in H1; try done.
  - destruct (read_limited _ _ _) as [compressed|err].
    2:{ injection H2 as <- <-. eapply Ran_then; [done..| |done]. intros err' [= <-]. apply classify_code. }
    destruct (Z.ltb_spec (rq_MaxCompressedBytes (with_defaults request)) (Z.of_nat (String.length compressed))) as [|Hc].
    { injection H2 as <- <-. eapply Ran_then; [done..| |done]. by intros err' [= <-]. }
    assert (Hd := decode_body_limits (with_defaults request) response compressed).
    destruct (decode_body (with_defaults request) response compressed) as [body|err]; injection H2 as <- <-;
      (eapply Ran_then; [done..| |]; [by intros err' [= <-]; destruct Hd as [->| ->]|]); intros b [= <-].
    unfold body_limit. cbn [ft_Body]. unfold DefaultMaxCompressedBytes, DefaultMaxDecodedBytes in E2.
    destruct Hd as [->|Hd]; lia.
  - by eapply Ran_err.
  - by destruct H1 as [? _ _ _].
Qed.

(** (C27) An address is blocked exactly when it is in a range that the documentation lists,
    once an IPv4 address mapped into IPv6 is unmapped, unless a zone hides it: of these only
    the unspecified address and the documentation prefix of IPv6 pass with one. *)
Theorem blocked_exact ip : ip_wf ip →
  BlockedAddress ip = protected ip && negb (hidden_by_zone ip).
Proof. apply blocked_protected. Qed.

(** (C25) Whatever the network answers, and whatever it redirects to, a fetch dials only
    addresses that are not blocked, or that the client was built to allow; and every
    request goes over the connection dialed last, to an address that the host of its own
    URL resolved to for this very dial. *)
Theorem fetch_stays_public c raw request tr r tr' : Fetch c raw request tr = (r, tr') →
  ∃ new, tr' = tr ++ new ∧
  (∀ pre ip port post, new = pre ++ Dialed ip port :: post →
    (BlockedAddress ip = false ∨ ∃ network, network ∈ cl_AllowNets c ∧ Prefix_Contains network ip = true) ∧
    (cl_AllowNets c = [] → ip_wf ip → protected ip = false ∨ hidden_by_zone ip = true)) ∧
  (∀ pre ip hop post, new = pre ++ Sent ip hop :: post → ∃ earlier looked dials host port ips,
    tr ++ pre = earlier ++ looked ++ dials ++ [Dialed ip port] ∧
    SplitHostPort (canonicalAddr (hp_URL hop)) = Some (host, port) ∧ resolved earlier host ips looked ∧
    ip ∈ Unmap <$> ips ∧ Connects (earlier ++ looked ++ dials) ip port = true).
Proof.
  intros [_ (new & -> & Hg & _) _ _]%Fetch_run. exists new. split; [done|]. split.
  - intros pre ip port post E. destruct (Hg _ _ _ E) as [Hu Hp]. unfold permitted in Hp. rewrite Hu in Hp. cbv zeta in Hp.
    assert (H : BlockedAddress ip = false ∨ ∃ network, network ∈ cl_AllowNets c ∧ Prefix_Contains network ip = true).
    { unfold BlockedAddress. destruct (blocked ip); [right|left; reflexivity]. cbn [negb] in Hp.
      apply existsb_exists in Hp as (network & Hin%list_elem_of_In & ?). by exists network. }
    split; [exact H|]. intros Hn Hw. destruct H as [H|(network & Hin & _)]; [|by rewrite Hn in Hin; apply elem_of_nil in Hin].
    unfold BlockedAddress in H. rewrite blocked_protected in H by done. apply andb_false_iff in H as [H|H%negb_false_iff]; [by left|by right].
  - intros pre ip hop post E. exact (Hg _ _ _ E).
Qed.

(** (C26) The first request carries the headers it was given. A redirected request carries
    its authorization exactly when its origin is that of the request before and no request
    so far has left the domain of the first one, and otherwise none; and as its referer the
    URL of the request before, unless the connection stops being secure. *)
Theorem redirect_headers_exact c raw request tr r tr' : Fetch c raw request tr = (r, tr') →
  ∃ new, tr' = tr ++ new ∧
  (∀ first, sent new !! 0%nat = Some first → hp_Header first = rq_Header request) ∧
  ∀ k first prev next, sent new !! 0%nat = Some first → sent new !! k = Some prev → sent new !! S k = Some next →
    auth_of next =
      (if forallb (λ hop, shouldCopyHeaderOnRedirect (hp_URL first) (hp_URL hop)) (take (S (S k)) (sent new))
          && sameOrigin (hp_URL prev) (hp_URL next)
       then header_get "Authorization" (rq_Header request) else "") ∧
    (header_get "Referer" (rq_Header request) = "" →
     header_get "Referer" (hp_Header next) =
       if (fu_Scheme (hp_URL prev) =s "https") && (fu_Scheme (hp_URL next) =s "http") then ""
       else refererForURL (hp_URL prev) (hp_URL next) "").
Proof.
  intros [_ (new & -> & _ & _ & Hs) _ _]%Fetch_run. exists new. split; [done|].
  destruct Hs as [(-> & _)|(first0 & rest & -> & Hh & Hf)]; [done|]. split; [by intros first [= <-]|].
  intros k first prev next [= <-] Hp Hq. simpl in Hq.
  destruct (follows_lookup first0 false (hp_URL first0) rest k (hp_URL prev) next Hf) as [Ha Hr]; [|done|].
  { destruct k as [|k]; simpl in Hp |- *; [by injection Hp as ->|]. by rewrite list_lookup_fmap, Hp. }
  split.
  - rewrite Ha. unfold auth_of. rewrite Hh. cbn [take forallb negb]. by rewrite isDomain_refl.
  - intros He. rewrite Hh, He in Hr. rewrite Hr.
    assert (Hx : ∀ x, (if x =s "" then "" else x) = x) by (intros x; by destruct (String.eqb_spec x "")).
    rewrite Hx. unfold refererForURL. destruct ((fu_Scheme (hp_URL prev) =s "https") && (fu_Scheme (hp_URL next) =s "http")); reflexivity.
Qed.

End Properties.

(** ** A network to run it on *)

Definition sample_Parse (raw : string) : option FetchURL :=
  match CutString "://" raw with
  | None => None
  | Some (scheme, rest) =>
      let '(host, path) := cut_or_all "/" rest in
      Some {| fu_Scheme := scheme; fu_Opaque := ""; fu_User := None; fu_Host := host; fu_Fragment := ""; fu_Rest := "/" +:+ path |}
  end.
Definition public : IP := V4 (quad 93 184 216 34).
#[local] Instance sample_fetch : FetchLibs := {|
  fetch_Parse := sample_Parse; fetch_Resolve := λ _ ref, sample_Parse ref;
  fetch_String := λ u, fu_Scheme u +:+ "://" +:+ fu_Host u +:+ fu_Rest u;
  ParseIP := λ s, if s =s "127.0.0.1" then Some (V4 (quad 127 0 0 1)) else if s =s "::%lo" then Some (V6 0 "lo") else None;
  idnaASCII := λ s, s; EqualFold := λ a b, ascii_lower a =s ascii_lower b; valid_header := λ _, true;
  gunzip := λ s, Some (s, true) |}.
Definition sample_reply (status : Z) (location body : string) : Response :=
  {| rs_Status := status; rs_Location := location; rs_ContentEncoding := ""; rs_ContentType := "text/plain"; rs_Body := body;
     rs_BodyErr := None |}.
(** The source moves twice on its own host, to another port. *)
#[local] Instance sample_world : World := {|
  LookupNetIP := λ _ host, if host =s "sub.example" then Ok [public]
                           else if host =s "loop.example" then Ok [V4 (quad 127 0 0 1)] else Err OtherNetErr;
  Connects := λ _ _ _, true;
  RoundTrip := λ _ _ hop,
    let url := fetch_String (hp_URL hop) in
    Ok (if url =s "https://sub.example/list" then sample_reply 302 "https://sub.example:8443/a" ""
        else if url =s "https://sub.example:8443/a" then sample_reply 302 "https://sub.example:8443/b" ""
        else sample_reply 200 "" "ok");
  ctx_done := λ _, false; did_timeout := λ _, false |}.
Lemma sample_fetch_laws : FetchLaws.
Proof.
  assert (H : ∀ raw u, sample_Parse raw = Some u → fu_User u = None).
  { intros raw u. unfold sample_Parse. destruct (CutString "://" raw) as [[scheme rest]|]; [|done].
    destruct (cut_or_all "/" rest) as [host path]. by intros [= <-]. }
  split; [intros raw u v Hu Hv|intros base ref u v Hu Hv]; by rewrite (H _ _ Hu), (H _ _ Hv).
Qed.
Definition sample_request (header : Header) : Request :=
  {| rq_Header := header; rq_AllowHTTP := false; rq_MaxRedirects := 0; rq_MaxCompressedBytes := 0; rq_MaxDecodedBytes := 0 |}.
Definition sample_run : option (result FetchError FetchResult) * list Event :=
  Fetch {| cl_AllowNets := [] |} "https://sub.example/list" (sample_request [("Authorization", "Bearer t")]) [].

(** The authorization is gone from the first request to the other port, and back in the
    second; the URL of the source is the referer of the first. *)
Example authorization_returns :
  (λ hop, (fu_Host (hp_URL hop), auth_of hop, header_get "Referer" (hp_Header hop))) <$> sent sample_run.2 =
  [("sub.example", "Bearer t", ""); ("sub.example:8443", "", "https://sub.example/list");
   ("sub.example:8443", "Bearer t", "https://sub.example:8443/a")].
Proof. vm_compute. reflexivity. Qed.
(** A blocked address is reported with the URL of the source. *)
Example blocked_error_shows_url :
  (Fetch {| cl_AllowNets := [] |} "https://loop.example/token" (sample_request []) []).1 =
  Some (Err (URLError "https://loop.example/token" ErrBlockedAddress)).
Proof. vm_compute. reflexivity. Qed.
(** The unspecified address with a zone is dialed. *)
Example zone_dialed :
  (Fetch {| cl_AllowNets := [] |} "https://[::%lo]/" (sample_request []) []).2 !! 0%nat = Some (Dialed (V6 0 "lo") "443").
Proof. vm_compute. reflexivity. Qed.

Lemma blocked_exact_witness : ip_wf (V6 0 "lo") ∧ BlockedAddress (V6 0 "lo") = false ∧ protected (V6 0 "lo") = true.
Proof.
  assert (Hw : ip_wf (V6 0 "lo")) by (simpl; lia). split; [exact Hw|]. split; [|vm_compute; reflexivity].
  rewrite (blocked_exact (V6 0 "lo") Hw). vm_compute. reflexivity.
Defined.
Lemma fetch_stays_public_witness :
  ∃ pre hop post, sample_run.2 = pre ++ Sent public hop :: post ∧
    ∃ earlier looked dials host port ips, pre = earlier ++ looked ++ dials ++ [Dialed public port] ∧
      SplitHostPort (canonicalAddr (hp_URL hop)) = Some (host, port) ∧ resolved earlier host ips looked.
Proof.
  destruct sample_run as [r tr'] eqn:E.
  destruct (@fetch_stays_public _ _ _ sample_fetch_laws _ _ _ _ _ _ E) as (new & -> & _ & H).
  destruct new as [|e1 [|e2 [|[| |ip hop] post]]]; try (exfalso; vm_compute in E; discriminate E).
  assert (Hip : ip = public) by (vm_compute in E; injection E; intros; subst; reflexivity). subst ip.
  destruct (H [e1; e2] public hop post eq_refl) as (earlier & looked & dials & host & port & ips & H1 & H2 & H3 & _).
  exists [e1; e2], hop, post. split; [reflexivity|]. exists earlier, looked, dials, host, port, ips. split; [exact H1|]. split; assumption.
Defined.
Lemma redirect_headers_exact_witness :
  ∃ next, sent sample_run.2 !! 2%nat = Some next ∧ auth_of next = "Bearer t" ∧ fu_Host (hp_URL next) = "sub.example:8443".
Proof.
  assert (Hc : match sent sample_run.2 with
    | [first; prev; next] =>
        forallb (λ hop, shouldCopyHeaderOnRedirect (hp_URL first) (hp_URL hop)) [first; prev; next]
        && sameOrigin (hp_URL prev) (hp_URL next) && (fu_Host (hp_URL next) =s "sub.example:8443")
    | _ => false end = true) by (vm_compute; reflexivity).
  destruct sample_run as [r tr'] eqn:E.
  destruct (@redirect_headers_exact _ _ _ sample_fetch_laws _ _ _ _ _ _ E) as (new & -> & _ & H).
  cbn [snd app] in Hc |- *. destruct (sent new) as [|first [|prev [|next [|? ?]]]]; try discriminate Hc.
  apply andb_true_iff in Hc as [Hc Hhost]. apply String.eqb_eq in Hhost.
  destruct (H 1%nat first prev next) as [Ha _]; [reflexivity..|]. exists next. split; [reflexivity|]. split; [|exact Hhost].
  rewrite Ha. cbn [take]. rewrite Hc. reflexivity.
Defined.
