(* ===== verification/OverrideTheorems.v ===== *)
(** The properties of the overrides and of the boundary's errors, with the sample they run
    on: an imported Trojan node whose password and name a user has changed. *)
From S2P Require Import Prelude Diagnostics IRTypes IRValidate Catalog Network URLText ApiError.
From S2P Require Import NodePatch Override OverrideFacts Sample.

(** * Helpers *)

Lemma auth_secrets_kind a old p v :
  auth_secrets (AuthPatch_apply a old) !! p = Some v →
  auth_kind (AuthPatch_apply a old) = ap_Kind a.
Proof.
  unfold AuthPatch_apply.
  repeat match goal with |- context [ap_Kind a =s ?k] =>
    destruct (String.eqb_spec (ap_Kind a) k) as [->|] end; simpl; try done.
Qed.

Lemma auth_secrets_path a p v :
  auth_secrets a !! p = Some v → p ∈ ["/auth/password"; "/auth/uuid"; "/auth/username"].
Proof.
  destruct a; simpl; intros H; try (by rewrite lookup_empty in H);
    repeat match goal with
    | H : <[_ := _]> _ !! _ = Some _ |- _ => apply lookup_insert_Some in H as [[<- _]|[_ H]]
    | H : {[_ := _]} !! _ = Some _ |- _ => apply lookup_singleton_Some in H as [<- _]
    end; apply (bool_decide_eq_true_1 _); reflexivity.
Qed.

Lemma auth_secrets_same a b p v :
  auth_kind a = auth_kind b → auth_secrets a !! p = Some v → is_Some (auth_secrets b !! p).
Proof.
  destruct a, b; simpl; intros Hk H; try discriminate Hk; try (by rewrite lookup_empty in H);
    repeat match goal with
    | H : <[_ := _]> _ !! _ = Some _ |- _ => apply lookup_insert_Some in H as [[<- _]|[_ H]]
    | H : {[_ := _]} !! _ = Some _ |- _ => apply lookup_singleton_Some in H as [<- _]
    end; by eexists.
Qed.

Lemma named_auth d a p :
  ov_Node d ≫= np_Auth = Some a → p ∈ ["/auth/password"; "/auth/uuid"; "/auth/username"] →
  p ∈ Fields d ↔ se_present (patch_secret a p) = true.
Proof.
  intros Ha Hp. rewrite elem_of_Fields. unfold has.
  destruct (ov_Node d) as [n|]; [|done]. simpl in Ha.
  repeat (apply elem_of_cons in Hp as [->|Hp];
    [cbn; rewrite Ha; cbn; split; [by intros []|]; intros H; split; [exact H|];
     apply (bool_decide_eq_true_1 _); reflexivity|]).
  by apply elem_of_nil in Hp.
Qed.

Lemma not_field d p : p ∉ Fields d → p ∈ field_paths → has d p = false.
Proof. intros Hn Hp. destruct (has d p) eqn:E; [|done]. destruct Hn. by apply elem_of_Fields. Qed.

Lemma unnamed {A} d p (f : Document → option A) :
  p ∈ field_paths → (has d p = given (f d)) → p ∉ Fields d → f d = None.
Proof. intros Hp Hh Hn. apply not_field in Hn; [|done]. rewrite Hh in Hn. by destruct (f d). Qed.

Section Overrides.
Context {P : Platform} {F : ApiFields} {B : Boundary}.

(** The secrets a document does not name are the source's. *)
Lemma Effective_secret base next d (p v : string) :
  Effective base next (patch_of d) → auth_secrets (n_Auth next) !! p = Some v → p ∉ Fields d →
  if auth_kind (n_Auth base) =s auth_kind (n_Auth next)
  then auth_secrets (n_Auth base) !! p = Some v else v = "".
Proof.
  intros He Hv Hn. assert (Ea := eff_auth _ _ _ He). unfold patch_of in Ea.
  destruct (ov_Node d ≫= np_Auth) as [a|] eqn:Eo.
  - assert (np_Auth (from_option id empty_patch (ov_Node d)) = Some a) as Hpa
      by (by destruct (ov_Node d)).
    rewrite Hpa in Ea. simpl in Ea. rewrite Ea in Hv |- *.
    assert (Hk := auth_secrets_kind _ _ _ _ Hv). rewrite Hk.
    assert (se_present (patch_secret a p) = false) as Hp.
    { destruct (se_present _) eqn:E; [|done]. destruct Hn.
      eapply named_auth; eauto using auth_secrets_path. }
    assert (Hs := AuthPatch_apply_secret _ _ _ _ Hv). unfold SecretPatch_apply in Hs. rewrite Hp in Hs.
    simpl in Hs. destruct (String.eqb_spec (auth_kind (n_Auth base)) (ap_Kind a)) as [E|E]; [|done].
    destruct (auth_secrets_same _ (n_Auth base) _ _ (eq_trans Hk (eq_sym E)) Hv) as [w Hw].
    rewrite Hw in Hs |- *. simpl in Hs. by rewrite Hs.
  - assert (np_Auth (from_option id empty_patch (ov_Node d)) = None) as Hpa
      by (by destruct (ov_Node d)).
    rewrite Hpa in Ea. simpl in Ea. rewrite Ea in Hv |- *. by rewrite String.eqb_refl.
Qed.

(** * The properties *)


(** Restoring every overridden field returns to the source: the document that is left
    is empty, and the effective node, name and fields are the source's. *)
Theorem restore_returns_source base name d :
  Node_Validate base = None → Fields d ≠ [] →
  ∃ d', Combine d None None (Fields d) = Ok d' ∧ Empty d' = true ∧
        override_Merge base name d' = Ok (base, name, []).
Proof.
  intros Hv Hf. unfold Combine. simpl.
  set (d1 := {| ov_SchemaVersion := SchemaVersion; ov_Name := ov_Name d; ov_Node := ov_Node d |}).
  assert (Fields d = Fields d1) as E by reflexivity. rewrite E in Hf |- *.
  rewrite Restore_all by done. eexists. split; [done|]. split; [done|]. by apply override_Merge_empty.
Qed.

(** Restoring accepts exactly the lists of distinct paths that name a field, whatever
    their order; it takes these fields and, for an object, what is inside it, and leaves
    every other field with its value. *)
Theorem Restore_exact d paths :
  paths ≠ [] →
  (Restore d paths = if bool_decide (NoDup paths ∧ Forall (λ p, p ∈ field_paths) paths)
                     then Ok (drop_empty (restrict (λ p, bool_decide (p ∉ paths)) d))
                     else Err ErrRestore) ∧
  (∀ paths', paths' ≡ₚ paths → Restore d paths' = Restore d paths) ∧
  (∀ d', Restore d paths = Ok d' → ∀ p,
     p ∈ Fields d' ↔ p ∈ Fields d ∧ p ∉ paths ∧ section_of p ∉ paths).
Proof.
  intros Hne. split; [by apply Restore_spec|]. split.
  - intros paths' Hp. assert (paths' ≠ []) as Hne'.
    { intros ->. by apply Permutation_nil_l in Hp. }
    rewrite !Restore_spec by done.
    assert (bool_decide (restorable paths') = bool_decide (restorable paths)) as ->.
    { apply bool_decide_ext. unfold restorable. by rewrite Hp. }
    destruct (bool_decide _); [|done]. do 2 f_equal. apply restrict_ext. intros q _. cbv beta.
    apply bool_decide_ext. by rewrite Hp.
  - intros d' Hd p. rewrite Restore_spec in Hd by done. destruct (bool_decide (restorable paths)); [|done].
    injection Hd as <-. rewrite Fields_drop_empty, elem_of_Fields_restrict.
    by rewrite !bool_decide_eq_true.
Qed.


(** A later patch of the authentication takes the place of the earlier one: a secret
    that was overridden and that the later patch does not mention is the source's again. *)
Theorem later_auth_patch_forgets base name old add a d next name' fields p v :
  NodeRoundTrip → np_Auth add = Some a → Combine old None (Some add) [] = Ok d →
  override_Merge base name d = Ok (next, name', fields) →
  auth_kind (n_Auth base) = auth_kind (n_Auth next) →
  p ∈ Fields old → auth_secrets (n_Auth next) !! p = Some v → se_present (patch_secret a p) = false →
  p ∉ fields ∧ auth_secrets (n_Auth base) !! p = Some v.
Proof.
  intros HR Ha Hc Hm Hk Hold Hv Hp.
  destruct (override_Merge_ok _ _ _ _ _ _ HR Hm) as (_ & _ & -> & _ & He).
  assert (ov_Node d ≫= np_Auth = Some a) as Hda.
  { unfold Combine, mergeNodePatch in Hc. destruct (given (np_Protocol add)) eqn:Ep; [done|].
    unfold given in Ep. rewrite Ep, Ha in Hc. cbn [nodePatchEmpty np_Auth or_old absent] in Hc.
    rewrite !andb_false_r in Hc. simpl in Hc. injection Hc as <-. reflexivity. }
  assert (p ∉ Fields d) as Hn.
  { intros Hin. eapply named_auth in Hin; eauto using auth_secrets_path. congruence. }
  split; [done|]. assert (Hs := Effective_secret _ _ _ _ _ He Hv Hn). rewrite Hk in Hs.
  by rewrite String.eqb_refl in Hs.
Qed.

(** (C34) Whatever the error, the response shows a code of the allow-list with its message,
    at most sixteen details, each with a path of known fields and indices and an identifier
    that is valid or absent, and a request identifier of the safe alphabet. *)
Theorem Response_safe err requestID :
  let r := Response (AsError err) requestID in
  (∃ status, errorDefinitions !! eb_Code (er_Error r) = Some (status, eb_Message (er_Error r))) ∧
  (length (eb_Details (er_Error r)) ≤ 16)%nat ∧
  Forall safe_detail_ok (eb_Details (er_Error r)) ∧
  (er_RequestID r = "unavailable" ∨ requestIDPattern (er_RequestID r) = true).
Proof.
  unfold Response. cbn [er_Error eb_Code eb_Message eb_Details er_RequestID].
  destruct (NewError_safe (Error_Code (AsError err)) (ae_details (AsError err))) as ([[st m] Hd] & Hl & Hf).
  split; [|split; [exact Hl|split; [exact Hf|]]].
  - exists st. by rewrite Hd.
  - unfold safeRequestID. destruct (requestIDPattern requestID) eqn:E; [by right|by left].
Qed.

End Overrides.

(** * The sample *)

#[export] Instance sample_api : ApiFields :=
  {| KnownField := λ f, bool_decide (f ∈ ["node"; "protocol"; "security"; "short_id"]) |}.
#[export] Instance sample_boundary : Boundary :=
  {| ValidateDTO := λ _ dto,
       match dto with
       | DTO_NodePatch p => if nodePatchEmpty (Some p) then Some (NewError MalformedRequest []) else None
       | DTO_NodePatchRequest _ => None
       end;
     NodeText := Node; marshalNode := Some; DecodeNode := Some |}.

Lemma sample_round_trip : NodeRoundTrip.
Proof. intros n _. by exists n. Qed.

Definition password_patch (password username : SecretPatch) : AuthPatch :=
  {| ap_Kind := AuthPassword; ap_Method := None; ap_Cipher := None; ap_Password := password;
     ap_UUID := no_secret; ap_Username := username |}.
Definition auth_patch (a : AuthPatch) : NodePatch :=
  {| np_Protocol := None; np_Endpoint := None; np_Auth := Some a; np_Transport := None;
     np_Security := None; np_Features := None |}.
Definition sample_source : Node := sample_node "source.example" "from-source".
(** The user has changed the name and the password. *)
Definition sample_override : Document :=
  {| ov_SchemaVersion := 1; ov_Name := Some "Custom";
     ov_Node := Some (auth_patch (password_patch (ReplaceSecret "from-user") no_secret)) |}.
(** A later patch that names the authentication but not its password. *)
Definition sample_later : NodePatch := auth_patch (password_patch no_secret no_secret).

Definition effective_password (d : Document) : option string :=
  match override_Merge sample_source "Source" d with
  | Ok (next, _, _) => auth_secrets (n_Auth next) !! "/auth/password"
  | Err _ => None
  end.

(** The node the sample merges to, and what the later patch makes of the document. *)
Definition merged_node (d : Document) : Node :=
  match override_Merge sample_source "Source" d with Ok (next, _, _) => next | Err _ => sample_source end.
Definition combined (old : Document) (add : NodePatch) : Document :=
  match Combine old None (Some add) [] with Ok d => d | Err _ => no_document end.

Example sample_passwords :
  effective_password sample_override = Some "from-user" ∧
  effective_password (combined sample_override sample_later) = Some "from-source".
Proof. split; vm_compute; reflexivity. Qed.



(** * Witnesses *)


Lemma restore_returns_source_witness :
  ∃ d', Combine sample_override None None ["/auth"; "/auth/password"; "/name"] = Ok d' ∧
        override_Merge sample_source "Source" d' = Ok (sample_source, "Source", []).
Proof.
  assert (Fields sample_override = ["/auth"; "/auth/password"; "/name"]) as H
    by (vm_compute; reflexivity).
  rewrite <-H. destruct (restore_returns_source sample_source "Source" sample_override) as (d' & Hd & _ & Hm).
  - vm_compute. reflexivity.
  - rewrite H. discriminate.
  - exists d'. split; [exact Hd|exact Hm].
Defined.

Lemma Restore_exact_witness :
  Restore sample_override ["/auth/password"] = Restore sample_override ["/auth/password"] ∧
  ∀ d', Restore sample_override ["/auth/password"] = Ok d' → "/name" ∈ Fields d'.
Proof.
  destruct (Restore_exact sample_override ["/auth/password"]) as (_ & Hp & Hf); [discriminate|].
  split; [by apply Hp|]. intros d' Hd. apply (Hf d' Hd).
  split_and!; apply (bool_decide_eq_true_1 _); vm_compute; reflexivity.
Defined.


Lemma later_auth_patch_forgets_witness :
  "/auth/password" ∈ Fields sample_override ∧
  "/auth/password" ∉ Fields (combined sample_override sample_later).
Proof.
  split; [apply (bool_decide_eq_true_1 _); vm_compute; reflexivity|].
  eapply (later_auth_patch_forgets sample_source "Source" sample_override sample_later
            (password_patch no_secret no_secret) (combined sample_override sample_later)
            (merged_node (combined sample_override sample_later)) "Custom" _ _ "from-source"
            sample_round_trip); try (vm_compute; reflexivity).
  apply (bool_decide_eq_true_1 _); vm_compute; reflexivity.
Defined.
