(* ===== verification/ShareTheorems.v ===== *)
(** Concrete libraries for the share links: a URL parser and a JSON reader for the plain
    forms of the samples, and what they make of a few links. The identity of imported items:
    what a decision of [Match] says about the records it was taken from. The properties of
    the importer and of the exporter of share links, and of the identity of imported items,
    with their witnesses. *)
From S2P Require Import Prelude Diagnostics IRTypes Hashes Json IRValidate Network Base64 URLText.
From S2P Require Import ShareTypes ShareLink ShareVMess ShareParse ShareEmit ShareFacts ShareSafe.
From S2P Require Import ShareBatch ShareExport ShareRound Sample.

(** [scheme://[user[:password]@]host[?query][#fragment]]. *)
Definition sample_user (text : string) : option Userinfo :=
  match Cut ":" text with
  | Some (user, password) =>
      user ← PathUnescape user; password ← PathUnescape password;
      Some {| ui_Username := user; ui_Password := Some password |}
  | None => user ← PathUnescape text; Some {| ui_Username := user; ui_Password := None |}
  end.

Definition sample_Parse (raw : string) : option ShareURL :=
  '(_, rest) ← CutString "://" raw;
  let '(rest, fragment) := cut_or_all "#" rest in
  let '(rest, query) := cut_or_all "?" rest in
  fragment ← PathUnescape fragment;
  let url user host :=
    {| su_Opaque := ""; su_User := user; su_Host := host; su_Path := ""; su_RawQuery := query;
       su_Fragment := fragment |} in
  match CutLast "@" rest with
  | Some (user, host) => user ← sample_user user; Some (url (Some user) host)
  | None => Some (url None rest)
  end.

(** The fields of a flat object of strings without escapes, from its text split at the
    quotes. *)
Fixpoint flat_fields (fuel : nat) (pieces : list string) : list (string * string) :=
  match fuel, pieces with
  | S fuel, key :: ":" :: value :: "," :: rest => (key, value) :: flat_fields fuel rest
  | S _, key :: ":" :: value :: _ => [(key, value)]
  | _, _ => []
  end.
Definition flat_object (data : string) : list (string * string) :=
  match Split quote data with
  | _ :: pieces => flat_fields (length pieces) pieces
  | [] => []
  end.

Definition quoted (s : string) : string := String quote (s +:+ String quote "").

#[export] Instance sample_share : ShareLibs :=
  {| share_Parse := sample_Parse;
     host_ParseAddr := λ v,
       if v =s "192.0.2.1" then
         Some {| ha_Zone := ""; ha_Is6 := false; ha_Text := v; ha_Unmapped := v |}
       else if v =s "2001:db8::1" then
         Some {| ha_Zone := ""; ha_Is6 := true; ha_Text := v; ha_Unmapped := v |}
       else None;
     idna_ToASCII := λ v, Some v;
     json_steps := λ data,
       tree_steps (TObj ((λ kv, (kv.1, TString kv.2)) <$> flat_object data));
     json_object := λ data,
       Some (Some (list_to_map ((λ kv, (kv.1, quoted kv.2)) <$> flat_object data)));
     json_text := λ raw,
       match Split quote raw with [""; text; ""] => Some text | _ => None end |}.

Lemma trim_right_end t c : ascii_space c = false → trim_right (t +:+ String c "") = t +:+ String c "".
Proof.
  intros Hc. induction t as [|d t IH].
  - change ("" +:+ String c "") with (String c ""). simpl. by rewrite Hc.
  - rewrite string_app_cons. cbn [trim_right]. rewrite IH.
    assert ((t +:+ String c "") =s "" = false) as -> by (apply String.eqb_neq; by destruct t).
    by rewrite andb_false_r.
Qed.

Lemma graphic_not_space c : graphic c = true → ascii_space c = false.
Proof. by destruct c as [[] [] [] [] [] [] [] []]. Qed.

#[export] Instance sample_trim : TrimLaws.
Proof.
  split. intros s (c & t & -> & Hc) (u & d & E & Hd).
  change (ascii_trim (String c t) = String c t). unfold ascii_trim. cbn [trim_left].
  rewrite graphic_not_space by done. rewrite E. by apply trim_right_end, graphic_not_space.
Qed.

(** ** Links *)

Definition trojan_link : string := "trojan://p%40ss@tls.example:443?security=tls&x-group=edge#Node%201".
Definition vmess_text : string :=
  marshal_map (list_to_map
    [("v", "2"); ("ps", "vm"); ("add", "ws.example"); ("port", "443");
     ("id", "00000000-0000-4000-8000-000000000001"); ("aid", "0"); ("scy", "auto"); ("net", "ws");
     ("type", "none"); ("tls", "tls"); ("path", "/ws")]).
Definition vmess_link : string := "vmess://" +:+ base64_encode false true vmess_text.

Lemma trojan_link_valid : candidate_Valid (ParseURI trojan_link) = true.
Proof. vm_compute. reflexivity. Qed.
Lemma vmess_link_valid : candidate_Valid (ParseURI vmess_link) = true.
Proof. vm_compute. reflexivity. Qed.
Lemma insecure_link_invalid :
  candidate_Valid (ParseURI "trojan://pw@tls.example:443?insecure=1") = false.
Proof. vm_compute. reflexivity. Qed.

(** ** Nodes *)

Definition edge_resource (name : string) (node : Node) : Resource :=
  {| r_Metadata :=
       {| md_ResourceID := "00000000-0000-4000-8000-00000000000a"; md_ScopeID := ""; md_Kind := KindNode;
          md_Revision := 1; md_SchemaVersion := 1; md_Name := name; md_Tags := []; md_Enabled := true;
          md_SecurityEpoch := 1 |};
     r_Payload := Payload_Node node |}.

Definition vless_node : Node :=
  make_node VLESS {| ep_Host := "2001:db8::1"; ep_Port := 8443 |}
    (Auth_UUID {| ua_Kind := AuthUUID; ua_UUID := "00000000-0000-4000-8000-000000000002" |})
    (Transport_TCP {| tcp_Kind := NativeTCP |})
    (Security_TLS {| tls_Mode := TLS; tls_ServerName := "sni.example"; tls_VerifyCertificate := Some true;
                     tls_ALPN := ["h2"; "http/1.1"]; tls_ClientFingerprint := Some "chrome" |})
    {| ft_UDP := None; ft_Multiplex := None; ft_ProtocolVariant := Some XTLSVision |}.

Definition vmess_node_ws : Node :=
  make_node VMess {| ep_Host := "ws.example"; ep_Port := 443 |}
    (Auth_VMess {| vma_Kind := AuthVMessAEAD; vma_UUID := "00000000-0000-4000-8000-000000000001";
                   vma_Cipher := VMessAuto |})
    (Transport_WS {| ws_Kind := WebSocket; ws_Path := "/ws"; ws_Host := Some "cdn.example" |})
    (Security_None {| ns_Mode := SecurityNone |}) no_features.

Definition ss_node_plain : Node :=
  ss_sample_node {| ep_Host := "ss.example"; ep_Port := 8388 |} AES256GCM "p:w/d".

Definition export_sample : list Resource :=
  [edge_resource "Edge & 1" vless_node; edge_resource "ws" vmess_node_ws;
   edge_resource "" ss_node_plain].

Definition export_text (format : string) : string :=
  match encodeExport format export_sample with Some (Ok text) => text | _ => "" end.

Lemma export_sample_plain : encodeExport "uri_list" export_sample = Some (Ok (export_text "uri_list")).
Proof. vm_compute. reflexivity. Qed.
Lemma export_sample_base64 :
  encodeExport "base64_uri_list" export_sample = Some (Ok (export_text "base64_uri_list")).
Proof. vm_compute. reflexivity. Qed.

(** A record confirms the identity of an item: by the external key of the item, or by a
    manual binding to it. *)
Definition identifies (item : Item) (r : OriginRecord) : Prop :=
  (im_ExternalKey item ≠ "" ∧ og_ExternalKey r = im_ExternalKey item) ∨
  (im_SourceItemID item ≠ "" ∧ og_BoundSourceItemID r = im_SourceItemID item).

Lemma collect_None records keep kind method :
  collect records keep kind method = None ↔ ∀ r, r ∈ records → keep r = false.
Proof.
  unfold collect. destruct (filter _ records) as [|h hs] eqn:E.
  - split; [|done]. intros _ r Hr. apply not_true_iff_false. intros Hk.
    assert (r ∈ filter (λ r, keep r = true) records) as H by by apply list_elem_of_filter.
    rewrite E in H. by apply not_elem_of_nil in H.
  - split; [done|]. intros H. assert (h ∈ filter (λ r, keep r = true) records) as Hh
      by (rewrite E; set_solver). apply list_elem_of_filter in Hh as [Hk Hr].
    by rewrite (H h Hr) in Hk.
Qed.

(** What a decision says about the records it was taken from. *)
Definition decided (records : list OriginRecord) (keep : OriginRecord → Prop) (d : Decision) : Prop :=
  if de_Ambiguous d
  then de_NodeID d = "" ∧ de_Revision d = 0 ∧
       ∃ a b, a ∈ records ∧ b ∈ records ∧ keep a ∧ keep b ∧ og_NodeID a ≠ og_NodeID b
  else (∃ r, r ∈ records ∧ keep r ∧ og_NodeID r = de_NodeID d ∧ og_Revision r = de_Revision d) ∧
       ∀ r, r ∈ records → keep r → og_NodeID r = de_NodeID d.

Lemma remove_dups_two {A} `{EqDecision A} (l : list A) :
  (1 < length (remove_dups l))%nat ↔ ∃ a b, a ∈ l ∧ b ∈ l ∧ a ≠ b.
Proof.
  split.
  - intros H. pose proof (NoDup_remove_dups l) as Hn.
    destruct (remove_dups l) as [|a [|b r]] eqn:E; simpl in H; [lia..|].
    apply NoDup_cons in Hn as [Hab _]. exists a, b.
    rewrite <-!(elem_of_remove_dups l), E. set_solver.
  - intros (a & b & Ha & Hb & Hne). rewrite <-elem_of_remove_dups in Ha, Hb.
    destruct (remove_dups l) as [|x [|y r]]; simpl; [set_solver| |lia].
    apply list_elem_of_singleton in Ha, Hb. congruence.
Qed.

Lemma collect_decided records keep kind method d :
  collect records keep kind method = Some d →
  de_Kind d = kind ∧ de_Method d = method ∧ decided records (λ r, keep r = true) d.
Proof.
  unfold collect. destruct (filter _ records) as [|h hs] eqn:E; [done|]. cbv zeta.
  set (ambiguous := (1 <? length (h :: hs))%nat && _). intros [= <-].
  split_and!; [done..|]. unfold decided. cbn [de_Ambiguous de_NodeID de_Revision].
  assert (∀ r, r ∈ h :: hs ↔ keep r = true ∧ r ∈ records) as Hr
    by (intros r; by rewrite <-E, list_elem_of_filter).
  destruct ambiguous eqn:Ea; unfold ambiguous in Ea.
  - apply andb_true_iff in Ea as [_ Ea%Nat.ltb_lt].
    apply remove_dups_two in Ea as (x & y & Hx & Hy & Hne).
    apply list_elem_of_fmap in Hx as (a & -> & Ha), Hy as (b & -> & Hb).
    apply Hr in Ha as [Ka Ra], Hb as [Kb Rb]. split_and!; [done..|]. by exists a, b.
  - assert (∀ r, r ∈ h :: hs → og_NodeID r = og_NodeID h) as Heq.
    { intros r Hin. destruct (decide (og_NodeID r = og_NodeID h)) as [|Hne]; [done|exfalso].
      apply not_true_iff_false in Ea. apply Ea. apply andb_true_iff.
      assert (1 < length (remove_dups (og_NodeID <$> h :: hs)))%nat as H2.
      { apply remove_dups_two. exists (og_NodeID r), (og_NodeID h).
        split_and!; [by apply list_elem_of_fmap_2|csimpl; set_solver|done]. }
      split; apply Nat.ltb_lt; [|done]. destruct hs; [|simpl; lia].
      apply list_elem_of_singleton in Hin. congruence. }
    split.
    + exists h. destruct (proj1 (Hr h)) as [Hk Hin]; [set_solver|]. done.
    + intros r Hin Hk. by apply Heq, Hr.
Qed.

Lemma try_match_decided field records keep kind method d :
  try_match field records keep kind method = Some d →
  field ≠ "" ∧ de_Kind d = kind ∧ de_Method d = method ∧ decided records (λ r, keep r = true) d.
Proof.
  unfold try_match. destruct (String.eqb_spec field ""); [done|].
  intros H. split; [done|]. by eapply collect_decided.
Qed.
Lemma try_match_None field records keep kind method :
  try_match field records keep kind method = None ↔
    field = "" ∨ ∀ r, r ∈ records → keep r = false.
Proof.
  unfold try_match. destruct (String.eqb_spec field "").
  - split; auto.
  - rewrite collect_None. naive_solver.
Qed.

(** The rung of [Match] that decides. *)
Lemma Match_rungs item records d :
  Match item records = Some d →
  (de_Kind d = Identity ∧ (∃ r, r ∈ records ∧ identifies item r) ∧
     ∃ keep, decided records keep d ∧ ∀ r, keep r → identifies item r) ∨
  (de_Kind d ≠ Identity ∧ (∀ r, r ∈ records → ¬ identifies item r) ∧ ∃ keep, decided records keep d).
Proof.
  unfold Match. intros H.
  assert (∀ keep, decided records (λ r, keep r = true) d → ∃ r, r ∈ records ∧ keep r = true) as Hsome.
  { intros keep. unfold decided. destruct (de_Ambiguous d).
    - intros (_ & _ & a & _ & Ha & _ & Hk & _). by exists a.
    - intros [(r & Hr & Hk & _) _]. by exists r. }
  destruct (try_match (im_ExternalKey item) _ _ _ _) as [d'|] eqn:E1.
  { injection H as ->. apply try_match_decided in E1 as (Hf & Hk & _ & Hd). left. split; [done|].
    assert (∀ r, same_key item r = true → identifies item r) as Hi
      by (intros r Hx%String.eqb_eq; by left).
    split; [|by exists (λ r, same_key item r = true)].
    destruct (Hsome _ Hd) as (r & Hr & Hkr). exists r. auto. }
  destruct (try_match (im_SourceItemID item) _ _ _ _) as [d'|] eqn:E2.
  { injection H as ->. apply try_match_decided in E2 as (Hf & Hk & _ & Hd). left. split; [done|].
    assert (∀ r, bound_to item r = true → identifies item r) as Hi
      by (intros r Hx%String.eqb_eq; by right).
    split; [|by exists (λ r, bound_to item r = true)].
    destruct (Hsome _ Hd) as (r & Hr & Hkr). exists r. auto. }
  right. assert (∀ r, r ∈ records → ¬ identifies item r) as Hno.
  { apply try_match_None in E1, E2. intros r Hr [[Hf Hk]|[Hf Hk]].
    - destruct E1 as [E1|E1]; [done|]. specialize (E1 r Hr). unfold same_key in E1.
      by rewrite Hk, String.eqb_refl in E1.
    - destruct E2 as [E2|E2]; [done|]. specialize (E2 r Hr). unfold bound_to in E2.
      by rewrite Hk, String.eqb_refl in E2. }
  destruct (try_match (im_Fingerprint item) _ _ _ _) as [d'|] eqn:E3.
  { injection H as ->. apply try_match_decided in E3 as (_ & Hk & _ & Hd).
    rewrite Hk. split_and!; [done..|]. by exists (λ r, same_fingerprint item r = true). }
  apply collect_decided in H as (Hk & _ & Hd). rewrite Hk. split_and!; [done..|].
  by exists (λ r, resembles item r = true).
Qed.

(** Where a record confirms the identity there is a decision. *)
Lemma Match_answers item records :
  (∃ r, r ∈ records ∧ identifies item r) → ∃ d, Match item records = Some d.
Proof.
  intros (r & Hr & Hi). unfold Match.
  destruct (try_match (im_ExternalKey item) _ _ _ _) as [d|] eqn:E1; [by exists d|].
  destruct (try_match (im_SourceItemID item) _ _ _ _) as [d|] eqn:E2; [by exists d|].
  exfalso. apply try_match_None in E1, E2. destruct Hi as [[Hf Hk]|[Hf Hk]].
  - destruct E1 as [E1|E1]; [done|]. specialize (E1 r Hr). unfold same_key in E1.
    by rewrite Hk, String.eqb_refl in E1.
  - destruct E2 as [E2|E2]; [done|]. specialize (E2 r Hr). unfold bound_to in E2.
    by rewrite Hk, String.eqb_refl in E2.
Qed.

Section ShareTheorems.
Context {P : Platform} {T : GoText} {L : ShareLibs}.

(** (C30) An accepted link is safe: its node validates and is a supported combination, its
    port is in range, certificate verification is on wherever there is TLS, the features
    that a link cannot carry and the origin are unset, its name has no control
    characters, only metadata fields are isolated, and its diagnostics are the warning
    about them. *)
Theorem ParseURI_safe (raw : string) :
  candidate_Valid (ParseURI raw) = true →
  ∃ node, cand_Node (ParseURI raw) = Some node ∧ Node_Validate node = None ∧
    supportedCombination node = None ∧ 1 ≤ ep_Port (n_Endpoint node) ≤ 65535 ∧
    (∀ tls, n_Security node = Security_TLS tls → tls_VerifyCertificate tls = Some true) ∧
    ft_UDP (n_Features node) = None ∧ ft_Multiplex (n_Features node) = None ∧
    n_Origin node = None ∧
    (cand_Name (ParseURI raw) = "" ∨ safeText (cand_Name (ParseURI raw)) = true) ∧
    (∀ key, is_Some (cand_Metadata (ParseURI raw) !! key) → metadataKey key = true) ∧
    Forall (λ d, d = metadata_warning) (cand_Diagnostics (ParseURI raw)).
Proof.
  intros (n & _ & Hn & [_ [Hu Hm] Ho Hp Hs] & Hv & Hc & Hname & Hmeta & Hd)%candidate_Valid_accepted.
  exists n. split_and!; try done; try lia. intros tls E. by rewrite E in Hs.
Qed.

(** A link that is not accepted carries no node and gives its reasons: at least one
    diagnostic of the failure ends the list, and the status is unsupported exactly when
    one of them says so. *)
Theorem ParseURI_explains (raw : string) :
  candidate_Valid (ParseURI raw) = false →
  cand_Node (ParseURI raw) = None ∧
  ∃ reasons, reasons ≠ [] ∧ suffix reasons (cand_Diagnostics (ParseURI raw)) ∧
    cand_Status (ParseURI raw) =
      if existsb (λ d, unsupported_code (d_Code d)) reasons
      then StatusUnsupported else StatusInvalid.
Proof.
  intros Hv. destruct (ParseURI_cases raw) as [(n & Hs & Hn & _)|H]; [exfalso|exact H].
  unfold candidate_Valid in Hv. rewrite Hs, Hn in Hv. done.
Qed.

(** What is exported is imported as it was: a link that [EncodeURI] returns is valid,
    and carries the name and the connection of the node. *)
Theorem EncodeURI_roundtrip (name : string) (node : Node) (uri : string) :
  EncodeURI name node = Ok uri →
  candidate_Valid (ParseURI uri) = true ∧ cand_Name (ParseURI uri) = name ∧
  ∃ back, cand_Node (ParseURI uri) = Some back ∧
    n_Protocol back = n_Protocol node ∧ n_Endpoint back = n_Endpoint node ∧
    n_Auth back = n_Auth node ∧ n_Transport back = n_Transport node ∧
    n_Security back = n_Security node ∧ n_Features back = n_Features node.
Proof.
  intros (_ & Hc & _)%EncodeURI_ok.
  apply check_export_ok in Hc as (_ & Hv & Hn & back & Hb & ? & ? & ? & ? & ? & ?).
  split_and!; [done..|]. by exists back.
Qed.

(** (C29) Export and import compose: the document of a list of nodes, plain or in Base64,
    is imported as one valid candidate for each node, in order, with its name and its
    connection. *)
Theorem export_import `{!TrimLaws} (ctx : Context) (format doc : string) (nodes : list Resource)
    (maxDecoded maxEntries : Z) (lines : list string) :
  encodeExport format nodes = Some (Ok doc) → export_lines 0 nodes = Ok lines → nodes ≠ [] →
  1 ≤ maxDecoded ≤ MaxDecodedBytes → 1 ≤ maxEntries ≤ MaxEntries →
  Z.of_nat (String.length (document lines)) ≤ maxDecoded →
  Z.of_nat (length nodes) ≤ maxEntries → (∀ k, ctx k = None) →
  ∃ r, ParseBounded ctx FormatAuto doc maxDecoded maxEntries = Some (Ok r) ∧
    ir_Format r = (if format =s "base64_uri_list" then FormatBase64 else FormatText) ∧
    Forall2 (λ resource c,
      candidate_Valid c = true ∧ cand_Name c = md_Name (r_Metadata resource) ∧
      ∃ node back, r_Payload resource = Payload_Node node ∧ cand_Node c = Some back ∧
        same_connection node back) nodes (ir_Candidates r).
Proof.
  intros HE Hl Hne HD HE' Hs Hn Hc.
  pose proof (export_lines_ok _ _ _ Hl) as HF. pose proof (export_lines_link _ _ _ Hl) as HL.
  assert (lines ≠ []) as Hln by (intros ->; by inversion HF; subst).
  assert (Z.of_nat (length lines) ≤ maxEntries) as Hcount by by rewrite <-(Forall2_length _ _ _ HF).
  apply restored_candidates_restore in HF.
  unfold encodeExport in HE. rewrite Hl in HE. destruct (_ || _); [|done]. injection HE as <-.
  destruct (format =s "base64_uri_list").
  - eexists. split; [apply import_base64; set_solver|]. by split.
  - eexists. split; [apply import_plain; set_solver|]. by split.
Qed.

(** Shadowsocks links are complete: a node with a name or an IPv4 address that reads
    back unchanged, a known method and any password is exported, and the link is read
    back as exactly that node. *)
Theorem shadowsocks_exported (name : string) (e : Endpoint) (method password : string) :
  safeText name = true → method ∈ ss_methods → password ≠ "" ∧ ValidString password = true →
  plain_host (ep_Host e) → 1 ≤ ep_Port e ≤ 65535 → parses_authority (hostPort e) →
  Node_Validate (ss_sample_node e method password) = None →
  Z.of_nat (String.length (ss_link name e method password)) ≤ MaxURIBytes →
  EncodeURI name (ss_sample_node e method password) = Ok (ss_link name e method password) ∧
  cand_Node (ParseURI (ss_link name e method password)) = Some (ss_sample_node e method password) ∧
  cand_Name (ParseURI (ss_link name e method password)) = name.
Proof.
  intros. rewrite ss_link_exported, ss_link_parsed by done. done.
Qed.

(** (C31) Parsing a list always answers, whatever the context does, and the answer is
    bounded: at most two layers of Base64 are taken off, and the candidates are those of
    the entries of the text below, every one of them, numbered from zero with increasing
    lines, at least one and no more than the limit. *)
Theorem ParseBounded_bounded (ctx : Context) (format input : string) (maxDecoded maxEntries : Z) :
  ∃ answer, ParseBounded ctx format input maxDecoded maxEntries = Some answer ∧
    ∀ r, answer = Ok r →
      (ir_Base64Layers r ≤ MaxBase64Layers)%nat ∧
      (1 ≤ length (ir_Candidates r))%nat ∧ Z.of_nat (length (ir_Candidates r)) ≤ maxEntries ∧
      ∃ text entries,
        peel (ir_Base64Layers r) (TrimPrefix input byte_order_mark) = Some text ∧
        entries = list_entries (unix_lines text) ∧
        StronglySorted (λ a b, a.1 < b.1) entries ∧
        length (ir_Candidates r) = length entries ∧
        ∀ i line raw, entries !! i = Some (line, raw) →
          ir_Candidates r !! i = Some (set_place (Z.of_nat i) line (ParseURI raw)).
Proof.
  destruct (ParseBounded_cases ctx format input maxDecoded maxEntries) as (answer & H & Hr).
  exists answer. split; [done|]. intros r E. destruct (Hr r E) as (H1 & text & H2 & H3 & H4 & H5).
  split_and!; [done..|]. exists text. eexists. split_and!; [done|done|rewrite list_entries_from; apply entries_from_sorted| |].
  - by rewrite H3, entry_candidates_length.
  - intros i line raw Hi. rewrite H3. unfold entry_candidates. by rewrite list_lookup_imap, Hi.
Qed.

(** [decodeBase64] is exact: it accepts the encodings of a text, in the standard or
    the URL alphabet, with padding or without, and no other text. *)
Theorem decodeBase64_exact (raw d : string) :
  decodeBase64 raw false = Ok d ↔ raw ≠ "" ∧ ∃ url padded, raw = base64_encode url padded d.
Proof. apply decodeBase64_encodes. Qed.

(** The scan of a VMess document is exact: a document is taken whole exactly when its
    values are nested at most 32 deep and no object in it repeats a key. *)
Theorem scanJSONValue_exact (t : JTree) :
  scanJSONValue (tree_steps t) = Ok [] ↔ (nesting t ≤ 32)%nat ∧ distinct_keys t.
Proof. symmetry. apply scanJSONValue_tree. Qed.

(** Queries are read back: the query that is exported for a map of fields is parsed as
    that map. *)
Theorem strictQuery_roundtrip (m : gmap string string) :
  (∀ k v, m !! k = Some v → k ≠ "" ∧ safeText k = true ∧ ValidString v = true) →
  strictQuery (if bool_decide (m = ∅) then "" else encode_query m) = Ok m.
Proof. apply strictQuery_encode_query. Qed.

(** Isolation is exact: on a new candidate the fields outside the dialect become its
    metadata, with a single warning, and nothing else of it changes; the link goes on
    exactly when all of them are metadata fields. *)
Theorem isolateUnknown_isolates (q : gmap string string) (allowed : list string) (c : Candidate) :
  cand_Diagnostics c = [] → cand_Metadata c = ∅ →
  let (r, c') := isolateUnknown q allowed c in
  cand_Metadata c' = (λ v, Marshal (Str v)) <$> unknown_fields allowed q ∧
  cand_Diagnostics c' =
    (if bool_decide (unknown_fields allowed q = ∅) then [] else [metadata_warning]) ∧
  same_but_metadata c c' ∧
  r = if forallb metadataKey (unknown_keys allowed (sorted_keys q))
      then Ok tt else Err (Share.failure Share.Unsupported "/query").
Proof. apply isolateUnknown_exact. Qed.

(** An identity is claimed exactly when a record confirms it, by its external key or
    by a manual binding; similar names, endpoints and fingerprints never give one. A
    decision that is not ambiguous names a node that a record of the list has, a
    confirming record if it is an identity; an ambiguous one names none. *)
Theorem Match_identity (item : Item) (records : list OriginRecord) :
  ((∃ d, Match item records = Some d ∧ de_Kind d = Identity) ↔
     ∃ r, r ∈ records ∧ identifies item r) ∧
  ∀ d, Match item records = Some d →
    if de_Ambiguous d
    then de_NodeID d = "" ∧ de_Revision d = 0 ∧
         ∃ a b, a ∈ records ∧ b ∈ records ∧ og_NodeID a ≠ og_NodeID b ∧
           (de_Kind d = Identity → identifies item a ∧ identifies item b)
    else ∃ r, r ∈ records ∧ og_NodeID r = de_NodeID d ∧ og_Revision r = de_Revision d ∧
           (de_Kind d = Identity → identifies item r).
Proof.
  split.
  - split.
    + intros (d & H & Hk). by destruct (Match_rungs _ _ _ H) as [(_ & Hr & _)|(Hne & _)].
    + intros Hr. destruct (Match_answers item records Hr) as (d & H).
      exists d. split; [done|].
      destruct (Match_rungs _ _ _ H) as [(Hk & _)|(_ & Hno & _)]; [done|].
      destruct Hr as (r & Hr & Hi). by destruct (Hno r Hr).
  - intros d H. apply Match_rungs in H as [(Hk & _ & keep & Hd & Hi)|(Hk & _ & keep & Hd)];
      unfold decided in Hd; destruct (de_Ambiguous d).
    + destruct Hd as (? & ? & a & b & ? & ? & ? & ? & ?).
      split_and!; [done..|]. exists a, b. split_and!; auto.
    + destruct Hd as [(r & ? & ? & ? & ?) _]. exists r. split_and!; auto.
    + destruct Hd as (? & ? & a & b & ? & ? & ? & ? & ?).
      split_and!; [done..|]. exists a, b. split_and!; done.
    + destruct Hd as [(r & ? & ? & ? & ?) _]. exists r. split_and!; done.
Qed.
End ShareTheorems.

(** ** Witnesses *)

Lemma ParseURI_safe_witness :
  ∃ node, cand_Node (ParseURI trojan_link) = Some node ∧ Node_Validate node = None.
Proof.
  destruct (ParseURI_safe trojan_link trojan_link_valid) as (n & H1 & H2 & _).
  exists n. exact (conj H1 H2).
Defined.

Lemma ParseURI_explains_witness :
  cand_Node (ParseURI "trojan://pw@tls.example:443?insecure=1") = None.
Proof. apply (ParseURI_explains _ insecure_link_invalid). Defined.

Lemma EncodeURI_roundtrip_witness :
  ∃ uri back, EncodeURI "Edge & 1" vless_node = Ok uri ∧ cand_Node (ParseURI uri) = Some back ∧
    n_Security back = n_Security vless_node.
Proof.
  assert (∃ uri, EncodeURI "Edge & 1" vless_node = Ok uri) as [uri H]
    by (eexists; vm_compute; reflexivity).
  destruct (EncodeURI_roundtrip _ _ _ H) as (_ & _ & back & Hb & _ & _ & _ & _ & Hs & _).
  exists uri, back. exact (conj H (conj Hb Hs)).
Defined.

Lemma export_import_witness :
  ∃ r, ParseBounded (λ _, None) FormatAuto (export_text "base64_uri_list") 4096 10 = Some (Ok r) ∧
    ir_Format r = FormatBase64.
Proof.
  assert (∃ lines, export_lines 0 export_sample = Ok lines ∧
                   Z.of_nat (String.length (document lines)) ≤ 4096) as (lines & Hl & Hs)
    by (eexists; split; [vm_compute; reflexivity|vm_compute; discriminate]).
  destruct (export_import (λ _, None) _ _ _ 4096 10 lines export_sample_base64 Hl)
    as (r & Hr & Hf & _);
    [discriminate|unfold MaxDecodedBytes; lia|unfold MaxEntries; lia|exact Hs|vm_compute; discriminate|reflexivity|].
  exists r. exact (conj Hr Hf).
Defined.

Lemma shadowsocks_exported_witness :
  EncodeURI "n1" (ss_sample_node {| ep_Host := "ss.example"; ep_Port := 8388 |} AES256GCM "p:w/d") =
  Ok (ss_link "n1" {| ep_Host := "ss.example"; ep_Port := 8388 |} AES256GCM "p:w/d").
Proof.
  apply shadowsocks_exported; [reflexivity|set_solver|done| |done| |reflexivity|by vm_compute].
  - split; [reflexivity| |reflexivity|done].
    intros c Hc. repeat (apply elem_of_cons in Hc as [->|Hc]; [done|]). by apply elem_of_nil in Hc.
  - eexists. split; [vm_compute; reflexivity|done].
Defined.

Lemma strictQuery_roundtrip_witness :
  strictQuery (encode_query {["path" := "/a b"]}) = Ok {["path" := "/a b"]}.
Proof.
  pose proof (strictQuery_roundtrip {["path" := "/a b"]}) as H.
  rewrite bool_decide_false in H by done. apply H.
  intros k v. rewrite lookup_singleton_Some. intros [<- <-].
  split; [discriminate|]. split; vm_compute; reflexivity.
Defined.

Lemma isolateUnknown_isolates_witness :
  cand_Metadata (isolateUnknown {["x-a" := "1"]} [] new_candidate).2 =
    (λ v, Marshal (Str v)) <$> unknown_fields [] {["x-a" := "1"]}.
Proof.
  pose proof (isolateUnknown_isolates {["x-a" := "1"]} [] new_candidate eq_refl eq_refl) as H.
  destruct (isolateUnknown _ _ _) as [r c]. apply H.
Defined.
