(* ===== verification/CompilerTheorems.v ===== *)
(** The compiler's theorems: a frozen input is expanded without a panic into a graph
    whose tags are distinct and whose references all resolve; routing keeps its
    meaning. *)
From S2P Require Import Prelude Diagnostics IRTypes Hashes IRValidate Frozen FrozenFacts.
From S2P Require Import Capability Labels Adapter Compiler RouteFacts ExpandFacts MemberFacts.
From S2P Require Import GraphFacts PrepareFacts Sample.

Section Theorems.
Context {P : Platform} {T : GoText}.
Context (catalog : CapabilityCatalog).
Context (src : FrozenInputSpec) (input : FrozenInput) (target : Target).

(** The labels' digits are hexadecimal. *)
Lemma sha256_hex : HexDigest sha256Hex.
Proof. exact sha256Hex_chars. Qed.

(** [Prepare] never panics on a frozen input: no type assertion fails and no
    index is out of range, whatever the target and the catalog, as long as the schema
    fixes what it documents. *)
Theorem Prepare_never_panics :
  SchemaContract P → NewFrozenInput src = Ok input →
  Prepare sha256Hex catalog input target ≠ Panics.
Proof.
  intros Hs Hn E. pose proof (Prepare_safe Hs sha256Hex sha256_hex catalog src input target Hn) as H.
  by rewrite E in H.
Qed.

Lemma prepared g diags :
  SchemaContract P → NewFrozenInput src = Ok input →
  Prepare sha256Hex catalog input target = Ret (g, diags) →
  Prepared catalog target (normalize_spec src) g.
Proof.
  intros Hs Hn E. pose proof (Prepare_safe Hs sha256Hex sha256_hex catalog src input target Hn) as H.
  by rewrite E in H.
Qed.

(** (C35) In a prepared graph all outbound and policy tags are pairwise distinct, and
    the emitters' collision check ([OutboundRefs]: distinct, non-empty, not reserved,
    within the limit) accepts its outbounds. *)
Theorem prepared_tags_distinct g diags :
  SchemaContract P → NewFrozenInput src = Ok input →
  Prepare sha256Hex catalog input target = Ret (g, diags) →
  NoDup ((or_Tag <$> outbound_list (emit_input g)) ++ (pi_Tag <$> g_Policies g)) ∧
  OutboundRefs (emit_input g) = Ok (outbound_list (emit_input g)).
Proof.
  intros Hs Hn E. destruct (prepared _ _ Hs Hn E) as [HG _]. split.
  - rewrite outbound_list_tags. by destruct HG as (r & s & _ & _ & _ & [H _ _ _ _ _ _ _ _ _ _ _]).
  - apply OutboundRefs_Ok. split; [by eapply GraphOk_outbounds|done].
Qed.

(** No dangling reference: the final tag, the target of every compiled rule and
    the outbound of every DNS resolver is "direct", "block", or the tag of the very
    resource the snapshot references; compiled rules are the enabled rules in order. *)
Theorem prepared_references_resolve g diags :
  SchemaContract P → NewFrozenInput src = Ok input →
  Prepare sha256Hex catalog input target = Ret (g, diags) →
  ∃ resources, MapOf target (fs_Resources (normalize_spec src)) resources ∧
    RoutingOk resources (normalize_spec src) g ∧ DNSOk resources (normalize_spec src) g.
Proof.
  intros Hs Hn E. destruct (prepared _ _ Hs Hn E) as [(r & s & HM & _ & _ & HO) _].
  exists r. split_and!; [done|apply HO..].
Qed.

(** (C36) Routing keeps its meaning: for every connection (any interpretation of the
    native predicates), the first compiled rule that matches, or the final tag, is
    the tag of what the profile's first enabled matching rule, or its final target,
    refers to. *)
Theorem prepared_routing_first_match g diags ref :
  SchemaContract P → NewFrozenInput src = Ok input →
  Prepare sha256Hex catalog input target = Ret (g, diags) →
  fs_RoutingProfile (normalize_spec src) = Some ref →
  ∃ resources ri r p, MapOf target (fs_Resources (normalize_spec src)) resources ∧
    g_Routing g = Some ri ∧ resources !! fr_ResourceID ref = Some r ∧
    r_Payload r = Payload_RoutingProfile p ∧
    ∀ atom, Stands g (route_profile atom resources (rp_Rules p) (rp_Final p))
              (route_compiled atom (ri_Rules ri) (g_FinalTag g)).
Proof.
  intros Hs Hn E Href. destruct (prepared _ _ Hs Hn E) as [(res & s & HM & _ & _ & HO) _].
  pose proof (or_routing _ _ _ _ _ _ HO) as HR. unfold RoutingOk in HR. rewrite Href in HR.
  destruct (g_Routing g) as [ri|]; [|done]. destruct HR as (r & p & H1 & H2 & _ & _ & H5 & H6).
  exists res, ri, r, p. split_and!; try done. intros atom. by apply route_first_match.
Qed.

(** Every policy instance is a policy group of the snapshot with the target's
    override merged in, one the family and preset admit; its members are the tags of
    the group's members, the default first and the others in their order. *)
Theorem prepared_policies g diags :
  SchemaContract P → NewFrozenInput src = Ok input →
  Prepare sha256Hex catalog input target = Ret (g, diags) →
  ∃ resources, MapOf target (fs_Resources (normalize_spec src)) resources ∧
    Forall (PolicyOk target resources g) (g_Policies g).
Proof.
  intros Hs Hn E. destruct (prepared _ _ Hs Hn E) as [(r & s & HM & _ & _ & HO) _].
  exists r. split; [done|apply HO].
Qed.

(** Every member of the snapshot has a tag; every chain instance is a chain of
    the snapshot whose first and second hop are its two nodes in their order, and
    every independent outbound is a node of the snapshot. *)
Theorem prepared_chains_and_members g diags :
  SchemaContract P → NewFrozenInput src = Ok input →
  Prepare sha256Hex catalog input target = Ret (g, diags) →
  ∃ resources, MapOf target (fs_Resources (normalize_spec src)) resources ∧
    Forall (NodeOk resources) (g_Independents g) ∧ Forall (ChainOk resources) (g_Chains g) ∧
    ∀ m, m ∈ fs_Members (normalize_spec src) → ∃ tag, GNames g tag (fr_ResourceID m).
Proof.
  intros Hs Hn E. destruct (prepared _ _ Hs Hn E) as [(r & s & HM & Hl & _ & HO) _].
  exists r. split_and!; [done|apply HO..|]. intros m Hm. by apply (or_listed _ _ _ _ _ _ HO), Hl.
Qed.

(** The required capabilities are exactly those of the graph's requirements,
    sorted and without repetition; the core build has each of them and rejects none;
    the unverified ones are listed, so that nothing unproven is reported as proven. *)
Theorem prepared_capabilities g diags :
  SchemaContract P → NewFrozenInput src = Ok input →
  Prepare sha256Hex catalog input target = Ret (g, diags) →
  CapabilitiesOk catalog g (g_RequiredKeys g) (g_UnverifiedKeys g) ∧
  g_CapabilityState g = Unverified.
Proof.
  intros Hs Hn E. destruct (prepared _ _ Hs Hn E) as (_ & _ & _ & HC). split; [done|].
  clear -E. unfold Prepare in E. destruct (check_target _ _ _) as [b| |]; try done.
  destruct (expand_graph _ _ _ _) as [g'| |]; try done.
  destruct (collectCapabilities _ _) as [[[ks us] ds]| |]; try done. by injection E as <- _.
Qed.

(** Limits: a prepared graph has at most 2000 outbounds (a chain counts twice) and
    at most 20000 compiled rules; its preset, when it has one, is the pinned revision
    of the target's preset for the target's family and format, and comes with routing
    and DNS; without one the graph has no routing, no DNS and no policy. *)
Theorem prepared_bounds g diags :
  SchemaContract P → NewFrozenInput src = Ok input →
  Prepare sha256Hex catalog input target = Ret (g, diags) →
  Z.of_nat (length (g_Independents g)) + 2 * Z.of_nat (length (g_Chains g)) ≤ 2000 ∧
  rule_count g ≤ 20000 ∧
  ∃ resources, MapOf target (fs_Resources (normalize_spec src)) resources ∧
    PresetOk target resources g.
Proof.
  intros Hs Hn E. destruct (prepared _ _ Hs Hn E) as [(r & s & HM & _ & Hc & HO) _].
  split_and!; [|apply HO|exists r; split; [done|apply HO]].
  rewrite (or_count _ _ _ _ _ _ HO). exact Hc.
Qed.

(** A target compiles only when it is the one the snapshot pins under its key,
    its format is its family's, its adapter version is the catalog's, and its core
    build is known, of its family and has its digest. *)
Theorem Prepare_checks_target out :
  Prepare sha256Hex catalog input target = Ret out →
  FrozenInput_Target input (t_Key target) = Some target ∧
  expectedFormat (t_CoreFamily target) = Some (t_Format target) ∧
  t_AdapterVersion target = cat_AdapterVersion catalog ∧
  ∃ build, Catalog_Build catalog (t_CoreBuildID target) = Ok build ∧
    b_Family build = t_CoreFamily target ∧
    equalDigest (b_BinarySHA256 build) (t_CoreBuildSHA256 target) = true.
Proof.
  unfold Prepare. pose proof (check_target_safe catalog input target) as H.
  destruct (check_target catalog input target) as [b| |]; [|done..]. intros _.
  destruct H as (_ & H1 & H2 & H3 & H4 & H5 & H6). split_and!; try done.
  exists b. split_and!; try done. unfold Authenticate in H6. rewrite H4 in H6. simpl in H6.
  destruct (_ =s ""), (equalDigest _ _); done.
Qed.
End Theorems.

(** The condition of a match exists exactly when its rule sets are rule sets (of
    domains only, in a DNS rule), and it evaluates to: AND over the fields, OR over
    the values of a field and over the entries of the rule sets. *)
Theorem routeCondition_and_or atom resources m dns :
  (rule_sets_ok resources dns (rm_RuleSetIDs m) ↔ ∃ c, routeCondition m resources dns = Ret c) ∧
  ∀ c, routeCondition m resources dns = Ret c → eval atom c = match_holds atom resources m.
Proof.
  split; [split|].
  - intros Hok. destruct (routeCondition_eval atom _ _ _ Hok) as (c & Hc & _). eauto.
  - intros [c Hc]. by eapply routeCondition_inv.
  - intros c Hc. destruct (routeCondition_eval atom _ _ _ (routeCondition_inv _ _ _ _ Hc))
      as (c' & Hc' & Hev). rewrite Hc in Hc'. by injection Hc' as <-.
Qed.

(** ** Witnesses *)

Lemma Prepare_never_panics_witness :
  Prepare sha256Hex sample_catalog sample_input sample_target ≠ Panics.
Proof.
  apply (Prepare_never_panics sample_catalog sample_spec).
  - apply sample_schema.
  - apply sample_new.
Defined.

(** The hypotheses of the theorems on a prepared graph hold of the sample. *)
Ltac prepare_sample thm :=
  destruct sample_prepared as [[g diags] E]; exists g, diags; split; [exact E|];
  eapply (thm _ _ sample_catalog sample_spec sample_input sample_target);
    [apply sample_schema|apply sample_new|exact E].

Lemma prepared_tags_distinct_witness :
  ∃ g diags, Prepare sha256Hex sample_catalog sample_input sample_target = Ret (g, diags) ∧
    NoDup ((or_Tag <$> outbound_list (emit_input g)) ++ (pi_Tag <$> g_Policies g)) ∧
    OutboundRefs (emit_input g) = Ok (outbound_list (emit_input g)).
Proof. prepare_sample @prepared_tags_distinct. Defined.

Lemma prepared_references_resolve_witness :
  ∃ g diags, Prepare sha256Hex sample_catalog sample_input sample_target = Ret (g, diags) ∧
  ∃ resources, MapOf sample_target (fs_Resources (normalize_spec sample_spec)) resources ∧
    RoutingOk resources (normalize_spec sample_spec) g ∧ DNSOk resources (normalize_spec sample_spec) g.
Proof. prepare_sample @prepared_references_resolve. Defined.

Lemma prepared_routing_first_match_witness :
  ∃ g diags, Prepare sha256Hex sample_catalog sample_input sample_target = Ret (g, diags) ∧
  ∃ resources ri r p, MapOf sample_target (fs_Resources (normalize_spec sample_spec)) resources ∧
    g_Routing g = Some ri ∧ resources !! "r1" = Some r ∧ r_Payload r = Payload_RoutingProfile p ∧
    ∀ atom, Stands g (route_profile atom resources (rp_Rules p) (rp_Final p))
              (route_compiled atom (ri_Rules ri) (g_FinalTag g)).
Proof.
  destruct sample_prepared as [[g diags] E]. exists g, diags. split; [exact E|].
  apply (prepared_routing_first_match sample_catalog sample_spec sample_input
           sample_target g diags (pin "r1" KindRoutingProfile));
    [apply sample_schema|apply sample_new|exact E|reflexivity].
Defined.

Lemma prepared_policies_witness :
  ∃ g diags, Prepare sha256Hex sample_catalog sample_input sample_target = Ret (g, diags) ∧
  ∃ resources, MapOf sample_target (fs_Resources (normalize_spec sample_spec)) resources ∧
    Forall (PolicyOk sample_target resources g) (g_Policies g).
Proof. prepare_sample @prepared_policies. Defined.

Lemma prepared_chains_and_members_witness :
  ∃ g diags, Prepare sha256Hex sample_catalog sample_input sample_target = Ret (g, diags) ∧
  ∃ resources, MapOf sample_target (fs_Resources (normalize_spec sample_spec)) resources ∧
    Forall (NodeOk resources) (g_Independents g) ∧ Forall (ChainOk resources) (g_Chains g) ∧
    ∀ m, m ∈ fs_Members (normalize_spec sample_spec) → ∃ tag, GNames g tag (fr_ResourceID m).
Proof. prepare_sample @prepared_chains_and_members. Defined.

Lemma prepared_capabilities_witness :
  ∃ g diags, Prepare sha256Hex sample_catalog sample_input sample_target = Ret (g, diags) ∧
  CapabilitiesOk sample_catalog g (g_RequiredKeys g) (g_UnverifiedKeys g) ∧
  g_CapabilityState g = Unverified.
Proof. prepare_sample @prepared_capabilities. Defined.

Lemma prepared_bounds_witness :
  ∃ g diags, Prepare sha256Hex sample_catalog sample_input sample_target = Ret (g, diags) ∧
  Z.of_nat (length (g_Independents g)) + 2 * Z.of_nat (length (g_Chains g)) ≤ 2000 ∧
  rule_count g ≤ 20000 ∧
  ∃ resources, MapOf sample_target (fs_Resources (normalize_spec sample_spec)) resources ∧
    PresetOk sample_target resources g.
Proof. prepare_sample @prepared_bounds. Defined.

Lemma Prepare_checks_target_witness :
  ∃ out, Prepare sha256Hex sample_catalog sample_input sample_target = Ret out ∧
  FrozenInput_Target sample_input (t_Key sample_target) = Some sample_target ∧
  expectedFormat (t_CoreFamily sample_target) = Some (t_Format sample_target) ∧
  t_AdapterVersion sample_target = cat_AdapterVersion sample_catalog ∧
  ∃ build, Catalog_Build sample_catalog (t_CoreBuildID sample_target) = Ok build ∧
    b_Family build = t_CoreFamily sample_target ∧
    equalDigest (b_BinarySHA256 build) (t_CoreBuildSHA256 sample_target) = true.
Proof.
  destruct sample_prepared as [out E]. exists out. split; [exact E|].
  exact (Prepare_checks_target sample_catalog sample_input sample_target out E).
Defined.
