(* ===== verification/IRTheorems.v ===== *)
(** Theorems of the intermediate representation: what a valid snapshot is, its
    canonical form, and the exact meaning of the validators. *)
From S2P Require Import Prelude Diagnostics IRTypes IRValidate ValidateFacts Frozen FrozenFacts.
From S2P Require Import Sample.

Section Theorems.
Context {P : Platform}.

(** (C37) A frozen input validates exactly when it is well formed: within the limit,
    identifiers, target keys and members unique, one scope, everything enabled, every
    pin and every reference of every payload resolved, overrides mergeable, and every
    resource reachable from the declared roots. A rejection always gives a reason. *)
Theorem FrozenInputSpec_Validate_exact v :
  (FrozenInputSpec_Validate v = None ↔ WellFormed v) ∧ FrozenInputSpec_Validate v ≠ Some [].
Proof.
  split; [apply FrozenInputSpec_Validate_iff|].
  apply FrozenInputSpec_Validate_explained.
Qed.

(** The canonical form is unique: two specifications that list the same
    resources, members, targets and tags in different orders freeze to the same
    input. *)
Theorem NewFrozenInput_canonical v w f g :
  Reordered v w → NewFrozenInput v = Ok f → NewFrozenInput w = Ok g → f = g.
Proof. apply NewFrozenInput_canonical_aux. Qed.

(** Freezing accepts exactly the well-formed specifications whose payloads have
    a concrete type; the frozen input passes its own validation again, and freezing
    its specification gives it back. *)
Theorem NewFrozenInput_revalidates v f :
  OrderBlind → NewFrozenInput v = Ok f →
  FrozenInput_Validate f = None ∧ WellFormed v ∧ WellFormed (normalize_spec v) ∧
  f = {| fi_spec := Some (normalize_spec v) |}.
Proof.
  intros Hb H. pose proof H as (_ & Hwf & ->)%NewFrozenInput_Ok. split_and!; try done.
  - by eapply NewFrozenInput_valid_aux.
  - by apply WellFormed_normalize.
Qed.

(** Merging an override succeeds exactly on the policy group it names, when
    both are valid and the result is; only the fields the override sets change. *)
Theorem MergePolicyOverride_exact base o next :
  MergePolicyOverride base o = Ok next ↔
  ∃ g, r_Payload base = Payload_PolicyGroup g ∧ rid base = po_PolicyGroupID o ∧
    Resource_Validate base = None ∧ PolicyOverride_Validate o = None ∧
    PolicyGroup_Validate (merged g o) = None ∧ next = merged g o.
Proof. apply MergePolicyOverride_Ok. Qed.

(** A DNS profile validates exactly when resolver identifiers are unique across
    both lists, every HTTPS resolver starts from a bootstrap resolver, and the final
    resolver and every rule's resolver exist; it is then acyclic, so the cycle search
    never reports anything on a valid profile. *)
Theorem DNSProfile_Validate_exact v :
  (DNSProfile_Validate v = None ↔ DNSProfileOk v) ∧
  (DNSProfile_Validate v = None → dns_cycles (dp_Resolvers v) = []).
Proof.
  split; [apply DNSProfile_Validate_iff|].
  intros H%DNSProfile_Validate_iff. by apply dns_cycles_silent, DNSProfileOk_no_cycle.
Qed.

(** A client preset validates exactly when the schema accepts it, its listener is
    SOCKS on the loopback address and fixed port, and its control interface, when
    enabled, is the family's fixed loopback port. *)
Theorem ClientPreset_Validate_exact v :
  ClientPreset_Validate v = None ↔
    validateValue "client_preset" (SV_ClientPreset v) = None ∧ Loopback v.
Proof. apply ClientPreset_Validate_iff. Qed.

(** The content hash of a rule set is a function of the set of its entries: the
    order and repetitions of the entries do not matter. *)
Theorem contentHash_order_blind v w :
  rsw_SchemaVersion v = rsw_SchemaVersion w → rsw_Format v = rsw_Format w →
  (∀ e, e ∈ rsw_Entries v ↔ e ∈ rsw_Entries w) → contentHash v = contentHash w.
Proof. apply contentHash_set. Qed.

(** A policy group validates exactly when its schema and health check do, no
    member is listed twice and the default is one of the members. *)
Theorem PolicyGroup_Validate_exact v :
  PolicyGroup_Validate v = None ↔
    validateValue "policy_group" (SV_PolicyGroup v) = None ∧
    PolicyHealthCheck_Validate (pg_HealthCheck v) = None ∧
    NoDup (tr_ResourceID <$> pg_Members v) ∧ pg_DefaultMember v ∈ pg_Members v.
Proof. apply PolicyGroup_Validate_iff. Qed.
End Theorems.

(** A JSON pointer determines its tokens: splitting and unescaping what
    [pointer] escaped and joined gives the tokens back. *)
Theorem pointer_roundtrip ts ts' :
  pointer_tokens (pointer ts) = ts ∧ (pointer ts = pointer ts' ↔ ts = ts').
Proof.
  split; [apply pointer_tokens_pointer|]. split; [|by intros ->].
  intros H. by rewrite <-(pointer_tokens_pointer ts), H, pointer_tokens_pointer.
Qed.

(** Stabilised diagnostics lose none and invent none, are sorted by path and
    code, repeat no neighbour, and are stable under stabilising again. *)
Theorem stableDiagnostics_normal_form d :
  (∀ x, x ∈ stableDiagnostics d ↔ x ∈ d) ∧ Sorted diagnostic_le (stableDiagnostics d) ∧
  no_stutter (stableDiagnostics d) ∧ stableDiagnostics (stableDiagnostics d) = stableDiagnostics d.
Proof.
  split_and!; [intros; apply elem_of_stableDiagnostics|apply stableDiagnostics_sorted
    |apply stableDiagnostics_no_stutter|apply stableDiagnostics_idem].
Qed.

(** [Target.Equal] decides equality of targets, policy overrides included. *)
Theorem Target_Equal_exact v other : Target_Equal v other = true ↔ v = other.
Proof. apply Target_Equal_spec. Qed.

(** ** Witnesses *)

Lemma sample_reordered : Reordered sample_spec reordered_spec.
Proof.
  split; try reflexivity.
  - simpl. apply Permutation_swap.
  - exists sample_resources. split.
    + by apply Forall_Forall2_diag, Forall_true.
    + symmetry. apply reverse_Permutation.
Qed.

Lemma NewFrozenInput_canonical_witness :
  ∃ f, NewFrozenInput sample_spec = Ok f ∧ NewFrozenInput reordered_spec = Ok f.
Proof.
  assert (∃ g, NewFrozenInput reordered_spec = Ok g) as [g Hg]
    by (eexists; vm_compute; reflexivity).
  exists sample_input. split; [apply sample_new|]. rewrite Hg. f_equal. symmetry.
  exact (NewFrozenInput_canonical sample_spec reordered_spec sample_input g
           sample_reordered sample_new Hg).
Defined.

Lemma NewFrozenInput_revalidates_witness :
  FrozenInput_Validate sample_input = None ∧ WellFormed sample_spec ∧
  WellFormed (normalize_spec sample_spec) ∧
  sample_input = {| fi_spec := Some (normalize_spec sample_spec) |}.
Proof.
  apply (NewFrozenInput_revalidates sample_spec sample_input);
    [apply sample_order_blind|apply sample_new].
Defined.

Lemma contentHash_order_blind_witness :
  let swapped := {| rsw_SchemaVersion := 1; rsw_Format := DomainCIDRText;
                    rsw_Entries := reverse sample_entries ++ sample_entries |} in
  contentHash swapped = contentHash sample_write.
Proof.
  cbv zeta. apply contentHash_order_blind; [reflexivity|reflexivity|].
  intros e. cbn [rsw_Entries sample_write]. rewrite elem_of_app, elem_of_reverse. tauto.
Defined.

Lemma DNSProfile_Validate_exact_witness : dns_cycles (dp_Resolvers sample_dns) = [].
Proof. apply (DNSProfile_Validate_exact sample_dns). vm_compute. reflexivity. Defined.
