(* ===== verification/CatalogTheorems.v ===== *)
(** Theorems of the catalog: dependency expansion, the life of a resource and of the
    pins on it, the references of a payload, and the locked core builds. *)
From stdpp Require Import relations.
From S2P Require Import Prelude Diagnostics IRTypes Hashes IRValidate Frozen FrozenFacts Catalog.
From S2P Require Import CatalogFacts Depgraph DepgraphFacts Capability Sample.

Section Expansion.
Context (resources : gmap string Resource) (roots : list ID) (options : Options).
Abbreviation opts := (with_default_limit options).

(** (C39) An expansion without diagnostics lists exactly what the roots reach, each
    resource once and after everything it references, and all of it is present,
    enabled, not excluded and of the expected kinds. *)
Theorem Expand_exact out :
  Expand resources roots options = Some out → res_Diagnostics out = [] →
  Topo resources opts (res_Order out) ∧ NoDup (res_Order out) ∧
  (∀ id, id ∈ res_Order out ↔ ∃ root, root ∈ roots ∧ rtc (Dep resources opts) root id) ∧
  Forall2 (λ id r, resources !! id = Some r) (res_Order out) (res_Resources out).
Proof. apply Expand_clean. Qed.

(** Conversely nothing is reported when everything the roots reach is present,
    enabled, not excluded, in one scope, well typed and acyclic, and fits the limit. *)
Theorem Expand_complete scope out :
  Expandable resources opts roots scope →
  Expand resources roots options = Some out → res_Diagnostics out = [].
Proof. apply Expand_quiet. Qed.

(** Expansion terminates on every graph, cyclic ones included, lists at most the
    limit of resources and only what the roots reach; a cycle below a root is always
    reported. *)
Theorem Expand_total :
  ∃ out, Expand resources roots options = Some out ∧
    Z.of_nat (length (res_Order out)) ≤ Z.max 0 (o_MaxResources opts) ∧
    (∀ id, id ∈ res_Order out → ∃ root, root ∈ roots ∧ rtc (Dep resources opts) root id) ∧
    (∀ root id, root ∈ roots → rtc (Dep resources opts) root id → tc (Dep resources opts) id id →
       res_Diagnostics out ≠ []).
Proof.
  destruct (Expand_is_Some resources roots options) as [out E]. exists out.
  pose proof E as (x & _ & _ & _ & _ & Hr & Hb)%Expand_walked. split_and!; try done.
  intros root id Hroot Hreach Hcyc Hnil.
  destruct (Expand_clean _ _ _ _ E Hnil) as (HT & Hnd & Hin & _).
  eapply Topo_acyclic; [exact HT|exact Hnd| |exact Hcyc]. apply Hin. eauto.
Qed.
End Expansion.

Section Life.
Context {P : Platform} {C : Codec}.

(** An update succeeds exactly when the resource is no client preset, both
    versions are admissible, the kind stays and the counters have room; the new
    version has the next revision, and the next epoch exactly when the credentials
    changed or the resource was disabled. *)
Theorem Apply_exact old input next :
  CodecRoundTrip →
  Apply old input = Ok next ↔
    md_Kind (r_Metadata old) ≠ KindClientPreset ∧ Admissible old ∧
    md_Revision (r_Metadata old) ≠ MaxInt64 ∧
    payloadKind (ui_Payload input) = md_Kind (r_Metadata old) ∧
    Admissible (with_update old input) ∧
    (bumps old input = true →
       md_SecurityEpoch (r_Metadata old) ≠ MaxInt64 ∧
       Admissible (bump_epoch (with_update old input))) ∧
    next = updated old input.
Proof. apply Apply_Ok. Qed.

(** Pins expire: whatever sequence of updates, revocations and deletions follows,
    a pin that fitted the earlier version is rejected on the later one for its
    revision, and for its security epoch too once a step changed the credentials,
    disabled, revoked or deleted the resource. *)
Theorem pins_expire r b r' ref path :
  CodecRoundTrip → history r b r' → check_pin ref r path = [] →
  issue_at ReferenceRevision (path +:+ "/revision") (fr_ResourceID ref) ∈ check_pin ref r' path ∧
  (b = true →
   issue_at ReferenceEpoch (path +:+ "/security_epoch") (fr_ResourceID ref) ∈ check_pin ref r' path).
Proof.
  intros Hc Hh (_ & Hr & He)%check_pin_nil.
  apply (history_counters _ _ _ Hc) in Hh as (_ & _ & Hrev & Hep & Hb).
  unfold check_pin. cbv zeta. split.
  - destruct (Z.eqb_spec (fr_Revision ref) (md_Revision (r_Metadata r'))); [lia|]. set_solver.
  - intros ->. specialize (Hb eq_refl).
    destruct (Z.eqb_spec (fr_SecurityEpoch ref) (md_SecurityEpoch (r_Metadata r'))); [lia|]. set_solver.
Qed.

(** Counters never overflow: along any history the revision and the epoch stay
    within 1 and 2^63-1, the identity, scope and kind do not change. *)
Theorem counters_never_overflow r b r' :
  CodecRoundTrip → counters_in_range r → history r b r' →
  counters_in_range r' ∧ rid r' = rid r ∧ md_Kind (r_Metadata r') = md_Kind (r_Metadata r).
Proof.
  intros Hc Hr Hh. split; [by eapply history_range|].
  by apply (history_counters _ _ _ Hc) in Hh as (? & ? & _).
Qed.

(** No reference is missed: every edge that the snapshot's validation follows
    from a payload is extracted, with its kind, its path, and the source's pin. *)
Theorem ExtractReferences_complete r refs e :
  ExtractReferences r = Ok refs → e ∈ payload_edges (r_Payload r) →
  ∃ ref, ref ∈ refs ∧ ref_TargetID ref = e_target e ∧ ref_ExpectedKind ref = e_kind e ∧
    ref_SourceID ref = rid r ∧ ref_SourceRevision ref = md_Revision (r_Metadata r) ∧
    ref_Path ref = "/payload" +:+ e_field e.
Proof. apply ExtractReferences_edges. Qed.

(** A parsed catalog finds each of its builds under its identifier and no other,
    holds one build per family and architecture and all six of them, no verified
    record, and every rejection of the lock. *)
Theorem parse_catalog_ok latest lock combos cat :
  parse latest lock combos = Ok cat → CatalogOk lock cat.
Proof. apply parse_ok. Qed.

(** The lock proves nothing: on a parsed catalog requiring a verified capability
    always fails. *)
Theorem RequireVerified_always_fails latest lock combos cat id key :
  parse latest lock combos = Ok cat → RequireVerified cat id key ≠ None.
Proof. intros H. eapply RequireVerified_fails, parse_ok, H. Qed.

(** A build cannot be renamed: in a parsed catalog the identifier of every build
    is the version 5 UUID of its family, tag, platform and binary digest. *)
Theorem catalog_ids_named latest lock combos cat b :
  parse latest lock combos = Ok cat → b ∈ cat_builds cat →
  b_ID b = NameUUID (lf_IDNamespace lock)
             (BuildName (b_Family b) (b_GitTag b) (b_OS b) (b_Arch b) (b_BinarySHA256 b)) ∧
  sha256Digest (b_BinarySHA256 b) = true.
Proof. intros H%parse_ok. by apply (ck_named _ _ H). Qed.
End Life.

(** ** Witnesses *)

(** The sample snapshot, expanded from its routing profile. *)
Definition sample_table : gmap string Resource := resource_table sample_resources.
Definition sample_options : Options :=
  {| o_ScopeID := ""; o_Exclude := ∅; o_MaxResources := 0; o_Refs := ExtractReferences |}.

Definition expanded_order : list ID := ["n1"; "n2"; "c1"; "g1"; "s1"; "r1"].

Lemma sample_expanded :
  ∃ out, Expand sample_table ["r1"] sample_options = Some out ∧ res_Order out = expanded_order ∧
    res_Diagnostics out = [].
Proof. eexists. vm_compute. done. Qed.

Lemma Expand_exact_witness :
  ∃ out, Expand sample_table ["r1"] sample_options = Some out ∧
    NoDup (res_Order out) ∧
    (∀ id, id ∈ res_Order out ↔
       ∃ root, root ∈ ["r1"] ∧
         rtc (Dep sample_table (with_default_limit sample_options)) root id).
Proof.
  destruct sample_expanded as (out & E & _ & Hd). exists out. split; [exact E|].
  destruct (Expand_exact sample_table ["r1"] sample_options out E Hd) as (_ & H1 & H2 & _).
  split; [exact H1|exact H2].
Defined.

(** The listed resources have nothing to report, by evaluation. *)
Definition sound_in_sample (id : ID) : bool :=
  match sample_table !! id with
  | Some r =>
      md_Enabled (r_Metadata r) && (md_ScopeID (r_Metadata r) =s "scope") &&
      match ExtractReferences r with
      | Ok refs =>
          forallb (λ ref, match sample_table !! ref_TargetID ref with
                          | Some t => md_Kind (r_Metadata t) =s ref_ExpectedKind ref
                          | None => false end) refs
      | Err _ => false
      end
  | None => false
  end.

Lemma sample_sound id :
  id ∈ expanded_order →
  ∃ r refs, sample_table !! id = Some r ∧ md_Enabled (r_Metadata r) = true ∧
    md_ScopeID (r_Metadata r) = "scope" ∧ ExtractReferences r = Ok refs ∧
    ∀ ref, ref ∈ refs → ∃ t, sample_table !! ref_TargetID ref = Some t ∧
      md_Kind (r_Metadata t) = ref_ExpectedKind ref.
Proof.
  assert (H : forallb sound_in_sample expanded_order = true) by (vm_compute; reflexivity).
  rewrite forallb_forall in H. intros Hid%list_elem_of_In%H. revert Hid. unfold sound_in_sample.
  destruct (sample_table !! id) as [r|]; [|done].
  rewrite !andb_true_iff, String.eqb_eq. intros [[He Hs] Hr].
  destruct (ExtractReferences r) as [refs|] eqn:E; [|done]. exists r, refs. split_and!; try done.
  rewrite forallb_forall in Hr. intros ref Hin%list_elem_of_In%Hr. revert Hin.
  case_match; [|done]. intros Hk%String.eqb_eq. by eexists.
Qed.

(** What a clean expansion lists is what it needs. *)
Lemma sample_expandable :
  Expandable sample_table (with_default_limit sample_options) ["r1"] "scope".
Proof.
  destruct sample_expanded as (out & E & Ho & Hd).
  destruct (Expand_clean _ _ _ _ E Hd) as (HT & Hnd & Hin & _). rewrite Ho in HT, Hnd, Hin.
  assert (Hneed : ∀ id, Needed sample_table (with_default_limit sample_options) ["r1"] id →
            id ∈ expanded_order) by (intros id Hid; by apply Hin).
  split; [done|by left| |].
  - intros id Hid%Hneed. split; [apply not_elem_of_empty| |].
    + by eapply Topo_acyclic.
    + apply sample_sound. done.
  - exists expanded_order. split; [done|]. vm_compute. by intros.
Qed.

Lemma Expand_complete_witness :
  ∃ out, Expand sample_table ["r1"] sample_options = Some out ∧ res_Diagnostics out = [].
Proof.
  destruct sample_expanded as (out & E & _). exists out. split; [exact E|].
  exact (Expand_complete sample_table ["r1"] sample_options "scope" out sample_expandable E).
Defined.

(** A node is revoked: its password is presumed known. *)
Definition leaked : Resource :=
  sample_resource "n1" KindNode (Payload_Node (sample_node "one.example" "pw1")).
Definition rotated : UpdateInput :=
  {| ui_Name := "n1"; ui_Tags := ["b"; "a"]; ui_Enabled := true;
     ui_Payload := Payload_Node (sample_node "one.example" "pw2") |}.

Lemma leaked_step : ∃ next, history leaked true next.
Proof.
  destruct (Apply leaked rotated) as [next|e] eqn:E; [|exfalso; vm_compute in E; done].
  exists next. apply history_one. change true with (bumps leaked rotated). by constructor.
Qed.

Lemma Apply_exact_witness :
  ∃ next, Apply leaked rotated = Ok next ∧ next = updated leaked rotated.
Proof.
  destruct (Apply leaked rotated) as [next|e] eqn:E; [|exfalso; vm_compute in E; done].
  exists next. split; [reflexivity|].
  apply (Apply_exact leaked rotated next sample_codec_roundtrip). exact E.
Defined.

Lemma pins_expire_witness :
  ∃ next, history leaked true next ∧
  issue_at ReferenceRevision "/members/0/revision" "n1" ∈
    check_pin (pin "n1" KindNode) next "/members/0" ∧
  issue_at ReferenceEpoch "/members/0/security_epoch" "n1" ∈
    check_pin (pin "n1" KindNode) next "/members/0".
Proof.
  destruct leaked_step as [next H]. exists next. split; [exact H|].
  assert (Hpin : check_pin (pin "n1" KindNode) leaked "/members/0" = []) by reflexivity.
  destruct (pins_expire leaked true next (pin "n1" KindNode) "/members/0"
              sample_codec_roundtrip H Hpin) as [H1 H2].
  split; [exact H1|exact (H2 eq_refl)].
Defined.

Lemma counters_never_overflow_witness :
  ∃ next, history leaked true next ∧ counters_in_range next.
Proof.
  destruct leaked_step as [next H]. exists next. split; [exact H|].
  assert (Hr : counters_in_range leaked) by (unfold counters_in_range; simpl; unfold MaxInt64; lia).
  exact (proj1 (counters_never_overflow leaked true next sample_codec_roundtrip Hr H)).
Defined.

Lemma ExtractReferences_complete_witness :
  ∃ refs ref, ExtractReferences (sample_resource "c1" KindChain (Payload_Chain
      {| ch_SchemaVersion := 1; ch_Hops := [{| nr_NodeID := "n1" |}; {| nr_NodeID := "n2" |}];
         ch_FailurePolicy := FailClosed |})) = Ok refs ∧
    ref ∈ refs ∧ ref_TargetID ref = "n2" ∧ ref_Path ref = "/payload/hops/1/node_id".
Proof.
  set (r := sample_resource _ _ _).
  destruct (ExtractReferences r) as [refs|e] eqn:E; [|exfalso; vm_compute in E; done].
  destruct (ExtractReferences_complete r refs
              {| e_target := "n2"; e_kind := KindNode; e_field := "/hops/1/node_id" |} E)
    as (ref & H1 & H2 & _ & _ & _ & H3).
  { apply list_elem_of_lookup. exists 1%nat. reflexivity. }
  exists refs, ref. split; [reflexivity|]. split; [exact H1|]. split; [exact H2|exact H3].
Defined.

Lemma parse_catalog_ok_witness : CatalogOk cores_lock locked_catalog.
Proof. apply (parse_catalog_ok false cores_lock p0_combinations). apply locked_parses. Defined.

Lemma RequireVerified_always_fails_witness :
  RequireVerified locked_catalog "42f06ab1-ac85-524b-87e5-6bc1e9a82409" "chain.two_hop.tcp" ≠ None.
Proof.
  apply (RequireVerified_always_fails false cores_lock p0_combinations). apply locked_parses.
Defined.

Lemma catalog_ids_named_witness :
  ∃ b, b ∈ cat_builds locked_catalog ∧
    b_ID b = NameUUID IDNamespace
      (BuildName (b_Family b) (b_GitTag b) (b_OS b) (b_Arch b) (b_BinarySHA256 b)).
Proof.
  destruct (Catalog_Build locked_catalog "42f06ab1-ac85-524b-87e5-6bc1e9a82409") as [b|e] eqn:E;
    [|exfalso; vm_compute in E; done].
  destruct (ck_lookup _ _ (parse_ok _ _ _ _ locked_parses) _ _ E) as [Hb _].
  exists b. split; [exact Hb|].
  exact (proj1 (catalog_ids_named false cores_lock p0_combinations locked_catalog b locked_parses Hb)).
Defined.
