(* ===== verification/EmitTheorems.v ===== *)
(** Theorems of the outputs: labels, the order and tags the emitters rely on, the
    mapping of nodes, and the check and redaction before publication. *)
From S2P Require Import Prelude Diagnostics IRTypes Hashes IRValidate Capability Labels Adapter.
From S2P Require Import Compiler MemberFacts Publication Sample.

(** ** Labels *)

(** Labelling terminates on all inputs; when it succeeds every item keeps its
    place and its digest, has between 8 and 64 digits, and all the tags of all the
    items are distinct. *)
Theorem assign_total_distinct digest items :
  ∃ r, assign_states digest items = Some r ∧
  ∀ states, r = Ok states →
    lab_item <$> states = items ∧
    Forall (λ s, lab_hex s = digest (li_material (lab_item s)) ∧
                 (labelMinLen ≤ lab_n s ≤ labelHashLen)%nat) states ∧
    NoDup (mjoin (label_tags <$> states)).
Proof.
  destruct (assign_states_total digest items) as [r E]. exists r. split; [done|].
  intros states ->. by apply assign_states_Ok.
Qed.

Lemma sha256_good items :
  NoDup ((λ it, sha256Hex (li_material it)) <$> items) → GoodDigest sha256Hex items.
Proof.
  intros H. split; [..|done]; apply Forall_true; intros it; [apply sha256Hex_length|].
  apply hex_no_underscore, sha256Hex_chars.
Qed.

(** With SHA-256 labelling fails only on a collision: if the digests of the items'
    materials are distinct, every item gets its tags. *)
Theorem assign_succeeds items :
  NoDup ((λ it, sha256Hex (li_material it)) <$> items) →
  Forall (λ it, item_shape it = true) items →
  ∃ states labels, assign_states sha256Hex items = Some (Ok states) ∧
    assign sha256Hex items = Some (Ok labels) ∧ NoDup (mjoin (label_tags <$> states)) ∧
    (NoDup (li_key <$> items) →
     ∀ s, s ∈ states → labels !! li_key (lab_item s) = Some (label_tags s)).
Proof.
  intros Hd Hs. destruct (assign_states_good _ _ (sha256_good _ Hd) Hs) as (states & E & _).
  exists states, (label_map states). unfold assign. rewrite E.
  apply assign_states_Ok in E as (Hi & _ & Hn). split_and!; try done.
  intros Hk s Hin. apply label_map_lookup; [|done].
  rewrite <-Hi, <-list_fmap_compose in Hk. exact Hk.
Qed.

(** ** What the emitters rely on *)

Section Emit.
Context {T : GoText}.

(** The collision check accepts exactly the graphs with at most 2000 outbounds
    and distinct, non-empty, unreserved tags; it changes nothing, and in what it
    returns only the second hop of a chain has a dialer: the chain's first hop. *)
Theorem OutboundRefs_exact input refs :
  (OutboundRefs input = Ok refs ↔ OutboundsOk input ∧ refs = outbound_list input) ∧
  ∀ ref, ref ∈ outbound_list input → or_DialerTag ref ≠ "" →
    ∃ c, c ∈ in_Chains input ∧ or_Tag ref = ci_TagH2 c ∧ or_Resource ref = ci_Hop2 c ∧
      or_DialerTag ref = ci_TagH1 c.
Proof.
  split; [apply OutboundRefs_Ok|].
  intros ref [(_ & H & _)|(c & Hc & [(_ & H & _)|(_ & ? & ? & ?)])]%outbound_list_dialer Hd;
    [done|done|]. by exists c.
Qed.

(** Outbounds are emitted once each, the exit first and the others sorted by tag;
    without an outbound of the exit's tag the exit is the final tag or a policy. *)
Theorem OrderedOutboundRefs_canonical input exit ordered :
  OrderedOutboundRefs input = Ok (exit, ordered) →
  ExitTag input = Ok exit ∧ ordered ≡ₚ outbound_list input ∧ NoDup (or_Tag <$> ordered) ∧
  ∃ first rest, ordered = first ++ rest ∧ Sorted string_le (or_Tag <$> rest) ∧
    ((∃ ref, first = [ref] ∧ or_Tag ref = exit) ∨
     (first = [] ∧ exit ∉ (or_Tag <$> outbound_list input) ∧
      (exit = in_FinalTag input ∨ in_Policies input ≠ []))).
Proof. apply OrderedOutboundRefs_Ok. Qed.
End Emit.

Section MapNode.
Context {P : Platform}.

(** The credentials, transport and security of a mapped node are the node's own. *)
Record Retains (node : Node) (m : MappedNode) : Prop := {
  re_node : mn_Node m = node;
  re_auth : match n_Auth node with
            | Auth_MethodPassword a =>
                mn_Username m = "" ∧ mn_UUID m = "" ∧
                mn_Password m = mpa_Password a ∧ mn_Cipher m = mpa_Method a
            | Auth_VMess a =>
                mn_Username m = "" ∧ mn_Password m = "" ∧
                mn_UUID m = vma_UUID a ∧ mn_Cipher m = vma_Cipher a
            | Auth_UUID a =>
                mn_Username m = "" ∧ mn_Password m = "" ∧ mn_Cipher m = "" ∧ mn_UUID m = ua_UUID a
            | Auth_Password a =>
                mn_Username m = "" ∧ mn_UUID m = "" ∧ mn_Cipher m = "" ∧
                mn_Password m = pa_Password a
            | Auth_UsernamePassword a =>
                mn_UUID m = "" ∧ mn_Cipher m = "" ∧
                mn_Username m = upa_Username a ∧ mn_Password m = upa_Password a
            | _ => mn_Username m = "" ∧ mn_UUID m = "" ∧ mn_Cipher m = "" ∧ mn_Password m = ""
            end;
  re_flow : mn_Flow m = default "" (ft_ProtocolVariant (n_Features node));
  re_ws : ∀ t, mn_WS m = Some t ↔ n_Transport node = Transport_WS t;
  re_tls : ∀ s, mn_TLS m = Some s ↔ n_Security node = Security_TLS s;
  re_reality : ∀ s, mn_Reality m = Some s ↔ n_Security node = Security_Reality s }.

(** The node has a concrete variant in each of its three unions. *)
Definition concrete (node : Node) : Prop :=
  n_Auth node ≠ Auth_nil ∧ n_Transport node ≠ Transport_nil ∧ n_Security node ≠ Security_nil.

(** A node maps only when it is valid and asks for neither UDP nor multiplexing,
    and then nothing is dropped; conversely such a node, with no nil pointer in its
    authentication, always maps. *)
Theorem MapNode_retains r path target :
  (∀ m, MapNode r path target = Ret m →
     ∃ node, r_Payload r = Payload_Node node ∧ Node_Validate node = None ∧
       ft_UDP (n_Features node) ≠ Some true ∧ ft_Multiplex (n_Features node) ≠ Some true ∧
       concrete node ∧ Retains node m) ∧
  (∀ node, r_Payload r = Payload_Node node → Node_Validate node = None →
     ft_UDP (n_Features node) ≠ Some true → ft_Multiplex (n_Features node) ≠ Some true →
     concrete node → (∀ v, n_Auth node ≠ Auth_typed_nil v) →
     ∃ m, MapNode r path target = Ret m).
Proof.
  assert (Hset : ∀ x, is_set x = false ↔ x ≠ Some true) by (intros [[]|]; split; naive_solver).
  unfold MapNode, concrete. cbv zeta. split.
  - intros m. destruct (r_Payload r) as [| |node| | | | | | |]; try done.
    destruct (Node_Validate node) eqn:Ev; [done|].
    destruct (is_set (ft_UDP _)) eqn:E1; [done|]. destruct (is_set (ft_Multiplex _)) eqn:E2; [done|].
    apply Hset in E1, E2. intros E. exists node. split; [done|]. split; [done|].
    split; [done|]. split; [done|].
    destruct (n_Auth node) eqn:Ea, (n_Transport node) eqn:Et, (n_Security node) eqn:Es;
      cbn [map_auth] in E;
      try match type of E with context [if ?b then _ else _] => destruct b; [|done] end;
      cbn in E; simplify_eq; (split; [done|]); split; rewrite ?Ea, ?Et, ?Es; simpl; naive_solver.
  - intros node -> -> H1 H2 (H3 & H4 & H5) H6. apply Hset in H1, H2. rewrite H1, H2.
    destruct (n_Auth node); try done; try (by destruct (H6 _ eq_refl)); cbn [map_auth];
      destruct (n_Transport node); try done; destruct (n_Security node); try done; by eexists.
Qed.
End MapNode.

(** ** Publication *)

Section Publish.
Context {P : Platform} {T : GoText}.


(** The walk looks at every field of every nested object: it accepts exactly the
    documents all of whose fields are acceptable where they stand. *)
Theorem walk_exact v path :
  walk v path = None ↔
  ∀ p key w, occurs v path p key w → field_ok p key w = true.
Proof. apply walk_None. Qed.

Lemma redact_keeps v base :
  (∀ p key w, occurs v base p key w → is_secret key = false) → redact v = v.
Proof.
  revert base. induction v as [| | | | |items IH|fields IH] using JValue_nested_ind;
    intros base Hs; try done.
  - rewrite redact_array. f_equal. rewrite <-(list_fmap_id items) at 2.
    apply list_fmap_ext. intros i x Hx. rewrite Forall_lookup in IH.
    apply (IH _ _ Hx (base +:+ "/" +:+ index_string i)).
    intros p key w Ho. eapply Hs. by econstructor.
  - rewrite redact_object. f_equal. rewrite <-(list_fmap_id fields) at 2.
    apply list_fmap_ext. intros i [k x] Hx. simpl.
    assert (Hin : (k, x) ∈ fields) by by eapply list_elem_of_lookup_2.
    rewrite (Hs base k x) by by constructor. rewrite Forall_forall in IH.
    f_equal. apply (IH _ Hin (base +:+ "/" +:+ k)).
    intros p key w Ho. eapply Hs. by eapply occurs_field.
Qed.

(** The displayed document shows no secret: at every depth the value of a secret
    key is the mark; redacting again changes nothing, and a document without secret
    keys is displayed as it is. *)
Theorem RedactedNative_hides decode encode data format out :
  RedactedNative decode encode data format = Some out →
  ∃ doc v, decode format data = Some doc ∧ encode format v = Some out ∧
    (∀ p key w, occurs v "" p key w → is_secret key = true → w = JString "[REDACTED]") ∧
    redact v = v ∧
    ((∀ p key w, occurs (JObject doc) "" p key w → is_secret key = false) → v = JObject doc).
Proof.
  unfold RedactedNative. destruct (decode format data) as [doc|] eqn:E; [|done]. intros He.
  exists doc, (redact (JObject doc)). split_and!; try done.
  - intros p key w. apply redact_hides.
  - apply redact_idem.
  - apply redact_keeps.
Qed.
End Publish.

(** ** Witnesses *)

Definition sample_items : list labelItem :=
  [nodeLabelItem "n1" 1; nodeLabelItem "n2" 1; chainLabelItem "c1" 1; policyLabelItem "g1" 1].

Lemma sample_items_distinct : NoDup ((λ it, sha256Hex (li_material it)) <$> sample_items).
Proof. apply (bool_decide_eq_true_1 _). vm_compute. reflexivity. Qed.

Lemma assign_total_distinct_witness :
  ∃ states, assign_states sha256Hex sample_items = Some (Ok states) ∧
    NoDup (mjoin (label_tags <$> states)).
Proof.
  destruct (assign_total_distinct sha256Hex sample_items) as (r & E & H).
  destruct r as [states|e]; [|exfalso; vm_compute in E; discriminate E].
  exists states. split; [exact E|]. exact (proj2 (proj2 (H states eq_refl))).
Defined.

Lemma assign_succeeds_witness :
  ∃ labels, assign sha256Hex sample_items = Some (Ok labels).
Proof.
  assert (Hs : Forall (λ it, item_shape it = true) sample_items)
    by (repeat constructor; vm_compute; reflexivity).
  destruct (assign_succeeds sample_items sample_items_distinct Hs) as (_ & labels & _ & E & _).
  exists labels. exact E.
Defined.

Definition sample_emit : EmitInput :=
  match Prepare sha256Hex sample_catalog sample_input sample_target with
  | Ret (g, _) => emit_input g
  | _ => emit_input (base_graph sample_target sample_build sample_spec [] [])
  end.

Lemma OrderedOutboundRefs_canonical_witness :
  ∃ exit ordered, OrderedOutboundRefs sample_emit = Ok (exit, ordered) ∧
    ordered ≡ₚ outbound_list sample_emit ∧ NoDup (or_Tag <$> ordered).
Proof.
  destruct (OrderedOutboundRefs sample_emit) as [[exit ordered]|e] eqn:E;
    [|exfalso; vm_compute in E; discriminate E].
  exists exit, ordered. split; [reflexivity|].
  destruct (OrderedOutboundRefs_canonical sample_emit exit ordered E) as (_ & H1 & H2 & _).
  split; [exact H1|exact H2].
Defined.

Definition sample_document : JDoc :=
  [("socks-port", JInt 1080); ("bind-address", JString "127.0.0.1"); ("allow-lan", JBool false);
   ("mode", JString "rule"); ("geo-auto-update", JBool false); ("find-process-mode", JString "off");
   ("external-controller", JString (control_address sample_preset));
   ("proxies", JArray [JObject [("name", JString "n_00000000"); ("type", JString "trojan");
      ("password", JString "pw1"); ("skip-cert-verify", JBool false)]])].
Definition sample_decode (format data : string) : option JDoc :=
  if data =s "document" then Some sample_document else None.


Definition sample_encode (format : string) (v : JValue) : option string :=
  match v with JObject doc => jarray (jget doc "proxies") ≫= λ l, match l with
    | [JObject p] => match jget p "password" with JString s => Some s | _ => None end
    | _ => None end
  | _ => None end.

Lemma RedactedNative_hides_witness :
  RedactedNative sample_decode sample_encode "document" MihomoYAML = Some "[REDACTED]" ∧
  ∃ v, redact v = v.
Proof.
  assert (E : RedactedNative sample_decode sample_encode "document" MihomoYAML = Some "[REDACTED]")
    by (vm_compute; reflexivity).
  split; [exact E|].
  destruct (RedactedNative_hides _ _ _ _ _ E) as (doc & v & _ & _ & _ & H & _).
  exists v. exact H.
Defined.
