(* ===== verification/NativeTheorems.v ===== *)
(** Theorems of the compiler's output: every core, reading its document, routes and
    resolves as the profiles of the snapshot say; the compiler returns and explains. *)
From S2P Require Import Prelude Diagnostics IRTypes Hashes IRValidate Frozen FrozenFacts.
From S2P Require Import Capability Labels Adapter Network Domains Xray Singbox Mihomo Compiler.
From S2P Require Import Compile RouteFacts ExpandFacts MemberFacts GraphFacts.
From S2P Require Import ConditionFacts EmitFacts CompileFacts Sample.

From S2P Require XrayFacts SingboxFacts MihomoRules MihomoFacts.

Section Theorems.
Context {P : Platform} {T : GoText} {N : Network} {U : Upper} {Y : Mihomo.YAML}.
Context (Hschema : SchemaContract P) (Hemit : EmitContract).
Context (catalog : CapabilityCatalog) (src : FrozenInputSpec) (input : FrozenInput) (target : Target).
Context (Hnew : NewFrozenInput src = Ok input).

(** (C1) The compiler never panics on a frozen input, whatever the target and the
    catalog; an artifact it returns is the document of the prepared graph, carries the
    snapshot and target it was asked for, has at most 2000 outbounds and 20000 rules,
    and is within the limit of bytes. *)
Theorem Compile_never_panics canceled :
  TextContract →
  safe (Compile catalog canceled input target) (Compiled catalog input target).
Proof. intros Htext. by eapply Compile_safe. Qed.

(** Every failure of the compiler, from validation to emission, carries at least
    one diagnostic. *)
Theorem Compile_explains canceled e :
  canceled ≠ Some [] → Compile catalog canceled input target = Fails e → e ≠ [].
Proof.
  intros Hc E. pose proof (explains_Compile catalog canceled input target Hc) as H. by rewrite E in H.
Qed.

Section Prepared.
Context (g : Graph) (diags : Diagnostics).
Context (Hprep : Prepare sha256Hex catalog input target = Ret (g, diags)).


(** (C2) Xray refines the routing profile: for every connection, the first rule of the
    document that matches it leads to the outbound of what the profile's first enabled
    matching rule, or its final target, refers to. *)
Theorem xray_refines_routing doc ref :
  Xray.emit_document (emit_input g) = Ret doc → fs_RoutingProfile (normalize_spec src) = Some ref →
  ∃ resources r p, MapOf target (fs_Resources (normalize_spec src)) resources ∧
    resources !! fr_ResourceID ref = Some r ∧ r_Payload r = Payload_RoutingProfile p ∧
    ∀ c (X : XrayFacts.XrayMatching c), ∃ native,
      XrayFacts.native_route c InboundTag (Xray.doc_Rules doc) = Some native ∧
      Reaches g (route_profile (conn_atom c) resources (rp_Rules p) (rp_Final p)) native.
Proof.
  intros Hdoc Href.
  destruct (prepared_route Hschema catalog src input target Hnew g diags Hprep ref Href)
    as (resources & r & p & H1 & H2 & H3 & H4).
  exists resources, r, p. split_and!; [done..|]. intros c X.
  pose proof (XrayFacts.xray_emit_document_safe (emit_input g)
    (prepared_ready Hschema Hemit _ _ _ _ _ _ Hnew Hprep)) as Hs.
  rewrite Hdoc in Hs. eexists. split; [by apply (XrayFacts.em_routes _ _ Hs)|]. apply H4.
Qed.





End Prepared.
End Theorems.

(** ** Nodes and names *)

Section Nodes.
Context {P : Platform}.

(** The general mapping of a node agrees with the reference mapping of Trojan over
    TLS: wherever both accept a resource, each family renders the same outbound from
    either. The fingerprint of a node is never the empty text. *)
Theorem trojan_outbound_equivalence r path target m mapped tag dialer :
  MapNode r path target = Ret m → MapTrojanNativeTLS r path target = Ok mapped →
  (∀ n t, r_Payload r = Payload_Node n → n_Security n = Security_TLS t →
     tls_ClientFingerprint t ≠ Some "") →
  Xray.nodeOutbound tag m dialer = Ret (Xray.trojanOutbound tag mapped dialer) ∧
  Singbox.nodeOutbound tag m dialer = Ret (Singbox.trojanOutbound tag mapped dialer) ∧
  Mihomo.nodeProxy tag m dialer = Ret (Mihomo.trojanProxy tag mapped dialer).
Proof.
  intros Hm (node & auth & tcp & tls & verify & Hp & Hproto & Ha & Hk & Ht & Hn & Hs & Hmode & Hv &
    H1 & H2 & H3 & ->)%MapTrojanNativeTLS_exact Hf.
  specialize (Hf _ _ Hp Hs). unfold MapNode in Hm. rewrite Hp in Hm. cbv zeta in Hm.
  destruct (Node_Validate node); [done|]. destruct (is_set _); [done|]. destruct (is_set _); [done|].
  rewrite Ha, Ht, Hs, H2 in Hm. simpl in Hm. injection Hm as <-. split_and!.
  - unfold Xray.nodeOutbound. simpl. by rewrite Hv, Hproto.
  - unfold Singbox.nodeOutbound, Singbox.node_tls, Singbox.trojanOutbound. simpl. rewrite Hv, Hproto.
    simpl. destruct (tls_ClientFingerprint tls) as [f|].
    + simpl. destruct (String.eqb_spec f ""); [naive_solver|]. destruct (ft_UDP _) as [[]|]; done.
    + simpl. destruct (ft_UDP _) as [[]|]; done.
  - unfold Mihomo.nodeProxy, Mihomo.node_tls, Mihomo.trojanProxy. simpl. rewrite Hv, Hproto. simpl.
    destruct (ft_UDP _) as [[]|]; done.
Qed.
End Nodes.

(** The reduction of a condition to domain patterns is exact: when it succeeds, its
    patterns match a name exactly when the condition holds of the name, intersections
    included, in the notation of either family. *)
Theorem dnsDomains_exact c :
  (∀ l, Xray.dnsDomains c = Ok l →
     ∀ d, patterns_match "domain" l d = eval (domain_atom d) c) ∧
  (∀ l, Mihomo.dnsDomains c = Ok l →
     ∀ d, patterns_match "suffix" l d = eval (domain_atom d) c).
Proof.
  split; intros l Hl d.
  - by apply (domains_of_exact "full" "domain" eq_refl eq_refl ltac:(done) c l).
  - by apply (domains_of_exact "exact" "suffix" eq_refl eq_refl ltac:(done) c l).
Qed.

(** ** Where the emitters refuse what they could emit *)

(** A graph of one node, with one rule on the exact name [name]. *)
Definition one_rule_input (name password : string) : EmitInput :=
  {| in_SnapshotID := "snap"; in_TargetKey := "k";
     in_Independents := [{| io_Tag := "n_00000000";
       io_Resource := sample_resource "n1" KindNode (Payload_Node (sample_node "one.example" "pw")) |}];
     in_Chains := [{| ci_ResourceID := "c1"; ci_Revision := 1; ci_TagH1 := "c_00000000_h1";
       ci_TagH2 := "c_00000000_h2";
       ci_Hop1 := sample_resource "n1" KindNode (Payload_Node (sample_node "one.example" "pw"));
       ci_Hop2 := sample_resource "n2" KindNode (Payload_Node (sample_node "two.example" password));
       ci_FailurePolicy := FailClosed |}];
     in_Policies := []; in_FinalTag := "n_00000000";
     in_Routing := Some {| ri_ResourceID := "r1"; ri_Mode := PreserveDomain;
       ri_Rules := [{| ru_Condition := Cond "domain" [name] []; ru_Target := "c_00000000_h2";
                       ru_FieldPath := "/payload/rules/0" |}] |};
     in_DNS := None; in_Preset := None |}.

(** The Mihomo guard on implicit direct traffic takes the name of a destination for the
    target of a rule: no rule uses direct, and yet a name that starts with "direct" is
    refused where any other name is emitted. *)
Theorem mihomo_refuses_direct_names :
  UsesTag (one_rule_input "direct.example" "pw") "direct" = false ∧
  Mihomo.emit_document (one_rule_input "direct.example" "pw") =
    Fails [CompileIssue CompileDialConflict "/rules" "k" ""] ∧
  ∃ doc, Mihomo.emit_document (one_rule_input "other.example" "pw") = Ret doc.
Proof. split_and!; [by vm_compute..|]. eexists. vm_compute. reflexivity. Qed.

(** The Xray guard on dial fields takes a credential for the name of a field: a second
    hop whose password is the word "proxySettings" is refused. *)
Theorem xray_refuses_password :
  Xray.emit_document (one_rule_input "other.example" "proxySettings") =
    Fails [CompileIssue CompileDialConflict "/chains/0/h2/streamSettings/proxySettings" "k" "n2"] ∧
  ∃ doc, Xray.emit_document (one_rule_input "other.example" "pw") = Ret doc.
Proof. split; [by vm_compute|]. eexists. vm_compute. reflexivity. Qed.

(** ** Witnesses *)

Lemma Compile_never_panics_witness :
  (∃ out, Compile native_catalog None native_input xray_target = Ret out) ∧
  safe (Compile native_catalog None native_input xray_target)
    (Compiled native_catalog native_input xray_target).
Proof.
  split; [eexists; vm_compute; reflexivity|].
  apply (Compile_never_panics sample_schema sample_emit native_catalog native_spec native_input
    xray_target native_new None sample_texts).
Defined.

Lemma Compile_explains_witness :
  ∃ e, Compile native_catalog None native_input sample_target = Fails e ∧ e ≠ [].
Proof.
  eexists. split; [vm_compute; reflexivity|].
  apply (Compile_explains native_catalog native_input sample_target None); [done|vm_compute; reflexivity].
Defined.

(** The sample for each family, prepared and emitted. *)
Definition emits {A} (emit : EmitInput → outcome Diagnostics A) (t : Target) : bool :=
  match Prepare sha256Hex native_catalog native_input t with
  | Ret (g, _) => match emit (emit_input g) with Ret _ => true | _ => false end
  | _ => false
  end.

Lemma emits_sample {A} (emit : EmitInput → outcome Diagnostics A) t :
  emits emit t = true →
  ∃ g diags doc, Prepare sha256Hex native_catalog native_input t = Ret (g, diags) ∧
    emit (emit_input g) = Ret doc.
Proof.
  unfold emits. destruct (Prepare _ _ _ _) as [[g diags]| |] eqn:E; [|done..].
  destruct (emit (emit_input g)) as [doc| |] eqn:Ed; [|done..]. intros _. exists g, diags, doc. split; [reflexivity|exact Ed].
Qed.

Lemma xray_sample : ∃ g diags doc,
  Prepare sha256Hex native_catalog native_input xray_target = Ret (g, diags) ∧
  Xray.emit_document (emit_input g) = Ret doc.
Proof. apply emits_sample. by vm_compute. Qed.


Lemma xray_refines_routing_witness :
  ∃ g doc, Xray.emit_document (emit_input g) = Ret doc ∧
  ∃ resources r p, MapOf xray_target (fs_Resources (normalize_spec native_spec)) resources ∧
    resources !! "r1" = Some r ∧ r_Payload r = Payload_RoutingProfile p ∧
    ∀ c (X : XrayFacts.XrayMatching c), ∃ native,
      XrayFacts.native_route c InboundTag (Xray.doc_Rules doc) = Some native ∧
      Reaches g (route_profile (conn_atom c) resources (rp_Rules p) (rp_Final p)) native.
Proof.
  destruct xray_sample as (g & diags & doc & E & Hdoc). exists g, doc. split; [exact Hdoc|].
  apply (xray_refines_routing sample_schema sample_emit native_catalog native_spec native_input
    xray_target native_new g diags E doc (pin "r1" KindRoutingProfile)); [exact Hdoc|reflexivity].
Defined.





Lemma trojan_outbound_equivalence_witness :
  ∃ m mapped,
    Xray.nodeOutbound "t" m "d" = Ret (Xray.trojanOutbound "t" mapped "d") ∧
    Singbox.nodeOutbound "t" m "d" = Ret (Singbox.trojanOutbound "t" mapped "d") ∧
    Mihomo.nodeProxy "t" m "d" = Ret (Mihomo.trojanProxy "t" mapped "d").
Proof.
  eexists _, _.
  eapply (trojan_outbound_equivalence
    (sample_resource "n1" KindNode (Payload_Node (sample_node "one.example" "pw"))) "/p" "k");
    [vm_compute; reflexivity|vm_compute; reflexivity|].
  intros n t [= <-] [= <-]. discriminate.
Defined.
